(* ===== verification/_CoqProject ===== *)
-Q . S2P
Prelude.v
Netip.v
DeviceTypes.v
DeviceStore.v
DeviceOps.v
DeviceDurable.v
DeviceFacts.v
DeviceStep.v
DeviceLog.v
DeviceInvariant.v
DeviceValidate.v
DeviceRestore.v
DevicePreserve.v
DeviceTheorems.v
Schedule.v
Runner.v
ScheduleTheorems.v
Conflicts.v
Ring.v
SpanningTree.v
Oid.v
Mib.v
Safeconv.v
Bytes.v
Packet.v
Vlan.v
Decimal.v
MibZip.v
MibZipCodec.v
MibZipTheorems.v
Streams.v
Modbus.v
Enip.v
NetipParse.v
Text.v
DeviceClass.v
FabricTypes.v
Fabric.v
FabricDhcp.v
FabricAttachment.v
FabricFacts.v
FabricInvariant.v
FabricDomain.v
FabricTheorems.v
Placement.v
FabricRuntime.v
FabricRuntimeTheorems.v
Trunk.v
Sessions.v
Ledger.v
SessionTheorems.v
DaemonTheorems.v
Ftp.v
Hl7.v
PacketConn.v
Dhcp.v
DhcpTheorems.v
Dhcpv6.v
Dhcpv6Theorems.v
Agent.v
AgentTheorems.v
V3.v
Draft.v
DraftTheorems.v
StringOps.v
NetipPrint.v
Sanitize.v
SanitizeTheorems.v
Dns.v
DnsTheorems.v
DeviceTable.v
Clients.v
LiveIndex.v
HostEgress.v
NeighborQueue.v
NeighborTheorems.v
Informs.v
