(* ===== verification/Prelude.v ===== *)
(** * Verification of NIAC, the network device simulator

    NIAC answers on a real network for devices that do not exist: a scenario
    describes devices, the networks and routes between them and what happens
    to them over time, and the program answers ARP, DHCP, SNMP and application
    protocols for them.  This development models the logic of the program that
    decides what is answered and what state is kept, and proves what it
    guarantees.  Every definition is translated from the Go source under [src/];
    file names below are relative to [src/internal/].

    ** Parts and how they interact

    A scenario is compiled ([fabric/]) into a topology.  A session of the daemon
    ([daemon/]) runs the topology on a physical interface, alone or on a VLAN of
    a shared trunk.  Its packet stack ([protocols/]) asks the topology where a
    packet goes, keeps the state of each device in a store ([devicestate/]),
    which SNMP and the behavior timelines ([behavior/]) read and change, and
    answers the protocols.

    A file that defines a part also proves its theorems, unless they are in a
    file of the same name ending in [Theorems].

    - Values: [Netip], [NetipParse], [NetipPrint] (addresses of [net/netip], read
      and printed), [Bytes], [Text], [Decimal], [StringOps] (byte slices, white
      space, decimal text, the functions of [strings]), [Safeconv] ([safeconv/]:
      conversions at their width).  Machine integers are [Z] with their
      wrap-around written out ([uint8] to [uint64], [int64]).
    - Device state ([devicestate/]): [DeviceTypes] (data), [DeviceStore] (store,
      events, catalogs), [DeviceOps] (every mutating operation), [DeviceDurable]
      (export, validation, restore).  [DeviceStep] turns the operations into one
      step relation; [DeviceFacts], [DeviceInvariant], [DeviceValidate],
      [DeviceRestore] and [DevicePreserve] carry the invariant; [DeviceLog] and
      [DeviceTheorems] state what the store promises: every reachable store
      exports a record that validates and restores to itself, an operation that
      returns an error changes nothing, a consumer that polls loses no event
      without being told, an action is executed once.
    - Behavior timelines ([behavior/]): [Schedule] (the compiler), [Conflicts]
      (the loader's checks), [Runner] (the replay as steps over a target, a clock
      and a context).  [ScheduleTheorems], [Conflicts] and [Runner] show which
      transitions a timeline has, that exactly the conflicting scenarios are
      refused, and what a replay has done when it ends.
    - Capture and spanning tree ([protocols/]): [Ring] is the ring of recent
      frames ([capturering/]), a refinement of a bounded queue; [SpanningTree]
      the election of [stp_tree.go]: one lowest root, shortest paths, for any
      order of Go's maps.
    - SNMP ([protocols/snmp/]): [Oid], [Mib] (the information base), [Agent]
      (requests, counters, the byte budget), [V3] (the version 3 engine), [MibZip]
      and [MibZipCodec] (compressed walks).  [Mib], [Oid], [AgentTheorems], [V3]
      and [MibZipTheorems] show that walks visit every object once and in order,
      for single and bulk requests; that only authentic and timely requests reach
      the agent; that a compressed walk expands to itself.
    - Byte-stream services ([protocols/tcp_stream.go] and its servers): [Streams]
      (connections and segments: in-order delivery, bounds of the table), the
      servers [Modbus], [Enip], [Ftp], [Hl7], and [PacketConn]
      ([virtualtcp/packet_conn.go], a transition system of its goroutines).
    - DHCP ([protocols/dhcp*.go]): [Dhcp] and [DhcpTheorems] (leases, answers and
      options of version 4), [Dhcpv6] and [Dhcpv6Theorems] (the same of version 6).
    - DNS ([protocols/dns*.go]): [Dns], the records of a server and the resolver
      of names and addresses; [DnsTheorems] finds the nearest answer and reads
      back the names of reverse lookups.
    - Sanitizer ([sanitize/]): [Sanitize], the replacement of addresses and names
      in recorded walks; [SanitizeTheorems] shows that subnets stay subnets.
    - Draft topologies ([drafttopology/]): [Draft], the edits of cables between
      drafted devices, and [DraftTheorems], what they keep.
    - The fabric compiler ([fabric/]): [DeviceClass], [FabricTypes], [Fabric],
      [FabricDhcp], [FabricAttachment] translate it as a state monad.
      [FabricFacts] is its weakest-precondition calculus, [FabricInvariant] what
      every step keeps, [FabricDomain] the broadcast domains, [FabricTheorems]
      what a topology without findings promises about addresses, routes, pools
      and ports, and how the two entry points differ.
    - The fabric at run time ([protocols/fabric_runtime*.go], [fabric_egress.go],
      [discovery_egress.go], [client_placement.go]): [Placement] (clients on the
      ports of a pool), [FabricRuntime] (who answers for an address, which route
      is taken, what leaves the interface), with [FabricRuntimeTheorems];
      [Packet] ([packet.go]) and [Vlan] ([vlan.go]) are the frames they work on.
    - The tables around them ([protocols/]): [DeviceTable] ([device_table.go]),
      [LiveIndex] ([live_address_index.go]: the addresses that answer, equal to
      what the stores configure), [Clients] (the external clients seen on the
      wire, their ports and what is reported of them).
    - Notifications on the wire ([protocols/]): [HostEgress] (the route of a
      notification, by longest prefix, and the frames of the host's own network),
      [NeighborQueue] (datagrams that wait for the address of a neighbor: callers,
      workers, timers and received frames are steps of one relation) with
      [NeighborTheorems]: every datagram taken is sent, given up with a reason or
      still owned by one place; the queues keep their bounds; what waits has a
      timer or a worker that will come for it.  [Informs] ([snmp_inform.go]) waits
      for the answers to notifications that are acknowledged: each is resent at
      most as often as it may be, and is answered or given up.
    - Sessions ([daemon/]): [Trunk] ([trunk_capture.go]: one physical handle for a
      session per VLAN), [Sessions] (registry, admission, resources, start and
      stop).  [Trunk] shows each session its stream and every drop its
      counter; [Ledger] accounts for every slot of every capture through start,
      replacement, rollback and close; [SessionTheorems] proves the daemon's
      invariant over all its runs, and [DaemonTheorems] what sessions get from it:
      isolation, the budget, starts that fail harmlessly, and the composition
      with the fabric: what a session's stack sends is what its transport takes.

    ** Conventions

    A Go struct is a record with [Rebuild] for assignment ([r <| f := v |>]); an
    operation is a function from the state to the state and its results, errors
    included, and holds the mutex it takes for the whole step.  Where goroutines
    interleave, they are steps of a relation ([PacketConn], [Runner],
    [NeighborQueue], [Informs], the daemon's [daemonStep]).  Maps are [gmap];
    where the order of Go's [range] can be seen it is a parameter, and the
    theorem holds for every order.

    Parameters stand for what is not in the repository: the clock, the capture
    handle's answers, the emitter of packets ([emit]), gosnmp's key localization,
    digests and codec, gopacket's decoding of frames, SHA-256, the formatting of
    floats, YAML decoding, [sort.Slice], and what a session's environment answers
    ([Environment]).  What is assumed of them is a hypothesis of the theorem that
    needs it, and the witness of the theorem instantiates it.

    Loops that are not structural take fuel, chosen so that it never ends them
    before the code does, and theorems say so: the ring drops at most as many
    frames as it holds; the election visits each bridge once; binary searches
    take the length; the answer and send loops the length and one; the address
    pool its size; GETBULK rows [max-repetitions]; broadcast domains the trunk
    ports and one; compressed walks their bytes; the checksum adds its carry
    twice; tags are stripped at most once per four bytes; the hop count is
    bounded by the number of devices in the code itself, as is the shutdown of
    the daemon by its sessions.

    The counter that versions the refreshes of a neighbor has 64 bits: the
    theorems of [NeighborTheorems] are about runs of fewer than [2^64] steps.

    ** Not modelled

    Serialization and parsing by gopacket, so the handlers of ARP, ICMP, IPv6,
    LLDP and their kin, except what the packet, egress and notification paths
    need of the frame; TLS, SSH, HTTP and the API, which call the modelled
    operations; files, YAML, databases and recovery; the text of diagnostics and
    logs (the codes and fields of findings are modelled); the tables of OIDs an
    agent is filled with; the threads and sockets of the packet stack. *)

From stdpp Require Export base gmap strings list sorting pretty.
From Stdlib Require Export ZArith Lia.
Open Scope Z_scope.

Declare Scope niac_scope.
Delimit Scope niac_scope with niac.

(** ** Record update

    Go assigns one field of a struct in place.  [r <| f := v |>] is that
    assignment on an immutable record: every record type that is assigned to
    declares how it is rebuilt from its own projections ([Rebuild]), and the
    setter of a field is obtained by abstracting that projection. *)

Class Rebuild (R : Type) := rebuild : R -> R.

Class Setter {R T : Type} (proj : R -> T) := setf : (T -> T) -> R -> R.
Arguments setf {R T} proj {_} _ _ /.

Ltac derive_setter proj :=
  lazymatch type of proj with
  | ?R -> ?T =>
      let inst := constr:(@rebuild R _) in
      let body := eval hnf in inst in
      lazymatch eval pattern proj in body with
      | ?k _ => let t := constr:(fun (g : T -> T) => k (fun r => g (proj r))) in
                let t := eval cbv beta in t in exact t
      end
  end.

#[export] Hint Extern 1 (Setter ?proj) => derive_setter proj : typeclass_instances.

#[local] Set Warnings "-postfix-notation-not-level-1".
Notation "r <| f := v |>" := (setf f (fun _ => v) r)
  (at level 12, f at next level, left associativity, format "r  <| f  :=  v |>") : niac_scope.
Open Scope niac_scope.

(** ** Machine-width integers *)

Definition uint64 (z : Z) : Z := z mod 2 ^ 64.
Definition uint32 (z : Z) : Z := z mod 2 ^ 32.
Definition int64 (z : Z) : Z := (z + 2 ^ 63) mod 2 ^ 64 - 2 ^ 63.
Definition MaxUint64 : Z := 2 ^ 64 - 1.

Lemma uint64_range z : 0 <= uint64 z < 2 ^ 64.
Proof. apply Z.mod_pos_bound. lia. Qed.

Lemma uint64_id z : 0 <= z < 2 ^ 64 -> uint64 z = z.
Proof. apply Z.mod_small. Qed.

Lemma uint32_range z : 0 <= uint32 z < 2 ^ 32.
Proof. apply Z.mod_pos_bound. lia. Qed.

Lemma uint32_id z : 0 <= z < 2 ^ 32 -> uint32 z = z.
Proof. apply Z.mod_small. Qed.

Lemma int64_range z : - 2 ^ 63 <= int64 z < 2 ^ 63.
Proof. unfold int64. pose proof (Z.mod_pos_bound (z + 2 ^ 63) (2 ^ 64)). lia. Qed.

Lemma int64_id z : - 2 ^ 63 <= z < 2 ^ 63 -> int64 z = z.
Proof. intros H. unfold int64. rewrite Z.mod_small by lia. lia. Qed.

(** ** Ordered keys

    [cmp.Compare] on a string is the byte order; a comparator that compares a
    first field and then a second is the lexicographic order of the pair. *)

Class KeyOrder (K : Type) := {
  kle : relation K;
  #[global] kle_dec :: RelDecision kle;
  #[global] kle_po :: PartialOrder kle;
  #[global] kle_total :: Total kle
}.

#[export, refine] Instance string_key : KeyOrder string := {| kle := String.le |}.
Proof. all: apply _. Defined.

#[export, refine] Instance Z_key : KeyOrder Z := {| kle := Z.le |}.
Proof. all: apply _. Defined.

Section pair_order.
Context {A B : Type} `{EqDecision A} `{KeyOrder A} `{KeyOrder B}.

Definition pair_le (x y : A * B) : Prop :=
  kle x.1 y.1 /\ (x.1 = y.1 -> kle x.2 y.2).

#[global] Instance pair_le_dec : RelDecision pair_le.
Proof.
  intros x y. unfold pair_le.
  destruct (decide (kle x.1 y.1)) as [H1|H1]; [|right; tauto].
  destruct (decide (x.1 = y.1)) as [H2|H2]; [|left; tauto].
  destruct (decide (kle x.2 y.2)) as [H3|H3]; [left; tauto|right; tauto].
Defined.

#[global] Instance pair_le_po : PartialOrder pair_le.
Proof.
  unfold pair_le. split; [split|].
  - intros [a b]; simpl. split; reflexivity.
  - intros [a b] [c d] [e f]; simpl. intros [H1 H2] [H3 H4]. split; [by etrans|].
    intros ->. assert (c = e) as -> by (by apply (anti_symm kle)).
    etrans; [by apply H2|by apply H4].
  - intros [a b] [c d]; simpl. intros [H1 H2] [H3 H4].
    assert (a = c) as -> by (by apply (anti_symm kle)).
    f_equal. apply (anti_symm kle); auto.
Qed.

#[global] Instance pair_le_total : Total pair_le.
Proof.
  unfold pair_le. intros [a b] [c d]; simpl.
  destruct (decide (a = c)) as [->|Hne].
  - destruct (total kle b d); [left|right]; split; auto; reflexivity.
  - destruct (total kle a c); [left|right]; split; auto; congruence.
Qed.

#[global] Instance pair_key : KeyOrder (A * B) := {| kle := pair_le |}.
End pair_order.

(** [slices.SortFunc] by a key. *)
Section sort_by.
Context {A K : Type} `{KeyOrder K} (key : A -> K).

Definition key_le (x y : A) : Prop := kle (key x) (key y).

#[global] Instance key_le_dec : RelDecision key_le.
Proof. intros x y. unfold key_le. apply _. Defined.

#[global] Instance key_le_total : Total key_le.
Proof. intros x y. unfold key_le. apply (total kle). Qed.

#[global] Instance key_le_trans : Transitive key_le.
Proof. intros x y z. unfold key_le. apply (transitivity (R := kle)). Qed.

Definition sortBy (l : list A) : list A := merge_sort key_le l.

Lemma sortBy_perm l : sortBy l ≡ₚ l.
Proof. apply merge_sort_Permutation. Qed.

Lemma sortBy_sorted l : StronglySorted key_le (sortBy l).
Proof. apply (StronglySorted_merge_sort _). Qed.

Lemma key_inj_NoDup (l : list A) x y :
  NoDup (key <$> l) -> x ∈ l -> y ∈ l -> key x = key y -> x = y.
Proof.
  intros Hnd [i Hi]%list_elem_of_lookup [j Hj]%list_elem_of_lookup Heq.
  assert (i = j) as ->; [|congruence].
  eapply (NoDup_lookup _ i j (key x)); [exact Hnd|..]; rewrite list_lookup_fmap; rewrite ?Hi, ?Hj; simpl; [done|].
  by rewrite Heq.
Qed.

(** Sorting forgets the order in which a map was iterated. *)
Lemma sorted_unique (l1 l2 : list A) :
  NoDup (key <$> l1) -> StronglySorted key_le l1 -> StronglySorted key_le l2 ->
  l1 ≡ₚ l2 -> l1 = l2.
Proof.
  intros Hnd H1 H2 Hp. eapply (StronglySorted_unique_strong key_le); eauto.
  intros x y Hx Hy Hxy Hyx. eapply key_inj_NoDup; eauto.
  { by rewrite Hp. }
  by apply (anti_symm kle).
Qed.

Lemma sortBy_unique (l1 l2 : list A) :
  NoDup (key <$> l1) -> l1 ≡ₚ l2 -> sortBy l1 = sortBy l2.
Proof.
  intros Hnd Hp. apply sorted_unique; auto using sortBy_sorted.
  - by rewrite sortBy_perm.
  - by rewrite !sortBy_perm.
Qed.

Lemma sortBy_id (l : list A) :
  NoDup (key <$> l) -> StronglySorted key_le l -> sortBy l = l.
Proof.
  intros Hnd Hs. symmetry. apply sorted_unique; auto using sortBy_sorted.
  by rewrite sortBy_perm.
Qed.
End sort_by.

(** ** Maps rebuilt from lists and listed from maps

    [importBy key l] is the loop [for _, x := range l { m[key(x)] = x }] on an
    empty map; [sortedValues key m] collects the values of a map and sorts them
    by their key. *)
Section keyed.
Context {A K : Type} `{Countable K} `{KeyOrder K} (key : A -> K).

Definition importBy (l : list A) : gmap K A :=
  foldl (fun m x => <[key x := x]> m) ∅ l.

Definition sortedValues (m : gmap K A) : list A :=
  sortBy key (snd <$> map_to_list m).

(** Every entry is filed under its own key. *)
Definition filed (m : gmap K A) : Prop :=
  forall k x, m !! k = Some x -> key x = k.

Lemma foldl_insert_lookup l (m : gmap K A) k :
  NoDup (key <$> l) ->
  foldl (fun m x => <[key x := x]> m) m l !! k =
  match list_find (fun x => key x = k) l with
  | Some (_, x) => Some x
  | None => m !! k
  end.
Proof.
  revert m. induction l as [|x l IH]; intros m Hnd; simpl; [done|].
  apply NoDup_cons in Hnd as [Hx Hnd]. rewrite IH by done.
  case_decide as Hk.
  - rewrite (proj2 (list_find_None _ l)).
    + rewrite Hk. by rewrite lookup_insert_eq.
    + apply Forall_forall. intros y Hy Hky. apply Hx. rewrite Hk, <- Hky.
      by apply list_elem_of_fmap_2.
  - destruct (list_find _ l) as [[i y]|]; simpl; [done|].
    by rewrite lookup_insert_ne.
Qed.

Lemma importBy_lookup l k x :
  NoDup (key <$> l) -> importBy l !! k = Some x <-> x ∈ l /\ key x = k.
Proof.
  intros Hnd. unfold importBy. rewrite foldl_insert_lookup by done. split.
  - destruct (list_find _ l) as [[i y]|] eqn:E; [|by rewrite lookup_empty].
    apply list_find_Some in E as (E & Hk & _). intros [= ->].
    split; [by eapply list_elem_of_lookup_2|done].
  - intros [Hx Hk].
    destruct (list_find _ l) as [[i y]|] eqn:E.
    + apply list_find_Some in E as (E & Hk' & _). f_equal.
      eapply key_inj_NoDup; [exact Hnd|by eapply list_elem_of_lookup_2|done|congruence].
    + apply list_find_None in E. rewrite Forall_forall in E. by destruct (E x Hx).
Qed.

Lemma filed_importBy l : NoDup (key <$> l) -> filed (importBy l).
Proof. intros Hnd k x Hx. by apply importBy_lookup in Hx as [_ ?]. Qed.

Lemma filed_empty : filed ∅.
Proof. intros k x. by rewrite lookup_empty. Qed.

Lemma filed_insert m k x : filed m -> key x = k -> filed (<[k := x]> m).
Proof.
  intros Hm Hk k' x'. rewrite lookup_insert. case_decide as Hd; intros Hx.
  - by simplify_eq.
  - by apply Hm.
Qed.

Lemma filed_delete m k : filed m -> filed (delete k m).
Proof.
  intros Hm k' x'. rewrite lookup_delete. case_decide; [done|apply Hm].
Qed.

Lemma values_keys m : filed m -> key <$> (snd <$> map_to_list m) = fst <$> map_to_list m.
Proof.
  intros Hm. rewrite <- list_fmap_compose. apply list_fmap_ext.
  intros i [k x] Hx. simpl. apply Hm. apply elem_of_map_to_list.
  by eapply list_elem_of_lookup_2.
Qed.

Lemma sortedValues_perm m : sortedValues m ≡ₚ snd <$> map_to_list m.
Proof. apply sortBy_perm. Qed.

Lemma sortedValues_sorted m : StronglySorted (key_le key) (sortedValues m).
Proof. apply sortBy_sorted. Qed.

Lemma sortedValues_NoDup m : filed m -> NoDup (key <$> sortedValues m).
Proof.
  intros Hm. rewrite sortedValues_perm, values_keys by done. apply NoDup_fst_map_to_list.
Qed.

Lemma elem_of_sortedValues m x : filed m -> x ∈ sortedValues m <-> m !! key x = Some x.
Proof.
  intros Hm. rewrite sortedValues_perm, list_elem_of_fmap. split.
  - intros ([k y] & -> & Hy%elem_of_map_to_list). simpl. by rewrite (Hm _ _ Hy).
  - intros Hx. exists (key x, x). by rewrite elem_of_map_to_list.
Qed.

(** Export then import gives the map back. *)
Lemma importBy_sortedValues m : filed m -> importBy (sortedValues m) = m.
Proof.
  intros Hm. apply map_eq. intros k. apply option_eq. intros x.
  rewrite importBy_lookup by auto using sortedValues_NoDup.
  rewrite elem_of_sortedValues by done. split.
  - intros [Hx <-]. done.
  - intros Hx. pose proof (Hm _ _ Hx) as <-. done.
Qed.

(** Import then export gives the list back when it is in export order. *)
Lemma sortedValues_importBy l :
  NoDup (key <$> l) -> StronglySorted (key_le key) l -> sortedValues (importBy l) = l.
Proof.
  intros Hnd Hs. apply (sorted_unique key); auto using sortedValues_sorted.
  - apply sortedValues_NoDup. by apply filed_importBy.
  - apply NoDup_Permutation.
    + eapply NoDup_fmap_1. apply sortedValues_NoDup. by apply filed_importBy.
    + by eapply NoDup_fmap_1.
    + intros x. rewrite elem_of_sortedValues by (by apply filed_importBy).
      rewrite (importBy_lookup l (key x) x Hnd). tauto.
Qed.
End keyed.

(** The values of a map that are filed under their own key and satisfy [P]. *)
Section filed_all.
Context {A K : Type} `{Countable K} `{KeyOrder K} (key : A -> K) (P : A -> Prop).

Definition filedAll (m : gmap K A) : Prop := map_Forall (fun k x => key x = k /\ P x) m.

Lemma filedAll_filed m : filedAll m -> filed key m.
Proof. intros Hm k x Hx. by destruct (Hm k x Hx). Qed.

Lemma filedAll_empty : filedAll ∅.
Proof. apply map_Forall_empty. Qed.

Lemma filedAll_insert m x : filedAll m -> P x -> filedAll (<[key x := x]> m).
Proof. intros Hm Hx. apply map_Forall_insert_2; auto. Qed.

Lemma filedAll_delete m k : filedAll m -> filedAll (delete k m).
Proof. intros Hm. by apply map_Forall_delete. Qed.

Lemma filedAll_sub m m' : filedAll m -> m' ⊆ m -> filedAll m'.
Proof. intros Hm Hsub k x Hx. apply Hm. by eapply lookup_weaken. Qed.

Lemma filedAll_export m : filedAll m -> NoDup (key <$> sortedValues key m) /\ Forall P (sortedValues key m).
Proof.
  intros Hm. pose proof (filedAll_filed _ Hm) as Hf. split; [by apply sortedValues_NoDup|].
  apply Forall_forall. intros x Hx. apply elem_of_sortedValues in Hx; [|done]. by eapply Hm.
Qed.

Lemma filedAll_import l : NoDup (key <$> l) -> Forall P l -> filedAll (importBy key l).
Proof.
  intros Hnd Hl k x Hx. apply importBy_lookup in Hx as [Hx Hk]; [|done].
  split; [done|]. rewrite Forall_forall in Hl. by apply Hl.
Qed.
End filed_all.

(** ** Maps exported key by key

    The sorted keys of a map, each exported with its value, and the loop that
    rebuilds the map from the exported list. *)
Section pairs.
Context {K A B : Type} `{Countable K} `{KeyOrder K}.

Definition sortedKeys (m : gmap K A) : list K := sortBy id (fst <$> map_to_list m).

Definition importPairs (k : B -> K) (v : B -> A) (l : list B) : gmap K A :=
  foldl (fun m b => <[k b := v b]> m) ∅ l.

Lemma sortedKeys_NoDup m : NoDup (sortedKeys m).
Proof. unfold sortedKeys. rewrite sortBy_perm. apply NoDup_fst_map_to_list. Qed.

Lemma sortedKeys_sorted m : StronglySorted kle (sortedKeys m).
Proof. apply (sortBy_sorted id). Qed.

Lemma elem_of_sortedKeys m x : x ∈ sortedKeys m <-> is_Some (m !! x).
Proof.
  unfold sortedKeys. rewrite sortBy_perm, list_elem_of_fmap. split.
  - intros ([k a] & -> & Hk%elem_of_map_to_list). by eexists.
  - intros [a Ha]. exists (x, a). by rewrite elem_of_map_to_list.
Qed.

Lemma sortedKeys_length m : length (sortedKeys m) = size m.
Proof. unfold sortedKeys. by rewrite sortBy_perm, length_fmap, length_map_to_list. Qed.

Context (k : B -> K) (v : B -> A).

Lemma importPairs_foldl l (m : gmap K A) x a :
  NoDup (k <$> l) ->
  foldl (fun m b => <[k b := v b]> m) m l !! x = Some a <->
  (exists b, b ∈ l /\ k b = x /\ v b = a) \/ (x ∉ k <$> l /\ m !! x = Some a).
Proof.
  revert m. induction l as [|b l IH]; intros m Hnd; csimpl.
  { split; [intros Hx; right; split; [set_solver|done]|].
    intros [(b & Hb & _)|[_ Hx]]; [by apply not_elem_of_nil in Hb|done]. }
  apply NoDup_cons in Hnd as [Hb Hnd]. rewrite IH by done. rewrite lookup_insert.
  split.
  - intros [(b' & Hb' & E1 & E2)|[Hx Hm]].
    + left. exists b'. split; [by right|done].
    + case_decide as Hk; [left; exists b; split; [by left|by simplify_eq]|].
      right. split; [|done]. by apply not_elem_of_cons.
  - intros [(b' & Hb' & E1 & E2)|[Hx Hm]].
    + apply elem_of_cons in Hb' as [->|Hb']; [|left; by exists b'].
      right. subst x. rewrite decide_True by done. by subst a.
    + apply not_elem_of_cons in Hx as [Hx1 Hx2].
      right. by rewrite decide_False by congruence.
Qed.

Lemma importPairs_lookup l x a :
  NoDup (k <$> l) -> importPairs k v l !! x = Some a <-> exists b, b ∈ l /\ k b = x /\ v b = a.
Proof.
  intros Hnd. unfold importPairs. rewrite importPairs_foldl by done.
  rewrite lookup_empty. naive_solver.
Qed.

Context (d : A) (f : K -> A -> B).

Definition exportPairs (m : gmap K A) : list B :=
  (fun x => f x (default d (m !! x))) <$> sortedKeys m.

Lemma elem_of_exportPairs m b :
  b ∈ exportPairs m <-> exists x a, m !! x = Some a /\ b = f x a.
Proof.
  unfold exportPairs. rewrite list_elem_of_fmap. split.
  - intros (x & -> & [a Ha]%elem_of_sortedKeys). exists x, a. by rewrite Ha.
  - intros (x & a & Ha & ->). exists x. split; [by rewrite Ha|]. by apply elem_of_sortedKeys.
Qed.

Hypothesis Hk : forall x a, k (f x a) = x.

Lemma exportPairs_keys m : k <$> exportPairs m = sortedKeys m.
Proof.
  unfold exportPairs. rewrite <- list_fmap_compose. rewrite <- (list_fmap_id (sortedKeys m)) at 2.
  apply list_fmap_ext. intros i x _. apply Hk.
Qed.

Lemma importPairs_exportPairs m :
  map_Forall (fun x a => v (f x a) = a) m -> importPairs k v (exportPairs m) = m.
Proof.
  intros Hv. apply map_eq. intros x. apply option_eq. intros a.
  rewrite importPairs_lookup by (rewrite exportPairs_keys; apply sortedKeys_NoDup).
  setoid_rewrite elem_of_exportPairs. split.
  - intros (b & (y & c & Hc & ->) & <- & <-). by rewrite Hk, (Hv _ _ Hc).
  - intros Ha. exists (f x a). split; [by exists x, a|]. by rewrite Hk, (Hv _ _ Ha).
Qed.
End pairs.

(** ** Loops that reject duplicates

    The loop [for x in l { if seen[key x] || !ok x { return false }; seen[key x] = true }]. *)
Section seen.
Context {A K : Type} `{Countable K} (key : A -> K) (ok : A -> bool).

Fixpoint unseen (seen : gset K) (l : list A) : bool :=
  match l with
  | [] => true
  | x :: l => if bool_decide (key x ∈ seen) || negb (ok x) then false
              else unseen ({[ key x ]} ∪ seen) l
  end.

Lemma unseen_spec seen l :
  unseen seen l = true <->
  NoDup (key <$> l) /\ (forall x, x ∈ l -> ok x = true /\ key x ∉ seen).
Proof.
  revert seen. induction l as [|x l IH]; intros seen; simpl.
  { split; [|done]. intros _. split; [constructor|]. intros x Hx. by apply not_elem_of_nil in Hx. }
  case_bool_decide as Hs; simpl.
  { split; [done|]. intros [_ Hx]. destruct (Hx x); [by left|done]. }
  destruct (ok x) eqn:Hok; simpl.
  2: { split; [done|]. intros [_ Hx]. destruct (Hx x); [by left|congruence]. }
  rewrite IH, NoDup_cons. split.
  - intros [Hnd Hl]. split; [split; [|done]|].
    + intros (y & Hy1 & Hy2)%list_elem_of_fmap. destruct (Hl y Hy2). set_solver.
    + intros y [->|Hy]%elem_of_cons; [done|]. destruct (Hl y Hy). set_solver.
  - intros [[Hx Hnd] Hl]. split; [done|]. intros y Hy.
    destruct (Hl y) as [Hy1 Hy2]; [by right|]. split; [done|]. rewrite elem_of_union, elem_of_singleton.
    intros [E|E]; [|done].
    apply Hx. rewrite <- E. by apply list_elem_of_fmap_2.
Qed.

Lemma unseen_empty l :
  unseen ∅ l = true <-> NoDup (key <$> l) /\ Forall (fun x => ok x = true) l.
Proof. rewrite unseen_spec, Forall_forall. set_solver. Qed.
End seen.

(** ** Filters that keep all or nothing *)

Lemma filter_id {A} (P : A -> Prop) `{!forall x, Decision (P x)} (l : list A) :
  Forall P l -> filter P l = l.
Proof. induction 1; [done|]. rewrite filter_cons_True by done. by f_equal. Qed.

Lemma filter_none {A} (P : A -> Prop) `{!forall x, Decision (P x)} (l : list A) :
  Forall (fun x => ~ P x) l -> filter P l = [].
Proof. induction 1; [done|]. by rewrite filter_cons_False. Qed.

(** [slices.SortStableFunc] by a key: equal keys keep their order. *)
Section stable_sort.
Context {A K : Type} `{EqDecision K} `{KeyOrder K} (key : A -> K).

Fixpoint insertStable (x : A) (l : list A) : list A :=
  match l with
  | [] => [x]
  | y :: l' => if decide (kle (key x) (key y)) then x :: l else y :: insertStable x l'
  end.

Definition stableSortBy (l : list A) : list A := foldr insertStable [] l.

Lemma insertStable_perm x l : insertStable x l ≡ₚ x :: l.
Proof.
  induction l as [|y l IH]; simpl; [done|]. destruct (decide _); [done|].
  rewrite IH. apply Permutation_swap.
Qed.

Lemma stableSortBy_perm l : stableSortBy l ≡ₚ l.
Proof. induction l as [|x l IH]; simpl; [done|]. by rewrite insertStable_perm, IH. Qed.

Lemma insertStable_sorted x l :
  StronglySorted (key_le key) l -> StronglySorted (key_le key) (insertStable x l).
Proof.
  induction l as [|y l IH]; simpl; intros Hs; [by repeat constructor|].
  apply StronglySorted_cons in Hs as [Hy Hs]. destruct (decide _) as [Hle|Hnle].
  - apply StronglySorted_cons. split; [|by apply StronglySorted_cons].
    constructor; [done|]. eapply Forall_impl; [exact Hy|]. intros z. by apply (transitivity (R := kle)).
  - apply StronglySorted_cons. split; [|by apply IH]. rewrite insertStable_perm. constructor; [|done].
    unfold key_le. destruct (total kle (key x) (key y)); [done|done].
Qed.

Lemma stableSortBy_sorted l : StronglySorted (key_le key) (stableSortBy l).
Proof. induction l as [|x l IH]; simpl; [constructor|]. by apply insertStable_sorted. Qed.

Lemma insertStable_filter k x l :
  filter (fun y => key y = k) (insertStable x l) = filter (fun y => key y = k) (x :: l).
Proof.
  induction l as [|y l IH]; simpl; [done|]. destruct (decide (kle _ _)) as [Hle|Hnle]; [done|].
  rewrite !filter_cons in *. rewrite IH.
  destruct (decide (key x = k)) as [Hx|Hx], (decide (key y = k)) as [Hy|Hy]; try done.
  destruct Hnle. by rewrite Hx, Hy.
Qed.

(** The elements of one key keep their order. *)
Lemma stableSortBy_filter k l :
  filter (fun y => key y = k) (stableSortBy l) = filter (fun y => key y = k) l.
Proof.
  induction l as [|x l IH]; simpl; [done|]. rewrite insertStable_filter, !filter_cons, IH. done.
Qed.
End stable_sort.
