(* ===== verification/Netip.v ===== *)
(** * Addresses: what the program uses of Go's [net/netip] and [net]

    [Addr] and [Prefix] are [netip.Addr] and [netip.Prefix]: the zero value of
    either is the invalid address or prefix.  An IPv4 address is its 32-bit
    value, an IPv6 address its 128-bit value and its zone.  [ParseMAC] and
    [macString] are [net.ParseMAC] and [net.HardwareAddr.String]. *)

From Stdlib Require Import Ascii.
From S2P Require Import Prelude.

(** ** Addresses *)

Inductive Addr :=
| AddrZero
| Addr4 (bits : Z)
| Addr6 (bits : Z) (zone : string).

#[export] Instance Addr_eq_dec : EqDecision Addr.
Proof. solve_decision. Defined.

Definition AddrFrom4 (a b c d : Z) : Addr := Addr4 (a * 2 ^ 24 + b * 2 ^ 16 + c * 2 ^ 8 + d).

Definition Is4 (a : Addr) : bool := match a with Addr4 _ => true | _ => false end.

Definition BitLen (a : Addr) : Z :=
  match a with AddrZero => 0 | Addr4 _ => 32 | Addr6 _ _ => 128 end.

Definition withoutZone (a : Addr) : Addr :=
  match a with Addr6 b _ => Addr6 b "" | _ => a end.

(** [IsUnspecified]: 0.0.0.0 and ::, the zone counting. *)
Definition IsUnspecified (a : Addr) : bool :=
  match a with
  | AddrZero => false
  | Addr4 b => b =? 0
  | Addr6 b z => (b =? 0) && bool_decide (z = ""%string)
  end.

(** ::ffff:a.b.c.d *)
Definition Is4In6 (a : Addr) : bool :=
  match a with Addr6 b _ => Z.shiftr b 32 =? 0xffff | _ => false end.

Definition Unmap (a : Addr) : Addr :=
  match a with
  | Addr6 b _ => if Is4In6 a then Addr4 (Z.land b 0xffffffff) else a
  | _ => a
  end.

Definition IsMulticast (a : Addr) : bool :=
  match Unmap a with
  | AddrZero => false
  | Addr4 b => Z.land (Z.shiftr b 24) 0xf0 =? 0xe0
  | Addr6 b _ => Z.shiftr b 120 =? 0xff
  end.

(** ** Prefixes *)

(** A prefix with [Bits = -1] is the invalid one; it may still carry an
    address, as Go's does. *)
Record Prefix := mkPrefix { pfxAddr : Addr; pfxBits : Z }.

#[export] Instance Prefix_eq_dec : EqDecision Prefix.
Proof. solve_decision. Defined.

Definition PrefixZero : Prefix := mkPrefix AddrZero (-1).

Definition PrefixFrom (ip : Addr) (bits : Z) : Prefix :=
  mkPrefix (withoutZone ip)
    (if negb (bool_decide (ip = AddrZero)) && (0 <=? bits) && (bits <=? BitLen ip)
     then bits else -1).

Definition PrefixIsValid (p : Prefix) : bool := 0 <=? pfxBits p.

(** The address with everything under the prefix length cleared. *)
Definition maskAddr (a : Addr) (bits : Z) : Addr :=
  let clear len b := Z.shiftl (Z.shiftr b (len - bits)) (len - bits) in
  match a with
  | AddrZero => AddrZero
  | Addr4 b => Addr4 (clear 32 b)
  | Addr6 b z => Addr6 (clear 128 b) z
  end.

(** [Addr.Prefix]: an invalid length or address is an error, whose value is
    the zero prefix. *)
Definition addrPrefix (a : Addr) (bits : Z) : Prefix :=
  if (bits <? 0) || bool_decide (a = AddrZero) || (BitLen a <? bits) then PrefixZero
  else PrefixFrom (maskAddr (withoutZone a) bits) bits.

Definition Masked (p : Prefix) : Prefix := addrPrefix (pfxAddr p) (pfxBits p).

(** [Prefix.Contains] on IPv4: the address agrees with the prefix on its first
    bits.  A prefix never contains an address of the other family. *)
Definition Contains (p : Prefix) (a : Addr) : bool :=
  PrefixIsValid p &&
  match pfxAddr p, a with
  | Addr4 n, Addr4 b => Z.shiftr (Z.lxor n b) (32 - pfxBits p) =? 0
  | Addr6 n _, Addr6 b z =>
      bool_decide (z = ""%string) && (Z.shiftr (Z.lxor n b) (128 - pfxBits p) =? 0)
  | _, _ => false
  end.

(** ** Printing *)

Definition dotted (b : Z) : string :=
  pretty (Z.land (Z.shiftr b 24) 255) +:+ "." +:+ pretty (Z.land (Z.shiftr b 16) 255) +:+ "." +:+
  pretty (Z.land (Z.shiftr b 8) 255) +:+ "." +:+ pretty (Z.land b 255).

Definition hexDigit (d : Z) : Ascii.ascii :=
  Ascii.ascii_of_N (Z.to_N (if d <? 10 then 48 + d else 87 + d)).

(** Lower-case hexadecimal without leading zeros, of a 16-bit value. *)
Definition hex16 (v : Z) : string :=
  let d i := String (hexDigit (Z.land (Z.shiftr v (4 * i)) 15)) "" in
  (if 0x1000 <=? v then d 3 else "") +:+ (if 0x100 <=? v then d 2 else "") +:+
  (if 0x10 <=? v then d 1 else "") +:+ d 0.

Definition groups6 (b : Z) : list Z :=
  (fun i => Z.land (Z.shiftr b (16 * (7 - Z.of_nat i))) 0xffff) <$> seq 0 8.

Fixpoint zeroRun (l : list Z) : nat :=
  match l with 0 :: l => S (zeroRun l) | _ => O end.

(** The first longest run of at least two zero groups: (start, end). *)
Definition longestZeroRun (gs : list Z) : nat * nat :=
  foldl (fun best i =>
    let len := zeroRun (drop i gs) in
    if bool_decide (2 <= len)%nat && bool_decide (best.2 - best.1 < len)%nat
    then (i, i + len)%nat else best) (255, 255)%nat (seq 0 8).

Fixpoint printGroups (fuel : nat) (i : nat) (z : nat * nat) (gs : list Z) : string :=
  match fuel with
  | O => ""
  | S fuel =>
      if bool_decide (8 <= i)%nat then ""
      else if bool_decide (i = z.1) then
        "::" +:+ (if bool_decide (8 <= z.2)%nat then ""
                  else hex16 (nth z.2 gs 0) +:+ printGroups fuel (S z.2) z gs)
      else (if bool_decide (0 < i)%nat then ":" else "") +:+ hex16 (nth i gs 0) +:+
           printGroups fuel (S i) z gs
  end.

Definition addrString (a : Addr) : string :=
  match a with
  | AddrZero => "invalid IP"
  | Addr4 b => dotted b
  | Addr6 b zone =>
      (if Is4In6 a then "::ffff:" +:+ dotted (Z.land b 0xffffffff)
       else let gs := groups6 b in printGroups 8 0 (longestZeroRun gs) gs) +:+
      (if bool_decide (zone = ""%string) then "" else "%" +:+ zone)
  end.

Definition prefixString (p : Prefix) : string :=
  if PrefixIsValid p then addrString (pfxAddr p) +:+ "/" +:+ pretty (pfxBits p)
  else "invalid Prefix".

Example print_v4 : addrString (AddrFrom4 192 0 2 17) = "192.0.2.17"%string.
Proof. reflexivity. Qed.

Example print_v6 :
  addrString (Addr6 0x20010db8000000000000000000000001 "") = "2001:db8::1"%string.
Proof. reflexivity. Qed.

Example print_v6_middle :
  addrString (Addr6 0x20010000000000010000000000000001 "") = "2001:0:0:1::1"%string.
Proof. reflexivity. Qed.

Example print_masked :
  prefixString (Masked (PrefixFrom (AddrFrom4 10 1 2 3) 24)) = "10.1.2.0/24"%string.
Proof. reflexivity. Qed.

(** ** Hardware addresses *)

Definition hexValue (c : Ascii.ascii) : option Z :=
  let n := Z.of_N (Ascii.N_of_ascii c) in
  if (48 <=? n) && (n <=? 57) then Some (n - 48)
  else if (97 <=? n) && (n <=? 102) then Some (n - 87)
  else if (65 <=? n) && (n <=? 70) then Some (n - 55)
  else None.

(** [ParseMAC] reads one byte, written as two hexadecimal digits. *)
Definition hexByte (a b : Ascii.ascii) : option Z :=
  match hexValue a, hexValue b with Some x, Some y => Some (16 * x + y) | _, _ => None end.

(** Bytes separated by [sep], two digits each. *)
Fixpoint parseSep (sep : Ascii.ascii) (cs : list Ascii.ascii) : option (list Z) :=
  match cs with
  | [a; b] => v ← hexByte a b; Some [v]
  | a :: b :: s :: cs' =>
      if bool_decide (s = sep) then v ← hexByte a b; (v ::.) <$> parseSep sep cs' else None
  | _ => None
  end.

(** Groups of two bytes separated by dots. *)
Fixpoint parseDot (cs : list Ascii.ascii) : option (list Z) :=
  match cs with
  | [a; b; c; d] => v ← hexByte a b; w ← hexByte c d; Some [v; w]
  | a :: b :: c :: d :: s :: cs' =>
      if bool_decide (s = "."%char) then
        v ← hexByte a b; w ← hexByte c d; (fun l => v :: w :: l) <$> parseDot cs'
      else None
  | _ => None
  end.

Definition macLength (n : nat) : bool :=
  bool_decide (n = 6%nat) || bool_decide (n = 8%nat) || bool_decide (n = 20%nat).

Definition ParseMAC (s : string) : option (list Z) :=
  let cs := String.list_ascii_of_string s in
  if bool_decide (length cs < 14)%nat then None
  else
    hw ← match cs !! 2%nat, cs !! 4%nat with
         | Some c, Some d =>
             if bool_decide (c = ":"%char) || bool_decide (c = "-"%char) then parseSep c cs
             else if bool_decide (d = "."%char) then parseDot cs
             else None
         | _, _ => None
         end;
    if macLength (length hw) then Some hw else None.

Definition hex2 (b : Z) : list Ascii.ascii := [hexDigit (b / 16); hexDigit (b mod 16)].

Fixpoint macChars (hw : list Z) : list Ascii.ascii :=
  match hw with
  | [] => []
  | [b] => hex2 b
  | b :: hw => hex2 b ++ ":"%char :: macChars hw
  end.

Definition macString (hw : list Z) : string := String.string_of_list_ascii (macChars hw).

Example parse_dotted : ParseMAC "0050.56AB.01ff" = Some [0; 0x50; 0x56; 0xab; 1; 0xff].
Proof. reflexivity. Qed.

Example parse_short : ParseMAC "00:50:56:ab:01" = None.
Proof. reflexivity. Qed.

(** ** Properties *)

Definition isByte (b : Z) : Prop := 0 <= b < 256.

Lemma hexValue_range c v : hexValue c = Some v -> 0 <= v < 16.
Proof. unfold hexValue. repeat case_match; intros [= <-]; lia. Qed.

Lemma hexByte_range a b v : hexByte a b = Some v -> isByte v.
Proof.
  unfold hexByte, isByte. destruct (hexValue a) eqn:Ha, (hexValue b) eqn:Hb; try done.
  apply hexValue_range in Ha, Hb. intros [= <-]. lia.
Qed.

Lemma parseSep_bytes sep cs hw : parseSep sep cs = Some hw -> Forall isByte hw.
Proof.
  revert hw. induction cs as [cs IH] using (induction_ltof1 _ length). intros hw.
  destruct cs as [|a [|b [|s cs]]]; simpl; try done.
  - destruct (hexByte a b) eqn:E; simpl; [|done]. intros [= <-].
    constructor; [by eapply hexByte_range|constructor].
  - case_bool_decide; [|done]. destruct (hexByte a b) eqn:E; simpl; [|done].
    destruct (parseSep sep cs) eqn:E2; simpl; [|done]. intros [= <-].
    constructor; [by eapply hexByte_range|]. apply (IH cs); [unfold ltof; simpl; lia|done].
Qed.

Lemma parseDot_bytes cs hw : parseDot cs = Some hw -> Forall isByte hw.
Proof.
  revert hw. induction cs as [cs IH] using (induction_ltof1 _ length). intros hw.
  destruct cs as [|a [|b [|c [|d [|s cs]]]]]; simpl; try done.
  - destruct (hexByte a b) eqn:E; simpl; [|done]. destruct (hexByte c d) eqn:E1; simpl; [|done].
    intros [= <-]. repeat (constructor; [by eapply hexByte_range|]). constructor.
  - case_bool_decide; [|done]. destruct (hexByte a b) eqn:E; simpl; [|done].
    destruct (hexByte c d) eqn:E1; simpl; [|done].
    destruct (parseDot cs) eqn:E2; simpl; [|done]. intros [= <-].
    repeat (constructor; [by eapply hexByte_range|]). apply (IH cs); [unfold ltof; simpl; lia|done].
Qed.

Lemma ParseMAC_bytes s hw : ParseMAC s = Some hw -> Forall isByte hw.
Proof.
  unfold ParseMAC. case_bool_decide; [done|].
  destruct (_ !! 2%nat) as [c|]; simpl; [|done]. destruct (_ !! 4%nat) as [d|]; simpl; [|done].
  destruct (bool_decide (c = ":"%char) || _).
  - destruct (parseSep c _) eqn:E; simpl; [|done]. destruct (macLength _); [|done].
    intros [= <-]. by eapply parseSep_bytes.
  - case_bool_decide; simpl; [|done]. destruct (parseDot _) eqn:E; simpl; [|done].
    destruct (macLength _); [|done]. intros [= <-]. by eapply parseDot_bytes.
Qed.

Lemma hexByte_hex2 b : isByte b -> hexByte (hexDigit (b / 16)) (hexDigit (b mod 16)) = Some b.
Proof.
  unfold isByte. intros Hb.
  assert (forall n, (n < 256)%nat ->
    hexByte (hexDigit (Z.of_nat n / 16)) (hexDigit (Z.of_nat n mod 16)) = Some (Z.of_nat n)) as H.
  { intros n Hn.
    assert (forallb (fun n => bool_decide (hexByte (hexDigit (Z.of_nat n / 16))
      (hexDigit (Z.of_nat n mod 16)) = Some (Z.of_nat n))) (seq 0 256) = true) as Hall
      by (vm_compute; reflexivity).
    rewrite forallb_forall in Hall.
    eapply bool_decide_eq_true_1. apply (Hall n), in_seq. lia. }
  rewrite <- (Z2Nat.id b) by lia. apply H. lia.
Qed.

Lemma parseSep_step sep a b cs :
  parseSep sep (a :: b :: sep :: cs) =
  (v ← hexByte a b; (v ::.) <$> parseSep sep cs).
Proof. simpl. by rewrite bool_decide_eq_true_2. Qed.

Lemma parseSep_macChars hw :
  hw <> [] -> Forall isByte hw -> parseSep ":"%char (macChars hw) = Some hw.
Proof.
  induction hw as [|b hw IH]; [done|]. intros _ [Hb Hhw]%Forall_cons.
  destruct hw as [|b' hw].
  - unfold macChars, hex2, parseSep. by rewrite hexByte_hex2.
  - change (macChars (b :: b' :: hw)) with
      (hexDigit (b / 16) :: hexDigit (b mod 16) :: ":"%char :: macChars (b' :: hw)).
    by rewrite parseSep_step, hexByte_hex2, IH by done.
Qed.

(** Printing a hardware address and parsing it again gives it back. *)
Lemma ParseMAC_macString hw :
  length hw = 6%nat -> Forall isByte hw -> ParseMAC (macString hw) = Some hw.
Proof.
  intros Hlen Hhw. unfold ParseMAC, macString.
  rewrite String.list_ascii_of_string_of_list_ascii.
  assert (parseSep ":"%char (macChars hw) = Some hw) as Hp
    by (apply parseSep_macChars; [by destruct hw|done]).
  destruct hw as [|a [|b [|c [|d [|e [|f [|]]]]]]]; try done.
  cbn [macChars hex2 app length lookup list_lookup] in *.
  rewrite bool_decide_eq_false_2 by lia. simpl orb. rewrite Hp. done.
Qed.
