(* ===== verification/DeviceTypes.v ===== *)
(** * Device state: data

    The data of [internal/devicestate]: interfaces, routes and routing
    processes ([network.go]), the fault families ([store_fault.go],
    [store_device_fault.go], [store_interface_address_fault.go],
    [store_prefix_fault.go]), stations and radios, one-shot actions, events,
    checkpoints, the durable record ([store_state.go]) and the [Store] itself.

    Go's string-typed enumerations stay strings, because their setters receive
    arbitrary strings and refuse unknown ones.  A [time.Time] is its instant in
    nanoseconds from the Unix epoch; the zero time is year 1. *)

From S2P Require Import Prelude.
From S2P Require Import Netip.

(** ** Time *)

Abbreviation Time := Z.
Definition zeroTime : Time := -62135596800 * 10 ^ 9.
Definition IsZero (t : Time) : bool := t =? zeroTime.

(** ** Network *)

Record Interface := mkInterface {
  ifName : string;
  ifNetwork : string;
  ifAddress : Prefix;
  ifDescription : string;
  ifVLANs : list Z;
  ifAdminUp : bool;
  ifOperUp : bool;
  ifCarrierUp : bool
}.
#[export] Instance Interface_rebuild : Rebuild Interface := fun i =>
  mkInterface (ifName i) (ifNetwork i) (ifAddress i) (ifDescription i) (ifVLANs i)
    (ifAdminUp i) (ifOperUp i) (ifCarrierUp i).
#[export] Instance Interface_eq_dec : EqDecision Interface.
Proof. solve_decision. Defined.

Record Route := mkRoute {
  rtDestination : Prefix;
  rtVia : string;
  rtNextHop : Addr;
  rtConnected : bool
}.
#[export] Instance Route_rebuild : Rebuild Route := fun r =>
  mkRoute (rtDestination r) (rtVia r) (rtNextHop r) (rtConnected r).
#[export] Instance Route_eq_dec : EqDecision Route.
Proof. solve_decision. Defined.

Record VLAN := mkVLAN { vlID : Z; vlName : string; vlActive : bool }.
#[export] Instance VLAN_eq_dec : EqDecision VLAN.
Proof. solve_decision. Defined.

Record RouterNetwork := mkRouterNetwork {
  rnAddress : string; rnWildcard : string; rnArea : string
}.
#[export] Instance RouterNetwork_eq_dec : EqDecision RouterNetwork.
Proof. solve_decision. Defined.

Record Router := mkRouter {
  rrProtocol : string; rrProcessID : string; rrNetworks : list RouterNetwork
}.
#[export] Instance Router_eq_dec : EqDecision Router.
Proof. solve_decision. Defined.
#[export] Instance Router_rebuild : Rebuild Router := fun r =>
  mkRouter (rrProtocol r) (rrProcessID r) (rrNetworks r).

Record Network := mkNetwork {
  nwInterfaces : list Interface;
  nwRoutes : list Route;
  nwVLANs : list VLAN;
  nwRouters : list Router
}.
#[export] Instance Network_rebuild : Rebuild Network := fun n =>
  mkNetwork (nwInterfaces n) (nwRoutes n) (nwVLANs n) (nwRouters n).
#[export] Instance Network_eq_dec : EqDecision Network.
Proof. solve_decision. Defined.

Definition NetworkZero : Network := mkNetwork [] [] [] [].

(** ** Faults *)

Abbreviation FaultType := string.
Definition FaultFCS : FaultType := "fcs_errors".
Definition FaultDiscards : FaultType := "packet_discards".
Definition FaultInterface : FaultType := "interface_errors".
Definition FaultUtilization : FaultType := "high_utilization".
Definition FaultLinkDown : FaultType := "link_down".
Definition FaultPoELoss : FaultType := "poe_loss".

Record FaultDefinition := mkFaultDefinition { fdType : FaultType; fdLabel : string }.

Definition interfaceFaultDefinitions : list FaultDefinition := [
  mkFaultDefinition FaultFCS "FCS Errors";
  mkFaultDefinition FaultDiscards "Packet Discards";
  mkFaultDefinition FaultInterface "Interface Errors";
  mkFaultDefinition FaultUtilization "High Utilization";
  mkFaultDefinition FaultLinkDown "Link Down";
  mkFaultDefinition FaultPoELoss "PoE Loss" ].

Record InterfaceFault := mkInterfaceFault {
  ftInterface : string; ftType : FaultType; ftValue : Z
}.
#[export] Instance InterfaceFault_eq_dec : EqDecision InterfaceFault.
Proof. solve_decision. Defined.

(** A fault is filed under the interface and the type. *)
Abbreviation interfaceFaultKey := (string * string)%type.
Definition faultKey (f : InterfaceFault) : interfaceFaultKey := (ftInterface f, ftType f).

Abbreviation DeviceFaultType := string.
Definition FaultDHCPNoOffer : DeviceFaultType := "dhcp_no_offer".
Definition FaultDNSNXDomain : DeviceFaultType := "dns_nxdomain".
Definition FaultDNSTimeout : DeviceFaultType := "dns_timeout".
Definition FaultLatency : DeviceFaultType := "latency".
Definition FaultCPUPercent : DeviceFaultType := "cpu_percent".
Definition FaultMemoryPercent : DeviceFaultType := "memory_percent".
Definition FaultDiskPercent : DeviceFaultType := "disk_percent".
Definition FaultCaptivePortal : DeviceFaultType := "captive_portal".
Definition FaultDuplicateDHCPOffer : DeviceFaultType := "duplicate_dhcp_offer".

Definition faultRateMax : Z := 100.
Definition faultLatencyMaxMs : Z := 60000.

Record DeviceFault := mkDeviceFault {
  dfType : DeviceFaultType; dfValue : Z; dfAddress : Addr
}.
#[export] Instance DeviceFault_eq_dec : EqDecision DeviceFault.
Proof. solve_decision. Defined.

Record DeviceFaultDefinition := mkDeviceFaultDefinition {
  ddType : DeviceFaultType; ddLabel : string; ddMaxValue : Z
}.

Definition deviceFaultDefinitions : list DeviceFaultDefinition := [
  mkDeviceFaultDefinition FaultDHCPNoOffer "DHCP No Offer" faultRateMax;
  mkDeviceFaultDefinition FaultDNSNXDomain "DNS NXDOMAIN" faultRateMax;
  mkDeviceFaultDefinition FaultDNSTimeout "DNS Timeout" faultRateMax;
  mkDeviceFaultDefinition FaultLatency "Latency" faultLatencyMaxMs;
  mkDeviceFaultDefinition FaultCPUPercent "CPU Utilization" faultRateMax;
  mkDeviceFaultDefinition FaultMemoryPercent "Memory Utilization" faultRateMax;
  mkDeviceFaultDefinition FaultDiskPercent "Disk Utilization" faultRateMax;
  mkDeviceFaultDefinition FaultCaptivePortal "Captive Portal" 1 ].

Abbreviation InterfaceAddressFaultType := string.
Definition FaultDuplicateIP : InterfaceAddressFaultType := "duplicate_ip".

Record InterfaceAddressFault := mkInterfaceAddressFault {
  afInterface : string; afType : InterfaceAddressFaultType; afAddress : Addr
}.
#[export] Instance InterfaceAddressFault_eq_dec : EqDecision InterfaceAddressFault.
Proof. solve_decision. Defined.
Definition addressFaultKey (f : InterfaceAddressFault) : string * string :=
  (afInterface f, afType f).

Abbreviation InterfacePrefixFaultType := string.
Definition FaultBadMask : InterfacePrefixFaultType := "bad_mask".

Record InterfacePrefixFault := mkInterfacePrefixFault {
  pfInterface : string; pfType : InterfacePrefixFaultType; pfPrefixBits : Z
}.
#[export] Instance InterfacePrefixFault_eq_dec : EqDecision InterfacePrefixFault.
Proof. solve_decision. Defined.
Definition prefixFaultKey (f : InterfacePrefixFault) : string * string :=
  (pfInterface f, pfType f).

(** ** Stations, radios and one-shot actions *)

Record Station := mkStation {
  snMAC : string;
  snRadio : string;
  snIPAddress : Addr;
  snSignalDBM : Z;
  snSignalQualityPct : Z;
  snAssociatedAt : Time;
  snReturnRadio : string
}.
#[export] Instance Station_rebuild : Rebuild Station := fun s =>
  mkStation (snMAC s) (snRadio s) (snIPAddress s) (snSignalDBM s) (snSignalQualityPct s)
    (snAssociatedAt s) (snReturnRadio s).

Definition stationMACLength : nat := 6.
Definition MinRadioTxPowerDBM : Z := 1.
Definition MaxRadioTxPowerDBM : Z := 30.

Record RadioTxPower := mkRadioTxPower { rpInterface : string; rpDBM : Z }.

Abbreviation DeviceActionType := string.
Definition ActionReboot : DeviceActionType := "reboot".
Definition ActionSTPTopologyChange : DeviceActionType := "stp_topology_change".

Definition maxConsumedDeviceActions : Z := 100000.
Definition maxDeviceActionIDLength : Z := 128.

Record DeviceTelemetry := mkDeviceTelemetry {
  dtRebootedAt : Time; dtSTPChanges : Z; dtSTPChangedAt : Time
}.
#[export] Instance DeviceTelemetry_rebuild : Rebuild DeviceTelemetry := fun t =>
  mkDeviceTelemetry (dtRebootedAt t) (dtSTPChanges t) (dtSTPChangedAt t).
Definition DeviceTelemetryZero : DeviceTelemetry := mkDeviceTelemetry zeroTime 0 zeroTime.

Record ConsumedDeviceAction := mkConsumedDeviceAction { caID : string; caType : DeviceActionType }.

(** ** Events *)

Definition maxEventHistory : Z := 1024.

Abbreviation EventKind := string.
Definition EventNetworkInstalled : EventKind := "network.installed".
Definition EventIdentityUpdated : EventKind := "identity.updated".
Definition EventInterfaceUpdated : EventKind := "interface.updated".
Definition EventStartupSaved : EventKind := "startup.saved".
Definition EventStartupReloaded : EventKind := "startup.reloaded".
Definition EventStartupErased : EventKind := "startup.erased".
Definition EventAuthoredReset : EventKind := "authored.reset".
Definition EventCheckpointSaved : EventKind := "checkpoint.saved".
Definition EventCheckpointRestored : EventKind := "checkpoint.restored".
Definition EventVLANUpdated : EventKind := "vlan.updated".
Definition EventRouterUpdated : EventKind := "router.updated".
Definition EventRouteUpdated : EventKind := "route.updated".
Definition EventFaultUpdated : EventKind := "fault.updated".
Definition EventFaultCleared : EventKind := "fault.cleared".
Definition EventDeviceFaultUpdated : EventKind := "device_fault.updated".
Definition EventDeviceFaultCleared : EventKind := "device_fault.cleared".
Definition EventDeviceRebooted : EventKind := "device.rebooted".
Definition EventSTPTopologyChanged : EventKind := "stp.topology_changed".
Definition EventStationAssociated : EventKind := "station.associated".
Definition EventStationRoamed : EventKind := "station.roamed".
Definition EventRadioUpdated : EventKind := "radio.updated".

Record Event := mkEvent {
  evVersion : Z;
  evKind : EventKind;
  evTarget : string;
  evInterface : option Interface;
  evPreviousInterface : option Interface;
  evInterfaceIndex : Z;
  evTimestamp : Time
}.

(** ** Configuration banks, snapshots, checkpoints *)

Record Identity := mkIdentity { idHostname : string }.

Record configuration := mkConfiguration { cfIdentity : Identity; cfNetwork : Network }.
#[export] Instance configuration_rebuild : Rebuild configuration := fun c =>
  mkConfiguration (cfIdentity c) (cfNetwork c).

Record Snapshot := mkSnapshot {
  spIdentity : Identity;
  spNetwork : Network;
  spFaults : list InterfaceFault;
  spAddressFaults : list InterfaceAddressFault;
  spPrefixFaults : list InterfacePrefixFault;
  spDeviceFaults : list DeviceFault;
  spStations : list Station;
  spVersion : Z
}.

Record checkpoint := mkCheckpoint {
  ckTelemetry : DeviceTelemetry;
  ckConfig : configuration;
  ckFaults : gmap (string * string) InterfaceFault;
  ckAddressFaults : gmap (string * string) InterfaceAddressFault;
  ckPrefixFaults : gmap (string * string) InterfacePrefixFault;
  ckDeviceFaults : gmap string DeviceFault;
  ckStations : gmap string Station;
  ckRadioTxPower : gmap string Z
}.

(** The exported form of a checkpoint and the whole durable record. *)
Record Checkpoint := mkExportedCheckpoint {
  xcTelemetry : DeviceTelemetry;
  xcName : string;
  xcConfiguration : configuration;
  xcInterfaceFaults : list InterfaceFault;
  xcAddressFaults : list InterfaceAddressFault;
  xcPrefixFaults : list InterfacePrefixFault;
  xcDeviceFaults : list DeviceFault;
  xcStations : list Station;
  xcRadioTxPowers : list RadioTxPower
}.

Record State := mkState {
  stTelemetry : DeviceTelemetry;
  stConsumedActions : list ConsumedDeviceAction;
  stRunning : configuration;
  stStartup : configuration;
  stInterfaceFaults : list InterfaceFault;
  stAddressFaults : list InterfaceAddressFault;
  stPrefixFaults : list InterfacePrefixFault;
  stDeviceFaults : list DeviceFault;
  stStations : list Station;
  stRadioTxPowers : list RadioTxPower;
  stCheckpoints : list Checkpoint;
  stEvents : list Event;
  stVersion : Z
}.

Record interfaceTransition := mkTransition { itOperUp : bool; itChangedAt : Time }.
#[export] Instance interfaceTransition_rebuild : Rebuild interfaceTransition := fun t =>
  mkTransition (itOperUp t) (itChangedAt t).

(** ** The store

    The observer is a callback and the change signal a channel of the
    notification dispatcher: both live outside the store, which knows them by
    an identifier.  What the store does to them is logged, in order, in
    [effects]: a snapshot handed to an observer, or a non-blocking send on a
    signal channel.  [changes] is the store's own channel of capacity one:
    whether a token is waiting in it.  The clock [now] is read [ticks] times
    so far, and its n-th reading is [now n]. *)
Inductive Effect :=
| Observed (observer : Z) (snapshot : Snapshot)
| Signalled (channel : Z).

Record Store := mkStore {
  running : configuration;
  startup : configuration;
  authored : configuration;
  version : Z;
  events : list Event;
  checkpoints : gmap string checkpoint;
  faults : gmap (string * string) InterfaceFault;
  addressFaults : gmap (string * string) InterfaceAddressFault;
  prefixFaults : gmap (string * string) InterfacePrefixFault;
  deviceFaults : gmap string DeviceFault;
  changes : bool;
  changeSignal : option Z;
  changeObserver : option Z;
  now : nat -> Time;
  ticks : nat;
  interfaceTransitions : gmap string interfaceTransition;
  telemetry : DeviceTelemetry;
  consumedActions : gmap string DeviceActionType;
  stations : gmap string Station;
  radioTxPower : gmap string Z;
  effects : list Effect
}.
#[export] Instance Store_rebuild : Rebuild Store := fun s =>
  mkStore (running s) (startup s) (authored s) (version s) (events s) (checkpoints s)
    (faults s) (addressFaults s) (prefixFaults s) (deviceFaults s) (changes s)
    (changeSignal s) (changeObserver s) (now s) (ticks s) (interfaceTransitions s)
    (telemetry s) (consumedActions s) (stations s) (radioTxPower s) (effects s).

(** ** Errors *)

Inductive Err :=
| ErrConcurrentUpdate
| ErrInterfaceNotFound
| ErrInterfaceRename
| ErrFaultTypeInvalid
| ErrFaultValueInvalid
| ErrFaultAddressInvalid
| ErrFaultPrefixInvalid
| ErrDeviceFaultTypeInvalid
| ErrCheckpointNotFound
| ErrDeviceActionInvalid
| ErrDeviceActionConflict
| ErrDeviceActionLimit
| ErrRadioTxPowerInvalid
| ErrStationInvalid
| ErrStationAssociated
| ErrStationNotFound
| ErrVLANNotFound
| ErrStateInvalid
| ErrCallback (code : Z).
#[export] Instance Err_eq_dec : EqDecision Err.
Proof. solve_decision. Defined.
