(* ===== verification/DeviceStore.v ===== *)
(** * Device state: the store and its operations

    One definition per method of [internal/devicestate.Store].  An operation
    takes the store last and returns the new store, with the Go error beside
    it where the method returns one ([None] is a nil error).  The store lock
    makes each method atomic; the three methods that run a callback between a
    read and a write ([UpdateIdentity], [UpdateInterface], [UpdateVLAN]) are
    split into their read and their commit, so that other operations can be
    placed between the two.  Values here are immutable, so Go's cloning is the
    identity on them ([cloneNetwork_id]). *)

From S2P Require Import Prelude.
From S2P Require Import Netip.
From S2P Require Import DeviceTypes.

(** ** Cloning (network.go, store_lifecycle.go) *)

Definition cloneInterface (iface : Interface) : Interface := iface <| ifVLANs := ifVLANs iface |>.

Definition cloneNetwork (network : Network) : Network :=
  mkNetwork (cloneInterface <$> nwInterfaces network) (nwRoutes network) (nwVLANs network)
    ((fun r => r <| rrNetworks := rrNetworks r |>) <$> nwRouters network).

Definition cloneConfiguration (source : configuration) : configuration :=
  mkConfiguration (cfIdentity source) (cloneNetwork (cfNetwork source)).

Definition cloneEvents (l : list Event) : list Event :=
  (fun e => mkEvent (evVersion e) (evKind e) (evTarget e) (cloneInterface <$> evInterface e)
     (cloneInterface <$> evPreviousInterface e) (evInterfaceIndex e) (evTimestamp e)) <$> l.

(** ** Fault catalogs (store_fault.go, store_device_fault.go, fault_catalog.go) *)

Definition validFaultType (t : FaultType) : bool :=
  existsb (fun d => bool_decide (fdType d = t)) interfaceFaultDefinitions.

Definition FaultTypeLabel (t : FaultType) : string :=
  match list_find (fun d => fdType d = t) interfaceFaultDefinitions with
  | Some (_, d) => fdLabel d
  | None => ""
  end.

Definition ParseFaultLabel (label : string) : FaultType * bool :=
  match list_find (fun d => fdLabel d = label) interfaceFaultDefinitions with
  | Some (_, d) => (fdType d, true)
  | None => (""%string, false)
  end.

Definition deviceFaultDefinition (t : DeviceFaultType) : option DeviceFaultDefinition :=
  snd <$> list_find (fun d => ddType d = t) deviceFaultDefinitions.

Definition DeviceFaultTypeLabel (t : DeviceFaultType) : string :=
  if bool_decide (t = FaultDuplicateDHCPOffer) then "Duplicate DHCP Offer"
  else match list_find (fun d => ddType d = t) deviceFaultDefinitions with
       | Some (_, d) => ddLabel d
       | None => ""
       end.

Definition ParseDeviceFaultLabel (label : string) : DeviceFaultType * bool :=
  if bool_decide (label = DeviceFaultTypeLabel FaultDuplicateDHCPOffer)
  then (FaultDuplicateDHCPOffer, true)
  else match list_find (fun d => ddLabel d = label) deviceFaultDefinitions with
       | Some (_, d) => (ddType d, true)
       | None => (""%string, false)
       end.

Definition AuthorableFaultTypes : list string :=
  sortBy id ([FaultDuplicateDHCPOffer; FaultDuplicateIP; FaultBadMask] ++
    (fdType <$> interfaceFaultDefinitions) ++ (ddType <$> deviceFaultDefinitions)).

Definition ValidFaultAddress (address : Addr) : bool :=
  Is4 address && negb (IsUnspecified address) && negb (IsMulticast address) &&
  negb (bool_decide (address = AddrFrom4 255 255 255 255)).

Definition validDeviceFault (fault : DeviceFault) : bool :=
  if bool_decide (dfType fault = FaultDuplicateDHCPOffer)
  then (dfValue fault =? 0) && ValidFaultAddress (dfAddress fault)
  else match deviceFaultDefinition (dfType fault) with
       | Some definition =>
           bool_decide (dfAddress fault = AddrZero) && (0 <? dfValue fault) &&
           (dfValue fault <=? ddMaxValue definition)
       | None => false
       end.

Definition interfaceExists (interfaces : list Interface) (name : string) : bool :=
  existsb (fun iface => bool_decide (ifName iface = name)) interfaces.

Definition isCarrierFault (t : FaultType) : bool :=
  if bool_decide (t = FaultLinkDown) || bool_decide (t = FaultPoELoss) then true else false.

(** The carrier is what such a fault takes away; operational state follows. *)
Definition applyCarrierFault (interfaces : list Interface)
    (kf : (string * string) * InterfaceFault) : list Interface :=
  let '(key, fault) := kf in
  if negb (isCarrierFault key.2) || (ftValue fault <=? 0) then interfaces
  else (fun iface => if bool_decide (ifName iface = key.1)
                     then iface <| ifCarrierUp := false |> <| ifOperUp := false |>
                     else iface) <$> interfaces.

Definition applyCarrierFaults (interfaces : list Interface)
    (fs : gmap (string * string) InterfaceFault) : list Interface :=
  foldl applyCarrierFault interfaces (map_to_list fs).

(** ** Sorted listings *)

Definition sortedInterfaceFaults := sortedValues faultKey.
Definition sortedAddressFaults := sortedValues addressFaultKey.
Definition sortedPrefixFaults := sortedValues prefixFaultKey.
Definition sortedDeviceFaults := sortedValues dfType.
Definition sortedStations := sortedValues snMAC.

Definition sortedRadioTxPowers (powers : gmap string Z) : list RadioTxPower :=
  exportPairs 0 mkRadioTxPower powers.

(** ** Snapshots (store.go) *)

Definition snapshot (source : configuration) (s : Store) : Snapshot :=
  let network := cloneNetwork (cfNetwork source) in
  mkSnapshot (cfIdentity source)
    (network <| nwInterfaces := applyCarrierFaults (nwInterfaces network) (faults s) |>)
    (sortedInterfaceFaults (faults s)) (sortedAddressFaults (addressFaults s))
    (sortedPrefixFaults (prefixFaults s)) (sortedDeviceFaults (deviceFaults s))
    (sortedStations (stations s)) (version s).

Definition storeSnapshot (s : Store) : Snapshot := snapshot (running s) s.
Definition StartupSnapshot (s : Store) : Snapshot := snapshot (startup s) s.

Definition initialStoreVersion : Z := 1.

Definition NewStore (identity : Identity) (clock : nat -> Time) : Store :=
  let initial := mkConfiguration identity NetworkZero in
  mkStore initial initial initial initialStoreVersion [] ∅ ∅ ∅ ∅ ∅ false None None
    clock 0 ∅ DeviceTelemetryZero ∅ ∅ ∅ [].

(** ** Events (event.go, store_interface_transition.go) *)

(** One reading of the store's clock. *)
Definition readNow (s : Store) : Time * Store := (now s (ticks s), s <| ticks := S (ticks s) |>).

Definition appendEvent (event : Event) (s : Store) : Store :=
  if Z.of_nat (length (events s)) =? maxEventHistory
  then s <| events := tail (events s) ++ [event] |>
  else s <| events := events s ++ [event] |>.

(** The loop of [updateInterfaceTransitions]: the clock is read once, at the
    first interface that changed. *)
Fixpoint transitionLoop (previous : gmap string interfaceTransition) (ifaces : list Interface)
    (changedAt : Time) (next : gmap string interfaceTransition) (s : Store)
    : gmap string interfaceTransition * Store :=
  match ifaces with
  | [] => (next, s)
  | iface :: ifaces =>
      let before := default (mkTransition false zeroTime) (previous !! ifName iface) in
      let '(moved, changedAt, s) :=
        if bool_decide (is_Some (previous !! ifName iface)) &&
           negb (Bool.eqb (itOperUp before) (ifOperUp iface))
        then let '(at_, s) := if IsZero changedAt then readNow s else (changedAt, s) in
             (before <| itChangedAt := at_ |>, at_, s)
        else (before, changedAt, s) in
      transitionLoop previous ifaces changedAt
        (<[ifName iface := moved <| itOperUp := ifOperUp iface |>]> next) s
  end.

Definition updateInterfaceTransitions (s : Store) : Store :=
  let ifaces := applyCarrierFaults (nwInterfaces (cfNetwork (running s))) (faults s) in
  let '(next, s) := transitionLoop (interfaceTransitions s) ifaces zeroTime ∅ s in
  s <| interfaceTransitions := next |>.

Definition InterfaceLastChange (name : string) (s : Store) : Time :=
  match interfaceTransitions s !! name with Some t => itChangedAt t | None => zeroTime end.

Definition emit (effect : Effect) (s : Store) : Store := s <| effects := effects s ++ [effect] |>.

Definition signalChange (s : Store) : Store :=
  let s := updateInterfaceTransitions s in
  let s := match changeObserver s with
           | Some observer => emit (Observed observer (storeSnapshot s)) s
           | None => s
           end in
  let s := s <| changes := true |> in
  match changeSignal s with
  | Some channel => emit (Signalled channel) s
  | None => s
  end.

Definition recordEvent (kind : EventKind) (target : string) (s : Store) : Store :=
  let v := version s in
  let '(t, s) := readNow s in
  signalChange (appendEvent (mkEvent v kind target None None 0 t) s).

Definition recordInterfaceEvent (index : Z) (previous current : Interface) (s : Store) : Store :=
  let v := version s in
  let '(t, s) := readNow s in
  signalChange (appendEvent
    (mkEvent v EventInterfaceUpdated (ifName current) (Some (cloneInterface current))
       (Some (cloneInterface previous)) index t) s).

Definition Events (s : Store) : list Event := cloneEvents (events s).

(** The suffix of the log that starts at the first event newer than [v]. *)
Fixpoint newerSuffix (v : Z) (l : list Event) : list Event :=
  match l with
  | [] => []
  | event :: l' => if v <? evVersion event then l else newerSuffix v l'
  end.

Definition EventsAfter (v : Z) (s : Store) : list Event * bool :=
  let v := Z.max v initialStoreVersion in
  match events s with
  | first :: _ =>
      if (v <? evVersion first) && (1 <? evVersion first - v)
      then (cloneEvents (events s), false)
      else (cloneEvents (newerSuffix v (events s)), true)
  | [] => ([], true)
  end.

Definition bumpVersion (s : Store) : Store := s <| version := uint64 (version s + 1) |>.

(** [s.version++; s.recordEvent(kind, target)] *)
Definition commit (kind : EventKind) (target : string) (s : Store) : Store :=
  recordEvent kind target (bumpVersion s).

Definition SetChangeObserver (observer : option Z) (s : Store) : Store :=
  let s := s <| changeObserver := observer |> in
  match observer with
  | Some o => emit (Observed o (storeSnapshot s)) s
  | None => s
  end.

Definition SetChangeSignal (signal : option Z) (s : Store) : Store :=
  s <| changeSignal := signal |>.

(** A receive from [Changes()], which takes the waiting token if any. *)
Definition receiveChange (s : Store) : bool * Store := (changes s, s <| changes := false |>).
