(* ===== verification/DeviceOps.v ===== *)
(** * Device state: the operations that change a store

    Continues [DeviceStore]: every exported method of the store that mutates
    it, with the guards and early returns of the source. *)

From S2P Require Import Prelude.
From S2P Require Import Netip.
From S2P Require Import DeviceTypes.
From S2P Require Import DeviceStore.

(** ** Carrier transitions (store_fault.go) *)

Fixpoint carrierLoop (index : Z) (before after : list Interface) (s : Store) : Store :=
  match before, after with
  | b :: before, a :: after =>
      carrierLoop (index + 1) before after
        (if negb (Bool.eqb (ifOperUp b) (ifOperUp a))
         then recordInterfaceEvent (index + 1) b a (bumpVersion s) else s)
  | _, _ => s
  end.

Definition recordCarrierTransitions (previous : gmap (string * string) InterfaceFault)
    (s : Store) : Store :=
  let ifaces := nwInterfaces (cfNetwork (running s)) in
  carrierLoop 0 (applyCarrierFaults ifaces previous) (applyCarrierFaults ifaces (faults s)) s.

Definition runningInterfaces (s : Store) : list Interface := nwInterfaces (cfNetwork (running s)).

(** ** Interface faults (store_fault.go) *)

Definition SetInterfaceFault (interfaceName : string) (faultType : FaultType) (value : Z)
    (s : Store) : Store * option Err :=
  if negb (validFaultType faultType) then (s, Some ErrFaultTypeInvalid)
  else if (value <? 0) || (100 <? value) then (s, Some ErrFaultValueInvalid)
  else if negb (interfaceExists (runningInterfaces s) interfaceName)
  then (s, Some ErrInterfaceNotFound)
  else
    let key := (interfaceName, faultType) in
    let current := faults s !! key in
    let previous := faults s in
    let target := interfaceName +:+ ":" +:+ faultType in
    if value =? 0 then
      match current with
      | None => (s, None)
      | Some _ =>
          let s := s <| faults := delete key (faults s) |> in
          (recordCarrierTransitions previous (commit EventFaultCleared target s), None)
      end
    else if bool_decide ((ftValue <$> current) = Some value) then (s, None)
    else
      let s := s <| faults := <[key := mkInterfaceFault interfaceName faultType value]> (faults s) |> in
      (recordCarrierTransitions previous (commit EventFaultUpdated target s), None).

(** The keys of one interface leave a fault map. *)
Definition withoutInterface {A} (name : string) (m : gmap (string * string) A)
    : gmap (string * string) A := filter (fun kv => kv.1.1 <> name) m.

Definition ClearInterfaceFaults (interfaceName : string) (s : Store) : Store * option Err :=
  if negb (interfaceExists (runningInterfaces s) interfaceName)
  then (s, Some ErrInterfaceNotFound)
  else
    let previous := faults s in
    let prefixes := withoutInterface interfaceName (prefixFaults s) in
    let addresses := withoutInterface interfaceName (addressFaults s) in
    let rates := withoutInterface interfaceName (faults s) in
    let changed := bool_decide (prefixes <> prefixFaults s) ||
                   bool_decide (addresses <> addressFaults s) ||
                   bool_decide (rates <> faults s) in
    let s := s <| prefixFaults := prefixes |> <| addressFaults := addresses |>
               <| faults := rates |> in
    if changed
    then (recordCarrierTransitions previous (commit EventFaultCleared interfaceName s), None)
    else (s, None).

Definition ClearAllFaults (s : Store) : Store :=
  if bool_decide (faults s = ∅) && bool_decide (addressFaults s = ∅) &&
     bool_decide (prefixFaults s = ∅)
  then s
  else
    let previous := faults s in
    let s := s <| faults := ∅ |> <| addressFaults := ∅ |> <| prefixFaults := ∅ |> in
    recordCarrierTransitions previous (commit EventFaultCleared "*" s).

(** ** Addressed and prefix faults *)

Definition SetInterfaceAddressFault (fault : InterfaceAddressFault) (s : Store)
    : Store * option Err :=
  if negb (bool_decide (afType fault = FaultDuplicateIP)) then (s, Some ErrFaultTypeInvalid)
  else if negb (ValidFaultAddress (afAddress fault)) then (s, Some ErrFaultAddressInvalid)
  else if negb (interfaceExists (runningInterfaces s) (afInterface fault))
  then (s, Some ErrInterfaceNotFound)
  else
    let key := (afInterface fault, afType fault) in
    let stored := default (mkInterfaceAddressFault "" "" AddrZero) (addressFaults s !! key) in
    if bool_decide (stored = fault) then (s, None)
    else (commit EventFaultUpdated (afInterface fault +:+ ":" +:+ afType fault)
            (s <| addressFaults := <[key := fault]> (addressFaults s) |>), None).

Definition ClearInterfaceAddressFault (iface : string) (kind : InterfaceAddressFaultType)
    (s : Store) : Store * option Err :=
  if negb (bool_decide (kind = FaultDuplicateIP)) then (s, Some ErrFaultTypeInvalid)
  else if negb (interfaceExists (runningInterfaces s) iface) then (s, Some ErrInterfaceNotFound)
  else
    let key := (iface, kind) in
    match addressFaults s !! key with
    | Some _ => (commit EventFaultCleared (iface +:+ ":" +:+ kind)
                   (s <| addressFaults := delete key (addressFaults s) |>), None)
    | None => (s, None)
    end.

Definition HasInterfacePrefixFaults (s : Store) : bool := negb (bool_decide (prefixFaults s = ∅)).

Definition SetInterfacePrefixFault (fault : InterfacePrefixFault) (s : Store)
    : Store * option Err :=
  if negb (bool_decide (pfType fault = FaultBadMask)) then (s, Some ErrFaultTypeInvalid)
  else match list_find (fun iface => ifName iface = pfInterface fault) (runningInterfaces s) with
  | None => (s, Some ErrInterfaceNotFound)
  | Some (_, iface) =>
      let address := ifAddress iface in
      if negb (PrefixIsValid address) || negb (ValidFaultAddress (pfxAddr address)) ||
         (pfPrefixBits fault <? 0) || (32 <? pfPrefixBits fault)
      then (s, Some ErrFaultPrefixInvalid)
      else
        let key := (pfInterface fault, pfType fault) in
        if bool_decide (prefixFaults s !! key = Some fault) then (s, None)
        else (commit EventFaultUpdated (pfInterface fault +:+ ":" +:+ pfType fault)
                (s <| prefixFaults := <[key := fault]> (prefixFaults s) |>), None)
  end.

Definition ClearInterfacePrefixFault (iface : string) (kind : InterfacePrefixFaultType)
    (s : Store) : Store * option Err :=
  if negb (bool_decide (kind = FaultBadMask)) then (s, Some ErrFaultTypeInvalid)
  else if negb (interfaceExists (runningInterfaces s) iface) then (s, Some ErrInterfaceNotFound)
  else
    let key := (iface, kind) in
    match prefixFaults s !! key with
    | Some _ => (commit EventFaultCleared (iface +:+ ":" +:+ kind)
                   (s <| prefixFaults := delete key (prefixFaults s) |>), None)
    | None => (s, None)
    end.

(** ** Device faults (store_device_fault.go, store_address_fault.go) *)

Definition ClearDeviceFault (kind : DeviceFaultType) (s : Store) : Store * option Err :=
  if bool_decide (deviceFaultDefinition kind = None) &&
     negb (bool_decide (kind = FaultDuplicateDHCPOffer))
  then (s, Some ErrDeviceFaultTypeInvalid)
  else match deviceFaults s !! kind with
       | Some _ => (commit EventDeviceFaultCleared kind
                      (s <| deviceFaults := delete kind (deviceFaults s) |>), None)
       | None => (s, None)
       end.

Definition setDeviceFault (fault : DeviceFault) (s : Store) : Store :=
  if bool_decide (deviceFaults s !! dfType fault = Some fault) then s
  else commit EventDeviceFaultUpdated (dfType fault)
         (s <| deviceFaults := <[dfType fault := fault]> (deviceFaults s) |>).

Definition SetDeviceFault (faultType : DeviceFaultType) (value : Z) (s : Store)
    : Store * option Err :=
  match deviceFaultDefinition faultType with
  | None => (s, Some ErrDeviceFaultTypeInvalid)
  | Some definition =>
      if (value <? 0) || (ddMaxValue definition <? value) then (s, Some ErrFaultValueInvalid)
      else if value =? 0 then ClearDeviceFault faultType s
      else (setDeviceFault (mkDeviceFault faultType value AddrZero) s, None)
  end.

Definition SetDeviceAddressFault (kind : DeviceFaultType) (address : Addr) (s : Store)
    : Store * option Err :=
  if negb (bool_decide (kind = FaultDuplicateDHCPOffer)) then (s, Some ErrDeviceFaultTypeInvalid)
  else if negb (ValidFaultAddress address) then (s, Some ErrFaultAddressInvalid)
  else (setDeviceFault (mkDeviceFault kind 0 address) s, None).

Definition ClearDeviceFaults (s : Store) : Store :=
  if bool_decide (deviceFaults s = ∅) then s
  else commit EventDeviceFaultCleared "*" (s <| deviceFaults := ∅ |>).

Definition DeviceFaultActive (faultType : DeviceFaultType) (s : Store) : bool :=
  bool_decide (is_Some (deviceFaults s !! faultType)).

Definition DeviceFaultValue (faultType : DeviceFaultType) (s : Store) : Z :=
  match deviceFaults s !! faultType with Some f => dfValue f | None => 0 end.

Definition DeviceFaultAddress (kind : DeviceFaultType) (s : Store) : Addr :=
  match deviceFaults s !! kind with Some f => dfAddress f | None => AddrZero end.

(** ** Transactions with a callback (store.go, store_interface.go, store_routing.go) *)

(** An update callback's outcome: the next value, or the callback's error. *)
Abbreviation Update A := (A -> A + Err).

Definition readIdentity (s : Store) : Identity * Z := (cfIdentity (running s), version s).

Definition commitIdentity (read : Identity * Z) (update : Update Identity) (s : Store)
    : Store * option Err :=
  match update read.1 with
  | inr err => (s, Some err)
  | inl next =>
      if negb (version s =? read.2) then (s, Some ErrConcurrentUpdate)
      else (commit EventIdentityUpdated (idHostname next)
              (s <| running := running s <| cfIdentity := next |> |>), None)
  end.

Definition UpdateIdentity (update : Update Identity) (s : Store) : Store * option Err :=
  commitIdentity (readIdentity s) update s.

Definition reconcileConnectedRoute (routes : list Route) (iface : Interface) : list Route :=
  let kept := filter (fun route => ~ (rtConnected route = true /\ rtVia route = ifName iface)) routes in
  if PrefixIsValid (ifAddress iface) && ifAdminUp iface && ifOperUp iface
  then kept ++ [mkRoute (Masked (ifAddress iface)) (ifName iface) AddrZero true]
  else kept.

(** What the read half of [UpdateInterface] keeps: index, interface, version. *)
Definition readInterface (name : string) (s : Store) : option (nat * Interface * Z) :=
  (fun found => (found, version s)) <$>
    list_find (fun iface => ifName iface = name) (runningInterfaces s).

Definition commitInterface (read : nat * Interface * Z) (update : Update Interface)
    (s : Store) : Store * option Err :=
  let '(index, current, v) := read in
  match update (cloneInterface current) with
  | inr err => (s, Some err)
  | inl next =>
      if negb (bool_decide (ifName next = ifName current)) then (s, Some ErrInterfaceRename)
      else if negb (version s =? v) then (s, Some ErrConcurrentUpdate)
      else
        let network := cfNetwork (running s) in
        let network := network <| nwInterfaces :=
          <[index := cloneInterface next]> (nwInterfaces network) |> in
        let network :=
          if negb (bool_decide (ifAddress current = ifAddress next)) ||
             negb (Bool.eqb (ifAdminUp current) (ifAdminUp next)) ||
             negb (Bool.eqb (ifOperUp current) (ifOperUp next))
          then network <| nwRoutes := reconcileConnectedRoute (nwRoutes network) next |>
          else network in
        let s := bumpVersion (s <| running := running s <| cfNetwork := network |> |>) in
        (recordInterfaceEvent (Z.of_nat index + 1) current next s, None)
  end.

Definition UpdateInterface (name : string) (update : Update Interface) (s : Store)
    : Store * option Err :=
  match readInterface name s with
  | None => (s, Some ErrInterfaceNotFound)
  | Some read => commitInterface read update s
  end.

Definition EnsureVLAN (id : Z) (s : Store) : Store :=
  let network := cfNetwork (running s) in
  if existsb (fun vlan => vlID vlan =? id) (nwVLANs network) then s
  else commit EventVLANUpdated (pretty id)
         (s <| running := running s <| cfNetwork :=
            network <| nwVLANs := nwVLANs network ++ [mkVLAN id "" true] |> |> |>).

Definition readVLAN (id : Z) (s : Store) : option (nat * VLAN * Z) :=
  (fun found => (found, version s)) <$>
    list_find (fun vlan => vlID vlan = id) (nwVLANs (cfNetwork (running s))).

Definition commitVLAN (id : Z) (read : nat * VLAN * Z) (update : VLAN -> VLAN) (s : Store)
    : Store * option Err :=
  let '(index, vlan, v) := read in
  let next := update vlan in
  if negb (version s =? v) then (s, Some ErrConcurrentUpdate)
  else
    let network := cfNetwork (running s) in
    (commit EventVLANUpdated (pretty id)
       (s <| running := running s <| cfNetwork :=
          network <| nwVLANs := <[index := next]> (nwVLANs network) |> |> |>), None).

Definition UpdateVLAN (id : Z) (update : VLAN -> VLAN) (s : Store) : Store * option Err :=
  match readVLAN id s with
  | None => (s, Some ErrVLANNotFound)
  | Some read => commitVLAN id read update s
  end.

Definition sameRouter (protocol processID : string) (r : Router) : Prop :=
  rrProtocol r = protocol /\ rrProcessID r = processID.
#[export] Instance sameRouter_dec protocol processID r : Decision (sameRouter protocol processID r).
Proof. unfold sameRouter. apply _. Defined.

Definition EnsureRouter (protocol processID : string) (s : Store) : Store :=
  let network := cfNetwork (running s) in
  if existsb (fun r => bool_decide (sameRouter protocol processID r)) (nwRouters network) then s
  else commit EventRouterUpdated (protocol +:+ ":" +:+ processID)
         (s <| running := running s <| cfNetwork :=
            network <| nwRouters := nwRouters network ++ [mkRouter protocol processID []] |> |> |>).

Definition AddRouterNetwork (protocol processID : string) (statement : RouterNetwork) (s : Store)
    : Store :=
  let network := cfNetwork (running s) in
  match list_find (sameRouter protocol processID) (nwRouters network) with
  | None => s
  | Some (index, router) =>
      if bool_decide (statement ∈ rrNetworks router) then s
      else commit EventRouterUpdated (protocol +:+ ":" +:+ processID)
             (s <| running := running s <| cfNetwork := network <| nwRouters :=
                <[index := router <| rrNetworks := rrNetworks router ++ [statement] |>]>
                  (nwRouters network) |> |> |>)
  end.

Definition UpsertRoute (route : Route) (s : Store) : Store :=
  let route := route <| rtDestination := Masked (rtDestination route) |> in
  let network := cfNetwork (running s) in
  let routes :=
    match list_find (fun current => rtConnected current = false /\
                       rtDestination current = rtDestination route) (nwRoutes network) with
    | Some (index, _) => <[index := route]> (nwRoutes network)
    | None => nwRoutes network ++ [route]
    end in
  commit EventRouteUpdated (prefixString (rtDestination route))
    (s <| running := running s <| cfNetwork := network <| nwRoutes := routes |> |> |>).

(** ** Lifecycle (store_lifecycle.go, store_network.go, store_checkpoint.go) *)

Definition sameInterface (left right : Interface) : bool :=
  bool_decide (ifName left = ifName right) && bool_decide (ifNetwork left = ifNetwork right) &&
  bool_decide (ifAddress left = ifAddress right) &&
  bool_decide (ifDescription left = ifDescription right) &&
  bool_decide (ifVLANs left = ifVLANs right) && Bool.eqb (ifAdminUp left) (ifAdminUp right) &&
  Bool.eqb (ifOperUp left) (ifOperUp right) && Bool.eqb (ifCarrierUp left) (ifCarrierUp right).

Fixpoint changedLoop (byName : gmap string Interface) (index : Z) (ifaces : list Interface)
    (s : Store) : Store :=
  match ifaces with
  | [] => s
  | current :: ifaces =>
      changedLoop byName (index + 1) ifaces
        match byName !! ifName current with
        | Some before => if negb (sameInterface before current)
                         then recordInterfaceEvent (index + 1) before current s else s
        | None => s
        end
  end.

Definition recordChangedInterfaceEvents (previous : list Interface) (s : Store) : Store :=
  changedLoop (importBy ifName previous) 0 (runningInterfaces s) s.

Definition replaceRunning (next : configuration) (kind : EventKind) (target : string)
    (s : Store) : Store :=
  let previousInterfaces := nwInterfaces (cloneNetwork (cfNetwork (running s))) in
  recordChangedInterfaceEvents previousInterfaces
    (commit kind target (s <| running := cloneConfiguration next |>)).

Definition SaveStartup (s : Store) : Store :=
  commit EventStartupSaved "" (s <| startup := cloneConfiguration (running s) |>).

Definition ReloadStartup (s : Store) : Store :=
  replaceRunning (startup s) EventStartupReloaded "" s.

Definition ResetAuthored (s : Store) : Store :=
  let s := replaceRunning (authored s) EventAuthoredReset "" s in
  s <| startup := cloneConfiguration (authored s) |>.

Definition EraseStartup (s : Store) : Store :=
  commit EventStartupErased "" (s <| startup := cloneConfiguration (authored s) |>).

Definition ReplaceNetwork (network : Network) (s : Store) : Store :=
  let network := network <| nwInterfaces :=
    (fun i => if ifOperUp i then i <| ifCarrierUp := true |> else i) <$> nwInterfaces network |> in
  commit EventNetworkInstalled ""
    (s <| running := running s <| cfNetwork := cloneNetwork network |> |>
       <| startup := startup s <| cfNetwork := cloneNetwork network |> |>
       <| authored := authored s <| cfNetwork := cloneNetwork network |> |>).

Definition SaveCheckpoint (name : string) (s : Store) : Store :=
  commit EventCheckpointSaved name
    (s <| checkpoints := <[name := mkCheckpoint (telemetry s) (cloneConfiguration (running s))
        (faults s) (addressFaults s) (prefixFaults s) (deviceFaults s) (stations s)
        (radioTxPower s)]> (checkpoints s) |>).

Definition RestoreCheckpoint (name : string) (s : Store) : Store * option Err :=
  match checkpoints s !! name with
  | None => (s, Some ErrCheckpointNotFound)
  | Some saved =>
      let s := s <| faults := ckFaults saved |> <| addressFaults := ckAddressFaults saved |>
                 <| prefixFaults := ckPrefixFaults saved |>
                 <| deviceFaults := ckDeviceFaults saved |>
                 <| stations := ckStations saved |> <| radioTxPower := ckRadioTxPower saved |>
                 <| telemetry := ckTelemetry saved |> in
      (replaceRunning (ckConfig saved) EventCheckpointRestored name s, None)
  end.

Definition CheckpointNames (s : Store) : list string := sortedKeys (checkpoints s).

Definition HasCheckpoint (name : string) (s : Store) : bool :=
  bool_decide (is_Some (checkpoints s !! name)).

(** ** One-shot actions (store_device_action.go) *)

Definition validDeviceAction (kind : DeviceActionType) : bool :=
  bool_decide (kind = ActionReboot) || bool_decide (kind = ActionSTPTopologyChange).

Definition ExecuteDeviceAction (kind : DeviceActionType) (id : string) (s : Store)
    : Store * bool * option Err :=
  if negb (validDeviceAction kind) || bool_decide (id = ""%string) ||
     (maxDeviceActionIDLength <? Z.of_nat (String.length id))
  then (s, false, Some ErrDeviceActionInvalid)
  else match consumedActions s !! id with
  | Some previous =>
      if negb (bool_decide (previous = kind)) then (s, false, Some ErrDeviceActionConflict)
      else (s, false, None)
  | None =>
      if maxConsumedDeviceActions <=? Z.of_nat (size (consumedActions s))
      then (s, false, Some ErrDeviceActionLimit)
      else
        let '(t, s) := readNow s in
        let '(effect, eventKind) :=
          if bool_decide (kind = ActionReboot)
          then (telemetry s <| dtRebootedAt := t |>, EventDeviceRebooted)
          else (telemetry s <| dtSTPChanges := uint32 (dtSTPChanges (telemetry s) + 1) |>
                  <| dtSTPChangedAt := t |>, EventSTPTopologyChanged) in
        let s := bumpVersion (s <| telemetry := effect |>
                   <| consumedActions := <[id := kind]> (consumedActions s) |>) in
        (signalChange (appendEvent (mkEvent (version s) eventKind id None None 0 t) s), true, None)
  end.

(** ** Radios and stations (store_radio.go, store_station.go) *)

Definition SetRadioTxPower (interfaceName : string) (dBm : Z) (s : Store) : Store * option Err :=
  if (dBm <? MinRadioTxPowerDBM) || (MaxRadioTxPowerDBM <? dBm)
  then (s, Some ErrRadioTxPowerInvalid)
  else if negb (interfaceExists (runningInterfaces s) interfaceName)
  then (s, Some ErrInterfaceNotFound)
  else if bool_decide (radioTxPower s !! interfaceName = Some dBm) then (s, None)
  else (commit EventRadioUpdated interfaceName
          (s <| radioTxPower := <[interfaceName := dBm]> (radioTxPower s) |>), None).

Definition RestoreRadioTxPower (interfaceName : string) (s : Store) : Store :=
  match radioTxPower s !! interfaceName with
  | None => s
  | Some _ => commit EventRadioUpdated interfaceName
                (s <| radioTxPower := delete interfaceName (radioTxPower s) |>)
  end.

Definition RadioTxPowerDBM (interfaceName : string) (s : Store) : Z * bool :=
  match radioTxPower s !! interfaceName with Some d => (d, true) | None => (0, false) end.

Definition canonicalMAC (mac : string) : string + Err :=
  match ParseMAC mac with
  | Some parsed =>
      if bool_decide (length parsed = stationMACLength) then inl (macString parsed)
      else inr ErrStationInvalid
  | None => inr ErrStationInvalid
  end.

Definition canonicalStation (station : Station) : Station + Err :=
  match canonicalMAC (snMAC station) with
  | inl mac => if bool_decide (snRadio station = ""%string) || negb (Is4 (snIPAddress station))
               then inr ErrStationInvalid
               else inl (station <| snMAC := mac |>)
  | inr _ => inr ErrStationInvalid
  end.

Fixpoint installLoop (installed : gmap string Station) (l : list Station)
    : gmap string Station + Err :=
  match l with
  | [] => inl installed
  | station :: l =>
      match canonicalStation station with
      | inl canonical => installLoop (<[snMAC canonical := canonical]> installed) l
      | inr err => inr err
      end
  end.

Definition InstallStations (l : list Station) (s : Store) : Store * option Err :=
  match installLoop ∅ l with
  | inl installed => (s <| stations := installed |>, None)
  | inr err => (s, Some err)
  end.

Definition AssociateStation (station : Station) (s : Store) : Store * option Err :=
  match canonicalStation station with
  | inr err => (s, Some err)
  | inl canonical =>
      match stations s !! snMAC canonical with
      | Some _ => (s, Some ErrStationAssociated)
      | None => (commit EventStationAssociated (snMAC canonical)
                   (s <| stations := <[snMAC canonical := canonical]> (stations s) |>), None)
      end
  end.

(** The station comes back with a nil error only. *)
Definition RoamStation (mac : string) (s : Store) : Store * (Station + Err) :=
  match canonicalMAC mac with
  | inr err => (s, inr err)
  | inl canonical =>
      match stations s !! canonical with
      | None => (s, inr ErrStationNotFound)
      | Some station => (commit EventStationRoamed canonical
                           (s <| stations := delete canonical (stations s) |>), inl station)
      end
  end.

Definition lookupStation (mac : string) (s : Store) : option Station :=
  match canonicalMAC mac with inl canonical => stations s !! canonical | inr _ => None end.

(** ** The host's view of its own network (store_prefix_fault.go) *)

Definition applyPrefixFault (network : Network) (fault : InterfacePrefixFault) : Network :=
  foldl (fun network index =>
    match nwInterfaces network !! index with
    | None => network
    | Some iface =>
        if negb (bool_decide (ifName iface = pfInterface fault)) ||
           negb (PrefixIsValid (ifAddress iface)) || negb (Is4 (pfxAddr (ifAddress iface)))
        then network
        else
          let iface := iface <| ifAddress :=
            PrefixFrom (pfxAddr (ifAddress iface)) (pfPrefixBits fault) |> in
          network <| nwInterfaces := <[index := iface]> (nwInterfaces network) |>
                  <| nwRoutes := reconcileConnectedRoute (nwRoutes network) iface |>
    end) network (seq 0 (length (nwInterfaces network))).

Definition EffectiveHostNetwork (sp : Snapshot) : Network :=
  foldl applyPrefixFault (cloneNetwork (spNetwork sp)) (spPrefixFaults sp).
