(* ===== verification/DeviceDurable.v ===== *)
(** * Device state: the durable record

    [internal/devicestate/store_state.go] and [store_state_validation.go]:
    exporting a store, checking a record against the authored interfaces and
    restoring it, with the validators of the other files of the package. *)

From S2P Require Import Prelude.
From S2P Require Import Netip.
From S2P Require Import DeviceTypes.
From S2P Require Import DeviceStore.
From S2P Require Import DeviceOps.

(** ** Export *)

Definition exportConsumedActions (consumed : gmap string DeviceActionType)
    : list ConsumedDeviceAction :=
  exportPairs ""%string mkConsumedDeviceAction consumed.

Definition exportConfiguration (source : configuration) : configuration :=
  mkConfiguration (cfIdentity source) (cloneNetwork (cfNetwork source)).

Definition checkpointZero : checkpoint :=
  mkCheckpoint DeviceTelemetryZero (mkConfiguration (mkIdentity "") NetworkZero) ∅ ∅ ∅ ∅ ∅ ∅.

Definition exportCheckpoint (name : string) (point : checkpoint) : Checkpoint :=
  mkExportedCheckpoint (ckTelemetry point) name (exportConfiguration (ckConfig point))
    (sortedInterfaceFaults (ckFaults point)) (sortedAddressFaults (ckAddressFaults point))
    (sortedPrefixFaults (ckPrefixFaults point)) (sortedDeviceFaults (ckDeviceFaults point))
    (sortedStations (ckStations point)) (sortedRadioTxPowers (ckRadioTxPower point)).

Definition exportCheckpoints (saved : gmap string checkpoint) : list Checkpoint :=
  exportPairs checkpointZero exportCheckpoint saved.

Definition ExportState (s : Store) : State :=
  mkState (telemetry s) (exportConsumedActions (consumedActions s))
    (exportConfiguration (running s)) (exportConfiguration (startup s))
    (sortedInterfaceFaults (faults s)) (sortedAddressFaults (addressFaults s))
    (sortedPrefixFaults (prefixFaults s)) (sortedDeviceFaults (deviceFaults s))
    (sortedStations (stations s)) (sortedRadioTxPowers (radioTxPower s))
    (exportCheckpoints (checkpoints s)) (cloneEvents (events s)) (version s).

(** ** Validation *)

Definition validDeviceTelemetry (t : DeviceTelemetry) : bool :=
  if IsZero (dtSTPChangedAt t) && negb (dtSTPChanges t =? 0) then false
  else forallb (fun timestamp => IsZero timestamp || negb (timestamp <? 0))
         [dtRebootedAt t; dtSTPChangedAt t].

Definition telemetryHasConsumedActions (t : DeviceTelemetry) (counts : gmap string Z) : bool :=
  let count kind := default 0 (counts !! kind) in
  (IsZero (dtRebootedAt t) || (0 <? count ActionReboot)) &&
  (IsZero (dtSTPChangedAt t) || (0 <? count ActionSTPTopologyChange)) &&
  (dtSTPChanges t <=? count ActionSTPTopologyChange).

(** The loop over the consumed actions: [seen] and [counts], or a refusal. *)
Fixpoint consumedLoop (l : list ConsumedDeviceAction) (seen : gmap string DeviceActionType)
    (counts : gmap string Z) : option (gmap string DeviceActionType * gmap string Z) :=
  match l with
  | [] => Some (seen, counts)
  | action :: l =>
      if negb (bool_decide (default ""%string (seen !! caID action) = ""%string)) ||
         bool_decide (caID action = ""%string) ||
         (maxDeviceActionIDLength <? Z.of_nat (String.length (caID action))) ||
         negb (validDeviceAction (caType action))
      then None
      else consumedLoop l (<[caID action := caType action]> seen)
             (<[caType action := uint32 (default 0 (counts !! caType action) + 1)]> counts)
  end.

Definition validActionState (state : State) : bool :=
  if negb (validDeviceTelemetry (stTelemetry state)) ||
     (maxConsumedDeviceActions <? Z.of_nat (length (stConsumedActions state)))
  then false
  else match consumedLoop (stConsumedActions state) ∅ ∅ with
  | None => false
  | Some (seen, counts) =>
      telemetryHasConsumedActions (stTelemetry state) counts &&
      forallb (fun point => telemetryHasConsumedActions (xcTelemetry point) counts)
        (stCheckpoints state) &&
      forallb (fun event =>
        let was kind := bool_decide (default ""%string (seen !! evTarget event) = kind) in
        negb (bool_decide (evKind event = EventDeviceRebooted) && negb (was ActionReboot) ||
              bool_decide (evKind event = EventSTPTopologyChanged) &&
              negb (was ActionSTPTopologyChange))) (stEvents state)
  end.

Fixpoint historyLoop (previous limit : Z) (l : list Event) : bool :=
  match l with
  | [] => true
  | event :: l =>
      if (evVersion event =? 0) || (evVersion event <? previous) || (limit <? evVersion event)
      then false else historyLoop (evVersion event) limit l
  end.

Definition validStateHistory (state : State) : bool :=
  if (stVersion state =? 0) || (stVersion state =? MaxUint64) ||
     (maxEventHistory <? Z.of_nat (length (stEvents state)))
  then false else historyLoop 0 (stVersion state) (stEvents state).

(** Same length, same names at the same places, no name twice. *)
Fixpoint interfacesLoop (seen : gset string) (l authored : list Interface) : bool :=
  match l, authored with
  | iface :: l, a :: authored =>
      if bool_decide (ifName iface ∈ seen) || negb (bool_decide (ifName iface = ifName a))
      then false else interfacesLoop ({[ ifName iface ]} ∪ seen) l authored
  | _, _ => true
  end.

Definition validStateInterfaces (l authored : list Interface) : bool :=
  if negb (bool_decide (length l = length authored)) then false
  else interfacesLoop ∅ l authored.

Definition validStateInterfaceFaults (l : list InterfaceFault) (interfaces : list Interface)
    : bool :=
  unseen faultKey (fun f => validFaultType (ftType f) && negb (ftValue f <=? 0) &&
    negb (faultRateMax <? ftValue f) && interfaceExists interfaces (ftInterface f)) ∅ l.

Definition validStateAddressFaults (l : list InterfaceAddressFault) (interfaces : list Interface)
    : bool :=
  unseen addressFaultKey (fun f => bool_decide (afType f = FaultDuplicateIP) &&
    ValidFaultAddress (afAddress f) && interfaceExists interfaces (afInterface f)) ∅ l.

Definition validStatePrefixFaults (l : list InterfacePrefixFault) (interfaces : list Interface)
    : bool :=
  unseen prefixFaultKey (fun f => bool_decide (pfType f = FaultBadMask) &&
    negb (pfPrefixBits f <? 0) && negb (32 <? pfPrefixBits f) &&
    interfaceExists interfaces (pfInterface f)) ∅ l.

Definition validStateDeviceFaults (l : list DeviceFault) : bool :=
  unseen dfType validDeviceFault ∅ l.

Definition validStateStations (l : list Station) (interfaces : list Interface) : bool :=
  unseen snMAC (fun st =>
    match canonicalStation st with
    | inl canonical => bool_decide (snMAC canonical = snMAC st) &&
                       interfaceExists interfaces (snRadio st)
    | inr _ => false
    end) ∅ l.

Fixpoint radioLoop (previous : option string) (l : list RadioTxPower)
    (interfaces : list Interface) : bool :=
  match l with
  | [] => true
  | power :: l =>
      if (rpDBM power <? MinRadioTxPowerDBM) || (MaxRadioTxPowerDBM <? rpDBM power) ||
         negb (interfaceExists interfaces (rpInterface power)) ||
         match previous with
         | Some p => bool_decide (kle (rpInterface power) p)
         | None => false
         end
      then false else radioLoop (Some (rpInterface power)) l interfaces
  end.

Definition validStateRadioTxPowers (l : list RadioTxPower) (interfaces : list Interface) : bool :=
  radioLoop None l interfaces.

Definition validStateCheckpoint (point : Checkpoint) (authored : list Interface) : bool :=
  validDeviceTelemetry (xcTelemetry point) &&
  validStateInterfaces (nwInterfaces (cfNetwork (xcConfiguration point))) authored &&
  validStateInterfaceFaults (xcInterfaceFaults point) authored &&
  validStateAddressFaults (xcAddressFaults point) authored &&
  validStatePrefixFaults (xcPrefixFaults point) authored &&
  validStateDeviceFaults (xcDeviceFaults point) &&
  validStateStations (xcStations point) authored &&
  validStateRadioTxPowers (xcRadioTxPowers point) authored.

Definition validateState (state : State) (authored : list Interface) : option Err :=
  if negb (validStateHistory state) || negb (validActionState state) ||
     negb (validStateInterfaces (nwInterfaces (cfNetwork (stStartup state))) authored)
  then Some ErrStateInvalid
  else
    let current := mkExportedCheckpoint (stTelemetry state) "" (stRunning state)
      (stInterfaceFaults state) (stAddressFaults state) (stPrefixFaults state)
      (stDeviceFaults state) (stStations state) (stRadioTxPowers state) in
    if negb (validStateCheckpoint current authored) then Some ErrStateInvalid
    else if negb (unseen xcName (fun point => validStateCheckpoint point authored) ∅
                    (stCheckpoints state))
    then Some ErrStateInvalid
    else None.

Definition ValidateState (state : State) (s : Store) : option Err :=
  validateState state (nwInterfaces (cfNetwork (authored s))).

(** ** Restore *)

Definition importConfiguration (source : configuration) : configuration :=
  mkConfiguration (cfIdentity source) (cloneNetwork (cfNetwork source)).

Definition importConsumedActions (l : list ConsumedDeviceAction) : gmap string DeviceActionType :=
  importPairs caID caType l.

Definition importInterfaceFaults := importBy faultKey.
Definition importAddressFaults := importBy addressFaultKey.
Definition importPrefixFaults := importBy prefixFaultKey.
Definition importDeviceFaults := importBy dfType.
Definition importStations := importBy snMAC.

Definition importRadioTxPowers (l : list RadioTxPower) : gmap string Z :=
  importPairs rpInterface rpDBM l.

Definition importCheckpoint (point : Checkpoint) : checkpoint :=
  mkCheckpoint (xcTelemetry point) (importConfiguration (xcConfiguration point))
    (importInterfaceFaults (xcInterfaceFaults point)) (importAddressFaults (xcAddressFaults point))
    (importPrefixFaults (xcPrefixFaults point)) (importDeviceFaults (xcDeviceFaults point))
    (importStations (xcStations point)) (importRadioTxPowers (xcRadioTxPowers point)).

Definition importCheckpoints (saved : list Checkpoint) : gmap string checkpoint :=
  importPairs xcName importCheckpoint saved.

Definition RestoreState (state : State) (s : Store) : Store * option Err :=
  match validateState state (nwInterfaces (cfNetwork (authored s))) with
  | Some err => (s, Some err)
  | None =>
      let s := s <| running := importConfiguration (stRunning state) |>
                 <| startup := importConfiguration (stStartup state) |>
                 <| faults := importInterfaceFaults (stInterfaceFaults state) |>
                 <| addressFaults := importAddressFaults (stAddressFaults state) |>
                 <| prefixFaults := importPrefixFaults (stPrefixFaults state) |>
                 <| deviceFaults := importDeviceFaults (stDeviceFaults state) |>
                 <| stations := importStations (stStations state) |>
                 <| radioTxPower := importRadioTxPowers (stRadioTxPowers state) |>
                 <| telemetry := stTelemetry state |>
                 <| consumedActions := importConsumedActions (stConsumedActions state) |>
                 <| checkpoints := importCheckpoints (stCheckpoints state) |>
                 <| events := cloneEvents (stEvents state) |>
                 <| version := stVersion state |>
                 <| interfaceTransitions := ∅ |> in
      let s := updateInterfaceTransitions s in
      (match changeObserver s with
       | Some observer => emit (Observed observer (storeSnapshot s)) s
       | None => s
       end, None)
  end.
