(* ===== verification/DeviceFacts.v ===== *)
(** * Device state: shared facts

    Cloning is the identity, what recording an event leaves alone, and the
    pointwise reading of the carrier projection.  The theorems of the other
    device-state files are built from these. *)

From S2P Require Import Prelude.
From S2P Require Import Netip.
From S2P Require Import DeviceTypes.
From S2P Require Import DeviceStore.
From S2P Require Import DeviceOps.
From S2P Require Import DeviceDurable.

Create HintDb device.

(** ** Cloning *)

Lemma cloneInterface_id i : cloneInterface i = i.
Proof. by destruct i. Qed.

Lemma map_cloneInterface (l : list Interface) : cloneInterface <$> l = l.
Proof. induction l as [|i l IH]; [done|]. by rewrite fmap_cons, cloneInterface_id, IH. Qed.

Lemma cloneNetwork_id n : cloneNetwork n = n.
Proof.
  destruct n as [ifs rts vls rrs]. unfold cloneNetwork; simpl.
  rewrite map_cloneInterface. f_equal.
  induction rrs as [|[] rrs IH]; [done|by rewrite fmap_cons, IH].
Qed.

Lemma cloneConfiguration_id c : cloneConfiguration c = c.
Proof. destruct c. unfold cloneConfiguration. by rewrite cloneNetwork_id. Qed.

Lemma cloneEvents_id l : cloneEvents l = l.
Proof.
  induction l as [|[v k t i p x ts] l IH]; [done|]. unfold cloneEvents in *. rewrite fmap_cons, IH. f_equal. f_equal; [destruct i|destruct p]; simpl; by rewrite ?cloneInterface_id.
Qed.

Lemma exportConfiguration_id c : exportConfiguration c = c.
Proof. destruct c. unfold exportConfiguration. by rewrite cloneNetwork_id. Qed.

Lemma importConfiguration_id c : importConfiguration c = c.
Proof. destruct c. unfold importConfiguration. by rewrite cloneNetwork_id. Qed.

#[export] Hint Rewrite cloneInterface_id map_cloneInterface cloneNetwork_id cloneConfiguration_id
  cloneEvents_id exportConfiguration_id importConfiguration_id : clone.

(** ** What recording leaves alone *)

(** Everything but the clock, the transition table and the outgoing signals. *)
Lemma transitionLoop_ticks prev ifs at_ next s :
  exists tk it, transitionLoop prev ifs at_ next s = (it, s <| ticks := tk |>).
Proof.
  revert at_ next s. induction ifs as [|i ifs IH]; intros at_ next s; simpl.
  { exists (ticks s), next. by destruct s. }
  destruct (bool_decide _ && _).
  - destruct (IsZero at_); simpl.
    + destruct (IH (now s (ticks s)) (<[ifName i := mkTransition (ifOperUp i) (now s (ticks s))]> next)
                 (s <| ticks := S (ticks s) |>)) as (tk & it & E).
      simpl in E. rewrite E. by eexists _, _.
    + destruct (IH at_ (<[ifName i := mkTransition (ifOperUp i) at_]> next) s) as (tk & it & E).
      simpl in E. rewrite E. by eexists _, _.
  - apply IH.
Qed.

Lemma updateInterfaceTransitions_shape s :
  exists tk it, updateInterfaceTransitions s = s <| ticks := tk |> <| interfaceTransitions := it |>.
Proof.
  unfold updateInterfaceTransitions.
  destruct (transitionLoop_ticks (interfaceTransitions s)
    (applyCarrierFaults (nwInterfaces (cfNetwork (running s))) (faults s)) zeroTime ∅ s)
    as (tk & it & E). rewrite E. by exists tk, it.
Qed.

Lemma signalChange_shape s :
  exists tk it ef, signalChange s = s <| ticks := tk |> <| interfaceTransitions := it |>
    <| changes := true |> <| effects := ef |>.
Proof.
  unfold signalChange. destruct (updateInterfaceTransitions_shape s) as (tk & it & E).
  rewrite E. exists tk, it.
  destruct s as [? ? ? ? ? ? ? ? ? ? ? sg ob ? ? ? ? ? ? ? ?]; destruct ob, sg; simpl; by eexists.
Qed.

(** The event log is the last [maxEventHistory] events ever appended. *)
Definition lastN {A} (n : nat) (l : list A) : list A := drop (length l - n) l.

Definition historyLimit : nat := 1024.

Definition pushEvent (l : list Event) (e : Event) : list Event :=
  if Z.of_nat (length l) =? maxEventHistory then tail l ++ [e] else l ++ [e].

Lemma appendEvent_push e s : appendEvent e s = s <| events := pushEvent (events s) e |>.
Proof. unfold appendEvent, pushEvent. by destruct (_ =? _). Qed.

Lemma recordEvent_shape k tg s :
  exists t tk it ef, recordEvent k tg s =
    s <| events := pushEvent (events s) (mkEvent (version s) k tg None None 0 t) |>
      <| ticks := tk |> <| interfaceTransitions := it |> <| changes := true |> <| effects := ef |>
    /\ exists n, t = now s n.
Proof.
  unfold recordEvent, readNow. rewrite appendEvent_push.
  match goal with |- context [signalChange ?x] => destruct (signalChange_shape x) as (tk & it & ef & E) end.
  exists (now s (ticks s)), tk, it, ef. rewrite E. split; [done|by eexists].
Qed.

Lemma commit_shape k tg s :
  exists t tk it ef, commit k tg s =
    s <| version := uint64 (version s + 1) |>
      <| events := pushEvent (events s) (mkEvent (uint64 (version s + 1)) k tg None None 0 t) |>
      <| ticks := tk |> <| interfaceTransitions := it |> <| changes := true |> <| effects := ef |>
    /\ exists n, t = now s n.
Proof.
  unfold commit. destruct (recordEvent_shape k tg (bumpVersion s)) as (t & tk & it & ef & E & n & ->).
  exists (now s n), tk, it, ef. rewrite E. split; [done|by exists n].
Qed.

Lemma recordInterfaceEvent_shape i p c s :
  exists t tk it ef, recordInterfaceEvent i p c s =
    s <| events := pushEvent (events s)
           (mkEvent (version s) EventInterfaceUpdated (ifName c) (Some c) (Some p) i t) |>
      <| ticks := tk |> <| interfaceTransitions := it |> <| changes := true |> <| effects := ef |>.
Proof.
  unfold recordInterfaceEvent, readNow. rewrite appendEvent_push, !cloneInterface_id.
  match goal with |- context [signalChange ?x] => destruct (signalChange_shape x) as (tk & it & ef & E) end.
  rewrite E. by eexists _, tk, it, ef.
Qed.

(** ** The carrier projection, interface by interface *)

(** Some active carrier fault is armed on the interface. *)
Definition carrierCut (fs : gmap (string * string) InterfaceFault) (name : string) : Prop :=
  exists key f, fs !! key = Some f /\ key.1 = name /\
    (key.2 = FaultLinkDown \/ key.2 = FaultPoELoss) /\ 0 < ftValue f.

Definition cutInterface (i : Interface) : Interface :=
  i <| ifCarrierUp := false |> <| ifOperUp := false |>.

Lemma isCarrierFault_spec t : isCarrierFault t = true <-> t = FaultLinkDown \/ t = FaultPoELoss.
Proof.
  unfold isCarrierFault. repeat case_bool_decide; simpl; naive_solver.
Qed.

Lemma applyCarrierFault_lookup ifs kf n :
  applyCarrierFault ifs kf !! n =
  (fun i => if isCarrierFault kf.1.2 && (0 <? ftValue kf.2) && bool_decide (ifName i = kf.1.1)
            then cutInterface i else i) <$> ifs !! n.
Proof.
  destruct kf as [[name t] f]. unfold applyCarrierFault. simpl.
  destruct (isCarrierFault t); simpl.
  2: { by destruct (ifs !! n). }
  destruct (ftValue f <=? 0) eqn:E.
  - destruct (0 <? ftValue f) eqn:E2; [lia|]. simpl. by destruct (ifs !! n).
  - destruct (0 <? ftValue f) eqn:E2; [|lia]. simpl. by rewrite list_lookup_fmap.
Qed.

Definition cutBy (i : Interface) (kf : (string * string) * InterfaceFault) : bool :=
  isCarrierFault kf.1.2 && (0 <? ftValue kf.2) && bool_decide (ifName i = kf.1.1).

Lemma foldl_applyCarrierFault_lookup l ifs n :
  foldl applyCarrierFault ifs l !! n =
  (fun i => if existsb (cutBy i) l then cutInterface i else i) <$> ifs !! n.
Proof.
  revert ifs. induction l as [|kf l IH]; intros ifs; simpl; [by destruct (ifs !! n)|].
  rewrite IH, applyCarrierFault_lookup. destruct (ifs !! n) as [i|]; simpl; [|done]. f_equal.
  fold (cutBy i kf). destruct (cutBy i kf) eqn:E; simpl; [|done].
  by destruct (existsb _ l).
Qed.

Lemma carrierCut_existsb fs i :
  existsb (cutBy i) (map_to_list fs) = true <-> carrierCut fs (ifName i).
Proof.
  rewrite existsb_exists. unfold carrierCut, cutBy. split.
  - intros ([key f] & Hin & Hc). simpl in Hc.
    apply andb_true_iff in Hc as [Hc Hn]. apply andb_true_iff in Hc as [Hc Hv].
    apply isCarrierFault_spec in Hc. apply bool_decide_eq_true_1 in Hn.
    exists key, f. split_and!; [|done|done|lia].
    apply elem_of_map_to_list. by apply list_elem_of_In.
  - intros (key & f & Hf & Hn & Ht & Hv). exists (key, f). split.
    + apply list_elem_of_In. by apply elem_of_map_to_list.
    + simpl. apply isCarrierFault_spec in Ht. rewrite Ht, bool_decide_eq_true_2 by done. lia.
Qed.

#[export] Instance carrierCut_dec fs name : Decision (carrierCut fs name).
Proof.
  refine (cast_if (decide (existsb (cutBy (mkInterface name "" PrefixZero "" [] false false false))
    (map_to_list fs) = true))); rewrite carrierCut_existsb in *; done.
Defined.

(** The projection of a map of faults does not depend on the order in which
    the map is iterated: an interface is cut when a carrier fault names it. *)
Lemma applyCarrierFaults_lookup ifs fs n :
  applyCarrierFaults ifs fs !! n =
  (fun i => if decide (carrierCut fs (ifName i)) then cutInterface i else i) <$> ifs !! n.
Proof.
  unfold applyCarrierFaults. rewrite foldl_applyCarrierFault_lookup.
  destruct (ifs !! n) as [i|]; simpl; [|done]. f_equal.
  destruct (decide (carrierCut fs (ifName i))) as [H|H].
  - apply carrierCut_existsb in H. by rewrite H.
  - destruct (existsb (cutBy i) (map_to_list fs)) eqn:E; [|done].
    apply carrierCut_existsb in E. done.
Qed.

Lemma applyCarrierFaults_map ifs fs :
  applyCarrierFaults ifs fs =
  (fun i => if decide (carrierCut fs (ifName i)) then cutInterface i else i) <$> ifs.
Proof.
  apply list_eq. intros n. by rewrite applyCarrierFaults_lookup, list_lookup_fmap.
Qed.

Lemma applyCarrierFaults_length ifs fs : length (applyCarrierFaults ifs fs) = length ifs.
Proof. rewrite applyCarrierFaults_map. apply length_fmap. Qed.

Lemma applyCarrierFaults_names ifs fs : ifName <$> applyCarrierFaults ifs fs = ifName <$> ifs.
Proof.
  rewrite applyCarrierFaults_map, <- list_fmap_compose. apply list_fmap_ext.
  intros n i _. simpl. by case_decide.
Qed.

Lemma interfaceExists_spec ifs name : interfaceExists ifs name = true <-> name ∈ ifName <$> ifs.
Proof.
  unfold interfaceExists. rewrite existsb_exists, list_elem_of_fmap. split.
  - intros (i & Hi & E%bool_decide_eq_true_1). exists i. by rewrite list_elem_of_In.
  - intros (i & -> & Hi). exists i. rewrite <- list_elem_of_In. by rewrite bool_decide_eq_true_2.
Qed.

(** ** Carrier transitions and changed interfaces only record *)

(** [s'] differs from [s] only in what recording moves: the version, the log,
    the clock, the transition table and the outgoing signals. *)
Definition recordsFrom (s s' : Store) : Prop :=
  exists v ev tk it ch ef, s' = s <| version := v |> <| events := ev |> <| ticks := tk |>
    <| interfaceTransitions := it |> <| changes := ch |> <| effects := ef |>.

Lemma recordsFrom_refl s : recordsFrom s s.
Proof. exists (version s), (events s), (ticks s), (interfaceTransitions s), (changes s), (effects s). by destruct s. Qed.

Lemma recordsFrom_trans s1 s2 s3 : recordsFrom s1 s2 -> recordsFrom s2 s3 -> recordsFrom s1 s3.
Proof.
  intros (? & ? & ? & ? & ? & ? & ->) (v & ev & tk & it & ch & ef & ->).
  exists v, ev, tk, it, ch, ef. done.
Qed.

Lemma bump_recordsFrom s : recordsFrom s (bumpVersion s).
Proof.
  exists (uint64 (version s + 1)), (events s), (ticks s), (interfaceTransitions s), (changes s), (effects s).
  by destruct s.
Qed.

Lemma recordEvent_recordsFrom k tg s : recordsFrom s (recordEvent k tg s).
Proof.
  destruct (recordEvent_shape k tg s) as (t & tk & it & ef & E & _). rewrite E.
  eexists (version s), _, tk, it, true, ef. done.
Qed.

Lemma recordInterfaceEvent_recordsFrom i p c s : recordsFrom s (recordInterfaceEvent i p c s).
Proof.
  destruct (recordInterfaceEvent_shape i p c s) as (t & tk & it & ef & E). rewrite E.
  eexists (version s), _, tk, it, true, ef. done.
Qed.

Lemma commit_recordsFrom k tg s : recordsFrom s (commit k tg s).
Proof. eapply recordsFrom_trans; [apply bump_recordsFrom|apply recordEvent_recordsFrom]. Qed.

Lemma carrierLoop_recordsFrom i b a s : recordsFrom s (carrierLoop i b a s).
Proof.
  revert i a s. induction b as [|x b IH]; intros i [|y a] s; simpl; try apply recordsFrom_refl.
  eapply recordsFrom_trans; [|apply IH].
  destruct (negb _); [|apply recordsFrom_refl].
  eapply recordsFrom_trans; [apply bump_recordsFrom|apply recordInterfaceEvent_recordsFrom].
Qed.

Lemma recordCarrierTransitions_recordsFrom prev s : recordsFrom s (recordCarrierTransitions prev s).
Proof. apply carrierLoop_recordsFrom. Qed.

Lemma changedLoop_recordsFrom m i l s : recordsFrom s (changedLoop m i l s).
Proof.
  revert i s. induction l as [|x l IH]; intros i s; simpl; [apply recordsFrom_refl|].
  eapply recordsFrom_trans; [|apply IH].
  destruct (m !! ifName x) as [b|]; [|apply recordsFrom_refl].
  destruct (negb _); [apply recordInterfaceEvent_recordsFrom|apply recordsFrom_refl].
Qed.

Lemma recordChangedInterfaceEvents_recordsFrom l s :
  recordsFrom s (recordChangedInterfaceEvents l s).
Proof. apply changedLoop_recordsFrom. Qed.

#[export] Hint Resolve recordsFrom_refl recordEvent_recordsFrom recordInterfaceEvent_recordsFrom
  commit_recordsFrom recordCarrierTransitions_recordsFrom recordChangedInterfaceEvents_recordsFrom
  bump_recordsFrom : device.

(** The fields a recording cannot touch. *)
Record sameData (s s' : Store) : Prop := {
  sd_running : running s' = running s;
  sd_startup : startup s' = startup s;
  sd_authored : authored s' = authored s;
  sd_checkpoints : checkpoints s' = checkpoints s;
  sd_faults : faults s' = faults s;
  sd_addressFaults : addressFaults s' = addressFaults s;
  sd_prefixFaults : prefixFaults s' = prefixFaults s;
  sd_deviceFaults : deviceFaults s' = deviceFaults s;
  sd_telemetry : telemetry s' = telemetry s;
  sd_consumed : consumedActions s' = consumedActions s;
  sd_stations : stations s' = stations s;
  sd_radio : radioTxPower s' = radioTxPower s;
  sd_now : now s' = now s;
  sd_observer : changeObserver s' = changeObserver s;
  sd_signal : changeSignal s' = changeSignal s
}.

Lemma recordsFrom_sameData s s' : recordsFrom s s' -> sameData s s'.
Proof. intros (v & ev & tk & it & ch & ef & ->). by split. Qed.

Lemma commit_same k tg s : sameData s (commit k tg s).
Proof. apply recordsFrom_sameData. auto with device. Qed.

Lemma carrier_same prev s : sameData s (recordCarrierTransitions prev s).
Proof. apply recordsFrom_sameData. auto with device. Qed.

Lemma interfaceEvent_same i p c s : sameData s (recordInterfaceEvent i p c s).
Proof. apply recordsFrom_sameData. auto with device. Qed.

Lemma changed_same l s : sameData s (recordChangedInterfaceEvents l s).
Proof. apply recordsFrom_sameData. auto with device. Qed.

Lemma signal_same s : sameData s (signalChange s).
Proof. destruct (signalChange_shape s) as (tk & it & ef & ->). by split. Qed.

Lemma append_same e s : sameData s (appendEvent e s).
Proof. rewrite appendEvent_push. by split. Qed.

(** Read one field through any stack of recordings. *)
Ltac through_records lem :=
  repeat first
    [ rewrite (lem _ _ (commit_same _ _ _)) | rewrite (lem _ _ (carrier_same _ _))
    | rewrite (lem _ _ (interfaceEvent_same _ _ _ _)) | rewrite (lem _ _ (changed_same _ _))
    | rewrite (lem _ _ (signal_same _)) | rewrite (lem _ _ (append_same _ _)) | progress simpl ].
