(* ===== verification/DeviceStep.v ===== *)
(** * Device state: operations as steps, and the event log

    [Op] names every mutating method of the store and [exec] runs one; a
    history of the device is a sequence of them.  The theorems of this file
    are about the version counter and the event log: what a consumer that
    polls [EventsAfter] is told, and what an [Update...] transaction can lose. *)

From S2P Require Import Prelude.
From S2P Require Import Netip.
From S2P Require Import DeviceTypes.
From S2P Require Import DeviceStore.
From S2P Require Import DeviceOps.
From S2P Require Import DeviceDurable.
From S2P Require Import DeviceFacts.

Inductive Op :=
| OpSetInterfaceFault (name : string) (t : FaultType) (value : Z)
| OpClearInterfaceFaults (name : string)
| OpClearAllFaults
| OpSetInterfaceAddressFault (f : InterfaceAddressFault)
| OpClearInterfaceAddressFault (name : string) (kind : string)
| OpSetInterfacePrefixFault (f : InterfacePrefixFault)
| OpClearInterfacePrefixFault (name : string) (kind : string)
| OpSetDeviceFault (t : DeviceFaultType) (value : Z)
| OpClearDeviceFault (t : DeviceFaultType)
| OpSetDeviceAddressFault (t : DeviceFaultType) (a : Addr)
| OpClearDeviceFaults
| OpUpdateIdentity (update : Update Identity)
| OpUpdateInterface (name : string) (update : Update Interface)
| OpEnsureVLAN (id : Z)
| OpUpdateVLAN (id : Z) (update : VLAN -> VLAN)
| OpEnsureRouter (protocol processID : string)
| OpAddRouterNetwork (protocol processID : string) (statement : RouterNetwork)
| OpUpsertRoute (route : Route)
| OpSaveStartup
| OpReloadStartup
| OpResetAuthored
| OpEraseStartup
| OpReplaceNetwork (network : Network)
| OpSaveCheckpoint (name : string)
| OpRestoreCheckpoint (name : string)
| OpExecuteDeviceAction (kind : DeviceActionType) (id : string)
| OpSetRadioTxPower (name : string) (dBm : Z)
| OpRestoreRadioTxPower (name : string)
| OpInstallStations (l : list Station)
| OpAssociateStation (station : Station)
| OpRoamStation (mac : string)
| OpRestoreState (state : State)
| OpSetChangeObserver (observer : option Z)
| OpSetChangeSignal (signal : option Z)
| OpReceiveChange.

Definition exec (op : Op) (s : Store) : Store * option Err :=
  match op with
  | OpSetInterfaceFault n t v => SetInterfaceFault n t v s
  | OpClearInterfaceFaults n => ClearInterfaceFaults n s
  | OpClearAllFaults => (ClearAllFaults s, None)
  | OpSetInterfaceAddressFault f => SetInterfaceAddressFault f s
  | OpClearInterfaceAddressFault n k => ClearInterfaceAddressFault n k s
  | OpSetInterfacePrefixFault f => SetInterfacePrefixFault f s
  | OpClearInterfacePrefixFault n k => ClearInterfacePrefixFault n k s
  | OpSetDeviceFault t v => SetDeviceFault t v s
  | OpClearDeviceFault t => ClearDeviceFault t s
  | OpSetDeviceAddressFault t a => SetDeviceAddressFault t a s
  | OpClearDeviceFaults => (ClearDeviceFaults s, None)
  | OpUpdateIdentity u => UpdateIdentity u s
  | OpUpdateInterface n u => UpdateInterface n u s
  | OpEnsureVLAN id => (EnsureVLAN id s, None)
  | OpUpdateVLAN id u => UpdateVLAN id u s
  | OpEnsureRouter p i => (EnsureRouter p i s, None)
  | OpAddRouterNetwork p i n => (AddRouterNetwork p i n s, None)
  | OpUpsertRoute r => (UpsertRoute r s, None)
  | OpSaveStartup => (SaveStartup s, None)
  | OpReloadStartup => (ReloadStartup s, None)
  | OpResetAuthored => (ResetAuthored s, None)
  | OpEraseStartup => (EraseStartup s, None)
  | OpReplaceNetwork n => (ReplaceNetwork n s, None)
  | OpSaveCheckpoint n => (SaveCheckpoint n s, None)
  | OpRestoreCheckpoint n => RestoreCheckpoint n s
  | OpExecuteDeviceAction k id => let '(s, _, err) := ExecuteDeviceAction k id s in (s, err)
  | OpSetRadioTxPower n d => SetRadioTxPower n d s
  | OpRestoreRadioTxPower n => (RestoreRadioTxPower n s, None)
  | OpInstallStations l => InstallStations l s
  | OpAssociateStation st => AssociateStation st s
  | OpRoamStation m => let '(s, r) := RoamStation m s in
                       (s, match r with inl _ => None | inr err => Some err end)
  | OpRestoreState st => RestoreState st s
  | OpSetChangeObserver o => (SetChangeObserver o s, None)
  | OpSetChangeSignal c => (SetChangeSignal c s, None)
  | OpReceiveChange => ((receiveChange s).2, None)
  end.

Definition run (ops : list Op) (s : Store) : Store := foldl (fun s op => (exec op s).1) s ops.

(** Loading a durable record replaces the log itself. *)
Definition isRestore (op : Op) : bool := match op with OpRestoreState _ => true | _ => false end.

(** Operations that replace the whole running configuration. *)
Definition isBankSwap (op : Op) : bool :=
  match op with OpReloadStartup | OpResetAuthored | OpRestoreCheckpoint _ => true | _ => false end.

(** ** The five ways a method ends *)

Definition sameBanks (s t : Store) : Prop :=
  running t = running s /\ version t = version s /\ events t = events s.

Inductive outcome (s : Store) : bool -> Store -> Prop :=
| out_quiet t : sameBanks s t -> outcome s false t
| out_commit t k tg : version t = version s -> events t = events s -> outcome s false (commit k tg t)
| out_carrier t prev k tg : running t = running s -> version t = version s -> events t = events s ->
    outcome s false (recordCarrierTransitions prev (commit k tg t))
| out_interface t i p c : version t = version s -> events t = events s ->
    outcome s false (recordInterfaceEvent i p c (bumpVersion t))
| out_action t k tg time : version t = version s -> events t = events s ->
    outcome s false (signalChange (appendEvent (mkEvent (uint64 (version s + 1)) k tg None None 0 time)
      (bumpVersion t)))
| out_swap t next k tg f : version t = version s -> events t = events s ->
    (forall u, version (f u) = version u /\ events (f u) = events u) ->
    outcome s true (f (replaceRunning next k tg t)).
#[export] Hint Constructors outcome : device.

Lemma quiet_refl s : outcome s false s.
Proof. by apply out_quiet. Qed.
#[export] Hint Resolve quiet_refl : device.

(** Case analysis of a method's guards, one goal per way out. *)
Ltac split_guards := repeat (case_match; simplify_eq/=).

Ltac solve_outcome :=
  first [ apply quiet_refl | apply out_commit; reflexivity | apply out_carrier; reflexivity
        | apply out_interface; reflexivity | apply out_quiet; split_and!; reflexivity ].

Lemma exec_outcome op s : isRestore op = false -> outcome s (isBankSwap op) (exec op s).1 \/
  outcome s false (exec op s).1.
Proof.
  intros Hop. destruct op; simpl in Hop; try discriminate Hop.
  all: try (right; unfold exec, SetInterfaceFault, ClearInterfaceFaults, ClearAllFaults,
    SetInterfaceAddressFault, ClearInterfaceAddressFault, SetInterfacePrefixFault,
    ClearInterfacePrefixFault, SetDeviceFault, ClearDeviceFault, SetDeviceAddressFault,
    setDeviceFault, ClearDeviceFaults, UpdateIdentity, commitIdentity, UpdateInterface,
    readInterface, commitInterface, EnsureVLAN, UpdateVLAN, readVLAN, commitVLAN, EnsureRouter,
    AddRouterNetwork, UpsertRoute, SaveStartup, EraseStartup, ReplaceNetwork, SaveCheckpoint,
    SetRadioTxPower, RestoreRadioTxPower, InstallStations,
    AssociateStation, RoamStation, SetChangeObserver, SetChangeSignal, receiveChange;
    split_guards; solve_outcome).
  - left. by apply (out_swap _ s _ _ _ id).
  - left. apply (out_swap _ s _ _ _ (fun s => s <| startup := cloneConfiguration (authored s) |>)); auto.
  - simpl. unfold RestoreCheckpoint. case_match; [left|right; solve_outcome].
    by apply (out_swap _ _ _ _ _ id).
  - right. simpl. unfold ExecuteDeviceAction, readNow.
    split_guards; try solve_outcome.
    all: apply (out_action _ (mkStore (running s) (startup s) (authored s) (version s) (events s)
      (checkpoints s) (faults s) (addressFaults s) (prefixFaults s) (deviceFaults s) (changes s)
      (changeSignal s) (changeObserver s) (now s) (S (ticks s)) (interfaceTransitions s) _ _
      (stations s) (radioTxPower s) (effects s))); done.
Qed.

(** ** The log keeps the newest events *)

Lemma historyLimit_Z : Z.of_nat historyLimit = maxEventHistory.
Proof. reflexivity. Qed.

Lemma lastN_all {A} n (l : list A) : (length l <= n)%nat -> lastN n l = l.
Proof. intros H. unfold lastN. by replace (length l - n)%nat with 0%nat by lia. Qed.

Lemma lastN_length {A} n (l : list A) : (length (lastN n l) <= n)%nat.
Proof. unfold lastN. rewrite length_drop. lia. Qed.

Lemma lastN_lastN {A} n (l1 l2 : list A) : lastN n (lastN n l1 ++ l2) = lastN n (l1 ++ l2).
Proof.
  unfold lastN. rewrite !length_app, length_drop.
  destruct (decide (length l1 <= n)%nat) as [H|H].
  { replace (length l1 - n)%nat with 0%nat by lia. simpl. f_equal. lia. }
  destruct (decide (length l2 <= n)%nat) as [H2|H2].
  - rewrite (drop_app_le l1) by lia. rewrite drop_app_le by (rewrite length_drop; lia).
    rewrite drop_drop. f_equal. f_equal. lia.
  - rewrite (drop_app_ge l1) by lia. rewrite drop_app_ge by (rewrite length_drop; lia).
    rewrite length_drop. f_equal. lia.
Qed.

Lemma lastN_app_le {A} n (l1 l2 : list A) :
  (length l2 <= n)%nat -> lastN n (l1 ++ l2) = drop (length l1 + length l2 - n) l1 ++ l2.
Proof. intros H. unfold lastN. rewrite length_app. apply drop_app_le. lia. Qed.

Lemma pushEvent_lastN l e :
  (length l <= historyLimit)%nat -> pushEvent l e = lastN historyLimit (l ++ [e]).
Proof.
  intros H. unfold pushEvent, lastN. rewrite length_app. simpl length.
  destruct (Z.eqb_spec (Z.of_nat (length l)) maxEventHistory) as [E|E].
  - rewrite <- historyLimit_Z in E. replace (length l + 1 - historyLimit)%nat with 1%nat by lia.
    destruct l; [unfold historyLimit in *; simpl in *; lia|]. done.
  - rewrite <- historyLimit_Z in E. by replace (length l + 1 - historyLimit)%nat with 0%nat by lia.
Qed.

(** ** Version numbers of a batch of events

    Going from version [v] to [w]: each event either takes the next version or
    shares the version of the one before it. *)
Inductive versions : Z -> list Event -> Z -> Prop :=
| vs_nil v : versions v [] v
| vs_next v e l w : evVersion e = v + 1 -> versions (v + 1) l w -> versions v (e :: l) w
| vs_same v e l w : evVersion e = v -> versions v l w -> versions v (e :: l) w.

Lemma versions_app v l1 w l2 x : versions v l1 w -> versions w l2 x -> versions v (l1 ++ l2) x.
Proof. induction 1; simpl; auto; intros; [apply vs_next|apply vs_same]; auto. Qed.

Lemma versions_le v l w : versions v l w -> v <= w.
Proof. induction 1; lia. Qed.

Lemma versions_range v l w e : versions v l w -> e ∈ l -> v <= evVersion e <= w.
Proof.
  induction 1 as [|v e' l w He Hl IH|v e' l w He Hl IH]; intros Hin.
  - by apply not_elem_of_nil in Hin.
  - pose proof (versions_le _ _ _ Hl). apply elem_of_cons in Hin as [->|Hin]; [lia|].
    apply IH in Hin. lia.
  - pose proof (versions_le _ _ _ Hl). apply elem_of_cons in Hin as [->|Hin]; [lia|].
    by apply IH in Hin.
Qed.

Lemma versions_suffix a l v l' x : versions a l v -> versions a (l ++ l') x -> versions v l' x.
Proof. induction 1; simpl; intros Hl; [done|..]; inversion Hl; subst; auto; lia. Qed.

(** The batch opens with a new version. *)
Definition opens (v : Z) (l : list Event) : Prop :=
  match l with [] => True | e :: _ => evVersion e = v + 1 end.

Lemma opens_newer v l w :
  versions v l w -> opens v l -> Forall (fun e => v < evVersion e) l /\ (l <> [] -> v < w).
Proof.
  intros V Ho. destruct l as [|e l]; [done|]. simpl in Ho.
  inversion V; subst; [|lia].
  split; [|intros _; match goal with H : versions (v + 1) _ _ |- _ => apply versions_le in H; lia end].
  constructor; [lia|]. apply Forall_forall. intros x Hx.
  match goal with H : versions (v + 1) _ _ |- _ => eapply versions_range in H; [|exact Hx]; lia end.
Qed.

(** Every event of the batch has a version of its own. *)
Definition consecutive (v : Z) (l : list Event) : Prop :=
  forall i e, l !! i = Some e -> evVersion e = v + 1 + Z.of_nat i.

Lemma consecutive_nil v : consecutive v [].
Proof. intros i e. by rewrite lookup_nil. Qed.

Lemma consecutive_cons v e l :
  evVersion e = v + 1 -> consecutive (v + 1) l -> consecutive v (e :: l).
Proof.
  intros He Hl [|i] e'; simpl; [intros [= <-]; lia|]. intros Hi. rewrite (Hl _ _ Hi). lia.
Qed.

Lemma consecutive_app v l1 l2 :
  consecutive v l1 -> consecutive (v + Z.of_nat (length l1)) l2 -> consecutive v (l1 ++ l2).
Proof.
  intros H1 H2 i e. destruct (decide (i < length l1)%nat).
  - rewrite lookup_app_l by done. apply H1.
  - rewrite lookup_app_r by lia. intros He. rewrite (H2 _ _ He). lia.
Qed.

(** [s'] is [s] after the batch [l] was recorded. *)
Record emits (s s' : Store) (l : list Event) : Prop := {
  em_events : events s' = lastN historyLimit (events s ++ l);
  em_versions : versions (version s) l (version s')
}.

Lemma emits_nil s t : version t = version s -> events t = events s ->
  (length (events s) <= historyLimit)%nat -> emits s t [].
Proof.
  intros Hv He Hl. split.
  - rewrite app_nil_r, lastN_all by done. done.
  - rewrite Hv. constructor.
Qed.

Lemma emits_app s1 s2 s3 l1 l2 : emits s1 s2 l1 -> emits s2 s3 l2 -> emits s1 s3 (l1 ++ l2).
Proof.
  intros [E1 V1] [E2 V2]. split.
  - by rewrite E2, E1, lastN_lastN, app_assoc.
  - by eapply versions_app.
Qed.

Lemma emits_length s s' l : emits s s' l -> (length (events s') <= historyLimit)%nat.
Proof. intros [E _]. rewrite E. apply lastN_length. Qed.

Lemma emits_frame s t s' l :
  version t = version s -> events t = events s -> emits t s' l -> emits s s' l.
Proof. intros Hv He [E V]. split; congruence. Qed.

(** ** What each way out records *)

Definition wellFormedLog (s : Store) : Prop :=
  1 <= version s < 2 ^ 64 /\ (length (events s) <= historyLimit)%nat /\
  Forall (fun e => 1 <= evVersion e <= version s) (events s).

(** The counter is far enough from wrapping for one more operation. *)
Definition room (s : Store) : Prop :=
  version s + 1 + Z.of_nat (length (runningInterfaces s)) < MaxUint64.

Lemma emits_commit k tg s :
  0 <= version s < MaxUint64 -> (length (events s) <= historyLimit)%nat ->
  exists e, emits s (commit k tg s) [e] /\ evVersion e = version s + 1 /\
    version (commit k tg s) = version s + 1.
Proof.
  intros Hv Hl. destruct (commit_shape k tg s) as (t & tk & it & ef & E & _). rewrite E.
  rewrite uint64_id by (unfold MaxUint64 in *; lia).
  eexists. split; [split; simpl; [by apply pushEvent_lastN|apply vs_next; [done|constructor]]|done].
Qed.

Lemma emits_recordInterfaceEvent i p c s :
  (length (events s) <= historyLimit)%nat ->
  exists e, emits s (recordInterfaceEvent i p c s) [e] /\ evVersion e = version s /\
    version (recordInterfaceEvent i p c s) = version s.
Proof.
  intros Hl. destruct (recordInterfaceEvent_shape i p c s) as (t & tk & it & ef & E). rewrite E.
  eexists. split; [split; simpl; [by apply pushEvent_lastN|apply vs_same; [done|constructor]]|done].
Qed.

Lemma emits_bump_interface i p c s :
  0 <= version s < MaxUint64 -> (length (events s) <= historyLimit)%nat ->
  exists e, emits s (recordInterfaceEvent i p c (bumpVersion s)) [e] /\ evVersion e = version s + 1 /\
    version (recordInterfaceEvent i p c (bumpVersion s)) = version s + 1.
Proof.
  intros Hv Hl. destruct (recordInterfaceEvent_shape i p c (bumpVersion s)) as (t & tk & it & ef & E).
  rewrite E. simpl. rewrite uint64_id by (unfold MaxUint64 in *; lia).
  eexists. split; [split; simpl; [by apply pushEvent_lastN|apply vs_next; [done|constructor]]|done].
Qed.

Lemma emits_carrierLoop i b a s :
  0 <= version s -> version s + Z.of_nat (length b) < MaxUint64 ->
  (length (events s) <= historyLimit)%nat ->
  exists l, emits s (carrierLoop i b a s) l /\ consecutive (version s) l /\
    version (carrierLoop i b a s) = version s + Z.of_nat (length l).
Proof.
  revert i a s. induction b as [|x b IH]; intros i a s Hv Hr Hl.
  { exists []. split; [by apply emits_nil|]. split; [apply consecutive_nil|simpl; lia]. }
  destruct a as [|y a]; simpl in *.
  { exists []. split; [by apply emits_nil|]. split; [apply consecutive_nil|simpl; lia]. }
  destruct (negb _).
  - destruct (emits_bump_interface (i + 1) x y s) as (e & He & Hve & Hvs); [lia|done|].
    destruct (IH (i + 1) a (recordInterfaceEvent (i + 1) x y (bumpVersion s))) as (l & H1 & H2 & H3);
      [lia|lia|by eapply emits_length|].
    exists (e :: l). split; [by eapply (emits_app _ _ _ [e])|]. split.
    + apply consecutive_cons; [done|by rewrite <- Hvs].
    + simpl length. lia.
  - destruct (IH (i + 1) a s) as (l & H1 & H2 & H3); [lia|lia|done|]. by exists l.
Qed.

Lemma emits_changedLoop m i l s :
  (length (events s) <= historyLimit)%nat ->
  exists es, emits s (changedLoop m i l s) es /\ version (changedLoop m i l s) = version s.
Proof.
  revert i s. induction l as [|x l IH]; intros i s Hl; simpl.
  { exists []. split; [by apply emits_nil|done]. }
  destruct (m !! ifName x) as [b|]; [destruct (negb _)|]; [|by apply IH|by apply IH].
  destruct (emits_recordInterfaceEvent (i + 1) b x s) as (e & He & _ & Hvs); [done|].
  destruct (IH (i + 1) (recordInterfaceEvent (i + 1) b x s)) as (es & H1 & H2);
    [by eapply emits_length|].
  exists (e :: es). split; [by eapply (emits_app _ _ _ [e])|]. congruence.
Qed.

(** One way out records a batch that opens with a new version; when it is not
    a bank swap every event has a version of its own. *)
Lemma outcome_emits s swap s' :
  outcome s swap s' -> 0 <= version s -> room s -> (length (events s) <= historyLimit)%nat ->
  exists l, emits s s' l /\ opens (version s) l /\
    (l = [] -> sameBanks s s') /\
    (swap = false -> consecutive (version s) l /\ version s' = version s + Z.of_nat (length l)).
Proof.
  intros Ho Hv Hr Hl. unfold room in Hr.
  pose proof (consecutive_nil (version s)) as Hnil.
  assert (forall e, evVersion e = version s + 1 -> consecutive (version s) [e]) as Hone
    by (intros e He; apply consecutive_cons; [done|apply consecutive_nil]).
  destruct Ho as [t (Hb & Htv & Hte)|t k tg Htv Hte|t prev k tg Hrun Htv Hte|t i p c Htv Hte
                 |t k tg time Htv Hte|t next k tg f Htv Hte Hf].
  - exists []. split; [by apply emits_nil|]. split; [done|]. split; [done|]. intros _.
    split; [done|simpl; lia].
  - destruct (emits_commit k tg t) as (e & He & Hve & Hvs); [lia|by rewrite Hte|].
    exists [e]. split; [by eapply emits_frame|]. split; [simpl; lia|]. split; [done|]. intros _.
    split; [apply Hone; lia|simpl; lia].
  - destruct (emits_commit k tg t) as (e & He & Hve & Hvs); [lia|by rewrite Hte|].
    destruct (commit_recordsFrom k tg t) as (? & ? & ? & ? & ? & ? & Hrec).
    unfold recordCarrierTransitions.
    match goal with |- context [carrierLoop 0 ?b ?a _] =>
      destruct (emits_carrierLoop 0 b a (commit k tg t)) as (l & H1 & H2 & H3) end.
    + lia.
    + rewrite applyCarrierFaults_length, Hrec. unfold runningInterfaces in Hr. rewrite <- Hrun in Hr.
      simpl. rewrite Hrec in Hvs. simpl in Hvs. lia.
    + by eapply emits_length.
    + exists (e :: l). split; [eapply emits_frame; [done..|]; by eapply (emits_app _ _ _ [e])|].
      split; [simpl; lia|]. split; [done|]. intros _. split; [|simpl length; lia].
      apply consecutive_cons; [lia|]. rewrite <- Htv, <- Hvs. done.
  - destruct (emits_bump_interface i p c t) as (e & He & Hve & Hvs); [lia|by rewrite Hte|].
    exists [e]. split; [by eapply emits_frame|]. split; [simpl; lia|]. split; [done|]. intros _.
    split; [apply Hone; lia|simpl; lia].
  - assert (uint64 (version s + 1) = version s + 1) as Hu by (apply uint64_id; unfold MaxUint64 in *; lia).
    exists [mkEvent (uint64 (version s + 1)) k tg None None 0 time]. rewrite appendEvent_push.
    match goal with |- context [signalChange ?x] => destruct (signalChange_shape x) as (tk & it & ef & E) end.
    rewrite E. simpl. rewrite Htv, Hu. split; [split; simpl|].
    + by rewrite Hte, pushEvent_lastN.
    + rewrite ?Htv, ?Hu. apply vs_next; [done|constructor].
    + split; [done|]. split; [done|]. intros _. split; [by apply Hone|]. rewrite ?Htv, ?Hu. lia.
  - set (u := t <| running := cloneConfiguration next |>).
    destruct (emits_commit k tg u) as (e & He & Hve & Hvs); [simpl; lia|simpl; by rewrite Hte|].
    unfold replaceRunning. fold u. unfold recordChangedInterfaceEvents.
    match goal with |- context [changedLoop ?m ?i ?l ?c] =>
      destruct (emits_changedLoop m i l c) as (es & H1 & H2); [by eapply emits_length|];
      destruct (Hf (changedLoop m i l c)) as [Hfv Hfe] end.
    exists (e :: es). split; [|split; [simpl in *; lia|done]].
    destruct (emits_app _ _ _ _ _ He H1) as [E V]. split.
    + rewrite Hfe, E. simpl. by rewrite Hte.
    + rewrite Hfv. simpl in V. by rewrite Htv in V.
Qed.

(** ** Histories *)

(** Along a history the counter never comes near its wrap-around. *)
Fixpoint roomy (ops : list Op) (s : Store) : Prop :=
  match ops with
  | [] => True
  | op :: ops => room s /\ roomy ops (exec op s).1
  end.

(** The unbounded log behind a store: all events since the store was made. *)
Record tracks (full : list Event) (s : Store) : Prop := {
  tr_events : events s = lastN historyLimit full;
  tr_versions : versions initialStoreVersion full (version s)
}.

Lemma tracks_length full s : tracks full s -> (length (events s) <= historyLimit)%nat.
Proof. intros [E _]. rewrite E. apply lastN_length. Qed.

Lemma tracks_version full s : tracks full s -> 1 <= version s.
Proof. intros [_ V]. by apply versions_le in V. Qed.

Lemma tracks_emits full s s' l : tracks full s -> emits s s' l -> tracks (full ++ l) s'.
Proof.
  intros [E V] [E' V']. split; [by rewrite E', E, lastN_lastN|by eapply versions_app].
Qed.

Lemma tracks_new identity clock : tracks [] (NewStore identity clock).
Proof. split; [done|constructor]. Qed.

Lemma exec_tracks op full s :
  isRestore op = false -> room s -> tracks full s ->
  exists l, tracks (full ++ l) (exec op s).1 /\ opens (version s) l /\
    (l = [] -> sameBanks s (exec op s).1) /\
    (isBankSwap op = false ->
       consecutive (version s) l /\ version (exec op s).1 = version s + Z.of_nat (length l)).
Proof.
  intros Hop Hr Ht. pose proof (tracks_length _ _ Ht). pose proof (tracks_version _ _ Ht).
  destruct (exec_outcome op s Hop) as [Ho|Ho];
    (eapply outcome_emits in Ho as (l & He & Hopens & Hb & Hs); [|lia|done|done]);
    exists l; (split; [by eapply tracks_emits|]); split_and!; auto.
Qed.

Lemma run_tracks ops full s :
  forallb (fun op => negb (isRestore op)) ops = true -> roomy ops s -> tracks full s ->
  exists l, tracks (full ++ l) (run ops s) /\ Forall (fun e => version s < evVersion e) l /\
    (version (run ops s) = version s -> sameBanks s (run ops s)) /\
    (forallb (fun op => negb (isBankSwap op)) ops = true ->
       consecutive (version s) l /\ version (run ops s) = version s + Z.of_nat (length l)).
Proof.
  revert full s. induction ops as [|op ops IH]; intros full s Hops Hr Ht; simpl in *.
  { exists []. rewrite app_nil_r. split; [done|]. split; [constructor|]. split; [done|]. intros _.
    split; [apply consecutive_nil|simpl; lia]. }
  apply andb_true_iff in Hops as [Hop Hops]. destruct Hr as [Hr Hrs].
  destruct (exec_tracks op full s) as (l1 & Ht1 & Hop1 & Hb1 & Hc1); [by destruct (isRestore op)|done..|].
  destruct (IH _ _ Hops Hrs Ht1) as (l2 & Ht2 & Hn2 & Hb2 & Hc2).
  pose proof (opens_newer _ _ _ (versions_suffix _ _ _ _ _ (tr_versions _ _ Ht) (tr_versions _ _ Ht1)) Hop1)
    as [Hn1 Hlt].
  pose proof (versions_le _ _ _ (versions_suffix _ _ _ _ _ (tr_versions _ _ Ht) (tr_versions _ _ Ht1))) as H1.
  pose proof (versions_le _ _ _ (versions_suffix _ _ _ _ _ (tr_versions _ _ Ht1) (tr_versions _ _ Ht2))) as H2.
  exists (l1 ++ l2). rewrite app_assoc. split; [done|]. split; [|split].
  - apply Forall_app. split; [done|]. eapply Forall_impl; [exact Hn2|]. simpl. lia.
  - intros Hv.
    destruct (decide (l1 = [])) as [->|Hne]; [|exfalso; apply Hlt in Hne; lia].
    destruct (Hb1 eq_refl) as (R1 & V1 & E1).
    destruct Hb2 as (R2 & V2 & E2); [lia|]. repeat split; congruence.
  - intros Hsw. apply andb_true_iff in Hsw as [Hsw Hsws].
    destruct Hc1 as [C1 V1]; [by destruct (isBankSwap op)|]. destruct (Hc2 Hsws) as [C2 V2].
    rewrite length_app. split; [|lia]. apply consecutive_app; [done|by rewrite <- V1].
Qed.

(** ** Polling the log *)

Lemma newerSuffix_filter v w u l :
  versions w l u -> newerSuffix v l = filter (fun e => v < evVersion e) l.
Proof.
  induction 1 as [w|w e l u He Hl IH|w e l u He Hl IH]; simpl; [done|..].
  all: rewrite filter_cons; destruct (v <? evVersion e) eqn:E;
    [rewrite decide_True by lia|rewrite decide_False by lia; done].
  all: f_equal; symmetry; apply filter_id, Forall_forall; intros x Hx.
  all: eapply versions_range in Hx; [|exact Hl]; lia.
Qed.

(** The part of an unbounded log that the bounded one has forgotten. *)
Definition evicted (full : list Event) : list Event := take (length full - historyLimit) full.

Lemma tracks_split full s : tracks full s -> full = evicted full ++ events s.
Proof. intros [E _]. rewrite E. symmetry. apply take_drop. Qed.

Lemma versions_app_inv a l l' x :
  versions a (l ++ l') x -> exists v, versions a l v /\ versions v l' x.
Proof.
  revert a. induction l as [|e l IH]; intros a; simpl.
  { intros H. exists a. split; [constructor|done]. }
  inversion 1; subst; (match goal with H : versions _ (_ ++ _) _ |- _ => apply IH in H as (v & H1 & H2) end);
    exists v; (split; [|done]); [by apply vs_next|by apply vs_same].
Qed.

Lemma versions_head v e l w : versions v (e :: l) w -> evVersion e <= v + 1.
Proof. inversion 1; subst; lia. Qed.

Lemma versions_bound v l w u :
  versions v l w -> v <= u -> Forall (fun e => evVersion e <= u) l -> w <= u.
Proof. induction 1; intros Hle; [done|..]; intros [He Hl]%Forall_cons; apply IHversions; auto; lia. Qed.

(** What a poll returns when nothing newer than the cursor was forgotten. *)
Lemma EventsAfter_exact full s v :
  tracks full s -> initialStoreVersion <= v ->
  Forall (fun e => evVersion e <= v) (evicted full) ->
  EventsAfter v s = (filter (fun e => v < evVersion e) full, true).
Proof.
  intros Ht Hv Hev. pose proof (tracks_split _ _ Ht) as Hs. destruct Ht as [_ V].
  rewrite Hs in V. apply versions_app_inv in V as (u & V1 & V2).
  pose proof (versions_bound _ _ _ _ V1 Hv Hev) as Hu.
  rewrite Hs, filter_app, filter_none, app_nil_l.
  2: { eapply Forall_impl; [exact Hev|]. simpl. lia. }
  rewrite <- (newerSuffix_filter v u (version s)) by done.
  unfold EventsAfter. rewrite Z.max_l by done. destruct (events s) as [|e l]; [done|].
  pose proof (versions_head _ _ _ _ V2). rewrite !cloneEvents_id.
  assert ((v <? evVersion e) && (1 <? evVersion e - v) = false) as -> by lia. done.
Qed.

Lemma EventsAfter_gap full s v :
  tracks full s -> consecutive initialStoreVersion full -> initialStoreVersion <= v ->
  Exists (fun e => v < evVersion e) (evicted full) -> (EventsAfter v s).2 = false.
Proof.
  intros Ht Hc Hv (e & He & Hve)%Exists_exists. apply list_elem_of_lookup in He as [i Hi].
  pose proof (tracks_split _ _ Ht) as Hs. pose proof (lookup_lt_Some _ _ _ Hi) as Hlt.
  unfold evicted in Hlt. rewrite length_take in Hlt.
  assert (length (events s) = historyLimit) as Hlen.
  { destruct Ht as [E _]. rewrite E. unfold lastN. rewrite length_drop. lia. }
  unfold EventsAfter. rewrite Z.max_l by done.
  destruct (events s) as [|first l] eqn:El; [done|].
  assert (full !! (length full - historyLimit)%nat = Some first) as Hfirst.
  { rewrite Hs. rewrite lookup_app_r; unfold evicted; rewrite length_take, length_app, length_take;
      [|lia]. rewrite Hlen. by match goal with |- _ !! ?n = _ => replace n with 0%nat by lia end. }
  apply Hc in Hfirst. rewrite Hs in Hc.
  pose proof (Hc i e ltac:(by rewrite lookup_app_l by by eapply lookup_lt_Some)) as Hie.
  destruct (v <? evVersion first) eqn:E1; [|lia]. destruct (1 <? evVersion first - v) eqn:E2; [done|lia].
Qed.

Lemma consecutive_version v l w : versions v l w -> consecutive v l -> w = v + Z.of_nat (length l).
Proof.
  induction 1 as [v|v e l w He V IH|v e l w He V IH]; intros Hc; simpl length; [lia|..].
  - rewrite IH; [lia|]. intros i x Hx. rewrite (Hc (S i) x Hx). lia.
  - specialize (Hc 0%nat e eq_refl). lia.
Qed.
