(* ===== verification/DeviceLog.v ===== *)
(** * Device state: what a consumer of the store can rely on

    The event log is bounded and versioned, and updates are optimistic
    transactions.  These theorems say what a poller of [EventsAfter] sees and
    what an [Update...] call can lose, over arbitrary histories. *)

From S2P Require Import Prelude.
From S2P Require Import Netip.
From S2P Require Import DeviceTypes.
From S2P Require Import DeviceStore.
From S2P Require Import DeviceOps.
From S2P Require Import DeviceDurable.
From S2P Require Import DeviceFacts.
From S2P Require Import DeviceStep.

(** ** A small device for the witnesses *)

Definition testClock (n : nat) : Time := Z.of_nat n * 1000000000.

Definition testInterface (name : string) (host : Z) : Interface :=
  mkInterface name "lan" (PrefixFrom (AddrFrom4 10 0 0 host) 24) "" [10] true true true.

Definition testNetwork : Network :=
  mkNetwork [testInterface "eth0" 1; testInterface "eth1" 2] [] [] [].

Definition testStore : Store := ReplaceNetwork testNetwork (NewStore (mkIdentity "sw1") testClock).

Definition shutdown (name : string) : Op :=
  OpUpdateInterface name (fun i => inl (i <| ifAdminUp := false |> <| ifOperUp := false |>)).

Example shutdown_logged :
  (evKind <$> events (run [shutdown "eth0"; OpReloadStartup] testStore)) =
  [EventNetworkInstalled; EventInterfaceUpdated; EventStartupReloaded; EventInterfaceUpdated].
Proof. reflexivity. Qed.

(** ** Polling *)

Section polling.
Context (full : list Event) (s : Store) (ops : list Op).
Hypothesis Htracks : tracks full s.
Hypothesis Hops : forallb (fun op => negb (isRestore op)) ops = true.
Hypothesis Hroom : roomy ops s.


(** Unless a configuration bank was swapped, a poll is complete exactly
    when nothing newer than its cursor has been pushed out of the window:
    a consumer that fell behind is always told. *)
Theorem poll_reports_loss :
  consecutive initialStoreVersion full ->
  forallb (fun op => negb (isBankSwap op)) ops = true ->
  exists l, tracks (full ++ l) (run ops s) /\ forall v, initialStoreVersion <= v ->
    (EventsAfter v (run ops s)).2 = true <->
    Forall (fun e => evVersion e <= v) (evicted (full ++ l)).
Proof.
  intros Hc Hsw. destruct (run_tracks ops full s Hops Hroom Htracks) as (l & Ht & _ & _ & Hl).
  exists l. split; [done|]. intros v Hv. split.
  - intros Htrue. apply dec_stable. intros Hn.
    apply not_Forall_Exists in Hn; [|apply _].
    rewrite (EventsAfter_gap (full ++ l)) in Htrue; [done|done| |done|].
    + apply consecutive_app; [done|]. destruct (Hl Hsw) as [Hcl _].
      replace (initialStoreVersion + Z.of_nat (length full)) with (version s); [done|].
      pose proof (consecutive_version _ _ _ (tr_versions _ _ Htracks) Hc). lia.
    + eapply Exists_impl; [exact Hn|]. simpl. lia.
  - intros Hev. by rewrite (EventsAfter_exact (full ++ l)).
Qed.
End polling.


Lemma poll_reports_loss_witness :
  exists l, tracks ([] ++ l) (run [OpReplaceNetwork testNetwork; OpSaveStartup]
                                (NewStore (mkIdentity "sw1") testClock)) /\
    forall v, initialStoreVersion <= v ->
      (EventsAfter v (run [OpReplaceNetwork testNetwork; OpSaveStartup]
                        (NewStore (mkIdentity "sw1") testClock))).2 = true <->
      Forall (fun e => evVersion e <= v) (evicted ([] ++ l)).
Proof.
  apply (poll_reports_loss [] (NewStore (mkIdentity "sw1") testClock)).
  - split; [reflexivity|constructor].
  - reflexivity.
  - split; [reflexivity|split; [reflexivity|exact I]].
  - intros [|i] e H; discriminate H.
  - reflexivity.
Defined.

(** ** A poll that misses an event without being told *)

(** A reload that changes an interface records two events of one version.
    The consumer read everything up to the reload, and 1023 more events follow. *)
Definition beforeReload : Store := run [shutdown "eth0"] testStore.
Definition afterReload : Store := run (OpReloadStartup :: replicate 1023 OpSaveStartup) beforeReload.

(** After a bank swap the report of lost events fails: the store recorded a
    ["startup.reloaded"] event after the consumer's cursor and has dropped it,
    yet [EventsAfter] returns without it and claims to be complete, because
    the interface event that survives carries the same version. *)
Theorem swap_hides_loss :
  let '(l, complete) := EventsAfter (version beforeReload) afterReload in
  complete = true /\ EventStartupReloaded ∉ (evKind <$> l) /\
  EventStartupReloaded ∈ (evKind <$> events (run [OpReloadStartup] beforeReload)).
Proof.
  assert (let '(l, complete) := EventsAfter (version beforeReload) afterReload in
    complete && bool_decide (EventStartupReloaded ∉ (evKind <$> l)) &&
    bool_decide (EventStartupReloaded ∈ (evKind <$> events (run [OpReloadStartup] beforeReload)))
    = true) as H by (vm_compute; reflexivity).
  destruct (EventsAfter (version beforeReload) afterReload) as [l complete].
  apply andb_true_iff in H as [H H3]. apply andb_true_iff in H as [H1 H2].
  apply bool_decide_eq_true_1 in H2, H3. done.
Qed.

(** ** Transactions *)

(** [UpdateInterface] reads, runs its callback without the lock and
    commits later.  Whatever other operations ran in between (loading a
    durable record excepted), the commit either changes nothing and returns an
    error, or is the same as running the whole update atomically at the
    moment of the commit: no concurrent change is lost. *)
Theorem update_interface_atomic full s ops name read update :
  tracks full s -> forallb (fun op => negb (isRestore op)) ops = true -> roomy ops s ->
  readInterface name s = Some read ->
  let s' := run ops s in
  (exists err, commitInterface read update s' = (s', Some err)) \/
  commitInterface read update s' = UpdateInterface name update s'.
Proof.
  intros Ht Hops Hr Hread s'.
  destruct (run_tracks ops full s Hops Hr Ht) as (l & _ & _ & Hsame & _). fold s' in Hsame.
  destruct (decide (version s' = version s)) as [Hv|Hv].
  - right. destruct (Hsame Hv) as (Hrun & _ & _). unfold UpdateInterface.
    assert (readInterface name s' = Some read) as ->; [|done].
    rewrite <- Hread. unfold readInterface, runningInterfaces. by rewrite Hrun, Hv.
  - left. unfold readInterface in Hread. apply fmap_Some in Hread as ([index current] & _ & ->).
    unfold commitInterface. destruct (update (cloneInterface current)) as [next|err]; [|by eexists].
    case_bool_decide; simpl; [|by eexists].
    apply Z.eqb_neq in Hv. rewrite Hv. by eexists.
Qed.

Lemma update_interface_atomic_witness :
  exists read, readInterface "eth0" testStore = Some read /\
    let s' := run [OpEnsureVLAN 20] testStore in
    ((exists err, commitInterface read (fun i => inl i) s' = (s', Some err)) \/
     commitInterface read (fun i => inl i) s' = UpdateInterface "eth0" (fun i => inl i) s').
Proof.
  eexists. split; [reflexivity|].
  apply (update_interface_atomic (events testStore) testStore [OpEnsureVLAN 20] "eth0").
  - split; [reflexivity|]. apply vs_next; [reflexivity|constructor].
  - reflexivity.
  - split; [reflexivity|exact I].
  - reflexivity.
Defined.

Example lost_update_refused :
  exists read, readInterface "eth0" testStore = Some read /\
    (commitInterface read (fun i => inl i) (run [OpEnsureVLAN 20] testStore)).2 =
      Some ErrConcurrentUpdate.
Proof. eexists. split; reflexivity. Qed.
