(* ===== verification/DeviceInvariant.v ===== *)
(** * Device state: the durable invariant

    What holds of every store the operations can produce once its network is
    installed: the banks keep the authored interfaces, every armed fault,
    station and radio power is one its setter could have stored, every
    telemetry value is backed by consumed actions, and the event log is
    ordered and bounded.  [exec_durable] is its preservation by every
    operation. *)

From S2P Require Import Prelude.
From S2P Require Import Netip.
From S2P Require Import DeviceTypes.
From S2P Require Import DeviceStore.
From S2P Require Import DeviceOps.
From S2P Require Import DeviceDurable.
From S2P Require Import DeviceFacts.
From S2P Require Import DeviceStep.

(** ** The invariant *)

Definition cfgNames (c : configuration) : list string := ifName <$> nwInterfaces (cfNetwork c).

Definition faultOk (names : list string) (f : InterfaceFault) : Prop :=
  validFaultType (ftType f) = true /\ 0 < ftValue f <= faultRateMax /\ ftInterface f ∈ names.

Definition addressFaultOk (names : list string) (f : InterfaceAddressFault) : Prop :=
  afType f = FaultDuplicateIP /\ ValidFaultAddress (afAddress f) = true /\ afInterface f ∈ names.

Definition prefixFaultOk (names : list string) (f : InterfacePrefixFault) : Prop :=
  pfType f = FaultBadMask /\ 0 <= pfPrefixBits f <= 32 /\ pfInterface f ∈ names.

Definition deviceFaultOk (f : DeviceFault) : Prop := validDeviceFault f = true.

Definition stationOk (names : list string) (st : Station) : Prop :=
  canonicalStation st = inl st /\ snRadio st ∈ names.

Definition powerOk (names : list string) (name : string) (dBm : Z) : Prop :=
  MinRadioTxPowerDBM <= dBm <= MaxRadioTxPowerDBM /\ name ∈ names.

Record bankOk (names : list string) (c : checkpoint) : Prop := {
  bk_names : cfgNames (ckConfig c) = names;
  bk_telemetry : validDeviceTelemetry (ckTelemetry c) = true;
  bk_faults : filedAll faultKey (faultOk names) (ckFaults c);
  bk_addressFaults : filedAll addressFaultKey (addressFaultOk names) (ckAddressFaults c);
  bk_prefixFaults : filedAll prefixFaultKey (prefixFaultOk names) (ckPrefixFaults c);
  bk_deviceFaults : filedAll dfType deviceFaultOk (ckDeviceFaults c);
  bk_stations : filedAll snMAC (stationOk names) (ckStations c);
  bk_radio : map_Forall (powerOk names) (ckRadioTxPower c)
}.

(** The bank a checkpoint taken now would hold. *)
Definition bank (s : Store) : checkpoint :=
  mkCheckpoint (telemetry s) (running s) (faults s) (addressFaults s) (prefixFaults s)
    (deviceFaults s) (stations s) (radioTxPower s).

Definition actionCount (m : gmap string DeviceActionType) (kind : string) : Z :=
  Z.of_nat (size (filter (fun kv => kv.2 = kind) m)).

(** Telemetry shows no effect that no consumed action explains. *)
Definition accounted (m : gmap string DeviceActionType) (t : DeviceTelemetry) : Prop :=
  (dtRebootedAt t = zeroTime \/ 0 < actionCount m ActionReboot) /\
  (dtSTPChangedAt t = zeroTime \/ 0 < actionCount m ActionSTPTopologyChange) /\
  0 <= dtSTPChanges t <= actionCount m ActionSTPTopologyChange.

Definition eventAccounted (m : gmap string DeviceActionType) (e : Event) : Prop :=
  (evKind e = EventDeviceRebooted -> m !! evTarget e = Some ActionReboot) /\
  (evKind e = EventSTPTopologyChanged -> m !! evTarget e = Some ActionSTPTopologyChange).

Definition actionOk (id : string) (kind : DeviceActionType) : Prop :=
  id <> ""%string /\ Z.of_nat (String.length id) <= maxDeviceActionIDLength /\
  validDeviceAction kind = true.

Definition olderFirst (a b : Event) : Prop := evVersion a <= evVersion b.

Record logOk (v : Z) (l : list Event) : Prop := {
  lg_version : 1 <= v < MaxUint64;
  lg_length : (length l <= historyLimit)%nat;
  lg_range : Forall (fun e => 1 <= evVersion e <= v) l;
  lg_order : StronglySorted olderFirst l
}.

Record durable (names : list string) (s : Store) : Prop := {
  du_names : NoDup names;
  du_authored : cfgNames (authored s) = names;
  du_startup : cfgNames (startup s) = names;
  du_bank : bankOk names (bank s);
  du_checkpoints : map_Forall (fun _ c => bankOk names c) (checkpoints s);
  du_accounted : accounted (consumedActions s) (telemetry s);
  du_points : map_Forall (fun _ c => accounted (consumedActions s) (ckTelemetry c)) (checkpoints s);
  du_actions : map_Forall actionOk (consumedActions s);
  du_history : Z.of_nat (size (consumedActions s)) <= maxConsumedDeviceActions;
  du_events : Forall (eventAccounted (consumedActions s)) (events s);
  du_log : logOk (version s) (events s);
  du_clock : forall n, 0 <= now s n
}.

(** ** Appending to the log *)

Lemma StronglySorted_drop {A} (R : relation A) n l : StronglySorted R l -> StronglySorted R (drop n l).
Proof. intros H. rewrite <- (take_drop n l) in H. by apply StronglySorted_app_1_r in H. Qed.

Lemma pushEvent_Forall P l e :
  (length l <= historyLimit)%nat -> Forall P l -> P e -> Forall P (pushEvent l e).
Proof.
  intros Hlen Hl He. rewrite pushEvent_lastN by done. apply Forall_drop, Forall_app.
  split; [done|]. by constructor.
Qed.

Lemma pushEvent_logOk v l e :
  logOk v l -> v <= evVersion e < MaxUint64 -> logOk (evVersion e) (pushEvent l e).
Proof.
  intros [Hv Hlen Hr Ho] He. split; [lia|..].
  - rewrite pushEvent_lastN by done. apply lastN_length.
  - apply pushEvent_Forall; [done| |lia]. eapply Forall_impl; [exact Hr|]. simpl. lia.
  - rewrite pushEvent_lastN by done. apply StronglySorted_drop, StronglySorted_app.
    split_and!; [|done|by repeat constructor].
    intros x y Hx Hy. rewrite Forall_forall in Hr. apply Hr in Hx.
    apply list_elem_of_singleton in Hy as ->. unfold olderFirst. lia.
Qed.

(** An event kind that reports no one-shot action. *)
Definition plainKind (k : EventKind) : Prop :=
  k <> EventDeviceRebooted /\ k <> EventSTPTopologyChanged.

Lemma plain_accounted m e : plainKind (evKind e) -> eventAccounted m e.
Proof. intros [H1 H2]. split; congruence. Qed.

Lemma durable_push names s e v tk it ch ef :
  durable names s -> version s <= v < MaxUint64 -> evVersion e = v ->
  eventAccounted (consumedActions s) e ->
  durable names (s <| version := v |> <| events := pushEvent (events s) e |> <| ticks := tk |>
    <| interfaceTransitions := it |> <| changes := ch |> <| effects := ef |>).
Proof.
  intros [] Hv He Ha. split; try done; simpl.
  - apply pushEvent_Forall; [by eapply lg_length|done..].
  - subst v. eapply pushEvent_logOk; [done|lia].
Qed.

Lemma durable_version names s : durable names s -> 1 <= version s < MaxUint64.
Proof. intros []. by eapply lg_version. Qed.

Lemma durable_commit names k tg s :
  durable names s -> version s + 1 < MaxUint64 -> plainKind k -> durable names (commit k tg s).
Proof.
  intros Hd Hr Hk. pose proof (durable_version _ _ Hd).
  destruct (commit_shape k tg s) as (t & tk & it & ef & E & _). rewrite E.
  rewrite uint64_id by (unfold MaxUint64 in *; lia).
  eapply durable_push; [done|lia|done|by apply plain_accounted].
Qed.

Lemma durable_interface names i p c s :
  durable names s -> durable names (recordInterfaceEvent i p c s).
Proof.
  intros Hd. pose proof (durable_version _ _ Hd).
  destruct (recordInterfaceEvent_shape i p c s) as (t & tk & it & ef & E). rewrite E.
  assert (s = s <| version := version s |>) as Hs by (by destruct s).
  rewrite Hs at 1. eapply (durable_push names s); [done|lia|done|by apply plain_accounted].
Qed.

Lemma durable_bump names s :
  durable names s -> version s + 1 < MaxUint64 -> durable names (bumpVersion s).
Proof.
  intros Hd Hr. pose proof (durable_version _ _ Hd). destruct Hd. split; try done. simpl.
  rewrite uint64_id by (unfold MaxUint64 in *; lia). destruct du_log0. split; [lia|done| |done].
  eapply Forall_impl; [done|]. simpl. lia.
Qed.

Lemma durable_carrierLoop names i b a s :
  durable names s -> version s + Z.of_nat (length b) < MaxUint64 ->
  durable names (carrierLoop i b a s).
Proof.
  revert i a s. induction b as [|x b IH]; intros i [|y a] s Hd Hr; simpl in *; try done.
  pose proof (durable_version _ _ Hd).
  destruct (negb _); [|apply IH; [done|lia]].
  apply IH; [apply durable_interface, durable_bump; [done|lia]|].
  destruct (recordInterfaceEvent_shape (i + 1) x y (bumpVersion s)) as (t & tk & it & ef & E).
  rewrite E. simpl. rewrite uint64_id by (unfold MaxUint64 in *; lia). lia.
Qed.

Lemma durable_changedLoop names m i l s : durable names s -> durable names (changedLoop m i l s).
Proof.
  revert i s. induction l as [|x l IH]; intros i s Hd; simpl; [done|]. apply IH.
  destruct (m !! ifName x); [|done]. destruct (negb _); [|done]. by apply durable_interface.
Qed.

Lemma durable_room names s : durable names s -> room s ->
  version s + 1 + Z.of_nat (length names) < MaxUint64.
Proof.
  intros [] Hr. unfold room, runningInterfaces in Hr.
  assert (length names = length (nwInterfaces (cfNetwork (running s)))) as ->; [|done].
  rewrite <- (bk_names _ _ du_bank0). unfold cfgNames. by rewrite length_fmap.
Qed.

(** A commit followed by the carrier transitions it causes. *)
Lemma durable_commit_carrier names k tg prev s :
  durable names s -> version s + 1 + Z.of_nat (length names) < MaxUint64 -> plainKind k ->
  durable names (recordCarrierTransitions prev (commit k tg s)).
Proof.
  intros Hd Hr Hk. pose proof (durable_version _ _ Hd).
  assert (durable names (commit k tg s)) as Hd' by (apply durable_commit; [done|lia|done]).
  apply durable_carrierLoop; [done|]. rewrite applyCarrierFaults_length.
  pose proof (bk_names _ _ (du_bank _ _ Hd')) as Hn. unfold cfgNames in Hn. simpl in Hn.
  apply (f_equal length) in Hn. rewrite length_fmap in Hn. rewrite Hn.
  destruct (commit_shape k tg s) as (t & tk & it & ef & E & _). rewrite E. simpl.
  rewrite uint64_id by (unfold MaxUint64 in *; lia). lia.
Qed.

Lemma durable_replaceRunning names next k tg s :
  durable names (s <| running := next |>) -> version s + 1 < MaxUint64 -> plainKind k ->
  durable names (replaceRunning next k tg s).
Proof.
  intros Hd Hr Hk. unfold replaceRunning. rewrite cloneConfiguration_id.
  apply durable_changedLoop. by apply durable_commit.
Qed.

(** ** Changing one component

    Each lemma replaces one component of a durable store by one that is still
    good; the operations are these replacements followed by a commit. *)

Ltac durable_field :=
  intros [] **; split; try done;
  match goal with H : bankOk _ _ |- bankOk _ _ => destruct H; split; done end.

Section fields.
Context (names : list string) (s : Store).

Lemma durable_faults fs :
  durable names s -> filedAll faultKey (faultOk names) fs -> durable names (s <| faults := fs |>).
Proof. durable_field. Qed.

Lemma durable_addressFaults fs :
  durable names s -> filedAll addressFaultKey (addressFaultOk names) fs ->
  durable names (s <| addressFaults := fs |>).
Proof. durable_field. Qed.

Lemma durable_prefixFaults fs :
  durable names s -> filedAll prefixFaultKey (prefixFaultOk names) fs ->
  durable names (s <| prefixFaults := fs |>).
Proof. durable_field. Qed.

Lemma durable_deviceFaults fs :
  durable names s -> filedAll dfType deviceFaultOk fs -> durable names (s <| deviceFaults := fs |>).
Proof. durable_field. Qed.

Lemma durable_stations m :
  durable names s -> filedAll snMAC (stationOk names) m -> durable names (s <| stations := m |>).
Proof. durable_field. Qed.

Lemma durable_radioTxPower m :
  durable names s -> map_Forall (powerOk names) m -> durable names (s <| radioTxPower := m |>).
Proof. durable_field. Qed.

Lemma durable_running c :
  durable names s -> cfgNames c = names -> durable names (s <| running := c |>).
Proof. durable_field. Qed.

Lemma durable_startup c :
  durable names s -> cfgNames c = names -> durable names (s <| startup := c |>).
Proof. intros [] Hc. by split. Qed.

Lemma durable_changeSignal c : durable names s -> durable names (s <| changeSignal := c |>).
Proof. intros []. by split. Qed.

Lemma durable_changeObserver o : durable names s -> durable names (s <| changeObserver := o |>).
Proof. intros []. by split. Qed.

Lemma durable_changes b : durable names s -> durable names (s <| changes := b |>).
Proof. intros []. by split. Qed.

Lemma durable_effects ef : durable names s -> durable names (s <| effects := ef |>).
Proof. intros []. by split. Qed.

Lemma durable_checkpoint name :
  durable names s -> durable names (s <| checkpoints := <[name := bank s]> (checkpoints s) |>).
Proof.
  intros []. split; try done; simpl. all: by apply map_Forall_insert_2.
Qed.

(** The whole bank comes back from a checkpoint. *)
Lemma durable_restoreBank saved :
  durable names s -> bankOk names saved -> accounted (consumedActions s) (ckTelemetry saved) ->
  durable names (s <| faults := ckFaults saved |> <| addressFaults := ckAddressFaults saved |>
    <| prefixFaults := ckPrefixFaults saved |> <| deviceFaults := ckDeviceFaults saved |>
    <| stations := ckStations saved |> <| radioTxPower := ckRadioTxPower saved |>
    <| telemetry := ckTelemetry saved |> <| running := ckConfig saved |>).
Proof.
  intros [] [] Ha. by split.
Qed.

Lemma durable_interfaceExists name :
  durable names s -> interfaceExists (runningInterfaces s) name = true -> name ∈ names.
Proof.
  intros [] H%interfaceExists_spec. rewrite <- (bk_names _ _ du_bank0). done.
Qed.
End fields.

#[export] Hint Resolve durable_faults durable_addressFaults durable_prefixFaults
  durable_deviceFaults durable_stations durable_radioTxPower durable_running durable_startup
  durable_changeSignal durable_changeObserver durable_changes durable_effects durable_checkpoint
  : device.

(** ** The good components *)

Lemma withoutInterface_sub {A} (name : string) (m : gmap (string * string) A) : withoutInterface name m ⊆ m.
Proof. apply map_filter_subseteq. Qed.

Lemma canonicalMAC_idem mac c : canonicalMAC mac = inl c -> canonicalMAC c = inl c.
Proof.
  unfold canonicalMAC. destruct (ParseMAC mac) as [hw|] eqn:E; [|done].
  case_bool_decide as Hlen; [|done]. intros [= <-].
  rewrite ParseMAC_macString; [|done|by eapply ParseMAC_bytes].
  by rewrite bool_decide_eq_true_2.
Qed.

Lemma canonicalStation_idem st c :
  canonicalStation st = inl c -> canonicalStation c = inl c /\ snRadio c = snRadio st.
Proof.
  unfold canonicalStation. destruct (canonicalMAC (snMAC st)) as [mac|] eqn:E; [|done].
  destruct (bool_decide _ || _) eqn:Eb; [done|]. intros [= <-]. simpl.
  rewrite (canonicalMAC_idem _ _ E), Eb. done.
Qed.

Lemma installLoop_ok names l m m' :
  filedAll snMAC (stationOk names) m -> Forall (fun st => snRadio st ∈ names) l ->
  installLoop m l = inl m' -> filedAll snMAC (stationOk names) m'.
Proof.
  revert m. induction l as [|st l IH]; intros m Hm Hl; simpl; [by intros [= <-]|].
  apply Forall_cons in Hl as [Hst Hl].
  destruct (canonicalStation st) as [c|] eqn:E; [|done].
  apply canonicalStation_idem in E as [Hc Hr]. apply IH; [|done].
  apply filedAll_insert; [done|]. split; [done|by rewrite Hr].
Qed.

Lemma names_insert (l : list Interface) i current next :
  l !! i = Some current -> ifName next = ifName current -> ifName <$> <[i := next]> l = ifName <$> l.
Proof.
  intros Hl Hn. rewrite list_fmap_insert, Hn. apply list_insert_id. by rewrite list_lookup_fmap, Hl.
Qed.

Lemma actionCount_insert m id kind kind' :
  m !! id = None ->
  actionCount (<[id := kind]> m) kind' = actionCount m kind' + (if decide (kind = kind') then 1 else 0).
Proof.
  intros Hid. unfold actionCount. case_decide as Hk.
  - rewrite map_filter_insert_True by done.
    rewrite map_size_insert_None; [lia|]. by apply map_lookup_filter_None_2; left.
  - rewrite map_filter_insert_False by done. rewrite delete_id by done. lia.
Qed.

Lemma actionCount_size m kind : actionCount m kind <= Z.of_nat (size m).
Proof. unfold actionCount. apply inj_le, map_subseteq_size, map_filter_subseteq. Qed.

Lemma accounted_insert m id kind t :
  m !! id = None -> accounted m t -> accounted (<[id := kind]> m) t.
Proof.
  intros Hid (H1 & H2 & H3). unfold accounted. rewrite !actionCount_insert by done.
  repeat case_decide; split_and!; try lia; naive_solver lia.
Qed.

Lemma eventAccounted_insert m id kind e :
  m !! id = None -> eventAccounted m e -> eventAccounted (<[id := kind]> m) e.
Proof.
  intros Hid [H1 H2]. split; intros Hk; rewrite lookup_insert_ne; auto.
  all: intros Heq; rewrite Heq in Hid; first [apply H1 in Hk|apply H2 in Hk]; congruence.
Qed.
