(* ===== verification/DeviceValidate.v ===== *)
(** * Device state: what the validators accept

    Each validator of the durable record, as an equivalence with the component
    of the invariant it stands for, and the invariant of a restored store. *)

From S2P Require Import Prelude.
From S2P Require Import Netip.
From S2P Require Import DeviceTypes.
From S2P Require Import DeviceStore.
From S2P Require Import DeviceOps.
From S2P Require Import DeviceDurable.
From S2P Require Import DeviceFacts.
From S2P Require Import DeviceStep.
From S2P Require Import DeviceInvariant.

(** ** Lists of faults and stations *)

Lemma Forall_bool {A} (f : A -> bool) (P : A -> Prop) (l : list A) :
  (forall x, f x = true <-> P x) -> Forall (fun x => f x = true) l <-> Forall P l.
Proof. intros H. apply Forall_proper; [|done]. intros x. apply H. Qed.

Section validators.
Context (names : list string) (auth : list Interface).
Hypothesis Hnames : ifName <$> auth = names.

Lemma exists_names name : interfaceExists auth name = true <-> name ∈ names.
Proof. by rewrite interfaceExists_spec, Hnames. Qed.

Lemma validStateInterfaceFaults_spec l :
  validStateInterfaceFaults l auth = true <-> NoDup (faultKey <$> l) /\ Forall (faultOk names) l.
Proof.
  unfold validStateInterfaceFaults. rewrite unseen_empty, (Forall_bool _ (faultOk names)); [done|].
  intros f. unfold faultOk. rewrite <- exists_names, !andb_true_iff.
  destruct (Z.leb_spec (ftValue f) 0), (Z.ltb_spec faultRateMax (ftValue f)); simpl; intuition (try lia; done).
Qed.

Lemma validStateAddressFaults_spec l :
  validStateAddressFaults l auth = true <->
  NoDup (addressFaultKey <$> l) /\ Forall (addressFaultOk names) l.
Proof.
  unfold validStateAddressFaults. rewrite unseen_empty, (Forall_bool _ (addressFaultOk names)); [done|].
  intros f. unfold addressFaultOk. rewrite <- exists_names, !andb_true_iff, bool_decide_eq_true. tauto.
Qed.

Lemma validStatePrefixFaults_spec l :
  validStatePrefixFaults l auth = true <->
  NoDup (prefixFaultKey <$> l) /\ Forall (prefixFaultOk names) l.
Proof.
  unfold validStatePrefixFaults. rewrite unseen_empty, (Forall_bool _ (prefixFaultOk names)); [done|].
  intros f. unfold prefixFaultOk. rewrite <- exists_names, !andb_true_iff, bool_decide_eq_true.
  destruct (Z.ltb_spec (pfPrefixBits f) 0), (Z.ltb_spec 32 (pfPrefixBits f)); simpl; intuition (try lia; done).
Qed.

Lemma validStateDeviceFaults_spec l :
  validStateDeviceFaults l = true <-> NoDup (dfType <$> l) /\ Forall deviceFaultOk l.
Proof. apply unseen_empty. Qed.

Lemma canonical_fixed st :
  match canonicalStation st with
  | inl c => bool_decide (snMAC c = snMAC st) && interfaceExists auth (snRadio st)
  | inr _ => false
  end = true <-> stationOk names st.
Proof.
  unfold stationOk. rewrite <- exists_names. unfold canonicalStation.
  destruct (canonicalMAC (snMAC st)) as [mac|err]; [|by split; [|intros []]].
  destruct (bool_decide _ || _); [by split; [|intros []]|]. simpl.
  rewrite andb_true_iff, bool_decide_eq_true. split; intros [H1 H2]; split; try done.
  - subst mac. by destruct st.
  - injection H1 as H1. by rewrite <- H1.
Qed.

Lemma validStateStations_spec l :
  validStateStations l auth = true <-> NoDup (snMAC <$> l) /\ Forall (stationOk names) l.
Proof.
  unfold validStateStations. rewrite unseen_empty, (Forall_bool _ (stationOk names)); [done|].
  apply canonical_fixed.
Qed.

(** ** Radio powers: strictly ascending *)

Definition kslt (x y : string) : Prop := ~ kle y x.

Lemma kslt_trans x y z : kslt x y -> kslt y z -> kslt x z.
Proof.
  intros H1 H2 H3. destruct (total kle x y) as [H|H]; [|done]. apply H2. by etrans.
Qed.

Lemma radioLoop_spec prev l :
  radioLoop prev l auth = true <->
  Forall (fun p => powerOk names (rpInterface p) (rpDBM p)) l /\
  Sorted kslt (rpInterface <$> l) /\
  match prev, l with Some q, p :: _ => kslt q (rpInterface p) | _, _ => True end.
Proof.
  revert prev. induction l as [|p l IH]; intros prev; csimpl.
  { split; [|done]. intros _. destruct prev; auto using Sorted_nil. }
  assert ((rpDBM p <? MinRadioTxPowerDBM) || (MaxRadioTxPowerDBM <? rpDBM p) ||
    negb (interfaceExists auth (rpInterface p)) = false <-> powerOk names (rpInterface p) (rpDBM p)) as Hp.
  { unfold powerOk. rewrite <- exists_names. destruct (interfaceExists auth _); simpl; lia. }
  assert (match prev with Some q => bool_decide (kle (rpInterface p) q) | None => false end = false <->
          match prev with Some q => kslt q (rpInterface p) | None => True end) as Hq.
  { destruct prev as [q|]; [|done]. by rewrite bool_decide_eq_false. }
  destruct (_ || _ || _) eqn:E1; simpl.
  { split; [done|]. intros (H & _). apply Forall_cons in H as [H _]. by apply Hp in H. }
  destruct (match prev with Some q => _ | None => false end) eqn:E2.
  { split; [done|]. intros (_ & _ & H). destruct prev; [|done]. by apply Hq in H. }
  rewrite IH, Forall_cons. apply proj1 in Hp, Hq. specialize (Hp eq_refl). specialize (Hq eq_refl).
  split.
  - intros (H1 & H2 & H3). split; [done|]. split; [|by destruct prev].
    constructor; [done|]. destruct l; csimpl; by constructor.
  - intros ([_ H1] & H2 & _). split_and!; [done|by inversion H2|].
    destruct l; [done|]. csimpl in *. inversion H2 as [|? ? ? Hh]; subst. by inversion Hh.
Qed.

Lemma sorted_strict l : Sorted kslt l <-> NoDup l /\ StronglySorted kle l.
Proof.
  split.
  - intros H. apply Sorted_StronglySorted in H; [|exact kslt_trans].
    induction H as [|x l H IH Hx]; [split; constructor|]. destruct IH as [IH1 IH2].
    rewrite Forall_forall in Hx. split; constructor; auto.
    + intros Hin. by apply (Hx x Hin).
    + apply Forall_forall. intros y Hy. apply Hx in Hy. by destruct (total kle x y).
  - intros [Hnd Hs]. induction Hs as [|x l Hs IH Hx]; [constructor|].
    apply NoDup_cons in Hnd as [Hin Hnd]. constructor; [by apply IH|].
    destruct l as [|y l]; constructor. intros Hle. apply Hin.
    apply Forall_cons in Hx as [Hx _]. assert (x = y) as -> by (by apply (anti_symm kle)). by left.
Qed.

Lemma validStateRadioTxPowers_spec l :
  validStateRadioTxPowers l auth = true <->
  Forall (fun p => powerOk names (rpInterface p) (rpDBM p)) l /\
  NoDup (rpInterface <$> l) /\ StronglySorted kle (rpInterface <$> l).
Proof. unfold validStateRadioTxPowers. rewrite radioLoop_spec, sorted_strict. tauto. Qed.

(** ** Interfaces and history *)

Lemma interfacesLoop_spec seen l :
  length l = length auth ->
  interfacesLoop seen l auth = true <->
  ifName <$> l = names /\ NoDup (ifName <$> l) /\ (forall x, x ∈ ifName <$> l -> x ∉ seen).
Proof.
  clear -Hnames. subst names. revert seen auth.
  induction l as [|i l IH]; intros seen [|a auth] Hlen; csimpl in *; try lia.
  { split; [|done]. intros _. split_and!; [done|constructor|]. intros x Hx. by apply not_elem_of_nil in Hx. }
  case_bool_decide as Hs; simpl.
  { split; [done|]. intros (_ & _ & H). exfalso. apply (H (ifName i)); [by left|done]. }
  case_bool_decide as Hn; simpl; [|split; [done|intros ([=] & _)]; congruence].
  rewrite IH by lia. rewrite NoDup_cons. split.
  - intros (H1 & H2 & H3). split_and!; [congruence| |done|].
    + intros Hin. apply H3 in Hin. set_solver.
    + intros x [->|Hx]%elem_of_cons; [done|]. apply H3 in Hx. set_solver.
  - intros (Heq & [H1 H2] & H3). injection Heq as _ Heq. split_and!; [done|done|]. intros x Hx.
    assert (x ∉ seen) by (apply H3; by right). set_solver.
Qed.

Lemma validStateInterfaces_spec l :
  validStateInterfaces l auth = true <-> ifName <$> l = names /\ NoDup names.
Proof.
  unfold validStateInterfaces. case_bool_decide as Hlen; simpl.
  - rewrite interfacesLoop_spec by done. split.
    + intros (H1 & H2 & _). split; [done|congruence].
    + intros [H1 H2]. split_and!; [done|congruence|set_solver].
  - split; [done|]. intros [H _]. exfalso. apply Hlen.
    apply (f_equal length) in H. rewrite <- Hnames, !length_fmap in H. done.
Qed.
End validators.

Lemma historyLoop_spec p lim l :
  historyLoop p lim l = true <->
  Forall (fun e => evVersion e <> 0 /\ p <= evVersion e <= lim) l /\ StronglySorted olderFirst l.
Proof.
  revert p. induction l as [|e l IH]; intros p; simpl.
  { split; [|done]. split; [constructor|constructor]. }
  destruct ((evVersion e =? 0) || _ || _) eqn:E.
  { split; [done|]. intros [H _]. apply Forall_cons in H as [H _]. exfalso. lia. }
  rewrite IH. split.
  - intros [H1 H2]. split; constructor; [lia| |done|].
    + eapply Forall_impl; [exact H1|]. simpl. lia.
    + eapply Forall_impl; [exact H1|]. unfold olderFirst. simpl. lia.
  - intros [H1 H2]. apply Forall_cons in H1 as [He H1]. inversion H2; subst. split; [|done].
    rewrite Forall_forall in *. intros x Hx. pose proof (H1 x Hx).
    match goal with H : forall _, _ -> olderFirst _ _ |- _ => pose proof (H x Hx) end.
    unfold olderFirst in *. lia.
Qed.

Lemma validStateHistory_spec state :
  0 <= stVersion state <= MaxUint64 -> Forall (fun e => 0 <= evVersion e) (stEvents state) ->
  validStateHistory state = true <-> logOk (stVersion state) (stEvents state).
Proof.
  intros Hv Hnn. unfold validStateHistory. rewrite <- historyLimit_Z.
  destruct ((stVersion state =? 0) || _ || _) eqn:E.
  { split; [done|]. intros []. exfalso. lia. }
  rewrite historyLoop_spec. split.
  - intros [H1 H2]. split; [lia|lia| |done]. eapply Forall_impl; [exact H1|]. simpl. lia.
  - intros [_ _ Hr Ho]. split; [|done]. eapply Forall_impl; [exact Hr|]. simpl. lia.
Qed.

(** ** Consumed actions *)

Definition consumedOk (a : ConsumedDeviceAction) : Prop := actionOk (caID a) (caType a).

Lemma actionOk_nonempty id kind : actionOk id kind -> kind <> ""%string.
Proof. intros (_ & _ & H) ->. discriminate H. Qed.

Definition fresh (seen : gmap string DeviceActionType) (l : list ConsumedDeviceAction) : Prop :=
  Forall (fun a => default ""%string (seen !! caID a) = ""%string) l.

Lemma consumedLoop_inv l seen counts r :
  consumedLoop l seen counts = Some r -> NoDup (caID <$> l) /\ Forall consumedOk l /\ fresh seen l.
Proof.
  revert seen counts. induction l as [|a l IH]; intros seen counts; csimpl.
  { intros _. split_and!; constructor. }
  destruct (negb _ || _ || _ || _) eqn:E; [done|]. intros H. apply IH in H as (H1 & H2 & H3).
  apply orb_false_iff in E as [E E4]. apply orb_false_iff in E as [E E3].
  apply orb_false_iff in E as [E1 E2].
  apply negb_false_iff, bool_decide_eq_true_1 in E1. apply bool_decide_eq_false_1 in E2.
  apply negb_false_iff in E4.
  assert (actionOk (caID a) (caType a)) as Hok by (split_and!; [done|lia|done]).
  unfold fresh in *. rewrite Forall_forall in H3. split_and!.
  - apply NoDup_cons. split; [|done]. intros (b & Hb & Hin)%list_elem_of_fmap.
    apply H3 in Hin. rewrite <- Hb, lookup_insert_eq in Hin. by eapply actionOk_nonempty.
  - by constructor.
  - constructor; [done|]. apply Forall_forall. intros b Hb. pose proof (H3 b Hb) as Hc.
    rewrite lookup_insert in Hc. case_decide; [|done]. simpl in Hc. by eapply actionOk_nonempty in Hc.
Qed.

Definition addConsumed (m : gmap string DeviceActionType) (l : list ConsumedDeviceAction) :=
  foldl (fun m a => <[caID a := caType a]> m) m l.

Lemma consumedLoop_some l seen counts :
  NoDup (caID <$> l) -> Forall consumedOk l -> Forall (fun a => seen !! caID a = None) l ->
  (forall k, 0 <= default 0 (counts !! k) /\ default 0 (counts !! k) + Z.of_nat (length l) < 2 ^ 32) ->
  (forall k, default 0 (counts !! k) = actionCount seen k) ->
  exists counts', consumedLoop l seen counts = Some (addConsumed seen l, counts') /\
    forall k, default 0 (counts' !! k) = actionCount (addConsumed seen l) k.
Proof.
  revert seen counts. induction l as [|a l IH]; intros seen counts Hnd Hok Hfr Hb Hc; csimpl in *.
  { by exists counts. }
  apply NoDup_cons in Hnd as [Ha Hnd]. apply Forall_cons in Hok as [(H1 & H2 & H3) Hok].
  apply Forall_cons in Hfr as [Hfa Hfr].
  rewrite Hfa, (bool_decide_eq_true_2 (default ""%string None = ""%string)) by done.
  rewrite bool_decide_eq_false_2 by done. rewrite H3.
  destruct (Z.ltb_spec maxDeviceActionIDLength (Z.of_nat (String.length (caID a)))); [lia|]. simpl.
  apply IH; [done..| | |].
  - rewrite Forall_forall in *. intros b Hin. rewrite lookup_insert_ne; [by apply Hfr|].
    intros Heq. apply Ha. rewrite Heq. by apply list_elem_of_fmap_2.
  - intros k. rewrite lookup_insert. case_decide as Hk; simpl.
    + rewrite uint32_id; [|specialize (Hb (caType a)); lia]. specialize (Hb (caType a)). lia.
    + specialize (Hb k). lia.
  - intros k. rewrite actionCount_insert by done. rewrite lookup_insert. case_decide as Hk; simpl.
    + rewrite uint32_id; [|specialize (Hb (caType a)); lia]. by rewrite Hc, Hk.
    + rewrite Hc. lia.
Qed.

Lemma telemetryHasConsumedActions_spec t m counts :
  0 <= dtSTPChanges t -> (forall k, default 0 (counts !! k) = actionCount m k) ->
  telemetryHasConsumedActions t counts = true <-> accounted m t.
Proof.
  intros Ht Hc. unfold telemetryHasConsumedActions, accounted, IsZero. rewrite !Hc.
  rewrite !andb_true_iff, !orb_true_iff, !Z.eqb_eq, !Z.ltb_lt, Z.leb_le. intuition.
Qed.

(** Go's [uint32] and [uint64] fields of a record are in range. *)
Record typedState (state : State) : Prop := {
  ty_version : 0 <= stVersion state <= MaxUint64;
  ty_telemetry : 0 <= dtSTPChanges (stTelemetry state);
  ty_points : Forall (fun p => 0 <= dtSTPChanges (xcTelemetry p)) (stCheckpoints state);
  ty_events : Forall (fun e => 0 <= evVersion e) (stEvents state)
}.

Lemma eventAccounted_spec m e :
  negb (bool_decide (evKind e = EventDeviceRebooted) &&
          negb (bool_decide (default ""%string (m !! evTarget e) = ActionReboot)) ||
        bool_decide (evKind e = EventSTPTopologyChanged) &&
          negb (bool_decide (default ""%string (m !! evTarget e) = ActionSTPTopologyChange))) = true <->
  eventAccounted m e.
Proof.
  assert (forall k, k <> ""%string -> default ""%string (m !! evTarget e) = k <-> m !! evTarget e = Some k) as H.
  { intros k Hk. destruct (m !! evTarget e); simpl; split; congruence. }
  unfold eventAccounted. rewrite negb_true_iff, orb_false_iff, !andb_false_iff, !negb_false_iff.
  rewrite !bool_decide_eq_true, !bool_decide_eq_false, !H by done.
  destruct (decide (evKind e = EventDeviceRebooted)), (decide (evKind e = EventSTPTopologyChanged)); tauto.
Qed.

Lemma forallb_Forall {A} (f : A -> bool) (P : A -> Prop) (l : list A) :
  (forall x, x ∈ l -> f x = true <-> P x) -> forallb f l = true <-> Forall P l.
Proof.
  intros H. rewrite forallb_forall, Forall_forall. split; intros Hl x Hx.
  - apply H; [done|]. apply Hl. by apply list_elem_of_In.
  - apply list_elem_of_In in Hx. apply H; auto.
Qed.

Record actionsOk (state : State) : Prop := {
  ao_telemetry : validDeviceTelemetry (stTelemetry state) = true;
  ao_length : Z.of_nat (length (stConsumedActions state)) <= maxConsumedDeviceActions;
  ao_ids : NoDup (caID <$> stConsumedActions state);
  ao_ok : Forall consumedOk (stConsumedActions state);
  ao_accounted : accounted (importConsumedActions (stConsumedActions state)) (stTelemetry state);
  ao_points : Forall (fun p => accounted (importConsumedActions (stConsumedActions state)) (xcTelemetry p))
                (stCheckpoints state);
  ao_events : Forall (eventAccounted (importConsumedActions (stConsumedActions state))) (stEvents state)
}.

Lemma validActionState_spec state :
  typedState state -> validActionState state = true <-> actionsOk state.
Proof.
  intros []. unfold validActionState.
  destruct (validDeviceTelemetry (stTelemetry state)) eqn:Ht; simpl; [|by split; [|intros []; congruence]].
  destruct (Z.ltb_spec maxConsumedDeviceActions (Z.of_nat (length (stConsumedActions state)))) as [Hl|Hl].
  { split; [done|]. intros []. lia. }
  assert (NoDup (caID <$> stConsumedActions state) -> Forall consumedOk (stConsumedActions state) ->
    exists counts, consumedLoop (stConsumedActions state) ∅ ∅ =
      Some (importConsumedActions (stConsumedActions state), counts) /\
      forall k, default 0 (counts !! k) = actionCount (importConsumedActions (stConsumedActions state)) k)
    as Hloop.
  { intros Hnd Hok. apply consumedLoop_some; [done|done| | |].
    - apply Forall_forall. intros a _. apply lookup_empty.
    - intros k. rewrite lookup_empty. simpl. unfold maxConsumedDeviceActions in Hl. lia.
    - intros k. rewrite lookup_empty. unfold actionCount. by rewrite map_filter_empty. }
  set (m := importConsumedActions (stConsumedActions state)) in *.
  assert (forall counts, (forall k, default 0 (counts !! k) = actionCount m k) ->
    telemetryHasConsumedActions (stTelemetry state) counts &&
    forallb (fun p => telemetryHasConsumedActions (xcTelemetry p) counts) (stCheckpoints state) = true <->
    accounted m (stTelemetry state) /\ Forall (fun p => accounted m (xcTelemetry p)) (stCheckpoints state))
    as Hacc.
  { intros counts Hc. rewrite andb_true_iff, telemetryHasConsumedActions_spec by done.
    rewrite (forallb_Forall _ (fun p => accounted m (xcTelemetry p))); [done|]. intros p Hp.
    apply telemetryHasConsumedActions_spec; [|done]. rewrite Forall_forall in ty_points0. auto. }
  destruct (consumedLoop (stConsumedActions state) ∅ ∅) as [[seen counts]|] eqn:E.
  - destruct (consumedLoop_inv _ _ _ _ E) as (Hnd & Hok & _).
    destruct (Hloop Hnd Hok) as (counts' & [= -> ->] & Hc). fold m in Hc |- *.
    rewrite andb_true_iff, Hacc by done.
    rewrite (forallb_Forall _ (eventAccounted m)) by (intros e _; apply eventAccounted_spec).
    split; [intros [[H1 H2] H3]; split; auto|intros []; auto].
  - split; [done|]. intros []. destruct (Hloop ao_ids0 ao_ok0) as (? & ? & _). done.
Qed.
