(* ===== verification/DeviceRestore.v ===== *)
(** * Device state: exporting, validating and restoring

    A durable store exports a record every validator accepts; an accepted
    record restores to a durable store; and restoring what was exported gives
    the exported store back. *)

From S2P Require Import Prelude.
From S2P Require Import Netip.
From S2P Require Import DeviceTypes.
From S2P Require Import DeviceStore.
From S2P Require Import DeviceOps.
From S2P Require Import DeviceDurable.
From S2P Require Import DeviceFacts.
From S2P Require Import DeviceStep.
From S2P Require Import DeviceInvariant.
From S2P Require Import DeviceValidate.

Record pointOk (names : list string) (p : Checkpoint) : Prop := {
  pt_telemetry : validDeviceTelemetry (xcTelemetry p) = true;
  pt_names : cfgNames (xcConfiguration p) = names;
  pt_unique : NoDup names;
  pt_faults : NoDup (faultKey <$> xcInterfaceFaults p) /\ Forall (faultOk names) (xcInterfaceFaults p);
  pt_addressFaults : NoDup (addressFaultKey <$> xcAddressFaults p) /\
    Forall (addressFaultOk names) (xcAddressFaults p);
  pt_prefixFaults : NoDup (prefixFaultKey <$> xcPrefixFaults p) /\
    Forall (prefixFaultOk names) (xcPrefixFaults p);
  pt_deviceFaults : NoDup (dfType <$> xcDeviceFaults p) /\ Forall deviceFaultOk (xcDeviceFaults p);
  pt_stations : NoDup (snMAC <$> xcStations p) /\ Forall (stationOk names) (xcStations p);
  pt_radio : Forall (fun q => powerOk names (rpInterface q) (rpDBM q)) (xcRadioTxPowers p) /\
    NoDup (rpInterface <$> xcRadioTxPowers p) /\
    StronglySorted kle (rpInterface <$> xcRadioTxPowers p)
}.

Lemma validStateCheckpoint_spec names auth p :
  ifName <$> auth = names -> validStateCheckpoint p auth = true <-> pointOk names p.
Proof.
  intros Hn. unfold validStateCheckpoint. rewrite !andb_true_iff.
  rewrite (validStateInterfaces_spec names), (validStateInterfaceFaults_spec names),
    (validStateAddressFaults_spec names), (validStatePrefixFaults_spec names),
    validStateDeviceFaults_spec, (validStateStations_spec names),
    (validStateRadioTxPowers_spec names) by done.
  split; [|by intros []]. intros [[[[[[[? []] ?] ?] ?] ?] ?] ?]. by split.
Qed.

Record recordOk (names : list string) (state : State) : Prop := {
  ro_log : logOk (stVersion state) (stEvents state);
  ro_actions : actionsOk state;
  ro_startup : cfgNames (stStartup state) = names;
  ro_current : pointOk names (mkExportedCheckpoint (stTelemetry state) "" (stRunning state)
    (stInterfaceFaults state) (stAddressFaults state) (stPrefixFaults state) (stDeviceFaults state)
    (stStations state) (stRadioTxPowers state));
  ro_pointNames : NoDup (xcName <$> stCheckpoints state);
  ro_points : Forall (pointOk names) (stCheckpoints state)
}.

Lemma validateState_spec names auth state :
  ifName <$> auth = names -> typedState state ->
  validateState state auth = None <-> recordOk names state.
Proof.
  intros Hn Hty. unfold validateState.
  destruct (validStateHistory state) eqn:E1; simpl.
  2: { split; [done|]. intros []. rewrite <- validStateHistory_spec in ro_log0 by apply Hty. congruence. }
  apply validStateHistory_spec in E1; [|by apply Hty..].
  destruct (validActionState state) eqn:E2; simpl.
  2: { split; [done|]. intros []. rewrite <- validActionState_spec in ro_actions0 by done. congruence. }
  apply validActionState_spec in E2; [|done].
  destruct (validStateInterfaces _ auth) eqn:E3; simpl.
  2: { split; [done|]. intros []. assert (validStateInterfaces
         (nwInterfaces (cfNetwork (stStartup state))) auth = true); [|congruence].
       apply (validStateInterfaces_spec names); [done|]. split; [done|]. by apply ro_current0. }
  apply (validStateInterfaces_spec names) in E3 as [E3 _]; [|done].
  destruct (validStateCheckpoint _ auth) eqn:E4; simpl.
  2: { split; [done|]. intros []. apply (validStateCheckpoint_spec names auth) in ro_current0; [|done].
       congruence. }
  apply (validStateCheckpoint_spec names) in E4; [|done].
  assert (unseen xcName (fun p => validStateCheckpoint p auth) ∅ (stCheckpoints state) = true <->
    NoDup (xcName <$> stCheckpoints state) /\ Forall (pointOk names) (stCheckpoints state)) as E5.
  { rewrite unseen_empty, (Forall_bool _ (pointOk names)); [done|]. intros p.
    by apply validStateCheckpoint_spec. }
  destruct (unseen _ _ _ _) eqn:E6; simpl.
  - destruct (proj1 E5 eq_refl) as [H1 H2]. split; [|done]. intros _. by split.
  - split; [done|]. intros []. assert (false = true); [|done]. apply E5. done.
Qed.

(** ** Export *)

Lemma rpPairs (m : gmap string Z) : rpInterface <$> sortedRadioTxPowers m = sortedKeys m.
Proof. by apply exportPairs_keys. Qed.

Lemma bank_export names name c : NoDup names -> bankOk names c -> pointOk names (exportCheckpoint name c).
Proof.
  intros Hnd []. split; simpl; rewrite ?exportConfiguration_id; try done;
    try (by apply filedAll_export).
  rewrite rpPairs. split_and!; [|apply sortedKeys_NoDup|exact (sortedKeys_sorted (ckRadioTxPower c))].
  apply Forall_forall. intros q (x & d & Hd & ->)%elem_of_exportPairs. simpl. by apply bk_radio.
Qed.

Lemma bank_import names p : pointOk names p -> bankOk names (importCheckpoint p).
Proof.
  intros []. split; simpl; rewrite ?importConfiguration_id; try done;
    try (apply filedAll_import; tauto).
  intros x d Hd. destruct pt_radio0 as (H1 & H2 & _).
  apply importPairs_lookup in Hd as (q & Hq & <- & <-); [|done].
  rewrite Forall_forall in H1. by apply H1.
Qed.

Lemma import_export_radio m : importRadioTxPowers (sortedRadioTxPowers m) = m.
Proof. apply importPairs_exportPairs; [done|]. by intros x d _. Qed.

Lemma import_export_bank names name c : bankOk names c -> importCheckpoint (exportCheckpoint name c) = c.
Proof.
  intros []. unfold importCheckpoint, exportCheckpoint. simpl.
  rewrite importConfiguration_id, exportConfiguration_id, import_export_radio.
  unfold importInterfaceFaults, importAddressFaults, importPrefixFaults, importDeviceFaults,
    importStations, sortedInterfaceFaults, sortedAddressFaults, sortedPrefixFaults,
    sortedDeviceFaults, sortedStations.
  rewrite !importBy_sortedValues by (by eapply filedAll_filed). by destruct c.
Qed.

Lemma import_export_actions m : importConsumedActions (exportConsumedActions m) = m.
Proof. apply importPairs_exportPairs; [done|]. by intros x d _. Qed.

Lemma exportConsumedActions_length m : length (exportConsumedActions m) = size m.
Proof. unfold exportConsumedActions, exportPairs. by rewrite length_fmap, sortedKeys_length. Qed.

Lemma export_typed names s : durable names s -> typedState (ExportState s).
Proof.
  intros [? ? ? ? ? Ha Hp ? ? ? [] ?]. split; simpl; rewrite ?cloneEvents_id.
  - lia.
  - apply Ha.
  - apply Forall_forall. intros p (x & c & Hc & ->)%elem_of_exportPairs. simpl. by apply (Hp x c).
  - eapply Forall_impl; [exact lg_range|]. simpl. lia.
Qed.

Lemma export_recordOk names s : durable names s -> recordOk names (ExportState s).
Proof.
  intros Hd. pose proof (export_typed _ _ Hd).
  destruct Hd as [Hnd ? Hst Hb Hc Ha Hp Hact Hh He Hl ?]. split; simpl.
  - by rewrite cloneEvents_id.
  - split; simpl; rewrite ?import_export_actions, ?exportConsumedActions_length, ?cloneEvents_id; try done.
    + by apply (bk_telemetry _ _ Hb).
    + unfold exportConsumedActions. rewrite exportPairs_keys by done. apply sortedKeys_NoDup.
    + apply Forall_forall. intros a (x & k & Hk & ->)%elem_of_exportPairs. by apply (Hact x k).
    + apply Forall_forall. intros p (x & c & Hx & ->)%elem_of_exportPairs. by apply (Hp x c).
  - by rewrite exportConfiguration_id.
  - by apply (bank_export names "" (bank s)).
  - unfold exportCheckpoints. rewrite exportPairs_keys by done. apply sortedKeys_NoDup.
  - apply Forall_forall. intros p (x & c & Hx & ->)%elem_of_exportPairs.
    apply bank_export; [done|]. by apply (Hc x c).
Qed.

(** ** Restore *)

(** The store [RestoreState] builds before it notifies. *)
Definition restoreFields (state : State) (s : Store) : Store :=
  s <| running := stRunning state |> <| startup := stStartup state |>
    <| faults := importInterfaceFaults (stInterfaceFaults state) |>
    <| addressFaults := importAddressFaults (stAddressFaults state) |>
    <| prefixFaults := importPrefixFaults (stPrefixFaults state) |>
    <| deviceFaults := importDeviceFaults (stDeviceFaults state) |>
    <| stations := importStations (stStations state) |>
    <| radioTxPower := importRadioTxPowers (stRadioTxPowers state) |>
    <| telemetry := stTelemetry state |>
    <| consumedActions := importConsumedActions (stConsumedActions state) |>
    <| checkpoints := importCheckpoints (stCheckpoints state) |>
    <| events := stEvents state |> <| version := stVersion state |>.

Lemma RestoreState_ok state s :
  validateState state (nwInterfaces (cfNetwork (authored s))) = None ->
  exists tk it ef, RestoreState state s =
    (restoreFields state s <| ticks := tk |> <| interfaceTransitions := it |> <| effects := ef |>, None).
Proof.
  intros Hv. unfold RestoreState. rewrite Hv, !importConfiguration_id, cloneEvents_id.
  match goal with |- context [updateInterfaceTransitions ?x] =>
    destruct (updateInterfaceTransitions_shape x) as (tk & it & E) end.
  rewrite E. simpl. destruct (changeObserver s); by exists tk, it; eexists.
Qed.

Lemma RestoreState_refused state s err :
  validateState state (nwInterfaces (cfNetwork (authored s))) = Some err ->
  RestoreState state s = (s, Some err).
Proof. intros Hv. unfold RestoreState. by rewrite Hv. Qed.

Lemma durable_restore names state s :
  durable names s -> recordOk names state -> durable names (restoreFields state s).
Proof.
  intros [Hnd Hau _ _ _ _ _ _ _ _ _ Hck] [Hl [] Hst Hcur Hpn Hpts].
  pose proof (bank_import _ _ Hcur) as Hb. destruct Hb. simpl in *.
  rewrite importConfiguration_id in *.
  assert (forall x c, importCheckpoints (stCheckpoints state) !! x = Some c ->
    exists p, p ∈ stCheckpoints state /\ importCheckpoint p = c) as Hpoint.
  { intros x c Hc. apply importPairs_lookup in Hc as (p & Hp & _ & <-); [|done]. by exists p. }
  rewrite Forall_forall in Hpts, ao_points.
  assert (Z.of_nat (size (importConsumedActions (stConsumedActions state))) =
          Z.of_nat (length (stConsumedActions state))) as Hsize.
  { f_equal. unfold importConsumedActions.
    rewrite <- (sortedKeys_length (importPairs caID caType (stConsumedActions state))).
    rewrite <- (length_fmap caID (stConsumedActions state)).
    apply Permutation_length, NoDup_Permutation; [apply sortedKeys_NoDup|done|].
    intros x. rewrite elem_of_sortedKeys, list_elem_of_fmap. split.
    - intros [k Hk]. apply importPairs_lookup in Hk as (a & Ha & <- & _); [|done]. by exists a.
    - intros (a & -> & Ha). exists (caType a). apply importPairs_lookup; [done|]. by exists a. }
  split; try done; simpl.
  - intros x c Hc. apply Hpoint in Hc as (p & Hp & <-). apply bank_import. by apply Hpts.
  - intros x c Hc. apply Hpoint in Hc as (p & Hp & <-). simpl. by apply ao_points.
  - intros x k Hk. apply importPairs_lookup in Hk as (a & Ha & <- & <-); [|done].
    rewrite Forall_forall in ao_ok. by apply ao_ok.
  - by rewrite Hsize.
Qed.

(** Restoring an export writes the exported store's durable fields. *)
Lemma restoreFields_export names s t :
  durable names s ->
  restoreFields (ExportState s) t =
    t <| running := running s |> <| startup := startup s |> <| faults := faults s |>
      <| addressFaults := addressFaults s |> <| prefixFaults := prefixFaults s |>
      <| deviceFaults := deviceFaults s |> <| stations := stations s |>
      <| radioTxPower := radioTxPower s |> <| telemetry := telemetry s |>
      <| consumedActions := consumedActions s |> <| checkpoints := checkpoints s |>
      <| events := events s |> <| version := version s |>.
Proof.
  intros Hd. pose proof (import_export_bank names "" (bank s) (du_bank _ _ Hd)) as Hbank.
  assert (importCheckpoints (exportCheckpoints (checkpoints s)) = checkpoints s) as Hck.
  { apply importPairs_exportPairs; [done|]. intros x c Hc. eapply import_export_bank.
    by apply (du_checkpoints _ _ Hd x c). }
  unfold importCheckpoint, exportCheckpoint in Hbank. simpl in Hbank.
  injection Hbank as E2 E3 E4 E5 E6 E7 E8.
  unfold restoreFields, ExportState.
  cbn [stTelemetry stConsumedActions stRunning stStartup stInterfaceFaults stAddressFaults
    stPrefixFaults stDeviceFaults stStations stRadioTxPowers stCheckpoints stEvents stVersion].
  rewrite !exportConfiguration_id, cloneEvents_id, import_export_actions, Hck,
    E3, E4, E5, E6, E7, E8. done.
Qed.
