(* ===== verification/DevicePreserve.v ===== *)
(** * Device state: every operation keeps the durable invariant *)

From S2P Require Import Prelude.
From S2P Require Import Netip.
From S2P Require Import DeviceTypes.
From S2P Require Import DeviceStore.
From S2P Require Import DeviceOps.
From S2P Require Import DeviceDurable.
From S2P Require Import DeviceFacts.
From S2P Require Import DeviceStep.
From S2P Require Import DeviceInvariant.
From S2P Require Import DeviceValidate.
From S2P Require Import DeviceRestore.

(** What the callers of the store guarantee: the network is installed once, at
    start; a station is placed on one of the device's own radios; a record's
    unsigned fields are in range. *)
Definition opOk (names : list string) (op : Op) : Prop :=
  match op with
  | OpReplaceNetwork _ => False
  | OpInstallStations l => Forall (fun st => snRadio st ∈ names) l
  | OpAssociateStation st => snRadio st ∈ names
  | OpRestoreState state => typedState state
  | _ => True
  end.

Lemma validDeviceTelemetry_spec t :
  validDeviceTelemetry t = true <->
  (dtSTPChangedAt t = zeroTime -> dtSTPChanges t = 0) /\
  (dtRebootedAt t = zeroTime \/ 0 <= dtRebootedAt t) /\
  (dtSTPChangedAt t = zeroTime \/ 0 <= dtSTPChangedAt t).
Proof.
  unfold validDeviceTelemetry, IsZero. simpl.
  destruct ((dtSTPChangedAt t =? zeroTime) && negb (dtSTPChanges t =? 0)) eqn:E; [lia|].
  rewrite !andb_true_iff, !orb_true_iff. lia.
Qed.

Section preserve.
Context (names : list string) (s : Store).
Hypothesis Hd : durable names s.
Hypothesis Hr : version s + 1 + Z.of_nat (length names) < MaxUint64.

Let Hr1 : version s + 1 < MaxUint64.
Proof. lia. Qed.

Lemma keep_commit t k tg :
  durable names t -> version t = version s -> plainKind k -> durable names (commit k tg t).
Proof. intros Ht Hv Hk. apply durable_commit; [done|lia|done]. Qed.

Lemma keep_carrier t prev k tg :
  durable names t -> version t = version s -> plainKind k ->
  durable names (recordCarrierTransitions prev (commit k tg t)).
Proof. intros Ht Hv Hk. apply durable_commit_carrier; [done|lia|done]. Qed.

Lemma keep_SetInterfaceFault n t v : durable names (SetInterfaceFault n t v s).1.
Proof.
  unfold SetInterfaceFault.
  destruct (validFaultType t) eqn:Ht; simpl; [|done].
  destruct ((v <? 0) || (100 <? v)) eqn:Hv; [done|].
  destruct (interfaceExists _ n) eqn:Hn; simpl; [|done].
  pose proof (bk_faults _ _ (du_bank _ _ Hd)) as Hf.
  destruct (v =? 0) eqn:E.
  - destruct (faults s !! (n, t)); [|done].
    apply keep_carrier; [|done|done]. by apply durable_faults, filedAll_delete.
  - case_bool_decide; [done|]. apply keep_carrier; [|done|done].
    apply durable_faults; [done|]. apply (filedAll_insert faultKey _ _ (mkInterfaceFault n t v)); [done|].
    split_and!; simpl; [done|lia|unfold faultRateMax; lia|by eapply durable_interfaceExists].
Qed.

Lemma keep_ClearInterfaceFaults n : durable names (ClearInterfaceFaults n s).1.
Proof.
  unfold ClearInterfaceFaults. destruct (interfaceExists _ n); simpl; [|done].
  destruct (du_bank _ _ Hd) as [_ _ H1 H2 H3 _ _ _].
  assert (durable names (s <| prefixFaults := withoutInterface n (prefixFaults s) |>
    <| addressFaults := withoutInterface n (addressFaults s) |>
    <| faults := withoutInterface n (faults s) |>)) as Hd'.
  { apply durable_faults; [apply durable_addressFaults; [apply durable_prefixFaults; [done|]|]|];
      (eapply filedAll_sub; [done|apply withoutInterface_sub]). }
  destruct (_ || _ || _); [|done]. by apply keep_carrier.
Qed.

Lemma keep_ClearAllFaults : durable names (ClearAllFaults s).
Proof.
  unfold ClearAllFaults. destruct (_ && _ && _); [done|]. apply keep_carrier; [|done|done].
  repeat first [apply durable_prefixFaults | apply durable_addressFaults | apply durable_faults];
    try done; apply filedAll_empty.
Qed.

Lemma keep_SetInterfaceAddressFault f : durable names (SetInterfaceAddressFault f s).1.
Proof.
  unfold SetInterfaceAddressFault. case_bool_decide as Ht; simpl; [|done].
  destruct (ValidFaultAddress _) eqn:Ha; simpl; [|done].
  destruct (interfaceExists _ _) eqn:Hn; simpl; [|done]. case_bool_decide; [done|].
  apply keep_commit; [|done|done]. apply durable_addressFaults; [done|].
  apply (filedAll_insert addressFaultKey); [by apply (bk_addressFaults _ _ (du_bank _ _ Hd))|].
  split_and!; [done|done|by eapply durable_interfaceExists].
Qed.

Lemma keep_SetInterfacePrefixFault f : durable names (SetInterfacePrefixFault f s).1.
Proof.
  unfold SetInterfacePrefixFault. case_bool_decide as Ht; simpl; [|done].
  destruct (list_find _ _) as [[i iface]|] eqn:Hn; [|done].
  destruct (negb _ || _ || _ || _) eqn:E; [done|]. case_bool_decide; [done|].
  apply keep_commit; [|done|done]. apply durable_prefixFaults; [done|].
  apply (filedAll_insert prefixFaultKey); [by apply (bk_prefixFaults _ _ (du_bank _ _ Hd))|].
  apply list_find_Some in Hn as (Hi & Hn & _).
  split_and!; [done|lia|lia|]. rewrite <- Hn, <- (bk_names _ _ (du_bank _ _ Hd)).
  apply list_elem_of_fmap_2. by eapply list_elem_of_lookup_2.
Qed.

Lemma keep_clearing : (forall n k, durable names (ClearInterfaceAddressFault n k s).1) /\
  (forall n k, durable names (ClearInterfacePrefixFault n k s).1) /\
  (forall k, durable names (ClearDeviceFault k s).1) /\ durable names (ClearDeviceFaults s) /\
  (forall n, durable names (RestoreRadioTxPower n s)) /\ (forall m, durable names (RoamStation m s).1).
Proof.
  destruct (du_bank _ _ Hd) as [_ _ _ H2 H3 H4 H5 H6].
  split_and!; intros; unfold ClearInterfaceAddressFault, ClearInterfacePrefixFault,
    ClearDeviceFault, ClearDeviceFaults, RestoreRadioTxPower, RoamStation;
    repeat (case_match; simpl; try done); apply keep_commit; try done.
  - by apply durable_addressFaults, filedAll_delete.
  - by apply durable_prefixFaults, filedAll_delete.
  - by apply durable_deviceFaults, filedAll_delete.
  - apply durable_deviceFaults; [done|apply filedAll_empty].
  - by apply durable_radioTxPower, map_Forall_delete.
  - by apply durable_stations, filedAll_delete.
Qed.

Lemma keep_setDeviceFault f : validDeviceFault f = true -> durable names (setDeviceFault f s).
Proof.
  intros Hf. unfold setDeviceFault. case_bool_decide; [done|]. apply keep_commit; [|done|done].
  apply durable_deviceFaults; [done|].
  apply (filedAll_insert dfType); [by apply (bk_deviceFaults _ _ (du_bank _ _ Hd))|done].
Qed.

Lemma definition_not_duplicate t d :
  deviceFaultDefinition t = Some d -> t <> FaultDuplicateDHCPOffer.
Proof. intros H ->. discriminate H. Qed.

Lemma keep_SetDeviceFault t v : durable names (SetDeviceFault t v s).1.
Proof.
  unfold SetDeviceFault. destruct (deviceFaultDefinition t) as [d|] eqn:E; [|done].
  destruct (_ || _) eqn:Ev; [done|]. destruct (v =? 0) eqn:E0; [apply keep_clearing|].
  simpl. apply keep_setDeviceFault. unfold validDeviceFault. simpl.
  rewrite bool_decide_eq_false_2 by (by eapply definition_not_duplicate). rewrite E. simpl. lia.
Qed.

Lemma keep_SetDeviceAddressFault t a : durable names (SetDeviceAddressFault t a s).1.
Proof.
  unfold SetDeviceAddressFault. case_bool_decide as Ht; simpl; [|done].
  destruct (ValidFaultAddress a) eqn:Ha; simpl; [|done]. apply keep_setDeviceFault.
  unfold validDeviceFault. simpl. by rewrite bool_decide_eq_true_2, Ha.
Qed.

(** Configuration edits that keep the interfaces. *)
Lemma keep_edit k tg c :
  cfgNames c = cfgNames (running s) -> plainKind k ->
  durable names (commit k tg (s <| running := c |>)).
Proof.
  intros Hc Hk. apply keep_commit; [|done|done]. apply durable_running; [done|].
  rewrite Hc. apply (bk_names _ _ (du_bank _ _ Hd)).
Qed.

Lemma keep_UpdateInterface n u : durable names (UpdateInterface n u s).1.
Proof.
  unfold UpdateInterface, readInterface.
  destruct (list_find _ _) as [[i current]|] eqn:E; simpl; [|done].
  apply list_find_Some in E as (Hi & _ & _). rewrite cloneInterface_id.
  destruct (u current) as [next|]; [|done]. case_bool_decide as Hn; simpl; [|done].
  rewrite Z.eqb_refl. simpl. rewrite cloneInterface_id.
  apply durable_interface, durable_bump; [|done]. apply durable_running; [done|].
  rewrite <- (bk_names _ _ (du_bank _ _ Hd)).
  unfold cfgNames. simpl. destruct (_ || _ || _); simpl; by eapply names_insert.
Qed.

Lemma keep_action k id : durable names (ExecuteDeviceAction k id s).1.1.
Proof.
  unfold ExecuteDeviceAction.
  destruct (negb (validDeviceAction k) || _ || _) eqn:E; [done|].
  destruct (consumedActions s !! id) as [was|] eqn:Hid; [by destruct (bool_decide (was = k))|].
  destruct (Z.leb_spec maxConsumedDeviceActions (Z.of_nat (size (consumedActions s)))) as [|Hsz]; [done|].
  apply orb_false_iff in E as [E E3]. apply orb_false_iff in E as [E1 E2].
  apply negb_false_iff in E1. apply bool_decide_eq_false_1 in E2.
  set (t0 := now s (ticks s)). unfold readNow. fold t0.
  assert (forall eff kind, validDeviceTelemetry eff = true ->
    accounted (<[id := k]> (consumedActions s)) eff ->
    eventAccounted (<[id := k]> (consumedActions s))
      (mkEvent (uint64 (version s + 1)) kind id None None 0 t0) ->
    durable names (signalChange (appendEvent (mkEvent (uint64 (version s + 1)) kind id None None 0 t0)
      (bumpVersion (s <| ticks := S (ticks s) |> <| telemetry := eff |>
         <| consumedActions := <[id := k]> (consumedActions s) |>))))) as Hgo.
  { intros eff kind Heff Hacc Hev. rewrite appendEvent_push.
    match goal with |- context [signalChange ?x] => destruct (signalChange_shape x) as (tk & it & ef & ->) end.
    pose proof (durable_version _ _ Hd).
    assert (durable names (s <| telemetry := eff |>
      <| consumedActions := <[id := k]> (consumedActions s) |>)) as Hd'.
    { destruct Hd as [? ? ? [] ? ? Hpts Hacts ? Hevs ? ?]. split; try done; simpl.
      - intros x c Hc. apply accounted_insert; [done|]. by apply (Hpts x c).
      - apply map_Forall_insert_2; [|done]. split_and!; [done|lia|done].
      - rewrite map_size_insert_None by done. lia.
      - eapply Forall_impl; [exact Hevs|]. intros e. by apply eventAccounted_insert. }
    assert (uint64 (version s + 1) = version s + 1) as Hu by (apply uint64_id; unfold MaxUint64 in *; lia).
    refine (durable_push names _ (mkEvent (uint64 (version s + 1)) kind id None None 0 t0)
      (uint64 (version s + 1)) tk it true ef Hd' _ eq_refl Hev). simpl. lia. }
  assert (actionCount (consumedActions s) ActionSTPTopologyChange <= 100000) as Hcnt
    by (pose proof (actionCount_size (consumedActions s) ActionSTPTopologyChange);
        unfold maxConsumedDeviceActions in *; lia).
  destruct (du_accounted _ _ Hd) as (A1 & A2 & A3).
  pose proof (bk_telemetry _ _ (du_bank _ _ Hd)) as Htel. simpl in Htel.
  assert (0 <= t0) as Ht0 by apply (du_clock _ _ Hd).
  apply validDeviceTelemetry_spec in Htel.
  unfold validDeviceAction in E1. apply orb_true_iff in E1.
  destruct (decide (k = ActionReboot)) as [->|Hk].
  - rewrite bool_decide_eq_true_2 by done. simpl. apply Hgo.
    + apply validDeviceTelemetry_spec. simpl. unfold zeroTime in *. lia.
    + unfold accounted. simpl. rewrite !actionCount_insert by done. simpl.
      split_and!; [right; unfold actionCount; lia| |lia|lia].
      destruct A2; [by left|right; lia].
    + split; simpl; [intros _; by rewrite lookup_insert_eq|done].
  - rewrite bool_decide_eq_false_2 by done.
    destruct E1 as [E1|E1]; apply bool_decide_eq_true_1 in E1 as ->; [done|]. simpl.
    rewrite uint32_id by lia. apply Hgo.
    + apply validDeviceTelemetry_spec. simpl. unfold zeroTime in *. lia.
    + unfold accounted. simpl. rewrite !actionCount_insert by done. simpl.
      split_and!; [|right; unfold actionCount; lia|lia|lia].
      destruct A1; [by left|right; lia].
    + split; simpl; [done|intros _; by rewrite lookup_insert_eq].
Qed.
End preserve.

(** ** One operation, and any number of them *)

Lemma exec_durable names op s :
  durable names s -> room s -> opOk names op -> durable names (exec op s).1.
Proof.
  intros Hd Hroom Hop. pose proof (durable_room _ _ Hd Hroom) as Hr.
  destruct (keep_clearing _ _ Hd Hr) as (Hc1 & Hc2 & Hc3 & Hc4 & Hc5 & Hc6).
  destruct op; simpl in *; auto using keep_SetInterfaceFault, keep_ClearInterfaceFaults,
    keep_ClearAllFaults, keep_SetInterfaceAddressFault, keep_SetInterfacePrefixFault,
    keep_SetDeviceFault, keep_SetDeviceAddressFault, keep_UpdateInterface.
  - unfold UpdateIdentity, commitIdentity, readIdentity. simpl.
    destruct (update _); [|done]. rewrite Z.eqb_refl. simpl. by apply keep_edit.
  - unfold EnsureVLAN. destruct (existsb _ _); [done|]. by apply keep_edit.
  - unfold UpdateVLAN, readVLAN. destruct (list_find _ _) as [[i v]|]; simpl; [|done].
    rewrite Z.eqb_refl. simpl. by apply keep_edit.
  - unfold EnsureRouter. destruct (existsb _ _); [done|]. by apply keep_edit.
  - unfold AddRouterNetwork. destruct (list_find _ _) as [[i r]|]; [|done].
    case_bool_decide; [done|]. by apply keep_edit.
  - unfold UpsertRoute. by apply keep_edit.
  - unfold SaveStartup. rewrite cloneConfiguration_id. eapply keep_commit; [done..| |done|done].
    apply durable_startup; [done|]. apply (bk_names _ _ (du_bank _ _ Hd)).
  - unfold ReloadStartup. apply durable_replaceRunning; [|lia|done].
    apply durable_running; [done|]. apply (du_startup _ _ Hd).
  - unfold ResetAuthored. rewrite cloneConfiguration_id. apply durable_startup.
    + apply durable_replaceRunning; [|lia|done]. apply durable_running; [done|].
      apply (du_authored _ _ Hd).
    + unfold replaceRunning.
      match goal with |- context [recordChangedInterfaceEvents ?l ?x] =>
        destruct (recordChangedInterfaceEvents_recordsFrom l x) as (? & ? & ? & ? & ? & ? & ->) end.
      match goal with |- context [commit ?k ?tg ?x] =>
        destruct (commit_recordsFrom k tg x) as (? & ? & ? & ? & ? & ? & ->) end.
      simpl. apply (du_authored _ _ Hd).
  - unfold EraseStartup. rewrite cloneConfiguration_id. eapply keep_commit; [done..| |done|done].
    apply durable_startup; [done|]. apply (du_authored _ _ Hd).
  - done.
  - unfold SaveCheckpoint. rewrite cloneConfiguration_id. eapply keep_commit; [done..| |done|done].
    by apply durable_checkpoint.
  - unfold RestoreCheckpoint. destruct (checkpoints s !! name) as [saved|] eqn:E; [|done].
    apply durable_replaceRunning; [|simpl; lia|done]. apply durable_restoreBank; [done| |].
    + by apply (du_checkpoints _ _ Hd _ _ E).
    + by apply (du_points _ _ Hd _ _ E).
  - pose proof (keep_action _ _ Hd Hr kind id) as H.
    by destruct (ExecuteDeviceAction kind id s) as [[s' b] err].
  - unfold SetRadioTxPower. destruct (_ || _) eqn:Ed; [done|].
    destruct (interfaceExists _ _) eqn:En; simpl; [|done]. case_bool_decide; [done|].
    eapply keep_commit; [done..| |done|done]. apply durable_radioTxPower; [done|].
    apply map_Forall_insert_2; [|apply (bk_radio _ _ (du_bank _ _ Hd))].
    split; [lia|by apply (durable_interfaceExists names s)].
  - unfold InstallStations. destruct (installLoop ∅ l) as [m|] eqn:E; [|done].
    apply durable_stations; [done|]. eapply installLoop_ok; [|done|done]. apply filedAll_empty.
  - unfold AssociateStation. destruct (canonicalStation station) as [c|] eqn:E; [|done].
    apply canonicalStation_idem in E as [Hcan Hrad].
    destruct (stations s !! snMAC c); [done|]. eapply keep_commit; [done..| |done|done].
    apply durable_stations; [done|].
    apply (filedAll_insert snMAC); [apply (bk_stations _ _ (du_bank _ _ Hd))|].
    split; [done|by rewrite Hrad].
  - pose proof (Hc6 mac) as H. by destruct (RoamStation mac s) as [s' r].
  - destruct (validateState state (nwInterfaces (cfNetwork (authored s)))) as [err|] eqn:E.
    { by rewrite (RestoreState_refused _ _ _ E). }
    destruct (RestoreState_ok _ _ E) as (tk & it & ef & ->). simpl.
    apply (validateState_spec names) in E; [|apply (du_authored _ _ Hd)|done].
    pose proof (durable_restore _ _ _ Hd E) as H. destruct H. by split.
  - unfold SetChangeObserver. destruct observer; unfold emit; auto with device.
  - by apply durable_changeSignal.
  - by apply durable_changes.
Qed.

Lemma run_durable names ops s :
  durable names s -> roomy ops s -> Forall (opOk names) ops -> durable names (run ops s).
Proof.
  revert s. induction ops as [|op ops IH]; intros s Hd Hr Hops; [done|].
  apply Forall_cons in Hops as [Hop Hops]. destruct Hr as [Hr Hrs].
  apply IH; [by apply exec_durable|done|done].
Qed.

(** A freshly compiled device is durable. *)
Lemma installed_durable identity clock network :
  NoDup (ifName <$> nwInterfaces network) -> (forall n, 0 <= clock n) ->
  durable (ifName <$> nwInterfaces network) (ReplaceNetwork network (NewStore identity clock)).
Proof.
  intros Hnd Hclk. unfold ReplaceNetwork. rewrite !cloneNetwork_id.
  set (names := ifName <$> nwInterfaces network).
  set (net := network <| nwInterfaces := _ |>).
  assert (ifName <$> nwInterfaces net = names) as Hn.
  { simpl. rewrite <- list_fmap_compose. apply list_fmap_ext. intros i x _. simpl. by destruct (ifOperUp x). }
  apply durable_commit; [|by vm_compute|done].
  split; simpl; try done; try (by apply map_Forall_empty).
  all: try (by split; simpl; try done; try (by apply filedAll_empty); apply map_Forall_empty).
  - split_and!; [by left|by left|done|]. unfold actionCount. simpl. lia.
  - split; [done|vm_compute; lia|constructor|constructor].
Qed.
