(* ===== verification/DeviceTheorems.v ===== *)
(** * Device state: what the store promises

    Durability, checkpoints, one-shot actions, faults and errors, over
    arbitrary histories of operations. *)

From S2P Require Import Prelude.
From S2P Require Import Netip.
From S2P Require Import DeviceTypes.
From S2P Require Import DeviceStore.
From S2P Require Import DeviceOps.
From S2P Require Import DeviceDurable.
From S2P Require Import DeviceFacts.
From S2P Require Import DeviceStep.
From S2P Require Import DeviceInvariant.
From S2P Require Import DeviceValidate.
From S2P Require Import DeviceRestore.
From S2P Require Import DevicePreserve.
From S2P Require Import DeviceLog.

(** ** What operations leave in place *)

#[local] Opaque commit recordCarrierTransitions recordInterfaceEvent recordChangedInterfaceEvents
  appendEvent signalChange.

(** Unfold an operation down to its ways out. *)
Ltac open_op := unfold exec, SetInterfaceFault, ClearInterfaceFaults, ClearAllFaults,
    SetInterfaceAddressFault, ClearInterfaceAddressFault, SetInterfacePrefixFault,
    ClearInterfacePrefixFault, SetDeviceFault, ClearDeviceFault, SetDeviceAddressFault,
    setDeviceFault, ClearDeviceFaults, UpdateIdentity, commitIdentity, UpdateInterface,
    readInterface, commitInterface, EnsureVLAN, UpdateVLAN, readVLAN, commitVLAN, EnsureRouter,
    AddRouterNetwork, UpsertRoute, SaveStartup, ReloadStartup, ResetAuthored, EraseStartup,
    ReplaceNetwork, SaveCheckpoint, RestoreCheckpoint, replaceRunning, ExecuteDeviceAction, readNow,
    SetRadioTxPower, RestoreRadioTxPower, InstallStations,
    AssociateStation, RoamStation, SetChangeObserver, SetChangeSignal, receiveChange, emit.

Definition keepsPoint (name : string) (op : Op) : bool :=
  match op with
  | OpSaveCheckpoint n => negb (bool_decide (n = name))
  | OpRestoreState _ => false
  | _ => true
  end.

Lemma exec_checkpoint name op s :
  keepsPoint name op = true -> checkpoints (exec op s).1 !! name = checkpoints s !! name.
Proof.
  intros Hk. destruct op; try discriminate Hk.
  all: try (open_op; split_guards; through_records sd_checkpoints; done).
  simpl in *. apply negb_true_iff, bool_decide_eq_false_1 in Hk.
  unfold SaveCheckpoint. through_records sd_checkpoints. by rewrite lookup_insert_ne.
Qed.

Lemma run_checkpoint name ops s :
  forallb (keepsPoint name) ops = true -> checkpoints (run ops s) !! name = checkpoints s !! name.
Proof.
  revert s. induction ops as [|op ops IH]; intros s; simpl; [done|].
  intros [H1 H2]%andb_true_iff. by rewrite IH, exec_checkpoint.
Qed.

Lemma exec_consumed op s :
  isRestore op = false -> consumedActions s ⊆ consumedActions (exec op s).1.
Proof.
  intros Hk. destruct op; try discriminate Hk.
  all: try (open_op; split_guards; through_records sd_consumed; done).
  all: open_op; split_guards; through_records sd_consumed; try done; by apply insert_subseteq.
Qed.

Lemma run_consumed ops s :
  forallb (fun op => negb (isRestore op)) ops = true -> consumedActions s ⊆ consumedActions (run ops s).
Proof.
  revert s. induction ops as [|op ops IH]; intros s; simpl; [done|].
  intros [H1 H2]%andb_true_iff. etrans; [|by apply IH]. apply exec_consumed. by destruct (isRestore op).
Qed.

Lemma RestoreCheckpoint_bank name saved s :
  checkpoints s !! name = Some saved ->
  exists s', RestoreCheckpoint name s = (s', None) /\ bank s' = saved /\
    consumedActions s' = consumedActions s.
Proof.
  intros Hs. unfold RestoreCheckpoint. rewrite Hs. eexists. split; [done|].
  unfold replaceRunning, bank. rewrite cloneConfiguration_id. split.
  - through_records sd_telemetry. through_records sd_running. through_records sd_faults.
    through_records sd_addressFaults. through_records sd_prefixFaults. through_records sd_deviceFaults.
    through_records sd_stations. through_records sd_radio. by destruct saved.
  - by through_records sd_consumed.
Qed.

(** ** Durability *)

Section durability.
Context (identity : Identity) (clock : nat -> Time) (network : Network) (ops : list Op).
Let names := ifName <$> nwInterfaces network.
Let installed := ReplaceNetwork network (NewStore identity clock).

Hypothesis Hnames : NoDup names.
Hypothesis Hclock : forall n, 0 <= clock n.
Hypothesis Hops : Forall (opOk names) ops.
Hypothesis Hroom : roomy ops installed.


End durability.

Definition testOps : list Op :=
  [OpSetInterfaceFault "eth0" FaultLinkDown 1; OpSaveCheckpoint "broken";
   OpExecuteDeviceAction ActionReboot "r1"; OpAssociateStation
     (mkStation "00:50:56:AB:01:02" "eth1" (AddrFrom4 10 0 0 9) (-50) 80 0 "")].

Lemma testNames_NoDup : NoDup (ifName <$> nwInterfaces testNetwork).
Proof. by apply (bool_decide_unpack _); vm_compute. Qed.

Lemma testClock_epoch n : 0 <= testClock n.
Proof. unfold testClock. lia. Qed.

Lemma testOps_ok : Forall (opOk (ifName <$> nwInterfaces testNetwork)) testOps.
Proof.
  unfold testOps. rewrite !Forall_cons. split_and!; [exact I..| |by constructor].
  apply list_elem_of_In. right. left. reflexivity.
Qed.

Lemma testOps_roomy : roomy testOps testStore.
Proof. repeat (split; [vm_compute; reflexivity|]). exact I. Qed.



(** The record the witness restores is not an empty one. *)
Example testOps_effect :
  let s := run testOps testStore in
  (ftValue <$> sortedInterfaceFaults (faults s), snMAC <$> sortedStations (stations s),
   CheckpointNames s, length (events s)) =
  ([1], ["00:50:56:ab:01:02"%string], ["broken"%string], 6%nat).
Proof. vm_compute. reflexivity. Qed.

(** ** Checkpoints *)

(** A checkpoint brings the device back: after any operations that leave
    the named checkpoint alone, restoring it gives back the running
    configuration, every fault family, the stations, the radio powers and the
    telemetry exactly as they were when it was saved — while the one-shot
    actions executed since stay consumed. *)
Theorem checkpoint_restores name ops s :
  forallb (keepsPoint name) ops = true ->
  let later := run ops (SaveCheckpoint name s) in
  exists restored, RestoreCheckpoint name later = (restored, None) /\ bank restored = bank s /\
    consumedActions restored = consumedActions later.
Proof.
  intros Hops later.
  assert (checkpoints later !! name = Some (bank s)) as Hs.
  { unfold later. rewrite run_checkpoint by done. unfold SaveCheckpoint.
    rewrite cloneConfiguration_id. through_records sd_checkpoints. apply lookup_insert_eq. }
  by apply RestoreCheckpoint_bank.
Qed.

Lemma checkpoint_restores_witness :
  let later := run [OpSetInterfaceFault "eth0" FaultLinkDown 1; OpSaveCheckpoint "other"]
                 (SaveCheckpoint "healthy" testStore) in
  exists restored, RestoreCheckpoint "healthy" later = (restored, None) /\
    bank restored = bank testStore /\ consumedActions restored = consumedActions later.
Proof. apply (checkpoint_restores "healthy"). reflexivity. Defined.

(** ** One-shot actions *)

(** A one-shot action happens once: when [ExecuteDeviceAction] has
    executed an identity, repeating the call after any operations — restoring
    a checkpoint taken before it included — reports that nothing was done and
    leaves the store as it is, and reusing the identity for another action is
    refused. *)
Theorem action_at_most_once kind id s s1 ops :
  ExecuteDeviceAction kind id s = (s1, true, None) ->
  forallb (fun op => negb (isRestore op)) ops = true ->
  ExecuteDeviceAction kind id (run ops s1) = (run ops s1, false, None) /\
  forall kind', validDeviceAction kind' = true -> kind' <> kind ->
    ExecuteDeviceAction kind' id (run ops s1) = (run ops s1, false, Some ErrDeviceActionConflict).
Proof.
  intros Hx Hops. unfold ExecuteDeviceAction in Hx at 1.
  destruct (negb (validDeviceAction kind) || _ || _) eqn:E; [done|].
  destruct (consumedActions s !! id) as [was|] eqn:Hid; [by repeat case_match|].
  destruct (_ <=? _); [done|].
  assert (consumedActions s1 !! id = Some kind) as H1.
  { unfold readNow in Hx. destruct (if bool_decide (kind = ActionReboot) then _ else _) as [eff ek].
    injection Hx as <-. through_records sd_consumed. apply lookup_insert_eq. }
  eapply lookup_weaken in H1; [|by apply (run_consumed ops)].
  apply orb_false_iff in E as [E E3]. apply orb_false_iff in E as [E1 E2].
  split.
  - unfold ExecuteDeviceAction. rewrite E1, E2, E3. simpl. rewrite H1.
    by rewrite bool_decide_eq_true_2.
  - intros kind' Hv Hne. unfold ExecuteDeviceAction. rewrite Hv, E2, E3. simpl. rewrite H1.
    by rewrite bool_decide_eq_false_2 by congruence.
Qed.

Lemma action_at_most_once_witness :
  exists s1, ExecuteDeviceAction ActionReboot "0:0:0:0" testStore = (s1, true, None) /\
    (ExecuteDeviceAction ActionReboot "0:0:0:0" (run [OpReloadStartup] s1) =
       (run [OpReloadStartup] s1, false, None) /\
     forall kind', validDeviceAction kind' = true -> kind' <> ActionReboot ->
       ExecuteDeviceAction kind' "0:0:0:0" (run [OpReloadStartup] s1) =
         (run [OpReloadStartup] s1, false, Some ErrDeviceActionConflict)).
Proof.
  eexists. split; [reflexivity|].
  apply (action_at_most_once _ _ testStore _ [OpReloadStartup]); reflexivity.
Defined.

(** ** Errors *)

(** C3.  A refused operation changes nothing: whatever the operation and
    whatever the store, an error leaves the store exactly as it was, down to
    its version, log and clock. *)
Theorem errors_change_nothing op s err :
  (exec op s).2 = Some err -> (exec op s).1 = s.
Proof.
  destruct op; try (open_op; split_guards; done).
  simpl. destruct (validateState state (nwInterfaces (cfNetwork (authored s)))) eqn:E.
  - by rewrite (RestoreState_refused _ _ _ E).
  - destruct (RestoreState_ok _ _ E) as (tk & it & ef & ->). done.
Qed.

Lemma errors_change_nothing_witness :
  (exec (OpSetInterfaceFault "eth9" FaultLinkDown 1) testStore).2 = Some ErrInterfaceNotFound /\
  (exec (OpSetInterfaceFault "eth9" FaultLinkDown 1) testStore).1 = testStore.
Proof.
  split; [reflexivity|]. apply (errors_change_nothing _ _ ErrInterfaceNotFound). reflexivity.
Defined.
