(* ===== verification/Schedule.v ===== *)
(** * Behavior timelines: compilation

    Authored timelines ([config/behavior_types.go]) and the schedule they
    compile to ([behavior/schedule.go], [schedule_interface_address.go],
    [schedule_prefix.go]).  A [time.Duration] is an [int64] of nanoseconds and
    its arithmetic wraps.

    Identities, the entries of a schedule, and how grouping cuts the sorted
    entries into transitions. *)

From Stdlib Require Import Ascii.
From S2P Require Import Prelude.
From S2P Require Import Netip.
From S2P Require Import DeviceTypes.

(** ** Authored timelines *)

Abbreviation Duration := Z.

Definition RoamCause : Type := string.
Definition RoamCauseRadioDown : RoamCause := "radio_down".
Definition RoamCauseTxPowerDrop : RoamCause := "tx_power_drop".

Record BehaviorTraffic := mkBehaviorTraffic {
  btDevice : string; btInterface : string; btUtilization : Z
}.

Record BehaviorFault := mkBehaviorFault {
  bfDevice : string; bfInterface : string; bfType : string; bfValue : Z; bfAddress : Addr;
  bfPrefixBits : Z
}.

Record BehaviorAction := mkBehaviorAction { baDevice : string; baType : DeviceActionType }.

Record BehaviorRoam := mkBehaviorRoam {
  brStation : string; brFrom : string; brTo : string; brCause : RoamCause; brTxPowerDBM : Z
}.

Record BehaviorPhase := mkBehaviorPhase {
  phName : string;
  phStartOffset : Duration;
  phDuration : Duration;
  phReset : bool;
  phTraffic : list BehaviorTraffic;
  phFaults : list BehaviorFault;
  phActions : list BehaviorAction;
  phRoams : list BehaviorRoam
}.

Record BehaviorTimeline := mkBehaviorTimeline {
  tlName : string;
  tlStartOffset : Duration;
  tlRepeatCount : Z;
  tlPhases : list BehaviorPhase
}.

(** ** Compiled actions *)

Record Action := mkAction { acDevice : string; acInterface : string; acType : FaultType; acValue : Z }.

Record DeviceAction := mkDeviceAction {
  daDevice : string; daType : DeviceFaultType; daValue : Z; daAddress : Addr; daClear : bool
}.

Record OneShotAction := mkOneShotAction { osDevice : string; osType : DeviceActionType; osID : string }.

Record RoamAction := mkRoamAction {
  raStation : string; raFrom : string; raTo : string; raCause : RoamCause; raTxPowerDBM : Z;
  raReturn : bool
}.

Record InterfaceAddressAction := mkInterfaceAddressAction {
  iaDevice : string; iaFault : InterfaceAddressFault; iaClear : bool
}.

Record InterfacePrefixAction := mkInterfacePrefixAction {
  ipDevice : string; ipFault : InterfacePrefixFault; ipClear : bool
}.

Record PhaseRef := mkPhaseRef { prID : string; prLabel : string }.

Record Transition := mkTransition {
  tOffset : Duration;
  tStartPhases : list PhaseRef;
  tEndPhases : list PhaseRef;
  tActions : list Action;
  tDeviceActions : list DeviceAction;
  tAddressActions : list InterfaceAddressAction;
  tPrefixActions : list InterfacePrefixAction;
  tOneShotActions : list OneShotAction;
  tRoamActions : list RoamAction
}.

Record scheduledTransition := mkScheduled {
  scOffset : Duration;
  scPhase : PhaseRef;
  scEnd : bool;
  scActions : list Action;
  scDeviceActions : list DeviceAction;
  scAddressActions : list InterfaceAddressAction;
  scPrefixActions : list InterfacePrefixAction;
  scOneShotActions : list OneShotAction;
  scRoamActions : list RoamAction
}.

(** ** One phase *)

Definition behaviorCycleDuration (phases : list BehaviorPhase) : Duration :=
  foldl (fun duration phase => Z.max duration (int64 (phStartOffset phase + phDuration phase)))
    0 phases.

(** An authored fault is an address fault, a mask fault, a device fault (no
    interface) or an interface fault. *)
Definition outcomeFault (fault : BehaviorFault) : bool :=
  bool_decide (bfType fault = FaultDuplicateIP) || bool_decide (bfType fault = FaultBadMask).

Definition interfaceFaultAction (fault : BehaviorFault) : option Action :=
  if outcomeFault fault then None
  else if bool_decide (bfInterface fault = ""%string) then None
  else Some (mkAction (bfDevice fault) (bfInterface fault) (bfType fault) (bfValue fault)).

Definition deviceFaultAction (fault : BehaviorFault) : option DeviceAction :=
  if outcomeFault fault then None
  else if bool_decide (bfInterface fault = ""%string)
  then Some (mkDeviceAction (bfDevice fault) (bfType fault) (bfValue fault) (bfAddress fault) false)
  else None.

Definition trafficAction (traffic : BehaviorTraffic) : Action :=
  mkAction (btDevice traffic) (btInterface traffic) FaultUtilization (btUtilization traffic).

Definition behaviorActions (phase : BehaviorPhase) : list Action * list DeviceAction :=
  (map trafficAction (phTraffic phase) ++ omap interfaceFaultAction (phFaults phase),
   omap deviceFaultAction (phFaults phase)).

Definition resetActions (actions : list Action) : list Action :=
  map (fun a => mkAction (acDevice a) (acInterface a) (acType a) 0) actions.

Definition resetDeviceActions (actions : list DeviceAction) : list DeviceAction :=
  map (fun a => mkDeviceAction (daDevice a) (daType a) 0 AddrZero true) actions.

Definition interfaceAddressActions (phase : BehaviorPhase) (clearFault : bool)
    : list InterfaceAddressAction :=
  omap (fun fault =>
    if negb (bool_decide (bfType fault = FaultDuplicateIP)) then None
    else Some (mkInterfaceAddressAction (bfDevice fault)
      (mkInterfaceAddressFault (bfInterface fault) FaultDuplicateIP
        (if clearFault then AddrZero else bfAddress fault)) clearFault)) (phFaults phase).

Definition interfacePrefixActions (phase : BehaviorPhase) (clearFault : bool)
    : list InterfacePrefixAction :=
  omap (fun fault =>
    if negb (bool_decide (bfType fault = FaultBadMask)) then None
    else Some (mkInterfacePrefixAction (bfDevice fault)
      (mkInterfacePrefixFault (bfInterface fault) FaultBadMask (bfPrefixBits fault)) clearFault))
    (phFaults phase).

(** [fmt.Sprintf("%s:%d", phaseID, index)] *)
Definition oneShotID (phaseID : string) (index : nat) : string :=
  (phaseID +:+ ":" +:+ pretty index)%string.

Definition compileOneShotActions (actions : list BehaviorAction) (phaseID : string)
    : list OneShotAction :=
  imap (fun index action => mkOneShotAction (baDevice action) (baType action) (oneShotID phaseID index))
    actions.

Definition roamActions (roams : list BehaviorRoam) (reset : bool) : list RoamAction :=
  map (fun roam =>
    if reset
    then mkRoamAction (brStation roam) (brTo roam) (brFrom roam) (brCause roam) (brTxPowerDBM roam) true
    else mkRoamAction (brStation roam) (brFrom roam) (brTo roam) (brCause roam) (brTxPowerDBM roam) false)
    roams.

(** ** The schedule *)

(** [fmt.Sprintf("%d:%d:%d", timelineIndex, repetition, phaseIndex)] *)
Definition phaseID (timelineIndex repetition phaseIndex : nat) : string :=
  (pretty timelineIndex +:+ ":" +:+ pretty repetition +:+ ":" +:+ pretty phaseIndex)%string.

Definition phaseRef (timelineIndex repetition : nat) (timeline : BehaviorTimeline)
    (phaseIndex : nat) (phase : BehaviorPhase) : PhaseRef :=
  mkPhaseRef (phaseID timelineIndex repetition phaseIndex)
    (tlName timeline +:+ ": " +:+ phName phase)%string.

Definition phaseStart (ref : PhaseRef) (cycleStart : Duration) (phase : BehaviorPhase)
    : scheduledTransition :=
  let '(actions, deviceActions) := behaviorActions phase in
  mkScheduled (int64 (cycleStart + phStartOffset phase)) ref false actions deviceActions
    (interfaceAddressActions phase false) (interfacePrefixActions phase false)
    (compileOneShotActions (phActions phase) (prID ref)) (roamActions (phRoams phase) false).

Definition phaseEnd (ref : PhaseRef) (cycleStart : Duration) (phase : BehaviorPhase)
    : scheduledTransition :=
  let '(actions, deviceActions) := behaviorActions phase in
  let offset := int64 (int64 (cycleStart + phStartOffset phase) + phDuration phase) in
  if phReset phase
  then mkScheduled offset ref true (resetActions actions) (resetDeviceActions deviceActions)
         (interfaceAddressActions phase true) (interfacePrefixActions phase true) []
         (roamActions (phRoams phase) true)
  else mkScheduled offset ref true [] [] [] [] [] [].

Definition cycleStart (timeline : BehaviorTimeline) (repetition : nat) : Duration :=
  int64 (tlStartOffset timeline +
         int64 (Z.of_nat repetition * behaviorCycleDuration (tlPhases timeline))).

Definition compilePhase (timelineIndex : nat) (timeline : BehaviorTimeline) (repetition : nat)
    (phaseIndex : nat) (phase : BehaviorPhase) : list scheduledTransition :=
  let ref := phaseRef timelineIndex repetition timeline phaseIndex phase in
  let start := cycleStart timeline repetition in
  [phaseStart ref start phase; phaseEnd ref start phase].

Definition compileTimeline (timelineIndex : nat) (timeline : BehaviorTimeline)
    : list scheduledTransition :=
  concat (map (fun repetition =>
    concat (imap (compilePhase timelineIndex timeline repetition) (tlPhases timeline)))
    (seq 0 (Z.to_nat (tlRepeatCount timeline)))).

Definition scheduledTransitions (timelines : list BehaviorTimeline) : list scheduledTransition :=
  concat (imap compileTimeline timelines).

(** Offsets first; at one offset, ends come before starts. *)
Definition scheduleKey (s : scheduledTransition) : Z * Z :=
  (scOffset s, if scEnd s then 0 else 1).

Definition emptyTransition (offset : Duration) : Transition :=
  mkTransition offset [] [] [] [] [] [] [] [].

Definition addScheduled (t : Transition) (current : scheduledTransition) : Transition :=
  mkTransition (tOffset t)
    (if scEnd current then tStartPhases t else tStartPhases t ++ [scPhase current])
    (if scEnd current then tEndPhases t ++ [scPhase current] else tEndPhases t)
    (tActions t ++ scActions current)
    (tDeviceActions t ++ scDeviceActions current)
    (tAddressActions t ++ scAddressActions current)
    (tPrefixActions t ++ scPrefixActions current)
    (tOneShotActions t ++ scOneShotActions current)
    (tRoamActions t ++ scRoamActions current).

(** [result] is kept last first. *)
Fixpoint groupLoop (result : list Transition) (scheduled : list scheduledTransition)
    : list Transition :=
  match scheduled with
  | [] => result
  | current :: rest =>
      match result with
      | t :: earlier =>
          if tOffset t =? scOffset current
          then groupLoop (addScheduled t current :: earlier) rest
          else groupLoop (addScheduled (emptyTransition (scOffset current)) current :: result) rest
      | [] => groupLoop [addScheduled (emptyTransition (scOffset current)) current] rest
      end
  end.

Definition groupTransitions (scheduled : list scheduledTransition) : list Transition :=
  reverse (groupLoop [] scheduled).

Definition Compile (timelines : list BehaviorTimeline) : list Transition :=
  groupTransitions (stableSortBy scheduleKey (scheduledTransitions timelines)).

(** ** Identities *)

Fixpoint noColon (s : string) : bool :=
  match s with
  | EmptyString => true
  | String c s => negb (Ascii.eqb c ":"%char) && noColon s
  end.

Lemma colon_split s1 s2 r1 r2 :
  noColon s1 = true -> noColon s2 = true ->
  (s1 +:+ ":" +:+ r1 = s2 +:+ ":" +:+ r2)%string -> s1 = s2 /\ r1 = r2.
Proof.
  revert s2. induction s1 as [|c s1 IH]; intros [|d s2] H1 H2 E; simpl in *.
  - by injection E.
  - injection E as <- _. by rewrite Ascii.eqb_refl in H2.
  - injection E as -> _. by rewrite Ascii.eqb_refl in H1.
  - apply andb_true_iff in H1 as [_ H1], H2 as [_ H2]. injection E as -> E.
    by destruct (IH _ H1 H2 E) as [-> ->].
Qed.

Lemma digit_noColon n : negb (Ascii.eqb (pretty_N_char n) ":"%char) = true.
Proof. unfold pretty_N_char. by repeat case_match. Qed.

Lemma pretty_noColon (n : nat) : noColon (pretty n) = true.
Proof.
  unfold pretty, pretty_nat, pretty, pretty_N. case_decide; [done|].
  generalize (N.of_nat n). intros x.
  assert (forall x s, noColon s = true -> noColon (pretty_N_go x s) = true) as Hgo; [|by apply Hgo].
  clear. intros x. induction (N.lt_wf_0 x) as [x _ IH]. intros s Hs.
  destruct (decide (x = 0)%N) as [->|Hx]; [done|].
  rewrite pretty_N_go_step by lia. apply IH; [apply N.div_lt; lia|].
  simpl. by rewrite digit_noColon.
Qed.

Lemma phaseID_inj i r p i' r' p' :
  phaseID i r p = phaseID i' r' p' -> i = i' /\ r = r' /\ p = p'.
Proof.
  unfold phaseID. intros E.
  apply colon_split in E as [E1 E]; [|apply pretty_noColon..].
  apply colon_split in E as [E2 E3]; [|apply pretty_noColon..].
  by apply (inj pretty) in E1, E2, E3.
Qed.

Lemma append_assoc (a b c : string) : ((a +:+ b) +:+ c = a +:+ (b +:+ c))%string.
Proof. induction a as [|x a IH]; [done|]. exact (f_equal (String x) IH). Qed.

Lemma oneShotID_inj i r p n i' r' p' n' :
  oneShotID (phaseID i r p) n = oneShotID (phaseID i' r' p') n' ->
  i = i' /\ r = r' /\ p = p' /\ n = n'.
Proof.
  unfold oneShotID, phaseID. rewrite !append_assoc. intros E.
  apply colon_split in E as [E1 E]; [|apply pretty_noColon..].
  apply colon_split in E as [E2 E]; [|apply pretty_noColon..].
  apply colon_split in E as [E3 E4]; [|apply pretty_noColon..].
  by apply (inj pretty) in E1, E2, E3, E4.
Qed.

Lemma StronglySorted_reverse {A} (R : relation A) (l : list A) :
  StronglySorted R l -> StronglySorted (flip R) (reverse l).
Proof.
  induction l as [|x l IH]; intros Hs; [constructor|].
  apply StronglySorted_cons in Hs as [Hx Hs]. rewrite reverse_cons. apply StronglySorted_app.
  split_and!; [|by apply IH|by repeat constructor].
  intros y z Hy ->%list_elem_of_singleton. rewrite Forall_forall in Hx. apply Hx.
  by apply elem_of_reverse.
Qed.

(** ** Grouping *)

Definition collect (chunk : list scheduledTransition) : Transition :=
  foldl addScheduled (emptyTransition (default 0 (scOffset <$> head chunk))) chunk.

(** A chunk holds the entries of one offset. *)
Definition uniform (chunk : list scheduledTransition) : Prop :=
  exists e chunk', chunk = e :: chunk' /\ Forall (fun e' => scOffset e' = scOffset e) chunk'.

Definition chunkOffset (chunk : list scheduledTransition) : Z :=
  default 0 (scOffset <$> head chunk).

Lemma foldl_addScheduled_offset l t : tOffset (foldl addScheduled t l) = tOffset t.
Proof. revert t. induction l as [|e l IH]; intros t; simpl; [done|]. by rewrite IH. Qed.

Lemma collect_offset chunk : tOffset (collect chunk) = chunkOffset chunk.
Proof. apply foldl_addScheduled_offset. Qed.

Lemma collect_snoc e chunk e' :
  addScheduled (collect (e :: chunk)) e' = collect ((e :: chunk) ++ [e']).
Proof. unfold collect. simpl. by rewrite foldl_app. Qed.

Definition byOffset (x y : scheduledTransition) : Prop := scOffset x <= scOffset y.

(** The chunks read so far, last first. *)
Record cut (chunks : list (list scheduledTransition)) (read : list scheduledTransition) : Prop := {
  cut_concat : concat (reverse chunks) = read;
  cut_uniform : Forall uniform chunks;
  cut_sorted : StronglySorted (fun x y => chunkOffset y < chunkOffset x) chunks
}.

Lemma groupLoop_cut chunks read rest :
  StronglySorted byOffset (read ++ rest) -> cut chunks read ->
  exists chunks', cut chunks' (read ++ rest) /\
    groupLoop (map collect chunks) rest = map collect chunks'.
Proof.
  revert chunks read. induction rest as [|e rest IH]; intros chunks read Hs Hc; simpl.
  { exists chunks. by rewrite app_nil_r. }
  replace (read ++ e :: rest) with ((read ++ [e]) ++ rest) in * by (by rewrite <- app_assoc).
  assert (cut ([e] :: chunks) (read ++ [e]) \/
    exists x xs cs, chunks = (x :: xs) :: cs /\ scOffset e = scOffset x) as Hnew.
  { destruct chunks as [|chunk cs].
    { left. destruct Hc as [<- _ _]. by split; repeat constructor; eexists _, _. }
    destruct Hc as [<- Hu Hsc]. pose proof Hu as Hu'.
    apply Forall_cons in Hu' as [(x & xs & -> & Hxs) _].
    destruct (decide (scOffset e = scOffset x)) as [He|He]; [right; by eexists _, _, _|left].
    rewrite reverse_cons, concat_app in Hs. simpl in Hs. rewrite app_nil_r in Hs.
    assert (scOffset x <= scOffset e) as Hle.
    { apply StronglySorted_app_1_l in Hs.
      apply (StronglySorted_app_1_elem_of _ _ _ x e Hs); set_solver. }
    split.
    - by rewrite reverse_cons, concat_app.
    - apply Forall_cons. split; [|done]. by eexists _, _.
    - apply StronglySorted_cons. split; [|done]. apply StronglySorted_cons in Hsc as [Hsc _].
      constructor; [unfold chunkOffset; simpl; lia|]. eapply Forall_impl; [exact Hsc|].
      cbv beta. intros ch Hch. change (chunkOffset (x :: xs)) with (scOffset x) in Hch.
      change (chunkOffset [e]) with (scOffset e). lia. }
  destruct chunks as [|chunk cs].
  { destruct Hnew as [Hnew|(x & xs & cs & Hn & _)]; [|done].
    destruct (IH _ _ Hs Hnew) as (ch & ? & E). by exists ch. }
  destruct Hc as [Hr Hu Hsc]. pose proof Hu as Hu'.
  apply Forall_cons in Hu' as [(x & xs & -> & Hxs) Hucs].
  simpl. rewrite collect_offset. unfold chunkOffset. simpl.
  destruct (scOffset x =? scOffset e) eqn:Ee.
  - apply Z.eqb_eq in Ee. rewrite collect_snoc.
    apply (IH (((x :: xs) ++ [e]) :: cs)); [done|]. split.
    + rewrite <- Hr, !reverse_cons, !concat_app. simpl. rewrite !app_nil_r.
      by rewrite <- app_assoc.
    + apply Forall_cons. split; [|done]. exists x, (xs ++ [e]). split; [done|].
      apply Forall_app. split; [done|]. by repeat constructor.
    + apply StronglySorted_cons in Hsc as [Hx Hsc]. apply StronglySorted_cons. by split.
  - apply Z.eqb_neq in Ee. destruct Hnew as [Hnew|(x' & xs' & cs' & [= <- <- <-] & He)]; [|congruence].
    by apply (IH ([e] :: (x :: xs) :: cs)).
Qed.

(** The transitions of a sorted schedule are its chunks, in order. *)
Lemma groupTransitions_cut l :
  StronglySorted byOffset l ->
  exists chunks, concat chunks = l /\ Forall uniform chunks /\
    StronglySorted (fun x y => chunkOffset x < chunkOffset y) chunks /\
    groupTransitions l = map collect chunks.
Proof.
  intros Hs. destruct (groupLoop_cut [] [] l Hs) as (chunks & [Hc Hu Hso] & E).
  { by repeat constructor. }
  exists (reverse chunks). split_and!.
  - done.
  - by apply Forall_reverse.
  - by apply StronglySorted_reverse in Hso.
  - unfold groupTransitions. simpl in E. rewrite E. by rewrite <- fmap_reverse.
Qed.

(** ** Entries *)

(** Repetition [r] of phase [p] of timeline [i]. *)
Definition occurrence (timelines : list BehaviorTimeline) (i r p : nat) (tl : BehaviorTimeline)
    (ph : BehaviorPhase) : Prop :=
  timelines !! i = Some tl /\ (r < Z.to_nat (tlRepeatCount tl))%nat /\ tlPhases tl !! p = Some ph.

Lemma elem_of_concat {A} (x : A) (ls : list (list A)) :
  x ∈ concat ls <-> exists l, l ∈ ls /\ x ∈ l.
Proof.
  rewrite list_elem_of_In, in_concat. split; intros (l & H1 & H2); exists l;
    rewrite ?list_elem_of_In in *; auto.
Qed.

Lemma elem_of_scheduled timelines e :
  e ∈ scheduledTransitions timelines <->
  exists i r p tl ph, occurrence timelines i r p tl ph /\ e ∈ compilePhase i tl r p ph.
Proof.
  unfold scheduledTransitions, compileTimeline, occurrence.
  rewrite elem_of_concat. setoid_rewrite elem_of_lookup_imap. split.
  - intros (l & (i & tl & -> & Hi) & He). apply elem_of_concat in He as (l & Hl & He).
    apply list_elem_of_fmap in Hl as (r & -> & Hr). apply elem_of_seq in Hr.
    apply elem_of_concat in He as (l & Hl & He). apply elem_of_lookup_imap in Hl as (p & ph & -> & Hp).
    exists i, r, p, tl, ph. split; [split_and!; [done|lia|done]|done].
  - intros (i & r & p & tl & ph & (Hi & Hr & Hp) & He). eexists. split; [by eexists i, tl|].
    apply elem_of_concat. eexists. split.
    + apply list_elem_of_fmap. exists r. split; [done|]. apply elem_of_seq. lia.
    + apply elem_of_concat. eexists. split; [|exact He]. apply elem_of_lookup_imap. by eexists p, ph.
Qed.

Lemma filter_concat_imap {A B} (P : B -> Prop) `{!forall x, Decision (P x)}
    (f : nat -> A -> list B) (l : list A) i x :
  l !! i = Some x -> (forall j y, l !! j = Some y -> j <> i -> filter P (f j y) = []) ->
  filter P (concat (imap f l)) = filter P (f i x).
Proof.
  revert f i. induction l as [|a l IH]; intros f i Hi Hne; [done|].
  rewrite imap_cons. cbn [concat]. rewrite filter_app. destruct i as [|i].
  - injection Hi as ->. assert (filter P (concat (imap (f ∘ S) l)) = []) as ->; [|apply app_nil_r].
    apply filter_none. apply Forall_forall. intros y Hy.
    apply elem_of_concat in Hy as (l' & Hl' & Hy). apply elem_of_lookup_imap in Hl' as (j & z & -> & Hz).
    pose proof (Hne (S j) z Hz ltac:(done)) as Hnone. intros HP.
    assert (y ∈ filter P (f (S j) z)) as Hin by (by apply list_elem_of_filter). rewrite Hnone in Hin. by apply elem_of_nil in Hin.
  - rewrite (Hne 0%nat a) by done. simpl. apply (IH (f ∘ S)); [done|].
    intros j y Hy Hj. apply (Hne (S j)); [done|lia].
Qed.

Lemma phaseStart_phase ref start ph : scPhase (phaseStart ref start ph) = ref.
Proof. done. Qed.

Lemma phaseEnd_phase ref start ph : scPhase (phaseEnd ref start ph) = ref.
Proof. unfold phaseEnd, behaviorActions. by destruct (phReset ph). Qed.

Lemma compilePhase_phase i tl r p ph e :
  e ∈ compilePhase i tl r p ph -> scPhase e = phaseRef i r tl p ph.
Proof.
  unfold compilePhase. intros [->|[->|[]%elem_of_nil]%elem_of_cons]%elem_of_cons.
  - apply phaseStart_phase.
  - apply phaseEnd_phase.
Qed.

(** The entries of one identity are its start and its end. *)
Lemma scheduled_of_phase timelines i r p tl ph :
  occurrence timelines i r p tl ph ->
  filter (fun e => prID (scPhase e) = phaseID i r p) (scheduledTransitions timelines) =
  compilePhase i tl r p ph.
Proof.
  intros (Hi & Hr & Hp).
  assert (forall i' tl' r' p' ph' e, (i', r', p') <> (i, r, p) -> e ∈ compilePhase i' tl' r' p' ph' ->
    prID (scPhase e) <> phaseID i r p) as Hother.
  { intros i' tl' r' p' ph' e Hne He E. rewrite (compilePhase_phase _ _ _ _ _ _ He) in E.
    apply phaseID_inj in E as (-> & -> & ->). done. }
  unfold scheduledTransitions. rewrite (filter_concat_imap _ _ _ i tl); [|done|].
  2: { intros j y _ Hj. apply filter_none, Forall_forall. intros e He.
    apply elem_of_concat in He as (l & Hl & He). apply list_elem_of_fmap in Hl as (r' & -> & _).
    apply elem_of_concat in He as (l & Hl & He). apply elem_of_lookup_imap in Hl as (p' & ph' & -> & _).
    eapply Hother; [|exact He]. congruence. }
  unfold compileTimeline.
  assert (forall n f, map (fun r => f r) (seq 0 n) = imap (fun r (_ : nat) => f r : list scheduledTransition) (seq 0 n))
    as Hseq.
  { intros n f. change (map f (seq 0 n)) with (f <$> seq 0 n). apply list_eq. intros k.
    rewrite list_lookup_fmap, list_lookup_imap. destruct (seq 0 n !! k) as [x|] eqn:E; [|done].
    apply lookup_seq in E as [-> _]. done. }
  rewrite Hseq, (filter_concat_imap _ _ _ r r).
  2: { by apply lookup_seq. }
  2: { intros r' y _ Hj. apply filter_none, Forall_forall. intros e He.
    apply elem_of_concat in He as (l & Hl & He). apply elem_of_lookup_imap in Hl as (p' & ph' & -> & _).
    eapply Hother; [|exact He]. congruence. }
  rewrite (filter_concat_imap _ _ _ p ph); [|done|].
  2: { intros p' y _ Hj. apply filter_none, Forall_forall. intros e He.
    eapply Hother; [|exact He]. congruence. }
  apply filter_id, Forall_forall. intros e He. by rewrite (compilePhase_phase _ _ _ _ _ _ He).
Qed.
