(* ===== verification/Runner.v ===== *)
(** * Behavior timelines: replay

    The runner of [behavior/runner.go], [runner_actions.go] and the appliers of
    [schedule_interface_address.go] and [schedule_prefix.go].  The runner's
    target is an interface; its clock and its context are a [World] that answers
    each question in turn.  The worker goroutine runs between [Start] and the
    moment [Stop] has joined it; the log line of [fail] is not modelled.

    What the schedule contains and when, what a replay calls on its target, and
    which phases it reports as active. *)

From S2P Require Import Prelude.
From S2P Require Import Netip.
From S2P Require Import DeviceTypes.
From S2P Require Import Schedule.

(** ** The target

    An operation returns the target it leaves and the text of its error. *)

Class Target (T : Type) := {
  tgSetInterfaceFault : string -> string -> FaultType -> Z -> T -> T * option string;
  tgSetDeviceFault : string -> DeviceFaultType -> Z -> T -> T * option string;
  tgSetDeviceAddressFault : string -> DeviceFaultType -> Addr -> T -> T * option string;
  tgClearDeviceFault : string -> DeviceFaultType -> T -> T * option string;
  tgSetInterfaceAddressFault : string -> InterfaceAddressFault -> T -> T * option string;
  tgClearInterfaceAddressFault :
    string -> string -> InterfaceAddressFaultType -> T -> T * option string;
  tgSetInterfacePrefixFault : string -> InterfacePrefixFault -> T -> T * option string;
  tgClearInterfacePrefixFault :
    string -> string -> InterfacePrefixFaultType -> T -> T * option string;
  tgExecuteDeviceAction : string -> DeviceActionType -> string -> T -> T * option string;
  tgRoamStation : RoamAction -> T -> T * option string
}.

(** The clock's and the context's answers, by the number of questions asked. *)
Record World := mkWorld {
  wNow : nat -> Time;
  wWait : nat -> Duration -> bool;
  wCancelled : nat -> bool
}.

(** ** State *)

Record Status := mkStatus {
  rsState : string;
  rsStartedAt : Time;
  rsCompletedAt : Time;
  rsAppliedTransitions : Z;
  rsTotalTransitions : Z;
  rsActivePhases : list string;
  rsLastError : string
}.
#[export] Instance Status_rebuild : Rebuild Status := fun s =>
  mkStatus (rsState s) (rsStartedAt s) (rsCompletedAt s) (rsAppliedTransitions s)
    (rsTotalTransitions s) (rsActivePhases s) (rsLastError s).

Definition idleStatus (total : Z) : Status := mkStatus "idle" zeroTime zeroTime 0 total [] "".

(** [ruWorker] is the start time of a worker that has not exited; [ruAsked]
    counts the questions put to the world. *)
Record Runner (T : Type) := mkRunner {
  ruTarget : T;
  ruTransitions : list Transition;
  ruStatus : Status;
  ruWorker : option Time;
  ruAsked : nat
}.
Arguments mkRunner {T}.
Arguments ruTarget {T}.
Arguments ruTransitions {T}.
Arguments ruStatus {T}.
Arguments ruWorker {T}.
Arguments ruAsked {T}.
#[export] Instance Runner_rebuild T : Rebuild (Runner T) := fun r =>
  mkRunner (ruTarget r) (ruTransitions r) (ruStatus r) (ruWorker r) (ruAsked r).

(** [time.Time.Sub] saturates. *)
Definition timeSub (t u : Time) : Duration := Z.max (- 2 ^ 63) (Z.min (2 ^ 63 - 1) (t - u)).

Section runner.
Context {T : Type} `{Target T} (world : World).

Definition NewWithClock (target : T) (transitions : list Transition) : Runner T :=
  mkRunner target transitions (idleStatus (Z.of_nat (length transitions))) None 0.

Definition clockNow (r : Runner T) : Time * Runner T :=
  (wNow world (ruAsked r), r <| ruAsked := S (ruAsked r) |>).

Definition clockWait (d : Duration) (r : Runner T) : bool * Runner T :=
  (wWait world (ruAsked r) d, r <| ruAsked := S (ruAsked r) |>).

Definition ctxErr (r : Runner T) : bool * Runner T :=
  (wCancelled world (ruAsked r), r <| ruAsked := S (ruAsked r) |>).

Definition Start (r : Runner T) : Runner T :=
  if negb (bool_decide (rsState (ruStatus r) = "idle"%string)) then r
  else match ruTransitions r with
  | [] =>
      let '(now, r) := clockNow r in
      r <| ruStatus := ruStatus r <| rsState := "completed"%string |> <| rsCompletedAt := now |> |>
  | _ :: _ =>
      let '(started, r) := clockNow r in
      r <| ruStatus := ruStatus r <| rsState := "running"%string |> <| rsStartedAt := started |> |>
        <| ruWorker := Some started |>
  end.

Definition finish (state lastError : string) (r : Runner T) : Runner T :=
  let '(now, r) := clockNow r in
  r <| ruStatus := ruStatus r <| rsState := state |> <| rsLastError := lastError |>
         <| rsActivePhases := [] |> <| rsCompletedAt := now |> |>.

Definition fail (err : string) (r : Runner T) : Runner T := finish "failed" err r.

(** ** Applying one transition *)

Definition applyInterfaceFault (action : Action) : T -> T * option string :=
  tgSetInterfaceFault (acDevice action) (acInterface action) (acType action) (acValue action).

Definition applyDeviceFault (action : DeviceAction) : T -> T * option string :=
  if daClear action then tgClearDeviceFault (daDevice action) (daType action)
  else if bool_decide (daType action = FaultDuplicateDHCPOffer)
  then tgSetDeviceAddressFault (daDevice action) (daType action) (daAddress action)
  else tgSetDeviceFault (daDevice action) (daType action) (daValue action).

Definition applyInterfaceAddressFault (action : InterfaceAddressAction) : T -> T * option string :=
  if iaClear action
  then tgClearInterfaceAddressFault (iaDevice action) (afInterface (iaFault action)) (afType (iaFault action))
  else tgSetInterfaceAddressFault (iaDevice action) (iaFault action).

Definition applyInterfacePrefixFault (action : InterfacePrefixAction) : T -> T * option string :=
  if ipClear action
  then tgClearInterfacePrefixFault (ipDevice action) (pfInterface (ipFault action)) (pfType (ipFault action))
  else tgSetInterfacePrefixFault (ipDevice action) (ipFault action).

Definition applyOneShot (action : OneShotAction) : T -> T * option string :=
  tgExecuteDeviceAction (osDevice action) (osType action) (osID action).

(** One loop of [applyTransition]; a [watched] loop asks the context before
    each action. *)
Fixpoint applyLoop (watched : bool) (calls : list (T -> T * option string)) (r : Runner T)
    : Runner T * bool :=
  match calls with
  | [] => (r, true)
  | call :: rest =>
      let '(cancelled, r) := if watched then ctxErr r else (false, r) in
      if cancelled then (finish "stopped" "" r, false)
      else match call (ruTarget r) with
      | (target, Some err) => (fail err (r <| ruTarget := target |>), false)
      | (target, None) => applyLoop watched rest (r <| ruTarget := target |>)
      end
  end.

Definition andThen (f g : Runner T -> Runner T * bool) (r : Runner T) : Runner T * bool :=
  let '(r, ok) := f r in if ok then g r else (r, false).

Definition applyPrefixActions (transition : Transition) : Runner T -> Runner T * bool :=
  applyLoop true (map applyInterfacePrefixFault (tPrefixActions transition)).

Definition applyTransition (transition : Transition) : Runner T -> Runner T * bool :=
  andThen (applyLoop false (map applyInterfaceFault (tActions transition)))
  (andThen (applyLoop false (map applyDeviceFault (tDeviceActions transition)))
  (andThen (applyLoop true (map applyInterfaceAddressFault (tAddressActions transition)))
  (andThen (applyPrefixActions transition)
  (andThen (applyLoop true (map applyOneShot (tOneShotActions transition)))
           (applyLoop false (map tgRoamStation (tRoamActions transition))))))).

(** ** The worker *)

Definition updateActive (activePhases : gmap string string) (transition : Transition)
    : gmap string string :=
  let ended := foldl (fun m phase => delete (prID phase) m) activePhases (tEndPhases transition) in
  foldl (fun m phase => <[prID phase := prLabel phase]> m) ended (tStartPhases transition).

Definition activeLabels (activePhases : gmap string string) : list string :=
  sortBy id (map snd (map_to_list activePhases)).

(** The loop of [run]: the active phases, the runner, and whether every
    transition was applied. *)
Fixpoint runLoop (started : Time) (transitions : list Transition) (activePhases : gmap string string)
    (r : Runner T) : gmap string string * Runner T * bool :=
  match transitions with
  | [] => (activePhases, r, true)
  | transition :: rest =>
      let '(now, r) := clockNow r in
      let '(waited, r) := clockWait (int64 (tOffset transition - timeSub now started)) r in
      if negb waited then (activePhases, finish "stopped" "" r, false)
      else
        let '(r, ok) := applyTransition transition r in
        if negb ok then (activePhases, r, false)
        else
          let activePhases := updateActive activePhases transition in
          let r := r <| ruStatus := ruStatus r
                          <| rsAppliedTransitions := rsAppliedTransitions (ruStatus r) + 1 |>
                          <| rsActivePhases := activeLabels activePhases |> |> in
          runLoop started rest activePhases r
  end.

Definition run (started : Time) (r : Runner T) : Runner T :=
  let '(_, r, completed) := runLoop started (ruTransitions r) ∅ r in
  if completed then finish "completed" "" r else r.

(** Joining the worker: it has run to its end. *)
Definition Stop (r : Runner T) : Runner T :=
  match ruWorker r with
  | None => r
  | Some started => run started r <| ruWorker := None |>
  end.

Definition Reset (r : Runner T) : Runner T :=
  let r := Stop r in
  r <| ruStatus := idleStatus (Z.of_nat (length (ruTransitions r))) |> <| ruWorker := None |>.
End runner.

(** ** Calls

    The calls of a transition in the order of their families, and what making
    calls until one is refused does. *)

Section calls.
Context {T : Type} `{Target T} (world : World).

Abbreviation Call := (T -> T * option string).

Definition callsOf (t : Transition) : list Call :=
  map applyInterfaceFault (tActions t) ++ map applyDeviceFault (tDeviceActions t) ++
  map applyInterfaceAddressFault (tAddressActions t) ++
  map applyInterfacePrefixFault (tPrefixActions t) ++ map applyOneShot (tOneShotActions t) ++
  map tgRoamStation (tRoamActions t).

Definition callsOfAll (l : list Transition) : list Call := concat (map callsOf l).

Fixpoint perform (calls : list Call) (x : T) : T * option string :=
  match calls with
  | [] => (x, None)
  | call :: rest =>
      match call x with
      | (y, Some err) => (y, Some err)
      | (y, None) => perform rest y
      end
  end.

Lemma perform_app l1 l2 x y :
  perform l1 x = (y, None) -> perform (l1 ++ l2) x = perform l2 y.
Proof.
  revert x. induction l1 as [|c l1 IH]; intros x; simpl; [by intros [= ->]|].
  destruct (c x) as [z [e|]]; [done|]. apply IH.
Qed.

Lemma perform_app_inv l1 l2 x y :
  perform (l1 ++ l2) x = (y, None) -> exists z, perform l1 x = (z, None) /\ perform l2 z = (y, None).
Proof.
  revert x. induction l1 as [|c l1 IH]; intros x; simpl; [by eexists|].
  destruct (c x) as [z [e|]]; [done|]. apply IH.
Qed.

Definition ended (state err : string) (s s' : Status) : Prop :=
  rsState s' = state /\ rsLastError s' = err /\ rsActivePhases s' = [] /\
  rsAppliedTransitions s' = rsAppliedTransitions s /\ rsTotalTransitions s' = rsTotalTransitions s.

(** Where a replay of calls stands. *)
Inductive progress (calls : list Call) (r r' : Runner T) : bool -> Prop :=
| progress_all :
    perform calls (ruTarget r) = (ruTarget r', None) -> ruStatus r' = ruStatus r ->
    progress calls r r' true
| progress_stopped performed rest :
    calls = performed ++ rest -> perform performed (ruTarget r) = (ruTarget r', None) ->
    ended "stopped" "" (ruStatus r) (ruStatus r') -> progress calls r r' false
| progress_failed accepted call rest x err :
    calls = accepted ++ call :: rest -> perform accepted (ruTarget r) = (x, None) ->
    call x = (ruTarget r', Some err) -> ended "failed" err (ruStatus r) (ruStatus r') ->
    progress calls r r' false.

Lemma finish_target st err (r : Runner T) : ruTarget (finish world st err r) = ruTarget r.
Proof. done. Qed.

Lemma finish_ended st err (r : Runner T) : ended st err (ruStatus r) (ruStatus (finish world st err r)).
Proof. done. Qed.

Lemma progress_prefix accepted calls (r r1 r' : Runner T) ok :
  perform accepted (ruTarget r) = (ruTarget r1, None) -> ruStatus r1 = ruStatus r ->
  progress calls r1 r' ok -> progress (accepted ++ calls) r r' ok.
Proof.
  intros Ha Hs [Hp Hs'|performed rest -> Hp He|ac call rest x err -> Hp Hc He]; rewrite Hs in *.
  - apply progress_all; [by rewrite (perform_app _ _ _ _ Ha)|done].
  - eapply (progress_stopped _ _ _ (accepted ++ performed)); [by rewrite app_assoc| |done].
    by rewrite (perform_app _ _ _ _ Ha).
  - eapply (progress_failed _ _ _ (accepted ++ ac)); [by rewrite <- app_assoc| |done|done].
    by rewrite (perform_app _ _ _ _ Ha).
Qed.

Lemma progress_more calls more (r r' : Runner T) :
  progress calls r r' false -> progress (calls ++ more) r r' false.
Proof.
  inversion 1 as [|performed rest -> Hp He|ac call rest x err -> Hp Hc He].
  - eapply (progress_stopped _ _ _ performed); [by rewrite <- app_assoc|done..].
  - eapply (progress_failed _ _ _ ac); [by rewrite <- app_assoc|done..].
Qed.

Lemma applyLoop_progress watched calls (r : Runner T) :
  progress calls r (applyLoop world watched calls r).1 (applyLoop world watched calls r).2.
Proof.
  revert r. induction calls as [|call calls IH]; intros r; simpl; [by apply progress_all|].
  set (asked := if watched then ctxErr world r else (false, r)).
  assert (ruTarget asked.2 = ruTarget r /\ ruStatus asked.2 = ruStatus r) as [Ht Hs]
    by (unfold asked; by destruct watched).
  destruct asked as [[|] r1]; simpl in *.
  - eapply (progress_stopped _ _ _ []); [done|by simpl; rewrite Ht|]. rewrite <- Hs. apply finish_ended.
  - rewrite Ht. destruct (call (ruTarget r)) as [y [err|]] eqn:Hcall; simpl.
    + eapply (progress_failed _ _ _ []); [done|done|exact Hcall|]. rewrite <- Hs. apply finish_ended.
    + apply (progress_prefix [call] calls _ (r1 <| ruTarget := y |>)); [by simpl; rewrite Hcall|done|].
      apply IH.
Qed.

Lemma andThen_progress calls1 calls2 f g (r : Runner T) :
  (forall r, progress calls1 r (f r).1 (f r).2) -> (forall r, progress calls2 r (g r).1 (g r).2) ->
  progress (calls1 ++ calls2) r (andThen f g r).1 (andThen f g r).2.
Proof.
  intros Hf Hg. unfold andThen. pose proof (Hf r) as H1. destruct (f r) as [r1 [|]]; simpl in *.
  - inversion H1 as [Hp Hs| |]. by eapply progress_prefix.
  - by apply progress_more.
Qed.

Lemma applyTransition_progress t (r : Runner T) :
  progress (callsOf t) r (applyTransition world t r).1 (applyTransition world t r).2.
Proof.
  unfold applyTransition, applyPrefixActions, callsOf.
  repeat (apply andThen_progress; [intros; apply applyLoop_progress|intros]).
  apply applyLoop_progress.
Qed.

(** The loop of the worker: every transition in turn, until one is cut short. *)
Lemma runLoop_outcome started ts active (r : Runner T) :
  let '(_, r', ok) := runLoop world started ts active r in
  if ok
  then perform (callsOfAll ts) (ruTarget r) = (ruTarget r', None) /\
    rsAppliedTransitions (ruStatus r') = rsAppliedTransitions (ruStatus r) + Z.of_nat (length ts)
  else exists before t after r1, ts = before ++ t :: after /\
    perform (callsOfAll before) (ruTarget r) = (ruTarget r1, None) /\
    rsAppliedTransitions (ruStatus r1) = rsAppliedTransitions (ruStatus r) + Z.of_nat (length before) /\
    progress (callsOf t) r1 r' false.
Proof.
  revert active r. induction ts as [|t ts IH]; intros active r; simpl; [split; [done|lia]|].
  destruct (negb (wWait world _ _)) eqn:Hw; simpl.
  { exists [], t, ts, r. split_and!; [done|done|simpl; lia|].
    eapply (progress_stopped _ _ _ []); [done|done|]. by split_and!. }
  match goal with |- context [applyTransition world t ?x] => set (r0 := x) end.
  pose proof (applyTransition_progress t r0) as Hp.
  destruct (applyTransition world t r0) as [r1 [|]]; simpl in *.
  - inversion Hp as [Hperf Hst| |].
    match goal with |- context [runLoop world started ts _ ?x] => set (r2 := x) end.
    specialize (IH (updateActive active t) r2).
    destruct (runLoop world started ts (updateActive active t) r2) as [[? r'] [|]].
    + destruct IH as [IH1 IH2]. unfold callsOfAll. simpl. rewrite (perform_app _ _ _ _ Hperf).
      split; [exact IH1|]. unfold r2 in IH2. simpl in IH2. rewrite Hst in IH2. simpl in IH2. lia.
    + destruct IH as (before & t' & after & r3 & -> & H1 & H2 & H3).
      exists (t :: before), t', after, r3. split_and!; [done| | |done].
      * unfold callsOfAll. simpl. by rewrite (perform_app _ _ _ _ Hperf).
      * unfold r2 in H2. simpl in *. rewrite Hst in H2. simpl in H2. lia.
  - exists [], t, ts, r. split_and!; [done|done|simpl; lia|].
    inversion Hp as [|pf rest E Hpf He|ac call rest x err E Hpf Hc He].
    + by eapply progress_stopped.
    + by eapply progress_failed.
Qed.
(** C6.  However its world behaves, a replay makes a prefix of the timeline's
    calls, in order and each once, and its status tells how it ended:
    completed — every call was made and none refused; stopped — no call was
    refused; failed — the last call made was refused, with the reported error,
    and nothing was called after it.  The transitions it counts as applied are
    those all of whose calls were accepted. *)
Theorem replay_outcome started (r : Runner T) :
  let r' := run world started r in
  exists before performed rest,
    before `prefix_of` ruTransitions r /\
    callsOfAll (ruTransitions r) = performed ++ rest /\ callsOfAll before `prefix_of` performed /\
    rsAppliedTransitions (ruStatus r') =
      rsAppliedTransitions (ruStatus r) + Z.of_nat (length before) /\
    rsActivePhases (ruStatus r') = [] /\
    (rsState (ruStatus r') = "completed"%string /\ rsLastError (ruStatus r') = ""%string /\
       before = ruTransitions r /\ rest = [] /\
       perform performed (ruTarget r) = (ruTarget r', None) \/
     rsState (ruStatus r') = "stopped"%string /\ rsLastError (ruStatus r') = ""%string /\
       perform performed (ruTarget r) = (ruTarget r', None) \/
     rsState (ruStatus r') = "failed"%string /\ exists accepted call x,
       performed = accepted ++ [call] /\ perform accepted (ruTarget r) = (x, None) /\
       call x = (ruTarget r', Some (rsLastError (ruStatus r')))).
Proof.
  unfold run. pose proof (runLoop_outcome started (ruTransitions r) ∅ r) as Ho.
  destruct (runLoop world started (ruTransitions r) ∅ r) as [[act r'] [|]].
  - destruct Ho as [Hp Happ]. exists (ruTransitions r), (callsOfAll (ruTransitions r)), [].
    split_and!; [done|by rewrite app_nil_r|done|done|done|]. by left.
  - destruct Ho as (before & t & after & r1 & E & Hb & Happ & Hp). simpl.
    assert (callsOfAll (ruTransitions r) = callsOfAll before ++ callsOf t ++ callsOfAll after) as Ec.
    { rewrite E. unfold callsOfAll. by rewrite map_app, concat_app. }
    assert (before `prefix_of` ruTransitions r) as Hpre by (rewrite E; by exists (t :: after)).
    inversion Hp as [|pf rest Et Hpf (E1 & E2 & E3 & E4 & E5)
                     |ac call rest x err Et Hpf Hc (E1 & E2 & E3 & E4 & E5)].
    + exists before, (callsOfAll before ++ pf), (rest ++ callsOfAll after). split_and!; [done| | |lia|done|].
      * rewrite Ec, Et. by rewrite <- !app_assoc.
      * by apply prefix_app_r.
      * right. left. split_and!; [done|done|]. by rewrite (perform_app _ _ _ _ Hb).
    + exists before, (callsOfAll before ++ ac ++ [call]), (rest ++ callsOfAll after).
      split_and!; [done| | |lia|done|].
      * rewrite Ec, Et. rewrite <- !app_assoc. by rewrite <- app_comm_cons.
      * by apply prefix_app_r.
      * right. right. split; [done|]. exists (callsOfAll before ++ ac), call, x. split_and!.
        -- by rewrite app_assoc.
        -- by rewrite (perform_app _ _ _ _ Hb).
        -- by rewrite E2.
Qed.

(** *** An unhindered replay *)

Definition accepts {C} (calls : list Call) (f : Runner T -> C) (ok : C -> bool) : Prop :=
  forall (r : Runner T) y, perform calls (ruTarget r) = (y, None) -> ok (f r) = true.

Lemma andThen_accepts c1 c2 f g :
  (forall r, progress c1 r (f r).1 (f r).2) -> accepts c1 f snd -> accepts c2 g snd ->
  accepts (c1 ++ c2) (andThen f g) snd.
Proof.
  intros Hp Hf Hg r1 y Hy. apply perform_app_inv in Hy as (z & H1 & H2).
  pose proof (Hf _ _ H1) as Ef. pose proof (Hp r1) as Hp1. unfold andThen.
  destruct (f r1) as [r2 ok]. simpl in *. subst. inversion Hp1 as [Hpp _| |].
  apply (Hg _ y). congruence.
Qed.

Section unhindered.
Hypothesis Hwait : forall n d, wWait world n d = true.
Hypothesis Hcancelled : forall n, wCancelled world n = false.

Lemma applyLoop_accepts watched calls : accepts calls (applyLoop world watched calls) snd.
Proof.
  induction calls as [|call calls IH]; intros r y; simpl; [done|].
  destruct watched; simpl; rewrite ?Hcancelled; simpl;
    (destruct (call (ruTarget r)) as [z [e|]]; [done|]; intros Hy; by apply (IH _ y)).
Qed.

Lemma applyTransition_accepts t : accepts (callsOf t) (applyTransition world t) snd.
Proof.
  unfold applyTransition, applyPrefixActions, callsOf.
  repeat (apply andThen_accepts; [intros; apply applyLoop_progress|apply applyLoop_accepts|]).
  apply applyLoop_accepts.
Qed.

Lemma runLoop_accepts started ts active :
  accepts (callsOfAll ts) (runLoop world started ts active) snd.
Proof.
  revert active. induction ts as [|t ts IH]; intros active r y Hy; simpl; [done|].
  rewrite Hwait. simpl. unfold callsOfAll in Hy. simpl in Hy.
  apply perform_app_inv in Hy as (z & H1 & H2).
  match goal with |- context [applyTransition world t ?x] => set (r2 := x) end.
  pose proof (applyTransition_accepts t r2 z H1) as E.
  pose proof (applyTransition_progress t r2) as Hp.
  destruct (applyTransition world t r2) as [r3 ok]. simpl in *. subst. simpl.
  inversion Hp as [Hpp _| |]. apply (IH _ _ y). simpl. change (ruTarget r2) with (ruTarget r) in Hpp.
  rewrite H1 in Hpp. injection Hpp as <-. exact H2.
Qed.

(** C7.  A replay that is neither cancelled nor refused completes: every call
    of every transition is made in order, and every transition is counted. *)
Theorem replay_completes started (r : Runner T) x :
  perform (callsOfAll (ruTransitions r)) (ruTarget r) = (x, None) ->
  let r' := run world started r in
  ruTarget r' = x /\ rsState (ruStatus r') = "completed"%string /\
  rsAppliedTransitions (ruStatus r') =
    rsAppliedTransitions (ruStatus r) + Z.of_nat (length (ruTransitions r)).
Proof.
  intros Hx. unfold run. pose proof (runLoop_accepts started _ ∅ _ _ Hx) as E.
  pose proof (runLoop_outcome started (ruTransitions r) ∅ r) as Ho.
  destruct (runLoop world started (ruTransitions r) ∅ r) as [[act r'] ok]. simpl in E. subst ok.
  destruct Ho as [Hp Happ]. simpl. split_and!; [congruence|done|done].
Qed.
End unhindered.
End calls.
