(* ===== verification/ScheduleTheorems.v ===== *)
(** * Behavior timelines: what the schedule contains and what is in progress *)

From S2P Require Import Prelude.
From S2P Require Import Netip.
From S2P Require Import DeviceTypes.
From S2P Require Import Schedule.
From S2P Require Import Runner.

(** ** Authored bounds

    The ranges the loader enforces ([converter/types_behavior.go]): offsets and
    durations of at most a day, at least a millisecond per phase, at most a
    thousand repetitions. *)

Definition millisecond : Z := 10 ^ 6.
Definition day : Z := 86400000 * millisecond.

Record authoredPhase (ph : BehaviorPhase) : Prop := {
  ap_start : 0 <= phStartOffset ph <= day;
  ap_duration : millisecond <= phDuration ph <= day
}.

Record authoredTimeline (tl : BehaviorTimeline) : Prop := {
  at_start : 0 <= tlStartOffset tl <= day;
  at_repeat : 1 <= tlRepeatCount tl <= 1000;
  at_phases : Forall authoredPhase (tlPhases tl)
}.

Definition startOf (tl : BehaviorTimeline) (r : nat) (ph : BehaviorPhase) : Z :=
  tlStartOffset tl + Z.of_nat r * behaviorCycleDuration (tlPhases tl) + phStartOffset ph.

Lemma cycle_bounds phases :
  Forall authoredPhase phases -> 0 <= behaviorCycleDuration phases <= 2 * day.
Proof.
  unfold behaviorCycleDuration. intros Hp.
  cut (forall d, 0 <= d <= 2 * day -> 0 <= foldl (fun duration phase =>
    Z.max duration (int64 (phStartOffset phase + phDuration phase))) d phases <= 2 * day).
  { intros Hd. apply Hd. unfold day, millisecond. lia. }
  induction Hp as [|ph phases [H1 H2] _ IH]; intros d Hd; simpl; [done|].
  apply IH. unfold day, millisecond in *. rewrite int64_id by lia. lia.
Qed.

Lemma start_exact i r p tl ph :
  authoredTimeline tl -> (r < Z.to_nat (tlRepeatCount tl))%nat -> tlPhases tl !! p = Some ph ->
  scOffset (phaseStart (phaseRef i r tl p ph) (cycleStart tl r) ph) = startOf tl r ph /\
  scOffset (phaseEnd (phaseRef i r tl p ph) (cycleStart tl r) ph) = startOf tl r ph + phDuration ph /\
  millisecond <= phDuration ph.
Proof.
  intros [Hs Hr Hp] Hlt Hph. pose proof (cycle_bounds _ Hp) as Hc.
  rewrite Forall_lookup in Hp. destruct (Hp _ _ Hph) as [H1 H2].
  assert (0 <= Z.of_nat r * behaviorCycleDuration (tlPhases tl) <= 1000 * (2 * day)) as Hm.
  { unfold day, millisecond in *. nia. }
  assert (scOffset (phaseEnd (phaseRef i r tl p ph) (cycleStart tl r) ph) =
    int64 (int64 (cycleStart tl r + phStartOffset ph) + phDuration ph)) as ->.
  { unfold phaseEnd, behaviorActions. by destruct (phReset ph). }
  change (scOffset (phaseStart (phaseRef i r tl p ph) (cycleStart tl r) ph))
    with (int64 (cycleStart tl r + phStartOffset ph)).
  unfold cycleStart, startOf. unfold day, millisecond in *.
  rewrite (int64_id (Z.of_nat r * _)) by lia. rewrite (int64_id (tlStartOffset tl + _)) by lia.
  rewrite (int64_id (_ + phStartOffset ph)) by lia. rewrite int64_id by lia. lia.
Qed.

(** ** The sorted schedule *)

Definition isEnd (e : scheduledTransition) : Prop := scEnd e = true.
#[global] Instance isEnd_dec e : Decision (isEnd e) := decide (scEnd e = true).

Lemma StronglySorted_filter {A} (R : relation A) (P : A -> Prop) `{!forall x, Decision (P x)}
    (l : list A) :
  StronglySorted R l -> StronglySorted R (filter P l).
Proof.
  induction l as [|x l IH]; intros Hs; [constructor|]. apply StronglySorted_cons in Hs as [Hx Hs].
  rewrite filter_cons. destruct (decide (P x)); [|by apply IH].
  apply StronglySorted_cons. split; [|by apply IH].
  rewrite Forall_forall in Hx |- *. intros y [_ Hy]%list_elem_of_filter. by apply Hx.
Qed.

Lemma StronglySorted_weaken {A} (R R' : relation A) (l : list A) :
  (forall x y, R x y -> R' x y) -> StronglySorted R l -> StronglySorted R' l.
Proof. induction 2; constructor; [done|]. eapply Forall_impl; eauto. Qed.

Lemma schedule_byOffset x y : key_le scheduleKey x y -> byOffset x y.
Proof. intros [H _]. exact H. Qed.

(** At one offset the ends come first. *)
Lemma ends_first l :
  StronglySorted (key_le scheduleKey) l -> Forall (fun e => Forall (fun e' => scOffset e' = scOffset e) l) l ->
  l = filter isEnd l ++ filter (fun e => ~ isEnd e) l.
Proof.
  induction l as [|x l IH]; intros Hs Hu; [done|].
  apply StronglySorted_cons in Hs as [Hx Hs].
  assert (Forall (fun e => Forall (fun e' => scOffset e' = scOffset e) l) l) as Hu'.
  { apply Forall_cons in Hu as [_ Hu]. eapply Forall_impl; [exact Hu|]. by intros e [_ He]%Forall_cons. }
  rewrite !filter_cons. destruct (decide (isEnd x)) as [Ex|Ex].
  - rewrite (decide_False (P := ~ isEnd x)) by tauto. simpl. f_equal. by apply IH.
  - rewrite (decide_True (P := ~ isEnd x)) by done.
    assert (filter isEnd l = []) as Hnil.
    { apply filter_none. apply Forall_forall. intros y Hy Hend. rewrite Forall_forall in Hx.
      destruct (Hx _ Hy) as [_ Hk]. apply Forall_cons in Hu as [Hu _]. apply Forall_cons in Hu as [_ Hu].
      rewrite Forall_forall in Hu. specialize (Hu _ Hy). unfold scheduleKey in Hk. simpl in Hk.
      specialize (Hk (eq_sym Hu)). unfold isEnd in Hend, Ex. apply not_true_is_false in Ex.
      rewrite Ex, Hend in Hk. change (1 <= 0) in Hk. lia. }
    rewrite Hnil. simpl. f_equal. specialize (IH Hs Hu'). rewrite Hnil in IH. exact IH.
Qed.

(** ** What a transition holds *)

Lemma collect_starts l t :
  tStartPhases (foldl addScheduled t l) =
  tStartPhases t ++ map scPhase (filter (fun e => ~ isEnd e) l).
Proof.
  revert t. induction l as [|e l IH]; intros t; simpl; [by rewrite app_nil_r|].
  rewrite IH, filter_cons. simpl. destruct (decide (~ isEnd e)) as [He|He]; unfold isEnd in He.
  - apply not_true_is_false in He. rewrite He. by rewrite <- app_assoc.
  - apply dec_stable in He. by rewrite He.
Qed.

Lemma collect_ends l t :
  tEndPhases (foldl addScheduled t l) = tEndPhases t ++ map scPhase (filter isEnd l).
Proof.
  revert t. induction l as [|e l IH]; intros t; simpl; [by rewrite app_nil_r|].
  rewrite IH, filter_cons. simpl. destruct (decide (isEnd e)) as [He|He]; unfold isEnd in He.
  - rewrite He. by rewrite <- app_assoc.
  - apply not_true_is_false in He. by rewrite He.
Qed.

Definition entryStep (m : gmap string string) (e : scheduledTransition) : gmap string string :=
  if scEnd e then delete (prID (scPhase e)) m
  else <[prID (scPhase e) := prLabel (scPhase e)]> m.

Lemma foldl_ends l m :
  Forall isEnd l ->
  foldl (fun m phase => delete (prID phase) m) m (map scPhase l) = foldl entryStep m l.
Proof.
  intros H. revert m. induction H as [|e l He _ IH]; intros m; simpl; [done|].
  unfold entryStep at 2. unfold isEnd in He. rewrite He. apply IH.
Qed.

Lemma foldl_starts l m :
  Forall (fun e => ~ isEnd e) l ->
  foldl (fun m phase => <[prID phase := prLabel phase]> m) m (map scPhase l) = foldl entryStep m l.
Proof.
  intros H. revert m. induction H as [|e l He _ IH]; intros m; simpl; [done|].
  unfold entryStep at 2. unfold isEnd in He. apply not_true_is_false in He. rewrite He. apply IH.
Qed.

Lemma Forall_filter' {A} (P : A -> Prop) `{!forall x, Decision (P x)} (l : list A) : Forall P (filter P l).
Proof. apply Forall_forall. by intros x [HP _]%list_elem_of_filter. Qed.

(** Applying a transition's phases is applying its entries in turn. *)
Lemma updateActive_collect m chunk :
  uniform chunk -> StronglySorted (key_le scheduleKey) chunk ->
  updateActive m (collect chunk) = foldl entryStep m chunk.
Proof.
  intros (e & chunk' & -> & Hu) Hs. unfold updateActive, collect.
  rewrite collect_starts, collect_ends. simpl app.
  rewrite foldl_ends by apply Forall_filter'. rewrite foldl_starts by apply Forall_filter'.
  rewrite <- foldl_app. rewrite <- ends_first; [done|done|].
  assert (forall x, x ∈ e :: chunk' -> scOffset x = scOffset e) as Hx.
  { intros x [->|Hx]%elem_of_cons; [done|]. rewrite Forall_forall in Hu. by apply Hu. }
  apply Forall_forall. intros x Hx1. apply Forall_forall. intros y Hy1. by rewrite (Hx _ Hx1), (Hx _ Hy1).
Qed.

Lemma active_chunks chunks m :
  Forall uniform chunks -> StronglySorted (key_le scheduleKey) (concat chunks) ->
  foldl updateActive m (map collect chunks) = foldl entryStep m (concat chunks).
Proof.
  intros Hu. revert m. induction Hu as [|chunk chunks Hc _ IH]; intros m Hs; simpl; [done|].
  simpl in Hs. apply StronglySorted_app in Hs as (_ & Hs1 & Hs2).
  rewrite updateActive_collect by done. rewrite foldl_app. by apply IH.
Qed.

(** The last entry of an identity decides whether it is active. *)
Lemma lookup_entries l x :
  foldl entryStep ∅ l !! x =
  match last (filter (fun e => prID (scPhase e) = x) l) with
  | Some e => if scEnd e then None else Some (prLabel (scPhase e))
  | None => None
  end.
Proof.
  induction l as [|e l IH] using rev_ind; [done|].
  rewrite foldl_app, filter_app, filter_cons, filter_nil. simpl. unfold entryStep at 1.
  destruct (decide (prID (scPhase e) = x)) as [<-|Hne].
  - rewrite last_snoc. destruct (scEnd e); [apply lookup_delete_eq|apply lookup_insert_eq].
  - rewrite app_nil_r, <- IH. destruct (scEnd e); [by apply lookup_delete_ne|by apply lookup_insert_ne].
Qed.

Lemma uniform_offset chunk e : uniform chunk -> e ∈ chunk -> scOffset e = chunkOffset chunk.
Proof.
  intros (x & l & -> & Hu) [->|He]%elem_of_cons; [done|]. rewrite Forall_forall in Hu. by apply Hu.
Qed.

Lemma chunk_filter chunks chunk :
  Forall uniform chunks -> StronglySorted (fun x y => chunkOffset x < chunkOffset y) chunks ->
  chunk ∈ chunks -> filter (fun e => scOffset e = chunkOffset chunk) (concat chunks) = chunk.
Proof.
  intros Hu Hs [before [after ->]]%list_elem_of_split.
  apply StronglySorted_app in Hs as (H1 & _ & [H2 _]%StronglySorted_cons).
  apply Forall_app in Hu as [Hu1 [Hu2 Hu3]%Forall_cons]. rewrite Forall_forall in Hu1, H2, Hu3.
  rewrite concat_app. simpl. rewrite !filter_app. rewrite (filter_none _ (concat before)).
  2: { apply Forall_forall. intros e (c & Hc & He)%elem_of_concat.
    rewrite (uniform_offset c e) by auto. specialize (H1 c chunk Hc ltac:(set_solver)). cbv beta in H1. lia. }
  rewrite (filter_none _ (concat after)), app_nil_r.
  2: { apply Forall_forall. intros e (c & Hc & He)%elem_of_concat.
    rewrite (uniform_offset c e) by auto. specialize (H2 c Hc). cbv beta in H2. lia. }
  apply filter_id, Forall_forall. intros e He. by apply uniform_offset.
Qed.

(** The sorted schedule of timelines and its chunks. *)
Lemma Compile_cut timelines :
  let sorted := stableSortBy scheduleKey (scheduledTransitions timelines) in
  exists chunks, concat chunks = sorted /\ Forall uniform chunks /\
    StronglySorted (fun x y => chunkOffset x < chunkOffset y) chunks /\
    Compile timelines = map collect chunks.
Proof.
  intros sorted. apply groupTransitions_cut.
  eapply StronglySorted_weaken; [apply schedule_byOffset|apply stableSortBy_sorted].
Qed.

Definition entriesAt (o : Z) (ended : Z) (l : list scheduledTransition) : list scheduledTransition :=
  filter (fun e => scheduleKey e = (o, ended)) l.

Lemma sorted_entriesAt o l :
  filter (fun e => scOffset e = o) (stableSortBy scheduleKey l) = entriesAt o 0 l ++ entriesAt o 1 l.
Proof.
  set (sorted := stableSortBy scheduleKey l).
  rewrite (ends_first (filter _ sorted)).
  - rewrite !list_filter_filter. unfold entriesAt. rewrite <- !(stableSortBy_filter scheduleKey _ l).
    fold sorted. f_equal; apply list_filter_iff; intros e; unfold isEnd, scheduleKey;
      destruct (scEnd e); naive_solver.
  - apply StronglySorted_filter, stableSortBy_sorted.
  - apply Forall_forall. intros x [Hx _]%list_elem_of_filter.
    apply Forall_forall. intros y [Hy _]%list_elem_of_filter. congruence.
Qed.

(** C5.  Compilation: the transitions have strictly increasing offsets, one
    for each offset at which some phase starts or ends; the transition of an
    offset holds the ends at that offset and then the starts, each in authored
    order, and nothing else. *)
Theorem compile_groups timelines :
  let entries := scheduledTransitions timelines in
  let transitions := Compile timelines in
  StronglySorted Z.lt (map tOffset transitions) /\
  (forall o, o ∈ map tOffset transitions <-> o ∈ map scOffset entries) /\
  forall t, t ∈ transitions ->
    t = foldl addScheduled (emptyTransition (tOffset t))
          (entriesAt (tOffset t) 0 entries ++ entriesAt (tOffset t) 1 entries).
Proof.
  intros entries transitions. destruct (Compile_cut timelines) as (chunks & Hc & Hu & Hs & E).
  fold entries in Hc. unfold transitions. rewrite E, map_map.
  assert (map (fun x => tOffset (collect x)) chunks = map chunkOffset chunks) as ->.
  { apply map_ext. apply collect_offset. }
  split_and!.
  - revert Hs; clear; intros Hs; induction Hs as [|c l _ IH Hc]; simpl; constructor; [done|]. by apply Forall_map.
  - intros o. rewrite !list_elem_of_fmap. split.
    + intros (c & -> & Hin). rewrite Forall_forall in Hu. destruct (Hu _ Hin) as (e & l & -> & _).
      exists e. split; [done|]. rewrite <- (stableSortBy_perm scheduleKey), <- Hc. apply elem_of_concat.
      exists (e :: l). split; [done|]. by left.
    + intros (e & -> & Hin). rewrite <- (stableSortBy_perm scheduleKey), <- Hc in Hin.
      apply elem_of_concat in Hin as (c & Hin & He). exists c. split; [|done].
      rewrite Forall_forall in Hu. by apply uniform_offset; auto.
  - intros t (c & -> & Hin)%list_elem_of_fmap. rewrite collect_offset.
    rewrite <- sorted_entriesAt, <- Hc. by rewrite chunk_filter.
Qed.

(** ** The active phases of the worker *)

Lemma elem_of_activeLabels (active : gmap string string) label :
  label ∈ activeLabels active <-> exists x, active !! x = Some label.
Proof.
  unfold activeLabels. rewrite sortBy_perm, list_elem_of_fmap. split.
  - intros ([x l] & -> & Hx%elem_of_map_to_list). by exists x.
  - intros (x & Hx). exists (x, label). by rewrite elem_of_map_to_list.
Qed.

Lemma runLoop_active {T : Type} `{Target T} (world : World) started ts active (r : Runner T) :
  let '(active', r', ok) := runLoop world started ts active r in
  ok = true -> active' = foldl updateActive active ts /\
    (ts <> [] -> rsActivePhases (ruStatus r') = activeLabels active').
Proof.
  revert active r. induction ts as [|t ts IH]; intros active r; simpl; [done|].
  destruct (negb _); [done|].
  match goal with |- context [applyTransition world t ?x] => destruct (applyTransition world t x) as [r1 [|]] end;
    simpl; [|done].
  match goal with |- context [runLoop world started ts ?a ?x] =>
    specialize (IH a x); destruct (runLoop world started ts a x) as [[active' r'] ok] eqn:E end.
  intros Hok. destruct (IH Hok) as [IH1 IH2]. split; [done|]. intros _.
  destruct ts as [|t' ts]; [|by apply IH2]. simpl in E. by injection E as <- <- _.
Qed.

(** ** What is in progress *)

Definition inProgress (timelines : list BehaviorTimeline) (o : Z) (x label : string) : Prop :=
  exists i r p tl ph, occurrence timelines i r p tl ph /\
    startOf tl r ph <= o < startOf tl r ph + phDuration ph /\
    x = phaseID i r p /\ label = prLabel (phaseRef i r tl p ph).

Section progress.
Context (timelines : list BehaviorTimeline).
Hypothesis Hauthored : Forall authoredTimeline timelines.

Let sorted := stableSortBy scheduleKey (scheduledTransitions timelines).

(** In the sorted schedule an occurrence starts before it ends. *)
Lemma sorted_of_phase i r p tl ph :
  occurrence timelines i r p tl ph ->
  filter (fun e => prID (scPhase e) = phaseID i r p) sorted = compilePhase i tl r p ph.
Proof.
  intros Hocc. pose proof (scheduled_of_phase _ _ _ _ _ _ Hocc) as E.
  destruct Hocc as (Hi & Hr & Hp). rewrite Forall_lookup in Hauthored.
  destruct (start_exact i r p tl ph (Hauthored _ _ Hi) Hr Hp) as (E1 & E2 & Hd).
  set (P e := prID (scPhase e) = phaseID i r p) in *.
  assert (filter P sorted ≡ₚ compilePhase i tl r p ph) as Hperm.
  { rewrite <- E. apply filter_Permutation. apply stableSortBy_perm. }
  assert (StronglySorted byOffset (filter P sorted)) as Hs.
  { eapply StronglySorted_weaken; [apply schedule_byOffset|].
    apply StronglySorted_filter, stableSortBy_sorted. }
  unfold compilePhase in *. symmetry in Hperm.
  apply Permutation_length_2_inv in Hperm as [->| Ep]; [done|]. rewrite Ep in Hs.
  apply StronglySorted_cons in Hs as [[Hle _]%Forall_cons _]. unfold byOffset in Hle.
  rewrite E1, E2 in Hle. unfold millisecond in Hd. lia.
Qed.

Lemma active_upto o x label :
  foldl entryStep ∅ (filter (fun e => scOffset e <= o) sorted) !! x = Some label <->
  inProgress timelines o x label.
Proof.
  rewrite lookup_entries, list_filter_filter.
  assert (forall i r p tl ph, occurrence timelines i r p tl ph ->
    filter (fun e => prID (scPhase e) = phaseID i r p /\ scOffset e <= o) sorted =
    filter (fun e => scOffset e <= o) (compilePhase i tl r p ph)) as Hf.
  { intros i r p tl ph Hocc. rewrite <- (sorted_of_phase _ _ _ _ _ Hocc), list_filter_filter.
    apply list_filter_iff. tauto. }
  assert (forall i r p tl ph, occurrence timelines i r p tl ph ->
    match last (filter (fun e => scOffset e <= o) (compilePhase i tl r p ph)) with
    | Some e => if scEnd e then None else Some (prLabel (scPhase e))
    | None => None
    end = Some label <->
    startOf tl r ph <= o < startOf tl r ph + phDuration ph /\ label = prLabel (phaseRef i r tl p ph)) as Hl.
  { intros i r p tl ph (Hi & Hr & Hp). rewrite Forall_lookup in Hauthored.
    destruct (start_exact i r p tl ph (Hauthored _ _ Hi) Hr Hp) as (E1 & E2 & Hd).
    unfold compilePhase. rewrite !filter_cons, E1, E2, filter_nil. unfold millisecond in Hd.
    destruct (decide (startOf tl r ph <= o)), (decide (startOf tl r ph + phDuration ph <= o));
      try lia; simpl.
    - assert (scEnd (phaseEnd (phaseRef i r tl p ph) (cycleStart tl r) ph) = true) as ->
        by (unfold phaseEnd, behaviorActions; by destruct (phReset ph)).
      split; [done|lia].
    - split; [intros [= <-]; split; [lia|done]|by intros [_ ->]].
    - split; [done|lia]. }
  split.
  - intros Hm. assert (exists e, last (filter (fun e => prID (scPhase e) = x /\ scOffset e <= o) sorted) = Some e)
      as (e & El) by (by destruct (last _); [eexists|]).
    apply last_Some_elem_of in El as [[Hx Hle] Hin]%list_elem_of_filter.
    unfold sorted in Hin. rewrite stableSortBy_perm in Hin.
    apply elem_of_scheduled in Hin as (i & r & p & tl & ph & Hocc & He).
    apply compilePhase_phase in He. rewrite He in Hx. simpl in Hx. subst x.
    exists i, r, p, tl, ph. rewrite (Hf i r p tl ph), (Hl i r p tl ph) in Hm by done.
    destruct Hm as [[? ?] ?]. by split_and!.
  - intros (i & r & p & tl & ph & Hocc & Ho & -> & ->). rewrite (Hf i r p tl ph) by done.
    by apply (Hl i r p tl ph).
Qed.

Lemma active_after before t after :
  Compile timelines = before ++ t :: after ->
  foldl updateActive ∅ (before ++ [t]) =
  foldl entryStep ∅ (filter (fun e => scOffset e <= tOffset t) sorted).
Proof.
  intros E. destruct (Compile_cut timelines) as (chunks & Hc & Hu & Hs & E'). fold sorted in Hc.
  rewrite E' in E. clear E'.
  apply fmap_app_inv in E as (cb & cr & -> & Er & ->).
  symmetry in Er. apply fmap_cons_inv in Er as (c & ca & -> & -> & ->).
  assert (StronglySorted (key_le scheduleKey) sorted) as Hsort by apply stableSortBy_sorted.
  replace (cb ++ c :: ca) with ((cb ++ [c]) ++ ca) in * by (by rewrite <- app_assoc).
  rewrite concat_app in Hc. apply Forall_app in Hu as [Hu1 Hu2].
  apply StronglySorted_app in Hs as (Hs1 & Hs & _).
  change ((collect <$> cb) ++ [collect c]) with (map collect cb ++ map collect [c]).
  rewrite <- (map_app collect cb [c]).
  rewrite collect_offset, active_chunks; [|done|].
  2: { rewrite <- Hc in Hsort. by apply StronglySorted_app_1_l in Hsort. }
  f_equal. rewrite <- Hc, filter_app. rewrite Forall_forall in Hu1, Hu2.
  rewrite (filter_none _ (concat ca)), app_nil_r.
  2: { apply Forall_forall. intros e (c' & Hc' & He)%elem_of_concat.
    rewrite (uniform_offset c' e) by auto. specialize (Hs1 c c' ltac:(set_solver) Hc').
    cbv beta in Hs1. lia. }
  symmetry. apply filter_id, Forall_forall. intros e (c' & Hc' & He)%elem_of_concat.
  rewrite (uniform_offset c' e) by auto. apply elem_of_app in Hc' as [Hc'|Hc'%list_elem_of_singleton]; [|by subst].
  apply StronglySorted_app in Hs as (Hs & _ & _). specialize (Hs c' c Hc' ltac:(set_solver)).
  cbv beta in Hs. lia.
Qed.

(** The active phases a replay reports are the phases in progress: right
    after the transition of offset [o], a phase is active exactly when one of
    its repetitions started at or before [o] and has not yet lasted its
    duration, and the status lists the labels of those, sorted. *)
Theorem active_in_progress {T : Type} `{Target T} (world : World) started before t after active
    (r r' : Runner T) :
  Compile timelines = before ++ t :: after ->
  runLoop world started (before ++ [t]) ∅ r = (active, r', true) ->
  (forall x label, active !! x = Some label <-> inProgress timelines (tOffset t) x label) /\
  (forall label, label ∈ rsActivePhases (ruStatus r') <-> exists x, inProgress timelines (tOffset t) x label) /\
  StronglySorted kle (rsActivePhases (ruStatus r')).
Proof.
  intros E Hrun. pose proof (runLoop_active world started (before ++ [t]) ∅ r) as Hact.
  rewrite Hrun in Hact. destruct (Hact eq_refl) as [-> ->]; [|by destruct before].
  rewrite (active_after _ _ _ E). split_and!.
  - intros x label. apply active_upto.
  - intros label. rewrite elem_of_activeLabels. by setoid_rewrite active_upto.
  - apply (sortBy_sorted id).
Qed.
End progress.

(** ** One-shot identities *)

Lemma collect_oneShots l t :
  tOneShotActions (foldl addScheduled t l) = tOneShotActions t ++ concat (map scOneShotActions l).
Proof.
  revert t. induction l as [|e l IH]; intros t; simpl; [by rewrite app_nil_r|].
  rewrite IH. simpl. by rewrite <- app_assoc.
Qed.

Lemma concat_map_Permutation {A B} (f : A -> list B) l1 l2 :
  l1 ≡ₚ l2 -> concat (map f l1) ≡ₚ concat (map f l2).
Proof.
  induction 1; simpl; [done|by f_equiv| |by etrans].
  rewrite !app_assoc. by rewrite (Permutation_app_comm (f y)).
Qed.

Lemma oneShots_perm timelines :
  concat (map tOneShotActions (Compile timelines)) ≡ₚ
  concat (map scOneShotActions (scheduledTransitions timelines)).
Proof.
  destruct (Compile_cut timelines) as (chunks & Hc & _ & _ & ->).
  rewrite <- (concat_map_Permutation _ _ _ (stableSortBy_perm scheduleKey (scheduledTransitions timelines))).
  rewrite <- Hc. clear Hc. induction chunks as [|c chunks IH]; simpl; [done|].
  rewrite map_app, concat_app, IH. f_equal. unfold collect. by rewrite collect_oneShots.
Qed.

Lemma NoDup_by_filter {A} `{EqDecision A} (l : list A) :
  (forall x, x ∈ l -> NoDup (filter (fun y => y = x) l)) -> NoDup l.
Proof.
  induction l as [|a l IH]; intros Hf; constructor.
  - intros Ha. specialize (Hf a ltac:(by left)). rewrite filter_cons_True in Hf by done.
    apply NoDup_cons in Hf as [Hn _]. apply Hn. by apply list_elem_of_filter.
  - apply IH. intros x Hx. specialize (Hf x ltac:(by right)). rewrite filter_cons in Hf.
    destruct (decide (a = x)); [by apply NoDup_cons in Hf as [_ Hf]|done].
Qed.

Lemma filter_concat_filter {A B} (P : A -> Prop) `{!forall x, Decision (P x)} (Q : B -> Prop)
    `{!forall x, Decision (Q x)} (f : A -> list B) (l : list A) :
  (forall x b, x ∈ l -> b ∈ f x -> Q b -> P x) ->
  filter Q (concat (map f l)) = filter Q (concat (map f (filter P l))).
Proof.
  induction l as [|x l IH]; intros Hf; simpl; [done|]. rewrite filter_app, filter_cons.
  rewrite IH by (intros y b Hy; apply Hf; by right).
  destruct (decide (P x)) as [Hx|Hx]; simpl; [by rewrite filter_app|].
  rewrite filter_none; [done|]. apply Forall_forall. intros b Hb HQ. apply Hx.
  apply (Hf x b); [by left|done|done].
Qed.

Lemma occurrence_oneShots timelines e x :
  e ∈ scheduledTransitions timelines -> x ∈ map osID (scOneShotActions e) ->
  exists i r p tl ph n, occurrence timelines i r p tl ph /\ x = oneShotID (phaseID i r p) n /\
    e = phaseStart (phaseRef i r tl p ph) (cycleStart tl r) ph.
Proof.
  intros He Hx. apply elem_of_scheduled in He as (i & r & p & tl & ph & Hocc & He).
  unfold compilePhase in He. apply elem_of_cons in He as [->|[->|[]%elem_of_nil]%elem_of_cons].
  - apply list_elem_of_fmap in Hx as (a & -> & Ha). unfold phaseStart, behaviorActions in Ha.
    simpl in Ha. apply elem_of_lookup_imap in Ha as (n & b & -> & _). by exists i, r, p, tl, ph, n.
  - exfalso. unfold phaseEnd, behaviorActions in Hx. destruct (phReset ph); by apply elem_of_nil in Hx.
Qed.

(** One-shot identities never collide: all the one-shot actions of a
    compiled schedule, over every timeline, repetition and phase, have distinct
    identities, so a device executes each authored occurrence of its own. *)
Theorem one_shot_ids_unique timelines :
  NoDup (map osID (concat (map tOneShotActions (Compile timelines)))).
Proof.
  change (NoDup (osID <$> concat (map tOneShotActions (Compile timelines)))).
  rewrite (fmap_Permutation osID _ _ (oneShots_perm timelines)).
  change (osID <$> concat (map scOneShotActions (scheduledTransitions timelines)))
    with (map osID (concat (map scOneShotActions (scheduledTransitions timelines)))).
  rewrite concat_map, map_map. apply NoDup_by_filter. intros x Hx.
  apply elem_of_concat in Hx as (l & (e & -> & He)%list_elem_of_fmap & Hx).
  destruct (occurrence_oneShots _ _ _ He Hx) as (i & r & p & tl & ph & n & Hocc & -> & ->).
  rewrite (filter_concat_filter (fun e => prID (scPhase e) = phaseID i r p)).
  - rewrite (scheduled_of_phase _ _ _ _ _ _ Hocc). apply NoDup_filter. simpl.
    assert (map osID (scOneShotActions (phaseEnd (phaseRef i r tl p ph) (cycleStart tl r) ph)) = []) as ->
      by (unfold phaseEnd, behaviorActions; by destruct (phReset ph)).
    rewrite !app_nil_r. apply NoDup_alt. intros a b y Ha Hb.
    unfold phaseStart, behaviorActions, compileOneShotActions in Ha, Hb. simpl in Ha, Hb.
    change (map osID) with (fmap (M := list) osID) in Ha, Hb.
    rewrite list_lookup_fmap, list_lookup_imap in Ha, Hb.
    destruct (phActions ph !! a) as [x|]; [|done]. destruct (phActions ph !! b) as [x'|]; [|done].
    simpl in Ha, Hb. injection Ha as <-. injection Hb as Hb. symmetry in Hb.
    by apply oneShotID_inj in Hb as (_ & _ & _ & ?).
  - intros e y He' Hy ->. destruct (occurrence_oneShots _ _ _ He' Hy) as (i' & r' & p' & tl' & ph' & n' & _ & E & ->).
    apply oneShotID_inj in E as (-> & -> & -> & _). done.
Qed.

(** ** A replay in full *)

(** A target that accepts every call and keeps its name. *)
#[export] Instance recorder : Target (list string) := {
  tgSetInterfaceFault d i k v x := (x ++ ["set " +:+ d +:+ " " +:+ i +:+ " " +:+ k +:+ " " +:+ pretty v]%string, None);
  tgSetDeviceFault d k v x := (x ++ ["set " +:+ d +:+ " " +:+ k +:+ " " +:+ pretty v]%string, None);
  tgSetDeviceAddressFault d k _ x := (x ++ ["address " +:+ d +:+ " " +:+ k]%string, None);
  tgClearDeviceFault d k x := (x ++ ["clear " +:+ d +:+ " " +:+ k]%string, None);
  tgSetInterfaceAddressFault d _ x := (x ++ ["address " +:+ d]%string, None);
  tgClearInterfaceAddressFault d i _ x := (x ++ ["clear " +:+ d +:+ " " +:+ i]%string, None);
  tgSetInterfacePrefixFault d _ x := (x ++ ["mask " +:+ d]%string, None);
  tgClearInterfacePrefixFault d i _ x := (x ++ ["unmask " +:+ d +:+ " " +:+ i]%string, None);
  tgExecuteDeviceAction d k id x := (x ++ [k +:+ " " +:+ d +:+ " " +:+ id]%string, None);
  tgRoamStation a x := (x ++ ["roam " +:+ raStation a]%string, None)
}.

Definition openWorld : World := mkWorld (fun n => Z.of_nat n) (fun _ _ => true) (fun _ => false).

Definition flapTimeline : BehaviorTimeline :=
  mkBehaviorTimeline "flap" 0 2
    [mkBehaviorPhase "down" 0 (5 * millisecond) true []
       [mkBehaviorFault "sw1" "eth0" FaultLinkDown 1 AddrZero 0] [mkBehaviorAction "sw1" ActionReboot] []].

Definition flapRunner : Runner (list string) := Start openWorld (NewWithClock [] (Compile [flapTimeline])).

Example flap_calls :
  ruTarget (run openWorld 0 flapRunner) =
  ["set sw1 eth0 link_down 1"; "reboot sw1 0:0:0:0"; "set sw1 eth0 link_down 0";
   "set sw1 eth0 link_down 1"; "reboot sw1 0:1:0:0"; "set sw1 eth0 link_down 0"]%string.
Proof. vm_compute. reflexivity. Qed.

Lemma active_in_progress_witness :
  Forall authoredTimeline [flapTimeline] /\
  exists before t after active r',
    Compile [flapTimeline] = before ++ t :: after /\
    runLoop openWorld 0 (before ++ [t]) ∅ flapRunner = (active, r', true) /\
    ((forall x label, active !! x = Some label <-> inProgress [flapTimeline] (tOffset t) x label) /\
     (forall label, label ∈ rsActivePhases (ruStatus r') <->
        exists x, inProgress [flapTimeline] (tOffset t) x label) /\
     StronglySorted kle (rsActivePhases (ruStatus r'))).
Proof.
  assert (Forall authoredTimeline [flapTimeline]) as Ha.
  { constructor; [|constructor]. split; [done|done|].
    constructor; [|constructor]. split; done. }
  split; [exact Ha|]. eexists (take 1 (Compile [flapTimeline])), _, (drop 2 (Compile [flapTimeline])), _, _.
  split; [vm_compute; reflexivity|]. split; [vm_compute; reflexivity|].
  eapply (active_in_progress [flapTimeline] Ha openWorld 0 (take 1 (Compile [flapTimeline])) _
    (drop 2 (Compile [flapTimeline])) _ flapRunner); vm_compute; reflexivity.
Defined.
