(* ===== verification/Conflicts.v ===== *)
(** * Behavior timelines: the loader's checks

    [config/behavior.go]: two timelines may not hold one target at a time, and
    a schedule has a bounded number of action applications.  Which of several
    conflicts is reported depends on map order, so a check answers whether it
    accepts. *)

From Stdlib Require Import Ascii.
From S2P Require Import Prelude.
From S2P Require Import Netip.
From S2P Require Import DeviceTypes.
From S2P Require Import Schedule.
From S2P Require Import Runner.
From S2P Require Import ScheduleTheorems.

(** ** Schedule size *)

Definition maxBehaviorScheduledActions : Z := 100000.

Definition phaseApplications (phase : BehaviorPhase) : Z :=
  let applications := Z.of_nat (length (phTraffic phase)) + Z.of_nat (length (phFaults phase))
    + Z.of_nat (length (phRoams phase)) in
  let applications := if phReset phase then int64 (applications * 2) else applications in
  int64 (applications + Z.of_nat (length (phActions phase))).

Fixpoint phasesSize (repeatCount scheduledActions : Z) (phases : list BehaviorPhase) : option Z :=
  match phases with
  | [] => Some scheduledActions
  | phase :: rest =>
      let scheduledActions :=
        int64 (scheduledActions + int64 (phaseApplications phase * repeatCount)) in
      if maxBehaviorScheduledActions <? scheduledActions then None
      else phasesSize repeatCount scheduledActions rest
  end.

Fixpoint timelinesSize (scheduledActions : Z) (timelines : list BehaviorTimeline) : option Z :=
  match timelines with
  | [] => Some scheduledActions
  | timeline :: rest =>
      match phasesSize (tlRepeatCount timeline) scheduledActions (tlPhases timeline) with
      | None => None
      | Some scheduledActions => timelinesSize scheduledActions rest
      end
  end.

Definition validateBehaviorScheduleSize (timelines : list BehaviorTimeline) : bool :=
  bool_decide (is_Some (timelinesSize 0 timelines)).

(** ** Conflicts *)

Record behaviorInterval := mkInterval {
  biStart : Duration;
  biEnd : Duration;
  biPersistent : bool;
  biTimelineIndex : nat;
  biTimeline : string;
  biPhase : string
}.

(** ["\x00"] *)
Definition nul : string := String "000"%char EmptyString.

Definition behaviorConflictKey (device iface faultType : string) : string :=
  (device +:+ nul +:+ iface +:+ nul +:+ faultType)%string.

Definition behaviorPhaseTargetKeys (phase : BehaviorPhase) : gset string :=
  list_to_set (map (fun t => behaviorConflictKey (btDevice t) (btInterface t) "high_utilization")
    (phTraffic phase)) ∪
  list_to_set (map (fun f => behaviorConflictKey (bfDevice f) (bfInterface f) (bfType f))
    (phFaults phase)) ∪
  list_to_set (omap (fun r => (fun mac => behaviorConflictKey (macString mac) "" "roam") <$>
    ParseMAC (brStation r)) (phRoams phase)).

Definition behaviorTimelineDuration (phases : list BehaviorPhase) : Duration :=
  foldl (fun duration phase => Z.max duration (int64 (phStartOffset phase + phDuration phase)))
    0 phases.

Definition phaseInterval (timelineIndex : nat) (timeline : BehaviorTimeline) (phase : BehaviorPhase)
    (repetition : nat) : behaviorInterval :=
  let cycleDuration := behaviorTimelineDuration (tlPhases timeline) in
  let start := int64 (int64 (tlStartOffset timeline +
    int64 (Z.of_nat repetition * cycleDuration)) + phStartOffset phase) in
  mkInterval start (int64 (start + phDuration phase)) (negb (phReset phase)) timelineIndex
    (tlName timeline) (phName phase).

Definition fileInterval (m : gmap string (list behaviorInterval)) (key : string)
    (interval : behaviorInterval) : gmap string (list behaviorInterval) :=
  <[key := default [] (m !! key) ++ [interval]]> m.

Definition filePhase (timelineIndex : nat) (timeline : BehaviorTimeline)
    (m : gmap string (list behaviorInterval)) (phase : BehaviorPhase)
    : gmap string (list behaviorInterval) :=
  let keys := behaviorPhaseTargetKeys phase in
  let repetitions := if phReset phase then Z.to_nat (tlRepeatCount timeline) else 1%nat in
  foldl (fun m repetition =>
    foldl (fun m key => fileInterval m key (phaseInterval timelineIndex timeline phase repetition))
      m (elements keys)) m (seq 0 repetitions).

Fixpoint fileTimelines (timelineIndex : nat) (timelines : list BehaviorTimeline)
    (m : gmap string (list behaviorInterval)) : gmap string (list behaviorInterval) :=
  match timelines with
  | [] => m
  | timeline :: rest =>
      fileTimelines (S timelineIndex) rest
        (foldl (filePhase timelineIndex timeline) m (tlPhases timeline))
  end.

Definition behaviorIntervalsByTarget (timelines : list BehaviorTimeline)
    : gmap string (list behaviorInterval) :=
  fileTimelines 0 timelines ∅.

(** The previous interval does not stand in the way of one that starts at [o]. *)
Definition cleared (previous : behaviorInterval) (o : Duration) : bool :=
  negb (biPersistent previous) && (biEnd previous <=? o).

Definition furthest (furthestByTimeline : gmap nat behaviorInterval) (current : behaviorInterval)
    : gmap nat behaviorInterval :=
  match furthestByTimeline !! biTimelineIndex current with
  | Some previous =>
      if biPersistent current || (negb (biPersistent previous) && (biEnd previous <? biEnd current))
      then <[biTimelineIndex current := current]> furthestByTimeline else furthestByTimeline
  | None => <[biTimelineIndex current := current]> furthestByTimeline
  end.

Fixpoint intervalsLoop (furthestByTimeline : gmap nat behaviorInterval)
    (intervals : list behaviorInterval) : bool :=
  match intervals with
  | [] => true
  | current :: rest =>
      if forallb (fun '(timelineIndex, previous) =>
           bool_decide (timelineIndex = biTimelineIndex current) || cleared previous (biStart current))
           (map_to_list furthestByTimeline)
      then intervalsLoop (furthest furthestByTimeline current) rest
      else false
  end.

Definition validateBehaviorTargetIntervals (intervals : list behaviorInterval) : bool :=
  intervalsLoop ∅ (sortBy biStart intervals).

Definition validateBehaviorConflicts (timelines : list BehaviorTimeline) : bool :=
  forallb (fun '(_, intervals) => validateBehaviorTargetIntervals intervals)
    (map_to_list (behaviorIntervalsByTarget timelines)).

(** ** The sweep over one target's intervals *)

Definition apart (a b : behaviorInterval) : Prop :=
  biTimelineIndex a <> biTimelineIndex b -> cleared a (biStart b) = true.

(** The interval kept for a timeline outlasts all those seen of it. *)
Definition outlasts (seen : list behaviorInterval) (m : gmap nat behaviorInterval) : Prop :=
  (forall i f, m !! i = Some f -> f ∈ seen /\ biTimelineIndex f = i) /\
  (forall a, a ∈ seen -> exists f, m !! biTimelineIndex a = Some f /\
     forall o, cleared f o = true -> cleared a o = true).

Lemma cleared_spec a o : cleared a o = true <-> biPersistent a = false /\ biEnd a <= o.
Proof. unfold cleared. destruct (biPersistent a); simpl; [|rewrite Z.leb_le]; naive_solver. Qed.

Lemma furthest_outlasts seen m current :
  outlasts seen m -> outlasts (seen ++ [current]) (furthest m current).
Proof.
  intros [H1 H2]. unfold furthest.
  assert (forall m', m' = m \/ m' = <[biTimelineIndex current := current]> m ->
    forall i f, m' !! i = Some f -> f ∈ seen ++ [current] /\ biTimelineIndex f = i) as Hfrom.
  { intros m' [->| ->] i f Hf.
    - destruct (H1 _ _ Hf). set_solver.
    - apply lookup_insert_Some in Hf as [[<- <-]|[_ Hf]]; [set_solver|]. destruct (H1 _ _ Hf). set_solver. }
  assert ((forall previous, m !! biTimelineIndex current = Some previous ->
      forall o, cleared current o = true -> cleared previous o = true) ->
    outlasts (seen ++ [current]) (<[biTimelineIndex current := current]> m)) as Hnew.
  { intros Hc. split; [by apply Hfrom; right|]. intros a [Ha|Ha%list_elem_of_singleton]%elem_of_app.
    - destruct (H2 _ Ha) as (f & Hf & Hfo). destruct (decide (biTimelineIndex a = biTimelineIndex current)) as [E|Hne].
      + exists current. rewrite E, lookup_insert_eq. split; [done|]. intros o Ho. apply Hfo.
        rewrite E in Hf. by apply (Hc _ Hf).
      + exists f. by rewrite lookup_insert_ne.
    - subst a. exists current. by rewrite lookup_insert_eq. }
  destruct (m !! biTimelineIndex current) as [previous|] eqn:Hprev.
  - destruct (biPersistent current || _) eqn:E.
    + apply Hnew. intros p [= <-] o. rewrite !cleared_spec.
      destruct (biPersistent current), (biPersistent previous); simpl in E; [naive_solver..|done|].
      apply Z.ltb_lt in E. intros [_ ?]. split; [done|lia].
    + split; [by apply Hfrom; left|]. intros a [Ha|Ha%list_elem_of_singleton]%elem_of_app; [by apply H2|].
      subst a. exists previous. split; [done|]. intros o. rewrite !cleared_spec.
      apply orb_false_iff in E as [-> E]. destruct (biPersistent previous); simpl in E; [naive_solver|].
      apply Z.ltb_ge in E. intros [_ ?]. split; [done|lia].
  - apply Hnew. done.
Qed.

Lemma intervalsLoop_spec seen m l :
  outlasts seen m ->
  intervalsLoop m l = true <->
  Forall (fun b => Forall (fun a => apart a b) seen) l /\ StronglySorted apart l.
Proof.
  revert seen m. induction l as [|b l IH]; intros seen m Ho; simpl.
  { split; [intros _; split; constructor|done]. }
  assert (forallb (fun '(i, previous) => bool_decide (i = biTimelineIndex b) || cleared previous (biStart b))
    (map_to_list m) = true <-> Forall (fun a => apart a b) seen) as Hb.
  { destruct Ho as [H1 H2]. rewrite forallb_forall, Forall_forall. unfold apart. split.
    - intros Hall a Ha Hne. destruct (H2 _ Ha) as (f & Hf & Hfo). apply Hfo.
      apply elem_of_map_to_list, list_elem_of_In, Hall in Hf. by rewrite bool_decide_eq_false_2 in Hf.
    - intros Hall [i f] Hf. apply list_elem_of_In, elem_of_map_to_list in Hf.
      destruct (H1 _ _ Hf) as [Hin <-]. case_bool_decide as E; [done|]. simpl. by apply Hall. }
  rewrite Forall_cons, StronglySorted_cons.
  destruct (forallb _ (map_to_list m)) eqn:E.
  - rewrite (IH (seen ++ [b])) by by apply furthest_outlasts.
    assert (Forall (fun a => apart a b) seen) as Hs by by apply Hb.
    setoid_rewrite Forall_app. setoid_rewrite Forall_singleton. rewrite Forall_and. tauto.
  - split; [done|]. intros [[Hs _] _]. by apply Hb in Hs.
Qed.

(** Positive intervals of different timelines are apart one way or the other. *)
Definition disjoint (a b : behaviorInterval) : Prop :=
  cleared a (biStart b) = true \/ cleared b (biStart a) = true.

Lemma validateBehaviorTargetIntervals_spec l :
  Forall (fun a => biStart a < biEnd a) l ->
  validateBehaviorTargetIntervals l = true <->
  forall a b, a ∈ l -> b ∈ l -> biTimelineIndex a <> biTimelineIndex b -> disjoint a b.
Proof.
  intros Hpos. unfold validateBehaviorTargetIntervals. rewrite (intervalsLoop_spec []).
  2: { split; [done|]. intros a Ha. by apply elem_of_nil in Ha. }
  pose proof (sortBy_sorted biStart l) as Hs. rewrite <- (sortBy_perm biStart) in Hpos.
  assert (forall a, a ∈ l <-> a ∈ sortBy biStart l) as Hin by (intros a; by rewrite sortBy_perm).
  setoid_rewrite Hin. clear Hin. revert Hpos Hs. generalize (sortBy biStart l). clear l.
  intros l Hpos Hs. split.
  - intros [_ Ha]. clear Hpos Hs. induction Ha as [|x l Ha IH Hx]; [intros a b []%elem_of_nil|].
    rewrite Forall_forall in Hx. intros a b [->|Hain]%elem_of_cons [->|Hbin]%elem_of_cons Hne.
    + done.
    + left. by apply Hx.
    + right. apply Hx; [done|congruence].
    + by apply IH.
  - intros Hd. split; [by apply Forall_forall; intros; constructor|].
    induction Hs as [|x l Hs IH Hx]; [constructor|]. apply Forall_cons in Hpos as [Hx1 Hpos].
    apply StronglySorted_cons. split; [|apply IH; [done|intros a b Ha Hb; apply Hd; by right]].
    rewrite Forall_forall in Hx, Hpos |- *. intros b Hb Hne.
    destruct (Hd x b ltac:(by left) ltac:(by right) Hne) as [H|H]; [done|].
    apply cleared_spec in H as [_ H]. specialize (Hx _ Hb). specialize (Hpos _ Hb).
    unfold key_le in Hx. change (biStart x <= biStart b) in Hx. lia.
Qed.

(** ** The intervals of a target *)

Definition atKey (m : gmap string (list behaviorInterval)) (key : string) : list behaviorInterval :=
  default [] (m !! key).

Definition adds {X} (f : gmap string (list behaviorInterval) -> X -> gmap string (list behaviorInterval))
    (P : X -> string -> behaviorInterval -> Prop) : Prop :=
  forall m x key a, a ∈ atKey (f m x) key <-> a ∈ atKey m key \/ P x key a.

Lemma adds_foldl {X} f (P : X -> string -> behaviorInterval -> Prop) l :
  adds f P -> forall m key a,
  a ∈ atKey (foldl f m l) key <-> a ∈ atKey m key \/ exists x, x ∈ l /\ P x key a.
Proof.
  intros Hf. induction l as [|x l IH]; intros m key a; simpl.
  - split; [by left|]. intros [?|(x & []%elem_of_nil & _)]; done.
  - rewrite IH, (Hf m x). setoid_rewrite elem_of_cons. split.
    + intros [[H|H]|(y & Hy & H)]; [by left|right; exists x; auto|right; exists y; auto].
    + intros [H|(y & [->|Hy] & H)]; [by left; left|by left; right|right; by exists y].
Qed.

Lemma adds_fileInterval interval :
  adds (fun m key => fileInterval m key interval) (fun k key a => key = k /\ a = interval).
Proof.
  intros m k key a. unfold atKey, fileInterval. destruct (decide (k = key)) as [->|Hne].
  - rewrite lookup_insert_eq. simpl. rewrite elem_of_app, list_elem_of_singleton. naive_solver.
  - rewrite lookup_insert_ne by done. naive_solver.
Qed.

Definition repetitionsOf (tl : BehaviorTimeline) (ph : BehaviorPhase) : nat :=
  if phReset ph then Z.to_nat (tlRepeatCount tl) else 1%nat.

Lemma adds_filePhase i tl :
  adds (filePhase i tl) (fun ph key a => key ∈ behaviorPhaseTargetKeys ph /\
    exists r, (r < repetitionsOf tl ph)%nat /\ a = phaseInterval i tl ph r).
Proof.
  intros m ph key a. unfold filePhase. fold (repetitionsOf tl ph).
  erewrite (adds_foldl _ (fun r key a => key ∈ behaviorPhaseTargetKeys ph /\ a = phaseInterval i tl ph r)).
  - apply or_iff_compat_l. setoid_rewrite elem_of_seq. split.
    + intros (r & Hr & Hk & ->). split; [done|]. exists r. split; [lia|done].
    + intros (Hk & r & Hr & ->). exists r. split_and!; [lia|lia|done|done].
  - intros m' r key' a'. rewrite (adds_foldl _ _ _ (adds_fileInterval _)).
    apply or_iff_compat_l. setoid_rewrite elem_of_elements. naive_solver.
Qed.

Lemma fileTimelines_spec timelines n m key a :
  a ∈ atKey (fileTimelines n timelines m) key <->
  a ∈ atKey m key \/ exists i tl ph r, timelines !! i = Some tl /\ ph ∈ tlPhases tl /\
    key ∈ behaviorPhaseTargetKeys ph /\ (r < repetitionsOf tl ph)%nat /\
    a = phaseInterval (n + i) tl ph r.
Proof.
  revert n m. induction timelines as [|tl timelines IH]; intros n m; simpl.
  { split; [by left|]. intros [?|(i & tl & ph & r & H & _)]; [done|by destruct i]. }
  rewrite IH, (adds_foldl _ _ _ (adds_filePhase n tl)). split.
  - intros [[H|(ph & Hph & Hk & r & Hr & ->)]|(i & tl' & ph & r & Hi & H)].
    + by left.
    + right. exists 0%nat, tl, ph, r. rewrite Nat.add_0_r. done.
    + right. exists (S i), tl', ph, r. rewrite Nat.add_succ_r. done.
  - intros [H|([|i] & tl' & ph & r & Hi & Hph & Hk & Hr & ->)]; [by left; left| |].
    + injection Hi as ->. left. right. rewrite Nat.add_0_r. exists ph. split_and!; [done|done|].
      by exists r.
    + right. exists i, tl', ph, r. by rewrite Nat.add_succ_r.
Qed.

Lemma conflicts_by_key timelines :
  validateBehaviorConflicts timelines = true <->
  forall key, validateBehaviorTargetIntervals (atKey (behaviorIntervalsByTarget timelines) key) = true.
Proof.
  unfold validateBehaviorConflicts, atKey. rewrite forallb_forall. split.
  - intros Hall key. destruct (behaviorIntervalsByTarget timelines !! key) as [l|] eqn:E; [|done].
    simpl. apply (Hall (key, l)). by apply list_elem_of_In, elem_of_map_to_list.
  - intros Hall [key l] Hin. apply list_elem_of_In, elem_of_map_to_list in Hin.
    specialize (Hall key). by rewrite Hin in Hall.
Qed.

(** ** What acceptance means *)

(** Repetition [r] of a phase holds a target until its end, or, without reset,
    for good. *)
Definition holdsUntil (tl : BehaviorTimeline) (r : nat) (ph : BehaviorPhase) (o : Z) : Prop :=
  phReset ph = true /\ startOf tl r ph + phDuration ph <= o.

Lemma phaseInterval_exact i tl ph r :
  authoredTimeline tl -> (r < Z.to_nat (tlRepeatCount tl))%nat -> ph ∈ tlPhases tl ->
  biStart (phaseInterval i tl ph r) = startOf tl r ph /\
  biEnd (phaseInterval i tl ph r) = startOf tl r ph + phDuration ph /\ 0 < phDuration ph.
Proof.
  intros Ha Hr [p Hp]%list_elem_of_lookup. destruct (start_exact i r p tl ph Ha Hr Hp) as (E1 & E2 & Hd).
  unfold millisecond in Hd. rewrite <- E2, <- E1. split_and!; [done| |lia].
  unfold phaseEnd, behaviorActions. by destruct (phReset ph).
Qed.

Lemma startOf_mono tl r ph :
  authoredTimeline tl -> startOf tl 0 ph <= startOf tl r ph.
Proof. intros [_ _ Hp]. pose proof (cycle_bounds _ Hp). unfold startOf. nia. Qed.

Section accepted.
Context (timelines : list BehaviorTimeline).
Hypothesis Hauthored : Forall authoredTimeline timelines.

(** The intervals filed: one per repetition, or the first without reset. *)
Definition filed_interval (key : string) (i : nat) (tl : BehaviorTimeline) (ph : BehaviorPhase)
    (r : nat) : Prop :=
  timelines !! i = Some tl /\ ph ∈ tlPhases tl /\ key ∈ behaviorPhaseTargetKeys ph /\
  (r < repetitionsOf tl ph)%nat.

Lemma filed_exact key i tl ph r :
  filed_interval key i tl ph r ->
  authoredTimeline tl /\ (r < Z.to_nat (tlRepeatCount tl))%nat /\
  biStart (phaseInterval i tl ph r) = startOf tl r ph /\
  biEnd (phaseInterval i tl ph r) = startOf tl r ph + phDuration ph /\ 0 < phDuration ph.
Proof.
  intros (Hi & Hp & _ & Hr). rewrite Forall_lookup in Hauthored. specialize (Hauthored _ _ Hi).
  split; [done|]. assert (r < Z.to_nat (tlRepeatCount tl))%nat as Hr'.
  { unfold repetitionsOf in Hr. destruct (at_repeat _ Hauthored). destruct (phReset ph); lia. }
  split; [done|]. by apply phaseInterval_exact.
Qed.

Lemma elem_of_intervals key a :
  a ∈ atKey (behaviorIntervalsByTarget timelines) key <->
  exists i tl ph r, filed_interval key i tl ph r /\ a = phaseInterval i tl ph r.
Proof.
  unfold behaviorIntervalsByTarget, filed_interval. rewrite fileTimelines_spec. split.
  - intros [[]%elem_of_nil|(i & tl & ph & r & H)]. exists i, tl, ph, r. simpl in H. tauto.
  - intros (i & tl & ph & r & H). right. exists i, tl, ph, r. simpl. tauto.
Qed.

Lemma target_accepted key :
  validateBehaviorTargetIntervals (atKey (behaviorIntervalsByTarget timelines) key) = true <->
  forall i tl ph r i' tl' ph' r', filed_interval key i tl ph r -> filed_interval key i' tl' ph' r' ->
    i <> i' -> holdsUntil tl r ph (startOf tl' r' ph') \/ holdsUntil tl' r' ph' (startOf tl r ph).
Proof.
  rewrite validateBehaviorTargetIntervals_spec.
  2: { apply Forall_forall. intros a (i & tl & ph & r & Hf & ->)%elem_of_intervals.
    destruct (filed_exact _ _ _ _ _ Hf) as (_ & _ & -> & -> & ?). lia. }
  assert (forall i tl ph r i' tl' ph' r', filed_interval key i tl ph r -> filed_interval key i' tl' ph' r' ->
    disjoint (phaseInterval i tl ph r) (phaseInterval i' tl' ph' r') <->
    holdsUntil tl r ph (startOf tl' r' ph') \/ holdsUntil tl' r' ph' (startOf tl r ph)) as Hd.
  { intros i tl ph r i' tl' ph' r' Hf Hf'. unfold disjoint, holdsUntil. rewrite !cleared_spec.
    destruct (filed_exact _ _ _ _ _ Hf) as (_ & _ & -> & -> & _).
    destruct (filed_exact _ _ _ _ _ Hf') as (_ & _ & -> & -> & _). simpl. by rewrite !negb_false_iff. }
  split.
  - intros Hall i tl ph r i' tl' ph' r' Hf Hf' Hne. rewrite <- (Hd i tl ph r i' tl' ph' r') by done.
    apply Hall; [apply elem_of_intervals; eauto 10..|done].
  - intros Hall a b (i & tl & ph & r & Hf & ->)%elem_of_intervals
      (i' & tl' & ph' & r' & Hf' & ->)%elem_of_intervals Hne.
    apply (Hd i tl ph r i' tl' ph' r'); [done|done|]. by apply (Hall i tl ph r i' tl' ph' r').
Qed.

(** A phase without reset is over for no one, whichever repetition is asked. *)
Lemma holdsUntil_first tl r ph tl' r' ph' :
  authoredTimeline tl -> authoredTimeline tl' ->
  holdsUntil tl (if phReset ph then r else 0) ph
    (startOf tl' (if phReset ph' then r' else 0) ph') ->
  holdsUntil tl r ph (startOf tl' r' ph').
Proof.
  intros Ha Ha' [Hreset Hle]. split; [done|]. rewrite Hreset in Hle.
  pose proof (startOf_mono tl' r' ph' Ha'). destruct (phReset ph'); lia.
Qed.

(** C8.  The conflict check is exact: timelines are accepted exactly when no
    target is ever held by two of them at once — for every two occurrences of
    phases of different timelines that touch the same target, one is over
    before the other starts, a phase without reset holding its target for
    good. *)
Theorem conflicts_exact :
  validateBehaviorConflicts timelines = true <->
  forall key i r p tl ph i' r' p' tl' ph',
    occurrence timelines i r p tl ph -> occurrence timelines i' r' p' tl' ph' -> i <> i' ->
    key ∈ behaviorPhaseTargetKeys ph -> key ∈ behaviorPhaseTargetKeys ph' ->
    holdsUntil tl r ph (startOf tl' r' ph') \/ holdsUntil tl' r' ph' (startOf tl r ph).
Proof.
  rewrite conflicts_by_key. setoid_rewrite target_accepted. split.
  - intros Hall key i r p tl ph i' r' p' tl' ph' (Hi & Hr & Hp) (Hi' & Hr' & Hp') Hne Hk Hk'.
    apply list_elem_of_lookup_2 in Hp, Hp'.
    assert (authoredTimeline tl) by (rewrite Forall_lookup in Hauthored; eauto).
    assert (authoredTimeline tl') by (rewrite Forall_lookup in Hauthored; eauto).
    destruct (Hall key i tl ph (if phReset ph then r else 0%nat) i' tl' ph'
      (if phReset ph' then r' else 0%nat)) as [H1|H1]; [..|done| |].
    1-2: split_and!; try done; unfold repetitionsOf; destruct (phReset _); lia.
    + left. by apply holdsUntil_first.
    + right. by apply holdsUntil_first.
  - intros Hall key i tl ph r i' tl' ph' r' Hf Hf' Hne.
    destruct (filed_exact _ _ _ _ _ Hf) as (_ & Hr & _), (filed_exact _ _ _ _ _ Hf') as (_ & Hr' & _).
    destruct Hf as (Hi & [p Hp]%list_elem_of_lookup & Hk & _).
    destruct Hf' as (Hi' & [p' Hp']%list_elem_of_lookup & Hk' & _).
    by apply (Hall key i r p tl ph i' r' p' tl' ph').
Qed.
End accepted.

(** Two timelines that shut the same interface, one after the other and at
    once. *)
Definition laterFlap : BehaviorTimeline :=
  mkBehaviorTimeline "later" (20 * millisecond) 1 (tlPhases flapTimeline).

Lemma flaps_authored : Forall authoredTimeline [flapTimeline; laterFlap].
Proof.
  assert (Forall authoredPhase (tlPhases flapTimeline)) by (constructor; [|constructor]; split; done).
  constructor; [|constructor; [|constructor]]; split; done.
Qed.

Lemma conflicts_exact_witness :
  validateBehaviorConflicts [flapTimeline; laterFlap] = true <->
  forall key i r p tl ph i' r' p' tl' ph',
    occurrence [flapTimeline; laterFlap] i r p tl ph ->
    occurrence [flapTimeline; laterFlap] i' r' p' tl' ph' -> i <> i' ->
    key ∈ behaviorPhaseTargetKeys ph -> key ∈ behaviorPhaseTargetKeys ph' ->
    holdsUntil tl r ph (startOf tl' r' ph') \/ holdsUntil tl' r' ph' (startOf tl r ph).
Proof. apply (conflicts_exact [flapTimeline; laterFlap]). exact flaps_authored. Defined.

Example flaps_accepted :
  validateBehaviorConflicts [flapTimeline; laterFlap] = true /\
  validateBehaviorConflicts [flapTimeline; flapTimeline] = false.
Proof. split; vm_compute; reflexivity. Qed.

(** ** The size of a schedule *)

Definition total {A} (f : A -> Z) (l : list A) : Z := foldr (fun x n => f x + n) 0 l.

Lemma total_app {A} (f : A -> Z) l1 l2 : total f (l1 ++ l2) = total f l1 + total f l2.
Proof. induction l1 as [|x l1 IH]; simpl; [done|lia]. Qed.

Lemma total_perm {A} (f : A -> Z) l1 l2 : l1 ≡ₚ l2 -> total f l1 = total f l2.
Proof. induction 1; simpl; lia. Qed.

Lemma total_concat {A} (f : A -> Z) ls : total f (concat ls) = total (total f) ls.
Proof. induction ls as [|l ls IH]; simpl; [done|]. by rewrite total_app, IH. Qed.

Lemma total_map {A B} (f : B -> Z) (g : A -> B) l : total f (map g l) = total (fun x => f (g x)) l.
Proof. induction l as [|x l IH]; simpl; [done|]. by rewrite IH. Qed.

Lemma total_imap {A B} (f : B -> Z) (h : A -> Z) (g : nat -> A -> B) l :
  (forall i x, x ∈ l -> f (g i x) = h x) -> total f (imap g l) = total h l.
Proof.
  revert g. induction l as [|x l IH]; intros g Hg; [done|]. rewrite imap_cons. simpl.
  rewrite Hg by (by left). rewrite (IH (g ∘ S)); [done|]. intros i y Hy. apply Hg. by right.
Qed.

Lemma total_nonneg {A} (f : A -> Z) l : (forall x, x ∈ l -> 0 <= f x) -> 0 <= total f l.
Proof.
  induction l as [|x l IH]; simpl; intros Hf; [lia|]. specialize (Hf x ltac:(by left)) as H1.
  assert (0 <= total f l) by (apply IH; intros y Hy; apply Hf; by right). lia.
Qed.

Definition transitionSize (t : Transition) : Z :=
  Z.of_nat (length (tActions t) + length (tDeviceActions t) + length (tAddressActions t) +
    length (tPrefixActions t) + length (tOneShotActions t) + length (tRoamActions t)).

Definition entrySize (e : scheduledTransition) : Z :=
  Z.of_nat (length (scActions e) + length (scDeviceActions e) + length (scAddressActions e) +
    length (scPrefixActions e) + length (scOneShotActions e) + length (scRoamActions e)).

Lemma collect_size l t : transitionSize (foldl addScheduled t l) = transitionSize t + total entrySize l.
Proof.
  revert t. induction l as [|e l IH]; intros t; simpl; [lia|]. rewrite IH.
  unfold transitionSize, entrySize. simpl. rewrite !length_app. lia.
Qed.

Lemma Compile_size timelines :
  total transitionSize (Compile timelines) = total entrySize (scheduledTransitions timelines).
Proof.
  destruct (Compile_cut timelines) as (chunks & Hc & _ & _ & ->).
  rewrite <- (total_perm _ _ _ (stableSortBy_perm scheduleKey (scheduledTransitions timelines))), <- Hc.
  clear Hc. induction chunks as [|c chunks IH]; simpl; [done|].
  rewrite total_app, IH. unfold collect. rewrite collect_size. done.
Qed.

(** Every authored fault is one action of one family. *)
Lemma length_omap_split {A B C D E} (f : A -> option B) (g : A -> option C) (h : A -> option D)
    (k : A -> option E) (l : list A) :
  (forall x, (length (option_list (f x)) + length (option_list (g x)) +
              length (option_list (h x)) + length (option_list (k x)) = 1)%nat) ->
  (length (omap f l) + length (omap g l) + length (omap h l) + length (omap k l) = length l)%nat.
Proof.
  intros Hx. induction l as [|x l IH]; [done|]. specialize (Hx x). csimpl.
  destruct (f x), (g x), (h x), (k x); simpl in *; lia.
Qed.

Lemma fault_families phase b :
  (length (behaviorActions phase).1 + length (behaviorActions phase).2 +
   length (interfaceAddressActions phase b) + length (interfacePrefixActions phase b) =
   length (phTraffic phase) + length (phFaults phase))%nat.
Proof.
  unfold behaviorActions, interfaceAddressActions, interfacePrefixActions. simpl.
  rewrite length_app, length_map.
  match goal with |- (_ + length (omap ?f ?l) + length (omap ?g _) + length (omap ?h _) +
    length (omap ?k _) = _)%nat => pose proof (length_omap_split f g h k l) as Hsplit end.
  cut (forall n a b c d m : nat, (a + b + c + d = m -> n + a + b + c + d = n + m)%nat).
  { intros Harith. apply Harith. apply Hsplit. clear Hsplit. intros f.
    unfold interfaceFaultAction, deviceFaultAction, outcomeFault.
    destruct (decide (bfType f = FaultDuplicateIP)) as [E|E].
    - rewrite (bool_decide_eq_true_2 (bfType f = FaultDuplicateIP)) by done.
      rewrite (bool_decide_eq_false_2 (bfType f = FaultBadMask)) by (by rewrite E). done.
    - rewrite (bool_decide_eq_false_2 (bfType f = FaultDuplicateIP)) by done.
      by repeat case_bool_decide. }
  lia.
Qed.

Definition phaseSize (ph : BehaviorPhase) : Z :=
  (if phReset ph then 2 else 1) *
    (Z.of_nat (length (phTraffic ph)) + Z.of_nat (length (phFaults ph)) + Z.of_nat (length (phRoams ph)))
  + Z.of_nat (length (phActions ph)).

Lemma compilePhase_size i tl r p ph : total entrySize (compilePhase i tl r p ph) = phaseSize ph.
Proof.
  unfold compilePhase, phaseSize. simpl.
  pose proof (fault_families ph false) as Hf. pose proof (fault_families ph true) as Ht.
  unfold phaseStart, phaseEnd. destruct (behaviorActions ph) as [a d]. simpl in Hf, Ht.
  assert (forall b, length (roamActions (phRoams ph) b) = length (phRoams ph)) as Hro
    by (intros b; apply length_map).
  assert (length (compileOneShotActions (phActions ph) (phaseID i r p)) = length (phActions ph)) as Hos
    by apply length_imap.
  assert (length (resetActions a) = length a) as Hra by apply length_map.
  assert (length (resetDeviceActions d) = length d) as Hrd by apply length_map.
  destruct (phReset ph); unfold entrySize; simpl; rewrite ?Hro, ?Hos, ?Hra, ?Hrd; lia.
Qed.

Definition timelineSize (tl : BehaviorTimeline) : Z :=
  Z.of_nat (Z.to_nat (tlRepeatCount tl)) * total phaseSize (tlPhases tl).

Lemma scheduled_size timelines :
  total entrySize (scheduledTransitions timelines) = total timelineSize timelines.
Proof.
  unfold scheduledTransitions. rewrite total_concat. apply total_imap. intros i tl _.
  unfold compileTimeline, timelineSize. rewrite total_concat, total_map.
  assert (forall r, total entrySize (concat (imap (compilePhase i tl r) (tlPhases tl))) =
    total phaseSize (tlPhases tl)) as Hr.
  { intros r. rewrite total_concat. apply total_imap. intros p ph _. apply compilePhase_size. }
  generalize (Z.to_nat (tlRepeatCount tl)) as n. generalize 0%nat as k.
  intros k n. revert k. induction n as [|n IH]; intros k; simpl; [done|]. rewrite Hr, IH. lia.
Qed.

Record authoredSizes (ph : BehaviorPhase) : Prop := {
  as_traffic : (length (phTraffic ph) <= 1024)%nat;
  as_faults : (length (phFaults ph) <= 1024)%nat;
  as_actions : (length (phActions ph) <= 1024)%nat;
  as_roams : (length (phRoams ph) <= 1024)%nat
}.

Lemma phaseApplications_exact ph :
  authoredSizes ph -> phaseApplications ph = phaseSize ph /\ 0 <= phaseSize ph <= 8192.
Proof.
  intros [H1 H2 H3 H4]. unfold phaseApplications, phaseSize.
  destruct (phReset ph); cbv zeta; [rewrite (int64_id (_ * 2)) by lia|]; rewrite int64_id by lia; lia.
Qed.

Lemma phasesSize_exact repeatCount phases n :
  0 <= repeatCount <= 1000 -> Forall authoredSizes phases -> 0 <= n <= maxBehaviorScheduledActions ->
  phasesSize repeatCount n phases =
    if n + repeatCount * total phaseSize phases <=? maxBehaviorScheduledActions
    then Some (n + repeatCount * total phaseSize phases) else None.
Proof.
  intros Hr Hs. unfold maxBehaviorScheduledActions.
  revert n. induction Hs as [|ph phases Hph Hs IH]; intros n Hn; simpl.
  { rewrite (proj2 (Z.leb_le _ _)) by lia. f_equal. lia. }
  destruct (phaseApplications_exact ph Hph) as [-> Hsize].
  assert (0 <= total phaseSize phases) as Ht.
  { apply total_nonneg. intros x Hx. rewrite Forall_forall in Hs.
    destruct (phaseApplications_exact x (Hs _ Hx)). lia. }
  assert (0 <= phaseSize ph * repeatCount <= 8192000) by nia.
  assert (0 <= repeatCount * total phaseSize phases) by nia.
  rewrite (int64_id (_ * _)) by lia. rewrite int64_id by lia. unfold maxBehaviorScheduledActions.
  destruct (100000 <? n + phaseSize ph * repeatCount) eqn:E.
  - apply Z.ltb_lt in E. rewrite (proj2 (Z.leb_gt _ _)) by lia. done.
  - apply Z.ltb_ge in E. rewrite IH by lia.
    replace (n + phaseSize ph * repeatCount + repeatCount * total phaseSize phases)
      with (n + repeatCount * (phaseSize ph + total phaseSize phases)) by lia. done.
Qed.

Lemma timelinesSize_exact timelines n :
  Forall authoredTimeline timelines -> Forall (fun tl => Forall authoredSizes (tlPhases tl)) timelines ->
  0 <= n <= maxBehaviorScheduledActions ->
  is_Some (timelinesSize n timelines) <-> n + total timelineSize timelines <= maxBehaviorScheduledActions.
Proof.
  intros Ha. revert n. induction Ha as [|tl timelines Htl Ha IH]; intros n Hs Hn; simpl.
  { split; [lia|by eexists]. }
  apply Forall_cons in Hs as [Hs1 Hs]. destruct (at_repeat _ Htl) as [Hr1 Hr2].
  rewrite phasesSize_exact by (done || lia).
  assert (timelineSize tl = tlRepeatCount tl * total phaseSize (tlPhases tl)) as Et
    by (unfold timelineSize; rewrite Z2Nat.id by lia; done).
  assert (0 <= total phaseSize (tlPhases tl)).
  { apply total_nonneg. intros x Hx. rewrite Forall_forall in Hs1.
    destruct (phaseApplications_exact x (Hs1 _ Hx)). lia. }
  assert (0 <= total timelineSize timelines).
  { apply total_nonneg. intros x Hx. unfold timelineSize. rewrite Forall_forall in Hs.
    assert (0 <= total phaseSize (tlPhases x)); [|nia]. apply total_nonneg. intros y Hy.
    specialize (Hs _ Hx). rewrite Forall_forall in Hs. destruct (phaseApplications_exact y (Hs _ Hy)). lia. }
  rewrite Et. destruct (_ <=? _) eqn:E.
  - apply Z.leb_le in E. rewrite IH; [|done|nia]. rewrite Z.add_assoc. done.
  - apply Z.leb_gt in E. split; [by intros []|lia].
Qed.

(** The size check bounds what is compiled: timelines within the authored
    ranges are accepted exactly when their compiled schedule holds at most
    100000 action applications, resets included; no intermediate count of the
    check overflows. *)
Theorem schedule_size_exact timelines :
  Forall authoredTimeline timelines -> Forall (fun tl => Forall authoredSizes (tlPhases tl)) timelines ->
  validateBehaviorScheduleSize timelines = true <->
  total transitionSize (Compile timelines) <= maxBehaviorScheduledActions.
Proof.
  intros Ha Hs. rewrite Compile_size, scheduled_size. unfold validateBehaviorScheduleSize.
  rewrite bool_decide_eq_true, (timelinesSize_exact _ 0); [done|done|done|].
  unfold maxBehaviorScheduledActions. lia.
Qed.

Lemma schedule_size_exact_witness :
  validateBehaviorScheduleSize [flapTimeline; laterFlap] = true <->
  total transitionSize (Compile [flapTimeline; laterFlap]) <= maxBehaviorScheduledActions.
Proof.
  apply schedule_size_exact; [exact flaps_authored|].
  assert (Forall authoredSizes (tlPhases flapTimeline)) by (constructor; [|constructor]; split; simpl; lia).
  constructor; [|constructor; [|constructor]]; done.
Defined.

Lemma replay_completes_witness :
  perform (callsOfAll (ruTransitions flapRunner)) (ruTarget flapRunner) =
    (ruTarget (run openWorld 0 flapRunner), None) /\
  (let r' := run openWorld 0 flapRunner in
   ruTarget r' = ruTarget (run openWorld 0 flapRunner) /\
   rsState (ruStatus r') = "completed"%string /\
   rsAppliedTransitions (ruStatus r') =
     rsAppliedTransitions (ruStatus flapRunner) + Z.of_nat (length (ruTransitions flapRunner))).
Proof.
  assert (perform (callsOfAll (ruTransitions flapRunner)) (ruTarget flapRunner) =
    (ruTarget (run openWorld 0 flapRunner), None)) as H by (vm_compute; reflexivity).
  split; [exact H|].
  apply (replay_completes openWorld (fun _ _ => eq_refl) (fun _ => eq_refl) 0 flapRunner _ H).
Defined.
