(* ===== verification/Ring.v ===== *)
(** * The capture ring

    [capturering/ring.go]: the most recent frames of a session, in a fixed
    circular buffer bounded by a frame count and a byte budget.  The mutex makes
    each call one step. *)

From S2P Require Import Prelude.
From S2P Require Import DeviceTypes.

(** ** Data *)

Definition byte : Type := Z.

Record FabricTrace := mkFabricTrace {
  ftIngressNetwork : string; ftPhysicalVLAN : Z; ftRouteDecision : string; ftHop : string;
  ftEgressNetwork : string; ftRejectionReason : string
}.

(** The fields of a packet ([protocols/packet.go]) that the ring reads. *)
Record Packet := mkPacket {
  pkBuffer : list byte;
  pkLength : Z;
  pkSerialNumber : Z;
  pkTimestamp : Time;
  pkVLAN : Z;
  pkFabricTrace : FabricTrace
}.

Record Limits := mkLimits { lmFrames : Z; lmBytes : Z }.

Definition defaultFrames : Z := 4096.
Definition defaultBytes : Z := Z.shiftl 8 20.
Definition DefaultLimits : Limits := mkLimits defaultFrames defaultBytes.

Record Frame := mkFrame {
  fmTimestamp : Time;
  fmDirection : string;
  fmSerial : Z;
  fmVLAN : Z;
  fmTrace : FabricTrace;
  fmData : list byte
}.

Definition FrameZero : Frame :=
  mkFrame zeroTime "" 0 0 (mkFabricTrace "" 0 "" "" "" "") [].

Record Ring := mkRing {
  rgFrames : list Frame;
  rgHead : nat;
  rgCount : nat;
  rgBytes : Z;
  rgLimits : Limits
}.
#[export] Instance Ring_rebuild : Rebuild Ring := fun r =>
  mkRing (rgFrames r) (rgHead r) (rgCount r) (rgBytes r) (rgLimits r).

(** ** Operations *)

Definition NewRing (limits : Limits) : Ring :=
  let frames := if lmFrames limits <=? 0 then defaultFrames else lmFrames limits in
  let bytes := if lmBytes limits <=? 0 then defaultBytes else lmBytes limits in
  mkRing (replicate (Z.to_nat frames) FrameZero) 0 0 0 (mkLimits frames bytes).

Definition frameSize (f : Frame) : Z := Z.of_nat (length (fmData f)).

(** [r.frames[i]]; every index the ring uses is in range. *)
Definition slot (r : Ring) (i : nat) : Frame := default FrameZero (rgFrames r !! i).

Definition dropOldestLocked (r : Ring) : Ring :=
  let r := r <| rgBytes := rgBytes r - frameSize (slot r (rgHead r)) |> in
  let r := r <| rgFrames := <[rgHead r := FrameZero]> (rgFrames r) |> in
  let r := r <| rgHead := ((rgHead r + 1) mod length (rgFrames r))%nat |> in
  r <| rgCount := (rgCount r - 1)%nat |>.

(** [for r.bytes > r.limits.Bytes && r.count > 1]; each turn drops a frame, so
    [count] turns are enough. *)
Fixpoint trimLoop (fuel : nat) (r : Ring) : Ring :=
  match fuel with
  | O => r
  | S fuel =>
      if (lmBytes (rgLimits r) <? rgBytes r) && (1 <? Z.of_nat (rgCount r))
      then trimLoop fuel (dropOldestLocked r) else r
  end.

(** The frame a packet is retained as, if it has one; [now] is [time.Now()]. *)
Definition frameOf (now : Time) (direction : string) (pkt : Packet) : option Frame :=
  let raw := pkBuffer pkt in
  let raw := if (0 <? pkLength pkt) && (pkLength pkt <=? Z.of_nat (length raw))
             then take (Z.to_nat (pkLength pkt)) raw else raw in
  match raw with
  | [] => None
  | _ =>
      let ts := if IsZero (pkTimestamp pkt) then now else pkTimestamp pkt in
      Some (mkFrame ts direction (pkSerialNumber pkt) (pkVLAN pkt) (pkFabricTrace pkt) raw)
  end.

Definition insertFrame (frame : Frame) (r : Ring) : Ring :=
  let r := if bool_decide (rgCount r = length (rgFrames r)) then dropOldestLocked r else r in
  let r := r <| rgFrames :=
    <[((rgHead r + rgCount r) mod length (rgFrames r))%nat := frame]> (rgFrames r) |> in
  let r := r <| rgCount := (rgCount r + 1)%nat |> in
  let r := r <| rgBytes := rgBytes r + frameSize frame |> in
  trimLoop (rgCount r) r.

Definition OnPacket (now : Time) (direction : string) (pkt : Packet) (r : Ring) : Ring :=
  match frameOf now direction pkt with
  | None => r
  | Some frame => insertFrame frame r
  end.

Definition SnapshotFrames (last : Z) (r : Ring) : list Frame :=
  let take := if (0 <? last) && (last <? Z.of_nat (rgCount r)) then Z.to_nat last else rgCount r in
  map (fun i => slot r ((rgHead r + rgCount r - take + i) mod length (rgFrames r))%nat)
    (seq 0 take).

(** ** The circular buffer as a queue *)

Definition place (r : Ring) (i : nat) : nat := ((rgHead r + i) mod length (rgFrames r))%nat.

Definition contents (r : Ring) : list Frame := map (fun i => slot r (place r i)) (seq 0 (rgCount r)).

Definition bytesOf (l : list Frame) : Z := foldr (fun f n => frameSize f + n) 0 l.

(** The buffer is as long as the frame limit, its live slots hold
    [rgBytes] bytes, and the other slots hold nothing. *)
Record ringOk (r : Ring) : Prop := {
  ro_frames : length (rgFrames r) = Z.to_nat (lmFrames (rgLimits r));
  ro_some : (0 < length (rgFrames r))%nat;
  ro_head : (rgHead r < length (rgFrames r))%nat;
  ro_count : (rgCount r <= length (rgFrames r))%nat;
  ro_bytes : rgBytes r = bytesOf (contents r);
  ro_budget : 0 < lmBytes (rgLimits r);
  ro_cleared : forall i, (rgCount r <= i < length (rgFrames r))%nat -> slot r (place r i) = FrameZero
}.

Lemma bytesOf_app l1 l2 : bytesOf (l1 ++ l2) = bytesOf l1 + bytesOf l2.
Proof. induction l1 as [|f l1 IH]; simpl; lia. Qed.

Lemma bytesOf_nonneg l : 0 <= bytesOf l.
Proof. induction l as [|f l IH]; simpl; unfold frameSize; lia. Qed.

Lemma contents_length r : length (contents r) = rgCount r.
Proof. unfold contents. by rewrite length_map, length_seq. Qed.

Lemma place_inj n h i j :
  (h < n -> i < n -> j < n -> (h + i) mod n = (h + j) mod n -> i = j)%nat.
Proof.
  intros Hh Hi Hj E.
  assert (forall k, (k < n)%nat -> ((h + k) mod n = if decide (h + k < n) then h + k else h + k - n)%nat) as Hk.
  { intros k Hk. destruct (decide _); [by apply Nat.mod_small|].
    replace (h + k)%nat with ((h + k - n) + 1 * n)%nat at 1 by lia.
    rewrite Nat.Div0.mod_add. apply Nat.mod_small. lia. }
  rewrite !Hk in E by done. repeat destruct (decide _); lia.
Qed.

Lemma place_lt r i : (0 < length (rgFrames r))%nat -> (place r i < length (rgFrames r))%nat.
Proof. intros. apply Nat.mod_upper_bound. lia. Qed.

Lemma place_0 r : ringOk r -> place r 0 = rgHead r.
Proof. intros H. unfold place. rewrite Nat.add_0_r. apply Nat.mod_small, H. Qed.

(** Writing one slot. *)
Lemma slot_insert r i f j n :
  rgFrames r = <[i := f]> n -> (i < length n)%nat ->
  slot r j = if decide (i = j) then f else default FrameZero (n !! j).
Proof.
  intros E Hi. unfold slot. rewrite E. destruct (decide (i = j)) as [->|Hne].
  - by rewrite list_lookup_insert_eq.
  - by rewrite list_lookup_insert_ne.
Qed.

Lemma drop_place r i :
  place (dropOldestLocked r) i = place r (S i).
Proof.
  unfold place, dropOldestLocked. simpl. rewrite !length_insert.
  rewrite Nat.Div0.add_mod_idemp_l. f_equal. lia.
Qed.

Lemma drop_slot r i :
  ringOk r -> (0 < i < length (rgFrames r))%nat -> slot (dropOldestLocked r) (place r i) = slot r (place r i).
Proof.
  intros H Hi. pose proof (ro_head _ H).
  rewrite (slot_insert (dropOldestLocked r) (rgHead r) FrameZero _ (rgFrames r)); [|done|done].
  rewrite decide_False; [done|]. rewrite <- (place_0 r H). intros E.
  apply place_inj in E; [lia|done|apply H|lia].
Qed.

Lemma drop_contents r :
  ringOk r -> (0 < rgCount r)%nat ->
  ringOk (dropOldestLocked r) /\ contents r = slot r (rgHead r) :: contents (dropOldestLocked r).
Proof.
  intros H Hc. pose proof (ro_count _ H) as Hle. pose proof (ro_some _ H) as Hn.
  assert (contents r = slot r (rgHead r) :: contents (dropOldestLocked r)) as E.
  { unfold contents at 1. destruct (rgCount r) as [|n] eqn:En; [lia|].
    simpl seq. simpl map. rewrite place_0 by done. f_equal.
    unfold contents. change (rgCount (dropOldestLocked r)) with (rgCount r - 1)%nat. rewrite En.
    replace (S n - 1)%nat with n by lia. rewrite <- seq_shift, map_map.
    apply map_ext_in. intros i [_ Hi]%in_seq. rewrite drop_place. by rewrite drop_slot by (done || lia). }
  split; [|exact E]. split; simpl; rewrite ?length_insert.
  - apply H.
  - done.
  - apply Nat.mod_upper_bound. lia.
  - lia.
  - rewrite (ro_bytes _ H), E. simpl. lia.
  - apply H.
  - intros i Hi. rewrite drop_place. destruct (decide (S i = length (rgFrames r))) as [Ei|Ei].
    + unfold place. rewrite Ei. replace (rgHead r + length (rgFrames r))%nat with (rgHead r + 1 * length (rgFrames r))%nat by lia.
      rewrite Nat.Div0.mod_add, Nat.mod_small by apply H.
      rewrite (slot_insert (dropOldestLocked r) (rgHead r) FrameZero _ (rgFrames r)); [|done|apply H].
      by rewrite decide_True.
    + rewrite drop_slot by (done || lia). apply (ro_cleared _ H). lia.
Qed.

Definition put (f : Frame) (r : Ring) : Ring :=
  r <| rgFrames := <[place r (rgCount r) := f]> (rgFrames r) |>
    <| rgCount := (rgCount r + 1)%nat |> <| rgBytes := rgBytes r + frameSize f |>.

Lemma insertFrame_put f r :
  insertFrame f r =
  let r := put f (if bool_decide (rgCount r = length (rgFrames r)) then dropOldestLocked r else r) in
  trimLoop (rgCount r) r.
Proof. done. Qed.

Lemma put_slot f r i :
  ringOk r -> (rgCount r < length (rgFrames r))%nat -> (i < length (rgFrames r))%nat ->
  slot (put f r) (place (put f r) i) = if decide (i = rgCount r) then f else slot r (place r i).
Proof.
  intros H Hc Hi.
  assert (place (put f r) i = place r i) as -> by (unfold place, put; simpl; by rewrite length_insert).
  rewrite (slot_insert (put f r) (place r (rgCount r)) f _ (rgFrames r)); [|done|by apply place_lt; lia].
  destruct (decide (i = rgCount r)) as [->|Hne]; [by rewrite decide_True|].
  rewrite decide_False; [done|]. intros E. apply place_inj in E; [lia|apply H|lia|lia].
Qed.

Lemma put_contents f r :
  ringOk r -> (rgCount r < length (rgFrames r))%nat ->
  ringOk (put f r) /\ contents (put f r) = contents r ++ [f].
Proof.
  intros H Hc.
  assert (contents (put f r) = contents r ++ [f]) as E.
  { unfold contents. change (rgCount (put f r)) with (rgCount r + 1)%nat.
    rewrite seq_app, map_app. simpl. rewrite put_slot, decide_True by (done || lia). f_equal.
    apply map_ext_in. intros i [_ Hi]%in_seq. rewrite put_slot by (done || lia).
    rewrite decide_False by lia. done. }
  split; [|exact E]. pose proof (ro_some _ H). pose proof (ro_frames _ H).
  assert (length (rgFrames (put f r)) = length (rgFrames r)) as El by apply length_insert.
  split; rewrite ?El.
  - done.
  - done.
  - apply H.
  - simpl. lia.
  - rewrite E, bytesOf_app. simpl. rewrite (ro_bytes _ H). lia.
  - apply H.
  - intros i Hi. simpl in Hi. rewrite put_slot by (done || lia). rewrite decide_False by lia.
    apply (ro_cleared _ H). lia.
Qed.

(** ** The longest recent run that fits *)

Definition fits (limits : Limits) (q : list Frame) : Prop :=
  Z.of_nat (length q) <= lmFrames limits /\ (bytesOf q <= lmBytes limits \/ (length q <= 1)%nat).

(** [q] is the longest end of [l] that fits. *)
Definition newest (limits : Limits) (q l : list Frame) : Prop :=
  q `suffix_of` l /\ fits limits q /\
  forall s, s `suffix_of` l -> fits limits s -> (length s <= length q)%nat.

Lemma suffix_cases {A} (s l : list A) x : s `suffix_of` x :: l -> s = x :: l \/ s `suffix_of` l.
Proof. destruct s; [right; apply suffix_nil|]. apply suffix_cons_inv. Qed.

Lemma dropOldest_limits r : rgLimits (dropOldestLocked r) = rgLimits r.
Proof. done. Qed.

Lemma trimLoop_spec fuel r :
  ringOk r -> (rgCount r <= fuel)%nat ->
  ringOk (trimLoop fuel r) /\ rgLimits (trimLoop fuel r) = rgLimits r /\
  newest (rgLimits r) (contents (trimLoop fuel r)) (contents r).
Proof.
  revert r. induction fuel as [|fuel IH]; intros r H Hf; simpl.
  - split; [done|]. split; [done|]. split; [done|]. split.
    + split; [|right; rewrite contents_length; lia]. rewrite contents_length. pose proof (ro_frames _ H). pose proof (ro_some _ H). pose proof (ro_count _ H). lia.
    + intros s Hs _. by apply suffix_length.
  - assert (Z.of_nat (rgCount r) <= lmFrames (rgLimits r)) as Hfr
      by (pose proof (ro_frames _ H); pose proof (ro_some _ H); pose proof (ro_count _ H); lia).
    destruct (_ && _) eqn:E.
    + apply andb_true_iff in E as [E1 E2]. apply Z.ltb_lt in E1, E2.
      destruct (drop_contents r H ltac:(lia)) as [H' Ec].
      destruct (IH _ H' ltac:(simpl; lia)) as (IH1 & IH2 & IH3 & IH4 & IH5).
      rewrite dropOldest_limits in *. split; [done|]. split; [done|].
      split; [rewrite Ec; by apply suffix_cons_r|]. split; [done|].
      intros s Hs Hfit. apply IH5; [|done]. rewrite Ec in Hs. apply suffix_cases in Hs as [->|Hs]; [|done].
      rewrite <- Ec in Hfit. destruct Hfit as [_ [Hb|Hl]].
      * rewrite <- (ro_bytes _ H) in Hb. lia.
      * rewrite contents_length in Hl. lia.
    + split; [done|]. split; [done|]. split; [done|]. split; [|intros s Hs _; by apply suffix_length].
      split; [by rewrite contents_length|]. rewrite contents_length, <- (ro_bytes _ H).
      apply andb_false_iff in E as [E|E]; apply Z.ltb_ge in E; lia.
Qed.

(** Appending a frame keeps the longest end that fits. *)
Lemma newest_push limits q l f q' :
  newest limits q l -> newest limits q' ((if decide (Z.of_nat (length q) = lmFrames limits) then tail q else q) ++ [f]) ->
  0 < lmFrames limits -> newest limits q' (l ++ [f]).
Proof.
  intros (Hs & [Hf1 Hf2] & Hmax) (Hs' & Hf' & Hmax') Hpos.
  assert ((if decide (Z.of_nat (length q) = lmFrames limits) then tail q else q) `suffix_of` l) as Hq.
  { destruct (decide _); [|done]. destruct q as [|x q]; [done|]. simpl. etrans; [|exact Hs]. by exists [x]. }
  split; [|split; [done|]].
  - etrans; [exact Hs'|]. by apply suffix_app.
  - intros s Hsl Hfit. apply Hmax'; [|done].
    destruct (decide (s = [])) as [->|Hne]; [apply suffix_nil|].
    destruct (exists_last Hne) as (s0 & y & ->). apply suffix_snoc_inv_1 in Hsl as Hy.
    subst y. apply suffix_snoc_inv_2 in Hsl. apply suffix_app.
    assert (fits limits s0) as Hfit0.
    { destruct Hfit as [H1 H2]. rewrite length_app in H1, H2. simpl in H1, H2. rewrite bytesOf_app in H2.
      simpl in H2. unfold frameSize in H2. split; [lia|]. destruct H2 as [H2|H2]; [left; lia|right; lia]. }
    assert (length s0 <= length q)%nat as Hlen by by apply Hmax.
    destruct Hfit as [H1 _]. rewrite length_app in H1. simpl in H1.
    destruct Hs as [k1 ->], Hsl as [k2 E].
    assert (exists k, q = k ++ s0) as [k ->].
    { exists (take (length q - length s0) q).
      rewrite <- (take_drop (length q - length s0) q) at 1. f_equal.
      assert (drop (length k2) (k1 ++ q) = s0) as Hd by (rewrite E; apply drop_app_length).
      assert (length k1 + length q = length k2 + length s0)%nat as Hl by (rewrite <- !length_app; by f_equal).
      transitivity (drop (length k2) (k1 ++ q)); [|done]. rewrite drop_app_ge by lia. f_equal. lia. }
    destruct (decide _) as [Hfull|_]; [|by exists k].
    rewrite length_app in Hfull. destruct k as [|x k]; [simpl in Hfull; lia|]. by exists k.
Qed.

(** ** Histories *)

Record Arrival := mkArrival { avNow : Time; avDirection : string; avPacket : Packet }.

Definition observe (r : Ring) (a : Arrival) : Ring :=
  OnPacket (avNow a) (avDirection a) (avPacket a) r.

Definition accepted (arrivals : list Arrival) : list Frame :=
  omap (fun a => frameOf (avNow a) (avDirection a) (avPacket a)) arrivals.

Lemma insertFrame_ok f r :
  ringOk r -> ringOk (insertFrame f r) /\ rgLimits (insertFrame f r) = rgLimits r /\
  newest (rgLimits r) (contents (insertFrame f r))
    ((if decide (Z.of_nat (length (contents r)) = lmFrames (rgLimits r)) then tail (contents r)
      else contents r) ++ [f]).
Proof.
  intros H. pose proof (ro_frames _ H) as Hfr. pose proof (ro_some _ H) as Hso. pose proof (ro_count _ H) as Hco.
  rewrite insertFrame_put, contents_length. cbv zeta.
  assert (exists r1, (if bool_decide (rgCount r = length (rgFrames r)) then dropOldestLocked r else r) = r1 /\
    ringOk r1 /\ rgLimits r1 = rgLimits r /\ (rgCount r1 < length (rgFrames r1))%nat /\
    contents r1 = if decide (Z.of_nat (rgCount r) = lmFrames (rgLimits r)) then tail (contents r) else contents r)
    as (r1 & -> & H1 & El & Hc & Ec).
  { case_bool_decide as E; eexists; (split; [done|]).
    - destruct (drop_contents r H ltac:(lia)) as [H1 E1]. split; [done|]. split; [done|].
      rewrite decide_True by lia. rewrite E1. split; [|done]. simpl. rewrite length_insert. lia.
    - rewrite decide_False by lia. split_and!; [done|done|lia|done]. }
  destruct (put_contents f r1 H1 Hc) as [H2 E2].
  destruct (trimLoop_spec (rgCount (put f r1)) _ H2 ltac:(lia)) as (H3 & E3 & Hn).
  rewrite <- Ec, <- E2. change (rgLimits (put f r1)) with (rgLimits r1) in *. by rewrite El in *.
Qed.

Lemma NewRing_ok limits :
  ringOk (NewRing limits) /\ contents (NewRing limits) = [] /\ 0 < lmFrames (rgLimits (NewRing limits)).
Proof.
  assert (0 < lmFrames (rgLimits (NewRing limits)) /\ 0 < lmBytes (rgLimits (NewRing limits))) as [Hf Hb].
  { assert (0 < defaultFrames /\ 0 < defaultBytes) by done. unfold NewRing. simpl.
    destruct (lmFrames limits <=? 0) eqn:E1, (lmBytes limits <=? 0) eqn:E2; lia. }
  assert (length (rgFrames (NewRing limits)) = Z.to_nat (lmFrames (rgLimits (NewRing limits)))) as El
    by apply length_replicate.
  split; [|done]. split; rewrite ?El; try done.
  - lia.
  - change (rgHead (NewRing limits)) with 0%nat. lia.
  - change (rgCount (NewRing limits)) with 0%nat. lia.
  - intros i Hi. unfold slot. change (rgFrames (NewRing limits)) with
      (replicate (Z.to_nat (lmFrames (rgLimits (NewRing limits)))) FrameZero).
    destruct (_ !! _) eqn:E; [|done]. by apply lookup_replicate in E as [-> _].
Qed.

Lemma observed_newest limits arrivals :
  let r := foldl observe (NewRing limits) arrivals in
  ringOk r /\ rgLimits r = rgLimits (NewRing limits) /\ newest (rgLimits r) (contents r) (accepted arrivals).
Proof.
  destruct (NewRing_ok limits) as (H0 & E0 & Hpos).
  induction arrivals as [|a arrivals IH] using rev_ind; cbv zeta.
  - change (foldl observe (NewRing limits) []) with (NewRing limits).
    split; [done|]. split; [done|]. rewrite E0. split; [done|].
    split; [split; [cbn [length]; lia|right; cbn [length]; lia]|].
    intros s Hs%suffix_length _. done.
  - rewrite foldl_app. cbn [foldl]. set (r := foldl observe (NewRing limits) arrivals) in *.
    destruct IH as (H & El & Hn). unfold accepted in *. rewrite omap_app. csimpl.
    change (observe r a) with (OnPacket (avNow a) (avDirection a) (avPacket a) r). unfold OnPacket. destruct (frameOf _ _ _) as [f|]; [|by rewrite app_nil_r].
    destruct (insertFrame_ok f r H) as (H1 & E1 & Hn1). split; [done|]. split; [by rewrite E1|].
    rewrite E1. eapply newest_push; [exact Hn|exact Hn1|]. congruence.
Qed.

Lemma snapshot_all r : SnapshotFrames 0 r = contents r.
Proof.
  unfold SnapshotFrames, contents. simpl. apply map_ext. intros i. unfold place. do 2 f_equal. lia.
Qed.

(** C9.  The ring keeps the newest frames: after any packets, a full snapshot
    is an end of the sequence of retained frames, oldest first, within both
    limits (one oversized frame excepted), and no longer end is within them;
    a snapshot of [last] frames is the last [last] of it. *)
Theorem ring_keeps_newest limits arrivals last :
  let r := foldl observe (NewRing limits) arrivals in
  newest (rgLimits (NewRing limits)) (SnapshotFrames 0 r) (accepted arrivals) /\
  SnapshotFrames last r =
    if 0 <? last then drop (length (SnapshotFrames 0 r) - Z.to_nat last) (SnapshotFrames 0 r)
    else SnapshotFrames 0 r.
Proof.
  destruct (observed_newest limits arrivals) as (H & El & Hn). set (r := foldl observe _ _) in *. cbv zeta.
  pose proof (snapshot_all r) as E0.
  rewrite E0, <- El. split; [done|]. rewrite contents_length. unfold SnapshotFrames.
  destruct (0 <? last) eqn:E1; simpl.
  - apply Z.ltb_lt in E1. destruct (last <? Z.of_nat (rgCount r)) eqn:E2.
    + apply Z.ltb_lt in E2. unfold contents. set (k := (rgCount r - Z.to_nat last)%nat).
      assert (seq 0 (rgCount r) = seq 0 k ++ seq k (Z.to_nat last)) as ->
        by (rewrite <- seq_app; f_equal; lia).
      rewrite map_app, drop_app_length' by (by rewrite length_map, length_seq).
      replace (seq k (Z.to_nat last)) with (map (Nat.add k) (seq 0 (Z.to_nat last)))
        by (etransitivity; [apply fmap_add_seq|f_equal; lia]).
      rewrite map_map. apply map_ext. intros i. unfold place.
      do 2 f_equal. lia.
    + apply Z.ltb_ge in E2. replace (rgCount r - Z.to_nat last)%nat with 0%nat by lia. exact E0.
  - exact E0.
Qed.

(** The ring pins nothing: it always holds as many slots as its frame
    limit, its byte count is that of the frames a snapshot returns, and every
    slot outside the snapshot is empty. *)
Theorem ring_pins_nothing limits arrivals :
  let r := foldl observe (NewRing limits) arrivals in
  Z.of_nat (length (rgFrames r)) = lmFrames (rgLimits (NewRing limits)) /\
  rgBytes r = bytesOf (SnapshotFrames 0 r) /\
  forall i, (i < length (rgFrames r))%nat -> slot r i = FrameZero \/ slot r i ∈ SnapshotFrames 0 r.
Proof.
  destruct (observed_newest limits arrivals) as (H & El & _). set (r := foldl observe _ _) in *. cbv zeta.
  pose proof (snapshot_all r) as E0.
  rewrite E0, <- El. pose proof (ro_frames _ H). pose proof (ro_some _ H).
  split_and!; [lia|apply H|]. intros i Hi.
  assert (exists j, (j < length (rgFrames r))%nat /\ place r j = i) as (j & Hj & <-).
  { pose proof (ro_head _ H). unfold place. destruct (decide (rgHead r <= i)%nat).
    - exists (i - rgHead r)%nat. split; [lia|]. rewrite Nat.mod_small; lia.
    - exists (i + length (rgFrames r) - rgHead r)%nat. split; [lia|].
      replace (rgHead r + (i + length (rgFrames r) - rgHead r))%nat with (i + 1 * length (rgFrames r))%nat by lia.
      rewrite Nat.Div0.mod_add. by apply Nat.mod_small. }
  destruct (decide (j < rgCount r)%nat) as [Hc|Hc].
  - right. unfold contents. apply list_elem_of_fmap. exists j. split; [done|]. apply elem_of_seq. lia.
  - left. apply (ro_cleared _ H). lia.
Qed.

Example ring_evicts :
  let packet n := mkPacket (replicate n 7) 0 (Z.of_nat n) 5 (-1) (mkFabricTrace "" 0 "" "" "" "") in
  let r := foldl observe (NewRing (mkLimits 3 10))
    (map (fun n => mkArrival 9 "rx" (packet n)) [2; 0; 3; 4; 4; 20; 1]%nat) in
  map frameSize (SnapshotFrames 0 r) = [1] /\ rgBytes r = 1 /\
  map fmSerial (SnapshotFrames 0 (foldl observe (NewRing (mkLimits 3 10))
    (map (fun n => mkArrival 9 "rx" (packet n)) [2; 0; 3; 4; 4]%nat))) = [4; 4].
Proof. vm_compute. done. Qed.
