(* ===== verification/SpanningTree.v ===== *)
(** * Spanning tree election

    [protocols/stp_tree.go]: the tree the simulated bridges of one device table
    agree on.  A device pointer is the device's index in the table.  The two
    loops over the [byName] map run in an order Go does not fix: the orders
    [linkOrder] and [bridgeOrder] are arguments, any arrangement of the map's
    values. *)

From S2P Require Import Prelude.

(** ** Data *)

Record TrunkPort := mkTrunkPort {
  tpInterface : string; tpRemoteDevice : string; tpRemoteInterface : string; tpFDBOnly : bool
}.

Record STPConfig := mkSTPConfig { scfEnabled : bool; scfBridgePriority : Z }.

(** The fields of [config.Device] the election reads. *)
Record Device := mkDevice {
  dvName : string;
  dvMACAddress : list Z;
  dvSTPConfig : option STPConfig;
  dvTrunkPorts : list TrunkPort
}.

Definition DeviceNone : Device := mkDevice "" [] None [].

Record stpPosition := mkPosition {
  poRoot : Z; poCost : Z; poRootInterface : string; poUpstream : Z
}.

Record stpLink := mkLink { lkLocal : string; lkRemote : nat }.

Definition STPPortPathCostDefault : Z := 4.
Definition stpDefaultBridgePri : Z := 32768.
Definition SizeOfMac : nat := 6.

(** ** Bridge identities *)

Fixpoint macBits (i : nat) (mac : list Z) (bridgeID : Z) : Z :=
  match mac with
  | [] => bridgeID
  | b :: mac =>
      let shift := 40 - Z.of_nat i * 8 in
      macBits (S i) mac (if 0 <=? shift then Z.lor bridgeID (Z.shiftl b shift) else bridgeID)
  end.

Definition makeBridgeID (priority : Z) (mac : list Z) : Z :=
  macBits 0 (take SizeOfMac mac) (uint64 (Z.shiftl priority 48)).

Definition stpBridgeID (device : Device) : Z :=
  let priority := match dvSTPConfig device with
    | Some c => if 0 <? scfBridgePriority c then scfBridgePriority c else stpDefaultBridgePri
    | None => stpDefaultBridgePri
    end in
  makeBridgeID priority (dvMACAddress device).

Definition stpEnabled (device : Device) : bool :=
  match dvSTPConfig device with
  | Some c => scfEnabled c && (0 <? Z.of_nat (length (dvMACAddress device)))
  | None => false
  end.

(** ** The election *)

Section election.
Context (devices : list Device).

Definition device (i : nat) : Device := default DeviceNone (devices !! i).
Definition bridgeID (i : nat) : Z := stpBridgeID (device i).

Definition byName : gmap string nat :=
  foldl (fun m i => if stpEnabled (device i) then <[dvName (device i) := i]> m else m) ∅
    (seq 0 (length devices)).

Definition addLink (links : gmap nat (list stpLink)) (i : nat) (l : stpLink) : gmap nat (list stpLink) :=
  <[i := default [] (links !! i) ++ [l]]> links.

Definition trunkLinks (i : nat) (links : gmap nat (list stpLink)) (trunk : TrunkPort)
    : gmap nat (list stpLink) :=
  match byName !! tpRemoteDevice trunk with
  | None => links
  | Some remote =>
      if tpFDBOnly trunk || bool_decide (remote = i) then links
      else addLink (addLink links i (mkLink (tpInterface trunk) remote))
             remote (mkLink (tpRemoteInterface trunk) i)
  end.

Definition linksOf (linkOrder : list nat) : gmap nat (list stpLink) :=
  foldl (fun links i => foldl (trunkLinks i) links (dvTrunkPorts (device i))) ∅ linkOrder.

Definition sortedByBridgeID (bridgeOrder : list nat) : list nat := sortBy bridgeID bridgeOrder.

Definition linksAt (links : gmap nat (list stpLink)) (i : nat) : list stpLink := default [] (links !! i).

(** A missing hop count reads as zero. *)
Definition hopsAt (hops : gmap nat Z) (i : nat) : Z := default 0 (hops !! i).

Definition visitLink (from : nat) (state : gmap nat Z * list nat) (link : stpLink)
    : gmap nat Z * list nat :=
  let '(hops, order) := state in
  match hops !! lkRemote link with
  | Some _ => state
  | None => (<[lkRemote link := uint32 (hopsAt hops from + 1)]> hops, order ++ [lkRemote link])
  end.

(** [for i := 0; i < len(order); i++]; no bridge is appended twice, so the
    number of bridges bounds the turns. *)
Fixpoint visitLoop (links : gmap nat (list stpLink)) (fuel i : nat) (hops : gmap nat Z)
    (order : list nat) : gmap nat Z * list nat :=
  match fuel, order !! i with
  | S fuel, Some from =>
      let '(hops, order) := foldl (visitLink from) (hops, order) (linksAt links from) in
      visitLoop links fuel (S i) hops order
  | _, _ => (hops, order)
  end.

Definition better (link best : stpLink) : bool :=
  (bridgeID (lkRemote link) <? bridgeID (lkRemote best)) ||
  (bool_decide (lkRemote link = lkRemote best) &&
   bool_decide (kle (lkLocal link) (lkLocal best)) && negb (bool_decide (lkLocal link = lkLocal best))).

Definition rootLink (links : list stpLink) (hops : gmap nat Z) (upstreamHops : Z) : option stpLink :=
  foldl (fun best link =>
    if negb (hopsAt hops (lkRemote link) =? upstreamHops) then best
    else match best with
    | None => Some link
    | Some b => if better link b then Some link else best
    end) None links.

Definition placeTree (fuel root : nat) (links : gmap nat (list stpLink))
    (positions : gmap nat stpPosition) : gmap nat stpPosition :=
  let rootID := bridgeID root in
  let '(hops, order) := visitLoop links fuel 0 {[root := 0]} [root] in
  let positions := <[root := mkPosition rootID 0 "" 0]> positions in
  foldl (fun positions bridge =>
    match rootLink (linksAt links bridge) hops (uint32 (hopsAt hops bridge - 1)) with
    | Some link =>
        <[bridge := mkPosition rootID (uint32 (hopsAt hops bridge * STPPortPathCostDefault))
                      (lkLocal link) (bridgeID (lkRemote link))]> positions
    | None => positions (* a nil link: the code would panic *)
    end) positions (tail order).

Definition electSpanningTree (linkOrder bridgeOrder : list nat) : gmap nat stpPosition :=
  let links := linksOf linkOrder in
  foldl (fun positions bridge =>
    match positions !! bridge with
    | Some _ => positions
    | None => placeTree (length bridgeOrder) bridge links positions
    end) ∅ (sortedByBridgeID bridgeOrder).
End election.

(** ** Folds that only add *)

Definition linkAdds {X} (f : gmap nat (list stpLink) -> X -> gmap nat (list stpLink))
    (P : X -> nat -> stpLink -> Prop) : Prop :=
  forall m x i l, l ∈ linksAt (f m x) i <-> l ∈ linksAt m i \/ P x i l.

Lemma linkAdds_foldl {X} f (P : X -> nat -> stpLink -> Prop) xs :
  linkAdds f P -> forall m i l,
  l ∈ linksAt (foldl f m xs) i <-> l ∈ linksAt m i \/ exists x, x ∈ xs /\ P x i l.
Proof.
  intros Hf. induction xs as [|x xs IH]; intros m i l; simpl.
  - split; [by left|]. intros [?|(x & []%elem_of_nil & _)]; done.
  - rewrite IH, (Hf m x). setoid_rewrite elem_of_cons. split.
    + intros [[H|H]|(y & Hy & H)]; [by left|right; exists x; auto|right; exists y; auto].
    + intros [H|(y & [->|Hy] & H)]; [by left; left|by left; right|right; by exists y].
Qed.

Lemma elem_of_addLink links j l i l' :
  l' ∈ linksAt (addLink links j l) i <-> l' ∈ linksAt links i \/ (j = i /\ l' = l).
Proof.
  unfold linksAt, addLink. destruct (decide (j = i)) as [->|Hne].
  - rewrite lookup_insert_eq. simpl. rewrite elem_of_app, list_elem_of_singleton. naive_solver.
  - rewrite lookup_insert_ne by done. naive_solver.
Qed.

(** ** Walks *)

Section walks.
Context (links : gmap nat (list stpLink)).

Definition edge (a b : nat) : Prop := exists l, l ∈ linksAt links a /\ lkRemote l = b.

Inductive walk (a : nat) : nat -> nat -> Prop :=
| walk_here : walk a a 0
| walk_step b c n : walk a b n -> edge b c -> walk a c (S n).

Definition connected (a b : nat) : Prop := exists n, walk a b n.

(** [n] edges are needed from [a] to [b]. *)
Definition distance (a b n : nat) : Prop := walk a b n /\ forall k, walk a b k -> (n <= k)%nat.

Hypothesis Hsym : forall a b, edge a b -> edge b a.

Lemma walk_cons a b c n : edge a b -> walk b c n -> walk a c (S n).
Proof.
  intros He Hw. induction Hw as [|c d n Hw IH Hcd].
  - eapply walk_step; [constructor|done].
  - by eapply walk_step.
Qed.

Lemma walk_sym a b n : walk a b n -> walk b a n.
Proof.
  induction 1 as [|b c n Hw IH Hbc]; [constructor|]. eapply walk_cons; [by apply Hsym|done].
Qed.

Lemma walk_trans a b c n m : walk a b n -> walk b c m -> walk a c (n + m).
Proof.
  intros H1 H2. induction H2 as [|c d m H2 IH Hcd]; [by rewrite Nat.add_0_r|].
  rewrite Nat.add_succ_r. by eapply walk_step.
Qed.

Lemma connected_sym a b : connected a b -> connected b a.
Proof. intros [n Hn]. exists n. by apply walk_sym. Qed.

Lemma connected_trans a b c : connected a b -> connected b c -> connected a c.
Proof. intros [n Hn] [m Hm]. exists (n + m)%nat. by eapply walk_trans. Qed.

Lemma distance_unique a b n m : distance a b n -> distance a b m -> n = m.
Proof. intros [H1 H2] [H3 H4]. specialize (H2 _ H3). specialize (H4 _ H1). lia. Qed.

(** ** The breadth-first visit *)

Section visit.
Context (root : nat) (bound : nat).
Hypothesis Hbound : forall l : list nat, NoDup l -> (forall x, x ∈ l -> connected root x) -> (length l <= bound)%nat.
Hypothesis Hsmall : Z.of_nat bound < 2 ^ 30.

Record visited (i : nat) (hops : gmap nat Z) (order : list nat) : Prop := {
  vi_nodup : NoDup order;
  vi_dom : forall x, x ∈ order <-> is_Some (hops !! x);
  vi_root : order !! 0%nat = Some root /\ hops !! root = Some 0;
  vi_walk : forall x d, hops !! x = Some d ->
    walk root x (Z.to_nat d) /\ 0 <= d < Z.of_nat (length order) /\
    (x <> root -> 0 < d /\ exists u, edge u x /\ hops !! u = Some (d - 1));
  vi_sorted : forall j k x y, (j <= k)%nat -> order !! j = Some x -> order !! k = Some y ->
    hopsAt hops x <= hopsAt hops y;
  vi_front : forall x b, order !! i = Some b -> x ∈ order -> hopsAt hops x <= hopsAt hops b + 1;
  vi_done : forall j b c, (j < i)%nat -> order !! j = Some b -> edge b c ->
    c ∈ order /\ hopsAt hops c <= hopsAt hops b + 1
}.

Lemma visited_length i hops order : visited i hops order -> (length order <= bound)%nat.
Proof.
  intros H. apply Hbound; [apply H|]. intros x [d Hd]%(vi_dom _ _ _ H).
  destruct (vi_walk _ _ _ H _ _ Hd) as [Hw _]. by eexists.
Qed.

Lemma visited_start : visited 0 {[root := 0]} [root].
Proof.
  split.
  - apply NoDup_singleton.
  - intros x. rewrite list_elem_of_singleton. split.
    + intros ->. by rewrite lookup_singleton_eq.
    + intros [d Hd]. by apply lookup_singleton_Some in Hd as [<- _].
  - split; [done|apply lookup_singleton_eq].
  - intros x d [<- <-]%lookup_singleton_Some. split; [constructor|]. split; [simpl; lia|done].
  - intros j k x y _ Hj Hk. apply list_lookup_singleton_Some in Hj as [_ <-], Hk as [_ <-]. lia.
  - intros x b Hb Hx. apply list_lookup_singleton_Some in Hb as [_ <-].
    apply list_elem_of_singleton in Hx as ->. lia.
  - intros j b c Hj. lia.
Qed.

Lemma hopsAt_Some hops x d : hops !! x = Some d -> hopsAt hops x = d.
Proof. unfold hopsAt. by intros ->. Qed.

(** Looking along one link. *)
Lemma visitLink_visited i from hops order link :
  visited i hops order -> order !! i = Some from -> link ∈ linksAt links from ->
  let '(hops', order') := visitLink from (hops, order) link in
  visited i hops' order' /\ order `prefix_of` order' /\ lkRemote link ∈ order' /\
  (forall x, x ∈ order -> hopsAt hops' x = hopsAt hops x) /\
  hopsAt hops' (lkRemote link) <= hopsAt hops' from + 1.
Proof.
  intros H Hi Hl. unfold visitLink. set (n := lkRemote link).
  assert (from ∈ order) as Hfrom by by eapply list_elem_of_lookup_2.
  destruct (hops !! n) as [d|] eqn:Hn.
  { assert (n ∈ order) as Hin by (apply (vi_dom _ _ _ H); by eexists).
    split_and!; [done|done|done|done|]. by apply (vi_front _ _ _ H). }
  assert (n ∉ order) as Hnin by (intros Hin; apply (vi_dom _ _ _ H) in Hin as [d Hd]; congruence).
  pose proof Hfrom as Hfd. apply (vi_dom _ _ _ H) in Hfd as [d Hd]. rewrite (hopsAt_Some _ _ _ Hd).
  destruct (vi_walk _ _ _ H _ _ Hd) as (Hw & [Hd0 Hdl] & _).
  pose proof (visited_length _ _ _ H) as Hlen.
  assert (uint32 (d + 1) = d + 1) as -> by (apply uint32_id; lia).
  set (hops' := <[n := d + 1]> hops).
  assert (forall x, x ∈ order -> hopsAt hops' x = hopsAt hops x) as Hold.
  { intros x Hx. unfold hopsAt, hops'. rewrite lookup_insert_ne; [done|]. by intros ->. }
  assert (hopsAt hops' n = d + 1) as Hnew by (unfold hopsAt, hops'; by rewrite lookup_insert_eq).
  assert (forall x, x ∈ order -> hopsAt hops' x <= d + 1) as Hle.
  { intros x Hx. rewrite Hold by done. rewrite <- (hopsAt_Some _ _ _ Hd). by apply (vi_front _ _ _ H). }
  assert (forall k y, (order ++ [n]) !! k = Some y -> order !! k = Some y \/ k = length order /\ y = n) as Hlk.
  { intros k y Hk. apply lookup_app_Some in Hk as [Hk|[Hk1 Hk2]]; [by left|right].
    apply list_lookup_singleton_Some in Hk2 as [Hk2 <-]. split; [lia|done]. }
  split; [|split_and!; [by exists [n]|set_solver|done|]].
  - split.
    + apply NoDup_app. split_and!; [apply H| |apply NoDup_singleton].
      intros x Hx ->%list_elem_of_singleton. done.
    + intros x. rewrite elem_of_app, list_elem_of_singleton, (vi_dom _ _ _ H). unfold hops'.
      rewrite lookup_insert_is_Some'. naive_solver.
    + destruct (vi_root _ _ _ H) as [H1 H2]. split; [by apply lookup_app_l_Some|].
      unfold hops'. rewrite lookup_insert_ne; [done|]. intros E. rewrite E in Hn. congruence.
    + intros x e Hx. rewrite length_app. simpl. unfold hops' in Hx.
      apply lookup_insert_Some in Hx as [[<- <-]|[Hne Hx]].
      * replace (Z.to_nat (d + 1)) with (S (Z.to_nat d)) by lia. split_and!; [|lia|lia|].
        -- eapply walk_step; [done|]. by exists link.
        -- intros _. split; [lia|]. exists from. split; [by exists link|].
           unfold hops'. rewrite lookup_insert_ne by (by intros <-). rewrite Hd. f_equal. lia.
      * destruct (vi_walk _ _ _ H _ _ Hx) as (Hwx & ? & Hu). split; [done|]. split; [lia|].
        intros Hr. destruct (Hu Hr) as (? & u & Hu1 & Hu2). split; [done|]. exists u. split; [done|].
        unfold hops'. rewrite lookup_insert_ne; [done|]. intros E. rewrite E in Hn. congruence.
    + intros j k x y Hjk [Hx|[-> ->]]%Hlk [Hy|[-> ->]]%Hlk.
      * rewrite !Hold by (by eapply list_elem_of_lookup_2). by eapply (vi_sorted _ _ _ H).
      * rewrite Hnew. apply Hle. by eapply list_elem_of_lookup_2.
      * apply lookup_lt_Some in Hy. lia.
      * lia.
    + intros x b Hb Hx. rewrite (lookup_app_l_Some _ _ _ _ Hi) in Hb. injection Hb as <-.
      rewrite (Hold from Hfrom), (hopsAt_Some _ _ _ Hd).
      apply elem_of_app in Hx as [Hx| ->%list_elem_of_singleton]; [by apply Hle|lia].
    + intros j b c Hj Hb He. assert (order !! j = Some b) as Hb'.
      { destruct (Hlk _ _ Hb) as [?|[-> _]]; [done|]. apply lookup_lt_Some in Hi. lia. }
      destruct (vi_done _ _ _ H j b c Hj Hb' He) as [Hc1 Hc2]. split; [set_solver|].
      rewrite !Hold; [done|by eapply list_elem_of_lookup_2|done].
  - rewrite Hnew, (Hold from Hfrom), (hopsAt_Some _ _ _ Hd). lia.
Qed.

(** Looking along all the links of a bridge. *)
Lemma visitLinks_visited i from ls hops order :
  visited i hops order -> order !! i = Some from -> (forall l, l ∈ ls -> l ∈ linksAt links from) ->
  let '(hops', order') := foldl (visitLink from) (hops, order) ls in
  visited i hops' order' /\ order `prefix_of` order' /\
  (forall x, x ∈ order -> hopsAt hops' x = hopsAt hops x) /\
  forall l, l ∈ ls -> lkRemote l ∈ order' /\ hopsAt hops' (lkRemote l) <= hopsAt hops' from + 1.
Proof.
  revert hops order. induction ls as [|l ls IH]; intros hops order H Hi Hls; simpl.
  { split_and!; [done|done|done|]. by intros l []%elem_of_nil. }
  pose proof (visitLink_visited i from hops order l H Hi ltac:(apply Hls; by left)) as H1.
  fold (visitLink from (hops, order) l). destruct (visitLink from (hops, order) l) as [hops1 order1].
  destruct H1 as (H1 & Hp & Hin & Hold & Hle).
  assert (order1 !! i = Some from) as Hi1 by by eapply prefix_lookup_Some.
  specialize (IH hops1 order1 H1 Hi1 ltac:(intros; apply Hls; by right)).
  destruct (foldl (visitLink from) (hops1, order1) ls) as [hops2 order2].
  destruct IH as (H2 & Hp2 & Hold2 & Hall).
  assert (forall x, x ∈ order -> x ∈ order1) as Hsub by (destruct Hp as [k ->]; set_solver).
  assert (forall x, x ∈ order1 -> x ∈ order2) as Hsub2 by (destruct Hp2 as [k ->]; set_solver).
  split; [done|]. split; [by etrans|]. split.
  - intros x Hx. rewrite Hold2 by auto. by apply Hold.
  - intros l' [->|Hl']%elem_of_cons; [|by apply Hall]. split; [auto|].
    rewrite !Hold2; [done| |done]. apply Hsub. by eapply list_elem_of_lookup_2.
Qed.

Lemma visited_next i from hops order :
  visited i hops order -> order !! i = Some from ->
  (forall l, l ∈ linksAt links from ->
     lkRemote l ∈ order /\ hopsAt hops (lkRemote l) <= hopsAt hops from + 1) ->
  visited (S i) hops order.
Proof.
  intros H Hi Hl. split; try apply H.
  - intros x b Hb Hx. pose proof (vi_sorted _ _ _ H i (S i) from b ltac:(lia) Hi Hb).
    pose proof (vi_front _ _ _ H x from Hi Hx). lia.
  - intros j b c Hj Hb He. destruct (decide (j = i)) as [->|Hne].
    + rewrite Hi in Hb. injection Hb as <-. destruct He as (l & Hin & <-). by apply Hl.
    + apply (vi_done _ _ _ H j b c); [lia|done|done].
Qed.

Lemma visitLoop_visited fuel i hops order :
  visited i hops order -> (bound <= fuel + i)%nat ->
  let '(hops', order') := visitLoop links fuel i hops order in
  exists i', visited i' hops' order' /\ (length order' <= i')%nat.
Proof.
  revert i hops order. induction fuel as [|fuel IH]; intros i hops order H Hf; simpl.
  { exists i. split; [done|]. pose proof (visited_length _ _ _ H). lia. }
  destruct (order !! i) as [from|] eqn:Hi.
  - pose proof (visitLinks_visited i from (linksAt links from) hops order H Hi ltac:(done)) as Hv.
    destruct (foldl _ _ _) as [hops1 order1]. destruct Hv as (H1 & Hp & _ & Hall).
    apply IH; [|lia]. eapply visited_next; [done| |exact Hall]. by eapply prefix_lookup_Some.
  - exists i. split; [done|]. by apply lookup_ge_None.
Qed.

(** The visit finds the bridges joined to the root and their distances. *)
Lemma visit_distances fuel :
  (bound <= fuel)%nat ->
  let '(hops, order) := visitLoop links fuel 0 {[root := 0]} [root] in
  NoDup order /\ head order = Some root /\ (forall x, x ∈ order <-> connected root x) /\
  (forall x d, hops !! x = Some d <-> 0 <= d /\ distance root x (Z.to_nat d)) /\
  forall x, connected root x -> exists d, distance root x d /\ Z.of_nat d < 2 ^ 30.
Proof.
  intros Hf. pose proof (visitLoop_visited fuel 0 _ _ visited_start ltac:(lia)) as Hv.
  destruct (visitLoop links fuel 0 {[root := 0]} [root]) as [hops order].
  destruct Hv as (i & H & Hi). pose proof (visited_length _ _ _ H) as Hlen.
  assert (forall x n, walk root x n -> x ∈ order /\ hopsAt hops x <= Z.of_nat n) as Hmin.
  { intros x n Hw. induction Hw as [|b c n Hw [IH1 IH2] He].
    - destruct (vi_root _ _ _ H) as [H1 H2]. split; [by eapply list_elem_of_lookup_2|].
      by rewrite (hopsAt_Some _ _ _ H2).
    - apply list_elem_of_lookup in IH1 as [j Hj].
      destruct (vi_done _ _ _ H j b c ltac:(apply lookup_lt_Some in Hj; lia) Hj He). split; [done|lia]. }
  assert (forall x d, hops !! x = Some d -> 0 <= d < 2 ^ 30 /\ distance root x (Z.to_nat d)) as Hdist.
  { intros x d Hd. destruct (vi_walk _ _ _ H _ _ Hd) as (Hw & Hb & _). split; [lia|]. split; [done|].
    intros k Hk. destruct (Hmin _ _ Hk) as [_ Hle]. rewrite (hopsAt_Some _ _ _ Hd) in Hle. lia. }
  split; [apply H|]. split; [by rewrite <- (proj1 (vi_root _ _ _ H)), head_lookup|].
  split_and!.
  - intros x. split; [|by intros [n Hn]; apply (Hmin _ _ Hn)].
    intros [d Hd]%(vi_dom _ _ _ H). destruct (Hdist _ _ Hd) as [_ [Hw _]]. by eexists.
  - intros x d. split; [intros Hd; by destruct (Hdist _ _ Hd) as [[? _] ?]|]. intros [Hd Hx].
    assert (x ∈ order) as [e He]%(vi_dom _ _ _ H) by apply (Hmin _ _ (proj1 Hx)).
    rewrite He. f_equal. destruct (Hdist _ _ He) as [[? _] He'].
    pose proof (distance_unique _ _ _ _ Hx He'). lia.
  - intros x [n Hx]. assert (x ∈ order) as [e He]%(vi_dom _ _ _ H) by apply (Hmin _ _ Hx).
    destruct (Hdist _ _ He) as [? He']. exists (Z.to_nat e). split; [done|lia].
Qed.
End visit.
End walks.

(** ** Root ports *)

Section place.
Context (devices : list Device).

Lemma better_trans a b c :
  better devices a b = true -> better devices b c = true -> better devices a c = true.
Proof.
  unfold better. rewrite !orb_true_iff, !andb_true_iff, !Z.ltb_lt, !negb_true_iff, !bool_decide_eq_true,
    !bool_decide_eq_false.
  intros [H1|[[H1 H2] H3]] [H4|[[H4 H5] H6]].
  - left. lia.
  - left. by rewrite <- H4.
  - left. by rewrite H1.
  - right. split_and!; [congruence|by etrans|]. intros E. apply H6.
    apply (anti_symm kle); [done|]. by rewrite <- E.
Qed.

(** The chosen link leads one hop closer and no such link beats it. *)
Lemma rootLink_best links hops up :
  match rootLink devices links hops up with
  | Some l => l ∈ links /\ hopsAt hops (lkRemote l) = up /\
      forall l', l' ∈ links -> hopsAt hops (lkRemote l') = up -> better devices l' l = false
  | None => forall l, l ∈ links -> hopsAt hops (lkRemote l) <> up
  end.
Proof.
  induction links as [|l links IH] using rev_ind.
  { intros l Hl. by apply elem_of_nil in Hl. }
  unfold rootLink in *. rewrite foldl_app. cbn [foldl].
  destruct (foldl _ None links) as [b|].
  - destruct IH as (Hb & Hup & Hbest). destruct (hopsAt hops (lkRemote l) =? up) eqn:E; cbn [negb].
    + apply Z.eqb_eq in E. destruct (better devices l b) eqn:El.
      * split_and!; [set_solver|done|]. intros l' [Hl'| ->%list_elem_of_singleton]%elem_of_app Hup'.
        -- apply not_true_is_false. intros Hlt. pose proof (better_trans _ _ _ Hlt El) as Ht.
           by rewrite Hbest in Ht.
        -- apply not_true_is_false. unfold better.
           rewrite orb_true_iff, andb_true_iff, Z.ltb_lt, negb_true_iff, bool_decide_eq_false.
           intros [?|[_ ?]]; [lia|done].
      * split_and!; [set_solver|done|]. intros l' [Hl'| ->%list_elem_of_singleton]%elem_of_app Hup'; auto.
    + apply Z.eqb_neq in E. split_and!; [set_solver|done|].
      intros l' [Hl'| ->%list_elem_of_singleton]%elem_of_app Hup'; [by apply Hbest|done].
  - destruct (hopsAt hops (lkRemote l) =? up) eqn:E; cbn [negb].
    + apply Z.eqb_eq in E. split_and!; [set_solver|done|].
      intros l' [Hl'| ->%list_elem_of_singleton]%elem_of_app Hup'; [by destruct (IH _ Hl')|].
      apply not_true_is_false. unfold better.
           rewrite orb_true_iff, andb_true_iff, Z.ltb_lt, negb_true_iff, bool_decide_eq_false.
           intros [?|[_ ?]]; [lia|done].
    + apply Z.eqb_neq in E. intros l' [Hl'| ->%list_elem_of_singleton]%elem_of_app; [by apply IH|done].
Qed.

(** ** The tree of one root *)

Context (links : gmap nat (list stpLink)).
Hypothesis Hsym : forall a b, edge links a b -> edge links b a.

Definition elected (x : nat) (p : stpPosition) : Prop :=
  exists r d, distance links r x d /\
    (forall c, connected links x c -> bridgeID devices r <= bridgeID devices c) /\
    poRoot p = bridgeID devices r /\ poCost p = Z.of_nat d * STPPortPathCostDefault /\
    ((d = 0%nat /\ poRootInterface p = ""%string /\ poUpstream p = 0) \/
     exists l e, d = S e /\ l ∈ linksAt links x /\ distance links r (lkRemote l) e /\
       poRootInterface p = lkLocal l /\ poUpstream p = bridgeID devices (lkRemote l) /\
       forall l', l' ∈ linksAt links x -> distance links r (lkRemote l') e -> better devices l' l = false).

(** Writing one position per bridge. *)
Lemma foldl_positions {X} (choose : nat -> option X) (pos : nat -> X -> stpPosition) (l : list nat)
    (m : gmap nat stpPosition) (x : nat) :
  foldl (fun (m : gmap nat stpPosition) b => match choose b with Some y => <[b := pos b y]> m | None => m end) m l !! x =
  if bool_decide (x ∈ l) then match choose x with Some y => Some (pos x y) | None => m !! x end
  else m !! x.
Proof.
  induction l as [|b l IH] using rev_ind; [done|]. rewrite foldl_app. cbn [foldl].
  destruct (decide (b = x)) as [->|Hne].
  - rewrite bool_decide_eq_true_2 by set_solver. destruct (choose x) eqn:E.
    + by rewrite lookup_insert_eq.
    + rewrite IH. by case_bool_decide.
  - assert (match choose b with Some y => <[b:=pos b y]> (foldl _ m l) | None => foldl _ m l end !! x =
      foldl (fun (m : gmap nat stpPosition) b => match choose b with Some y => <[b := pos b y]> m | None => m end) m l !! x) as ->
      by (destruct (choose b); [by rewrite lookup_insert_ne|done]).
    rewrite IH. assert (bool_decide (x ∈ l ++ [b]) = bool_decide (x ∈ l)) as ->; [|done].
    apply bool_decide_ext. set_solver.
Qed.

Lemma distance_pred r x e :
  distance links r x (S e) -> exists l, l ∈ linksAt links x /\ distance links r (lkRemote l) e.
Proof.
  intros [Hw Hmin]. inversion Hw as [|b c n Hb He]; subst.
  destruct (Hsym _ _ He) as (l & Hl & E). exists l. split; [done|]. rewrite E. split; [done|].
  intros k Hk. specialize (Hmin (S k) ltac:(by eapply walk_step)). lia.
Qed.

Lemma placeTree_elected fuel root positions :
  (forall l : list nat, NoDup l -> (forall x, x ∈ l -> connected links root x) -> (length l <= fuel)%nat) ->
  Z.of_nat fuel < 2 ^ 30 ->
  (forall c, connected links root c -> bridgeID devices root <= bridgeID devices c) ->
  let positions' := placeTree devices fuel root links positions in
  forall x, (connected links root x /\ exists p, positions' !! x = Some p /\ elected x p) \/
    (~ connected links root x /\ positions' !! x = positions !! x).
Proof.
  intros Hb Hs Hlow. unfold placeTree.
  pose proof (visit_distances links Hsym root fuel Hb Hs fuel ltac:(lia)) as Hv.
  destruct (visitLoop links fuel 0 {[root := 0]} [root]) as [hops order].
  destruct Hv as (Hnd & Hhead & Hdom & Hdist & Hsmall). destruct order as [|r0 order]; [done|].
  injection Hhead as ->. cbn [tail]. apply NoDup_cons in Hnd as [Hroot _].
  assert (distance links root root 0) as Hd0 by (split; [constructor|lia]).
  assert (forall x c, connected links root x -> connected links x c -> bridgeID devices root <= bridgeID devices c) as Hlow'.
  { intros x c Hx Hc. apply Hlow. by eapply connected_trans. }
  intros x. destruct (decide (x ∈ root :: order)) as [Hx%Hdom|Hx]; [left; split; [done|]|right].
  - rewrite (foldl_positions (fun b => rootLink devices (linksAt links b) hops (uint32 (hopsAt hops b - 1)))
      (fun b link => mkPosition (bridgeID devices root) (uint32 (hopsAt hops b * STPPortPathCostDefault))
        (lkLocal link) (bridgeID devices (lkRemote link)))).
    destruct (decide (x = root)) as [->|Hne].
    { rewrite bool_decide_eq_false_2 by done. rewrite lookup_insert_eq. eexists. split; [done|].
      exists root, 0%nat. split; [exact Hd0|]. split; [exact Hlow|]. split_and!; [done|done|by left]. }
    apply Hdom in Hx as Hin. apply elem_of_cons in Hin as [Hin|Hin]; [done|].
    rewrite bool_decide_eq_true_2 by done. destruct (Hsmall x Hx) as (d & Hd & Hd30).
    destruct d as [|e]; [by destruct Hd as [Hw _]; inversion Hw|].
    assert (hopsAt hops x = Z.of_nat (S e)) as Eh.
    { apply hopsAt_Some, Hdist. split; [lia|]. by rewrite Nat2Z.id. }
    assert (forall l, l ∈ linksAt links x ->
      hopsAt hops (lkRemote l) = Z.of_nat e <-> distance links root (lkRemote l) e) as Hup.
    { intros l Hl. assert (connected links root (lkRemote l)) as Hc.
      { eapply connected_trans; [exact Hx|]. exists 1%nat. eapply walk_step; [constructor|by exists l]. }
      destruct (Hsmall _ Hc) as (k & Hk & _).
      assert (hopsAt hops (lkRemote l) = Z.of_nat k) as ->
        by (apply hopsAt_Some, Hdist; split; [lia|by rewrite Nat2Z.id]).
      split; [intros E; by apply Nat2Z.inj in E as <-|]. intros He. by rewrite (distance_unique _ _ _ _ _ He Hk). }
    rewrite Eh. rewrite (uint32_id (_ - 1)) by lia.
    replace (Z.of_nat (S e) - 1) with (Z.of_nat e) by lia.
    pose proof (rootLink_best (linksAt links x) hops (Z.of_nat e)) as Hbest.
    destruct (rootLink devices (linksAt links x) hops (Z.of_nat e)) as [l|].
    + destruct Hbest as (Hl & E & Hbest). eexists. split; [done|]. exists root, (S e).
      split; [exact Hd|]. split; [intros c; by apply (Hlow' x)|]. split; [done|]. split.
      * simpl. apply uint32_id. unfold STPPortPathCostDefault. lia.
      * right. exists l, e. split; [done|]. split; [done|]. split; [by apply Hup|].
        split; [done|]. split; [done|]. intros l' Hl' Hd'. apply Hbest; [done|]. by apply Hup.
    + destruct (distance_pred _ _ _ Hd) as (l & Hl & Hdl). destruct (Hbest l Hl). by apply Hup.
  - assert (~ connected links root x) as Hx' by (by rewrite <- Hdom). split; [done|].
    rewrite (foldl_positions (fun b => rootLink devices (linksAt links b) hops (uint32 (hopsAt hops b - 1)))
      (fun b link => mkPosition (bridgeID devices root) (uint32 (hopsAt hops b * STPPortPathCostDefault))
        (lkLocal link) (bridgeID devices (lkRemote link)))).
    rewrite bool_decide_eq_false_2 by set_solver. rewrite lookup_insert_ne; [done|].
    intros <-. apply Hx. by left.
Qed.
End place.

(** ** The bridges of a device table *)

Section table.
Context (devices : list Device).

Definition bridges : list nat := map snd (map_to_list (byName devices)).

Lemma byName_spec name i :
  byName devices !! name = Some i ->
  (i < length devices)%nat /\ stpEnabled (device devices i) = true /\ dvName (device devices i) = name.
Proof.
  unfold byName.
  cut (forall (l : list nat) (m : gmap string nat), (forall n j, m !! n = Some j -> (j < length devices)%nat /\
      stpEnabled (device devices j) = true /\ dvName (device devices j) = n) ->
    (forall j, j ∈ l -> (j < length devices)%nat) ->
    forall n j, foldl (fun (m : gmap string nat) i => if stpEnabled (device devices i) then <[dvName (device devices i) := i]> m else m)
      m l !! n = Some j ->
    (j < length devices)%nat /\ stpEnabled (device devices j) = true /\ dvName (device devices j) = n).
  { intros Hcut. apply (Hcut (seq 0 (length devices)) ∅); [done|]. intros j Hj%elem_of_seq. lia. }
  induction l as [|k l IH]; intros m Hm Hl n j; cbn [foldl]; [apply Hm|].
  apply IH; [|intros; apply Hl; by right]. intros n' j'. destruct (stpEnabled (device devices k)) eqn:E; [|apply Hm].
  intros [[<- <-]|[_ H]]%lookup_insert_Some; [|by apply Hm]. split; [apply Hl; by left|done].
Qed.

Lemma elem_of_bridges i : i ∈ bridges <-> byName devices !! dvName (device devices i) = Some i.
Proof.
  unfold bridges. rewrite list_elem_of_fmap. split.
  - intros ([n j] & -> & H%elem_of_map_to_list). simpl. by destruct (byName_spec _ _ H) as (_ & _ & ->).
  - intros H. exists (dvName (device devices i), i). by rewrite elem_of_map_to_list.
Qed.

Lemma bridges_lt i : i ∈ bridges -> (i < length devices)%nat.
Proof. intros H%elem_of_bridges. by apply byName_spec in H as [? _]. Qed.

(** [i] has a trunk that names [j]. *)
Definition trunked (i j : nat) : Prop :=
  exists t, t ∈ dvTrunkPorts (device devices i) /\ byName devices !! tpRemoteDevice t = Some j /\
    tpFDBOnly t = false /\ j <> i.

Lemma trunkLinks_adds i :
  linkAdds (trunkLinks devices i) (fun t a l => exists j, byName devices !! tpRemoteDevice t = Some j /\
    tpFDBOnly t = false /\ j <> i /\
    ((a = i /\ l = mkLink (tpInterface t) j) \/ (a = j /\ l = mkLink (tpRemoteInterface t) i))).
Proof.
  intros m t a l. unfold trunkLinks. destruct (byName devices !! tpRemoteDevice t) as [j|].
  - destruct (tpFDBOnly t); simpl; [naive_solver|]. case_bool_decide as E; [naive_solver|].
    rewrite !elem_of_addLink. naive_solver.
  - naive_solver.
Qed.

Lemma linksOf_edge order a b :
  order ≡ₚ bridges ->
  edge (linksOf devices order) a b <-> a ∈ bridges /\ b ∈ bridges /\ (trunked a b \/ trunked b a).
Proof.
  intros Ho. unfold edge, linksOf.
  assert (forall l, l ∈ linksAt (foldl (fun links i => foldl (trunkLinks devices i) links
      (dvTrunkPorts (device devices i))) ∅ order) a <->
    exists i t j, i ∈ bridges /\ t ∈ dvTrunkPorts (device devices i) /\
      byName devices !! tpRemoteDevice t = Some j /\ tpFDBOnly t = false /\ j <> i /\
      ((a = i /\ l = mkLink (tpInterface t) j) \/ (a = j /\ l = mkLink (tpRemoteInterface t) i))) as Hl.
  { intros l. rewrite (linkAdds_foldl _ (fun i a l => exists t j, t ∈ dvTrunkPorts (device devices i) /\
      byName devices !! tpRemoteDevice t = Some j /\ tpFDBOnly t = false /\ j <> i /\
      ((a = i /\ l = mkLink (tpInterface t) j) \/ (a = j /\ l = mkLink (tpRemoteInterface t) i)))).
    - split; [|intros (i & t & j & Hi & H); right; exists i; rewrite Ho; by eauto].
      intros [[]%elem_of_nil|(i & Hi & t & j & H)]. exists i, t, j. by rewrite <- Ho.
    - intros m i a' l'. rewrite (linkAdds_foldl _ _ _ (trunkLinks_adds i)). naive_solver. }
  assert (forall t j, byName devices !! tpRemoteDevice t = Some j -> j ∈ bridges) as Hj.
  { intros t j H. apply elem_of_bridges. by destruct (byName_spec _ _ H) as (_ & _ & ->). }
  setoid_rewrite Hl. unfold trunked. split.
  - intros (l & (i & t & j & Hi & Ht & Hn & Hf & Hne & [[-> ->]|[-> ->]]) & <-); simpl; eauto 10.
  - intros (Ha & Hb & [(t & Ht & Hn & Hf & Hne)|(t & Ht & Hn & Hf & Hne)]).
    + exists (mkLink (tpInterface t) b). split; [|done]. exists a, t, b. eauto 10.
    + exists (mkLink (tpRemoteInterface t) b). split; [|done]. exists b, t, a. eauto 10.
Qed.

Section elected_tree.
Context (linkOrder bridgeOrder : list nat).
Hypothesis Hlinks : linkOrder ≡ₚ bridges.
Hypothesis Hbridges : bridgeOrder ≡ₚ bridges.
Hypothesis Hsmall : Z.of_nat (length devices) < 2 ^ 30.

Let links := linksOf devices linkOrder.

Lemma edge_sym a b : edge links a b -> edge links b a.
Proof. unfold links. rewrite !linksOf_edge by done. tauto. Qed.

Lemma connected_bridges a b : a ∈ bridges -> connected links a b -> b ∈ bridges.
Proof. intros Ha [n Hn]. induction Hn as [|b c n _ _ He]; [done|]. by apply linksOf_edge in He as (_ & ? & _). Qed.

Lemma component_bound root l :
  root ∈ bridges -> NoDup l -> (forall x, x ∈ l -> connected links root x) -> (length l <= length bridgeOrder)%nat.
Proof.
  intros Hr Hnd Hl. rewrite Hbridges. apply submseteq_length, NoDup_submseteq; [done|].
  intros x Hx. eapply connected_bridges; [exact Hr|by apply Hl].
Qed.

Lemma bridges_NoDup : NoDup bridges.
Proof.
  apply NoDup_fmap_2_strong; [|apply NoDup_map_to_list].
  intros [n i] [n' i'] H%elem_of_map_to_list H'%elem_of_map_to_list E. simpl in E. subst i'.
  apply byName_spec in H as (_ & _ & <-), H' as (_ & _ & <-). done.
Qed.

Lemma bridges_small : Z.of_nat (length bridgeOrder) < 2 ^ 30.
Proof.
  rewrite Hbridges. assert (length bridges <= length devices)%nat; [|lia].
  rewrite <- (length_seq (length devices) 0). apply submseteq_length, NoDup_submseteq; [apply bridges_NoDup|].
  intros x Hx%bridges_lt. apply elem_of_seq. lia.
Qed.

(** After the bridges of [done], the components they are in are placed. *)
Definition placed (done : list nat) (positions : gmap nat stpPosition) : Prop :=
  (forall x p, positions !! x = Some p -> x ∈ bridges /\ elected devices links x p) /\
  (forall x, x ∈ done -> is_Some (positions !! x)) /\
  (forall x y, is_Some (positions !! x) -> connected links x y -> is_Some (positions !! y)).

Lemma placed_step done b rest positions :
  (forall x, x ∈ done ++ b :: rest <-> x ∈ bridges) ->
  Forall (fun c => bridgeID devices b <= bridgeID devices c) rest ->
  placed done positions ->
  placed (done ++ [b]) (match positions !! b with
    | Some _ => positions
    | None => placeTree devices (length bridgeOrder) b links positions
    end).
Proof.
  intros Hall Hlow (H1 & H2 & H3). assert (b ∈ bridges) as Hb by (apply Hall; set_solver).
  destruct (positions !! b) as [p|] eqn:E.
  { split_and!; [done| |done]. intros x [Hx| ->%list_elem_of_singleton]%elem_of_app; [by apply H2|by eexists]. }
  assert (forall c, connected links b c -> positions !! c = None) as Hnone.
  { intros c Hc. apply eq_None_not_Some. intros Hs. apply (connected_sym links edge_sym) in Hc.
    destruct (H3 _ _ Hs Hc). congruence. }
  pose proof (placeTree_elected devices links edge_sym (length bridgeOrder) b positions
    (fun l => component_bound b l Hb) bridges_small) as Hplace.
  assert (forall c, connected links b c -> bridgeID devices b <= bridgeID devices c) as Hlowest.
  { intros c Hc. pose proof (connected_bridges _ _ Hb Hc) as Hcb. apply Hall in Hcb.
    apply elem_of_app in Hcb as [Hcd|[->|Hcr]%elem_of_cons]; [|lia|].
    - destruct (H2 _ Hcd). rewrite Hnone in *; done.
    - rewrite Forall_forall in Hlow. by apply Hlow. }
  specialize (Hplace Hlowest). cbv zeta in Hplace.
  set (positions' := placeTree _ _ _ _ _) in *. split_and!.
  - intros x p Hp. destruct (Hplace x) as [[Hc (p' & Hp' & He)]|[_ Eq]].
    + rewrite Hp' in Hp. injection Hp as <-. split; [by eapply connected_bridges|done].
    + rewrite Eq in Hp. by apply H1.
  - intros x [Hx| ->%list_elem_of_singleton]%elem_of_app.
    + destruct (Hplace x) as [[_ (p & Hp & _)]|[_ ->]]; [by eexists|by apply H2].
    + destruct (Hplace b) as [[_ (p & Hp & _)]|[Hn _]]; [by eexists|].
      destruct Hn. exists 0%nat. constructor.
  - intros x y Hx Hxy. destruct (Hplace y) as [[_ (p & Hp & _)]|[Hn Eq]]; [by eexists|].
    rewrite Eq. apply (H3 x); [|done]. destruct (Hplace x) as [[Hc _]|[_ <-]]; [|done].
    destruct Hn. by eapply connected_trans.
Qed.

Lemma election_placed :
  placed (sortedByBridgeID devices bridgeOrder) (electSpanningTree devices linkOrder bridgeOrder).
Proof.
  unfold electSpanningTree. fold links.
  pose proof (sortBy_sorted (bridgeID devices) bridgeOrder) as Hs. fold (sortedByBridgeID devices bridgeOrder) in Hs.
  assert (forall x, x ∈ sortedByBridgeID devices bridgeOrder <-> x ∈ bridges) as Hin.
  { intros y. unfold sortedByBridgeID. by rewrite sortBy_perm, Hbridges. }
  assert (forall l done positions, (forall x, x ∈ done ++ l <-> x ∈ bridges) ->
    StronglySorted (key_le (bridgeID devices)) l -> placed done positions ->
    placed (done ++ l) (foldl (fun (positions : gmap nat stpPosition) bridge =>
      match positions !! bridge with
      | Some _ => positions
      | None => placeTree devices (length bridgeOrder) bridge links positions
      end) positions l)) as Hfold.
  { induction l as [|b l IH]; intros done positions Hall Hsorted Hp; [by rewrite app_nil_r|].
    apply StronglySorted_cons in Hsorted as [Hb Hsorted].
    replace (done ++ b :: l) with ((done ++ [b]) ++ l) in * by (by rewrite <- app_assoc).
    cbn [foldl]. apply IH; [done|done|]. apply (placed_step done b l); [|exact Hb|exact Hp].
    intros y. rewrite <- (Hall y). by rewrite <- app_assoc. }
  apply (Hfold _ [] ∅ Hin Hs). split_and!; [done|by intros ? []%elem_of_nil|by intros ? ? []].
Qed.

(** C10.  The election: whatever order Go visits its maps in, exactly the
    STP-enabled devices that own their name get a position, and each agrees
    with 802.1D — its root is a lowest bridge ID of its connected set, its cost
    is four times its least number of links to that root, and unless it is the
    root its root port is a link one hop closer that no other such link beats
    on upstream bridge ID, or on interface name towards the same bridge. *)
Theorem election_correct x :
  let positions := electSpanningTree devices linkOrder bridgeOrder in
  (is_Some (positions !! x) <-> x ∈ bridges) /\
  forall p, positions !! x = Some p -> elected devices links x p.
Proof.
  destruct election_placed as (H1 & H2 & _). split; [split|].
  - intros [p Hp]. by apply (H1 _ _ Hp).
  - intros Hx. apply H2. unfold sortedByBridgeID. by rewrite sortBy_perm, Hbridges.
  - intros p Hp. by apply (H1 _ _ Hp).
Qed.

Lemma lowest_agree x y r r' d d' :
  connected links x y -> distance links r x d -> distance links r' y d' ->
  (forall c, connected links x c -> bridgeID devices r <= bridgeID devices c) ->
  (forall c, connected links y c -> bridgeID devices r' <= bridgeID devices c) ->
  bridgeID devices r = bridgeID devices r'.
Proof.
  intros Hxy [Hr _] [Hr' _] Hlow Hlow'.
  assert (connected links x r) as Hxr by (apply (connected_sym links edge_sym); by exists d).
  assert (connected links y r') as Hyr by (apply (connected_sym links edge_sym); by exists d').
  apply Z.le_antisymm; [apply Hlow|apply Hlow'].
  - by apply (connected_trans links x y r').
  - apply (connected_trans links y x r); [|done]. by apply (connected_sym links edge_sym).
Qed.

(** One loop-free tree: joined bridges agree on the root, and, when no
    two bridges share a bridge ID, every bridge that is not the root has an
    upstream bridge across one of its trunks whose own cost is exactly one link
    less, so following upstream bridges reaches the root. *)
Theorem election_tree x p :
  let positions := electSpanningTree devices linkOrder bridgeOrder in
  positions !! x = Some p ->
  (forall y q, connected links x y -> positions !! y = Some q -> poRoot q = poRoot p) /\
  ((forall a b, a ∈ bridges -> b ∈ bridges -> bridgeID devices a = bridgeID devices b -> a = b) ->
   poCost p <> 0 -> exists u q, edge links x u /\ positions !! u = Some q /\
     poUpstream p = bridgeID devices u /\ poCost p = poCost q + STPPortPathCostDefault).
Proof.
  intros positions Hp. destruct election_placed as (H1 & _ & H3). fold positions in H1, H3.
  destruct (H1 _ _ Hp) as (Hxb & r & d & Hd & Hlow & Er & Ec & Hport). split.
  - intros y q Hc Hq. destruct (H1 _ _ Hq) as (_ & r' & d' & Hd' & Hlow' & Er' & _).
    rewrite Er, Er'. symmetry. by apply (lowest_agree x y r r' d d').
  - intros Huniq Hcost. destruct Hport as [(-> & _)|(l & e & -> & Hl & He & _ & Hup & _)].
    { destruct Hcost. by rewrite Ec. }
    assert (edge links x (lkRemote l)) as Hedge by by exists l.
    assert (connected links x (lkRemote l)) as Hc.
    { exists 1%nat. eapply walk_step; [constructor|done]. }
    destruct (H3 x _ ltac:(by eexists) Hc) as [q Hq]. exists (lkRemote l), q.
    destruct (H1 _ _ Hq) as (_ & r' & d' & Hd' & Hlow' & _ & Ec' & _).
    assert (bridgeID devices r = bridgeID devices r') as E by by apply (lowest_agree x (lkRemote l) r r' (S e) d').
    assert (r = r') as <-.
    { apply Huniq; [| |done].
      - apply (connected_bridges x); [done|]. apply (connected_sym links edge_sym). exists (S e). apply Hd.
      - apply (connected_bridges x); [done|]. eapply connected_trans; [exact Hc|].
        apply (connected_sym links edge_sym). exists d'. apply Hd'. }
    rewrite (distance_unique _ _ _ _ _ Hd' He) in Ec'. split_and!; [done|done|done|].
    rewrite Ec, Ec'. unfold STPPortPathCostDefault. lia.
Qed.
End elected_tree.
End table.

(** A square of bridges with one trunk used twice. *)
Definition testBridge (name : string) (b : Z) (priority : Z) (trunks : list TrunkPort) : Device :=
  mkDevice name [0; 0; 0; 0; 0; b] (Some (mkSTPConfig true priority)) trunks.

Definition testBridges : list Device :=
  [testBridge "a" 1 0 [mkTrunkPort "a1" "b" "b1" false; mkTrunkPort "a2" "c" "c1" false];
   testBridge "b" 2 0 [mkTrunkPort "b2" "d" "d1" false];
   testBridge "c" 3 4096 [mkTrunkPort "c2" "d" "d2" false];
   testBridge "d" 4 0 []; mkDevice "host" [1] None [mkTrunkPort "h" "a" "a9" false]].

Definition testOrder : list nat := [3; 1; 0; 2]%nat.

Lemma testOrder_bridges : testOrder ≡ₚ bridges testBridges.
Proof. apply (bool_decide_unpack _). vm_compute. exact I. Qed.

Example square_positions :
  (fun i => (fun p => (poCost p, poRootInterface p)) <$>
     electSpanningTree testBridges testOrder testOrder !! i) <$> [0; 1; 2; 3; 4]%nat =
  [Some (4, "a2"); Some (8, "b1"); Some (0, ""); Some (4, "d2"); None]%string.
Proof. vm_compute. reflexivity. Qed.

Lemma election_correct_witness :
  let positions := electSpanningTree testBridges testOrder testOrder in
  (is_Some (positions !! 3%nat) <-> 3%nat ∈ bridges testBridges) /\
  forall p, positions !! 3%nat = Some p -> elected testBridges (linksOf testBridges testOrder) 3 p.
Proof.
  apply (election_correct testBridges testOrder testOrder testOrder_bridges testOrder_bridges).
  reflexivity.
Defined.

Lemma election_tree_witness :
  exists p, electSpanningTree testBridges testOrder testOrder !! 3%nat = Some p /\
  let positions := electSpanningTree testBridges testOrder testOrder in
  (forall y q, connected (linksOf testBridges testOrder) 3 y -> positions !! y = Some q -> poRoot q = poRoot p) /\
  ((forall a b, a ∈ bridges testBridges -> b ∈ bridges testBridges ->
      bridgeID testBridges a = bridgeID testBridges b -> a = b) ->
   poCost p <> 0 -> exists u q, edge (linksOf testBridges testOrder) 3 u /\ positions !! u = Some q /\
     poUpstream p = bridgeID testBridges u /\ poCost p = poCost q + STPPortPathCostDefault).
Proof.
  eexists. split; [vm_compute; reflexivity|].
  apply (election_tree testBridges testOrder testOrder testOrder_bridges testOrder_bridges eq_refl).
  vm_compute. reflexivity.
Defined.
