(* ===== verification/Oid.v ===== *)
(** * Object identifiers

    [protocols/snmp/mib.go] (parsing, comparison, validity) and
    [protocols/snmp/walk_oid.go] (symbolic walk lines).  An OID is the string
    Go keeps; its arcs are Go [int]s. *)

From Stdlib Require Import Ascii.
From S2P Require Import Prelude.

(** ** Strings of the standard library *)

(** [strconv.Atoi]: an optional sign, decimal digits, and the range of [int]. *)
Definition digitValue (c : ascii) : option Z :=
  let n := Z.of_N (N_of_ascii c) in
  if (48 <=? n) && (n <=? 57) then Some (n - 48) else None.

Fixpoint digits (acc : Z) (s : string) : option Z :=
  match s with
  | EmptyString => Some acc
  | String c s => match digitValue c with Some d => digits (10 * acc + d) s | None => None end
  end.

Definition unsigned (s : string) : option Z :=
  match s with EmptyString => None | _ => digits 0 s end.

Definition inInt (z : Z) : option Z :=
  if (- 2 ^ 63 <=? z) && (z <? 2 ^ 63) then Some z else None.

Definition Atoi (s : string) : option Z :=
  match s with
  | String "-"%char s => n ← unsigned s; inInt (- n)
  | String "+"%char s => n ← unsigned s; inInt n
  | _ => n ← unsigned s; inInt n
  end.

(** [strings.Split(s, ".")] *)
Fixpoint splitDot (s : string) : list string :=
  match s with
  | EmptyString => [EmptyString]
  | String c s =>
      if Ascii.eqb c "."%char then EmptyString :: splitDot s
      else match splitDot s with
           | part :: rest => String c part :: rest
           | [] => [String c EmptyString]
           end
  end.

(** [strings.TrimPrefix(s, ".")] *)
Definition trimDot (s : string) : string :=
  match s with
  | String c rest => if Ascii.eqb c "."%char then rest else s
  | EmptyString => s
  end.

(** [strings.Cut(s, ".")]: what is before and after the first dot. *)
Fixpoint cutDot (s : string) : string * string * bool :=
  match s with
  | EmptyString => (EmptyString, EmptyString, false)
  | String c s =>
      if Ascii.eqb c "."%char then (EmptyString, s, true)
      else let '(before, after, found) := cutDot s in (String c before, after, found)
  end.

(** [strings.Cut(s, "::")] *)
Fixpoint cutColons (s : string) : string * string * bool :=
  match s with
  | EmptyString => (EmptyString, EmptyString, false)
  | String c s' =>
      match s' with
      | String d rest =>
          if Ascii.eqb c ":"%char && Ascii.eqb d ":"%char then (EmptyString, rest, true)
          else let '(before, after, found) := cutColons s' in (String c before, after, found)
      | EmptyString => (s, EmptyString, false)
      end
  end.

(** [strings.ToLower], as far as it matters for names in ASCII: besides the
    ASCII capitals, the capitals U+0130 and U+212A have the ASCII lower cases
    i and k; every other non-ASCII letter stays outside ASCII. *)
Definition lowerAscii (c : ascii) : ascii :=
  let n := N_of_ascii c in
  if (65 <=? n)%N && (n <=? 90)%N then ascii_of_N (n + 32) else c.

Fixpoint ToLower (s : string) : string :=
  match s with
  | EmptyString => EmptyString
  | String c s1 =>
      match s1 with
      | String d s2 =>
          if Ascii.eqb c "196"%char && Ascii.eqb d "176"%char then String "i" (ToLower s2)
          else match s2 with
          | String e s3 =>
              if Ascii.eqb c "226"%char && Ascii.eqb d "132"%char && Ascii.eqb e "170"%char
              then String "k" (ToLower s3) else String (lowerAscii c) (ToLower s1)
          | EmptyString => String (lowerAscii c) (ToLower s1)
          end
      | EmptyString => String (lowerAscii c) (ToLower s1)
      end
  end.

(** ** Arcs *)

(** Arcs that are not integers are dropped. *)
Definition parseOIDParts (oid : string) : list Z := omap Atoi (splitDot oid).

Fixpoint compareOIDParts (parts1 parts2 : list Z) : comparison :=
  match parts1, parts2 with
  | [], [] => Eq
  | [], _ :: _ => Lt
  | _ :: _, [] => Gt
  | x :: parts1, y :: parts2 =>
      if x <? y then Lt else if y <? x then Gt else compareOIDParts parts1 parts2
  end.

Definition compareOIDs (oid1 oid2 : string) : comparison :=
  compareOIDParts (parseOIDParts oid1) (parseOIDParts oid2).

Definition FormatOID (oid : string) : string :=
  match oid with
  | String "."%char _ => oid
  | _ => String "."%char oid
  end.

Definition validArc (part : string) : bool :=
  match part with
  | EmptyString => false
  | _ => match Atoi part with Some n => negb (n <? 0) | None => false end
  end.

Definition IsValidOID (oid : string) : bool :=
  match oid with
  | EmptyString => false
  | _ => forallb validArc (splitDot (trimDot oid))
  end.

(** ** Symbolic walk objects *)

Definition knownObjects : list (string * string) :=
  [("snmpv2-mib::sysdescr", ".1.3.6.1.2.1.1.1");
   ("snmpv2-mib::sysobjectid", ".1.3.6.1.2.1.1.2");
   ("snmpv2-mib::syscontact", ".1.3.6.1.2.1.1.4");
   ("snmpv2-mib::sysname", ".1.3.6.1.2.1.1.5");
   ("snmpv2-mib::syslocation", ".1.3.6.1.2.1.1.6");
   ("if-mib::ifdescr", ".1.3.6.1.2.1.2.2.1.2");
   ("if-mib::iftype", ".1.3.6.1.2.1.2.2.1.3");
   ("if-mib::ifmtu", ".1.3.6.1.2.1.2.2.1.4");
   ("if-mib::ifspeed", ".1.3.6.1.2.1.2.2.1.5");
   ("if-mib::ifphysaddress", ".1.3.6.1.2.1.2.2.1.6");
   ("if-mib::ifadminstatus", ".1.3.6.1.2.1.2.2.1.7");
   ("if-mib::ifoperstatus", ".1.3.6.1.2.1.2.2.1.8");
   ("if-mib::ifname", ".1.3.6.1.2.1.31.1.1.1.1");
   ("if-mib::ifhighspeed", ".1.3.6.1.2.1.31.1.1.1.15");
   ("if-mib::ifalias", ".1.3.6.1.2.1.31.1.1.1.18")]%string.

Definition knownDiscoveryObjects : list (string * string) :=
  [("lldp-mib::lldplocportid", ".1.0.8802.1.1.2.1.3.7.1.3");
   ("lldp-mib::lldpremchassisid", ".1.0.8802.1.1.2.1.4.1.1.5");
   ("lldp-mib::lldpremportid", ".1.0.8802.1.1.2.1.4.1.1.7");
   ("lldp-mib::lldpremportdesc", ".1.0.8802.1.1.2.1.4.1.1.8");
   ("lldp-mib::lldpremsysname", ".1.0.8802.1.1.2.1.4.1.1.9");
   ("cisco-cdp-mib::cdpcachedeviceid", ".1.3.6.1.4.1.9.9.23.1.2.1.1.6");
   ("cisco-cdp-mib::cdpcachedeviceport", ".1.3.6.1.4.1.9.9.23.1.2.1.1.7")]%string.

Definition smiAnchors : list (string * string) :=
  [("snmpv2-smi::iso", ".1");
   ("snmpv2-smi::org", ".1.3");
   ("snmpv2-smi::dod", ".1.3.6");
   ("snmpv2-smi::internet", ".1.3.6.1");
   ("snmpv2-smi::directory", ".1.3.6.1.1");
   ("snmpv2-smi::mgmt", ".1.3.6.1.2");
   ("snmpv2-smi::mib-2", ".1.3.6.1.2.1");
   ("rfc1213-mib::mib-2", ".1.3.6.1.2.1");
   ("snmpv2-smi::transmission", ".1.3.6.1.2.1.10");
   ("snmpv2-smi::experimental", ".1.3.6.1.3");
   ("snmpv2-smi::private", ".1.3.6.1.4");
   ("snmpv2-smi::enterprises", ".1.3.6.1.4.1");
   ("snmpv2-smi::security", ".1.3.6.1.5");
   ("snmpv2-smi::snmpv2", ".1.3.6.1.6");
   ("snmpv2-smi::snmpdomains", ".1.3.6.1.6.1");
   ("snmpv2-smi::snmpproxys", ".1.3.6.1.6.2");
   ("snmpv2-smi::snmpmodules", ".1.3.6.1.6.3")]%string.

Fixpoint lookupName (name : string) (table : list (string * string)) : option string :=
  match table with
  | [] => None
  | (n, base) :: table => if bool_decide (name = n) then Some base else lookupName name table
  end.

(** A bare anchor gets the module prefix net-snmp dropped. *)
Definition smiAnchorOIDBase (name : string) : option string :=
  let '(bare, _, found) := cutColons name in
  lookupName (if found then name else "snmpv2-smi::" +:+ bare)%string smiAnchors.

Definition knownDiscoveryWalkOIDBase (name : string) : option string :=
  match lookupName name knownDiscoveryObjects with
  | Some base => Some base
  | None => smiAnchorOIDBase name
  end.

Definition knownWalkOIDBase (name : string) : option string :=
  match lookupName name knownObjects with
  | Some base => Some base
  | None => knownDiscoveryWalkOIDBase name
  end.

Definition NormalizeWalkOID (oid : string) : option string :=
  if IsValidOID oid then Some oid
  else
    let '(name, suffix, found) := cutDot oid in
    let name := if found then name else oid in
    match knownWalkOIDBase (ToLower name) with
    | None => None
    | Some base =>
        if bool_decide (suffix = ""%string) then Some base
        else if negb (IsValidOID suffix) then None
        else Some (base +:+ "." +:+ suffix)%string
    end.

Example normalize_sysName : NormalizeWalkOID "SNMPv2-MIB::sysName.0" = Some ".1.3.6.1.2.1.1.5.0"%string.
Proof. reflexivity. Qed.

Example normalize_bare : NormalizeWalkOID "iso.3.6.1" = Some ".1.3.6.1"%string.
Proof. reflexivity. Qed.

Example normalize_enum : NormalizeWalkOID "IF-MIB::ifDescr.ipv6.3" = None.
Proof. reflexivity. Qed.

(** ** Splitting *)

Lemma splitDot_ne s : splitDot s <> [].
Proof. destruct s as [|c s]; simpl; [done|]. destruct (Ascii.eqb c _); [done|]. by destruct (splitDot s). Qed.

Lemma splitDot_app s t : splitDot (s +:+ String "."%char t)%string = splitDot s ++ splitDot t.
Proof.
  induction s as [|c s IH]; [done|].
  change (String c s +:+ String "."%char t)%string with (String c (s +:+ String "."%char t)%string).
  cbn [splitDot]. rewrite IH. destruct (Ascii.eqb c _); [done|].
  pose proof (splitDot_ne s). by destruct (splitDot s).
Qed.

Lemma cutDot_found s before after :
  cutDot s = (before, after, true) -> s = (before +:+ String "."%char after)%string.
Proof.
  revert before after. induction s as [|c s IH]; intros before after; simpl; [done|].
  destruct (Ascii.eqb c "."%char) eqn:E.
  - apply Ascii.eqb_eq in E as ->. by intros [= <- <-].
  - destruct (cutDot s) as [[b a] f]. intros [= <- <- ->]. exact (f_equal (String c) (IH b a eq_refl)).
Qed.

Lemma cutDot_none s before after : cutDot s = (before, after, false) -> after = ""%string.
Proof.
  revert before after. induction s as [|c s IH]; intros before after; simpl; [by intros [= _ <-]|].
  destruct (Ascii.eqb c "."%char); [done|]. destruct (cutDot s) as [[b a] f] eqn:E.
  intros [= <- <- ->]. by eapply IH.
Qed.

(** ** Bases *)

Definition goodBase (base : string) : Prop :=
  exists rest, base = String "."%char rest /\ forallb validArc (splitDot rest) = true.

Definition goodBaseb (base : string) : bool :=
  match base with
  | String c rest => Ascii.eqb c "."%char && forallb validArc (splitDot rest)
  | EmptyString => false
  end.

Lemma goodBaseb_spec base : goodBaseb base = true -> goodBase base.
Proof.
  destruct base as [|c rest]; simpl; [done|]. intros [E H]%andb_true_iff.
  apply Ascii.eqb_eq in E as ->. by exists rest.
Qed.

Lemma lookupName_good name table base :
  forallb (fun '(_, b) => goodBaseb b) table = true -> lookupName name table = Some base -> goodBase base.
Proof.
  induction table as [|[n b] table IH]; simpl; [done|]. intros [Hb Ht]%andb_true_iff.
  case_bool_decide; [|by apply IH]. intros [= <-]. by apply goodBaseb_spec.
Qed.

Lemma knownWalkOIDBase_good name base : knownWalkOIDBase name = Some base -> goodBase base.
Proof.
  unfold knownWalkOIDBase, knownDiscoveryWalkOIDBase, smiAnchorOIDBase.
  destruct (lookupName name knownObjects) eqn:E1.
  { intros [= <-]. eapply lookupName_good; [|exact E1]. reflexivity. }
  destruct (lookupName name knownDiscoveryObjects) eqn:E2.
  { intros [= <-]. eapply lookupName_good; [|exact E2]. reflexivity. }
  destruct (cutColons name) as [[bare r] found]. apply lookupName_good. reflexivity.
Qed.

Lemma goodBase_valid base : goodBase base -> IsValidOID base = true.
Proof. by intros (rest & -> & H). Qed.

(** Two dots in a row. *)
Fixpoint emptyArc (s : string) : bool :=
  match s with
  | String c s' =>
      match s' with
      | String d _ => (Ascii.eqb c "."%char && Ascii.eqb d "."%char) || emptyArc s'
      | EmptyString => false
      end
  | EmptyString => false
  end.

Lemma emptyArc_app before after :
  emptyArc (before +:+ String "."%char (String "."%char after))%string = true.
Proof.
  induction before as [|c before IH]; [done|].
  change (String c before +:+ String "."%char (String "."%char after))%string
    with (String c (before +:+ String "."%char (String "."%char after))%string).
  destruct (before +:+ String "."%char (String "."%char after))%string as [|d rest] eqn:E; [by destruct before|].
  change ((Ascii.eqb c "."%char && Ascii.eqb d "."%char) || emptyArc (String d rest) = true).
  by rewrite IH, orb_true_r.
Qed.

(** Normalisation resolves to numbers: whatever walk object it resolves,
    numeric or symbolic, the result is a valid numeric OID that normalises to
    itself — provided the object has no empty arc ([..]) in it. *)
Theorem normalize_numeric oid numeric :
  NormalizeWalkOID oid = Some numeric ->
  emptyArc oid = false ->
  IsValidOID numeric = true /\ NormalizeWalkOID numeric = Some numeric.
Proof.
  intros Hn Hdots. assert (IsValidOID numeric = true) as Hv.
  { unfold NormalizeWalkOID in Hn. destruct (IsValidOID oid) eqn:Hoid; [congruence|].
    destruct (cutDot oid) as [[name suffix] found] eqn:Hcut.
    destruct (knownWalkOIDBase _) as [base|] eqn:Hbase; [|done].
    apply knownWalkOIDBase_good in Hbase. case_bool_decide as Hs.
    { injection Hn as <-. by apply goodBase_valid. }
    destruct (IsValidOID suffix) eqn:Hsuf; [|done]. injection Hn as <-.
    destruct found; [|by apply cutDot_none in Hcut]. apply cutDot_found in Hcut.
    destruct Hbase as (rest & -> & Hrest).
    change (String "." rest +:+ "." +:+ suffix)%string
      with (String "."%char (rest +:+ String "."%char suffix)%string).
    cbn [IsValidOID trimDot]. rewrite Ascii.eqb_refl, splitDot_app, forallb_app, Hrest. simpl.
    destruct suffix as [|c suffix]; [done|]. cbn [IsValidOID trimDot] in Hsuf.
    destruct (Ascii.eqb c "."%char) eqn:Ec; [|done]. apply Ascii.eqb_eq in Ec as ->.
    by rewrite Hcut, emptyArc_app in Hdots. }
  split; [done|]. unfold NormalizeWalkOID. by rewrite Hv.
Qed.

Lemma normalize_numeric_witness :
  NormalizeWalkOID "SNMPv2-SMI::enterprises.9.12" = Some ".1.3.6.1.4.1.9.12"%string /\
  IsValidOID ".1.3.6.1.4.1.9.12" = true /\
  NormalizeWalkOID ".1.3.6.1.4.1.9.12" = Some ".1.3.6.1.4.1.9.12"%string.
Proof.
  split; [reflexivity|].
  apply (normalize_numeric "SNMPv2-SMI::enterprises.9.12"); reflexivity.
Defined.

(** With an empty arc the promise fails: a symbolic object followed by
    two dots is resolved to a string that is not a valid OID, the non-numeric
    key the function's contract says must be refused. *)
Theorem normalize_empty_arc :
  NormalizeWalkOID "SNMPv2-MIB::sysName..0" = Some ".1.3.6.1.2.1.1.5..0"%string /\
  IsValidOID ".1.3.6.1.2.1.1.5..0" = false.
Proof. split; reflexivity. Qed.
