(* ===== verification/Mib.v ===== *)
(** * The management information base

    [protocols/snmp/mib.go]: the OID table an agent answers from, with its
    cached sorted index.  A payload and the environment a dynamic value is
    computed from are parameters.  Each critical section of a method is one
    definition; [GetNext] has two, between which another call may run. *)

From Stdlib Require Import Ascii.
From S2P Require Import Prelude.
From S2P Require Import Oid.

Section mib.
Context {V Env : Type}.

(** A value of the table: a static type and payload, or a function called on
    each access (which may return nil). *)
Record OIDValue := mkOIDValue {
  ovType : Z;
  ovValue : option V;
  ovDynamic : option (Env -> option (Z * option V))
}.

Record MIB := mkMIB {
  mbEntries : gmap string OIDValue;
  mbSorted : list string;
  mbDirty : bool
}.
#[export] Instance MIB_rebuild : Rebuild MIB := fun m =>
  mkMIB (mbEntries m) (mbSorted m) (mbDirty m).

Definition NewMIB : MIB := mkMIB ∅ [] false.

(** What an access returns: the payload, computed if it is dynamic. *)
Definition readValue (env : Env) (v : OIDValue) : option (Z * option V) :=
  match ovDynamic v with
  | Some fn => fn env
  | None => Some (ovType v, ovValue v)
  end.

Definition Set_ (oid : string) (value : OIDValue) (m : MIB) : MIB :=
  m <| mbEntries := <[trimDot oid := value]> (mbEntries m) |> <| mbDirty := true |>.

Definition SetDynamic (oid : string) (fn : Env -> option (Z * option V)) (m : MIB) : MIB :=
  m <| mbEntries := <[trimDot oid := mkOIDValue 0 None (Some fn)]> (mbEntries m) |>
    <| mbDirty := true |>.

Definition Get (env : Env) (oid : string) (m : MIB) : option (Z * option V) :=
  match mbEntries m !! trimDot oid with
  | None => None
  | Some value => readValue env value
  end.

Definition Delete (oid : string) (m : MIB) : MIB :=
  let oid := trimDot oid in
  match mbEntries m !! oid with
  | Some _ => m <| mbEntries := delete oid (mbEntries m) |> <| mbDirty := true |>
  | None => m
  end.

(** [strings.HasPrefix] *)
Definition hasPrefix (prefix s : string) : bool := String.prefix prefix s.

Definition ReplacePrefix (prefix : string) (entries : list (string * OIDValue)) (m : MIB) : MIB :=
  let prefix := (trimDot prefix +:+ ".")%string in
  let kept := filter (fun '(oid, _) => hasPrefix prefix oid = false) (mbEntries m) in
  m <| mbEntries := foldl (fun m '(oid, value) => <[trimDot oid := value]> m) kept entries |>
    <| mbDirty := true |>.

Definition Count (m : MIB) : Z := Z.of_nat (size (mbEntries m)).

(** ** The sorted index *)

Definition arcsLe (parts1 parts2 : list Z) : Prop := compareOIDParts parts1 parts2 <> Gt.

#[global] Instance arcsLe_dec : RelDecision arcsLe.
Proof. intros x y. unfold arcsLe. destruct (compareOIDParts x y); [left|left|right]; congruence. Defined.

Definition oidLe (oid1 oid2 : string) : Prop := arcsLe (parseOIDParts oid1) (parseOIDParts oid2).

#[global] Instance oidLe_dec : RelDecision oidLe.
Proof. intros x y. unfold oidLe. apply _. Defined.

(** [sort.Slice] by arcs; Go leaves the order of OIDs of equal arcs open. *)
Definition sortOIDs (oids : list string) : list string := merge_sort oidLe oids.

Definition updateSortedList (m : MIB) : MIB :=
  m <| mbSorted := sortOIDs (fst <$> map_to_list (mbEntries m)) |> <| mbDirty := false |>.

Definition Reindex (m : MIB) : MIB := if mbDirty m then updateSortedList m else m.

Definition AllOIDs (m : MIB) : list string * MIB :=
  let m := Reindex m in (mbSorted m, m).

(** [sort.Search(n, f)]: the search halves [j - i], so [n] turns are enough. *)
Fixpoint searchLoop (fuel : nat) (f : nat -> bool) (i j : nat) : nat :=
  match fuel with
  | O => i
  | S fuel =>
      if bool_decide (i < j)%nat then
        let h := ((i + j) / 2)%nat in
        if negb (f h) then searchLoop fuel f (h + 1) j else searchLoop fuel f i h
      else i
  end.

Definition Search (n : nat) (f : nat -> bool) : nat := searchLoop n f 0 n.

(** An OID after the last is answered by ["", nil]; dereferencing an entry
    that is gone panics. *)
Inductive NextResult :=
| EndOfMIB
| NextOID (oid : string) (value : option (Z * option V))
| Panic.

(** The second critical section of [GetNext]. *)
Definition nextIn (env : Env) (oid : string) (m : MIB) : NextResult :=
  let oid := trimDot oid in
  let idx := Search (length (mbSorted m)) (fun i =>
    match compareOIDs (default ""%string (mbSorted m !! i)) oid with Gt => true | _ => false end) in
  match mbSorted m !! idx with
  | None => EndOfMIB
  | Some nextOID =>
      match mbEntries m !! nextOID with
      | None => Panic
      | Some value => NextOID nextOID (readValue env value)
      end
  end.

(** Its first critical section is [Reindex]; alone it runs both at once. *)
Definition GetNext (env : Env) (oid : string) (m : MIB) : NextResult * MIB :=
  let m := Reindex m in (nextIn env oid m, m).

(** ** Every method *)

Inductive mibOp :=
| MibSet (oid : string) (value : OIDValue)
| MibSetDynamic (oid : string) (fn : Env -> option (Z * option V))
| MibDelete (oid : string)
| MibReplacePrefix (prefix : string) (entries : list (string * OIDValue))
| MibReindex
| MibGetNext (env : Env) (oid : string)
| MibAllOIDs.

Definition mibStep (m : MIB) (op : mibOp) : MIB :=
  match op with
  | MibSet oid value => Set_ oid value m
  | MibSetDynamic oid fn => SetDynamic oid fn m
  | MibDelete oid => Delete oid m
  | MibReplacePrefix prefix entries => ReplacePrefix prefix entries m
  | MibReindex => Reindex m
  | MibGetNext env oid => (GetNext env oid m).2
  | MibAllOIDs => (AllOIDs m).2
  end.

End mib.
Arguments OIDValue : clear implicits.
Arguments MIB : clear implicits.
Arguments NextResult : clear implicits.

(** ** The order of arcs *)

Lemma compare_refl p : compareOIDParts p p = Eq.
Proof. induction p as [|x p IH]; simpl; [done|]. by rewrite Z.ltb_irrefl. Qed.

Lemma compare_eq p q : compareOIDParts p q = Eq -> p = q.
Proof.
  revert q. induction p as [|x p IH]; intros [|y q]; simpl; try done.
  destruct (x <? y) eqn:E1, (y <? x) eqn:E2; try done. apply Z.ltb_ge in E1, E2.
  intros H. f_equal; [lia|by apply IH].
Qed.

Lemma compare_opp p q : compareOIDParts q p = CompOpp (compareOIDParts p q).
Proof.
  revert q. induction p as [|x p IH]; intros [|y q]; simpl; try done.
  destruct (x <? y) eqn:E1, (y <? x) eqn:E2; try done.
  apply Z.ltb_lt in E1, E2. lia.
Qed.

Lemma compare_trans p q r :
  compareOIDParts p q = Lt -> compareOIDParts q r = Lt -> compareOIDParts p r = Lt.
Proof.
  revert q r. induction p as [|x p IH]; intros [|y q] [|z r]; simpl; try done.
  destruct (x <? y) eqn:E1, (y <? x) eqn:E2, (y <? z) eqn:E3, (z <? y) eqn:E4,
    (x <? z) eqn:E5, (z <? x) eqn:E6; try done; rewrite ?Z.ltb_lt, ?Z.ltb_ge in *; try lia.
  apply IH.
Qed.

#[export] Instance arcsLe_po : PartialOrder arcsLe.
Proof.
  split; [split|].
  - intros p. unfold arcsLe. by rewrite compare_refl.
  - intros p q r. unfold arcsLe. intros H1 H2.
    destruct (compareOIDParts p q) eqn:E1; [apply compare_eq in E1; by subst| |done].
    destruct (compareOIDParts q r) eqn:E2; [apply compare_eq in E2; subst; by rewrite E1| |done].
    by rewrite (compare_trans _ _ _ E1 E2).
  - intros p q. unfold arcsLe. rewrite (compare_opp p q). intros H1 H2.
    destruct (compareOIDParts p q) eqn:E; [by apply compare_eq|done|done].
Qed.

#[export] Instance arcsLe_total : Total arcsLe.
Proof. intros p q. unfold arcsLe. rewrite (compare_opp p q). destruct (compareOIDParts p q); auto. Qed.

#[export] Instance oidLe_trans : Transitive oidLe.
Proof. intros x y z. unfold oidLe. by etrans. Qed.

#[export] Instance oidLe_total : Total oidLe.
Proof. intros x y. unfold oidLe. apply (total arcsLe). Qed.

(** [oid1] comes strictly before [oid2]. *)
Definition oidLt (oid1 oid2 : string) : Prop := compareOIDs oid1 oid2 = Lt.

Lemma oidLt_Gt x y : compareOIDs y x = Gt <-> oidLt x y.
Proof. unfold oidLt, compareOIDs. rewrite compare_opp. by destruct (compareOIDParts _ _). Qed.

Lemma oidLt_not_le x y : oidLt x y <-> ~ oidLe y x.
Proof.
  rewrite <- oidLt_Gt. unfold oidLe, arcsLe, compareOIDs.
  destruct (compareOIDParts (parseOIDParts y) (parseOIDParts x)); intuition congruence.
Qed.

Lemma oidLt_le_trans x y z : oidLt x y -> oidLe y z -> oidLt x z.
Proof. rewrite !oidLt_not_le. intros H1 H2 H3. apply H1. by etrans. Qed.

Lemma oidLe_lt_trans x y z : oidLe x y -> oidLt y z -> oidLt x z.
Proof. rewrite !oidLt_not_le. intros H1 H2 H3. apply H2. by etrans. Qed.

Lemma oidLt_trans x y z : oidLt x y -> oidLt y z -> oidLt x z.
Proof. apply compare_trans. Qed.

Lemma oidLt_le x y : oidLt x y -> oidLe x y.
Proof. unfold oidLt, oidLe, arcsLe, compareOIDs. by intros ->. Qed.

(** ** Binary search *)

Lemma searchLoop_spec fuel f i j :
  (forall a b, (a <= b)%nat -> (b < j)%nat -> f a = true -> f b = true) ->
  (i <= j)%nat -> (j - i <= fuel)%nat -> (forall a, (a < i)%nat -> f a = false) ->
  let r := searchLoop fuel f i j in
  (r <= j)%nat /\ (forall a, (a < r)%nat -> f a = false) /\ ((r < j)%nat -> f r = true).
Proof.
  revert i j. induction fuel as [|fuel IH]; intros i j Hm Hij Hf Hi; simpl.
  { split_and!; [lia|done|lia]. }
  case_bool_decide as Hlt; [|split_and!; [lia|done|lia]].
  set (h := ((i + j) / 2)%nat).
  assert (i <= h < j)%nat as Hh.
  { unfold h. split; [apply Nat.div_le_lower_bound; lia|apply Nat.Div0.div_lt_upper_bound; lia]. }
  change (fst (Nat.divmod (i + j) 1 0 1)) with h. destruct (f h) eqn:E; simpl.
  - destruct (IH i h) as (H1 & H2 & H3); [intros a b Hab Hb; apply Hm; lia|lia|lia|done|].
    split_and!; [lia|done|]. intros Hr. destruct (decide (searchLoop fuel f i h < h)%nat); [by apply H3|].
    replace (searchLoop fuel f i h) with h by lia. done.
  - destruct (IH (h + 1)%nat j) as (H1 & H2 & H3); [done|lia|lia| |by split_and!].
    intros a Ha. destruct (f a) eqn:Ea; [|done]. rewrite (Hm a h) in E; [done|lia|lia|done].
Qed.

Lemma Search_spec n f :
  (forall a b, (a <= b)%nat -> (b < n)%nat -> f a = true -> f b = true) ->
  (Search n f <= n)%nat /\ (forall a, (a < Search n f)%nat -> f a = false) /\
  ((Search n f < n)%nat -> f (Search n f) = true).
Proof. intros Hm. apply searchLoop_spec; [done|lia|lia|lia]. Qed.

(** ** The cached index *)

Section mib.
Context {V Env : Type}.
Implicit Types (m : MIB V Env) (ops : list (@mibOp V Env)) (env : Env).

Definition keys (m : MIB V Env) : list string := fst <$> map_to_list (mbEntries m).

(** A clean index lists the entries, in order. *)
Definition mibOk (m : MIB V Env) : Prop :=
  mbDirty m = false -> mbSorted m ≡ₚ keys m /\ StronglySorted oidLe (mbSorted m).

Lemma elem_of_keys m k : k ∈ keys m <-> is_Some (mbEntries m !! k).
Proof.
  unfold keys. rewrite list_elem_of_fmap. split.
  - intros ([k' v] & -> & H%elem_of_map_to_list). by eexists.
  - intros [v Hv]. exists (k, v). by rewrite elem_of_map_to_list.
Qed.

Lemma Reindex_clean m :
  mibOk m -> mbEntries (Reindex m) = mbEntries m /\ mbDirty (Reindex m) = false /\
  mbSorted (Reindex m) ≡ₚ keys m /\ StronglySorted oidLe (mbSorted (Reindex m)).
Proof.
  intros H. unfold Reindex. destruct (mbDirty m) eqn:E.
  - split_and!; [done|done|apply merge_sort_Permutation|apply StronglySorted_merge_sort; apply _].
  - split_and!; [done|done|by apply H..].
Qed.

Lemma mibOk_Reindex m : mibOk m -> mibOk (Reindex m).
Proof.
  intros H _. destruct (Reindex_clean m H) as (E & _ & Hp & Hs). unfold keys. rewrite E. by split.
Qed.

Lemma mibStep_ok m op : mibOk m -> mibOk (mibStep m op).
Proof.
  intros H. destruct op; simpl; try by apply mibOk_Reindex.
  all: try (by intros ?).
  unfold Delete. destruct (mbEntries m !! trimDot oid); [by intros ?|exact H].
Qed.

Lemma mib_reachable ops : mibOk (foldl mibStep NewMIB ops).
Proof.
  induction ops as [|op ops IH] using rev_ind; [by intros _; split; [|constructor]|].
  rewrite foldl_app. cbn [foldl]. by apply mibStep_ok.
Qed.

(** The entry a sorted index gives after [oid]. *)
Lemma nextIn_split env oid m before x after :
  mbSorted m = before ++ x :: after -> Forall (fun k => oidLe k (trimDot oid)) before ->
  Forall (oidLt (trimDot oid)) (x :: after) ->
  nextIn env oid m = match mbEntries m !! x with
    | Some value => NextOID x (readValue env value)
    | None => Panic
    end.
Proof.
  intros E Hb Ha. unfold nextIn. set (f := fun i => _). set (n := length (mbSorted m)).
  assert (forall i k, mbSorted m !! i = Some k -> f i = true <-> oidLt (trimDot oid) k) as Hf.
  { intros i k Hk. unfold f. rewrite Hk. simpl. rewrite <- oidLt_Gt. by destruct (compareOIDs _ _). }
  assert (forall i k, mbSorted m !! i = Some k -> (i < length before)%nat -> f i = false) as Hlow.
  { intros i k Hk Hi. apply not_true_is_false. rewrite (Hf i k Hk), oidLt_not_le. intros Hn. apply Hn.
    rewrite E, lookup_app_l in Hk by done. rewrite Forall_lookup in Hb. by eapply Hb. }
  assert (forall i k, mbSorted m !! i = Some k -> (length before <= i)%nat -> f i = true) as Hhigh.
  { intros i k Hk Hi. apply (Hf i k Hk). rewrite E, lookup_app_r in Hk by done.
    rewrite Forall_lookup in Ha. by eapply Ha. }
  assert (forall i, (i < n)%nat -> exists k, mbSorted m !! i = Some k) as Hin.
  { intros i Hi. apply lookup_lt_is_Some_2 in Hi as [k Hk]. by exists k. }
  assert (n = length before + S (length after))%nat as Hn by (unfold n; by rewrite E, length_app).
  destruct (Search_spec n f) as (H1 & H2 & H3).
  { intros a b Hab Hbn Hfa. destruct (Hin a ltac:(lia)) as [ka Hka], (Hin b Hbn) as [kb Hkb].
    destruct (decide (length before <= a)%nat); [eapply Hhigh; [exact Hkb|lia]|].
    rewrite (Hlow a ka) in Hfa by (done || lia). done. }
  assert (Search n f = length before) as ->.
  { destruct (decide (Search n f < length before)%nat) as [Hl|Hl].
    - destruct (Hin (Search n f) ltac:(lia)) as [k Hk]. rewrite (Hlow _ k) in H3 by (done || lia).
      specialize (H3 ltac:(lia)). done.
    - destruct (decide (length before < Search n f)%nat) as [Hg|Hg]; [|lia].
      specialize (H2 _ Hg). destruct (Hin (length before) ltac:(lia)) as [k Hk].
      by rewrite (Hhigh _ k) in H2 by (done || lia). }
  rewrite E, list_lookup_middle by done. done.
Qed.

Lemma nextIn_end env oid m :
  Forall (fun k => oidLe k (trimDot oid)) (mbSorted m) -> nextIn env oid m = EndOfMIB.
Proof.
  intros Hb. unfold nextIn. set (f := fun i => _). set (n := length (mbSorted m)).
  assert (forall i, (i < n)%nat -> f i = false) as Hlow.
  { intros i Hi. apply lookup_lt_is_Some_2 in Hi as [k Hk]. unfold f. rewrite Hk. simpl.
    rewrite Forall_lookup in Hb. specialize (Hb _ _ Hk). pose proof (oidLt_Gt (trimDot oid) k) as [HG _].
    destruct (compareOIDs k (trimDot oid)); [done|done|]. specialize (HG eq_refl).
    apply oidLt_not_le in HG. done. }
  destruct (Search_spec n f) as (H1 & H2 & H3).
  { intros a b Hab Hbn Hfa. rewrite Hlow in Hfa by lia. done. }
  assert (Search n f = n) as ->.
  { destruct (decide (Search n f < n)%nat) as [Hl|Hl]; [|lia].
    rewrite Hlow in H3 by done. specialize (H3 Hl). done. }
  by rewrite lookup_ge_None_2.
Qed.

(** A sorted list cut at an OID. *)
Lemma sorted_cut oid (l : list string) :
  StronglySorted oidLe l ->
  exists before after, l = before ++ after /\ Forall (fun k => oidLe k oid) before /\ Forall (oidLt oid) after.
Proof.
  induction 1 as [|k l Hs (before & after & -> & Hb & Ha) Hk]; [by exists [], []|].
  destruct (decide (oidLe k oid)) as [Hle|Hle].
  - exists (k :: before), after. split_and!; [done|by constructor|done].
  - apply oidLt_not_le in Hle. exists [], (k :: before ++ after). split_and!; [done|constructor|].
    constructor; [done|]. eapply Forall_impl; [exact Hk|]. intros x. by apply oidLt_le_trans.
Qed.

(** GET-NEXT: in any state the table's methods can reach, [GetNext]
    answers with a least entry strictly after the requested OID in arc order,
    read from the table, or the end of the MIB exactly when no entry is after
    it; it never dereferences a missing entry, and leaves the entries alone. *)
Theorem getnext_least env oid ops :
  let m := foldl mibStep NewMIB ops in
  let '(result, m') := GetNext env oid m in
  mbEntries m' = mbEntries m /\
  match result with
  | NextOID next value =>
      oidLt (trimDot oid) next /\
      (forall k, k ∈ keys m -> oidLt (trimDot oid) k -> oidLe next k) /\
      exists entry, mbEntries m !! next = Some entry /\ value = readValue env entry
  | EndOfMIB => forall k, k ∈ keys m -> ~ oidLt (trimDot oid) k
  | Panic => False
  end.
Proof.
  intros m. destruct (Reindex_clean m (mib_reachable ops)) as (E & _ & Hp & Hs).
  unfold GetNext. split; [done|].
  destruct (sorted_cut (trimDot oid) _ Hs) as (before & [|x after] & El & Hb & Ha).
  - rewrite app_nil_r in El. rewrite nextIn_end by (by rewrite El). intros k Hk. rewrite <- Hp, El in Hk.
    rewrite Forall_forall in Hb. rewrite oidLt_not_le. intros Hn. by apply Hn, Hb.
  - rewrite (nextIn_split env oid _ before x after) by done. rewrite E.
    assert (x ∈ keys m) as Hx by (rewrite <- Hp, El; set_solver).
    apply elem_of_keys in Hx as [v Hv]. rewrite Hv. apply Forall_cons in Ha as [Hx Ha].
    split_and!; [done| |by exists v]. intros k Hk Hlt. rewrite <- Hp, El in Hk.
    rewrite El in Hs. apply StronglySorted_app in Hs as (_ & _ & [Hs _]%StronglySorted_cons).
    rewrite Forall_forall in Hb, Hs. apply elem_of_app in Hk as [Hk|[->|Hk]%elem_of_cons].
    + apply oidLt_not_le in Hlt. by destruct Hlt; apply Hb.
    + by apply (reflexivity (R := arcsLe)).
    + by apply Hs.
Qed.

Lemma parse_trimDot oid : parseOIDParts (trimDot oid) = parseOIDParts oid.
Proof.
  destruct oid as [|c oid]; [done|]. cbn [trimDot]. destruct (Ascii.eqb c "."%char) eqn:E; [|done].
  apply Ascii.eqb_eq in E as ->. done.
Qed.

Lemma oidLe_trimDot k oid : oidLe k (trimDot oid) <-> oidLe k oid.
Proof. unfold oidLe. by rewrite parse_trimDot. Qed.

Lemma oidLt_trimDot k oid : oidLt (trimDot oid) k <-> oidLt oid k.
Proof. unfold oidLt, compareOIDs. by rewrite parse_trimDot. Qed.

(** A walk asks for the next OID until the end of the MIB. *)
Fixpoint walkFrom (turns : nat) (env : Env) (oid : string) (m : MIB V Env)
    : list (string * option (Z * option V)) :=
  match turns with
  | O => []
  | S turns =>
      match GetNext env oid m with
      | (NextOID next value, m) => (next, value) :: walkFrom turns env next m
      | _ => []
      end
  end.

Definition valueAt (env : Env) (m : MIB V Env) (k : string) : option (Z * option V) :=
  mbEntries m !! k ≫= readValue env.

Lemma walk_rest turns env oid m before after :
  mbDirty m = false -> mbSorted m = before ++ after -> mbSorted m ≡ₚ keys m ->
  Forall (fun k => oidLe k oid) before -> Forall (oidLt oid) after -> StronglySorted oidLt after ->
  (length after < turns)%nat ->
  walkFrom turns env oid m = map (fun k => (k, valueAt env m k)) after.
Proof.
  intros Hd Hm Hk. revert turns oid before Hm. induction after as [|x after IH];
    intros [|turns] oid before Hm Hb Ha Hs Ht; simpl in Ht; try lia; simpl.
  all: unfold GetNext, Reindex; rewrite Hd.
  - rewrite app_nil_r in Hm. rewrite nextIn_end; [done|]. rewrite Hm.
    eapply Forall_impl; [exact Hb|]. intros k. by rewrite oidLe_trimDot.
  - apply StronglySorted_cons in Hs as [Hx Hs].
    rewrite (nextIn_split env oid m before x after Hm).
    2: { eapply Forall_impl; [exact Hb|]. intros k. by rewrite oidLe_trimDot. }
    2: { eapply Forall_impl; [exact Ha|]. intros k. by rewrite oidLt_trimDot. }
    assert (x ∈ keys m) as [v Hv]%elem_of_keys by (rewrite <- Hk, Hm; set_solver).
    unfold valueAt at 1. rewrite Hv. simpl. f_equal.
    apply (IH turns x (before ++ [x])); [by rewrite <- app_assoc| |done|done|lia].
    apply Forall_app. apply Forall_cons in Ha as [Hox _]. split.
    + eapply Forall_impl; [exact Hb|]. intros k Hko. etrans; [exact Hko|by apply oidLt_le].
    + by repeat constructor; apply (reflexivity (R := arcsLe)).
Qed.

Lemma GetNext_Reindex env oid m : mibOk m -> GetNext env oid m = GetNext env oid (Reindex m).
Proof.
  intros H. destruct (Reindex_clean m H) as (_ & Hd & _). unfold GetNext.
  assert (Reindex (Reindex m) = Reindex m) as -> by (unfold Reindex at 1; by rewrite Hd). done.
Qed.

(** C11.  A walk is complete: in any state the table's methods can reach whose
    OIDs have distinct, nonempty arcs, asking for the next OID until the end
    returns every entry exactly once, in arc order, with its value. *)
Theorem walk_complete env ops turns :
  let m := foldl mibStep NewMIB ops in
  (forall k k', k ∈ keys m -> k' ∈ keys m -> parseOIDParts k = parseOIDParts k' -> k = k') ->
  (forall k, k ∈ keys m -> parseOIDParts k <> []) -> (size (mbEntries m) < turns)%nat ->
  map fst (walkFrom turns env "" m) ≡ₚ keys m /\
  StronglySorted oidLt (map fst (walkFrom turns env "" m)) /\
  forall k v, (k, v) ∈ walkFrom turns env "" m ->
    exists entry, mbEntries m !! k = Some entry /\ v = readValue env entry.
Proof.
  intros m Hinj Hne Ht. pose proof (mib_reachable ops) as Hok. fold m in Hok.
  destruct (Reindex_clean m Hok) as (E & Hd & Hp & Hs). set (m1 := Reindex m) in *.
  assert (walkFrom turns env "" m = walkFrom turns env "" m1) as ->.
  { destruct turns; [done|]. cbn [walkFrom]. by rewrite (GetNext_Reindex env "" m Hok). }
  assert (NoDup (keys m)) as Hnd by apply NoDup_fst_map_to_list.
  assert (StronglySorted oidLt (mbSorted m1)) as Hlt.
  { rewrite <- Hp in Hnd. assert (forall k, k ∈ mbSorted m1 -> k ∈ keys m) as Hin by (intros k; by rewrite Hp).
    clear - Hs Hnd Hin Hinj. induction Hs as [|k l Hs IH Hk]; constructor.
    - apply IH; [by apply NoDup_cons in Hnd as [_ ?]|]. intros k' Hk'. apply Hin. by right.
    - apply NoDup_cons in Hnd as [Hk' _]. rewrite Forall_forall in Hk |- *. intros y Hy.
      specialize (Hk _ Hy). apply oidLt_not_le. intros Hle. destruct Hk'.
      rewrite (Hinj k y); [done|apply Hin; by left|apply Hin; by right|].
      by apply (anti_symm arcsLe). }
  rewrite (walk_rest turns env "" m1 [] (mbSorted m1)); try done.
  - rewrite map_map. simpl. rewrite map_id. split_and!; [done|done|].
    intros k v (k' & [= -> ->] & Hk)%list_elem_of_fmap. rewrite Hp in Hk.
    apply elem_of_keys in Hk as [w Hw]. exists w. unfold valueAt. rewrite E, Hw. done.
  - unfold keys. by rewrite E.
  - apply Forall_forall. intros k Hk. rewrite Hp in Hk. specialize (Hne _ Hk).
    unfold oidLt, compareOIDs. change (parseOIDParts "") with (@nil Z).
    by destruct (parseOIDParts k).
  - rewrite Hp. unfold keys. by rewrite length_fmap, length_map_to_list.
Qed.

(** [GetNext] is not atomic: it sorts the index in one critical section
    and reads it in another, so if the entry it is about to return is deleted
    in between, it dereferences a missing entry and panics. *)
Theorem getnext_race env oid ops next (value : option (Z * option V)) :
  let m : MIB V Env := foldl mibStep NewMIB ops in
  trimDot next = next -> (GetNext env oid m).1 = NextOID next value ->
  nextIn env oid (Delete next (Reindex m)) = Panic.
Proof.
  intros m Htrim Hnext. pose proof (mib_reachable ops) as Hok. fold m in Hok.
  destruct (Reindex_clean m Hok) as (E & Hd & Hp & Hs). unfold GetNext in Hnext. simpl in Hnext.
  destruct (sorted_cut (trimDot oid) _ Hs) as (before & [|x after] & El & Hb & Ha).
  { rewrite app_nil_r in El. by rewrite nextIn_end in Hnext by (by rewrite El). }
  rewrite (nextIn_split env oid _ before x after) in Hnext by done.
  destruct (mbEntries (Reindex m) !! x) as [v|] eqn:Ex; [|done]. injection Hnext as <- _.
  unfold Delete. rewrite Htrim, Ex. rewrite (nextIn_split env oid _ before x after) by done.
  simpl. by rewrite lookup_delete_eq.
Qed.
End mib.

(** ** A table of four entries *)

Definition testOps : list (@mibOp string unit) :=
  [MibSet ".1.3.6.1.2.1.1.5.0" (mkOIDValue 4 (Some "sw1"%string) None);
   MibSet "1.3.6.1.2.1.2.2.1.10.10" (mkOIDValue 65 None None);
   MibSet "1.3.6.1.2.1.2.2.1.10.9" (mkOIDValue 65 None None);
   MibGetNext tt "1"; MibSetDynamic "1.3.6.1.2.1.1.3.0" (fun _ => Some (67, None));
   MibDelete "1.3.6.1.2.1.2.2.1.10.10"; MibSet "1.3.6.1.2.1.2.2.1.10.11" (mkOIDValue 65 None None)].

Example test_walk :
  map fst (walkFrom 9 tt "" (foldl mibStep NewMIB testOps)) =
  ["1.3.6.1.2.1.1.3.0"; "1.3.6.1.2.1.1.5.0"; "1.3.6.1.2.1.2.2.1.10.9"; "1.3.6.1.2.1.2.2.1.10.11"]%string.
Proof. vm_compute. reflexivity. Qed.

Lemma testKeys :
  keys (foldl mibStep NewMIB testOps) ≡ₚ
  ["1.3.6.1.2.1.1.3.0"; "1.3.6.1.2.1.1.5.0"; "1.3.6.1.2.1.2.2.1.10.9"; "1.3.6.1.2.1.2.2.1.10.11"]%string.
Proof. apply (bool_decide_unpack _). vm_compute. exact I. Qed.

Lemma walk_complete_witness :
  map fst (walkFrom 9 tt "" (foldl mibStep NewMIB testOps)) ≡ₚ keys (foldl mibStep NewMIB testOps) /\
  StronglySorted oidLt (map fst (walkFrom 9 tt "" (foldl mibStep NewMIB testOps))) /\
  forall k v, (k, v) ∈ walkFrom 9 tt "" (foldl mibStep NewMIB testOps) ->
    exists entry, mbEntries (foldl mibStep NewMIB testOps) !! k = Some entry /\ v = readValue tt entry.
Proof.
  apply (walk_complete tt testOps 9).
  - intros k k' Hk Hk'. rewrite testKeys in Hk, Hk'. rewrite !elem_of_cons in Hk, Hk'.
    destruct Hk as [->|[->|[->|[->|[]%elem_of_nil]]]], Hk' as [->|[->|[->|[->|[]%elem_of_nil]]]];
      first [reflexivity|intros H; vm_compute in H; discriminate H].
  - intros k Hk. rewrite testKeys, !elem_of_cons in Hk.
    destruct Hk as [->|[->|[->|[->|[]%elem_of_nil]]]]; intros H; vm_compute in H; discriminate H.
  - vm_compute. lia.
Defined.

Lemma getnext_race_witness :
  (GetNext tt "1.3" (foldl mibStep NewMIB testOps)).1 = NextOID "1.3.6.1.2.1.1.3.0" (Some (67, None)) /\
  nextIn tt "1.3" (Delete "1.3.6.1.2.1.1.3.0" (Reindex (foldl mibStep NewMIB testOps))) = Panic.
Proof.
  assert ((GetNext tt "1.3" (foldl mibStep NewMIB testOps)).1 =
    NextOID "1.3.6.1.2.1.1.3.0" (Some (67, None))) as H by (vm_compute; reflexivity).
  split; [exact H|]. apply (getnext_race tt "1.3" testOps _ (Some (67, None))); [reflexivity|exact H].
Defined.
