(* ===== verification/Safeconv.v ===== *)
(** * Integer conversions

    [safeconv/safeconv.go]: clamping and truncating conversions between Go's
    integer widths.  A value of a width is the [Z] in its range; Go's own
    conversion [uint8(v)] keeps the low bits. *)

From S2P Require Import Prelude.

Definition MaxUint8 : Z := 2 ^ 8 - 1.
Definition MaxUint16 : Z := 2 ^ 16 - 1.
Definition MaxUint32 : Z := 2 ^ 32 - 1.
Definition MaxInt32 : Z := 2 ^ 31 - 1.
Definition MinInt32 : Z := - 2 ^ 31.

(** Go's conversions. *)
Definition uint8 (v : Z) : Z := v mod 2 ^ 8.
Definition uint16 (v : Z) : Z := v mod 2 ^ 16.
Definition int8 (v : Z) : Z := (v + 2 ^ 7) mod 2 ^ 8 - 2 ^ 7.
Definition int32 (v : Z) : Z := (v + 2 ^ 31) mod 2 ^ 32 - 2 ^ 31.

Definition Uint8 (v : Z) : Z :=
  if v <? 0 then 0 else if MaxUint8 <? v then MaxUint8 else uint8 v.

Definition Uint16 (v : Z) : Z :=
  if v <? 0 then 0 else if MaxUint16 <? v then MaxUint16 else uint16 v.

Definition Uint32 (v : Z) : Z :=
  if v <? 0 then 0 else if MaxUint32 <? v then MaxUint32 else uint32 v.

Definition Uint32FromInt64 (v : Z) : Z :=
  if v <? 0 then 0 else if MaxUint32 <? v then MaxUint32 else uint32 v.

Definition Uint32FromUint64 (v : Z) : Z := if MaxUint32 <? v then MaxUint32 else uint32 v.

Definition Byte (v : Z) : Z :=
  if v <? 0 then 0 else if MaxUint8 <? v then MaxUint8 else uint8 v.

Definition ByteFromUint16 (v : Z) : Z := uint8 (Z.land v MaxUint8).
Definition ByteFromUint64 (v : Z) : Z := uint8 (Z.land v MaxUint8).
Definition ByteFromUint32 (v : Z) : Z := uint8 (Z.land v MaxUint8).

Definition ByteFromRune (v : Z) : Z :=
  if v <? 0 then 0 else if MaxUint8 <? v then MaxUint8 else uint8 v.

Definition Int32 (v : Z) : Z :=
  if MaxInt32 <? v then MaxInt32 else if v <? MinInt32 then MinInt32 else int32 v.

Definition Int8FromByte (v : Z) : Z := int8 v.
Definition ByteFromInt8 (v : Z) : Z := uint8 v.

Definition DNSRCode (v : Z) : Z := if (v <? 0) || (15 <? v) then 0 else uint8 v.

(** [f] gives the value of [lo..hi] nearest to its argument. *)
Definition clamps (lo hi : Z) (v r : Z) : Prop :=
  lo <= r <= hi /\ forall w, lo <= w <= hi -> Z.abs (v - r) <= Z.abs (v - w).

Lemma clamps_below lo hi v : lo <= hi -> v < lo -> clamps lo hi v lo.
Proof. split; [lia|]. intros. lia. Qed.

Lemma clamps_above lo hi v : lo <= hi -> hi < v -> clamps lo hi v hi.
Proof. split; [lia|]. intros. lia. Qed.

Lemma clamps_in lo hi v r : lo <= v <= hi -> r = v -> clamps lo hi v r.
Proof. intros ? ->. split; [done|]. intros. lia. Qed.

Ltac clamp :=
  repeat match goal with |- context [if ?a <? ?b then _ else _] => destruct (Z.ltb_spec a b) end;
  first [apply clamps_below; lia | apply clamps_above; lia
        | apply clamps_in; [lia|rewrite Z.mod_small; lia]].

Lemma Uint16_id v : 0 <= v <= MaxUint16 -> Uint16 v = v.
Proof.
  intros H. unfold Uint16, uint16, MaxUint16 in *.
  destruct (Z.ltb_spec v 0), (Z.ltb_spec (2 ^ 16 - 1) v); [lia..|]. by rewrite Z.mod_small by lia.
Qed.

Lemma Uint32_id v : 0 <= v <= MaxUint32 -> Uint32 v = v.
Proof.
  intros H. unfold Uint32, uint32, MaxUint32 in *.
  destruct (Z.ltb_spec v 0), (Z.ltb_spec (2 ^ 32 - 1) v); [lia..|]. by rewrite Z.mod_small by lia.
Qed.

Lemma Byte_id v : 0 <= v <= MaxUint8 -> Byte v = v.
Proof.
  intros H. unfold Byte, uint8, MaxUint8 in *.
  destruct (Z.ltb_spec v 0), (Z.ltb_spec (2 ^ 8 - 1) v); [lia..|]. by rewrite Z.mod_small by lia.
Qed.

Lemma low_byte v : uint8 (Z.land v MaxUint8) = v mod 2 ^ 8.
Proof.
  unfold uint8, MaxUint8. change (2 ^ 8 - 1) with (Z.ones 8).
  rewrite Z.land_ones by lia. by rewrite Z.mod_mod.
Qed.

(** The conversions keep their promise on every input: a clamping one
    gives the value of its target range nearest to its argument, a truncating
    one the residue, and the byte and int8 reinterpretations are inverse. *)
Theorem conversions_exact v :
  clamps 0 MaxUint8 v (Uint8 v) /\ clamps 0 MaxUint16 v (Uint16 v) /\
  clamps 0 MaxUint32 v (Uint32 v) /\ clamps 0 MaxUint32 v (Uint32FromInt64 v) /\
  (0 <= v -> clamps 0 MaxUint32 v (Uint32FromUint64 v)) /\
  clamps 0 MaxUint8 v (Byte v) /\ clamps 0 MaxUint8 v (ByteFromRune v) /\
  clamps MinInt32 MaxInt32 v (Int32 v) /\
  ByteFromUint16 v = v mod 2 ^ 8 /\ ByteFromUint32 v = v mod 2 ^ 8 /\ ByteFromUint64 v = v mod 2 ^ 8 /\
  (0 <= v <= MaxUint8 -> - 2 ^ 7 <= Int8FromByte v < 2 ^ 7 /\ ByteFromInt8 (Int8FromByte v) = v) /\
  (- 2 ^ 7 <= v < 2 ^ 7 -> 0 <= ByteFromInt8 v <= MaxUint8 /\ Int8FromByte (ByteFromInt8 v) = v) /\
  (0 <= DNSRCode v <= 15 /\ (DNSRCode v <> 0 -> DNSRCode v = v)).
Proof.
  unfold ByteFromUint16, ByteFromUint32, ByteFromUint64. rewrite !low_byte.
  unfold Uint8, Uint16, Uint32, Uint32FromInt64, Uint32FromUint64, Byte, ByteFromRune, Int32,
    uint8, uint16, uint32, int32, MaxUint8, MaxUint16, MaxUint32, MaxInt32, MinInt32.
  do 4 (split; [clamp|]). split; [intros; clamp|]. do 3 (split; [clamp|]). do 3 (split; [done|]).
  unfold Int8FromByte, ByteFromInt8, DNSRCode, int8, uint8.
  split; [|split].
  - intros H. pose proof (Z.mod_pos_bound (v + 2 ^ 7) (2 ^ 8) ltac:(lia)). split; [lia|].
    rewrite Zminus_mod_idemp_l. rewrite Z.mod_small; lia.
  - intros H. pose proof (Z.mod_pos_bound v (2 ^ 8) ltac:(lia)). split; [lia|].
    rewrite Zplus_mod_idemp_l. rewrite Z.mod_small; lia.
  - destruct (Z.ltb_spec v 0), (Z.ltb_spec 15 v); simpl; [lia..|]. rewrite Z.mod_small by lia. lia.
Qed.

Lemma conversions_exact_witness :
  clamps 0 MaxUint32 70000 (Uint32FromUint64 70000) /\
  ByteFromInt8 (Int8FromByte 200) = 200 /\ Int8FromByte (ByteFromInt8 (-56)) = -56.
Proof.
  split; [apply (conversions_exact 70000); lia|].
  split; [apply (conversions_exact 200); unfold MaxUint8; lia|apply (conversions_exact (-56)); lia].
Defined.
