(* ===== verification/Bytes.v ===== *)
(** * Byte slices

    What the wire formats use of Go's slices, of [encoding/binary] and of
    [net.IP].  A byte is a [Z] from 0 to 255.  The readers take as many bytes
    as they need from the front; the code checks the length before it reads
    (Go panics on a short slice). *)

From Stdlib Require Import Ascii.
From S2P Require Import Prelude.
From S2P Require Import Netip.

Definition byteAt (b : list Z) (i : nat) : Z := default 0 (b !! i).

(** [binary.BigEndian.Uint16], [PutUint16] and [AppendUint16] *)
Definition bigUint16 (b : list Z) : Z := byteAt b 0 * 2 ^ 8 + byteAt b 1.
Definition big16 (v : Z) : list Z := [v / 2 ^ 8 mod 2 ^ 8; v mod 2 ^ 8].

(** [binary.BigEndian.Uint32] and [PutUint32] *)
Definition bigUint32 (b : list Z) : Z :=
  byteAt b 0 * 2 ^ 24 + byteAt b 1 * 2 ^ 16 + byteAt b 2 * 2 ^ 8 + byteAt b 3.
Definition big32 (v : Z) : list Z :=
  [v / 2 ^ 24 mod 2 ^ 8; v / 2 ^ 16 mod 2 ^ 8; v / 2 ^ 8 mod 2 ^ 8; v mod 2 ^ 8].

(** [binary.LittleEndian] *)
Definition littleUint16 (b : list Z) : Z := byteAt b 0 + byteAt b 1 * 2 ^ 8.
Definition little16 (v : Z) : list Z := [v mod 2 ^ 8; v / 2 ^ 8 mod 2 ^ 8].
Definition little32 (v : Z) : list Z :=
  [v mod 2 ^ 8; v / 2 ^ 8 mod 2 ^ 8; v / 2 ^ 16 mod 2 ^ 8; v / 2 ^ 24 mod 2 ^ 8].

(** [copy(b[offset:], part)] inside [b] *)
Definition overwrite (b : list Z) (offset : nat) (part : list Z) : list Z :=
  take offset b ++ part ++ drop (offset + length part) b.

(** [bytes.IndexByte] *)
Fixpoint indexByte (b : list Z) (c : Z) : option nat :=
  match b with
  | [] => None
  | x :: b => if x =? c then Some O else S <$> indexByte b c
  end.

(** The bytes of a string. *)
Definition bytesOf (s : string) : list Z :=
  map (fun c => Z.of_N (N_of_ascii c)) (String.list_ascii_of_string s).

Definition stringOf (b : list Z) : string :=
  String.string_of_list_ascii (map (fun x => ascii_of_N (Z.to_N x)) b).

(** [net.IP.To4] *)
Definition To4 (ip : list Z) : list Z :=
  if bool_decide (length ip = 4%nat) then ip
  else if bool_decide (length ip = 16%nat) && forallb (Z.eqb 0) (take 10 ip) &&
          (byteAt ip 10 =? 0xff) && (byteAt ip 11 =? 0xff)
       then drop 12 ip else [].

(** [netip.AddrFromSlice], the zero address for a slice of another length *)
Definition AddrFromSlice (b : list Z) : Addr :=
  let value := foldl (fun acc x => acc * 2 ^ 8 + x) 0 b in
  if bool_decide (length b = 4%nat) then Addr4 value
  else if bool_decide (length b = 16%nat) then Addr6 value ""
  else AddrZero.

(** ** Lemmas *)

Lemma isByte_mod v : isByte (v mod 2 ^ 8).
Proof. unfold isByte. pose proof (Z.mod_pos_bound v (2 ^ 8)). lia. Qed.

Lemma isByte_lor a b : isByte a -> isByte b -> isByte (Z.lor a b).
Proof.
  unfold isByte. intros Ha Hb. split; [apply Z.lor_nonneg; lia|]. change 256 with (2 ^ 8).
  destruct (Z.eq_dec (Z.lor a b) 0) as [->|Hne]; [lia|].
  assert (0 <= Z.lor a b) by (apply Z.lor_nonneg; lia).
  apply Z.log2_lt_pow2; [lia|]. rewrite Z.log2_lor by lia.
  assert (forall x, 0 <= x < 256 -> Z.log2 x < 8) as Hl.
  { intros x Hx. destruct (Z.eq_dec x 0) as [->|]; [done|]. apply Z.log2_lt_pow2; lia. }
  apply Z.max_lub_lt; by apply Hl.
Qed.

(** Bits put below shifted ones add up. *)
Lemma lor_shift n hi lo : 0 <= n -> 0 <= lo < 2 ^ n -> Z.lor (Z.shiftl hi n) lo = hi * 2 ^ n + lo.
Proof.
  intros Hn H. rewrite <- Z.shiftl_mul_pow2 by lia. pose proof (Z.add_lor_land (Z.shiftl hi n) lo) as Ha.
  assert (Z.land (Z.shiftl hi n) lo = 0) as Hz; [|lia].
  apply Z.bits_inj'. intros i Hi. rewrite Z.land_spec, Z.bits_0. destruct (Z.lt_ge_cases i n) as [Hl|Hl].
  - by rewrite Z.shiftl_spec_low.
  - rewrite andb_comm. destruct (Z.eq_dec lo 0) as [->|Hne]; [by rewrite Z.bits_0|].
    rewrite Z.bits_above_log2; [done|lia|]. apply Z.log2_lt_pow2; [lia|]. eapply Z.lt_le_trans; [apply H|].
    apply Z.pow_le_mono_r; lia.
Qed.

Lemma bytesOf_range s : Forall isByte (bytesOf s).
Proof.
  unfold bytesOf. apply Forall_forall. intros x (c & <- & _)%list_elem_of_In%in_map_iff.
  unfold isByte. pose proof (N_ascii_bounded c). lia.
Qed.

Lemma stringOf_bytesOf s : stringOf (bytesOf s) = s.
Proof.
  unfold stringOf, bytesOf. rewrite map_map. rewrite (map_ext _ id).
  - by rewrite map_id, String.string_of_list_ascii_of_string.
  - intros c. unfold id. rewrite N2Z.id. apply ascii_N_embedding.
Qed.

Lemma byteAt_app_l b t i : (i < length b)%nat -> byteAt (b ++ t) i = byteAt b i.
Proof. intros H. unfold byteAt. by rewrite lookup_app_l. Qed.

Lemma byteAt_app_r b t i : (length b <= i)%nat -> byteAt (b ++ t) i = byteAt t (i - length b).
Proof. intros H. unfold byteAt. by rewrite lookup_app_r. Qed.

Lemma byteAt_range b i : Forall isByte b -> 0 <= byteAt b i < 2 ^ 8.
Proof.
  intros H. unfold byteAt. destruct (b !! i) eqn:E; simpl; [|lia].
  rewrite Forall_lookup in H. apply H in E. exact E.
Qed.

(** Overwriting the middle part of a slice. *)
Lemma overwrite_middle (a x y b : list Z) : length x = length y -> overwrite (a ++ x ++ b) (length a) y = a ++ y ++ b.
Proof.
  intros H. unfold overwrite. rewrite take_app_length. f_equal. f_equal. rewrite <- H.
  by rewrite app_assoc, <- length_app, drop_app_length.
Qed.

Lemma bigUint16_range b : Forall isByte b -> 0 <= bigUint16 b < 2 ^ 16.
Proof. intros H. unfold bigUint16. pose proof (byteAt_range b 0 H). pose proof (byteAt_range b 1 H). lia. Qed.

Lemma bigUint16_app b t : (2 <= length b)%nat -> bigUint16 (b ++ t) = bigUint16 b.
Proof. intros H. unfold bigUint16. by rewrite !byteAt_app_l by lia. Qed.

Lemma littleUint16_app b t : (2 <= length b)%nat -> littleUint16 (b ++ t) = littleUint16 b.
Proof. intros H. unfold littleUint16. by rewrite !byteAt_app_l by lia. Qed.

Lemma bigUint16_big16 v t : 0 <= v < 2 ^ 16 -> bigUint16 (big16 v ++ t) = v.
Proof.
  intros H. unfold bigUint16, big16. cbn [app byteAt lookup list_lookup default].
  rewrite (Z.mod_small (v / 2 ^ 8)); [|split; [apply Z.div_pos; lia|apply Z.div_lt_upper_bound; lia]].
  pose proof (Z.div_mod v (2 ^ 8)). unfold byteAt. simpl. lia.
Qed.

Lemma bigUint32_big32 v t : 0 <= v < 2 ^ 32 -> bigUint32 (big32 v ++ t) = v.
Proof.
  intros Hv. unfold bigUint32, big32, byteAt. cbn [app lookup list_lookup default].
  rewrite (Z.mod_small (v / 2 ^ 24)); [|split; [apply Z.div_pos; lia|apply Z.div_lt_upper_bound; lia]].
  assert (v / 2 ^ 16 = v / 2 ^ 8 / 2 ^ 8) as E16 by (rewrite Z.div_div by lia; done).
  assert (v / 2 ^ 24 = v / 2 ^ 16 / 2 ^ 8) as E24 by (rewrite Z.div_div by lia; done).
  cbn. rewrite E24. pose proof (Z.div_mod v (2 ^ 8)). pose proof (Z.div_mod (v / 2 ^ 8) (2 ^ 8)).
  pose proof (Z.div_mod (v / 2 ^ 16) (2 ^ 8)). rewrite <- E16 in *. lia.
Qed.

Lemma littleUint16_little16 v t : 0 <= v < 2 ^ 16 -> littleUint16 (little16 v ++ t) = v.
Proof.
  intros H. unfold littleUint16, little16.
  rewrite (Z.mod_small (v / 2 ^ 8)); [|split; [apply Z.div_pos; lia|apply Z.div_lt_upper_bound; lia]].
  pose proof (Z.div_mod v (2 ^ 8)). unfold byteAt. simpl. lia.
Qed.

Lemma drop_app_le {A} (b t : list A) n : (n <= length b)%nat -> drop n (b ++ t) = drop n b ++ t.
Proof. intros H. rewrite drop_app. by replace (n - length b)%nat with O by lia. Qed.

Lemma take_app_le {A} (b t : list A) n : (n <= length b)%nat -> take n (b ++ t) = take n b.
Proof. intros H. rewrite take_app. replace (n - length b)%nat with O by lia. by rewrite take_0, app_nil_r. Qed.

Lemma indexByte_lt b c i : indexByte b c = Some i -> (i < length b)%nat.
Proof.
  revert i. induction b as [|x b IH]; intros i; simpl; [done|].
  destruct (x =? c); [intros [= <-]; lia|].
  destruct (indexByte b c) as [j|]; [|done]. intros [= <-]. specialize (IH j eq_refl). lia.
Qed.

Lemma indexByte_app b t c i : indexByte b c = Some i -> indexByte (b ++ t) c = Some i.
Proof.
  revert i. induction b as [|x b IH]; intros i; simpl; [done|].
  destruct (x =? c); [done|]. destruct (indexByte b c) as [j|]; [|done].
  intros [= <-]. by rewrite (IH j eq_refl).
Qed.

Lemma indexByte_first b c t : c ∉ b -> indexByte (b ++ c :: t) c = Some (length b).
Proof.
  induction b as [|x b IH]; simpl; [by rewrite Z.eqb_refl|].
  rewrite elem_of_cons. intros Hn. destruct (Z.eqb_spec x c); [subst; tauto|]. rewrite IH; tauto.
Qed.

Lemma indexByte_None b c : indexByte b c = None <-> c ∉ b.
Proof.
  induction b as [|x b IH]; simpl; [set_solver|]. rewrite elem_of_cons.
  destruct (Z.eqb_spec x c); [subst; naive_solver|].
  destruct (indexByte b c); simpl; naive_solver.
Qed.
