(* ===== verification/Packet.v ===== *)
(** * Packets and the Internet checksum

    [protocols/packet.go]: the packet every handler works on, reads and writes
    at offsets of its buffer, the recognition of an 802.1Q tag, and the header
    checksum.  A byte slice is a list; the pool devices a packet belongs to are
    identified by a number. *)

From S2P Require Import Prelude.
From S2P Require Import Netip.
From S2P Require Import Bytes.

Definition SizeOfMac : nat := 6.
Definition SizeOfIP : nat := 4.
Definition EtherTypeIP : Z := 0x0800.
Definition EtherTypeVLAN : Z := 0x8100.
Definition etherHeaderSize : nat := 14.
Definition vlanIDMask : Z := 0x0fff.
Definition ethTypeOffsetMult : nat := 2.
Definition checksumWordMask : Z := 0xffff.
Definition checksumWordShift : Z := 16.
Definition checksumByteShift : Z := 8.
Definition vlanEtherTypeOffset : nat := etherHeaderSize + 2.
Definition dot1qTagLen : nat := 4.
Definition MaxPacketSize : Z := 65535.

Record FabricTrace := mkFabricTrace {
  ftIngressNetwork : string; ftPhysicalVLAN : Z; ftRouteDecision : string; ftHop : string; ftEgressNetwork : string;
  ftRejectionReason : string
}.
#[export] Instance FabricTrace_rebuild : Rebuild FabricTrace := fun t =>
  mkFabricTrace (ftIngressNetwork t) (ftPhysicalVLAN t) (ftRouteDecision t) (ftHop t) (ftEgressNetwork t) (ftRejectionReason t).
Definition noTrace : FabricTrace := mkFabricTrace "" 0 "" "" "" "".

Record Packet := mkPacket {
  pkBuffer : list Z;
  pkLength : Z;
  pkSerialNumber : Z;
  pkTimestamp : Z;
  pkLoopTime : Z;
  pkDevice : option nat;
  pkGeneratedHost : option nat;
  pkHostEgressInterface : string;
  pkHostEgressNetwork : string;
  pkVLAN : Z;
  pkVLANTagged : bool;
  pkFabricReplySourceMAC : list Z;
  pkFabricFirstHopIP : list Z;
  pkFabricFirstHopMAC : list Z;
  pkFabricFirstHopDevice : option nat;
  pkFabricTrace : FabricTrace
}.
#[export] Instance Packet_rebuild : Rebuild Packet := fun p =>
  mkPacket (pkBuffer p) (pkLength p) (pkSerialNumber p) (pkTimestamp p) (pkLoopTime p) (pkDevice p) (pkGeneratedHost p)
    (pkHostEgressInterface p) (pkHostEgressNetwork p) (pkVLAN p) (pkVLANTagged p) (pkFabricReplySourceMAC p)
    (pkFabricFirstHopIP p) (pkFabricFirstHopMAC p) (pkFabricFirstHopDevice p) (pkFabricTrace p).

(** [now] is the clock's reading. *)
Definition NewPacket (size now : Z) : Packet :=
  let size := if (size <? 0) || (MaxPacketSize <? size) then 1514 else size in
  mkPacket (replicate (Z.to_nat size) 0) 0 0 now 0 None None "" "" (-1) false [] [] [] None noTrace.

(** ** Fields at an offset *)

Definition Get16 (offset : nat) (p : Packet) : Z :=
  if bool_decide (length (pkBuffer p) < offset + 2)%nat then 0 else bigUint16 (drop offset (pkBuffer p)).

Definition Put16 (value : Z) (offset : nat) (p : Packet) : Packet :=
  if bool_decide (offset + 2 <= length (pkBuffer p))%nat then p <| pkBuffer := overwrite (pkBuffer p) offset (big16 value) |> else p.

Definition Get32 (offset : nat) (p : Packet) : Z :=
  if bool_decide (length (pkBuffer p) < offset + 4)%nat then 0 else bigUint32 (drop offset (pkBuffer p)).

Definition Put32 (value : Z) (offset : nat) (p : Packet) : Packet :=
  if bool_decide (offset + 4 <= length (pkBuffer p))%nat then p <| pkBuffer := overwrite (pkBuffer p) offset (big32 value) |> else p.

Definition GetMAC (offset : nat) (p : Packet) : list Z :=
  if bool_decide (length (pkBuffer p) < offset + SizeOfMac)%nat then [] else take SizeOfMac (drop offset (pkBuffer p)).

Definition PutMAC (mac : list Z) (offset : nat) (p : Packet) : Packet :=
  if bool_decide (offset + SizeOfMac <= length (pkBuffer p))%nat && bool_decide (length mac = SizeOfMac)
  then p <| pkBuffer := overwrite (pkBuffer p) offset mac |> else p.

Definition GetIP (offset : nat) (p : Packet) : list Z :=
  if bool_decide (length (pkBuffer p) < offset + SizeOfIP)%nat then [] else take SizeOfIP (drop offset (pkBuffer p)).

Definition PutIP (ip : list Z) (offset : nat) (p : Packet) : Packet :=
  if bool_decide (offset + SizeOfIP <= length (pkBuffer p))%nat
  then p <| pkBuffer := overwrite (pkBuffer p) offset (To4 ip) |> else p.

Definition GetSourceMAC (p : Packet) : list Z := GetMAC SizeOfMac p.
Definition GetDestMAC (p : Packet) : list Z := GetMAC 0 p.
Definition PutSourceMAC (mac : list Z) (p : Packet) : Packet := PutMAC mac SizeOfMac p.
Definition PutDestMAC (mac : list Z) (p : Packet) : Packet := PutMAC mac 0 p.

(** A buffer shorter than the two addresses is a run-time error, which [None] is. *)
Definition CopySourceMACToDest (p : Packet) : option Packet :=
  if bool_decide (length (pkBuffer p) < SizeOfMac * 2)%nat then None
  else Some (p <| pkBuffer := overwrite (pkBuffer p) 0 (take SizeOfMac (drop SizeOfMac (pkBuffer p))) |>).

Definition GetEtherType (p : Packet) : Z := Get16 (SizeOfMac * ethTypeOffsetMult) p.

(** ** Received frames *)

Inductive decodeErr := ErrEthernetFrameTooShort | ErrVLANHeaderTruncated | ErrVLANStackUnsupported.

Definition ParsePacket (data : list Z) (serialNum now : Z) : Packet + decodeErr :=
  if bool_decide (length data < etherHeaderSize)%nat then inr ErrEthernetFrameTooShort
  else
    let pkt := mkPacket data (Z.of_nat (length data)) serialNum now 0 None None "" "" (-1) false [] [] [] None noTrace in
    if GetEtherType pkt =? EtherTypeVLAN then
      if bool_decide (length data < etherHeaderSize + dot1qTagLen)%nat then inr ErrVLANHeaderTruncated
      else if Get16 vlanEtherTypeOffset pkt =? EtherTypeVLAN then inr ErrVLANStackUnsupported
      else
        let vlanInfo := Get16 (SizeOfMac * ethTypeOffsetMult + ethTypeOffsetMult) pkt in
        inl (pkt <| pkVLAN := Z.land vlanInfo vlanIDMask |> <| pkVLANTagged := true |>)
    else inl pkt.

(** [copy(header[0:6], dst)] copies what both sides hold. *)
Definition BuildEthernetHeader (dst src : list Z) (etherType : Z) : list Z :=
  let header := replicate etherHeaderSize 0 in
  let header := overwrite header 0 (take SizeOfMac dst) in
  let header := overwrite header SizeOfMac (take SizeOfMac src) in
  overwrite header (SizeOfMac * 2) (big16 etherType).

(** ** The checksum *)

(** The sum of the 16-bit words, an odd last byte being a high one; [sum] is a [uint32]. *)
Fixpoint sumWords (sum : Z) (header : list Z) : Z :=
  match header with
  | [] => sum
  | [x] => uint32 (sum + Z.shiftl x checksumByteShift)
  | x :: y :: header => sumWords (uint32 (sum + bigUint16 [x; y])) header
  end.

(** The carry is added twice at most ([addCarry_done]). *)
Fixpoint addCarry (fuel : nat) (sum : Z) : Z :=
  match fuel with
  | O => sum
  | S fuel =>
      if checksumWordMask <? sum
      then addCarry fuel (uint32 (Z.land sum checksumWordMask + Z.shiftr sum checksumWordShift)) else sum
  end.

Definition CalculateIPChecksum (header : list Z) : Z := checksumWordMask - addCarry 2 (sumWords 0 header) mod 2 ^ 16.

(** ** What the checksum is *)

Lemma addCarry_step z :
  checksumWordMask < z < 2 ^ 32 ->
  let z' := uint32 (Z.land z checksumWordMask + Z.shiftr z checksumWordShift) in
  0 < z' < z /\ z' <= 2 * checksumWordMask /\ z' mod checksumWordMask = z mod checksumWordMask.
Proof.
  unfold checksumWordMask, checksumWordShift. intros Hz. cbv zeta.
  assert (Z.land z 65535 = z mod 2 ^ 16) as -> by (apply (Z.land_ones z 16); lia). rewrite Z.shiftr_div_pow2 by lia. change (2 ^ 16) with 65536 in *. change (2 ^ 32) with 4294967296 in *.
  pose proof (Z.div_mod z 65536 ltac:(lia)). pose proof (Z.mod_pos_bound z 65536 ltac:(lia)).
  assert (1 <= z / 65536 <= 65535) by lia.
  rewrite uint32_id by (change (2 ^ 32) with 4294967296; lia). split_and!; try lia.
  replace z with (z mod 65536 + z / 65536 + z / 65536 * 65535) at 3 by lia. by rewrite Z_mod_plus_full.
Qed.

(** Two folds leave a 16-bit value of the same residue modulo 2^16 - 1, zero only for zero. *)
Lemma addCarry_done z :
  0 <= z < 2 ^ 32 ->
  0 <= addCarry 2 z <= checksumWordMask /\ addCarry 2 z mod checksumWordMask = z mod checksumWordMask /\
  (addCarry 2 z = 0 <-> z = 0).
Proof.
  intros Hz. cbn [addCarry]. destruct (Z.ltb_spec checksumWordMask z) as [H1|H1]; [|split_and!; lia].
  destruct (addCarry_step z ltac:(lia)) as (Ha & Hb & Hm). set (z1 := uint32 _) in *. clearbody z1.
  destruct (Z.ltb_spec checksumWordMask z1) as [H2|H2]; [|split_and!; lia].
  assert (checksumWordMask < z1 < 2 ^ 32) as Hz1 by lia.
  destruct (addCarry_step z1 Hz1) as (Ha' & _ & Hm'). set (z2 := uint32 _) in *.
  split_and!; [lia| |congruence|lia]. subst z2. revert Hb H2. unfold checksumWordMask, checksumWordShift. intros.
  assert (Z.shiftr z1 16 = 1) as -> by (rewrite Z.shiftr_div_pow2 by lia; symmetry; apply (Zdiv_unique z1 65536 1 (z1 - 65536)); lia).
  assert (Z.land z1 65535 = z1 mod 2 ^ 16) as -> by (apply (Z.land_ones z1 16); lia). change (2 ^ 16) with 65536.
  rewrite <- (Z.mod_unique z1 65536 1 (z1 - 65536)) by lia. rewrite uint32_id by (change (2 ^ 32) with 4294967296; lia). lia.
Qed.

(** The sum of the words without the wrap-around. *)
Fixpoint wordSum (header : list Z) : Z :=
  match header with
  | [] => 0
  | [x] => 2 ^ 8 * x
  | x :: y :: header => 2 ^ 8 * x + y + wordSum header
  end.

Lemma pairs_ind {A} (P : list A -> Prop) :
  P [] -> (forall x, P [x]) -> (forall x y l, P l -> P (x :: y :: l)) -> forall l, P l.
Proof.
  intros H0 H1 H2. fix IH 1. intros [|x [|y l]]; [exact H0|apply H1|apply H2, IH].
Qed.

Lemma wordSum_range header :
  Forall isByte header -> 0 <= wordSum header <= checksumWordMask * Z.of_nat (length header).
Proof.
  unfold checksumWordMask. induction header as [|x|x y header IH] using pairs_ind; cbn [wordSum length]; [lia| |].
  - intros [Hx _]%Forall_cons. unfold isByte in Hx. lia.
  - intros [Hx [Hy Hh]%Forall_cons]%Forall_cons. unfold isByte in *. specialize (IH Hh). lia.
Qed.

Lemma sumWords_wordSum sum header :
  Forall isByte header -> 0 <= sum -> sum + wordSum header < 2 ^ 32 -> sumWords sum header = sum + wordSum header.
Proof.
  revert sum. induction header as [|x|x y header IH] using pairs_ind; intros sum; cbn [sumWords wordSum]; [lia| |].
  - intros [Hx _]%Forall_cons Hs Hb. unfold isByte, checksumByteShift in *. rewrite Z.shiftl_mul_pow2, uint32_id by lia. lia.
  - intros [Hx [Hy Hh]%Forall_cons]%Forall_cons Hs Hb. pose proof (wordSum_range _ Hh). unfold isByte in *.
    unfold bigUint16, byteAt. cbn [lookup list_lookup default from_option id]. rewrite uint32_id by lia. rewrite IH by (done || lia). lia.
Qed.

Lemma wordSum_app a b : Nat.even (length a) = true -> wordSum (a ++ b) = wordSum a + wordSum b.
Proof.
  induction a as [|x|x y a IH] using pairs_ind; cbn [app wordSum length Nat.even]; intros He; [lia|done|rewrite IH by done; lia].
Qed.

(** Headers short enough for the sum not to wrap around; an IPv4 header has at
    most 60 bytes. *)
Definition maxChecksumLen : Z := 65536.

Lemma checksum_spec header :
  Forall isByte header -> Z.of_nat (length header) <= maxChecksumLen ->
  let f := checksumWordMask - CalculateIPChecksum header in
  0 <= f <= checksumWordMask /\ f mod checksumWordMask = wordSum header mod checksumWordMask /\ (f = 0 <-> wordSum header = 0).
Proof.
  intros Hh Hl. pose proof (wordSum_range _ Hh) as Hr. unfold CalculateIPChecksum, maxChecksumLen, checksumWordMask in *.
  rewrite sumWords_wordSum by (done || lia). destruct (addCarry_done (0 + wordSum header) ltac:(lia)) as (Ha & Hm & Hz).
  unfold checksumWordMask in *. rewrite (Z.mod_small _ (2 ^ 16)) by lia. cbv zeta.
  replace (65535 - (65535 - addCarry 2 (0 + wordSum header))) with (addCarry 2 (0 + wordSum header)) by lia.
  split_and!; [lia|lia|by rewrite Hm|]. rewrite Hz. lia.
Qed.

Lemma checksum_range header :
  Forall isByte header -> Z.of_nat (length header) <= maxChecksumLen -> 0 <= CalculateIPChecksum header <= checksumWordMask.
Proof. intros Hh Hl. destruct (checksum_spec _ Hh Hl) as (? & _). lia. Qed.

(** The checksum is zero exactly when the words add up to a multiple of 2^16 - 1 that is not zero. *)
Lemma checksum_zero header :
  Forall isByte header -> Z.of_nat (length header) <= maxChecksumLen ->
  CalculateIPChecksum header = 0 <-> wordSum header mod checksumWordMask = 0 /\ wordSum header <> 0.
Proof.
  intros Hh Hl. destruct (checksum_spec _ Hh Hl) as (Hr & Hm & Hz). unfold checksumWordMask in *.
  set (c := CalculateIPChecksum header) in *. clearbody c. split.
  - intros ->. split; [by rewrite <- Hm|]. intros E%Hz. lia.
  - intros [Hw Hn]. assert (65535 - c <> 0) by (by intros E%Hz). rewrite Hw in Hm.
    destruct (Z.eq_dec (65535 - c) 65535); [lia|]. rewrite Z.mod_small in Hm by lia. lia.
Qed.

Lemma big16_sum v post : 0 <= v < 2 ^ 16 -> wordSum (big16 v ++ post) = v + wordSum post.
Proof.
  intros Hv. unfold big16. cbn [app wordSum]. pose proof (Z.div_mod v (2 ^ 8) ltac:(lia)).
  rewrite (Z.mod_small (v / 2 ^ 8)); [lia|]. split; [apply Z.div_pos; lia|]. apply Z.div_lt_upper_bound; lia.
Qed.

(** A header completed with its checksum, computed while the field is zero, has checksum zero. *)
Lemma checksum_completes pre post :
  Forall isByte pre -> Forall isByte post -> Nat.even (length pre) = true ->
  Z.of_nat (length pre + 2 + length post) <= maxChecksumLen ->
  CalculateIPChecksum (pre ++ big16 (CalculateIPChecksum (pre ++ [0; 0] ++ post)) ++ post) = 0.
Proof.
  intros Hpre Hpost He Hl. set (header := pre ++ [0; 0] ++ post).
  assert (Forall isByte header) as Hh by (subst header; rewrite !Forall_app; split_and!; [done| |done]; unfold isByte; repeat constructor; lia).
  assert (Z.of_nat (length header) <= maxChecksumLen) as Hlh by (subst header; rewrite !length_app; simpl; lia).
  destruct (checksum_spec _ Hh Hlh) as (Hr & Hm & Hz). set (c := CalculateIPChecksum header) in *. clearbody c.
  pose proof (wordSum_range _ Hh) as Hw.
  assert (wordSum header = wordSum pre + wordSum post) as Eh.
  { subst header. rewrite wordSum_app by done. cbn [app wordSum]. lia. }
  unfold checksumWordMask in *. apply checksum_zero.
  - rewrite !Forall_app. split_and!; [done| |done]. unfold big16. repeat constructor; apply isByte_mod.
  - rewrite !length_app. simpl. lia.
  - rewrite wordSum_app, big16_sum by (done || lia). rewrite Z.add_shuffle3, <- Eh. unfold checksumWordMask. split; [|lia].
    rewrite Z.add_mod, <- Hm, <- Z.add_mod by lia. replace (c + (65535 - c)) with 65535 by lia. done.
Qed.
