(* ===== verification/Vlan.v ===== *)
(** * 802.1Q tags

    [protocols/vlan.go]: a tag is put on a frame after its two addresses, and
    every tag a frame carries is taken off before the fabric looks at it.  An
    out-of-range slice is not read: both check the length first. *)

From S2P Require Import Prelude.
From S2P Require Import Netip.
From S2P Require Import Bytes.
From S2P Require Import Packet.

Definition ethMACsLen : nat := 12.
Definition ethHeaderLen : nat := 14.
Definition dot1qTPID : Z := 0x8100.
Definition dot1adTPID : Z := 0x88a8.
Definition legacyQinQTPID : Z := 0x9100.
Definition vlanIDMax : Z := 4094.
Definition dot1qVLANIDMask : Z := 0x0fff.

Definition isVLANTPID (etherType : Z) : bool :=
  (etherType =? dot1qTPID) || (etherType =? dot1adTPID) || (etherType =? legacyQinQTPID).

(** The type field of an untagged frame. *)
Definition etherTypeOf (frame : list Z) : Z := bigUint16 (drop ethMACsLen frame).

Definition insertDot1Q (frame : list Z) (vlanID : Z) : list Z :=
  if bool_decide (length frame < ethHeaderLen)%nat || (vlanID <=? 0) || (vlanIDMax <? vlanID) then frame
  else if isVLANTPID (etherTypeOf frame) then frame
  else
    let tci := Z.land (vlanID mod 2 ^ 16) dot1qVLANIDMask in
    take ethMACsLen frame ++ big16 dot1qTPID ++ big16 tci ++ drop ethMACsLen frame.

(** [None] is the error of a truncated tag; every round takes four bytes off,
    so the length of the frame is fuel enough ([stripDot1Q_spec]). *)
Fixpoint stripLoop (fuel : nat) (frame : list Z) : option (list Z) :=
  if bool_decide (ethHeaderLen <= length frame)%nat && isVLANTPID (etherTypeOf frame) then
    if bool_decide (length frame < ethHeaderLen + dot1qTagLen)%nat then None
    else
      match fuel with
      | O => Some frame
      | S fuel => stripLoop fuel (take ethMACsLen frame ++ drop (ethMACsLen + dot1qTagLen) frame)
      end
  else Some frame.

Definition stripDot1Q (frame : list Z) : option (list Z) := stripLoop (length frame) frame.

(** ** What tagging guarantees *)

(** A frame without a tag, or too short to carry one. *)
Definition untagged (frame : list Z) : Prop := (ethHeaderLen <= length frame)%nat -> isVLANTPID (etherTypeOf frame) = false.

Lemma stripLoop_untagged fuel frame stripped :
  (length frame <= fuel)%nat -> stripLoop fuel frame = Some stripped -> untagged stripped.
Proof.
  revert frame. induction fuel as [|fuel IH]; intros frame Hf; cbn [stripLoop].
  - destruct frame; [|simpl in Hf; lia]. rewrite bool_decide_eq_false_2 by (unfold ethHeaderLen; simpl; lia).
    intros [= <-]. unfold untagged, ethHeaderLen. simpl. lia.
  - destruct (_ && _) eqn:E.
    + destruct (bool_decide (length frame < _)%nat) eqn:El; [by intros|]. apply bool_decide_eq_false in El. apply IH. unfold ethMACsLen, dot1qTagLen, ethHeaderLen in *.
      rewrite length_app, length_take, length_drop. lia.
    + intros [= <-] Hl. by rewrite bool_decide_eq_true_2 in E.
Qed.

Lemma stripDot1Q_untagged frame stripped : stripDot1Q frame = Some stripped -> untagged stripped.
Proof. by apply stripLoop_untagged. Qed.

(** An untagged frame is left as it is. *)
Lemma strip_untagged frame : untagged frame -> stripDot1Q frame = Some frame.
Proof.
  intros Hu. unfold stripDot1Q. destruct (length frame) eqn:El; cbn [stripLoop]; rewrite El;
    (case_bool_decide as Hl; [rewrite Hu by lia|]; done).
Qed.

Lemma etherType_lookup frame : etherTypeOf frame = byteAt frame 12 * 2 ^ 8 + byteAt frame 13.
Proof. unfold etherTypeOf, bigUint16, byteAt, ethMACsLen. by rewrite !lookup_drop. Qed.

Section insert.
Context (frame : list Z) (vlanID : Z).
Hypothesis (Hl : (ethHeaderLen <= length frame)%nat) (Hu : untagged frame) (Hv : 0 < vlanID <= vlanIDMax).

Lemma insert_tagged :
  insertDot1Q frame vlanID = take ethMACsLen frame ++ big16 dot1qTPID ++ big16 vlanID ++ drop ethMACsLen frame.
Proof.
  unfold insertDot1Q. rewrite bool_decide_eq_false_2 by lia. unfold vlanIDMax, dot1qVLANIDMask in *.
  destruct (Z.leb_spec vlanID 0), (Z.ltb_spec 4094 vlanID); try lia. cbn [orb]. rewrite (Hu Hl).
  rewrite (Z.mod_small vlanID (2 ^ 16)) by lia. assert (Z.land vlanID 4095 = vlanID) as ->; [|done].
  change 4095 with (Z.ones 12). rewrite Z.land_ones by lia. apply Z.mod_small. lia.
Qed.

Lemma insert_length : length (insertDot1Q frame vlanID) = (length frame + dot1qTagLen)%nat.
Proof.
  rewrite insert_tagged, !length_app, length_take, length_drop. unfold big16, ethMACsLen, ethHeaderLen, dot1qTagLen in *.
  cbn [length]. lia.
Qed.

(** The tag is read back from its place, and taking it off gives the frame back. *)
Lemma insert_drop : drop ethMACsLen (insertDot1Q frame vlanID) = big16 dot1qTPID ++ big16 vlanID ++ drop ethMACsLen frame.
Proof. rewrite insert_tagged. apply drop_app_length'. rewrite length_take. unfold ethMACsLen, ethHeaderLen in *. lia. Qed.

Lemma strip_insert : stripDot1Q (insertDot1Q frame vlanID) = Some frame.
Proof.
  unfold stripDot1Q. rewrite insert_length. unfold dot1qTagLen. rewrite Nat.add_comm.
  cbn [Nat.add]. unfold stripLoop at 1. fold stripLoop.
  rewrite insert_length. rewrite bool_decide_eq_true_2 by lia.
  assert (etherTypeOf (insertDot1Q frame vlanID) = dot1qTPID) as -> by (unfold etherTypeOf; by rewrite insert_drop).
  change (isVLANTPID dot1qTPID) with true. cbn [andb]. rewrite bool_decide_eq_false_2 by (unfold dot1qTagLen, ethHeaderLen in *; lia).
  assert (take ethMACsLen (insertDot1Q frame vlanID) ++ drop (ethMACsLen + dot1qTagLen) (insertDot1Q frame vlanID) = frame) as ->.
  { rewrite <- drop_drop, insert_drop, insert_tagged. change (drop dot1qTagLen (big16 dot1qTPID ++ big16 vlanID ++ drop ethMACsLen frame))
      with (drop ethMACsLen frame). rewrite take_app_length'; [apply take_drop|].
    rewrite length_take. unfold ethMACsLen, ethHeaderLen in *. lia. }
  cbn [stripLoop]. rewrite (Hu Hl), andb_false_r. done.
Qed.
End insert.
