(* ===== verification/Decimal.v ===== *)
(** * Decimal numbers as text

    [strconv.Itoa] ([pretty]) read back by [strconv.Atoi]. *)

From Stdlib Require Import Ascii.
From S2P Require Import Prelude.
From S2P Require Import Oid.

Lemma digitValue_char n : (n < 10)%N -> digitValue (pretty_N_char n) = Some (Z.of_N n).
Proof.
  intros H. assert (In (N.to_nat n) (seq 0 10)) as Hin by (apply in_seq; lia).
  rewrite <- (N2Nat.id n). simpl in Hin.
  repeat (destruct Hin as [<-|Hin]; [reflexivity|]). done.
Qed.

Lemma digits_pretty n s : digits 0 (pretty_N_go n s) = digits (Z.of_N n) s.
Proof.
  revert s. induction (N.lt_wf_0 n) as [n _ IH]. intros s. destruct (decide (n = 0)%N) as [->|Hn].
  - by rewrite pretty_N_go_0.
  - rewrite pretty_N_go_step by lia. rewrite IH by (apply N.div_lt; lia). cbn [digits].
    rewrite digitValue_char by (apply N.mod_lt; lia). f_equal.
    rewrite N2Z.inj_div, N2Z.inj_mod. pose proof (Z.div_mod (Z.of_N n) 10). lia.
Qed.

(** Decimals are digits only. *)
Fixpoint allDigits (s : string) : Prop :=
  match s with EmptyString => True | String c s => digitValue c <> None /\ allDigits s end.

Lemma pretty_go_digits n s : allDigits s -> allDigits (pretty_N_go n s).
Proof.
  revert s. induction (N.lt_wf_0 n) as [n _ IH]. intros s Hs. destruct (decide (n = 0)%N) as [->|Hn].
  - by rewrite pretty_N_go_0.
  - rewrite pretty_N_go_step by lia. apply IH; [apply N.div_lt; lia|]. split; [|done].
    rewrite digitValue_char by (apply N.mod_lt; lia). done.
Qed.

Lemma pretty_N_digits (n : N) : allDigits (pretty n) /\ unsigned (pretty n) = Some (Z.of_N n).
Proof.
  unfold pretty, pretty_N. destruct (decide (n = 0)%N) as [->|Hn]; [by split|].
  split; [by apply pretty_go_digits|]. pose proof (digits_pretty n "") as Hd. unfold unsigned.
  destruct (pretty_N_go n "") eqn:E; [simpl in Hd; injection Hd; lia|exact Hd].
Qed.

Lemma digitValue_neq c d : digitValue c <> None -> digitValue d = None -> c <> d.
Proof. by intros H1 H2 ->. Qed.

Lemma Atoi_digits s : allDigits s -> Atoi s = (n ← unsigned s; inInt n).
Proof.
  destruct s as [|c s]; [done|]. intros [Hc _].
  pose proof (digitValue_neq _ "-"%char Hc eq_refl) as H1. pose proof (digitValue_neq _ "+"%char Hc eq_refl) as H2.
  unfold Atoi. destruct c as [[] [] [] [] [] [] [] []]; done.
Qed.

(** A decimal reads back as its number. *)
Lemma pretty_digits n : 0 <= n -> allDigits (pretty n).
Proof.
  intros Hn. destruct n as [|p|p]; [by vm_compute|apply (pretty_N_digits (Npos p))|lia].
Qed.

Lemma unsigned_pretty n : 0 <= n -> unsigned (pretty n) = Some n.
Proof. intros Hn. destruct n as [|p|p]; [done| |lia]. apply (pretty_N_digits (Npos p)). Qed.

Lemma Atoi_pretty n : 0 <= n < 2 ^ 63 -> Atoi (pretty n) = Some n.
Proof.
  intros Hn. rewrite Atoi_digits by (apply pretty_digits; lia).
  rewrite unsigned_pretty by lia.
  simpl. unfold inInt. rewrite (proj2 (Z.leb_le _ _)), (proj2 (Z.ltb_lt _ _)) by lia. done.
Qed.

Lemma splitDot_digits s : allDigits s -> splitDot s = [s].
Proof.
  induction s as [|c s IH]; [done|]. intros [Hc Hs]. simpl.
  destruct (Ascii.eqb_spec c "."%char) as [->|_]; [done|]. by rewrite IH.
Qed.

Lemma pretty_first n s : 0 <= n -> trimDot (pretty n +:+ s) = pretty n +:+ s.
Proof.
  intros Hn. pose proof (pretty_digits n Hn) as Hd. pose proof (unsigned_pretty n Hn) as Hu.
  destruct (pretty n) as [|c t] eqn:E; [done|].
  destruct Hd as [Hc _]. simpl. destruct (Ascii.eqb_spec c "."%char) as [->|_]; done.
Qed.

Lemma pretty_trim n : 0 <= n -> trimDot (pretty n) = pretty n.
Proof.
  intros Hn. pose proof (pretty_digits n Hn) as Hd. destruct (pretty n) as [|c t]; [done|].
  destruct Hd as [Hc _]. simpl. by destruct (Ascii.eqb_spec c "."%char) as [->|_].
Qed.
