(* ===== verification/MibZip.v ===== *)
(** * The compressed walk format

    [protocols/snmp/mibzip.go]: a walk is written as the tree of its OIDs, one
    command per node, and read back with a stack of sub-identifiers.  A value's
    Go type is the constructor of [Any].  [sort.Slice], which promises a sorted
    permutation, is a parameter ([sortSlice]).  Files and their paths are left
    out: [ParseMibZipFile] is [NewMibZipReader] and [Expand] on a file's bytes. *)

From Stdlib Require Import Ascii.
From S2P Require Import Prelude.
From S2P Require Import Netip.
From S2P Require Import Bytes.
From S2P Require Import Safeconv.
From S2P Require Import Oid.

(** ** Data *)

Definition mibzipMagic : list Z := bytesOf "mibzip" ++ [0].
Definition mibCmdDown : Z := 0x01.
Definition mibCmdLeaf : Z := 0x02.
Definition mibCmdUp : Z := 0x03.
Definition OIDPartsMinPDU : nat := 2.
Definition BERMaxShortLen : Z := 127.
Definition BERLongFormIndicator : Z := 128.
Definition BERHighBitMask : Z := 0x80.
Definition BERLowMask : Z := 0x7f.
Definition BERFullByte : Z := 0xff.
Definition IPAddressOctets : nat := 4.
Definition MaxBERLengthBytes : Z := 4.
Definition OIDSubIDThreshold : Z := 128.
Definition OIDShiftBits : Z := 7.
Definition BitShiftByte : Z := 8.

(** gosnmp's type codes *)
Module gosnmp.
Definition EndOfContents : Z := 0x00.
Definition Boolean : Z := 0x01.
Definition Integer : Z := 0x02.
Definition BitString : Z := 0x03.
Definition OctetString : Z := 0x04.
Definition Null : Z := 0x05.
Definition ObjectIdentifier : Z := 0x06.
Definition ObjectDescription : Z := 0x07.
Definition IPAddress : Z := 0x40.
Definition Counter32 : Z := 0x41.
Definition Gauge32 : Z := 0x42.
Definition TimeTicks : Z := 0x43.
Definition Opaque : Z := 0x44.
Definition NsapAddress : Z := 0x45.
Definition Counter64 : Z := 0x46.
Definition Uinteger32 : Z := 0x47.
Definition OpaqueFloat : Z := 0x78.
Definition OpaqueDouble : Z := 0x79.
Definition NoSuchObject : Z := 0x80.
Definition NoSuchInstance : Z := 0x81.
Definition EndOfMibView : Z := 0x82.
End gosnmp.

(** How a type's values are written. *)
Inductive Coding :=
| asOctets | asInteger | asUnsigned32 | asCounter64 | asOID | asIPAddress | asNothing | asText | asUnknown.

Definition codings : list (Z * Coding) :=
  [(gosnmp.OctetString, asOctets); (gosnmp.Integer, asInteger);
   (gosnmp.Counter32, asUnsigned32); (gosnmp.Gauge32, asUnsigned32); (gosnmp.Uinteger32, asUnsigned32);
   (gosnmp.TimeTicks, asUnsigned32); (gosnmp.Counter64, asCounter64); (gosnmp.ObjectIdentifier, asOID);
   (gosnmp.IPAddress, asIPAddress); (gosnmp.Null, asNothing); (gosnmp.NoSuchObject, asNothing);
   (gosnmp.NoSuchInstance, asNothing); (gosnmp.EndOfMibView, asNothing); (gosnmp.EndOfContents, asText);
   (gosnmp.Boolean, asText); (gosnmp.BitString, asText); (gosnmp.ObjectDescription, asText); (gosnmp.Opaque, asText);
   (gosnmp.NsapAddress, asText); (gosnmp.OpaqueFloat, asText); (gosnmp.OpaqueDouble, asText)].

Definition coding (asnType : Z) : Coding :=
  match List.find (fun '(ty, _) => ty =? asnType) codings with Some (_, c) => c | None => asUnknown end.

Inductive Any :=
| ANil | AString (s : string) | ABytes (b : list Z) | AInt (n : Z) | AInt32 (n : Z) | AInt64 (n : Z)
| AUint (n : Z) | AUint32 (n : Z) | AUint64 (n : Z).

Record WalkEntry := mkWalkEntry { weOID : string; weType : Z; weValue : Any }.

(** A node: its type and value when it is a leaf, and its children, a Go map. *)
Inductive mibNode := MibNode (leaf : option (Z * Any)) (children : list (Z * mibNode)).

Definition nodeLeaf (node : mibNode) : option (Z * Any) := let 'MibNode leaf _ := node in leaf.
Definition nodeChildren (node : mibNode) : list (Z * mibNode) := let 'MibNode _ children := node in children.

Inductive MibZipErr :=
| ErrDataTooShortForMagic | ErrInvalidMibzipMagic | ErrExpectedDownCommand | ErrExpectedISONode
| ErrUnknownMibzipCommand | ErrLengthTooLong.

(** ** OIDs *)

(** [n, _ := strconv.Atoi(p)]: the nearest [int] when out of range, 0 when not a number. *)
Definition atoiValue (p : string) : Z :=
  match Atoi p with
  | Some n => n
  | None =>
      match p with
      | String "-"%char s => match unsigned s with Some _ => - 2 ^ 63 | None => 0 end
      | String "+"%char s => match unsigned s with Some _ => 2 ^ 63 - 1 | None => 0 end
      | _ => match unsigned p with Some _ => 2 ^ 63 - 1 | None => 0 end
      end
  end.

Definition parseOIDToSubIDs (oid : string) : list Z := map atoiValue (splitDot (trimDot oid)).

Fixpoint joinDots (parts : list string) : string :=
  match parts with
  | [] => ""
  | [part] => part
  | part :: parts => part +:+ String "."%char (joinDots parts)
  end.

Definition buildOIDString (subIDs : list Z) : string := joinDots (map pretty subIDs).

Definition CompareOIDs (oid1 oid2 : string) : comparison :=
  compareOIDParts (parseOIDToSubIDs oid1) (parseOIDToSubIDs oid2).

(** Nine groups of seven bits hold every [int]. *)
Fixpoint base128 (fuel : nat) (subID : Z) (encoded : list Z) : list Z :=
  match fuel with
  | O => encoded
  | S fuel =>
      if 0 <? subID
      then base128 fuel (Z.shiftr subID OIDShiftBits) (Z.lor (Z.land subID BERLowMask) BERHighBitMask :: encoded)
      else encoded
  end.

Definition encodeSubID (subID : Z) : list Z :=
  if subID <? OIDSubIDThreshold then [Byte subID]
  else let encoded := base128 9 subID [] in alter (fun b => Z.land b BERLowMask) (pred (length encoded)) encoded.

Definition encodeOID (oid : string) : list Z :=
  match parseOIDToSubIDs oid with
  | a :: b :: subIDs => Byte (int64 (int64 (40 * a) + b)) :: concat (map encodeSubID subIDs)
  | _ => []
  end.

Fixpoint decodeSubIDs (subID : Z) (data : list Z) : list Z :=
  match data with
  | [] => []
  | b :: data =>
      let subID := int64 (Z.lor (Z.shiftl subID OIDShiftBits) (Z.land b BERLowMask)) in
      if Z.land b BERHighBitMask =? 0 then subID :: decodeSubIDs 0 data
      else match data with
           | [] => [subID]
           | _ => decodeSubIDs subID data
           end
  end.

Definition decodeOID (data : list Z) : string :=
  match data with
  | [] => ""
  | b :: data => buildOIDString (b / 40 :: b mod 40 :: decodeSubIDs 0 data)
  end.

(** ** The writer *)

(** The bytes a number needs: one more for each shift while it is too big. *)
Fixpoint sizeLoop (fuel : nat) (tooBig : Z -> bool) (tmp size : Z) : Z :=
  match fuel with
  | O => size
  | S fuel => if tooBig tmp then sizeLoop fuel tooBig (Z.shiftr tmp BitShiftByte) (size + 1) else size
  end.

(** Eight shifts empty any 64-bit number. *)
Definition sizeOf (tooBig : Z -> bool) (x : Z) : Z := sizeLoop 8 tooBig x 1.

Definition bigEndian (size x : Z) : list Z :=
  map (fun i => Z.land (Z.shiftr x (BitShiftByte * Z.of_nat i)) BERFullByte) (rev (seq 0 (Z.to_nat size))).

Definition putLength (x : Z) : list Z :=
  if x <? BERLongFormIndicator then [Byte x]
  else let size := sizeOf (fun tmp => BERMaxShortLen + BERLongFormIndicator <? tmp) x in
       Byte (Z.lor size BERHighBitMask) :: bigEndian size x.

Definition encodeInteger (value : Z) : list Z :=
  let size := if value <? 0 then sizeOf (fun tmp => (tmp <? -128) || (BERMaxShortLen <? tmp)) value
              else sizeOf (fun tmp => BERMaxShortLen <? tmp) value in
  putLength size ++ bigEndian size value.

Definition encodeUnsigned (value : Z) : list Z :=
  let size := sizeOf (fun tmp => 255 <? tmp) value in
  let size := if BERMaxShortLen <? Z.shiftr value ((size - 1) * BitShiftByte) then size + 1 else size in
  putLength size ++ bigEndian size value.

Definition counted (b : list Z) : list Z := putLength (Z.of_nat (length b)) ++ b.

Definition encodeOctetStringValue (value : Any) : list Z :=
  counted (match value with AString s => bytesOf s | ABytes b => b | _ => [] end).

Definition encodeIntegerValue (value : Any) : list Z :=
  encodeInteger (match value with AInt v | AInt64 v => Int32 v | AInt32 v => v | _ => 0 end).

Definition encodeUnsigned32Value (value : Any) : list Z :=
  encodeUnsigned (match value with AUint v | AUint64 v => Uint32FromUint64 v | AUint32 v => v | AInt v => Uint32 v | _ => 0 end).

Definition encodeCounter64Value (value : Any) : list Z :=
  encodeUnsigned (match value with AUint64 v | AUint v | AUint32 v => v | _ => 0 end).

Definition encodeOIDValue (value : Any) : list Z :=
  counted (encodeOID (match value with AString v => v | _ => "" end)).

Definition addressOctet (p : string) : Z :=
  let n := atoiValue p in Byte (if (n <? 0) || (MaxUint8 <? n) then 0 else n).

Definition encodeIPAddressValue (value : Any) : list Z :=
  let ip := match value with AString v => v | _ => "" end in
  putLength (Z.of_nat IPAddressOctets) ++ map addressOctet (splitDot ip).

(** [fmt.Sprintf("%v", value)] *)
Definition formatV (value : Any) : string :=
  match value with
  | ANil => "<nil>"
  | AString s => s
  | ABytes b => "[" +:+ String.concat " " (map pretty b) +:+ "]"
  | AInt n | AInt32 n | AInt64 n | AUint n | AUint32 n | AUint64 n => pretty n
  end.

Definition encodeASNValue (asnType : Z) (value : Any) : list Z :=
  uint8 asnType ::
  match coding asnType with
  | asOctets => encodeOctetStringValue value
  | asInteger => encodeIntegerValue value
  | asUnsigned32 => encodeUnsigned32Value value
  | asCounter64 => encodeCounter64Value value
  | asOID => encodeOIDValue value
  | asIPAddress => encodeIPAddressValue value
  | asNothing => putLength 0
  | asText => counted (bytesOf (formatV value))
  | asUnknown => []
  end.

(** [serializeNode]; the leaf case of its source is reached for no node, since
    leaves are written by their parent. *)
Fixpoint serializeNode (node : mibNode) : list Z :=
  let 'MibNode _ children := node in
  let written := map (fun '(k, child) =>
    (k, match child with
        | MibNode (Some (asnType, value)) _ => mibCmdLeaf :: putLength k ++ encodeASNValue asnType value
        | MibNode None _ => mibCmdDown :: putLength k ++ serializeNode child
        end)) children in
  concat (map snd (sortBy fst written)) ++ [mibCmdUp].

(** Go's [current.children[k]], and its assignment. *)
Fixpoint childOf (k : Z) (children : list (Z * mibNode)) : option mibNode :=
  match children with
  | [] => None
  | (k', child) :: children => if k' =? k then Some child else childOf k children
  end.

Fixpoint setChild (k : Z) (node : mibNode) (children : list (Z * mibNode)) : list (Z * mibNode) :=
  match children with
  | [] => [(k, node)]
  | (k', child) :: children => if k' =? k then (k, node) :: children else (k', child) :: setChild k node children
  end.

(** The path below a node, followed and made, and the leaf put at its end. *)
Fixpoint addLeaf (path : list Z) (leaf : Z * Any) (node : mibNode) : mibNode :=
  match path with
  | [] => node
  | [k] => MibNode (nodeLeaf node) (setChild k (MibNode (Some leaf) []) (nodeChildren node))
  | k :: path =>
      let child := default (MibNode None []) (childOf k (nodeChildren node)) in
      MibNode (nodeLeaf node) (setChild k (addLeaf path leaf child) (nodeChildren node))
  end.

Definition addEntry (root : mibNode) (entry : WalkEntry) : mibNode :=
  let subIDs := parseOIDToSubIDs (weOID entry) in
  if bool_decide (length subIDs < OIDPartsMinPDU)%nat then root
  else addLeaf (tail subIDs) (weType entry, weValue entry) root.

(** What a new writer holds once the entries are compressed. *)
Definition Compress (sortSlice : list WalkEntry -> list WalkEntry) (entries : list WalkEntry) : list Z :=
  mibzipMagic ++
  if bool_decide (entries = []) then []
  else mibCmdDown :: putLength 1 ++ serializeNode (foldl addEntry (MibNode None []) (sortSlice entries)).

(** ** The reader *)

(** A reader is what it has left to read. *)
Definition NewMibZipReader (data : list Z) : list Z + MibZipErr :=
  if bool_decide (length data < length mibzipMagic)%nat then inr ErrDataTooShortForMagic
  else if negb (bool_decide (take (length mibzipMagic) data = mibzipMagic)) then inr ErrInvalidMibzipMagic
  else inl (drop (length mibzipMagic) data).

Definition get8 (data : list Z) : Z * list Z :=
  match data with [] => (0, []) | b :: data => (b, data) end.

Fixpoint lengthLoop (n : nat) (length : Z) (data : list Z) : Z * list Z :=
  match n with
  | O => (length, data)
  | S n => let '(b, data) := get8 data in lengthLoop n (Z.lor (Z.shiftl length BitShiftByte) b) data
  end.

Definition getLength (data : list Z) : (Z * list Z) + MibZipErr :=
  let '(b, data) := get8 data in
  if Z.land b BERHighBitMask =? 0 then inl (b, data)
  else
    let numBytes := Z.land b BERLowMask in
    if MaxBERLengthBytes <? numBytes then inr ErrLengthTooLong
    else inl (lengthLoop (Z.to_nat numBytes) 0 data).

Definition getBytes (n : Z) (data : list Z) : list Z * list Z := (take (Z.to_nat n) data, drop (Z.to_nat n) data).

Definition decodeInteger (data : list Z) : Z :=
  foldl (fun value b => int64 (Z.lor (Z.shiftl value BitShiftByte) b))
    (match data with b :: _ => if Z.land b BERHighBitMask =? 0 then 0 else -1 | [] => 0 end) data.

Definition decodeUnsigned (data : list Z) : Z :=
  foldl (fun value b => uint64 (Z.lor (Z.shiftl value BitShiftByte) b)) 0 data.

Definition decodeIPAddress (data : list Z) : string :=
  if bool_decide (IPAddressOctets <= length data)%nat
  then joinDots [pretty (byteAt data 0); pretty (byteAt data 1); pretty (byteAt data 2); pretty (byteAt data 3)]
  else "".

Definition decodeASNValue (data : list Z) : (Z * Any * list Z) + MibZipErr :=
  let '(asnType, data) := get8 data in
  match getLength data with
  | inr err => inr err
  | inl (length, data) =>
      let '(value, data) := getBytes length data in
      inl (asnType,
        match coding asnType with
        | asOctets | asText | asUnknown => AString (stringOf value)
        | asInteger => AInt (decodeInteger value)
        | asUnsigned32 => AUint32 (Uint32FromUint64 (decodeUnsigned value))
        | asCounter64 => AUint64 (decodeUnsigned value)
        | asOID => AString (decodeOID value)
        | asIPAddress => AString (decodeIPAddress value)
        | asNothing => ANil
        end, data)
  end.

Definition readInitialDownCommand (data : list Z) : list Z + MibZipErr :=
  match data with
  | [] => inl []
  | cmd :: data =>
      if negb (cmd =? mibCmdDown) then inr ErrExpectedDownCommand
      else
        match getLength data with
        | inr err => inr err
        | inl (subID, data) => if negb (subID =? 1) then inr ErrExpectedISONode else inl data
        end
  end.

(** What the commands change: where the reader is in the tree, and what it has read. *)
Record Cursor := mkCursor { cuOID : list Z; cuEntries : list WalkEntry }.

Definition pop (oid : list Z) : list Z := take (pred (length oid)) oid.

Definition handleDownCommand (lastCmd : Z) (c : Cursor) (data : list Z) : (Cursor * list Z) + MibZipErr :=
  match getLength data with
  | inr err => inr err
  | inl (subID, data) =>
      let oid := if lastCmd =? mibCmdUp then pop (cuOID c) else cuOID c in
      inl (mkCursor (oid ++ [subID]) (cuEntries c), data)
  end.

Definition handleLeafCommand (lastCmd : Z) (c : Cursor) (data : list Z) : (Cursor * list Z) + MibZipErr :=
  match getLength data with
  | inr err => inr err
  | inl (subID, data) =>
      let oid := (if lastCmd =? mibCmdLeaf then pop (cuOID c) else cuOID c) ++ [subID] in
      match decodeASNValue data with
      | inr err => inr err
      | inl (asnType, value, data) =>
          inl (mkCursor oid (cuEntries c ++ [mkWalkEntry (buildOIDString oid) asnType value]), data)
      end
  end.

Definition handleUpCommand (c : Cursor) : Cursor :=
  if bool_decide (1 < length (cuOID c))%nat then mkCursor (pop (cuOID c)) (cuEntries c) else c.

Definition processCommand (cmd lastCmd : Z) (c : Cursor) (data : list Z) : (Cursor * list Z) + MibZipErr :=
  if cmd =? mibCmdDown then handleDownCommand lastCmd c data
  else if cmd =? mibCmdLeaf then handleLeafCommand lastCmd c data
  else if cmd =? mibCmdUp then inl (handleUpCommand c, data)
  else inr ErrUnknownMibzipCommand.

(** Every command reads at least its own byte; [None] is too little fuel. *)
Fixpoint expandLoop (fuel : nat) (lastCmd : Z) (c : Cursor) (data : list Z) : option (list WalkEntry + MibZipErr) :=
  match data with
  | [] => Some (inl (cuEntries c))
  | cmd :: data =>
      match fuel with
      | O => None
      | S fuel =>
          match processCommand cmd lastCmd c data with
          | inr err => Some (inr err)
          | inl (c, data) => expandLoop fuel cmd c data
          end
      end
  end.

Definition expandEntries (data : list Z) : option (list WalkEntry + MibZipErr) :=
  expandLoop (length data) 0 (mkCursor [1] []) data.

Definition Expand (data : list Z) : option (list WalkEntry + MibZipErr) :=
  match readInitialDownCommand data with
  | inr err => Some (inr err)
  | inl data => expandEntries data
  end.

(** [ParseMibZipFile], from the file's bytes on. *)
Definition parseMibZip (data : list Z) : option (list WalkEntry + MibZipErr) :=
  match NewMibZipReader data with inr err => Some (inr err) | inl data => Expand data end.
