(* ===== verification/MibZipCodec.v ===== *)
(** * The compressed walk format: lengths and values

    Every number, length, OID and value the writer puts is what the reader
    gets, whatever follows. *)

From Stdlib Require Import Ascii.
From S2P Require Import Prelude.
From S2P Require Import Netip.
From S2P Require Import Bytes.
From S2P Require Import Safeconv.
From S2P Require Import Oid.
From S2P Require Import Decimal.
From S2P Require Import MibZip.

(** ** Numbers of several bytes *)

Definition bigBytes (n : nat) (x : Z) : list Z := bigEndian (Z.of_nat n) x.

Lemma bigBytes_S n x : bigBytes (S n) x = bigBytes n (Z.shiftr x 8) ++ [x mod 2 ^ 8].
Proof.
  unfold bigBytes, bigEndian. rewrite !Nat2Z.id. change (seq 0 (S n)) with (0%nat :: seq 1 n).
  rewrite <- seq_shift. cbn [rev]. rewrite map_app, <- map_rev, map_map. f_equal.
  - apply map_ext. intros i. rewrite Z.shiftr_shiftr by (unfold BitShiftByte; lia). do 2 f_equal.
    unfold BitShiftByte. lia.
  - cbn [map]. f_equal. unfold BitShiftByte. rewrite Z.mul_0_r, Z.shiftr_0_r.
    change BERFullByte with (Z.ones 8). by rewrite Z.land_ones.
Qed.

Lemma bigBytes_length n x : length (bigBytes n x) = n.
Proof. revert x. induction n as [|n IH]; intros x; [done|]. rewrite bigBytes_S, length_app, IH. simpl. lia. Qed.

Definition shiftIn (w : Z -> Z) (value b : Z) : Z := w (Z.lor (Z.shiftl value BitShiftByte) b).

Lemma bigBytes_range n x : Forall isByte (bigBytes n x).
Proof.
  revert x. induction n as [|n IH]; intros x; [constructor|]. rewrite bigBytes_S.
  apply Forall_app_2; [apply IH|]. apply Forall_singleton, isByte_mod.
Qed.

Lemma foldl_shiftIn w v bs :
  (forall a b, w (w a * 2 ^ 8 + b) = w (a * 2 ^ 8 + b)) -> w v = v -> Forall isByte bs ->
  foldl (shiftIn w) v bs = w (foldl (shiftIn id) v bs).
Proof.
  intros Hw Hv. induction bs as [|b bs IH] using rev_ind; intros Hb; [done|].
  apply Forall_app in Hb as [Hb Hlast]. rewrite Forall_singleton in Hlast. rewrite !foldl_app. cbn [foldl].
  rewrite (IH Hb). unfold shiftIn, BitShiftByte. rewrite !lor_shift by (exact Hlast || lia). apply Hw.
Qed.

(** Shifting the bytes of a number in gives the number. *)
Lemma foldl_bigBytes n x v : foldl (shiftIn id) v (bigBytes n x) = v * 2 ^ (8 * Z.of_nat n) + x mod 2 ^ (8 * Z.of_nat n).
Proof.
  revert x. induction n as [|n IH]; intros x; [simpl; rewrite Z.mod_1_r; lia|].
  rewrite bigBytes_S, foldl_app, IH. cbn [foldl]. unfold shiftIn, BitShiftByte, id.
  rewrite lor_shift by (try lia; apply isByte_mod). rewrite Z.shiftr_div_pow2 by lia.
  replace (8 * Z.of_nat (S n)) with (8 + 8 * Z.of_nat n) by lia. rewrite Z.pow_add_r by lia.
  rewrite (Z.rem_mul_r x (2 ^ 8)) by lia. lia.
Qed.

Lemma uint64_shift a b : uint64 (uint64 a * 2 ^ 8 + b) = uint64 (a * 2 ^ 8 + b).
Proof. unfold uint64. by rewrite <- Zplus_mod_idemp_l, Zmult_mod_idemp_l, Zplus_mod_idemp_l. Qed.

Lemma int64_shift a b : int64 (int64 a * 2 ^ 8 + b) = int64 (a * 2 ^ 8 + b).
Proof.
  unfold int64. f_equal.
  replace (((a + 2 ^ 63) mod 2 ^ 64 - 2 ^ 63) * 2 ^ 8 + b + 2 ^ 63)
    with ((a + 2 ^ 63) mod 2 ^ 64 * 2 ^ 8 + (b + 2 ^ 63 - 2 ^ 63 * 2 ^ 8)) by lia.
  rewrite <- Zplus_mod_idemp_l, Zmult_mod_idemp_l, Zplus_mod_idemp_l. f_equal. lia.
Qed.

(** ** How many bytes *)

Lemma sizeLoop_spec fuel tooBig tmp size k :
  (k <= fuel)%nat -> tooBig (Z.shiftr tmp (8 * Z.of_nat k)) = false ->
  exists n, (n <= k)%nat /\ sizeLoop fuel tooBig tmp size = size + Z.of_nat n /\
    tooBig (Z.shiftr tmp (8 * Z.of_nat n)) = false.
Proof.
  revert tmp size k. induction fuel as [|fuel IH]; intros tmp size k Hk Hb.
  - assert (k = O) as -> by lia. exists O. split_and!; [done|simpl; lia|done].
  - simpl. destruct (tooBig tmp) eqn:E; [|exists O; split_and!; [lia|lia|by rewrite Z.shiftr_0_r]].
    destruct k as [|k]; [by rewrite Z.shiftr_0_r, E in Hb|].
    assert (forall j, Z.shiftr (Z.shiftr tmp BitShiftByte) (8 * Z.of_nat j) = Z.shiftr tmp (8 * Z.of_nat (S j))) as Hsh.
    { intros j. rewrite Z.shiftr_shiftr by (unfold BitShiftByte; lia). f_equal. unfold BitShiftByte. lia. }
    destruct (IH (Z.shiftr tmp BitShiftByte) (size + 1) k ltac:(lia)) as (n & Hn & -> & Hf); [by rewrite Hsh|].
    exists (S n). split_and!; [lia|lia|by rewrite <- Hsh].
Qed.

Lemma sizeOf_spec tooBig x k :
  (k <= 7)%nat -> tooBig (Z.shiftr x (8 * Z.of_nat k)) = false ->
  exists n, (1 <= n <= S k)%nat /\ sizeOf tooBig x = Z.of_nat n /\ tooBig (Z.shiftr x (8 * Z.of_nat (pred n))) = false.
Proof.
  intros Hk Hb. destruct (sizeLoop_spec 8 tooBig x 1 k ltac:(lia) Hb) as (n & Hn & E & Hf).
  exists (S n). split_and!; [lia|lia|unfold sizeOf; rewrite E; lia|done].
Qed.

Lemma shiftr_bound x n m : 0 <= n -> 0 <= m -> Z.shiftr x n < 2 ^ m -> x < 2 ^ (n + m).
Proof.
  intros Hn Hm H. rewrite Z.shiftr_div_pow2 in H by lia. rewrite Z.pow_add_r by lia.
  pose proof (Z.pow_pos_nonneg 2 n ltac:(lia) Hn). pose proof (Z.div_mod x (2 ^ n)). pose proof (Z.mod_pos_bound x (2 ^ n)). nia.
Qed.

Lemma shiftr_below x n m : 0 <= n -> 0 <= m -> 0 <= x < 2 ^ (n + m) -> 0 <= Z.shiftr x n < 2 ^ m.
Proof.
  intros Hn Hm [H0 H]. rewrite Z.shiftr_div_pow2 by lia. rewrite Z.pow_add_r in H by lia.
  pose proof (Z.pow_pos_nonneg 2 n ltac:(lia) Hn). split; [apply Z.div_pos; lia|apply Z.div_lt_upper_bound; lia].
Qed.

(** ** Lengths *)

Lemma lengthLoop_bytes b v rest :
  Forall isByte b -> lengthLoop (length b) v (b ++ rest) = (foldl (shiftIn id) v b, rest).
Proof.
  revert v. induction b as [|x b IH]; intros v Hb; [done|]. apply Forall_cons in Hb as [_ Hb]. simpl. by rewrite IH.
Qed.

Lemma short_bits x : 0 <= x < 128 -> Z.land x BERHighBitMask = 0 /\ Z.land (Z.lor x BERHighBitMask) BERLowMask = x /\
  Z.land (Z.lor x BERHighBitMask) BERHighBitMask = 128 /\ Z.land x BERLowMask = x /\ isByte (Z.lor x BERHighBitMask).
Proof.
  intros H.
  assert (forallb (fun x => (Z.land x BERHighBitMask =? 0) && (Z.land (Z.lor x BERHighBitMask) BERLowMask =? x) &&
    (Z.land (Z.lor x BERHighBitMask) BERHighBitMask =? 128) && (Z.land x BERLowMask =? x)) (seqZ 0 128) = true) as Hf
    by (vm_compute; reflexivity).
  rewrite forallb_forall in Hf. specialize (Hf x).
  rewrite <- list_elem_of_In, elem_of_seqZ, !andb_true_iff, !Z.eqb_eq in Hf. destruct (Hf ltac:(lia)) as [[[? ?] ?] ?].
  split_and!; try done. apply isByte_lor; unfold isByte, BERHighBitMask; lia.
Qed.

Lemma Byte_small x : isByte x -> Byte x = x.
Proof.
  unfold isByte, Byte, uint8. intros H. destruct (Z.ltb_spec x 0); [lia|]. destruct (Z.ltb_spec MaxUint8 x); [unfold MaxUint8 in *; lia|].
  apply Z.mod_small. lia.
Qed.

(** Every length below 2^32 is read back. *)
Lemma getLength_put x rest : 0 <= x < 2 ^ 32 -> getLength (putLength x ++ rest) = inl (x, rest).
Proof.
  intros Hx. unfold putLength, BERLongFormIndicator. destruct (Z.ltb_spec x 128) as [Hs|Hl].
  - unfold getLength. cbn [app get8]. destruct (short_bits x ltac:(lia)) as (E & _). rewrite Byte_small by (unfold isByte; lia). by rewrite E.
  - destruct (sizeOf_spec (fun tmp => BERMaxShortLen + 128 <? tmp) x 3 ltac:(lia)) as (n & Hn & -> & Hf).
    { apply Z.ltb_ge. pose proof (shiftr_below x (8 * Z.of_nat 3) 8). unfold BERMaxShortLen. simpl in *. lia. }
    destruct (short_bits (Z.of_nat n) ltac:(lia)) as (_ & E1 & E2 & _ & Hr).
    unfold getLength. cbn [app get8]. rewrite Byte_small, E2, E1 by done. cbn [Z.eqb].
    destruct (Z.ltb_spec MaxBERLengthBytes (Z.of_nat n)); [unfold MaxBERLengthBytes in *; lia|].
    f_equal. change (bigEndian (Z.of_nat n) x) with (bigBytes n x). rewrite Nat2Z.id.
    rewrite <- (bigBytes_length n x) at 1. rewrite lengthLoop_bytes, foldl_bigBytes by apply bigBytes_range.
    f_equal. rewrite Z.mod_small; [lia|]. split; [lia|]. apply Z.ltb_ge in Hf.
    replace (8 * Z.of_nat n) with (8 * Z.of_nat (pred n) + 8) by lia. apply shiftr_bound; [lia|lia|]. unfold BERMaxShortLen in Hf. lia.
Qed.

Lemma getBytes_app b rest : getBytes (Z.of_nat (length b)) (b ++ rest) = (b, rest).
Proof. unfold getBytes. by rewrite Nat2Z.id, take_app_length, drop_app_length. Qed.

Lemma getLength_counted b rest :
  Z.of_nat (length b) < 2 ^ 32 -> getLength (counted b ++ rest) = inl (Z.of_nat (length b), b ++ rest).
Proof. intros H. unfold counted. rewrite <- app_assoc. apply getLength_put. lia. Qed.

(** ** Integers *)

(** A counted number of at most nine bytes. *)
Lemma getLength_bigBytes n x rest :
  (n <= 9)%nat -> getLength ((putLength (Z.of_nat n) ++ bigBytes n x) ++ rest) = inl (Z.of_nat n, bigBytes n x ++ rest).
Proof. intros H. rewrite <- app_assoc. apply getLength_put. lia. Qed.

Lemma getBytes_bigBytes n x rest : getBytes (Z.of_nat n) (bigBytes n x ++ rest) = (bigBytes n x, rest).
Proof. rewrite <- (bigBytes_length n x) at 1. apply getBytes_app. Qed.

Lemma encodeUnsigned_bytes x : 0 <= x < 2 ^ 64 ->
  exists n, (1 <= n <= 9)%nat /\ x < 2 ^ (8 * Z.of_nat n) /\ encodeUnsigned x = putLength (Z.of_nat n) ++ bigBytes n x.
Proof.
  intros Hx. unfold encodeUnsigned.
  destruct (sizeOf_spec (fun tmp => 255 <? tmp) x 7 ltac:(lia)) as (n & Hn & -> & Hf).
  { apply Z.ltb_ge. pose proof (shiftr_below x (8 * Z.of_nat 7) 8). simpl in *. lia. }
  assert (x < 2 ^ (8 * Z.of_nat n)) as Hb.
  { apply Z.ltb_ge in Hf. replace (8 * Z.of_nat n) with (8 * Z.of_nat (pred n) + 8) by lia. apply shiftr_bound; lia. }
  cbv zeta. destruct (BERMaxShortLen <? _).
  - exists (S n). split; [lia|]. split; [|unfold bigBytes; by rewrite Nat2Z.inj_succ].
    eapply Z.lt_le_trans; [exact Hb|]. apply Z.pow_le_mono_r; lia.
  - exists n. split; [lia|]. split; [exact Hb|reflexivity].
Qed.

Lemma decodeUnsigned_bigBytes n x : 0 <= x < 2 ^ 64 -> x < 2 ^ (8 * Z.of_nat n) -> decodeUnsigned (bigBytes n x) = x.
Proof.
  intros Hx Hn. unfold decodeUnsigned. change (foldl _ 0 ?b) with (foldl (shiftIn uint64) 0 b).
  rewrite foldl_shiftIn, foldl_bigBytes by (apply uint64_shift || apply bigBytes_range || done).
  rewrite Z.mod_small by lia. by rewrite uint64_id by lia.
Qed.

(** The sign of a number is the top bit of its first byte. *)
Lemma bigBytes_sign n x :
  - 2 ^ (8 * Z.of_nat n + 7) <= x < 2 ^ (8 * Z.of_nat n + 7) ->
  exists b rest, bigBytes (S n) x = b :: rest /\ (Z.land b BERHighBitMask =? 0) = (0 <=? x).
Proof.
  revert x. induction n as [|n IH]; intros x Hx.
  - exists (x mod 2 ^ 8), []. split; [by rewrite bigBytes_S|]. simpl in Hx.
    assert (forallb (fun x => Bool.eqb (Z.land (x mod 2 ^ 8) BERHighBitMask =? 0) (0 <=? x)) (seqZ (-128) 256) = true) as Hf
      by (vm_compute; reflexivity).
    rewrite forallb_forall in Hf. specialize (Hf x). rewrite <- list_elem_of_In, elem_of_seqZ in Hf.
    apply Bool.eqb_prop, Hf. lia.
  - destruct (IH (Z.shiftr x 8)) as (b & rest & E & Hs).
    { rewrite Z.shiftr_div_pow2 by lia. replace (8 * Z.of_nat (S n) + 7) with (8 * Z.of_nat n + 7 + 8) in Hx by lia.
      rewrite Z.pow_add_r in Hx by lia. pose proof (Z.div_mod x (2 ^ 8)). pose proof (Z.mod_pos_bound x (2 ^ 8)). lia. }
    exists b, (rest ++ [x mod 2 ^ 8]). rewrite bigBytes_S, E. split; [done|]. rewrite Hs.
    destruct (Z.leb_spec 0 x) as [H|H].
    + apply Z.leb_le. by apply Z.shiftr_nonneg.
    + apply Z.leb_gt. by apply Z.shiftr_neg.
Qed.

Lemma encodeInteger_bytes x : - 2 ^ 31 <= x < 2 ^ 31 ->
  exists n, (n <= 3)%nat /\ - 2 ^ (8 * Z.of_nat n + 7) <= x < 2 ^ (8 * Z.of_nat n + 7) /\
    encodeInteger x = putLength (Z.of_nat (S n)) ++ bigBytes (S n) x.
Proof.
  intros Hx. unfold encodeInteger, BERMaxShortLen.
  assert (forall k, Z.shiftr x (8 * Z.of_nat k) = x / 2 ^ (8 * Z.of_nat k)) as Hd by (intros; apply Z.shiftr_div_pow2; lia).
  destruct (Z.ltb_spec x 0) as [Hneg|Hpos].
  - destruct (sizeOf_spec (fun tmp => (tmp <? -128) || (127 <? tmp)) x 3 ltac:(lia)) as (n & Hn & -> & Hf).
    { rewrite Hd. change (8 * Z.of_nat 3) with 24. apply orb_false_iff. rewrite !Z.ltb_ge. pose proof (Z.div_mod x (2 ^ 24)). pose proof (Z.mod_pos_bound x (2 ^ 24)). lia. }
    exists (pred n). replace (S (pred n)) with n by lia. split; [lia|]. split; [|done].
    rewrite Hd in Hf. apply orb_false_iff in Hf. rewrite !Z.ltb_ge in Hf. rewrite Z.pow_add_r by lia.
    pose proof (Z.div_mod x (2 ^ (8 * Z.of_nat (pred n)))). pose proof (Z.mod_pos_bound x (2 ^ (8 * Z.of_nat (pred n)))). nia.
  - destruct (sizeOf_spec (fun tmp => 127 <? tmp) x 3 ltac:(lia)) as (n & Hn & -> & Hf).
    { rewrite Hd. change (8 * Z.of_nat 3) with 24. rewrite Z.ltb_ge. pose proof (Z.div_mod x (2 ^ 24)). pose proof (Z.mod_pos_bound x (2 ^ 24)). lia. }
    exists (pred n). replace (S (pred n)) with n by lia. split; [lia|]. split; [|done].
    rewrite Hd in Hf. rewrite Z.ltb_ge in Hf. rewrite Z.pow_add_r by lia.
    pose proof (Z.div_mod x (2 ^ (8 * Z.of_nat (pred n)))). pose proof (Z.mod_pos_bound x (2 ^ (8 * Z.of_nat (pred n)))). nia.
Qed.

Lemma decodeInteger_bigBytes n x :
  (n <= 3)%nat -> - 2 ^ (8 * Z.of_nat n + 7) <= x < 2 ^ (8 * Z.of_nat n + 7) -> decodeInteger (bigBytes (S n) x) = x.
Proof.
  intros Hn Hx. unfold decodeInteger. destruct (bigBytes_sign n x Hx) as (b & rest & E & Hs). rewrite E at 1. rewrite Hs.
  change (foldl _ ?v ?b) with (foldl (shiftIn int64) v b).
  assert (2 ^ (8 * Z.of_nat n + 7) <= 2 ^ 31) by (apply Z.pow_le_mono_r; lia).
  rewrite foldl_shiftIn, foldl_bigBytes by (apply int64_shift || apply bigBytes_range || by destruct (0 <=? x)).
  replace (8 * Z.of_nat (S n)) with (1 + (8 * Z.of_nat n + 7)) by lia. rewrite Z.pow_add_r by lia.
  destruct (Z.leb_spec 0 x).
  - rewrite Z.mod_small by lia. unfold int64. rewrite Z.mod_small by lia. lia.
  - rewrite <- (Z_mod_plus_full x 1), Z.mod_small by lia. unfold int64. rewrite Z.mod_small by lia. lia.
Qed.

(** ** OIDs *)

Definition subID32 (n : Z) : Prop := 0 <= n < 2 ^ 32.
#[export] Instance subID32_dec n : Decision (subID32 n).
Proof. unfold subID32. apply _. Defined.

Lemma splitDot_join (ids : list Z) :
  ids <> [] -> Forall (fun n => 0 <= n) ids -> splitDot (buildOIDString ids) = map pretty ids.
Proof.
  unfold buildOIDString. intros Hne Hp. destruct ids as [|n ids]; [done|]. clear Hne. revert n Hp.
  induction ids as [|m ids IH]; intros n [Hn Hp]%Forall_cons.
  - by apply splitDot_digits, pretty_digits.
  - change (joinDots (map pretty (n :: m :: ids))) with (pretty n +:+ String "."%char (joinDots (map pretty (m :: ids)))).
    rewrite splitDot_app, splitDot_digits by (by apply pretty_digits). by rewrite IH.
Qed.

Lemma trimDot_join ids : ids <> [] -> Forall (fun n => 0 <= n) ids -> trimDot (buildOIDString ids) = buildOIDString ids.
Proof.
  destruct ids as [|n [|m ids]]; [done|..]; intros _ [Hn _]%Forall_cons; unfold buildOIDString.
  - by apply pretty_trim.
  - apply (pretty_first n (String "."%char (joinDots (map pretty (m :: ids)))) Hn).
Qed.

(** What [buildOIDString] writes, [parseOIDToSubIDs] reads. *)
Lemma parse_build ids :
  ids <> [] -> Forall (fun n => 0 <= n < 2 ^ 63) ids -> parseOIDToSubIDs (buildOIDString ids) = ids.
Proof.
  intros Hne Hr. assert (Forall (fun n => 0 <= n) ids) as Hp by (eapply Forall_impl; [exact Hr|]; simpl; lia).
  unfold parseOIDToSubIDs. rewrite trimDot_join, splitDot_join, map_map by done.
  rewrite <- (map_id ids) at 2. apply map_ext_in. intros n Hn%list_elem_of_In. rewrite Forall_forall in Hr.
  unfold atoiValue. by rewrite Atoi_pretty by (by apply Hr).
Qed.

Lemma subIDs_small ids : Forall subID32 ids -> Forall (fun n => 0 <= n < 2 ^ 63) ids.
Proof. intros H. eapply Forall_impl; [exact H|]. unfold subID32. simpl. lia. Qed.

(** The groups of seven bits of a number, each with its high bit. *)
Fixpoint groups (fuel : nat) (x : Z) : list Z :=
  match fuel with
  | O => []
  | S fuel => if 0 <? x then groups fuel (Z.shiftr x 7) ++ [Z.lor (Z.land x BERLowMask) BERHighBitMask] else []
  end.

Lemma base128_groups fuel x encoded : base128 fuel x encoded = groups fuel x ++ encoded.
Proof.
  revert x encoded. induction fuel as [|fuel IH]; intros x encoded; simpl; [done|].
  destruct (0 <? x); [|done]. by rewrite IH, <- app_assoc.
Qed.

Lemma low_bits x : 0 <= Z.land x BERLowMask < 128.
Proof. change BERLowMask with (Z.ones 7). rewrite Z.land_ones by lia. apply Z.mod_pos_bound. lia. Qed.

Lemma shift_low x : 0 <= x -> Z.lor (Z.shiftl (Z.shiftr x 7) 7) (Z.land x BERLowMask) = x.
Proof.
  intros Hx. change BERLowMask with (Z.ones 7). rewrite lor_shift by (try rewrite Z.land_ones by lia; try apply Z.mod_pos_bound; lia).
  rewrite Z.land_ones, Z.shiftr_div_pow2 by lia. pose proof (Z.div_mod x (2 ^ 7)). lia.
Qed.


(** Groups with their high bit are read on into what follows. *)
Lemma decode_groups fuel x y rest :
  0 <= x < 2 ^ 63 -> x < 2 ^ (7 * Z.of_nat fuel) ->
  decodeSubIDs 0 (groups fuel x ++ y :: rest) = decodeSubIDs x (y :: rest).
Proof.
  revert x y rest. induction fuel as [|fuel IH]; intros x y rest Hx Hf; simpl groups.
  - simpl in Hf. by assert (x = 0) as -> by lia.
  - destruct (Z.ltb_spec 0 x) as [Hp|Hz]; [|by assert (x = 0) as -> by lia].
    assert (0 <= Z.shiftr x 7 /\ Z.shiftr x 7 <= x) as [Hs0 Hs1].
    { rewrite Z.shiftr_div_pow2 by lia. split; [apply Z.div_pos; lia|]. apply Z.div_le_upper_bound; lia. }
    rewrite <- app_assoc. cbn [app]. rewrite IH; [|lia|].
    + pose proof (low_bits x) as Hl. destruct (short_bits (Z.land x BERLowMask) Hl) as (_ & E1 & E2 & _).
      cbn [decodeSubIDs]. rewrite E1, E2. cbn [Z.eqb]. unfold OIDShiftBits. rewrite shift_low by lia.
      by rewrite (int64_id x) by lia.
    + pose proof (shiftr_below x 7 (7 * Z.of_nat fuel)) as H.
      replace (7 + 7 * Z.of_nat fuel) with (7 * Z.of_nat (S fuel)) in H by lia. lia.
Qed.

Lemma encodeSubID_groups x : 0 <= x < 2 ^ 63 ->
  encodeSubID x = groups 9 (Z.shiftr x 7) ++ [Z.land x BERLowMask].
Proof.
  intros Hx. unfold encodeSubID, OIDSubIDThreshold. destruct (Z.ltb_spec x 128) as [Hs|Hl].
  - assert (Z.shiftr x 7 = 0) as -> by (rewrite Z.shiftr_div_pow2 by lia; apply Z.div_small; lia).
    destruct (short_bits x ltac:(lia)) as (_ & _ & _ & E & _). rewrite E, Byte_small by (unfold isByte; lia). done.
  - rewrite base128_groups, app_nil_r.
    change (groups 9 x) with (if 0 <? x then groups 8 (Z.shiftr x 7) ++ [Z.lor (Z.land x BERLowMask) BERHighBitMask] else []).
    destruct (Z.ltb_spec 0 x); [|lia]. cbv zeta. rewrite length_app. cbn [length]. rewrite Nat.add_1_r. cbn [pred].
    replace (groups 9 (Z.shiftr x 7)) with (groups 8 (Z.shiftr x 7)).
    + rewrite alter_app_r_alt by lia. rewrite Nat.sub_diag. cbn. do 2 f_equal.
      by destruct (short_bits (Z.land x BERLowMask) (low_bits x)) as (_ & E & _).
    + assert (forall f y, 0 <= y < 2 ^ (7 * Z.of_nat f) -> groups f y = groups (S f) y) as Hg; [|apply (Hg 8%nat)].
      { induction f as [|f IH]; intros y Hy; [simpl in *; by destruct (Z.ltb_spec 0 y); [lia|]|].
        simpl. destruct (0 <? y); [|done]. f_equal. rewrite IH; [done|].
        apply shiftr_below; [lia|lia|]. replace (7 + 7 * Z.of_nat f) with (7 * Z.of_nat (S f)) by lia. exact Hy. }
      apply shiftr_below; [lia|lia|]. exact Hx.
Qed.

Lemma decode_encodeSubID x rest : 0 <= x < 2 ^ 63 -> decodeSubIDs 0 (encodeSubID x ++ rest) = x :: decodeSubIDs 0 rest.
Proof.
  intros Hx. assert (0 <= Z.shiftr x 7 /\ Z.shiftr x 7 <= x) as [Hs0 Hs1].
  { rewrite Z.shiftr_div_pow2 by lia. split; [apply Z.div_pos; lia|]. apply Z.div_le_upper_bound; lia. }
  rewrite encodeSubID_groups by done. rewrite <- app_assoc. cbn [app]. rewrite decode_groups.
  - destruct (short_bits (Z.land x BERLowMask) (low_bits x)) as (E1 & _ & _ & E2 & _).
    cbn [decodeSubIDs]. rewrite E1, E2. cbn [Z.eqb]. unfold OIDShiftBits. rewrite shift_low, int64_id by lia. done.
  - lia.
  - apply (Z.le_lt_trans _ x); [done|]. simpl. lia.
Qed.

(** An OID of two arcs or more, whose first two share a byte as BER asks. *)
Definition berOID (ids : list Z) : Prop :=
  match ids with
  | a :: b :: ids => 0 <= a <= 2 /\ 0 <= b < 40 /\ Forall subID32 ids
  | _ => False
  end.

Lemma decode_encodeOID ids : berOID ids -> decodeOID (encodeOID (buildOIDString ids)) = buildOIDString ids.
Proof.
  destruct ids as [|a [|b ids]]; try done. intros (Ha & Hb & Hids). apply subIDs_small in Hids as Hs.
  unfold encodeOID. rewrite parse_build; [|done|by constructor; [lia|constructor; [lia|]]].
  rewrite !int64_id, Byte_small by (unfold isByte; rewrite ?int64_id; lia). simpl.
  rewrite (Z.mul_comm 40), Z.div_add_l, Z.div_small, Z.add_0_r, Z.add_comm, Z_mod_plus_full, Z.mod_small by lia.
  do 3 f_equal. clear Ha Hb Hids. induction Hs as [|x l Hx _ IH]; [done|]. simpl. by rewrite decode_encodeSubID, IH.
Qed.

(** ** Values *)

(** The Go value of each width. *)
Definition wellTyped (v : Any) : Prop :=
  match v with
  | ANil | AString _ => True
  | ABytes b => Forall isByte b
  | AInt n | AInt64 n => - 2 ^ 63 <= n < 2 ^ 63
  | AInt32 n => - 2 ^ 31 <= n < 2 ^ 31
  | AUint n | AUint64 n => 0 <= n < 2 ^ 64
  | AUint32 n => 0 <= n < 2 ^ 32
  end.

(** What the format carries: a value that is no OID or address where its type
    says so, or a text of four gigabytes, is not one. *)
Definition carried (ty : Z) (v : Any) : Prop :=
  0 <= ty < 2 ^ 8 /\ wellTyped v /\
  match coding ty with
  | asOctets => match v with
                | AString s => Z.of_nat (length (bytesOf s)) < 2 ^ 32
                | ABytes b => Z.of_nat (length b) < 2 ^ 32
                | _ => True
                end
  | asOID => exists ids, v = AString (buildOIDString ids) /\ berOID ids /\
               Z.of_nat (length (encodeOID (buildOIDString ids))) < 2 ^ 32
  | asIPAddress => exists a b c d, v = AString (buildOIDString [a; b; c; d]) /\ Forall isByte [a; b; c; d]
  | asText => Z.of_nat (length (bytesOf (formatV v))) < 2 ^ 32
  | asUnknown => False
  | _ => True
  end.

(** The value read for a value written: the same, at the width of its type. *)
Definition readBack (ty : Z) (v : Any) : Any :=
  match coding ty with
  | asOctets => AString (match v with AString s => s | ABytes b => stringOf b | _ => "" end)
  | asInteger => AInt (match v with AInt n | AInt64 n => Int32 n | AInt32 n => n | _ => 0 end)
  | asUnsigned32 =>
      AUint32 (match v with AUint n | AUint64 n => Uint32FromUint64 n | AUint32 n => n | AInt n => Uint32 n | _ => 0 end)
  | asCounter64 => AUint64 (match v with AUint n | AUint64 n | AUint32 n => n | _ => 0 end)
  | asOID | asIPAddress => v
  | asNothing => ANil
  | asText | asUnknown => AString (formatV v)
  end.

Lemma Int32_range n : - 2 ^ 31 <= Int32 n < 2 ^ 31.
Proof.
  unfold Int32, int32, MinInt32, MaxInt32. destruct (Z.ltb_spec (2 ^ 31 - 1) n); [lia|].
  destruct (Z.ltb_spec n (- 2 ^ 31)); [lia|]. rewrite Z.mod_small by lia. lia.
Qed.

Lemma Uint32_range n : 0 <= Uint32 n < 2 ^ 32.
Proof.
  unfold Uint32, MaxUint32. destruct (_ <? 0); [lia|]. destruct (_ <? n); [lia|]. apply uint32_range.
Qed.

Lemma Uint32FromUint64_range n : 0 <= Uint32FromUint64 n < 2 ^ 32.
Proof. unfold Uint32FromUint64, MaxUint32. destruct (_ <? n); [lia|]. apply uint32_range. Qed.

Lemma Uint32FromUint64_id n : 0 <= n < 2 ^ 32 -> Uint32FromUint64 n = n.
Proof.
  intros H. unfold Uint32FromUint64, MaxUint32. destruct (Z.ltb_spec (2 ^ 32 - 1) n); [lia|]. by apply uint32_id.
Qed.

Lemma addressOctet_pretty n : isByte n -> addressOctet (pretty n) = n.
Proof.
  intros H. unfold isByte in H. unfold addressOctet, atoiValue. rewrite Atoi_pretty by lia. cbv zeta.
  destruct (Z.ltb_spec n 0); [lia|]. destruct (Z.ltb_spec MaxUint8 n); [unfold MaxUint8 in *; lia|]. by apply Byte_small.
Qed.

(** Reading the bytes a value was given, whatever follows them. *)
Definition readAs (c : Coding) (value : list Z) : Any :=
  match c with
  | asOctets | asText | asUnknown => AString (stringOf value)
  | asInteger => AInt (decodeInteger value)
  | asUnsigned32 => AUint32 (Uint32FromUint64 (decodeUnsigned value))
  | asCounter64 => AUint64 (decodeUnsigned value)
  | asOID => AString (decodeOID value)
  | asIPAddress => AString (decodeIPAddress value)
  | asNothing => ANil
  end.

Lemma decode_counted ty head body rest :
  0 <= ty < 2 ^ 8 -> getLength (head ++ body ++ rest) = inl (Z.of_nat (length body), body ++ rest) ->
  decodeASNValue (uint8 ty :: (head ++ body) ++ rest) = inl (ty, readAs (coding ty) body, rest).
Proof.
  intros Hty Hl. unfold decodeASNValue. cbn [get8]. rewrite <- app_assoc, Hl, getBytes_app.
  unfold uint8. by rewrite Z.mod_small by exact Hty.
Qed.

Lemma decode_unsigned ty n rest :
  0 <= ty < 2 ^ 8 -> 0 <= n < 2 ^ 64 ->
  exists body, decodeASNValue (uint8 ty :: encodeUnsigned n ++ rest) = inl (ty, readAs (coding ty) body, rest) /\
    decodeUnsigned body = n.
Proof.
  intros Hty Hn. destruct (encodeUnsigned_bytes n Hn) as (k & Hk & Hb & ->). exists (bigBytes k n). split.
  - apply decode_counted; [done|]. rewrite bigBytes_length. apply getLength_put. lia.
  - by apply decodeUnsigned_bigBytes.
Qed.

Lemma decode_integer ty n rest :
  0 <= ty < 2 ^ 8 -> - 2 ^ 31 <= n < 2 ^ 31 ->
  exists body, decodeASNValue (uint8 ty :: encodeInteger n ++ rest) = inl (ty, readAs (coding ty) body, rest) /\
    decodeInteger body = n.
Proof.
  intros Hty Hn. destruct (encodeInteger_bytes n Hn) as (k & Hk & Hb & ->). exists (bigBytes (S k) n). split.
  - apply decode_counted; [done|]. rewrite bigBytes_length. apply getLength_put. lia.
  - by apply decodeInteger_bigBytes.
Qed.

Lemma decode_text ty b rest :
  0 <= ty < 2 ^ 8 -> Z.of_nat (length b) < 2 ^ 32 ->
  decodeASNValue (uint8 ty :: counted b ++ rest) = inl (ty, readAs (coding ty) b, rest).
Proof. intros Hty Hb. apply decode_counted; [done|]. apply getLength_put. lia. Qed.

(** Every value carried is read back. *)
Lemma decode_value ty v rest :
  carried ty v -> decodeASNValue (encodeASNValue ty v ++ rest) = inl (ty, readBack ty v, rest).
Proof.
  intros (Hty & Hw & Hc). unfold encodeASNValue, readBack. cbn [app]. destruct (coding ty) eqn:Ec.
  - unfold encodeOctetStringValue. destruct v; try (rewrite decode_text by done; by rewrite Ec).
    rewrite decode_text, Ec by done. simpl. by rewrite stringOf_bytesOf.
  - unfold encodeIntegerValue. set (n := match v with AInt _ => _ | _ => _ end).
    destruct (decode_integer ty n rest Hty) as (body & -> & <-); [|by rewrite Ec].
    subst n. destruct v; try lia; try apply Int32_range. exact Hw.
  - unfold encodeUnsigned32Value. set (n := match v with AInt _ => _ | _ => _ end).
    assert (0 <= n < 2 ^ 32) as Hn
      by (subst n; destruct v; try lia; try apply Uint32_range; try apply Uint32FromUint64_range; exact Hw).
    destruct (decode_unsigned ty n rest Hty ltac:(lia)) as (body & -> & E). rewrite Ec. simpl.
    by rewrite E, Uint32FromUint64_id by done.
  - unfold encodeCounter64Value. set (n := match v with AUint _ => _ | _ => _ end).
    assert (0 <= n < 2 ^ 64) as Hn by (subst n; destruct v; simpl in Hw; lia).
    destruct (decode_unsigned ty n rest Hty Hn) as (body & -> & E). rewrite Ec. simpl. by rewrite E.
  - destruct Hc as (ids & -> & Hids & Hl). unfold encodeOIDValue. rewrite decode_text, Ec by done. simpl.
    by rewrite decode_encodeOID.
  - destruct Hc as (a & b & c & d & -> & Hb). unfold encodeIPAddressValue.
    rewrite splitDot_join; [|done|eapply Forall_impl; [exact Hb|]; unfold isByte; simpl; lia].
    assert (map addressOctet (map pretty [a; b; c; d]) = [a; b; c; d]) as ->.
    { rewrite !Forall_cons in Hb. destruct Hb as (? & ? & ? & ? & _). simpl. by rewrite !addressOctet_pretty. }
    rewrite decode_counted, Ec; [done|done|]. by apply getLength_put.
  - change (putLength 0) with (putLength (Z.of_nat (@length Z [])) ++ []).
    rewrite decode_counted, Ec; [done|done|]. by apply getLength_put.
  - rewrite decode_text, Ec by done. simpl. by rewrite stringOf_bytesOf.
  - done.
Qed.
