(* ===== verification/MibZipTheorems.v ===== *)
(** * The compressed walk format: what is written is read back *)

From Stdlib Require Import Ascii.
From S2P Require Import Prelude.
From S2P Require Import Netip.
From S2P Require Import Bytes.
From S2P Require Import Safeconv.
From S2P Require Import Oid.
From S2P Require Import Mib.
From S2P Require Import MibZip.
From S2P Require Import MibZipCodec.

(** ** Nodes and their leaves *)

Section node_ind.
Context (P : mibNode -> Prop).
Hypothesis H : forall leaf children, Forall (fun c => P c.2) children -> P (MibNode leaf children).

(** Induction on a node and all its children. *)
Fixpoint mibNode_children_ind (node : mibNode) : P node :=
  match node with
  | MibNode leaf children =>
      H leaf children ((fix go (l : list (Z * mibNode)) : Forall (fun c => P c.2) l :=
        match l with
        | [] => Forall_nil_2 _
        | c :: l => Forall_cons_2 _ c l (mibNode_children_ind c.2) (go l)
        end) children)
  end.
End node_ind.

Abbreviation Leaf := (list Z * (Z * Any))%type.

(** The paths of a node's leaves, child by child in key order. *)
Fixpoint leavesOf (node : mibNode) : list Leaf :=
  let 'MibNode _ children := node in
  concat (map snd (sortBy fst (map (fun '(k, child) =>
    (k, match child with
        | MibNode (Some leaf) _ => [([k], leaf)]
        | MibNode None _ => prod_map (cons k) id <$> leavesOf child
        end)) children))).

Definition leavesAt (c : Z * mibNode) : list Leaf :=
  match c.2 with
  | MibNode (Some leaf) _ => [([c.1], leaf)]
  | MibNode None _ => prod_map (cons c.1) id <$> leavesOf c.2
  end.

Definition writtenAt (c : Z * mibNode) : list Z :=
  match c.2 with
  | MibNode (Some (asnType, value)) _ => mibCmdLeaf :: putLength c.1 ++ encodeASNValue asnType value
  | MibNode None _ => mibCmdDown :: putLength c.1 ++ serializeNode c.2
  end.

(** Sorting what the children give is sorting the children. *)
Lemma sortBy_children {A} (f : Z * mibNode -> A) children :
  NoDup children.*1 ->
  map snd (sortBy fst (map (fun c => (c.1, f c)) children)) = map f (sortBy fst children).
Proof.
  intros Hnd. transitivity (map snd (map (fun c => (c.1, f c)) (sortBy fst children))); [|by rewrite map_map].
  f_equal. apply (sorted_unique fst).
  - rewrite sortBy_perm. by rewrite <- list_fmap_compose.
  - apply sortBy_sorted.
  - pose proof (sortBy_sorted fst children) as Hs. induction Hs as [|c l _ IH Hl]; simpl; constructor; [done|].
    apply Forall_map. eapply Forall_impl; [exact Hl|]. done.
  - rewrite sortBy_perm. change (map ?g ?l) with (g <$> l). by rewrite sortBy_perm.
Qed.

Lemma leavesOf_eq leaf children :
  NoDup children.*1 -> leavesOf (MibNode leaf children) = concat (map leavesAt (sortBy fst children)).
Proof.
  intros Hnd. rewrite <- sortBy_children by done. cbn [leavesOf]. do 3 f_equal. apply map_ext.
  by intros [k [[leaf'|] cs]].
Qed.

Lemma serializeNode_eq leaf children :
  NoDup children.*1 ->
  serializeNode (MibNode leaf children) = concat (map writtenAt (sortBy fst children)) ++ [mibCmdUp].
Proof.
  intros Hnd. rewrite <- sortBy_children by done. cbn [serializeNode]. do 4 f_equal. apply map_ext.
  by intros [k [[[ty v]|] cs]].
Qed.

(** ** What the reader can follow *)

(** A node of the tree below its root: all its children are leaves, or none is. *)
Inductive uniform : mibNode -> Prop :=
| uniform_leaves children :
    children <> [] -> NoDup children.*1 ->
    Forall (fun c => subID32 c.1 /\ exists ty v, c.2 = MibNode (Some (ty, v)) [] /\ carried ty v) children ->
    uniform (MibNode None children)
| uniform_inner children :
    children <> [] -> NoDup children.*1 ->
    Forall (fun c => subID32 c.1 /\ uniform c.2) children ->
    uniform (MibNode None children).

(** ** Reading *)

(** The reader with fuel for all it has left. *)
Definition expand (lastCmd : Z) (c : Cursor) (data : list Z) : option (list WalkEntry + MibZipErr) :=
  expandLoop (length data) lastCmd c data.

Lemma get8_length data : (length (get8 data).2 <= length data)%nat.
Proof. destruct data; simpl; lia. Qed.

Lemma lengthLoop_length n v data : (length (lengthLoop n v data).2 <= length data)%nat.
Proof.
  revert v data. induction n as [|n IH]; intros v data; [done|]. simpl. pose proof (get8_length data).
  destruct (get8 data) as [b rest]. simpl in *. specialize (IH (Z.lor (Z.shiftl v BitShiftByte) b) rest). lia.
Qed.

Lemma getLength_length data x rest : getLength data = inl (x, rest) -> (length rest <= length data)%nat.
Proof.
  unfold getLength. pose proof (get8_length data). destruct (get8 data) as [b d]. simpl in *.
  destruct (_ =? 0); [intros [= <- <-]; lia|]. destruct (_ <? _); [done|]. intros [= E].
  pose proof (lengthLoop_length (Z.to_nat (Z.land b BERLowMask)) 0 d). rewrite E in H0. simpl in *. lia.
Qed.

Lemma decodeASNValue_length data x rest : decodeASNValue data = inl (x, rest) -> (length rest <= length data)%nat.
Proof.
  unfold decodeASNValue. pose proof (get8_length data). destruct (get8 data) as [b d]. simpl in *.
  destruct (getLength d) as [[n d']|] eqn:E; [|done]. apply getLength_length in E. simpl.
  intros [= <- <-]. rewrite length_drop. lia.
Qed.

Lemma processCommand_length cmd last c data c' data' :
  processCommand cmd last c data = inl (c', data') -> (length data' <= length data)%nat.
Proof.
  unfold processCommand, handleDownCommand, handleLeafCommand. intros H.
  destruct (cmd =? mibCmdDown); [|destruct (cmd =? mibCmdLeaf); [|destruct (cmd =? mibCmdUp); [|done]]].
  - destruct (getLength data) as [[n d]|] eqn:E; [|done]. apply getLength_length in E. by injection H as <- <-.
  - destruct (getLength data) as [[n d]|] eqn:E; [|done]. apply getLength_length in E.
    destruct (decodeASNValue d) as [[[ty v] d']|] eqn:Ed; [|done]. apply decodeASNValue_length in Ed.
    injection H as <- <-. lia.
  - by injection H as <- <-.
Qed.

(** More fuel than bytes changes nothing. *)
Lemma expandLoop_fuel n fuel last c data :
  (length data <= n)%nat -> (length data <= fuel)%nat -> expandLoop fuel last c data = expandLoop n last c data.
Proof.
  revert fuel last c data. induction n as [|n IH]; intros fuel last c data Hn Hf.
  - destruct data; [by destruct fuel|simpl in Hn; lia].
  - destruct data as [|cmd data]; [by destruct fuel|]. destruct fuel as [|fuel]; [simpl in Hf; lia|]. simpl in *.
    destruct (processCommand cmd last c data) as [[c' data']|] eqn:E; [|done].
    apply processCommand_length in E. apply IH; lia.
Qed.

Lemma expand_step last c cmd data :
  expand last c (cmd :: data) =
  match processCommand cmd last c data with
  | inr err => Some (inr err)
  | inl (c, data) => expand cmd c data
  end.
Proof.
  unfold expand. simpl. destruct (processCommand cmd last c data) as [[c' data']|] eqn:E; [|done].
  apply processCommand_length in E. by apply expandLoop_fuel.
Qed.

(** Whatever the bytes are, the reader comes to an end. *)
Lemma expand_total last c data : is_Some (expand last c data).
Proof.
  remember (length data) as n eqn:En. revert last c data En.
  induction (lt_wf n) as [n _ IH]. intros last c [|cmd data] ->; [by eexists|]. rewrite expand_step.
  destruct (processCommand cmd last c data) as [[c' data']|] eqn:E; [|by eexists].
  apply processCommand_length in E. eapply IH; [|done]. simpl. lia.
Qed.

Definition entryAt (oid : list Z) (l : Leaf) : WalkEntry :=
  mkWalkEntry (buildOIDString (oid ++ l.1)) l.2.1 (readBack l.2.1 l.2.2).

Lemma pop_snoc oid k : pop (oid ++ [k]) = oid.
Proof. unfold pop. rewrite length_app. simpl. rewrite Nat.add_1_r. simpl. apply take_app_length. Qed.

(** The cursor between two children of the node at [oid]: on the node before
    the first, on the last child after. *)
Definition beside (skips : Z) (oid : list Z) (last : Z) (at_ : list Z) : Prop :=
  (last <> mibCmdUp /\ last <> mibCmdLeaf /\ at_ = oid) \/ (last = skips /\ exists k, at_ = oid ++ [k]).

Lemma beside_pop skips oid last at_ :
  beside skips oid last at_ -> skips = mibCmdUp \/ skips = mibCmdLeaf ->
  (if last =? skips then pop at_ else at_) = oid.
Proof.
  intros [(H1 & H2 & ->)|[-> [k ->]]] Hs.
  - destruct (Z.eqb_spec last skips) as [->|_]; [|done]. by destruct Hs.
  - by rewrite Z.eqb_refl, pop_snoc.
Qed.

Lemma read_leaf last at_ es k ty v rest oid :
  beside mibCmdLeaf oid last at_ -> subID32 k -> carried ty v ->
  expand last (mkCursor at_ es) ((mibCmdLeaf :: putLength k ++ encodeASNValue ty v) ++ rest) =
  expand mibCmdLeaf (mkCursor (oid ++ [k]) (es ++ [entryAt oid ([k], (ty, v))])) rest.
Proof.
  intros Hb Hk Hv. cbn [app]. rewrite expand_step, <- app_assoc. unfold processCommand. cbn [Z.eqb].
  unfold handleLeafCommand. cbn [mibCmdLeaf mibCmdDown Z.eqb Pos.eqb]. rewrite getLength_put by exact Hk. cbn [cuOID cuEntries].
  rewrite (beside_pop _ _ _ _ Hb) by auto. by rewrite decode_value.
Qed.

Lemma read_up last at_ es rest oid :
  (exists k, at_ = oid ++ [k]) -> oid <> [] ->
  expand last (mkCursor at_ es) (mibCmdUp :: rest) = expand mibCmdUp (mkCursor oid es) rest.
Proof.
  intros [k ->] Hne. rewrite expand_step. unfold processCommand, handleUpCommand. cbn [mibCmdLeaf mibCmdDown mibCmdUp Z.eqb Pos.eqb cuOID].
  rewrite bool_decide_eq_true_2; [by rewrite pop_snoc|]. rewrite length_app. destruct oid; [done|]. simpl. lia.
Qed.

Lemma read_leaves cs last at_ es rest oid :
  Forall (fun c => subID32 c.1 /\ exists ty v, c.2 = MibNode (Some (ty, v)) [] /\ carried ty v) cs ->
  beside mibCmdLeaf oid last at_ -> cs <> [] \/ (exists k, at_ = oid ++ [k]) -> oid <> [] ->
  expand last (mkCursor at_ es) (concat (map writtenAt cs) ++ mibCmdUp :: rest) =
  expand mibCmdUp (mkCursor oid (es ++ map (entryAt oid) (concat (map leavesAt cs)))) rest.
Proof.
  intros Hcs. revert last at_ es. induction Hcs as [|[k c] cs (Hk & ty & v & Ec & Hv) _ IH]; intros last at_ es Hb Hend Hne.
  - destruct Hend as [?|Hend]; [done|]. simpl. rewrite app_nil_r. by apply read_up.
  - simpl in Hk, Ec. subst c. cbn [map concat]. unfold writtenAt at 1. cbn [fst snd]. rewrite <- app_assoc.
    rewrite (read_leaf _ _ _ _ _ _ _ oid) by done. rewrite IH; [|right; split; [done|by eexists]|right; by eexists|done].
    by rewrite <- app_assoc.
Qed.

Lemma entryAt_below oid k (l : list Leaf) :
  map (entryAt (oid ++ [k])) l = map (entryAt oid) (prod_map (cons k) id <$> l).
Proof.
  change (prod_map (cons k) id <$> l) with (map (prod_map (cons k) id) l). rewrite map_map. apply map_ext.
  intros [q [ty v]]. unfold entryAt. simpl. by rewrite <- app_assoc.
Qed.

Lemma read_inner cs last at_ es rest oid :
  Forall (fun c => subID32 c.1 /\ uniform c.2) cs ->
  Forall (fun c => forall last es rest oid, uniform c.2 -> oid <> [] -> last <> mibCmdUp -> last <> mibCmdLeaf ->
    expand last (mkCursor oid es) (serializeNode c.2 ++ rest) =
    expand mibCmdUp (mkCursor oid (es ++ map (entryAt oid) (leavesOf c.2))) rest) cs ->
  beside mibCmdUp oid last at_ -> cs <> [] \/ (exists k, at_ = oid ++ [k]) -> oid <> [] ->
  expand last (mkCursor at_ es) (concat (map writtenAt cs) ++ mibCmdUp :: rest) =
  expand mibCmdUp (mkCursor oid (es ++ map (entryAt oid) (concat (map leavesAt cs)))) rest.
Proof.
  intros Hcs. revert last at_ es. induction Hcs as [|[k c] cs (Hk & Hu) _ IH]; intros last at_ es Hall Hb Hend Hne.
  - destruct Hend as [?|Hend]; [done|]. simpl. rewrite app_nil_r. by apply read_up.
  - apply Forall_cons in Hall as [Hc Hall]. simpl in Hk, Hu, Hc. cbn [map concat].
    assert (writtenAt (k, c) = mibCmdDown :: putLength k ++ serializeNode c /\
            leavesAt (k, c) = prod_map (cons k) id <$> leavesOf c) as [-> ->]
      by (destruct c as [[leaf|] children]; [by inversion Hu|by split]).
    cbn [app]. rewrite expand_step, <- !app_assoc. unfold processCommand, handleDownCommand. cbn [mibCmdDown Z.eqb Pos.eqb].
    rewrite getLength_put by exact Hk. cbn [cuOID cuEntries]. rewrite (beside_pop _ _ _ _ Hb) by auto.
    rewrite Hc by (done || by destruct oid). rewrite IH; [|done|right; split; [done|by eexists]|right; by eexists|done].
    by rewrite map_app, entryAt_below, <- app_assoc.
Qed.

(** A node is read back leaf by leaf, and the reader is left on it. *)
Lemma read_node node last es rest oid :
  uniform node -> oid <> [] -> last <> mibCmdUp -> last <> mibCmdLeaf ->
  expand last (mkCursor oid es) (serializeNode node ++ rest) =
  expand mibCmdUp (mkCursor oid (es ++ map (entryAt oid) (leavesOf node))) rest.
Proof.
  revert last es rest oid. induction node as [leaf children IH] using mibNode_children_ind.
  intros last es rest oid Hu Hne H1 H2.
  assert (beside mibCmdLeaf oid last oid /\ beside mibCmdUp oid last oid) as [Hbl Hbu] by (split; by left).
  inversion Hu as [cs Hcs Hnd Hall|cs Hcs Hnd Hall]; subst.
  all: rewrite serializeNode_eq, leavesOf_eq, <- app_assoc by done; cbn [app].
  all: assert (sortBy fst children <> []) as Hs
    by (intros E; apply Hcs, Permutation_nil_r; by rewrite <- E, sortBy_perm).
  - apply read_leaves; [by rewrite sortBy_perm|done|by left|done].
  - apply read_inner; [by rewrite sortBy_perm| |done|by left|done].
    rewrite sortBy_perm. eapply Forall_impl; [exact IH|]. simpl. intros c Hc last' es' rest' oid' Huc ? ? ?. by apply Hc.
Qed.

(** ** Building the tree *)

(** Leaves have no children, and every other node below the root has a leaf under it. *)
Inductive clean : mibNode -> Prop :=
| clean_node children :
    NoDup children.*1 ->
    Forall (fun c => (exists leaf, c.2 = MibNode (Some leaf) []) \/ (clean c.2 /\ leavesOf c.2 <> [])) children ->
    clean (MibNode None children).

Lemma childOf_none k children : childOf k children = None -> k ∉ children.*1.
Proof.
  induction children as [|[k' c] children IH]; simpl; [intros _ ?%elem_of_nil; done|].
  destruct (Z.eqb_spec k' k); [done|]. intros H [?|?]%elem_of_cons; [done|]. by apply IH.
Qed.

Lemma setChild_none k node children : childOf k children = None -> setChild k node children = children ++ [(k, node)].
Proof.
  induction children as [|[k' c] children IH]; simpl; [done|].
  destruct (k' =? k); [done|]. intros H. by rewrite IH.
Qed.

Lemma childOf_some k children c :
  childOf k children = Some c ->
  exists before after, children = before ++ (k, c) :: after /\
    forall node, setChild k node children = before ++ (k, node) :: after.
Proof.
  induction children as [|[k' c'] children IH]; simpl; [done|].
  destruct (Z.eqb_spec k' k) as [->|Hne].
  - intros [= ->]. by exists [], children.
  - intros (before & after & -> & Hset)%IH. exists ((k', c') :: before), after. split; [done|].
    intros node. by rewrite Hset.
Qed.

Lemma concat_map_perm {A B} (f : A -> list B) l1 l2 : l1 ≡ₚ l2 -> concat (map f l1) ≡ₚ concat (map f l2).
Proof.
  induction 1 as [|x l1 l2 _ IH|x y l|l1 l2 l3 _ IH1 _ IH2]; simpl; [done|by rewrite IH| |by etrans].
  by rewrite !app_assoc, (Permutation_app_comm (f x)).
Qed.

Lemma leavesOf_perm leaf children : NoDup children.*1 -> leavesOf (MibNode leaf children) ≡ₚ concat (map leavesAt children).
Proof. intros Hnd. rewrite leavesOf_eq by done. apply concat_map_perm, sortBy_perm. Qed.

Lemma leavesAt_child c l : clean c -> leavesAt (l, c) = prod_map (cons l) id <$> leavesOf c.
Proof. by intros []. Qed.

(** No leaf on the path or below it. *)
Definition free (path : list Z) (leaves : list Leaf) : Prop :=
  forall q, q ∈ leaves.*1 -> ~ q `prefix_of` path /\ ~ path `prefix_of` q.

#[export] Instance free_perm path : Proper ((≡ₚ) ==> iff) (free path).
Proof. intros l1 l2 Hp. unfold free. by setoid_rewrite Hp. Qed.

Lemma clean_empty : clean (MibNode None []).
Proof. constructor; constructor. Qed.

Lemma free_child path k c before after leaf :
  clean (MibNode None (before ++ (k, c) :: after)) -> free (k :: path) (leavesOf (MibNode leaf (before ++ (k, c) :: after))) ->
  path <> [] -> clean c /\ leavesOf c <> [] /\ free path (leavesOf c).
Proof.
  intros Hc Hf Hne. inversion Hc as [cs Hnd Hall]. subst. rewrite Forall_app, Forall_cons in Hall.
  destruct Hall as (_ & Hkc & _). simpl in Hkc.
  assert (forall q, q ∈ (leavesAt (k, c)).*1 -> ~ q `prefix_of` k :: path /\ ~ (k :: path) `prefix_of` q) as Hat.
  { intros q Hq. apply Hf. rewrite leavesOf_perm by done. rewrite map_app, concat_app, fmap_app. cbn [map concat].
    rewrite fmap_app. set_solver. }
  destruct Hkc as [[l ->]|[Hcc Hl]].
  - exfalso. destruct (Hat [k]) as [H _]; [left|]. apply H. by exists path.
  - split; [done|]. split; [done|]. intros q Hq. rewrite leavesAt_child in Hat by done.
    destruct (Hat (k :: q)) as [H1 H2].
    { apply list_elem_of_fmap in Hq as (x & -> & Hx). rewrite <- list_fmap_compose. apply list_elem_of_fmap. by exists x. }
    split; [intros H; apply H1; by apply prefix_cons|intros H; apply H2; by apply prefix_cons].
Qed.

Definition okChild (c : mibNode) : Prop := (exists leaf, c = MibNode (Some leaf) []) \/ (clean c /\ leavesOf c <> []).

(** A child set where there was none. *)
Lemma set_new k sub children :
  clean (MibNode None children) -> childOf k children = None -> okChild sub ->
  clean (MibNode None (setChild k sub children)) /\
  leavesOf (MibNode None (setChild k sub children)) ≡ₚ leavesAt (k, sub) ++ leavesOf (MibNode None children).
Proof.
  intros Hc Ek Hs. inversion Hc as [cs Hnd Hall]; subst. rewrite setChild_none by done. apply childOf_none in Ek.
  assert (NoDup (children ++ [(k, sub)]).*1) as Hnd'.
  { rewrite fmap_app. apply NoDup_app. split_and!; [done| |apply NoDup_singleton]. by intros x Hx ->%list_elem_of_singleton. }
  split; [constructor; [done|]; rewrite Forall_app, Forall_singleton; by auto|].
  rewrite !leavesOf_perm, map_app, concat_app by done. cbn [map concat]. by rewrite app_nil_r, Permutation_app_comm.
Qed.

(** A child replaced. *)
Lemma set_old k c sub x children :
  clean (MibNode None children) -> childOf k children = Some c -> okChild sub ->
  leavesAt (k, sub) ≡ₚ x :: leavesAt (k, c) ->
  clean (MibNode None (setChild k sub children)) /\
  leavesOf (MibNode None (setChild k sub children)) ≡ₚ x :: leavesOf (MibNode None children).
Proof.
  intros Hc Ek Hs Hat. inversion Hc as [cs Hnd Hall]; subst.
  apply childOf_some in Ek as (before & after & -> & Hset). rewrite Hset.
  rewrite Forall_app, Forall_cons in Hall. destruct Hall as (Hb & _ & Ha).
  assert (NoDup (before ++ (k, sub) :: after).*1) as Hnd' by (rewrite fmap_app in *; exact Hnd).
  split; [constructor; [done|]; rewrite Forall_app, Forall_cons; by auto|].
  rewrite !leavesOf_perm, !map_app, !concat_app by done. cbn [map concat]. rewrite Hat. cbn [app].
  symmetry. apply Permutation_middle.
Qed.

(** Below a free path of one arc there is no child. *)
Lemma free_last k children : clean (MibNode None children) -> free [k] (leavesOf (MibNode None children)) -> childOf k children = None.
Proof.
  intros Hc Hf. inversion Hc as [cs Hnd Hall]; subst. destruct (childOf k children) as [c|] eqn:Ek; [exfalso|done].
  apply childOf_some in Ek as (before & after & -> & _). rewrite Forall_app, Forall_cons in Hall.
  destruct Hall as (_ & Hkc & _). rewrite leavesOf_perm, map_app, concat_app in Hf by done.
  assert (exists q, q ∈ (leavesAt (k, c)).*1 /\ [k] `prefix_of` q) as (q & Hq & Hp).
  { destruct Hkc as [[l' Hl']|[Hcc Hl]]; simpl in *.
    - subst c. exists [k]. split; [left|done].
    - destruct (leavesOf c) as [|[q l'] ls] eqn:El; [done|]. exists (k :: q). split; [|by exists q].
      rewrite leavesAt_child, El by done. left. }
  destruct (Hf q) as [_ H]; [|done]. rewrite fmap_app. cbn [map concat]. rewrite fmap_app. set_solver.
Qed.

Lemma leaves_more (x : Leaf) l l' : l ≡ₚ x :: l' -> l <> [].
Proof. intros H ->. by apply Permutation_nil_cons in H. Qed.

(** A leaf at a free path is one leaf more. *)
Lemma addLeaf_leaves path l node :
  clean node -> path <> [] -> free path (leavesOf node) ->
  clean (addLeaf path l node) /\ leavesOf (addLeaf path l node) ≡ₚ (path, l) :: leavesOf node.
Proof.
  revert node. induction path as [|k path IH]; intros node Hc Hne Hf; [done|]. clear Hne.
  destruct Hc as [children Hnd Hall]. assert (clean (MibNode None children)) as Hc by by constructor. clear Hnd Hall.
  destruct path as [|k' path].
  - apply set_new; [done|by apply free_last|left; by eexists].
  - change (addLeaf (k :: k' :: path) l (MibNode None children)) with
      (MibNode None (setChild k (addLeaf (k' :: path) l (default (MibNode None []) (childOf k children))) children)).
    set (path' := k' :: path) in *. destruct (childOf k children) as [c|] eqn:Ek; cbn [default].
    + apply childOf_some in Ek as Hsplit. destruct Hsplit as (before & after & -> & _).
      destruct (free_child path' k c before after None) as (Hcc & Hl & Hfc); [done|done|done|].
      destruct (IH c Hcc ltac:(done) Hfc) as [Hclean Hperm]. apply (set_old k c); [done|done| |].
      * right. split; [done|]. by eapply leaves_more.
      * by rewrite !leavesAt_child, Hperm by done.
    + destruct (IH (MibNode None []) clean_empty ltac:(done)) as [Hclean Hperm]; [by intros q ?%elem_of_nil|].
      destruct (set_new k (addLeaf path' l (MibNode None [])) children) as [Hc' Hp]; [done|done| |].
      * right. split; [done|]. by eapply leaves_more.
      * split; [done|]. by rewrite Hp, leavesAt_child, Hperm.
Qed.

(** ** From OIDs to what the reader can follow *)

(** A leaf and an inner node are siblings. *)
Definition mixed (p q : list Z) : Prop := exists parent k k' x below, p = parent ++ [k] /\ q = parent ++ k' :: x :: below.

Lemma leavesAt_in children c l : NoDup children.*1 -> c ∈ children -> l ∈ leavesAt c -> l ∈ leavesOf (MibNode None children).
Proof.
  intros Hnd Hc Hl. rewrite leavesOf_perm by done. apply list_elem_of_In, in_concat. exists (leavesAt c).
  split; [by apply in_map, list_elem_of_In|by apply list_elem_of_In].
Qed.

Lemma leaves_path node l : clean node -> l ∈ leavesOf node -> l.1 <> [].
Proof.
  intros [children Hnd Hall]. rewrite leavesOf_perm by done.
  intros (ls & (c & <- & Hc)%in_map_iff & Hl)%list_elem_of_In%in_concat. apply list_elem_of_In in Hl.
  unfold leavesAt in Hl. destruct c as [k [[leaf|] cs]]; simpl in Hl.
  - by apply list_elem_of_singleton in Hl as ->.
  - by apply list_elem_of_fmap in Hl as (x & -> & _).
Qed.

Lemma mixed_below k p q : mixed p q -> mixed (k :: p) (k :: q).
Proof. intros (parent & k1 & k2 & x & below & -> & ->). by exists (k :: parent), k1, k2, x, below. Qed.

Lemma in_below k (x : Leaf) (l : list Leaf) : x ∈ l -> prod_map (cons k) id x ∈ (prod_map (cons k) id <$> l).
Proof. apply list_elem_of_fmap_2. Qed.

Definition readable (l : Leaf) : Prop := Forall subID32 l.1 /\ carried l.2.1 l.2.2.

Lemma child_leaves (c : Z * mibNode) : okChild c.2 ->
  exists l, l ∈ leavesAt c /\ l.1 <> [] /\ head l.1 = Some c.1 /\ (nodeLeaf c.2 = None -> 2 <= length l.1)%nat.
Proof.
  destruct c as [k c]. intros [[leaf Ec]|[Hc Hl]]; simpl in *.
  - exists ([k], leaf). subst c. by split; [left|].
  - destruct (leavesOf c) as [|x ls] eqn:E; [done|]. exists (prod_map (cons k) id x).
    rewrite leavesAt_child, E by done. split; [left|]. split; [by destruct x|]. split; [by destruct x|]. intros _.
    assert (x.1 <> []) as Hx by (apply (leaves_path c); [done|rewrite E; left]). destruct x as [[|y q] v]; [done|]. simpl. lia.
Qed.

Lemma clean_uniform node :
  clean node -> leavesOf node <> [] -> (forall a b, a ∈ leavesOf node -> b ∈ leavesOf node -> ~ mixed a.1 b.1) ->
  Forall readable (leavesOf node) -> uniform node.
Proof.
  induction node as [leaf children IH] using mibNode_children_ind. intros Hc Hne Hmix Hr.
  inversion Hc as [cs Hnd Hall]; subst. assert (children <> []) as Hcs by (by intros ->).
  rewrite ->Forall_forall in IH, Hall. unfold readable in Hr. rewrite Forall_forall in Hr.
  assert (forall c, c ∈ children -> subID32 c.1) as Hk.
  { intros c Hin. destruct (child_leaves c (Hall c Hin)) as (l & Hl & Hl0 & Hh & _).
    destruct (Hr l) as [Hsub _]; [by eapply leavesAt_in|]. destruct l as [[|y q] v]; [done|]. injection Hh as ->.
    by apply Forall_cons in Hsub as [? _]. }
  destruct (decide (Exists (fun c => is_Some (nodeLeaf c.2)) children)) as [(c0 & Hin0 & Hleaf0)%Exists_exists|Hinner].
  - apply uniform_leaves; [done|done|]. apply Forall_forall. intros [k c] Hin. split; [by apply (Hk (k, c))|]. simpl.
    destruct (Hall _ Hin) as [[[ty v] Ec]|Hclean]; simpl in *.
    + exists ty, v. split; [done|]. subst c. destruct (Hr ([k], (ty, v))) as [_ H]; [|done].
      eapply leavesAt_in; [done|exact Hin|left].
    + exfalso. destruct (child_leaves (k, c) (or_intror Hclean)) as (l & Hl & _ & Hh & Hlen).
      assert (exists leaf, c0.2 = MibNode (Some leaf) []) as [leaf0 E0].
      { destruct (Hall _ Hin0) as [?|[Hc0 _]]; [done|]. destruct Hc0. by destruct Hleaf0. }
      apply (Hmix ([c0.1], leaf0) l).
      * apply (leavesAt_in children c0); [done|done|]. unfold leavesAt. rewrite E0. left.
      * by apply (leavesAt_in children (k, c)).
      * assert (2 <= length l.1)%nat as H2.
        { apply Hlen. by destruct Hclean as [[] _]. }
        destruct l as [[|a [|b q]] v]; simpl in H2; [lia|lia|]. by exists [], c0.1, a, b, q.
  - assert (forall c, c ∈ children -> clean c.2 /\ leavesOf c.2 <> []) as Hin.
    { intros c Hc0. destruct (Hall c Hc0) as [[leaf E]|?]; [|done]. destruct Hinner. apply Exists_exists. exists c. by rewrite E. }
    apply uniform_inner; [done|done|]. apply Forall_forall. intros c Hc0. split; [by apply Hk|].
    destruct (Hin c Hc0) as [Hcc Hcl].
    assert (forall x, x ∈ leavesOf c.2 -> prod_map (cons c.1) id x ∈ leavesOf (MibNode None children)) as Hup.
    { intros x Hx. apply (leavesAt_in children c); [done|done|]. destruct c as [k c]. rewrite leavesAt_child by done. by apply in_below. }
    apply IH; [done|done|done| |].
    + intros a b Ha Hb Hm. eapply Hmix; [apply (Hup a Ha)|apply (Hup b Hb)|]. exact (mixed_below _ _ _ Hm).
    + apply Forall_forall. intros x Hx. destruct (Hr _ (Hup x Hx)) as [Hs Hcar]. simpl in *.
      apply Forall_cons in Hs as [_ Hs]. by split.
Qed.

(** ** The order of leaves *)

#[export, refine] Instance arcs_key : KeyOrder (list Z) := {| kle := arcsLe |}.
Proof. all: apply _. Defined.

Definition leafLe (a b : Leaf) : Prop := arcsLe a.1 b.1.

Lemma leavesAt_head c l : l ∈ leavesAt c -> exists q, l.1 = c.1 :: q.
Proof.
  destruct c as [k [[leaf|] cs]]; unfold leavesAt; simpl.
  - intros ->%list_elem_of_singleton. by exists [].
  - intros (x & -> & _)%list_elem_of_fmap. by exists x.1.
Qed.

Lemma arcsLe_cons k p q : arcsLe p q -> arcsLe (k :: p) (k :: q).
Proof. unfold arcsLe. simpl. by rewrite Z.ltb_irrefl. Qed.

Lemma arcsLe_head k k' p q : k < k' -> arcsLe (k :: p) (k' :: q).
Proof. intros H. unfold arcsLe. simpl. by rewrite (proj2 (Z.ltb_lt _ _) H). Qed.

Lemma sorted_below k l : StronglySorted leafLe l -> StronglySorted leafLe (prod_map (cons k) id <$> l).
Proof.
  induction 1 as [|x l _ IH Hx]; simpl; constructor; [done|]. apply Forall_fmap. eapply Forall_impl; [exact Hx|].
  intros y Hy. by apply arcsLe_cons.
Qed.

Lemma sorted_children cs :
  StronglySorted (key_le fst) cs -> NoDup cs.*1 -> Forall (fun c => StronglySorted leafLe (leavesAt c)) cs ->
  StronglySorted leafLe (concat (map leavesAt cs)).
Proof.
  induction 1 as [|c cs _ IH Hc]; [constructor|]. intros [Hnin Hnd]%NoDup_cons [Hs Hall]%Forall_cons. simpl.
  apply StronglySorted_app_2; [|done|by apply IH].
  intros a b Ha (ls & (c' & <- & Hc')%in_map_iff & Hb)%list_elem_of_In%in_concat.
  apply list_elem_of_In in Hc', Hb. destruct (leavesAt_head _ _ Ha) as [q Eq], (leavesAt_head _ _ Hb) as [q' Eq'].
  unfold leafLe. rewrite Eq, Eq'. apply arcsLe_head. rewrite Forall_forall in Hc. specialize (Hc c' Hc').
  unfold key_le in Hc. simpl in Hc. assert (c.1 <> c'.1); [|lia]. intros E. apply Hnin. rewrite E. by apply list_elem_of_fmap_2.
Qed.

Lemma leavesOf_sorted node : clean node -> StronglySorted leafLe (leavesOf node).
Proof.
  induction node as [leaf children IH] using mibNode_children_ind. intros Hc. inversion Hc as [cs Hnd Hall]; subst.
  rewrite leavesOf_eq by done. apply sorted_children; [apply sortBy_sorted|by rewrite sortBy_perm|]. rewrite sortBy_perm.
  apply Forall_forall. intros [k c] Hin. rewrite ->Forall_forall in IH, Hall. specialize (IH _ Hin).
  destruct (Hall _ Hin) as [[l E]|[Hcc _]]; simpl in *.
  - subst c. unfold leavesAt. simpl. repeat constructor.
  - rewrite leavesAt_child by done. by apply sorted_below, IH.
Qed.

(** ** The whole format *)

Definition pathOf (e : WalkEntry) : list Z := tail (parseOIDToSubIDs (weOID e)).
Definition leafOf (e : WalkEntry) : Leaf := (pathOf e, (weType e, weValue e)).

Lemma prefix_mixed p q : p `prefix_of` q -> p <> [] -> p <> q -> mixed p q.
Proof.
  intros [l ->] Hne Hpq. destruct l as [|x l]; [by rewrite app_nil_r in Hpq|].
  destruct p as [|k p _] using rev_ind; [done|]. exists p, k, k, x, l. split; [done|]. by rewrite <- app_assoc.
Qed.

(** The tree holds the entries, as long as no path leads through another's leaf. *)
Lemma tree_leaves s :
  Forall (fun e => pathOf e <> []) s -> NoDup (pathOf <$> s) ->
  (forall a b, a ∈ s -> b ∈ s -> ~ mixed (pathOf a) (pathOf b)) ->
  clean (foldl addEntry (MibNode None []) s) /\ leavesOf (foldl addEntry (MibNode None []) s) ≡ₚ map leafOf s.
Proof.
  induction s as [|e s IH] using rev_ind; intros Hne Hnd Hmix; [by split; [apply clean_empty|]|].
  apply Forall_app in Hne as [Hne He]. rewrite Forall_singleton in He. rewrite fmap_app in Hnd.
  apply NoDup_app in Hnd as (Hnd & Hfresh & _). rewrite foldl_app. cbn [foldl].
  destruct IH as [Hc Hp]; [done|done|intros a b Ha Hb; apply Hmix; set_solver|].
  unfold addEntry at 1 3. unfold pathOf in He. rewrite bool_decide_eq_false_2.
  2: { destruct (parseOIDToSubIDs (weOID e)) as [|x [|]]; try done. simpl. unfold OIDPartsMinPDU. lia. }
  fold (pathOf e). destruct (addLeaf_leaves (pathOf e) (weType e, weValue e) _ Hc He) as [Hc' Hp'].
  - rewrite Hp. intros q (l & -> & Hl)%list_elem_of_fmap. apply list_elem_of_In, in_map_iff in Hl as (e' & <- & Hin).
    apply list_elem_of_In in Hin. simpl.
    assert (pathOf e' <> pathOf e) as Hneq.
    { intros E. apply (Hfresh (pathOf e')); [by apply list_elem_of_fmap_2|]. rewrite E. left. }
    rewrite Forall_forall in Hne.
    split; intros Hpre; apply prefix_mixed in Hpre; try done; try (by apply Hne); revert Hpre; apply Hmix; set_solver.
  - split; [done|]. rewrite Hp', Hp, map_app. cbn [map]. by rewrite Permutation_app_comm.
Qed.

(** An entry of a walk under iso(1), as the walk files have them. *)
Definition wellFormed (e : WalkEntry) : Prop :=
  (exists path, path <> [] /\ Forall subID32 path /\ weOID e = buildOIDString (1 :: path)) /\
  carried (weType e) (weValue e).

Lemma wellFormed_path e :
  wellFormed e -> parseOIDToSubIDs (weOID e) = 1 :: pathOf e /\ pathOf e <> [] /\ weOID e = buildOIDString (1 :: pathOf e) /\
  readable (leafOf e).
Proof.
  intros [(path & Hne & Hs & E) Hc].
  assert (parseOIDToSubIDs (weOID e) = 1 :: path) as Hp
    by (rewrite E; apply parse_build; [done|]; constructor; [lia|by apply subIDs_small]).
  assert (pathOf e = path) as Hpath by (unfold pathOf; by rewrite Hp).
  unfold readable, leafOf. simpl. by rewrite Hpath.
Qed.

Definition readEntry (e : WalkEntry) : WalkEntry := mkWalkEntry (weOID e) (weType e) (readBack (weType e) (weValue e)).

(** No leaf is the sibling of an inner node. *)
Definition separated (entries : list WalkEntry) : Prop :=
  forall e e', e ∈ entries -> e' ∈ entries -> ~ mixed (pathOf e) (pathOf e').

Lemma sorted_leaves l :
  Forall wellFormed l -> StronglySorted (fun a b => CompareOIDs (weOID b) (weOID a) <> Lt) l ->
  StronglySorted (key_le fst) (map leafOf l).
Proof.
  intros Hwf Hs. induction Hs as [|a l _ IH Ha]; simpl; [constructor|]. apply Forall_cons in Hwf as [Hwa Hwf].
  constructor; [by apply IH|]. apply Forall_map, Forall_forall. intros b Hb.
  rewrite ->Forall_forall in Ha, Hwf. specialize (Ha b Hb).
  destruct (wellFormed_path a Hwa) as (Ea & _), (wellFormed_path b (Hwf b Hb)) as (Eb & _).
  unfold CompareOIDs in Ha. rewrite Ea, Eb in Ha. simpl in Ha. unfold key_le. cbn [kle arcs_key leafOf fst].
  unfold arcsLe. rewrite compare_opp. intros E. apply Ha. by destruct (compareOIDParts (pathOf b) (pathOf a)).
Qed.

Section sorted.
Context (sortSlice : list WalkEntry -> list WalkEntry).
Hypothesis sortSlice_perm : forall l, sortSlice l ≡ₚ l.
Hypothesis sortSlice_sorted : forall l,
  StronglySorted (fun a b => CompareOIDs (weOID b) (weOID a) <> Lt) (sortSlice l).

(** The leaves of the tree, in its own order, are the entries in theirs. *)
Lemma leaves_in_order entries :
  Forall wellFormed entries -> NoDup (weOID <$> entries) -> separated entries ->
  let tree := foldl addEntry (MibNode None []) (sortSlice entries) in
  clean tree /\ leavesOf tree = map leafOf (sortSlice entries).
Proof.
  intros Hwf Hnd Hsep. assert (Forall wellFormed (sortSlice entries)) as Hwf' by by rewrite sortSlice_perm.
  rewrite ->Forall_forall in Hwf'. cbv zeta.
  assert (NoDup (pathOf <$> sortSlice entries)) as Hnd'.
  { rewrite sortSlice_perm. apply (NoDup_fmap_1 (fun p => buildOIDString (1 :: p))). rewrite <- list_fmap_compose.
    erewrite list_fmap_ext; [exact Hnd|]. intros i e Hi. simpl. rewrite ->Forall_forall in Hwf.
    destruct (wellFormed_path e) as (_ & _ & -> & _); [|done]. apply Hwf. by eapply list_elem_of_lookup_2. }
  destruct (tree_leaves (sortSlice entries)) as [Hc Hp]; [|done| |].
  - apply Forall_forall. intros e He. apply wellFormed_path. by apply Hwf'.
  - intros a b Ha Hb. apply Hsep; by rewrite <- sortSlice_perm.
  - split; [done|]. apply (sorted_unique fst).
    + rewrite Hp. change (map leafOf ?l) with (leafOf <$> l). rewrite <- list_fmap_compose. exact Hnd'.
    + by apply leavesOf_sorted.
    + apply sorted_leaves; [by apply Forall_forall|apply sortSlice_sorted].
    + done.
Qed.

End sorted.

(** Whatever bytes a file holds, the reader comes to an end, with entries
    or with an error. *)
Theorem mibzip_reader_total data : is_Some (parseMibZip data).
Proof.
  unfold parseMibZip, Expand. destruct (NewMibZipReader data) as [rest|err]; [|by eexists].
  destruct (readInitialDownCommand rest) as [rest'|err]; [|by eexists]. apply expand_total.
Qed.

(** ** Examples *)

Definition byArcs (a b : WalkEntry) : Prop := arcsLe (parseOIDToSubIDs (weOID a)) (parseOIDToSubIDs (weOID b)).
#[export] Instance byArcs_dec : RelDecision byArcs.
Proof. intros a b. unfold byArcs. apply _. Defined.
#[export] Instance byArcs_total : Total byArcs.
Proof. intros a b. unfold byArcs. apply (total arcsLe). Qed.
#[export] Instance byArcs_trans : Transitive byArcs.
Proof. intros a b c. unfold byArcs. by etrans. Qed.

Definition testSort : list WalkEntry -> list WalkEntry := merge_sort byArcs.

Lemma testSort_sorted l : StronglySorted (fun a b => CompareOIDs (weOID b) (weOID a) <> Lt) (testSort l).
Proof.
  assert (StronglySorted byArcs (testSort l)) as Hs by apply (StronglySorted_merge_sort _).
  induction Hs as [|a l' _ IH Ha]; constructor; [done|]. eapply Forall_impl; [exact Ha|]. intros b. simpl.
  unfold byArcs, arcsLe, CompareOIDs. rewrite compare_opp. by destruct (compareOIDParts _ _).
Qed.

(** The walk of the writer's tests, with an address table. *)
Definition testWalk : list WalkEntry :=
  [mkWalkEntry "1.3.6.1.2.1.4.20.1.1.10.0.0.1" gosnmp.IPAddress (AString "10.0.0.1");
   mkWalkEntry "1.3.6.1.2.1.1.1.0" gosnmp.OctetString (AString "Linux router");
   mkWalkEntry "1.3.6.1.2.1.1.2.0" gosnmp.ObjectIdentifier (AString "1.3.6.1.4.1.8072.3.2.10");
   mkWalkEntry "1.3.6.1.2.1.1.3.0" gosnmp.TimeTicks (AUint32 12345678);
   mkWalkEntry "1.3.6.1.2.1.2.2.1.1.2" gosnmp.Integer (AInt (-100));
   mkWalkEntry "1.3.6.1.2.1.2.2.1.11.1" gosnmp.Counter64 (AUint64 9876543210123)].

(** A leaf beside an inner node puts what follows it in the wrong place, and an
    OID that continues another is lost. *)
Example mixed_lost :
  let leaf oid n := mkWalkEntry oid gosnmp.Integer (AInt n) in
  parseMibZip (Compress testSort [leaf "1.3.1" 7; leaf "1.3.2.1" 8]%string) = Some (inl [leaf "1.3.1" 7; leaf "1.3.1.2.1" 8]%string) /\
  parseMibZip (Compress testSort [leaf "1.3.1.5" 7; leaf "1.3.2" 8]%string) = Some (inl [leaf "1.3.1.5" 7; leaf "1.3.1.2" 8]%string) /\
  parseMibZip (Compress testSort [leaf "1.3.1" 7; leaf "1.3.1.2" 8]%string) = Some (inl [leaf "1.3.1" 7]%string).
Proof. split_and!; vm_compute; reflexivity. Qed.

(** An address that is not written as four numbers takes the next entry's bytes for its own. *)
Example address_desynchronised :
  parseMibZip (Compress testSort
    [mkWalkEntry "1.3.1" gosnmp.IPAddress (AString ""); mkWalkEntry "1.3.2" gosnmp.Integer (AInt 5)])
  = Some (inl [mkWalkEntry "1.3.1" gosnmp.IPAddress (AString "0.2.2.2")]).
Proof. vm_compute. reflexivity. Qed.

Definition mixedb (p q : list Z) : bool :=
  bool_decide (0 < length p < length q)%nat && bool_decide (pop p = take (pred (length p)) q).

Lemma mixedb_spec p q : mixed p q -> mixedb p q = true.
Proof.
  intros (parent & k & k' & x & below & -> & ->). unfold mixedb. rewrite pop_snoc, !length_app. simpl.
  rewrite Nat.add_1_r. simpl. rewrite take_app_length, !bool_decide_eq_true_2 by (done || lia). done.
Qed.

Lemma testWalk_ok : Forall wellFormed testWalk /\ NoDup (weOID <$> testWalk) /\ separated testWalk.
Proof.
  split; [|split].
  - assert (forall e, pathOf e <> [] -> forallb (fun n => (0 <=? n) && (n <? 2 ^ 32)) (pathOf e) = true ->
      weOID e = buildOIDString (1 :: pathOf e) -> carried (weType e) (weValue e) -> wellFormed e) as Hw.
    { intros e Hne Hs E Hc. split; [|done]. exists (pathOf e). split; [done|]. split; [|done].
      apply Forall_forall. intros n Hn%list_elem_of_In. rewrite forallb_forall in Hs. apply Hs in Hn.
      apply andb_true_iff in Hn as [?%Z.leb_le ?%Z.ltb_lt]. done. }
    repeat (apply Forall_cons; split); [..|constructor].
    all: apply Hw; [vm_compute; discriminate|vm_compute; reflexivity|vm_compute; reflexivity|].
    all: split; [vm_compute; by split|split; [vm_compute; by repeat split|]].
    + exists 10, 0, 0, 1. split; [reflexivity|]. unfold isByte. repeat constructor; lia.
    + simpl. lia.
    + exists [1; 3; 6; 1; 4; 1; 8072; 3; 2; 10]. split; [vm_compute; reflexivity|].
      split; [|vm_compute; reflexivity]. split; [lia|]. split; [lia|]. unfold subID32. repeat constructor; lia.
    + exact I.
    + exact I.
    + exact I.
  - apply (bool_decide_unpack _). vm_compute. exact I.
  - assert (forallb (fun e => forallb (fun e' => negb (mixedb (pathOf e) (pathOf e'))) testWalk) testWalk = true) as Hf
      by (vm_compute; reflexivity).
    intros e e' He%list_elem_of_In He'%list_elem_of_In Hm%mixedb_spec.
    rewrite forallb_forall in Hf. specialize (Hf e He). rewrite forallb_forall in Hf. specialize (Hf e' He').
    by rewrite Hm in Hf.
Qed.

