(* ===== verification/Streams.v ===== *)
(** * Byte-stream services over TCP

    [protocols/tcp_stream.go] and [protocols/tcp_stateless.go]: the inbound
    side of the connections of a service that answers a byte stream, and the
    segments its answers go out in.  A service's [streamAnswer] is an
    interface, the class [StreamAnswer]: the services discharge it and the
    connection table relies on it.

    The connection table against its abstract specification: a connection is
    a growing prefix of the bytes its client sends, answered once. *)

From S2P Require Import Prelude.
From S2P Require Import Netip.
From S2P Require Import DeviceTypes.
From S2P Require Import Safeconv.
From S2P Require Import Bytes.

(** ** Data *)

Definition streamMaxConnections : nat := 256.

(** [netip.AddrPort] *)
Record AddrPort := mkAddrPort { apAddr : Addr; apPort : Z }.

Record streamKey := mkStreamKey { skClient : AddrPort; skServer : AddrPort }.

Record serviceStream := mkStream {
  ssNext : Z;
  ssGreeted : bool;
  ssPending : list Z;
  ssLastSeen : Time
}.
#[export] Instance serviceStream_rebuild : Rebuild serviceStream := fun s =>
  mkStream (ssNext s) (ssGreeted s) (ssPending s) (ssLastSeen s).

#[export] Instance Addr_countable : Countable Addr.
Proof.
  apply (inj_countable'
    (fun a => match a with AddrZero => inl tt | Addr4 b => inr (inl b) | Addr6 b z => inr (inr (b, z)) end)
    (fun x => match x with inl tt => AddrZero | inr (inl b) => Addr4 b | inr (inr (b, z)) => Addr6 b z end)).
  by intros [].
Defined.

#[export] Instance AddrPort_eq_dec : EqDecision AddrPort.
Proof. solve_decision. Defined.
#[export] Instance AddrPort_countable : Countable AddrPort.
Proof. by apply (inj_countable' (fun a => (apAddr a, apPort a)) (fun '(a, p) => mkAddrPort a p)); intros []. Defined.
#[export] Instance streamKey_eq_dec : EqDecision streamKey.
Proof. solve_decision. Defined.
#[export] Instance streamKey_countable : Countable streamKey.
Proof. by apply (inj_countable' (fun a => (skClient a, skServer a)) (fun '(a, p) => mkStreamKey a p)); intros []. Defined.

Abbreviation serviceStreams := (gmap streamKey serviceStream).

(** A map's iteration order, which Go leaves open. *)
Definition visitOrder : Type := list (streamKey * serviceStream) -> list (streamKey * serviceStream).

(** The fields of gopacket's IPv4 and TCP layers that the code reads or sets. *)
Record IPv4 := mkIPv4 { ipSrc : list Z; ipDst : list Z }.

Record TCP := mkTCP {
  tcpSrcPort : Z; tcpDstPort : Z; tcpSeq : Z; tcpAck : Z;
  tcpSYN : bool; tcpACK : bool; tcpFIN : bool; tcpRST : bool; tcpPSH : bool;
  tcpPayload : list Z
}.

(** What a service reads of a stream: the answer to the complete requests in
    front, the bytes they took, whether the conversation is over. *)
Definition streamAnswer : Type := list Z -> list Z * nat * bool.

(** ** The connection table *)

Definition newServiceStreams : serviceStreams := ∅.

Definition newStreamKey (ip : IPv4) (tcp : TCP) : streamKey :=
  let client := AddrFromSlice (To4 (ipSrc ip)) in
  let server := AddrFromSlice (To4 (ipDst ip)) in
  mkStreamKey (mkAddrPort client (tcpSrcPort tcp)) (mkAddrPort server (tcpDstPort tcp)).

Definition streamKeyZero : streamKey := mkStreamKey (mkAddrPort AddrZero 0) (mkAddrPort AddrZero 0).

(** The body of the eviction scan. *)
Definition older (best : streamKey * Time) (entry : streamKey * serviceStream) : streamKey * Time :=
  let '(oldest, oldestSeen) := best in
  let '(key, stream) := entry in
  if IsZero oldestSeen || (ssLastSeen stream <? oldestSeen) then (key, ssLastSeen stream) else best.

Definition evictOldestLocked (visit : visitOrder) (s : serviceStreams) : serviceStreams :=
  delete (foldl older (streamKeyZero, zeroTime) (visit (map_to_list s))).1 s.

Definition open (now : Time) (visit : visitOrder) (key : streamKey) (next : Z) (s : serviceStreams)
    : serviceStreams :=
  let known := bool_decide (is_Some (s !! key)) in
  let s := if negb known && bool_decide (streamMaxConnections <= size s)%nat
           then evictOldestLocked visit s else s in
  <[key := mkStream next false [] now]> s.

Definition greet (key : streamKey) (s : serviceStreams) : bool * serviceStreams :=
  match s !! key with
  | None => (false, s)
  | Some stream =>
      if ssGreeted stream then (false, s) else (true, <[key := stream <| ssGreeted := true |>]> s)
  end.

Definition close (key : streamKey) (s : serviceStreams) : serviceStreams := delete key s.

(** The connection a segment belongs to: one never seen open starts at the
    segment, already greeted. *)
Definition trackedStream (visit : visitOrder) (key : streamKey) (seq : Z) (s : serviceStreams)
    : serviceStream * serviceStreams :=
  match s !! key with
  | Some stream => (stream, s)
  | None =>
      let s := if bool_decide (streamMaxConnections <= size s)%nat then evictOldestLocked visit s else s in
      let stream := mkStream seq true [] zeroTime in
      (stream, <[key := stream]> s)
  end.

(** The reply, whether the segment is in order (or a repeat), and the table. *)
Definition receive (now : Time) (visit : visitOrder) (key : streamKey) (seq : Z) (payload : list Z)
    (answer : streamAnswer) (s : serviceStreams) : list Z * bool * serviceStreams :=
  let '(stream, s) := trackedStream visit key seq s in
  let size := Uint32 (Z.of_nat (length payload)) in
  if seq =? ssNext stream then
    let stream := stream <| ssLastSeen := now |>
                         <| ssNext := uint32 (ssNext stream + size) |>
                         <| ssPending := ssPending stream ++ payload |> in
    let '(reply, consumed, ended) := answer (ssPending stream) in
    if ended then (reply, true, delete key s)
    else (reply, true, <[key := stream <| ssPending := drop consumed (ssPending stream) |>]> s)
  else if uint32 (seq + size) =? ssNext stream then ([], true, s)
  else ([], false, s).

(** ** Segments *)

Definition maxUint32Payload : Z := 0xFFFFFFFF.
Definition statelessMaxSegment : nat := 1460.

(** One outgoing segment: [layers.TCP] and its payload, without the window and
    the checksum that serialization fills. *)
Definition replySegment (tcp : TCP) (seq consumed : Z) (chunk rest : list Z) : TCP :=
  mkTCP (tcpDstPort tcp) (tcpSrcPort tcp) seq (uint32 (tcpSeq tcp + consumed))
    false true (tcpFIN tcp && bool_decide (length rest = O)) false (bool_decide (0 < length chunk)%nat) chunk.

(** The loop over an answer's segments; [send] is [sendStatelessFrame], whose
    failure ends it.  Each turn but the last takes a byte, so one more turn
    than bytes is enough. *)
Fixpoint sendLoop (fuel : nat) (send : TCP -> bool) (tcp : TCP) (seq consumed : Z) (answer : list Z)
    : list TCP :=
  match fuel with
  | O => []
  | S fuel =>
      let chunk := take (length answer `min` statelessMaxSegment) answer in
      let answer := drop (length chunk) answer in
      let segment := replySegment tcp seq consumed chunk answer in
      if negb (send segment) || bool_decide (length answer = O) then [segment]
      else segment :: sendLoop fuel send tcp (uint32 (seq + Uint32 (Z.of_nat (length chunk)))) consumed answer
  end.

(** [send] is [None] when the reply has no Ethernet identity to leave with. *)
Definition sendStatelessSegment (send : option (TCP -> bool)) (tcp : TCP) (answer : list Z) : list TCP :=
  match send with
  | None => []
  | Some send =>
  let consumed := Uint32 (Z.min (Z.of_nat (length (tcpPayload tcp))) maxUint32Payload) in
  let consumed := if tcpFIN tcp then uint32 (consumed + 1) else consumed in
  sendLoop (S (length answer)) send tcp (tcpAck tcp) consumed answer
  end.

(** What a service does with one segment: the segments it answers with and
    whether it resets or reports a connection. *)
Inductive ServeAction := SendRST | TCPConnect | Reply (segments : list TCP).

Definition serveStream (now : Time) (visit : visitOrder) (send : option (TCP -> bool)) (served : bool)
    (answer : streamAnswer) (ip : IPv4) (tcp : TCP) (s : serviceStreams)
    : list ServeAction * serviceStreams :=
  let key := newStreamKey ip tcp in
  if negb served then (if tcpSYN tcp && negb (tcpACK tcp) then [SendRST] else [], s)
  else if tcpRST tcp then ([], close key s)
  else if tcpSYN tcp && negb (tcpACK tcp) then
    ([TCPConnect], open now visit key (uint32 (tcpSeq tcp + 1)) s)
  else if bool_decide (0 < length (tcpPayload tcp))%nat || tcpFIN tcp then
    let '(reply, inOrder, s) := receive now visit key (tcpSeq tcp) (tcpPayload tcp) answer s in
    if negb inOrder then ([], s)
    else
      let s := if tcpFIN tcp then close key s else s in
      ([Reply (sendStatelessSegment send tcp reply)], s)
  else ([], s).

(** ** The interface of a service

    A service reads whole requests: it takes nothing of an empty stream, never
    more than there is, and reading on after more has arrived continues where
    it stopped. *)
Class StreamAnswer (answer : streamAnswer) : Prop := {
  answer_nil : answer [] = ([], O, false);
  answer_consumed s r n e : answer s = (r, n, e) -> (n <= length s)%nat;
  answer_more s t r n r' n' e :
    answer s = (r, n, false) -> answer (drop n s ++ t) = (r', n', e) ->
    answer (s ++ t) = (r ++ r', (n + n')%nat, e)
}.

(** A service's loop reads one request at a time from what is left. *)
Inductive Turn :=
| Stop (reply : list Z) (consumed : nat) (ended : bool)
| Request (reply : list Z) (consumed : nat).

(** Every request takes a byte, so one more turn than bytes is enough. *)
Fixpoint answerLoop (fuel : nat) (turn : list Z -> Turn) (rest : list Z) : list Z * nat * bool :=
  match fuel with
  | O => ([], O, false)
  | S fuel =>
      match turn rest with
      | Stop reply consumed ended => (reply, consumed, ended)
      | Request reply consumed =>
          let '(more, n, ended) := answerLoop fuel turn (drop consumed rest) in
          (reply ++ more, (consumed + n)%nat, ended)
      end
  end.

Definition answerBy (turn : list Z -> Turn) : streamAnswer := fun stream =>
  answerLoop (S (length stream)) turn stream.

(** What each turn of a loop promises: a request takes bytes it has and is read
    the same when more follow; waiting takes and answers nothing. *)
Class TurnLaws (turn : list Z -> Turn) : Prop := {
  turn_nil : turn [] = Stop [] O false;
  turn_stop s r n e : turn s = Stop r n e -> (n <= length s)%nat /\ (e = false -> r = [] /\ n = O);
  turn_request s r n : turn s = Request r n -> (0 < n <= length s)%nat;
  turn_more s t r n : turn s = Request r n -> turn (s ++ t) = Request r n
}.

(** ** Services that read a request a turn *)

Section turns.
Context (turn : list Z -> Turn) {laws : TurnLaws turn}.

Lemma answerLoop_fuel fuel fuel' s :
  (length s < fuel)%nat -> (length s < fuel')%nat -> answerLoop fuel turn s = answerLoop fuel' turn s.
Proof using laws.
  revert fuel' s. induction fuel as [|fuel IH]; intros [|fuel'] s H H'; [lia..|]. cbn [answerLoop].
  destruct (turn s) as [r n e|r n] eqn:E; [done|]. apply turn_request in E.
  by rewrite (IH fuel' (drop n s)) by (rewrite length_drop; lia).
Qed.

Lemma answerBy_stop s r n e : turn s = Stop r n e -> answerBy turn s = (r, n, e).
Proof using. intros E. unfold answerBy. cbn [answerLoop]. by rewrite E. Qed.

Lemma answerBy_request s r n r' n' e :
  turn s = Request r n -> answerBy turn (drop n s) = (r', n', e) ->
  answerBy turn s = (r ++ r', (n + n')%nat, e).
Proof using laws.
  intros E E'. unfold answerBy in *. cbn [answerLoop]. rewrite E.
  pose proof (turn_request _ _ _ E).
  rewrite (answerLoop_fuel (length s) (S (length (drop n s)))) by (rewrite length_drop; lia).
  by rewrite E'.
Qed.

(** Reading by requests, as an induction. *)
Lemma answerBy_ind (P : list Z -> list Z * nat * bool -> Prop) :
  (forall s r n e, turn s = Stop r n e -> P s (r, n, e)) ->
  (forall s r n r' n' e, turn s = Request r n -> answerBy turn (drop n s) = (r', n', e) ->
    P (drop n s) (r', n', e) -> P s (r ++ r', (n + n')%nat, e)) ->
  forall s, P s (answerBy turn s).
Proof using laws.
  intros Hstop Hreq s. induction s as [s IH] using (induction_ltof1 _ (@length Z)). unfold ltof in IH.
  destruct (turn s) as [r n e|r n] eqn:E.
  - rewrite (answerBy_stop _ _ _ _ E). by apply Hstop.
  - pose proof (turn_request _ _ _ E). specialize (IH (drop n s) ltac:(rewrite length_drop; lia)).
    destruct (answerBy turn (drop n s)) as [[r' n'] e] eqn:E'.
    rewrite (answerBy_request _ _ _ _ _ _ E E'). by apply Hreq.
Qed.

#[export] Instance answerBy_StreamAnswer : StreamAnswer (answerBy turn).
Proof using laws.
  split.
  - apply answerBy_stop, turn_nil.
  - intros s. pattern s, (answerBy turn s). apply answerBy_ind.
    + intros s' r n e E r' n' e' [= <- <- <-]. by apply turn_stop in E as [? _].
    + intros s' r n r' n' e E _ IH r2 n2 e2 [= <- <- <-]. apply turn_request in E.
      specialize (IH _ _ _ eq_refl). rewrite length_drop in IH. lia.
  - intros s t. pattern s, (answerBy turn s). apply answerBy_ind.
    + intros s' r n e E r1 n1 r' n' e' [= -> -> ->] E'. apply turn_stop in E as [_ Hw].
      destruct (Hw eq_refl) as [-> ->]. exact E'.
    + intros s' r n r' n' e E E0 IH r1 n1 r2 n2 e2 [= <- <- ->] E'.
      pose proof (turn_request _ _ _ E). rewrite <- app_assoc, <- Nat.add_assoc.
      apply answerBy_request; [by apply turn_more|].
      rewrite drop_app_le by lia. apply (IH r' n' r2 n2 e2 eq_refl). by rewrite drop_drop.
Qed.
End turns.

(** ** Runs of the connection table *)

Inductive streamOp :=
| OpOpen (now : Time) (visit : visitOrder) (key : streamKey) (next : Z)
| OpGreet (key : streamKey)
| OpClose (key : streamKey)
| OpReceive (now : Time) (visit : visitOrder) (key : streamKey) (seq : Z) (payload : list Z)
    (answer : streamAnswer).

Definition opKey (op : streamOp) : streamKey :=
  match op with
  | OpOpen _ _ key _ | OpGreet key | OpClose key | OpReceive _ _ key _ _ _ => key
  end.

(** The bytes an operation answers with, and its verdict. *)
Definition streamStep (s : serviceStreams) (op : streamOp) : list Z * bool * serviceStreams :=
  match op with
  | OpOpen now visit key next => ([], true, open now visit key next s)
  | OpGreet key => let '(owed, s) := greet key s in ([], owed, s)
  | OpClose key => ([], true, close key s)
  | OpReceive now visit key seq payload answer => receive now visit key seq payload answer s
  end.

Definition runStreams (ops : list streamOp) (s : serviceStreams) : serviceStreams :=
  foldl (fun s op => (streamStep s op).2) s ops.

(** Map orders are permutations, and the clock shows a time after the zero one. *)
Definition opOk (op : streamOp) : Prop :=
  match op with
  | OpOpen now visit _ _ | OpReceive now visit _ _ _ _ => now <> zeroTime /\ forall l, visit l ≡ₚ l
  | _ => True
  end.

(** ** Eviction *)

Definition oldestIn (s : serviceStreams) (key : streamKey) : Prop :=
  exists stream, s !! key = Some stream /\
    forall key' stream', s !! key' = Some stream' -> ssLastSeen stream <= ssLastSeen stream'.

Definition allSeen (s : serviceStreams) : Prop :=
  forall key stream, s !! key = Some stream -> ssLastSeen stream <> zeroTime.

Lemma older_scan l best :
  Forall (fun '(_, stream) => ssLastSeen stream <> zeroTime) l ->
  let r := foldl older best l in
  (best.2 <> zeroTime -> r = best \/ exists stream, (r.1, stream) ∈ l /\ r.2 = ssLastSeen stream) /\
  (best.2 = zeroTime -> l <> [] -> exists stream, (r.1, stream) ∈ l /\ r.2 = ssLastSeen stream) /\
  (forall key stream, (key, stream) ∈ l -> r.2 <= ssLastSeen stream) /\
  (best.2 <> zeroTime -> r.2 <= best.2).
Proof.
  revert best. induction l as [|[key stream] l IH]; intros [b t] Hl; cbn [foldl].
  { split_and!; [by left|done|by intros ? ? ?%elem_of_nil|simpl; lia]. }
  apply Forall_cons in Hl as [Hk Hl]. specialize (IH (older (b, t) (key, stream)) Hl).
  cbn [older] in IH |- *. unfold IsZero in *. cbn [fst snd] in *.
  destruct ((t =? zeroTime) || (ssLastSeen stream <? t)) eqn:E; cbn [fst snd] in IH;
    destruct IH as (H1 & _ & H3 & H4).
  - specialize (H4 Hk). assert (exists st, ((foldl older (key, ssLastSeen stream) l).1, st) ∈ (key, stream) :: l /\
      (foldl older (key, ssLastSeen stream) l).2 = ssLastSeen st) as Hin.
    { destruct (H1 Hk) as [->|(st & Hst & ->)]; [exists stream; set_solver|exists st; set_solver]. }
    split_and!; [by right|done| |].
    + intros k st [[= -> ->]|Hin']%elem_of_cons; [done|by eapply H3].
    + intros Ht. apply orb_true_iff in E as [E%Z.eqb_eq|E%Z.ltb_lt]; [done|lia].
  - apply orb_false_iff in E as [Ez%Z.eqb_neq El%Z.ltb_ge]. specialize (H4 Ez).
    split_and!; [|done| |done].
    + intros _. destruct (H1 Ez) as [->|(st & Hst & ->)]; [by left|right; exists st; set_solver].
    + intros k st [[= -> ->]|Hin']%elem_of_cons; [lia|by eapply H3].
Qed.

Lemma evict_oldest visit s :
  (forall l, visit l ≡ₚ l) -> allSeen s -> s <> ∅ ->
  exists key, oldestIn s key /\ evictOldestLocked visit s = delete key s.
Proof.
  intros Hv Hs Hne. unfold evictOldestLocked.
  destruct (older_scan (visit (map_to_list s)) (streamKeyZero, zeroTime)) as (_ & H2 & H3 & _).
  { rewrite Hv. apply Forall_forall. intros [key stream] H%elem_of_map_to_list. by eapply Hs. }
  set (r := foldl older _ _) in *.
  assert (visit (map_to_list s) <> []) as Hne'.
  { intros H. apply Hne. apply map_to_list_empty_iff, Permutation_nil. by rewrite <- (Hv (map_to_list s)), H. }
  destruct (H2 eq_refl Hne') as (stream & Hin & E). rewrite Hv in Hin. apply elem_of_map_to_list in Hin.
  exists r.1. split; [|done]. exists stream. split; [done|]. intros key' stream' H.
  rewrite <- E. apply (H3 key' stream'). rewrite Hv. by apply elem_of_map_to_list.
Qed.

(** Making room before a connection is added. *)
Lemma room visit s :
  (forall l, visit l ≡ₚ l) -> allSeen s -> (size s <= streamMaxConnections)%nat ->
  let s' := if bool_decide (streamMaxConnections <= size s)%nat then evictOldestLocked visit s else s in
  (size s' < streamMaxConnections)%nat /\ s' ⊆ s /\
  forall k, is_Some (s !! k) -> s' !! k = None -> size s = streamMaxConnections /\ oldestIn s k.
Proof.
  intros Hv Hs Hn. case_bool_decide as Hc; [|split_and!; [lia|done|intros k [x ->]; done]].
  destruct (evict_oldest visit s Hv Hs) as (key & Hold & E).
  { intros ->. rewrite map_size_empty in Hc. unfold streamMaxConnections in Hc. lia. }
  cbn zeta. rewrite E. pose proof Hold as (stream & Hk & _).
  rewrite map_size_delete_Some by by eexists.
  split_and!; [unfold streamMaxConnections in *; lia|apply delete_subseteq|].
  intros k Hs' [<-|Hk']%lookup_delete_None; [split; [lia|done]|].
  rewrite Hk' in Hs'. by destruct Hs'.
Qed.

(** ** The table stays bounded *)

Definition tableOk (s : serviceStreams) : Prop := (size s <= streamMaxConnections)%nat /\ allSeen s.

Lemma allSeen_sub s s' : allSeen s -> s' ⊆ s -> allSeen s'.
Proof. intros H Hs k stream Hk. eapply H, lookup_weaken; eassumption. Qed.

Lemma allSeen_insert s k stream : allSeen s -> ssLastSeen stream <> zeroTime -> allSeen (<[k := stream]> s).
Proof. intros H Hs k' stream'. rewrite lookup_insert_Some. intros [[_ <-]|[_ Hk]]; [done|by eapply H]. Qed.

Lemma size_insert_known (s : serviceStreams) k stream :
  is_Some (s !! k) -> size (<[k := stream]> s) = size s.
Proof. intros [x H]. by rewrite map_size_insert, H. Qed.

(** What a step can make the table forget. *)
Definition forgets (s : serviceStreams) (op : streamOp) (k : streamKey) : Prop :=
  op = OpClose k \/
  (exists now visit seq payload answer stream, op = OpReceive now visit k seq payload answer /\
    s !! k = Some stream /\ seq = ssNext stream /\ (answer (ssPending stream ++ payload)).2 = true) \/
  (size s = streamMaxConnections /\ s !! opKey op = None /\ oldestIn s k).

Lemma tracked_ok visit key seq s stream s1 :
  (forall l, visit l ≡ₚ l) -> tableOk s -> trackedStream visit key seq s = (stream, s1) ->
  (size s1 <= streamMaxConnections)%nat /\ s1 !! key = Some stream /\ allSeen (delete key s1) /\
  match s !! key with Some stream' => stream = stream' /\ s1 = s | None => seq = ssNext stream /\ ssPending stream = [] end /\
  forall k, is_Some (s !! k) -> s1 !! k = None -> size s = streamMaxConnections /\ s !! key = None /\ oldestIn s k.
Proof.
  intros Hv [Hn Hs]. unfold trackedStream. destruct (s !! key) as [x|] eqn:E.
  - intros [= -> ->]. split_and!; [done|done| |done|done|intros k [x ->]; done].
    by eapply allSeen_sub, delete_subseteq.
  - destruct (room visit s Hv Hs Hn) as (H1 & H2 & H3). set (s2 := if bool_decide _ then _ else _) in *.
    intros [= <- <-]. assert (s2 !! key = None) as E2 by (by eapply lookup_weaken_None).
    rewrite map_size_insert, E2, lookup_insert_eq. split_and!; [lia|done| |done|done|].
    + rewrite delete_insert_eq, delete_id by done. by eapply allSeen_sub.
    + intros k Hk Hnone. apply lookup_insert_None in Hnone as [Hnone _].
      destruct (H3 k Hk Hnone). by split_and!.
Qed.

Lemma step_ok s op :
  opOk op -> tableOk s ->
  tableOk (streamStep s op).2 /\
  forall k, is_Some (s !! k) -> (streamStep s op).2 !! k = None -> forgets s op k.
Proof.
  intros Hop Hok. pose proof Hok as [Hn Hs]. destruct op as [now visit key next|key|key|now visit key seq payload answer]; simpl.
  - destruct Hop as [Ht Hv]. unfold open. destruct (s !! key) as [x|] eqn:E.
    + rewrite bool_decide_true by by eexists. simpl. split; [split|].
      * rewrite size_insert_known; [done|by eexists].
      * by apply allSeen_insert.
      * intros k [y Hk] Hnone. apply lookup_insert_None in Hnone as [Hnone _]. congruence.
    + rewrite bool_decide_false by by intros []. simpl.
      destruct (room visit s Hv Hs Hn) as (H1 & H2 & H3). set (s2 := if bool_decide _ then _ else _) in *.
      assert (s2 !! key = None) as E2 by (by eapply lookup_weaken_None). split; [split|].
      * rewrite map_size_insert, E2. lia.
      * apply allSeen_insert; [by eapply allSeen_sub|done].
      * intros k Hk Hnone. apply lookup_insert_None in Hnone as [Hnone _].
        destruct (H3 k Hk Hnone). right. right. by split_and!.
  - unfold greet. destruct (s !! key) as [stream|] eqn:E; [destruct (ssGreeted stream)|]; simpl.
    1,3: split; [done|intros k [x ->]; done].
    split; [split|].
    + rewrite size_insert_known; [done|by eexists].
    + apply allSeen_insert; [done|]. exact (Hs key stream E).
    + intros k [y Hk] Hnone. apply lookup_insert_None in Hnone as [Hnone _]. congruence.
  - unfold close. split; [split|].
    + etrans; [|exact Hn]. apply map_subseteq_size, delete_subseteq.
    + by eapply allSeen_sub, delete_subseteq.
    + intros k [y Hk] Hnone. apply lookup_delete_None in Hnone as [->|]; [by left|congruence].
  - destruct Hop as [Ht Hv]. unfold receive.
    destruct (trackedStream visit key seq s) as [stream s1] eqn:E.
    destruct (tracked_ok _ _ _ _ _ _ Hv Hok E) as (H1 & H2 & H3 & H4 & H5).
    destruct (Z.eqb_spec seq (ssNext stream)) as [Eseq|Eseq]; cbn -[uint32 Uint32].
    + destruct (answer (ssPending stream ++ payload)) as [[reply consumed] [|]] eqn:Ea; cbn [snd]; (split; [split|]).
      * etrans; [|exact H1]. apply map_subseteq_size, delete_subseteq.
      * done.
      * intros k Hk [->|Hnone]%lookup_delete_None; [|right; right; by apply H5].
        destruct (s !! k) as [x|] eqn:Ex; [|by destruct Hk]. destruct H4 as [-> ->].
        right. left. exists now, visit, seq, payload, answer, x. by rewrite Ea.
      * rewrite size_insert_known; [done|by eexists].
      * rewrite <- insert_delete_eq. by apply allSeen_insert.
      * intros k Hk [Hnone _]%lookup_insert_None. right. right. by apply H5.
    + destruct (s !! key) as [x|] eqn:Ex; [destruct H4 as [-> ->]|by destruct H4].
      destruct (_ =? ssNext x); cbn [snd]; (split; [done|intros k [y Hk]; congruence]).
Qed.

Lemma run_ok ops s : Forall opOk ops -> tableOk s -> tableOk (runStreams ops s).
Proof.
  intros Hops. revert s. induction Hops as [|op ops Hop _ IH]; intros s Hs; [done|].
  apply IH. by apply step_ok.
Qed.

(** The table is bounded and forgets fairly: it never holds more than 256
    connections, and a step drops one only if it closes it, if its conversation
    ended, or — for a connection the table does not know, when it is full — if
    no connection was silent for longer. *)
Theorem table_bounded ops op k :
  Forall opOk ops -> opOk op ->
  let s := runStreams ops newServiceStreams in
  let s' := (streamStep s op).2 in
  (size s' <= streamMaxConnections)%nat /\
  (is_Some (s !! k) -> s' !! k = None -> forgets s op k).
Proof.
  intros Hops Hop s s'. assert (tableOk s) as Hs.
  { apply run_ok; [done|]. split; [apply Nat.le_0_l|done]. }
  destruct (step_ok s op Hop Hs) as [[H _] Hf]. split; [exact H|apply Hf].
Qed.

(** A concrete table: two connections of one client, the older one silent. *)
Definition testKey (port : Z) : streamKey :=
  mkStreamKey (mkAddrPort (AddrFrom4 192 0 2 1) port) (mkAddrPort (AddrFrom4 192 0 2 2) 21).

Definition echo : streamAnswer := fun s => (s, length s, false).

Lemma table_bounded_witness :
  let ops := [OpOpen 1 id (testKey 4000) 100; OpOpen 2 id (testKey 4001) 7;
              OpReceive 3 id (testKey 4001) 7 [65; 66] echo] in
  let s := runStreams ops newServiceStreams in
  (size (streamStep s (OpClose (testKey 4000))).2 <= streamMaxConnections)%nat /\
  (is_Some (s !! testKey 4000) -> (streamStep s (OpClose (testKey 4000))).2 !! testKey 4000 = None ->
   forgets s (OpClose (testKey 4000)) (testKey 4000)) /\ is_Some (s !! testKey 4000).
Proof.
  intros ops s. split; [|split].
  - apply (table_bounded ops (OpClose (testKey 4000)) (testKey 4000)); [repeat constructor; done|done].
  - apply (table_bounded ops (OpClose (testKey 4000)) (testKey 4000)); [repeat constructor; done|done].
  - vm_compute. by eexists.
Defined.

(** ** Greetings *)

Lemma evict_sub visit s : evictOldestLocked visit s ⊆ s.
Proof. apply delete_subseteq. Qed.

Lemma trackedStream_greeted visit key seq s k stream :
  let s1 := (trackedStream visit key seq s).2 in
  s1 !! k = Some stream -> ssGreeted stream = false -> s !! k = Some stream.
Proof.
  unfold trackedStream. destruct (s !! key) eqn:E; [done|]. simpl.
  intros [[-> <-]|[_ Hk]]%lookup_insert_Some Hg; [done|]. revert Hk. case_bool_decide; [|done].
  intros Hk. by eapply lookup_weaken, evict_sub.
Qed.

(** What an operation leaves ungreeted was so before, or was just opened. *)
Lemma step_ungreeted s op k stream :
  (streamStep s op).2 !! k = Some stream -> ssGreeted stream = false ->
  (exists now visit next, op = OpOpen now visit k next) \/
  (op <> OpGreet k /\ exists stream', s !! k = Some stream' /\ ssGreeted stream' = false).
Proof.
  intros Hk Hg. destruct op as [now visit key next|key|key|now visit key seq payload answer]; simpl in Hk.
  - unfold open in Hk. apply lookup_insert_Some in Hk as [[-> _]|[Hne Hk]]; [left; by do 3 eexists|].
    right. split; [done|]. exists stream. split; [|done]. destruct (_ && _); [|done].
    by eapply lookup_weaken, evict_sub.
  - right. unfold greet in Hk. destruct (s !! key) as [st|] eqn:E; [destruct (ssGreeted st) eqn:Eg|]; cbn [snd] in Hk.
    + split; [|by exists stream]. intros [= ->]. congruence.
    + apply lookup_insert_Some in Hk as [[-> <-]|[Hne Hk]]; [done|]. split; [congruence|by exists stream].
    + split; [|by exists stream]. intros [= ->]. congruence.
  - right. split; [done|]. unfold close in Hk. apply lookup_delete_Some in Hk as [_ Hk]. by exists stream.
  - right. split; [done|]. unfold receive in Hk.
    pose proof (trackedStream_greeted visit key seq s) as Ht.
    destruct (trackedStream visit key seq s) as [st s1] eqn:E. cbn [snd] in Ht.
    assert (s1 !! key = Some st) as Est.
    { unfold trackedStream in E. destruct (s !! key) eqn:E2; injection E as <- <-; [done|apply lookup_insert_eq]. }
    destruct (seq =? ssNext st).
    + cbn -[uint32 Uint32] in Hk. destruct (answer (ssPending st ++ payload)) as [[reply consumed] [|]]; cbn [snd] in Hk.
      * apply lookup_delete_Some in Hk as [_ Hk]. exists stream. split; [by apply Ht|done].
      * apply lookup_insert_Some in Hk as [[<- <-]|[_ Hk]]; [exists st|exists stream]; (split; [by apply Ht|done]).
    + exists stream. destruct (_ =? ssNext st); cbn [snd] in Hk; (split; [by apply Ht|done]).
Qed.

(** A greeting is owed once: [greet] says yes right after the connection
    opened, and whenever it says yes the connection was opened and has not been
    asked about since — so never twice for one connection, and never for one
    the service did not see open. *)
Theorem greet_once ops k :
  let s := runStreams ops newServiceStreams in
  (forall now visit next, (greet k (open now visit k next s)).1 = true) /\
  ((greet k s).1 = true ->
   exists before now visit next after,
     ops = before ++ OpOpen now visit k next :: after /\ Forall (fun op => op <> OpGreet k) after).
Proof.
  intros s. split.
  { intros now visit next. unfold greet, open. by rewrite lookup_insert_eq. }
  unfold greet. destruct (s !! k) as [stream|] eqn:E; [|done].
  destruct (ssGreeted stream) eqn:Eg; [done|]. intros _. subst s. revert stream E Eg.
  induction ops as [|op ops IH] using rev_ind; intros stream E Eg; [done|].
  unfold runStreams in E. rewrite foldl_app in E. cbn [foldl] in E.
  destruct (step_ungreeted _ _ _ _ E Eg) as [(now & visit & next & ->)|(Hne & st & Hst & Hg)].
  - exists ops, now, visit, next, []. by split.
  - destruct (IH st Hst Hg) as (before & now & visit & next & after & -> & Ha).
    exists before, now, visit, next, (after ++ [op]). split; [by rewrite <- app_assoc|].
    apply Forall_app. split; [done|by repeat constructor].
Qed.

Lemma greet_once_witness :
  let ops := [OpOpen 1 id (testKey 4000) 100; OpReceive 2 id (testKey 4000) 100 [65] echo] in
  (greet (testKey 4000) (runStreams ops newServiceStreams)).1 = true /\
  exists before now visit next after,
     ops = before ++ OpOpen now visit (testKey 4000) next :: after /\
     Forall (fun op => op <> OpGreet (testKey 4000)) after.
Proof.
  intros ops. assert ((greet (testKey 4000) (runStreams ops newServiceStreams)).1 = true) as H by (vm_compute; reflexivity).
  split; [exact H|]. apply (greet_once ops (testKey 4000)). exact H.
Defined.

(** ** Delivery *)

(** What each operation answered. *)
Record answered := mkAnswered { anOp : streamOp; anReply : list Z; anVerdict : bool }.

Fixpoint outputs (ops : list streamOp) (s : serviceStreams) : list answered :=
  match ops with
  | [] => []
  | op :: ops =>
      let '(reply, verdict, s) := streamStep s op in mkAnswered op reply verdict :: outputs ops s
  end.

Section delivery.
Context (answer : streamAnswer) {SA : StreamAnswer answer}.
(** The client's stream, its first sequence number and its connection. *)
Context (stream : list Z) (first : Z) (key : streamKey).
Context (Hstream : Z.of_nat (length stream) < 2 ^ 32).

(** Where a segment begins in the stream. *)
Definition segmentStart (seq : Z) : nat := Z.to_nat (uint32 (seq - first)).

Definition onKey (o : answered) : option (Z * list Z) :=
  match anOp o with
  | OpReceive _ _ key' seq payload _ => if decide (key' = key) then Some (seq, payload) else None
  | _ => None
  end.

(** The bytes delivered so far: up to the furthest acknowledged segment. *)
Definition advance (n : nat) (o : answered) : nat :=
  match onKey o with
  | Some (seq, payload) => if anVerdict o then n `max` (segmentStart seq + length payload) else n
  | None => n
  end.

Definition delivered (outs : list answered) : nat := foldl advance O outs.

(** The bytes the service answered on the connection. *)
Definition answers (outs : list answered) : list Z :=
  concat (map (fun o => match onKey o with Some _ => anReply o | None => [] end) outs).

(** The client sends pieces of its stream, the service answers them; other
    connections do what they like. *)
Definition clientOp (op : streamOp) : Prop :=
  match op with
  | OpReceive _ _ key' seq payload answer' => key' = key -> answer' = answer /\
      exists offset, (offset + length payload <= length stream)%nat /\
        payload = take (length payload) (drop offset stream) /\ seq = uint32 (first + Z.of_nat offset)
  | OpOpen _ _ key' _ | OpClose key' => key' <> key
  | OpGreet _ => True
  end.

Lemma segmentStart_of offset :
  (offset <= length stream)%nat -> segmentStart (uint32 (first + Z.of_nat offset)) = offset.
Proof using Hstream.
  intros H. unfold segmentStart, uint32. rewrite Zminus_mod_idemp_l.
  replace (first + Z.of_nat offset - first) with (Z.of_nat offset) by lia.
  rewrite Z.mod_small by lia. lia.
Qed.

Lemma offset_inj a b :
  (a <= length stream)%nat -> (b <= length stream)%nat ->
  uint32 (first + Z.of_nat a) = uint32 (first + Z.of_nat b) -> a = b.
Proof using Hstream. intros Ha Hb E. rewrite <- (segmentStart_of a), E by done. by apply segmentStart_of. Qed.

(** The table holds what is not answered yet of the first [n] bytes. *)
Definition holds (n : nat) (s : serviceStreams) : Prop :=
  exists st r c, s !! key = Some st /\ (n <= length stream)%nat /\ ssNext st = uint32 (first + Z.of_nat n) /\
    answer (take n stream) = (r, c, false) /\ ssPending st = drop c (take n stream).

Lemma evict_lookup (b : bool) visit s k :
  let s' := if b then evictOldestLocked visit s else s in s' !! k = None \/ s' !! k = s !! k.
Proof using.
  destruct b; [|by right]. unfold evictOldestLocked.
  destruct (decide (k = (foldl older (streamKeyZero, zeroTime) (visit (map_to_list s))).1)) as [->|Hne].
  - left. apply lookup_delete_eq.
  - right. by apply lookup_delete_ne.
Qed.

(** Other connections leave this one alone, or evict it. *)
Lemma step_other s op :
  opKey op <> key -> (streamStep s op).2 !! key = None \/ (streamStep s op).2 !! key = s !! key.
Proof using.
  destruct op as [now visit k next|k|k|now visit k seq payload a]; cbn [opKey streamStep]; intros Hk; cbn [snd].
  - unfold open. rewrite lookup_insert_ne by done. apply (evict_lookup _ visit s key).
  - unfold greet. destruct (s !! k) as [st|]; [destruct (ssGreeted st)|]; cbn [snd]; [by right| |by right].
    right. by apply lookup_insert_ne.
  - right. by apply lookup_delete_ne.
  - unfold receive. assert ((trackedStream visit k seq s).2 !! key = None \/ (trackedStream visit k seq s).2 !! key = s !! key) as Ht.
    { unfold trackedStream. destruct (s !! k); [by right|]. cbn [snd]. rewrite lookup_insert_ne by done.
      apply (evict_lookup _ visit s key). }
    destruct (trackedStream visit k seq s) as [st s1]. cbn [snd] in Ht.
    destruct (seq =? ssNext st); [|by destruct (_ =? ssNext st)].
    cbn -[uint32 Uint32]. destruct (a (ssPending st ++ payload)) as [[reply consumed] [|]]; cbn [snd].
    + by rewrite lookup_delete_ne.
    + by rewrite lookup_insert_ne.
Qed.

Lemma receive_step now visit offset payload s n :
  (offset + length payload <= length stream)%nat -> payload = take (length payload) (drop offset stream) ->
  holds n s ->
  let '(r, v, s') := receive now visit key (uint32 (first + Z.of_nat offset)) payload answer s in
  (v = true <-> offset = n \/ (offset + length payload)%nat = n) /\
  let n' := if v then (n `max` (offset + length payload))%nat else n in
  (n' <= length stream)%nat /\ (answer (take n' stream)).1.1 = (answer (take n stream)).1.1 ++ r /\
  (is_Some (s' !! key) -> holds n' s').
Proof using SA Hstream.
  intros Hlen Hpay (st & r & c & Hst & Hn & Hnext & Ha & Hp). set (len := length payload) in *.
  pose proof (answer_consumed _ _ _ _ Ha) as Hc.
  unfold receive, trackedStream. rewrite Hst. fold len.
  assert (Uint32 (Z.of_nat len) = Z.of_nat len) as Eu by (apply Uint32_id; unfold MaxUint32; lia).
  rewrite Eu, Hnext. destruct (Z.eqb_spec (uint32 (first + Z.of_nat offset)) (uint32 (first + Z.of_nat n))) as [E|E].
  - apply offset_inj in E as ->; [|lia..]. cbn -[uint32]. rewrite Hp.
    assert (take (n + len) stream = take n stream ++ payload) as Et by (by rewrite Hpay, take_take_drop).
    destruct (answer (drop c (take n stream) ++ payload)) as [[r' c'] e] eqn:Ea.
    pose proof (answer_more _ _ _ _ _ _ _ Ha Ea) as Em. rewrite <- Et in Em.
    replace (n `max` (n + len))%nat with (n + len)%nat by lia.
    destruct e; (split; [tauto|split; [lia|split; [by rewrite Em, Ha|]]]).
    + rewrite lookup_delete_eq. by intros [].
    + intros _. eexists _, _, _. rewrite lookup_insert_eq. split; [done|]. split; [lia|]. split; [|split; [exact Em|]].
      * cbn -[uint32]. unfold uint32. rewrite Zplus_mod_idemp_l. f_equal. lia.
      * cbn. rewrite Et, <- (drop_app_le (take n stream)) by exact Hc. by rewrite drop_drop.
  - assert (offset <> n) as Ho by congruence.
    assert (uint32 (uint32 (first + Z.of_nat offset) + Z.of_nat len) = uint32 (first + Z.of_nat (offset + len))) as ->.
    { unfold uint32. rewrite Zplus_mod_idemp_l. f_equal. lia. }
    destruct (Z.eqb_spec (uint32 (first + Z.of_nat (offset + len))) (uint32 (first + Z.of_nat n))) as [E'|E'].
    + apply offset_inj in E' as Eo; [|lia..]. rewrite Eo, Nat.max_id, app_nil_r.
      split; [tauto|]. do 2 (split; [done|]). intros _. by exists st, r, c.
    + rewrite app_nil_r. split; [split; [done|intros [?|?]; [done|congruence]]|].
      do 2 (split; [done|]). intros _. by exists st, r, c.
Qed.

(** One operation, on this connection or not. *)
Lemma step_holds s op n :
  holds n s -> clientOp op ->
  let o := mkAnswered op (streamStep s op).1.1 (streamStep s op).1.2 in
  (advance n o <= length stream)%nat /\
  (answer (take (advance n o) stream)).1.1 = (answer (take n stream)).1.1 ++ answers [o] /\
  (is_Some ((streamStep s op).2 !! key) -> holds (advance n o) (streamStep s op).2) /\
  (forall seq payload, onKey o = Some (seq, payload) ->
    anVerdict o = true <-> segmentStart seq = n \/ (segmentStart seq + length payload)%nat = n).
Proof using SA Hstream.
  intros Hh Hc. assert (n <= length stream)%nat as Hn by (by destruct Hh as (st & r & c & _ & Hn & _)).
  destruct (decide (opKey op = key)) as [Hk|Hk].
  - destruct op as [now visit k next|k|k|now visit k seq payload a]; cbn [opKey] in Hk; subst k; simpl in Hc; [done| |done|].
    + unfold answers, advance. cbn. rewrite app_nil_r. split_and!; [done|done| |done]. unfold greet.
      destruct Hh as (st & r & c & Hst & Hh). rewrite Hst.
      destruct (ssGreeted st); cbn [snd]; intros _; [by exists st, r, c|].
      exists (st <| ssGreeted := true |>), r, c. by rewrite lookup_insert_eq.
    + destruct (Hc eq_refl) as (-> & offset & Hlen & Hpay & ->). cbn [streamStep].
      pose proof (receive_step now visit offset payload s n Hlen Hpay Hh) as Hr.
      destruct (receive now visit key (uint32 (first + Z.of_nat offset)) payload answer s) as [[r v] s'].
      unfold answers, advance, onKey. cbn [map concat fst snd anOp anReply anVerdict].
      rewrite decide_True by done. rewrite segmentStart_of by lia. rewrite app_nil_r.
      destruct Hr as (Hv & H1 & H2 & H3). split_and!; [done|done|done|].
      intros seq pay [= <- <-]. rewrite segmentStart_of by lia. exact Hv.
  - assert (forall r v, onKey (mkAnswered op r v) = None) as Hnone.
    { intros r v. unfold onKey. destruct op; cbn [anOp]; try done. by rewrite decide_False. }
    cbn zeta. unfold answers, advance. cbn [map concat]. rewrite Hnone, !app_nil_r. split; [done|]. split; [done|].
    split; [|done].
    intros Hs. destruct (step_other s op Hk) as [E|E]; [rewrite E in Hs; by destruct Hs|].
    destruct Hh as (st & r & c & Hst & Hh). exists st, r, c. by rewrite E.
Qed.

Lemma answers_cons o outs : answers (o :: outs) = answers [o] ++ answers outs.
Proof using. unfold answers. cbn [map concat]. by rewrite app_nil_r. Qed.

Lemma delivery_from ops s n :
  holds n s -> Forall clientOp ops ->
  (forall pre op post, ops = pre ++ op :: post -> is_Some (runStreams pre s !! key)) ->
  let outs := outputs ops s in
  (foldl advance n outs <= length stream)%nat /\
  (answer (take (foldl advance n outs) stream)).1.1 = (answer (take n stream)).1.1 ++ answers outs /\
  (forall pre o post seq payload, outs = pre ++ o :: post -> onKey o = Some (seq, payload) ->
    anVerdict o = true <->
    segmentStart seq = foldl advance n pre \/ (segmentStart seq + length payload)%nat = foldl advance n pre).
Proof using SA Hstream.
  intros Hh Hops. revert s n Hh. induction Hops as [|op ops Hop _ IH]; intros s n Hh Ht; cbn [outputs].
  { destruct Hh as (st & r & c & _ & Hn & _). split_and!; [done|by rewrite app_nil_r|by intros []]. }
  destruct (step_holds s op n Hh Hop) as (H1 & H2 & H3 & H4).
  pose proof (fun pre o post E => Ht (op :: pre) o post (f_equal (cons op) E)) as Ht'.
  unfold runStreams in Ht'. cbn [foldl] in Ht'.
  destruct (streamStep s op) as [[r v] s'] eqn:E. cbn [fst snd] in H1, H2, H3, H4, Ht'. cbn [foldl].
  rewrite answers_cons. set (o := mkAnswered op r v) in *.
  assert (ops = [] \/ holds (advance n o) s') as [->|Hh'].
  { destruct ops as [|op2 ops]; [by left|right]. apply H3. by apply (Ht' [] op2 ops). }
  - cbn [outputs foldl]. split_and!; [done|by rewrite app_nil_r|].
    intros [|x pre] o' post seq payload [= <- Eo] Hk; [by apply H4|by destruct pre].
  - destruct (IH s' (advance n o) Hh' Ht') as (G1 & G2 & G3).
    split_and!; [done|by rewrite G2, H2, app_assoc|].
    intros [|x pre] o' post seq payload [= <- Eo] Hk; [by apply H4|by eapply G3].
Qed.

(** C12.  Delivery: from the moment the table opens a connection, as long as
    it tracks it — with repeats, gaps and any split into segments on this
    connection, and any traffic on the others — the bytes answered are exactly
    the service's answer to the bytes delivered so far, once and in order, and
    a segment is acknowledged exactly when it continues them or repeats their
    end. *)
Theorem stream_delivery now visit s ops :
  Forall clientOp ops ->
  (forall pre op post, ops = pre ++ op :: post ->
    is_Some (runStreams pre (open now visit key (uint32 first) s) !! key)) ->
  let outs := outputs ops (open now visit key (uint32 first) s) in
  (delivered outs <= length stream)%nat /\
  answers outs = (answer (take (delivered outs) stream)).1.1 /\
  (forall pre o post seq payload, outs = pre ++ o :: post -> onKey o = Some (seq, payload) ->
    anVerdict o = true <->
    segmentStart seq = delivered pre \/ (segmentStart seq + length payload)%nat = delivered pre).
Proof using SA Hstream.
  intros Hops Ht outs.
  destruct (delivery_from ops (open now visit key (uint32 first) s) O) as (H1 & H2 & H3); [|done|done|].
  { unfold open. eexists _, [], O. rewrite lookup_insert_eq. split; [done|]. split; [lia|].
    rewrite take_0, answer_nil, Z.add_0_r. done. }
  split_and!; [done| |done]. rewrite take_0, answer_nil in H2. exact (eq_sym H2).
Qed.
End delivery.

(** ** The segments of an answer *)

Definition payloads (segments : list TCP) : list Z := concat (map tcpPayload segments).

Lemma payloads_cons seg segs : payloads (seg :: segs) = tcpPayload seg ++ payloads segs.
Proof. done. Qed.

(** A segment at [done_] bytes of [total] into the answer to [tcp]. *)
Definition wellSent (tcp : TCP) (seq consumed : Z) (total before : nat) (segment : TCP) : Prop :=
  (length (tcpPayload segment) <= statelessMaxSegment)%nat /\
  tcpSrcPort segment = tcpDstPort tcp /\ tcpDstPort segment = tcpSrcPort tcp /\
  tcpSeq segment = uint32 (seq + Z.of_nat before) /\
  tcpAck segment = uint32 (tcpSeq tcp + consumed) /\
  tcpFIN segment = tcpFIN tcp && bool_decide (before + length (tcpPayload segment) = total)%nat.

Lemma sendLoop_spec fuel send tcp seq consumed answer :
  (length answer < fuel)%nat -> 0 <= seq < 2 ^ 32 ->
  let segments := sendLoop fuel send tcp seq consumed answer in
  segments <> [] /\
  (exists unsent, answer = payloads segments ++ unsent /\
    (unsent = [] \/ exists segment, last segments = Some segment /\ send segment = false)) /\
  (forall pre segment post, segments = pre ++ segment :: post ->
    wellSent tcp seq consumed (length answer) (length (payloads pre)) segment /\
    (post <> [] -> tcpPayload segment <> [] /\ send segment = true)).
Proof.
  revert seq answer. induction fuel as [|fuel IH]; intros seq answer Hf Hs; [lia|]. cbn [sendLoop].
  set (chunk := take (length answer `min` statelessMaxSegment) answer).
  assert (length chunk = length answer `min` statelessMaxSegment)%nat as Hc by (unfold chunk; rewrite length_take; lia).
  assert (answer = chunk ++ drop (length chunk) answer) as Hsplit.
  { rewrite Hc. unfold chunk. by rewrite take_drop. }
  assert (wellSent tcp seq consumed (length answer) 0 (replySegment tcp seq consumed chunk (drop (length chunk) answer))) as Hw.
  { unfold wellSent, replySegment. cbn -[uint32]. split_and!; [lia|done|done| |done|].
    - by rewrite Z.add_0_r, uint32_id.
    - f_equal. rewrite length_drop. apply bool_decide_ext. lia. }
  set (seg := replySegment tcp seq consumed chunk (drop (length chunk) answer)) in *.
  destruct (negb (send seg) || bool_decide (length (drop (length chunk) answer) = 0%nat)) eqn:E; cbn zeta.
  - split; [done|]. split.
    + exists (drop (length chunk) answer). unfold payloads. cbn [map concat]. rewrite app_nil_r. split; [exact Hsplit|].
      apply orb_true_iff in E as [E|E%bool_decide_eq_true]; [right|left; by apply nil_length_inv].
      exists seg. split; [done|]. by apply negb_true_iff.
    + intros pre segment post Eseg. destruct pre as [|x [|? ?]]; [|done..]. by injection Eseg as <- <-.
  - apply orb_false_iff in E as [E1%negb_false_iff E2%bool_decide_eq_false].
    rewrite length_drop in E2. unfold statelessMaxSegment in Hc.
    assert (Uint32 (Z.of_nat (length chunk)) = Z.of_nat (length chunk)) as -> by (apply Uint32_id; unfold MaxUint32; lia).
    destruct (IH (uint32 (seq + Z.of_nat (length chunk))) (drop (length chunk) answer)) as (H1 & (unsent & Hu & Hlast) & H3);
      [rewrite length_drop; lia|apply uint32_range|].
    set (segs := sendLoop _ _ _ _ _ _) in *. split; [done|]. split.
    + exists unsent. rewrite payloads_cons, <- app_assoc, <- Hu. split; [exact Hsplit|].
      destruct Hlast as [|(s & Hl & Hsend)]; [by left|right]. exists s. split; [|done].
      by destruct segs.
    + intros [|x pre] segment post Eseg; injection Eseg as <- Eseg.
      { split; [done|]. intros _. split; [|done]. cbn. intros Hnil. rewrite Hnil in Hc. cbn in Hc. lia. }
      destruct (H3 pre segment post Eseg) as ((W1 & W2 & W3 & W4 & W5 & W6) & Hp). split; [|exact Hp].
      rewrite payloads_cons, length_app. cbn [tcpPayload seg replySegment]. split_and!; [done|done|done| |done|].
      * rewrite W4. unfold uint32. rewrite Zplus_mod_idemp_l. f_equal. lia.
      * rewrite W6, length_drop. f_equal. apply bool_decide_ext. lia.
Qed.

(** Sending: the segments that leave carry the answer from its first byte
    in order, each with at most 1460 bytes, addressed back, at the sequence
    number of its first byte, acknowledging the client's whole segment (and its
    FIN), and closing our side only with the answer's last byte; the answer is
    cut short only by a segment that failed to leave. *)
Theorem segments_carry_answer send tcp answer :
  0 <= tcpAck tcp < 2 ^ 32 -> Z.of_nat (length (tcpPayload tcp)) < 2 ^ 32 ->
  let segments := sendStatelessSegment (Some send) tcp answer in
  let taken := Z.of_nat (length (tcpPayload tcp)) + (if tcpFIN tcp then 1 else 0) in
  segments <> [] /\
  (exists unsent, answer = payloads segments ++ unsent /\
    (unsent = [] \/ exists segment, last segments = Some segment /\ send segment = false)) /\
  (forall pre segment post, segments = pre ++ segment :: post ->
    wellSent tcp (tcpAck tcp) taken (length answer) (length (payloads pre)) segment /\
    (post <> [] -> tcpPayload segment <> [] /\ send segment = true)).
Proof.
  intros Ha Hp segments taken. subst segments. unfold sendStatelessSegment.
  rewrite Z.min_l, Uint32_id by (unfold maxUint32Payload, MaxUint32; lia).
  set (consumed := if tcpFIN tcp then _ else _).
  destruct (sendLoop_spec (S (length answer)) send tcp (tcpAck tcp) consumed answer) as (H1 & H2 & H3); [lia|done|].
  split; [done|]. split; [done|]. intros pre segment post E.
  destruct (H3 _ _ _ E) as ((W1 & W2 & W3 & W4 & W5 & W6) & H). split; [|exact H].
  split_and!; [done|done|done|done| |done]. rewrite W5. subst consumed taken. unfold uint32.
  destruct (tcpFIN tcp); [rewrite Zplus_mod_idemp_r|]; f_equal; lia.
Qed.

Definition testSegment : TCP := mkTCP 4000 21 100 (2 ^ 32 - 1000) false true true false true [65; 66; 67].

Lemma segments_carry_answer_witness :
  map (fun segment => (tcpSeq segment, tcpAck segment, tcpFIN segment, length (tcpPayload segment)))
    (sendStatelessSegment (Some (fun _ => true)) testSegment (replicate 1500 7)) =
    [(2 ^ 32 - 1000, 104, false, 1460%nat); (460, 104, true, 40%nat)] /\
  sendStatelessSegment (Some (fun _ => true)) testSegment (replicate 1500 7) <> [].
Proof.
  split; [vm_compute; reflexivity|].
  apply (segments_carry_answer (fun _ => true) testSegment (replicate 1500 7)); [vm_compute; split; [discriminate|reflexivity]|reflexivity].
Defined.

(** Beyond the end: a connection whose conversation ended is forgotten,
    so the retransmission of the last segment — its acknowledgement was lost —
    is taken for a new connection and answered a second time. *)
Theorem ended_answers_again now visit now' visit' key payload answer s stream :
  s !! key = Some stream -> (answer (ssPending stream ++ payload)).2 = true ->
  (receive now visit key (ssNext stream) payload answer s).1 =
    ((answer (ssPending stream ++ payload)).1.1, true) /\
  (receive now' visit' key (ssNext stream) payload answer
     (receive now visit key (ssNext stream) payload answer s).2).1 =
    ((answer payload).1.1, true).
Proof.
  intros Hs He. unfold receive at 1 3. unfold trackedStream. rewrite Hs, Z.eqb_refl. cbn -[uint32 Uint32 receive].
  destruct (answer (ssPending stream ++ payload)) as [[reply consumed] e] eqn:E. cbn in He. subst e. cbn [fst snd].
  split; [done|]. unfold receive, trackedStream. rewrite lookup_delete_eq. cbn -[uint32 Uint32].
  rewrite Z.eqb_refl. cbn -[uint32 Uint32]. by destruct (answer payload) as [[reply' consumed'] [|]].
Qed.
