(* ===== verification/Modbus.v ===== *)
(** * Modbus/TCP

    [protocols/modbus.go]: a register server that reads requests off a byte
    stream, and its framing proved against the messages a client sends. *)

From S2P Require Import Prelude.
From S2P Require Import Netip.
From S2P Require Import Safeconv.
From S2P Require Import Bytes.
From S2P Require Import Streams.

(** ** The server *)

Definition modbusMBAPLen : nat := 7.
Definition modbusLengthOffset : nat := 4.
Definition modbusUnitOffset : nat := 6.
Definition modbusMinLength : Z := 2.
Definition modbusMaxLength : Z := 254.
Definition modbusProtocolModbus : Z := 0.
Definition modbusReadHoldingRegisters : Z := 0x03.
Definition modbusReadInputRegisters : Z := 0x04.
Definition modbusExceptionFlag : Z := 0x80.
Definition modbusIllegalFunction : Z := 0x01.
Definition modbusIllegalDataAddress : Z := 0x02.
Definition modbusIllegalDataValue : Z := 0x03.
Definition modbusReadRequestLen : nat := 5.
Definition modbusReadResponseLen : nat := 2.
Definition modbusRegisterLen : Z := 2.
Definition modbusMaxReadCount : Z := 125.

Record ModbusConfig := mkModbusConfig {
  mbcEnabled : bool; mbcHoldingRegisters : Z; mbcInputRegisters : Z
}.

Definition modbusException (function code : Z) : list Z := [Z.lor function modbusExceptionFlag; code].

Definition modbusResponsePDU (request : list Z) (server : ModbusConfig) : list Z :=
  let function := byteAt request 0 in
  let read registers :=
    if negb (bool_decide (length request = modbusReadRequestLen)) then
      modbusException function modbusIllegalDataValue
    else
      let address := bigUint16 (drop 1 request) in
      let quantity := bigUint16 (drop 3 request) in
      if (quantity <? 1) || (modbusMaxReadCount <? quantity) then
        modbusException function modbusIllegalDataValue
      else if registers <? address + quantity then
        modbusException function modbusIllegalDataAddress
      else
        let values := modbusRegisterLen * quantity in
        [function; Byte values] ++ replicate (Z.to_nat values) 0 in
  if function =? modbusReadHoldingRegisters then read (mbcHoldingRegisters server)
  else if function =? modbusReadInputRegisters then read (mbcInputRegisters server)
  else modbusException function modbusIllegalFunction.

(** The body of the loop. *)
Definition modbusTurn (server : ModbusConfig) (request : list Z) : Turn :=
  if bool_decide (length request < modbusMBAPLen)%nat then Stop [] 0 false
  else
    let len := bigUint16 (drop modbusLengthOffset request) in
    if (len <? modbusMinLength) || (modbusMaxLength <? len) then Stop [] 0 true
    else
      let stop := (modbusUnitOffset + Z.to_nat len)%nat in
      if bool_decide (length request < stop)%nat then Stop [] 0 false
      else if negb (bigUint16 (drop 2 request) =? modbusProtocolModbus) then Request [] stop
      else
        let pdu := modbusResponsePDU (drop modbusMBAPLen (take stop request)) server in
        let header := overwrite (take modbusMBAPLen request) modbusLengthOffset
                        (big16 (Uint16 (1 + Z.of_nat (length pdu)))) in
        Request (header ++ pdu) stop.

Definition modbusAnswer (stream : list Z) (server : ModbusConfig) : list Z * nat * bool :=
  answerBy (modbusTurn server) stream.

(** ** It is a service *)

#[export] Instance modbusTurn_laws server : TurnLaws (modbusTurn server).
Proof.
  split.
  - done.
  - intros s r n e. unfold modbusTurn. repeat case_match; intros [= <- <- <-]; (split; [lia|done]).
  - intros s r n. unfold modbusTurn. repeat case_match; intros [= <- <-];
      rewrite bool_decide_eq_false in *; unfold modbusUnitOffset in *; lia.
  - intros s t r n. unfold modbusTurn.
    case_bool_decide as H1; [done|]. rewrite (bool_decide_false (length (s ++ t) < _)%nat) by (rewrite length_app; lia).
    unfold modbusMBAPLen, modbusLengthOffset, modbusUnitOffset in *.
    rewrite !drop_app_le by lia. rewrite !bigUint16_app by (rewrite length_drop; lia).
    destruct (_ || _) eqn:E; [done|]. case_bool_decide as H2; [done|].
    rewrite (bool_decide_false (length (s ++ t) < _)%nat) by (rewrite length_app; lia). by rewrite !take_app_le by lia.
Qed.

#[export] Instance modbus_StreamAnswer server : StreamAnswer (fun stream => modbusAnswer stream server).
Proof. exact (answerBy_StreamAnswer (modbusTurn server)). Qed.

(** ** Messages

    A message as the specification has it: transaction, protocol, unit and
    PDU, with the length in front. *)
Record Adu := mkAdu { aduTransaction : Z; aduProtocol : Z; aduUnit : Z; aduPDU : list Z }.

Definition encodeAdu (m : Adu) : list Z :=
  big16 (aduTransaction m) ++ big16 (aduProtocol m) ++ big16 (1 + Z.of_nat (length (aduPDU m))) ++
  [aduUnit m] ++ aduPDU m.

(** A message of the specification: 16-bit fields, a byte, 1 to 253 bytes. *)
Definition wfAdu (m : Adu) : Prop :=
  0 <= aduTransaction m < 2 ^ 16 /\ 0 <= aduProtocol m < 2 ^ 16 /\ isByte (aduUnit m) /\
  (1 <= length (aduPDU m) <= 253)%nat /\ Forall isByte (aduPDU m).

Definition isRead (function : Z) : bool := (function =? 3) || (function =? 4).

(** What the specification answers to a PDU on a server of zeroed registers. *)
Inductive readOutcome (server : ModbusConfig) (pdu : list Z) : list Z -> Prop :=
| ReadRegisters function address quantity :
    pdu = function :: big16 address ++ big16 quantity -> 0 <= address < 2 ^ 16 -> 1 <= quantity <= 125 ->
    (function = 3 /\ address + quantity <= mbcHoldingRegisters server \/
     function = 4 /\ address + quantity <= mbcInputRegisters server) ->
    readOutcome server pdu (function :: 2 * quantity :: replicate (Z.to_nat (2 * quantity)) 0)
| IllegalAddress function address quantity :
    pdu = function :: big16 address ++ big16 quantity -> 0 <= address < 2 ^ 16 -> 1 <= quantity <= 125 ->
    (function = 3 /\ mbcHoldingRegisters server < address + quantity \/
     function = 4 /\ mbcInputRegisters server < address + quantity) ->
    readOutcome server pdu [function + 128; 2]
| IllegalQuantity function address quantity :
    pdu = function :: big16 address ++ big16 quantity -> isRead function = true ->
    0 <= address < 2 ^ 16 -> 0 <= quantity < 2 ^ 16 -> ~ 1 <= quantity <= 125 ->
    readOutcome server pdu [function + 128; 3]
| IllegalLength function rest :
    pdu = function :: rest -> isRead function = true -> length rest <> 4%nat ->
    readOutcome server pdu [function + 128; 3]
| IllegalFunction function rest :
    pdu = function :: rest -> isRead function = false ->
    readOutcome server pdu [Z.lor function 128; 1].

Lemma big16_bigUint16 x y : isByte x -> isByte y -> big16 (x * 2 ^ 8 + y) = [x; y].
Proof.
  intros Hx Hy. unfold isByte in *. unfold big16. rewrite (Z.add_comm (x * _)), Z.div_add, Z.mod_add by lia.
  rewrite (Z.div_small y), (Z.mod_small y) by lia. by rewrite Z.add_0_l, Z.mod_small by lia.
Qed.

Lemma big16_bytes v : Forall isByte (big16 v).
Proof. repeat constructor; apply isByte_mod. Qed.

Lemma isRead_cases function : isRead function = true -> function = 3 \/ function = 4.
Proof. unfold isRead. rewrite orb_true_iff, !Z.eqb_eq. done. Qed.

(** The function code and the exception flag do not overlap for a read. *)
Lemma response_read pdu server function rest :
  pdu = function :: rest -> isRead function = true -> Forall isByte pdu ->
  readOutcome server pdu (modbusResponsePDU pdu server).
Proof.
  intros -> Hread Hb. apply Forall_cons in Hb as [Hf Hb].
  assert (exists registers, modbusResponsePDU (function :: rest) server =
    (if negb (bool_decide (length (function :: rest) = 5%nat)) then [function + 128; 3]
     else if (bigUint16 (drop 2 rest) <? 1) || (125 <? bigUint16 (drop 2 rest)) then [function + 128; 3]
     else if registers <? bigUint16 rest + bigUint16 (drop 2 rest) then [function + 128; 2]
     else function :: Byte (2 * bigUint16 (drop 2 rest)) :: replicate (Z.to_nat (2 * bigUint16 (drop 2 rest))) 0) /\
    (function = 3 /\ registers = mbcHoldingRegisters server \/
     function = 4 /\ registers = mbcInputRegisters server)) as (registers & -> & Hreg).
  { apply isRead_cases in Hread as [->| ->]; eexists; (split; [reflexivity|]); [by left|by right]. }
  case_bool_decide as Hlen; cbn [negb].
  2: { eapply IllegalLength; [done|done|]. cbn in Hlen. lia. }
  destruct rest as [|a1 [|a2 [|q1 [|q2 [|? ?]]]]]; try done. cbn [drop].
  pose proof (bigUint16_range _ Hb) as Ha.
  assert (Forall isByte [q1; q2]) as Hb' by (by rewrite !Forall_cons in *; naive_solver).
  pose proof (bigUint16_range _ Hb') as Hq.
  assert (function :: [a1; a2; q1; q2] =
    function :: big16 (bigUint16 [a1; a2; q1; q2]) ++ big16 (bigUint16 [q1; q2])) as Epdu.
  { rewrite !Forall_cons in Hb. change (bigUint16 [a1; a2; q1; q2]) with (a1 * 2 ^ 8 + a2).
    change (bigUint16 [q1; q2]) with (q1 * 2 ^ 8 + q2).
    by rewrite !big16_bigUint16 by naive_solver. }
  destruct (Z.ltb_spec (bigUint16 [q1; q2]) 1), (Z.ltb_spec 125 (bigUint16 [q1; q2])); cbn [orb];
    try (eapply IllegalQuantity; [exact Epdu|done|done|done|lia]).
  destruct (Z.ltb_spec registers (bigUint16 [a1; a2; q1; q2] + bigUint16 [q1; q2])).
  - eapply IllegalAddress; [exact Epdu|done|lia|]. naive_solver.
  - rewrite Byte_id by (unfold MaxUint8; lia). eapply ReadRegisters; [exact Epdu|done|lia|]. naive_solver.
Qed.

Lemma modbus_reads_all server pdu :
  (1 <= length pdu)%nat -> Forall isByte pdu ->
  readOutcome server pdu (modbusResponsePDU pdu server) /\
  (1 <= length (modbusResponsePDU pdu server) <= 253)%nat /\ Forall isByte (modbusResponsePDU pdu server).
Proof.
  intros Hlen Hb. destruct pdu as [|function rest]; [simpl in Hlen; lia|].
  assert (readOutcome server (function :: rest) (modbusResponsePDU (function :: rest) server)) as H.
  { destruct (isRead function) eqn:E; [by eapply response_read|].
    replace (modbusResponsePDU (function :: rest) server) with [Z.lor function 128; 1]; [by eapply IllegalFunction|].
    unfold isRead in E. apply orb_false_iff in E as [E1 E2]. unfold modbusResponsePDU.
    change (byteAt (function :: rest) 0) with function.
    unfold modbusReadHoldingRegisters, modbusReadInputRegisters. by rewrite E1, E2. }
  split; [exact H|]. apply Forall_cons in Hb as [Hf _]. unfold isByte in Hf.
  assert (forall c, isByte c -> isRead function = true -> Forall isByte [function + 128; c]) as Hex.
  { intros c Hc Hr. apply isRead_cases in Hr as [->| ->]; repeat constructor; unfold isByte in *; lia. }
  assert (forall f : Z, f = 3 \/ f = 4 -> isRead f = true) as Hr34 by (intros f [->| ->]; done).
  destruct H as [f a q [= <- _]|f a q [= <- _]|f a q [= <- _]|f r [= <- _]|f r [= <- _]].
  - split; [cbn; rewrite length_replicate; lia|].
    repeat constructor; [unfold isByte; naive_solver lia..|].
    apply Forall_replicate. unfold isByte. lia.
  - split; [cbn; lia|]. apply Hex; [unfold isByte; lia|apply Hr34; tauto].
  - split; [cbn; lia|]. apply Hex; [unfold isByte; lia|done].
  - split; [cbn; lia|]. apply Hex; [unfold isByte; lia|done].
  - split; [cbn; lia|]. constructor; [|constructor; [unfold isByte; lia|constructor]].
    apply isByte_lor; unfold isByte; lia.
Qed.

(** A Modbus server answers every PDU as the specification's state
    diagrams do: quantity is checked before address, a read inside the
    server's registers returns that many zeroed registers, and everything else
    the exception the diagrams name; the answer always fits a message. *)
Theorem modbus_reads server pdu :
  (1 <= length pdu)%nat -> Forall isByte pdu ->
  readOutcome server pdu (modbusResponsePDU pdu server) /\
  (1 <= length (modbusResponsePDU pdu server) <= 253)%nat /\ Forall isByte (modbusResponsePDU pdu server).
Proof. apply modbus_reads_all. Qed.

Lemma modbus_reads_witness :
  modbusResponsePDU [3; 0; 10; 0; 2] (mkModbusConfig true 12 0) = [3; 4; 0; 0; 0; 0] /\
  readOutcome (mkModbusConfig true 12 0) [3; 0; 10; 0; 2] (modbusResponsePDU [3; 0; 10; 0; 2] (mkModbusConfig true 12 0)) /\
  modbusResponsePDU [3; 0; 11; 0; 2] (mkModbusConfig true 12 0) = [131; 2].
Proof.
  split; [reflexivity|]. split; [|reflexivity].
  apply (modbus_reads (mkModbusConfig true 12 0) [3; 0; 10; 0; 2]); [cbn; lia|].
  repeat constructor; unfold isByte; lia.
Defined.

(** ** Framing *)

(** The reply a message is owed; one of another protocol gets none. *)
Definition reply (server : ModbusConfig) (m : Adu) : Adu :=
  mkAdu (aduTransaction m) 0 (aduUnit m) (modbusResponsePDU (aduPDU m) server).

Definition owed (server : ModbusConfig) (m : Adu) : list Z :=
  if aduProtocol m =? 0 then encodeAdu (reply server m) else [].

Lemma wf_reply server m : wfAdu m -> wfAdu (reply server m).
Proof.
  intros (H1 & H2 & H3 & H4 & H5). destruct (modbus_reads_all server (aduPDU m)) as (_ & Hl & Hb); [lia|done|].
  unfold wfAdu, reply. cbn [aduTransaction aduProtocol aduUnit aduPDU]. split_and!; try done; lia.
Qed.

Lemma length_encodeAdu m : length (encodeAdu m) = (7 + length (aduPDU m))%nat.
Proof. done. Qed.

(** The header of a message, in front of anything. *)
Lemma header_fields m t :
  wfAdu m ->
  bigUint16 (drop modbusLengthOffset (encodeAdu m ++ t)) = 1 + Z.of_nat (length (aduPDU m)) /\
  bigUint16 (drop 2 (encodeAdu m ++ t)) = aduProtocol m.
Proof.
  intros (H1 & H2 & H3 & H4 & H5). split; [apply (bigUint16_big16 (1 + Z.of_nat (length (aduPDU m)))); lia|].
  by apply (bigUint16_big16 (aduProtocol m)).
Qed.

Lemma turn_message server m t :
  wfAdu m -> modbusTurn server (encodeAdu m ++ t) = Request (owed server m) (length (encodeAdu m)).
Proof.
  intros Hm. pose proof (header_fields m t Hm) as [Hlen Hproto]. pose proof (wf_reply server m Hm) as Hr.
  destruct Hm as (H1 & H2 & H3 & H4 & H5). unfold modbusTurn.
  rewrite bool_decide_false by (rewrite length_app, length_encodeAdu; unfold modbusMBAPLen; lia).
  rewrite Hlen, Hproto. unfold modbusMinLength, modbusMaxLength.
  destruct (Z.ltb_spec (1 + Z.of_nat (length (aduPDU m))) 2); [lia|].
  destruct (Z.ltb_spec 254 (1 + Z.of_nat (length (aduPDU m)))); [lia|]. cbn [orb].
  replace (modbusUnitOffset + Z.to_nat (1 + Z.of_nat (length (aduPDU m))))%nat with (length (encodeAdu m))
    by (rewrite length_encodeAdu; unfold modbusUnitOffset; lia).
  rewrite bool_decide_false by (rewrite length_app; lia). unfold owed, modbusProtocolModbus.
  destruct (Z.eqb_spec (aduProtocol m) 0) as [Ep|]; cbn [negb]; [|done].
  rewrite take_app_length. change (drop modbusMBAPLen (encodeAdu m)) with (aduPDU m).
  rewrite Uint16_id; [|destruct Hr as (_ & _ & _ & Hr & _); cbn in Hr; unfold MaxUint16; lia].
  unfold reply, encodeAdu. cbn [aduTransaction aduProtocol aduUnit aduPDU]. by rewrite Ep.
Qed.

Lemma turn_partial server m tail :
  wfAdu m -> tail `prefix_of` encodeAdu m -> tail <> encodeAdu m -> modbusTurn server tail = Stop [] 0 false.
Proof.
  intros Hm [t Ht] Hne. pose proof (header_fields m [] Hm) as [Hlen _]. rewrite app_nil_r, Ht in Hlen.
  assert (length tail < length (encodeAdu m))%nat as Hl.
  { rewrite Ht, length_app. destruct t; [by rewrite app_nil_r in Ht|simpl; lia]. }
  rewrite length_encodeAdu in Hl. destruct Hm as (_ & _ & _ & H4 & _). unfold modbusTurn.
  case_bool_decide as Hs; [done|]. unfold modbusMBAPLen, modbusLengthOffset in *.
  rewrite drop_app_le, bigUint16_app in Hlen by (rewrite ?length_drop; lia). rewrite Hlen.
  unfold modbusMinLength, modbusMaxLength, modbusUnitOffset.
  destruct (Z.ltb_spec (1 + Z.of_nat (length (aduPDU m))) 2); [lia|].
  destruct (Z.ltb_spec 254 (1 + Z.of_nat (length (aduPDU m)))); [lia|]. cbn [orb].
  by rewrite bool_decide_true by lia.
Qed.

(** Framing: however many messages arrived, the server takes the complete
    ones, answers each of its own protocol with one message of the same
    transaction and unit, in order, drops the others, and leaves an incomplete
    message for later; every answer is itself a message. *)
Theorem modbus_serves server ms m tail :
  Forall wfAdu ms -> wfAdu m -> tail `prefix_of` encodeAdu m -> tail <> encodeAdu m ->
  modbusAnswer (concat (map encodeAdu ms) ++ tail) server =
    (concat (map (owed server) ms), length (concat (map encodeAdu ms)), false) /\
  Forall wfAdu (map (reply server) ms).
Proof.
  intros Hms Hm Ht Hne. split; [|by apply Forall_map; eapply Forall_impl; [exact Hms|]; intros x; apply wf_reply].
  unfold modbusAnswer. induction Hms as [|x ms Hx _ IH]; cbn [map concat app].
  - apply answerBy_stop. by eapply turn_partial.
  - rewrite length_app, <- app_assoc. eapply answerBy_request; [apply _|by apply turn_message|].
    rewrite drop_app_length. exact IH.
Qed.

Definition testMessages : list Adu :=
  [mkAdu 1 0 17 [3; 0; 0; 0; 2]; mkAdu 2 9 17 [3; 0; 0; 0; 2]; mkAdu 3 0 17 [6; 0; 1]].

Lemma test_wf : Forall wfAdu testMessages.
Proof.
  repeat apply Forall_cons_2; [..|constructor]; unfold wfAdu, isByte; cbn; (split_and!; [lia..|]);
    repeat constructor; lia.
Qed.

Lemma modbus_serves_witness :
  let server := mkModbusConfig true 100 0 in
  modbusAnswer (concat (map encodeAdu testMessages) ++ [0; 4; 0; 0]) server =
    ([0; 1; 0; 0; 0; 7; 17; 3; 4; 0; 0; 0; 0; 0; 3; 0; 0; 0; 3; 17; 134; 1], 34%nat, false) /\
  Forall wfAdu (map (reply server) testMessages).
Proof.
  apply (modbus_serves (mkModbusConfig true 100 0) testMessages (mkAdu 4 0 1 [3; 0; 0; 0; 2]) [0; 4; 0; 0]).
  - exact test_wf.
  - unfold wfAdu, isByte. cbn. split_and!; [lia..|]. repeat constructor; lia.
  - by exists [0; 6; 1; 3; 0; 0; 0; 2].
  - done.
Defined.

(** ** A delivery

    The same requests cut into three segments over the wrap of the sequence
    numbers, the first repeated after the second. *)
Definition testOpsOn (key : streamKey) : list streamOp :=
  let server := mkModbusConfig true 100 0 in
  let answer stream := modbusAnswer stream server in
  let stream := concat (map encodeAdu testMessages) in
  [OpReceive 2 id key (2 ^ 32 - 5) (take 9 stream) answer;
   OpReceive 3 id (testKey 4001) 5 [1] answer;
   OpReceive 4 id key 4 (take 11 (drop 9 stream)) answer;
   OpReceive 5 id key (2 ^ 32 - 5) (take 9 stream) answer;
   OpReceive 6 id key 15 (drop 20 stream) answer].

Lemma stream_delivery_witness :
  let key := testKey 4000 in
  let first := 2 ^ 32 - 5 in
  let stream := concat (map encodeAdu testMessages) in
  let outs := outputs (testOpsOn key) (open 1 id key (uint32 first) newServiceStreams) in
  map anVerdict outs = [true; true; true; false; true] /\
  (delivered first key outs <= length stream)%nat /\
  answers key outs = (modbusAnswer (take (delivered first key outs) stream) (mkModbusConfig true 100 0)).1.1 /\
  (forall pre o post seq payload, outs = pre ++ o :: post -> onKey key o = Some (seq, payload) ->
    anVerdict o = true <-> segmentStart first seq = delivered first key pre \/
      (segmentStart first seq + length payload)%nat = delivered first key pre).
Proof.
  split; [vm_compute; reflexivity|].
  apply (stream_delivery (fun stream => modbusAnswer stream (mkModbusConfig true 100 0))
    (concat (map encodeAdu testMessages)) (2 ^ 32 - 5) (testKey 4000) eq_refl 1 id newServiceStreams (testOpsOn (testKey 4000))).
  - repeat apply Forall_cons_2; [..|constructor]; cbn [clientOp]; intros Hk;
      first [by vm_compute in Hk|split; [reflexivity|]].
    + exists 0%nat. vm_compute. split_and!; [lia|reflexivity..].
    + exists 9%nat. vm_compute. split_and!; [lia|reflexivity..].
    + exists 0%nat. vm_compute. split_and!; [lia|reflexivity..].
    + exists 20%nat. vm_compute. split_and!; [lia|reflexivity..].
  - intros pre op post E.
    do 5 (destruct pre as [|? pre]; [by vm_compute; eexists|injection E as <- E]). by destruct pre.
Defined.
