(* ===== verification/Enip.v ===== *)
(** * EtherNet/IP

    [protocols/enip.go]: the encapsulation messages of TCP and UDP 44818 and
    the List Identity reply, little-endian but for the socket address. *)

From S2P Require Import Prelude.
From S2P Require Import Netip.
From S2P Require Import Safeconv.
From S2P Require Import Bytes.
From S2P Require Import Streams.

(** ** The server *)

Definition PortEtherNetIP : Z := 44818.
Definition enipHeaderLen : nat := 24.
Definition enipLengthOffset : nat := 2.
Definition enipStatusOffset : nat := 8.
Definition enipMaxDataLen : Z := 65511.
Definition enipCommandNOP : Z := 0x0000.
Definition enipListIdentity : Z := 0x0063.
Definition enipUnsupportedCmd : Z := 0x0001.
Definition enipItemIdentity : Z := 0x000c.
Definition enipProtocolVersion : Z := 1.
Definition enipSocketFamilyINET : Z := 2.
Definition enipSocketZeroLen : nat := 8.
Definition enipIdentityFixedLen : nat := 34.
Definition enipIdentityStatus : Z := 0.
Definition enipIdentityStateReady : Z := 3.

Record EtherNetIPConfig := mkEtherNetIPConfig {
  eicEnabled : bool; eicVendorID : Z; eicDeviceType : Z; eicProductCode : Z;
  eicRevisionMajor : Z; eicRevisionMinor : Z; eicSerialNumber : Z; eicProductName : list Z
}.

Definition servesEtherNetIP (config : option EtherNetIPConfig) : bool :=
  match config with Some config => eicEnabled config | None => false end.

(** Command, session handle and sender context are echoed. *)
Definition enipReplyHeader (request : list Z) (dataLen : nat) : list Z :=
  let reply := replicate enipHeaderLen 0 in
  let reply := overwrite reply 0 (take 8 request) in
  let reply := overwrite reply 12 (take 8 (drop 12 request)) in
  overwrite reply enipLengthOffset (little16 (Uint16 (Z.of_nat dataLen))).

Definition enipIdentityItem (server : EtherNetIPConfig) (address : list Z) : list Z :=
  let itemLen := (enipIdentityFixedLen + length (eicProductName server))%nat in
  little16 1 ++ little16 enipItemIdentity ++ little16 (Uint16 (Z.of_nat itemLen)) ++
  little16 enipProtocolVersion ++ big16 enipSocketFamilyINET ++ big16 PortEtherNetIP ++
  To4 address ++ replicate enipSocketZeroLen 0 ++
  little16 (eicVendorID server) ++ little16 (eicDeviceType server) ++ little16 (eicProductCode server) ++
  [eicRevisionMajor server; eicRevisionMinor server] ++ little16 enipIdentityStatus ++
  little32 (eicSerialNumber server) ++ [Byte (Z.of_nat (length (eicProductName server)))] ++
  eicProductName server ++ [enipIdentityStateReady].

Definition enipListIdentityReply (request : list Z) (server : EtherNetIPConfig) (address : list Z) : list Z :=
  let item := enipIdentityItem server address in enipReplyHeader request (length item) ++ item.

(** The body of the loop. *)
Definition enipTurn (server : EtherNetIPConfig) (address : list Z) (overTCP : bool) (request : list Z) : Turn :=
  if bool_decide (length request < enipHeaderLen)%nat then Stop [] 0 false
  else
    let len := littleUint16 (drop enipLengthOffset request) in
    if enipMaxDataLen <? len then Stop [] 0 true
    else
      let stop := (enipHeaderLen + Z.to_nat len)%nat in
      if bool_decide (length request < stop)%nat then Stop [] 0 false
      else
        let command := littleUint16 request in
        if command =? enipListIdentity then
          Request (enipListIdentityReply (take enipHeaderLen request) server address) stop
        else if negb (command =? enipCommandNOP) && overTCP then
          Request (overwrite (enipReplyHeader (take enipHeaderLen request) 0) enipStatusOffset
                     (little32 enipUnsupportedCmd)) stop
        else Request [] stop.

Definition enipAnswer (stream : list Z) (server : EtherNetIPConfig) (address : list Z) (overTCP : bool)
    : list Z * nat * bool :=
  answerBy (enipTurn server address overTCP) stream.

(** ** It is a service *)

#[export] Instance enipTurn_laws server address overTCP : TurnLaws (enipTurn server address overTCP).
Proof.
  split.
  - done.
  - intros s r n e. unfold enipTurn. repeat case_match; intros [= <- <- <-]; (split; [lia|done]).
  - intros s r n. unfold enipTurn. repeat case_match; intros [= <- <-];
      rewrite bool_decide_eq_false in *; unfold enipHeaderLen in *; lia.
  - intros s t r n. unfold enipTurn.
    case_bool_decide as H1; [done|]. rewrite (bool_decide_false (length (s ++ t) < _)%nat) by (rewrite length_app; lia).
    unfold enipHeaderLen, enipLengthOffset in *.
    rewrite !drop_app_le by lia. rewrite !littleUint16_app by (rewrite ?length_drop; lia).
    destruct (enipMaxDataLen <? _); [done|]. case_bool_decide as H2; [done|].
    rewrite (bool_decide_false (length (s ++ t) < _)%nat) by (rewrite length_app; lia).
    by rewrite !take_app_le by lia.
Qed.

#[export] Instance enip_StreamAnswer server address overTCP :
  StreamAnswer (fun stream => enipAnswer stream server address overTCP).
Proof. exact (answerBy_StreamAnswer (enipTurn server address overTCP)). Qed.

(** ** Messages *)

(** An encapsulation message: its header's fields and its data. *)
Record Encap := mkEncap {
  ecCommand : Z; ecSession : list Z; ecStatus : list Z; ecContext : list Z; ecOptions : list Z;
  ecData : list Z
}.

Definition encodeEncap (m : Encap) : list Z :=
  little16 (ecCommand m) ++ little16 (Z.of_nat (length (ecData m))) ++ ecSession m ++ ecStatus m ++
  ecContext m ++ ecOptions m ++ ecData m.

Definition wfEncap (m : Encap) : Prop :=
  0 <= ecCommand m < 2 ^ 16 /\ length (ecSession m) = 4%nat /\ length (ecStatus m) = 4%nat /\
  length (ecContext m) = 8%nat /\ length (ecOptions m) = 4%nat /\ Z.of_nat (length (ecData m)) <= 65511.

(** The identity a server is authored with: a name of at most 32 bytes, and an
    IPv4 address it is asked at. *)
Definition wfIdentity (server : EtherNetIPConfig) (address : list Z) : Prop :=
  (length (eicProductName server) <= 32)%nat /\ length address = 4%nat.

(** The reply a message is owed, if any. *)
Definition encapReply (server : EtherNetIPConfig) (address : list Z) (overTCP : bool) (m : Encap) : option Encap :=
  if ecCommand m =? 0x63 then
    Some (mkEncap (ecCommand m) (ecSession m) [0; 0; 0; 0] (ecContext m) [0; 0; 0; 0] (enipIdentityItem server address))
  else if (ecCommand m =? 0) || negb overTCP then None
  else Some (mkEncap (ecCommand m) (ecSession m) [1; 0; 0; 0] (ecContext m) [0; 0; 0; 0] []).

(** What List Identity carries, as a reader of the item takes it apart: one
    item whose length is the bytes that follow, the socket address, the
    identity, and a name as long as its length byte says. *)
Definition identityItem (server : EtherNetIPConfig) (address item : list Z) : Prop :=
  exists itemLen body rest,
    item = [1; 0; 0x0c; 0] ++ little16 itemLen ++ body /\ itemLen = Z.of_nat (length body) /\
    body = [1; 0] ++ [0; 2] ++ [175; 18] ++ address ++ replicate 8 0 ++ rest /\
    rest = little16 (eicVendorID server) ++ little16 (eicDeviceType server) ++ little16 (eicProductCode server) ++
           [eicRevisionMajor server; eicRevisionMinor server; 0; 0] ++ little32 (eicSerialNumber server) ++
           [Z.of_nat (length (eicProductName server))] ++ eicProductName server ++ [3].

Lemma item_shape server address :
  wfIdentity server address ->
  identityItem server address (enipIdentityItem server address) /\
  Z.of_nat (length (enipIdentityItem server address)) <= 72.
Proof.
  intros [Hn Ha]. unfold enipIdentityItem, To4. rewrite bool_decide_true by done.
  rewrite Byte_id by (unfold MaxUint8; lia).
  rewrite Uint16_id by (unfold enipIdentityFixedLen, MaxUint16; lia). split.
  - unfold identityItem. do 3 eexists. split; [reflexivity|]. split; [|split; [reflexivity|]].
    + repeat rewrite ?length_app, ?length_replicate, ?Ha. cbn [length little16 little32 big16].
      unfold enipIdentityFixedLen, enipSocketZeroLen. lia.
    + reflexivity.
  - repeat rewrite ?length_app, ?length_replicate, ?Ha. cbn [length little16 little32 big16].
    unfold enipSocketZeroLen. lia.
Qed.

Lemma list4 (l : list Z) : length l = 4%nat -> exists a b c d, l = [a; b; c; d].
Proof. destruct l as [|a [|b [|c [|d [|? ?]]]]]; try done. by exists a, b, c, d. Qed.

Lemma list8 (l : list Z) : length l = 8%nat -> exists a b c d e f g h, l = [a; b; c; d; e; f; g; h].
Proof. destruct l as [|a [|b [|c [|d [|e [|f [|g [|h [|? ?]]]]]]]]]; try done. by exists a, b, c, d, e, f, g, h. Qed.

Lemma length_encodeEncap m : wfEncap m -> length (encodeEncap m) = (24 + length (ecData m))%nat.
Proof. intros (_ & H1 & H2 & H3 & H4 & _). unfold encodeEncap. rewrite !length_app, H1, H2, H3, H4. cbn. lia. Qed.

Lemma encap_fields m t :
  wfEncap m ->
  littleUint16 (encodeEncap m ++ t) = ecCommand m /\
  littleUint16 (drop enipLengthOffset (encodeEncap m ++ t)) = Z.of_nat (length (ecData m)).
Proof.
  intros (H1 & _ & _ & _ & _ & H6). split; [by apply (littleUint16_little16 (ecCommand m))|].
  apply (littleUint16_little16 (Z.of_nat (length (ecData m)))). lia.
Qed.

(** The header of a reply, from the header of a message. *)
Lemma reply_header m t n :
  wfEncap m ->
  enipReplyHeader (take enipHeaderLen (encodeEncap m ++ t)) n =
  little16 (ecCommand m) ++ little16 (Uint16 (Z.of_nat n)) ++ ecSession m ++ [0; 0; 0; 0] ++
  ecContext m ++ [0; 0; 0; 0].
Proof.
  destruct m as [cmd ses st ctx opt data]. intros (_ & H1 & H2 & H3 & H4 & _). cbn in *.
  apply list4 in H1 as (? & ? & ? & ? & ->), H2 as (? & ? & ? & ? & ->), H4 as (? & ? & ? & ? & ->).
  apply list8 in H3 as (? & ? & ? & ? & ? & ? & ? & ? & ->). reflexivity.
Qed.

Lemma turn_encap server address overTCP m t :
  wfEncap m -> wfIdentity server address ->
  enipTurn server address overTCP (encodeEncap m ++ t) =
  Request (from_option encodeEncap [] (encapReply server address overTCP m)) (length (encodeEncap m)).
Proof.
  intros Hm Hid. pose proof (encap_fields m t Hm) as [Hcmd Hlen]. pose proof (length_encodeEncap m Hm) as Hl.
  pose proof Hm as (_ & _ & _ & _ & _ & Hd). unfold enipTurn.
  rewrite bool_decide_false by (rewrite length_app, Hl; unfold enipHeaderLen; lia).
  rewrite Hlen. destruct (Z.ltb_spec enipMaxDataLen (Z.of_nat (length (ecData m)))); [unfold enipMaxDataLen in *; lia|].
  replace (enipHeaderLen + Z.to_nat (Z.of_nat (length (ecData m))))%nat with (length (encodeEncap m))
    by (rewrite Hl; unfold enipHeaderLen; lia).
  rewrite bool_decide_false by (rewrite length_app; lia).
  rewrite Hcmd. unfold encapReply, enipListIdentity, enipCommandNOP, enipListIdentityReply. change 0x63 with 99.
  destruct (item_shape server address Hid) as [_ Hitem].
  destruct (ecCommand m =? 99); [|destruct (ecCommand m =? 0), overTCP; try done].
  - rewrite reply_header by done. unfold encodeEncap at 2. cbn [from_option ecCommand ecSession ecStatus ecContext ecOptions ecData].
    by rewrite Uint16_id, <- !app_assoc by (unfold MaxUint16; lia).
  - rewrite reply_header by done. destruct m as [cmd ses st ctx opt data].
    destruct Hm as (_ & H1 & _ & H3 & _). cbn in H1, H3.
    apply list4 in H1 as (? & ? & ? & ? & ->). apply list8 in H3 as (? & ? & ? & ? & ? & ? & ? & ? & ->).
    reflexivity.
Qed.

Lemma turn_encap_partial server address overTCP m tail :
  wfEncap m -> tail `prefix_of` encodeEncap m -> tail <> encodeEncap m ->
  enipTurn server address overTCP tail = Stop [] 0 false.
Proof.
  intros Hm [t Ht] Hne. pose proof (encap_fields m [] Hm) as [_ Hlen]. rewrite app_nil_r, Ht in Hlen.
  assert (length tail < length (encodeEncap m))%nat as Hl.
  { rewrite Ht, length_app. destruct t; [by rewrite app_nil_r in Ht|simpl; lia]. }
  rewrite length_encodeEncap in Hl by done. destruct Hm as (_ & _ & _ & _ & _ & Hd). unfold enipTurn.
  case_bool_decide as Hs; [done|]. unfold enipHeaderLen, enipLengthOffset in *.
  rewrite drop_app_le, littleUint16_app in Hlen by (rewrite ?length_drop; lia). rewrite Hlen.
  destruct (Z.ltb_spec enipMaxDataLen (Z.of_nat (length (ecData m)))); [unfold enipMaxDataLen in *; lia|].
  by rewrite bool_decide_true by lia.
Qed.

(** EtherNet/IP: however many messages arrived, the complete ones are
    taken and each is answered as the specification asks — List Identity with
    one well-formed identity item, NOP never, anything else with status 1 over
    TCP and not at all over UDP — echoing command, session and context, and an
    incomplete message waits. *)
Theorem enip_serves server address overTCP ms m tail :
  wfIdentity server address -> Forall wfEncap ms -> wfEncap m ->
  tail `prefix_of` encodeEncap m -> tail <> encodeEncap m ->
  enipAnswer (concat (map encodeEncap ms) ++ tail) server address overTCP =
    (concat (map encodeEncap (omap (encapReply server address overTCP) ms)),
     length (concat (map encodeEncap ms)), false) /\
  Forall wfEncap (omap (encapReply server address overTCP) ms) /\
  identityItem server address (enipIdentityItem server address).
Proof.
  intros Hid Hms Hm Ht Hne. destruct (item_shape server address Hid) as [Hitem Hlen].
  split; [|split; [|exact Hitem]].
  - unfold enipAnswer. induction Hms as [|x ms Hx _ IH]; cbn [map concat app].
    + apply answerBy_stop. by eapply turn_encap_partial.
    + rewrite length_app, <- app_assoc.
      assert (concat (map encodeEncap (omap (encapReply server address overTCP) (x :: ms))) =
        from_option encodeEncap [] (encapReply server address overTCP x) ++
        concat (map encodeEncap (omap (encapReply server address overTCP) ms))) as ->.
      { cbn [omap list_omap]. by destruct (encapReply server address overTCP x). }
      eapply answerBy_request; [apply _|by apply turn_encap|].
      rewrite drop_app_length. exact IH.
  - induction Hms as [|x ms (H1 & H2 & H3 & H4 & H5 & H6) _ IH]; [constructor|]. cbn [omap list_omap].
    unfold encapReply at 1. destruct (ecCommand x =? 99); [|destruct ((ecCommand x =? 0) || negb overTCP); [exact IH|]];
      (constructor; [|exact IH]); unfold wfEncap; cbn [ecCommand ecSession ecStatus ecContext ecOptions ecData];
      split_and!; try done; lia.
Qed.

Lemma enip_serves_witness :
  let server := mkEtherNetIPConfig true 1 14 55 2 1 16909060 [80; 76; 67] in
  let request := mkEncap 0x63 [1; 2; 3; 4] [0; 0; 0; 0] [9; 9; 9; 9; 9; 9; 9; 9] [0; 0; 0; 0] [] in
  (enipAnswer (concat (map encodeEncap [request]) ++ [99]) server [192; 0; 2; 7] true).1.2 = 24%nat /\
  enipAnswer (concat (map encodeEncap [request]) ++ [99]) server [192; 0; 2; 7] true =
    (concat (map encodeEncap (omap (encapReply server [192; 0; 2; 7] true) [request])),
     length (concat (map encodeEncap [request])), false) /\
  Forall wfEncap (omap (encapReply server [192; 0; 2; 7] true) [request]) /\
  identityItem server [192; 0; 2; 7] (enipIdentityItem server [192; 0; 2; 7]).
Proof.
  intros server request. split; [vm_compute; reflexivity|].
  apply (enip_serves server [192; 0; 2; 7] true [request] request [99]).
  - split; [cbn; lia|reflexivity].
  - constructor; [|constructor]. unfold wfEncap. cbn. split_and!; lia.
  - unfold wfEncap. cbn. split_and!; lia.
  - by eexists.
  - done.
Defined.
