(* ===== verification/NetipParse.v ===== *)
(** * Addresses: parsing, comparing and classifying

    What the program uses of package [net/netip] beyond [Netip]: [ParseAddr]
    and [ParsePrefix] with every refusal, [Compare], [Overlaps] and the address
    classes.  An error is [None]; nothing reads its text. *)

From Stdlib Require Import Ascii.
From S2P Require Import Prelude.
From S2P Require Import Netip.
From S2P Require Import Bytes.
From S2P Require Import Oid.

(** ** Parsing *)

(** [parseIPv4Fields]: [fields] are those already read, [val] and [digLen] the
    current one. *)
Fixpoint parseIPv4Fields (fields : list Z) (val digLen : Z) (s : list ascii) : option (list Z) :=
  match s with
  | [] => if bool_decide (length fields < 3)%nat then None else Some (fields ++ [val])
  | c :: s' =>
      match digitValue c with
      | Some d =>
          if (digLen =? 1) && (val =? 0) then None
          else if 255 <? 10 * val + d then None
          else parseIPv4Fields fields (10 * val + d) (digLen + 1) s'
      | None =>
          if Ascii.eqb c "."%char then
            if (digLen =? 0) || bool_decide (s' = []) then None
            else if bool_decide (length fields = 3%nat) then None
            else parseIPv4Fields (fields ++ [val]) 0 0 s'
          else None
      end
  end.

(** Up to four hexadecimal digits, their number and what follows. *)
Fixpoint hexGroup (off : nat) (acc : Z) (s : list ascii) : option (Z * nat * list ascii) :=
  match s with
  | c :: s' =>
      match hexValue c with
      | Some d => if bool_decide (3 < off)%nat then None else hexGroup (S off) (16 * acc + d) s'
      | None => Some (acc, off, s)
      end
  | [] => Some (acc, off, [])
  end.

Fixpoint parseIPv6Groups (fuel : nat) (ip : list Z) (ellipsis : option nat) (s : list ascii)
    : option (list Z * option nat * list ascii) :=
  match fuel with
  | O => Some (ip, ellipsis, s)
  | S fuel =>
      '(acc, off, rest) ← hexGroup 0 0 s;
      if bool_decide (off = O) then None
      else
        match rest with
        | "."%char :: _ =>
            if bool_decide (ellipsis = None) && negb (bool_decide (length ip = 12%nat)) then None
            else if bool_decide (16 < length ip + 4)%nat then None
            else fields ← parseIPv4Fields [] 0 0 s; Some (ip ++ fields, ellipsis, [])
        | _ =>
            let ip := ip ++ [acc / 2 ^ 8; acc mod 2 ^ 8] in
            match rest with
            | [] => Some (ip, ellipsis, [])
            | ":"%char :: [] => None
            | ":"%char :: ":"%char :: rest =>
                match ellipsis, rest with
                | Some _, _ => None
                | None, [] => Some (ip, Some (length ip), [])
                | None, _ => parseIPv6Groups fuel ip (Some (length ip)) rest
                end
            | ":"%char :: rest => parseIPv6Groups fuel ip ellipsis rest
            | _ => None
            end
        end
  end.

(** The groups after the zone has been cut off: eight of two bytes at most. *)
Definition parseIPv6Bytes (s : list ascii) : option (list Z) :=
  let '(ellipsis, s) :=
    match s with ":"%char :: ":"%char :: s => (Some O, s) | _ => (None, s) end in
  if bool_decide (ellipsis = Some O) && bool_decide (s = []) then Some (replicate 16 0)
  else
    '(ip, ellipsis, rest) ← parseIPv6Groups 8 [] ellipsis s;
    if negb (bool_decide (rest = [])) then None
    else if bool_decide (length ip < 16)%nat then
      e ← ellipsis; Some (take e ip ++ replicate (16 - length ip) 0 ++ drop e ip)
    else match ellipsis with Some _ => None | None => Some ip end.

(** [strings.Cut(s, "%")] *)
Fixpoint cutZone (s : list ascii) : list ascii * option (list ascii) :=
  match s with
  | [] => ([], None)
  | c :: s => if Ascii.eqb c "%"%char then ([], Some s)
              else let '(before, zone) := cutZone s in (c :: before, zone)
  end.

Definition parseIPv6 (s : list ascii) : option Addr :=
  let '(s, zone) := cutZone s in
  match zone with
  | Some [] => None
  | _ =>
      ip ← parseIPv6Bytes s;
      match AddrFromSlice ip with
      | Addr6 b _ => Some (Addr6 b (String.string_of_list_ascii (default [] zone)))
      | _ => None
      end
  end.

Definition parseIPv4 (s : list ascii) : option Addr :=
  fields ← parseIPv4Fields [] 0 0 s; Some (AddrFromSlice fields).

(** The first of the three characters that occurs decides. *)
Fixpoint parseAs (whole s : list ascii) : option Addr :=
  match s with
  | [] => None
  | "."%char :: _ => parseIPv4 whole
  | ":"%char :: _ => parseIPv6 whole
  | "%"%char :: _ => None
  | _ :: s => parseAs whole s
  end.

Definition ParseAddr (s : string) : option Addr :=
  let s := String.list_ascii_of_string s in parseAs s s.

(** What is before and after the last slash. *)
Definition cutLastSlash (s : string) : option (string * string) :=
  (fix go (s : string) : option (string * string) :=
     match s with
     | EmptyString => None
     | String c s =>
         match go s with
         | Some (before, after) => Some (String c before, after)
         | None => if Ascii.eqb c "/"%char then Some (EmptyString, s) else None
         end
     end) s.

Definition Is6 (a : Addr) : bool := match a with Addr6 _ _ => true | _ => false end.

(** A length of several digits starts with none of [0], [+] and [-]. *)
Definition badBits (s : string) : bool :=
  match s with
  | String c (String _ _) => let n := N_of_ascii c in (n <? 49)%N || (57 <? n)%N
  | _ => false
  end.

Definition ParsePrefix (s : string) : option Prefix :=
  '(before, after) ← cutLastSlash s;
  ip ← ParseAddr before;
  if Is6 ip && negb (bool_decide (withoutZone ip = ip)) then None
  else if badBits after then None
  else
    bits ← Atoi after;
    if (bits <? 0) || (BitLen ip <? bits) then None else Some (PrefixFrom ip bits).

(** ** Comparing *)

Definition Compare (a b : Addr) : comparison :=
  match Z.compare (BitLen a) (BitLen b) with
  | Eq =>
      match a, b with
      | Addr4 x, Addr4 y => Z.compare x y
      | Addr6 x z, Addr6 y w => match Z.compare x y with Eq => String.compare z w | c => c end
      | _, _ => Eq
      end
  | c => c
  end.

(** [a.Compare(b) > 0] *)
Definition addrGt (a b : Addr) : bool := match Compare a b with Gt => true | _ => false end.
(** [a.Compare(start) >= 0 && a.Compare(end) <= 0] *)
Definition between (a start stop : Addr) : bool := negb (addrGt start a) && negb (addrGt a stop).

Definition Overlaps (p o : Prefix) : bool :=
  if negb (PrefixIsValid p) || negb (PrefixIsValid o) then false
  else if bool_decide (p = o) then true
  else if negb (Bool.eqb (Is4 (pfxAddr p)) (Is4 (pfxAddr o))) then false
  else
    let minBits := Z.min (pfxBits p) (pfxBits o) in
    if minBits =? 0 then true
    else bool_decide (pfxAddr (addrPrefix (pfxAddr p) minBits) = pfxAddr (addrPrefix (pfxAddr o) minBits)).

Definition IsSingleIP (p : Prefix) : bool := PrefixIsValid p && (pfxBits p =? BitLen (pfxAddr p)).

(** ** Classes *)

Definition IsLoopback (a : Addr) : bool :=
  match Unmap a with
  | AddrZero => false
  | Addr4 b => Z.shiftr b 24 =? 127
  | Addr6 b _ => b =? 1
  end.

Definition IsLinkLocalUnicast (a : Addr) : bool :=
  match Unmap a with
  | AddrZero => false
  | Addr4 b => Z.shiftr b 16 =? 0xa9fe
  | Addr6 b _ => Z.land (Z.shiftr b 112) 0xffc0 =? 0xfe80
  end.

Definition IsGlobalUnicast (a : Addr) : bool :=
  let a := Unmap a in
  negb (bool_decide (a = AddrZero)) &&
  negb (bool_decide (a = Addr4 0)) && negb (bool_decide (a = Addr4 0xffffffff)) &&
  negb (bool_decide (a = Addr6 0 "")) &&
  negb (IsLoopback a) && negb (IsMulticast a) && negb (IsLinkLocalUnicast a).

Example parse_v4 : ParseAddr "192.0.2.17" = Some (AddrFrom4 192 0 2 17).
Proof. vm_compute. reflexivity. Qed.

Example parse_v4_refused :
  ParseAddr <$> ["192.0.2"; "192.0.02.1"; "192.0.2.256"; "192.0.2.1."; ".1.2.3"; "1..2.3"; "1.2.3.4.5"; "eth0"]
  = replicate 8 None.
Proof. vm_compute. reflexivity. Qed.

Example parse_v6 :
  ParseAddr <$> ["2001:db8::1"; "::"; "fe80::1%eth0"; "::ffff:10.0.0.1"; "1:2:3:4:5:6:7:8"]
  = [Some (Addr6 0x20010db8000000000000000000000001 ""); Some (Addr6 0 "");
     Some (Addr6 0xfe800000000000000000000000000001 "eth0"); Some (Addr6 0xffff0a000001 "");
     Some (Addr6 0x00010002000300040005000600070008 "")].
Proof. vm_compute. reflexivity. Qed.

Example parse_v6_refused :
  ParseAddr <$> ["2001:db8::1::2"; "1:2:3:4:5:6:7:8:9"; "1:2:3:4:5:6:7::8"; "12345::"; "1:2:3:4:5:6:7:"; "::1%"; "1:2:3"]
  = replicate 7 None.
Proof. vm_compute. reflexivity. Qed.

Example parse_prefix :
  ParsePrefix <$> ["10.1.2.3/24"; "2001:db8::/32"; "10.0.0.0/33"; "10.0.0.0/08"; "10.0.0.0/+8"; "fe80::1%e/64"; "10.0.0.0"]
  = [Some (mkPrefix (AddrFrom4 10 1 2 3) 24); Some (mkPrefix (Addr6 0x20010db8000000000000000000000000 "") 32);
     None; None; None; None; None].
Proof. vm_compute. reflexivity. Qed.

(** ** Facts *)

Definition addrValue (a : Addr) : Z := match a with AddrZero => 0 | Addr4 b | Addr6 b _ => b end.

(** An address of a prefix has its family and its leading bits. *)
Lemma Contains_inv p a :
  Contains p a = true ->
  0 <= pfxBits p /\ BitLen (pfxAddr p) = BitLen a /\ Is4 (pfxAddr p) = Is4 a /\ a <> AddrZero /\
  Z.shiftr (addrValue (pfxAddr p)) (BitLen a - pfxBits p) = Z.shiftr (addrValue a) (BitLen a - pfxBits p).
Proof.
  unfold Contains, PrefixIsValid. rewrite andb_true_iff, Z.leb_le. intros [Hb Hc].
  destruct (pfxAddr p) as [|n|n zn], a as [|b|b z]; try done.
  - apply Z.eqb_eq in Hc. rewrite Z.shiftr_lxor in Hc. apply Z.lxor_eq in Hc. by split_and!.
  - rewrite andb_true_iff in Hc. destruct Hc as [_ Hc]. apply Z.eqb_eq in Hc.
    rewrite Z.shiftr_lxor in Hc. apply Z.lxor_eq in Hc. by split_and!.
Qed.

(** Dropping more bits keeps an agreement. *)
Lemma shiftr_coarser x y i j : 0 <= i <= j -> Z.shiftr x i = Z.shiftr y i -> Z.shiftr x j = Z.shiftr y j.
Proof.
  intros Hij E. replace j with (i + (j - i)) by lia.
  rewrite <- !Z.shiftr_shiftr by lia. by rewrite E.
Qed.

Definition maskValue (len b bits : Z) : Z := Z.shiftl (Z.shiftr b (len - bits)) (len - bits).

Lemma addrPrefix_addr a bits :
  0 <= bits <= BitLen a -> a <> AddrZero ->
  pfxAddr (addrPrefix a bits) =
  match a with
  | AddrZero => AddrZero
  | Addr4 b => Addr4 (maskValue 32 b bits)
  | Addr6 b _ => Addr6 (maskValue 128 b bits) ""
  end.
Proof.
  intros Hb Ha. unfold addrPrefix.
  rewrite (proj2 (Z.ltb_ge bits 0)), bool_decide_eq_false_2, (proj2 (Z.ltb_ge _ _)) by (done || lia).
  by destruct a.
Qed.

(** Two prefixes that do not overlap share no address. *)
Lemma Overlaps_disjoint p q a :
  Overlaps p q = false -> pfxBits p <= BitLen (pfxAddr p) -> pfxBits q <= BitLen (pfxAddr q) ->
  Contains p a = true -> Contains q a = true -> False.
Proof.
  intros Ho Hp Hq (Hp0 & HLp & H4p & Ha & Ep)%Contains_inv (Hq0 & HLq & H4q & _ & Eq)%Contains_inv.
  rewrite HLp in Hp. rewrite HLq in Hq. unfold Overlaps, PrefixIsValid in Ho.
  rewrite (proj2 (Z.leb_le 0 (pfxBits p))), (proj2 (Z.leb_le 0 (pfxBits q))) in Ho by done. simpl in Ho.
  case_bool_decide; [done|]. rewrite H4p, H4q, eqb_reflx in Ho. simpl in Ho.
  destruct (Z.eqb_spec (Z.min (pfxBits p) (pfxBits q)) 0); [done|].
  apply bool_decide_eq_false in Ho. apply Ho. clear Ho.
  set (m := Z.min (pfxBits p) (pfxBits q)) in *.
  assert (forall x, Z.shiftr (addrValue x) (BitLen a - m) = Z.shiftr (addrValue a) (BitLen a - m) ->
    Is4 x = Is4 a -> BitLen x = BitLen a ->
    pfxAddr (addrPrefix x m) = match a with
      | AddrZero => AddrZero
      | Addr4 b => Addr4 (maskValue 32 b m)
      | Addr6 b _ => Addr6 (maskValue 128 b m) "" end) as Hm.
  { intros x Ex H4 HL. rewrite addrPrefix_addr by (destruct x, a; simpl in *; try done; lia).
    destruct x, a; simpl in *; try done; unfold maskValue; by rewrite Ex. }
  rewrite (Hm (pfxAddr p)), (Hm (pfxAddr q)); try done.
  - refine (shiftr_coarser _ _ _ _ _ Eq). lia.
  - refine (shiftr_coarser _ _ _ _ _ Ep). lia.
Qed.

Definition addrOk (a : Addr) : Prop := a <> AddrZero /\ 0 <= addrValue a < 2 ^ BitLen a.

Lemma bigEndian_range b acc n :
  Forall isByte b -> 0 <= acc < 2 ^ n -> 0 <= n ->
  0 <= foldl (fun acc x => acc * 2 ^ 8 + x) acc b < 2 ^ (n + 8 * Z.of_nat (length b)).
Proof.
  revert acc n. induction b as [|x b IH]; intros acc n Hb Hacc Hn; simpl.
  - by rewrite Z.add_0_r.
  - apply Forall_cons in Hb as [Hx Hb]. unfold isByte in Hx.
    replace (n + 8 * Z.of_nat (S (length b))) with ((n + 8) + 8 * Z.of_nat (length b)) by lia.
    apply IH; [done| |lia]. rewrite Z.pow_add_r by lia. lia.
Qed.

Lemma AddrFromSlice_ok b : Forall isByte b -> AddrFromSlice b <> AddrZero -> addrOk (AddrFromSlice b).
Proof.
  intros Hb Hne. split; [done|].
  pose proof (bigEndian_range b 0 0 Hb ltac:(lia) ltac:(lia)) as Hr. revert Hne. unfold AddrFromSlice.
  case_bool_decide as E4; [by rewrite E4 in Hr|]. case_bool_decide as E6; [by rewrite E6 in Hr|done].
Qed.

Lemma parseIPv4Fields_ok fields val digLen s out :
  parseIPv4Fields fields val digLen s = Some out -> (length fields <= 3)%nat ->
  Forall isByte fields -> isByte val -> length out = 4%nat /\ Forall isByte out.
Proof.
  revert fields val digLen. induction s as [|c s IH]; intros fields val digLen; cbn [parseIPv4Fields].
  - case_bool_decide; [done|]. intros [= <-] Hl Hf Hv. rewrite length_app. simpl. split; [lia|].
    apply Forall_app. split; [done|by apply Forall_singleton].
  - intros H Hl Hf Hv. destruct (digitValue c) as [d|] eqn:Ed.
    + destruct (_ && _); [done|]. destruct (Z.ltb_spec 255 (10 * val + d)); [done|].
      apply IH in H; try done. unfold isByte, digitValue in *. repeat case_match; simplify_eq; lia.
    + destruct (Ascii.eqb c _); [|done]. destruct (_ || _); [done|].
      case_bool_decide; [done|]. apply IH in H; try done.
      * rewrite length_app. simpl. lia.
      * apply Forall_app. split; [done|by apply Forall_singleton].
Qed.

Lemma hexGroup_range off acc s acc' off' rest :
  hexGroup off acc s = Some (acc', off', rest) -> (off <= 4)%nat -> 0 <= acc < 16 ^ Z.of_nat off ->
  0 <= acc' < 2 ^ 16.
Proof.
  revert off acc. induction s as [|c s IH]; intros off acc; cbn [hexGroup].
  - intros [= <- <- <-] Ho Ha. split; [lia|].
    pose proof (Z.pow_le_mono_r 16 (Z.of_nat off) 4 ltac:(lia) ltac:(lia)). lia.
  - destruct (hexValue c) as [d|] eqn:Ed; intros H Ho Ha.
    + case_bool_decide; [done|]. apply hexValue_range in Ed. apply IH in H; [done|lia|].
      rewrite Nat2Z.inj_succ, Z.pow_succ_r by lia. lia.
    + injection H as <- <- <-. split; [lia|].
      pose proof (Z.pow_le_mono_r 16 (Z.of_nat off) 4 ltac:(lia) ltac:(lia)). lia.
Qed.

Lemma parseIPv6Groups_ok fuel ip ellipsis s ip' ellipsis' rest :
  parseIPv6Groups fuel ip ellipsis s = Some (ip', ellipsis', rest) -> Forall isByte ip -> Forall isByte ip'.
Proof.
  revert ip ellipsis s. induction fuel as [|fuel IH]; intros ip ellipsis s; cbn [parseIPv6Groups].
  - by intros [= <- _ _].
  - destruct (hexGroup 0 0 s) as [[[acc off] rest0]|] eqn:Eg; [|done]. cbn [mbind option_bind].
    apply hexGroup_range in Eg; [|lia..]. intros H Hip.
    assert (Forall isByte (ip ++ [acc / 2 ^ 8; acc mod 2 ^ 8])) as Hip'.
    { apply Forall_app. split; [done|]. unfold isByte.
      pose proof (Z.mod_pos_bound acc (2 ^ 8) ltac:(lia)). pose proof (Z.div_pos acc (2 ^ 8)).
      pose proof (Z.div_lt_upper_bound acc (2 ^ 8) (2 ^ 8)). repeat constructor; lia. }
    repeat (case_match; simplify_eq/=; try done; eauto).
    destruct (parseIPv4Fields [] 0 0 s) as [fields|] eqn:Ef; [|done]. simplify_eq/=.
    apply parseIPv4Fields_ok in Ef as [_ Hf]; [|simpl; lia|constructor|unfold isByte; lia].
    by apply Forall_app.
Qed.

Lemma zero_bytes n : Forall isByte (replicate n 0).
Proof. apply Forall_replicate. unfold isByte. lia. Qed.

Lemma parseIPv6Bytes_ok s out : parseIPv6Bytes s = Some out -> Forall isByte out.
Proof.
  unfold parseIPv6Bytes.
  destruct (match s with ":"%char :: ":"%char :: s => _ | _ => _ end) as [ellipsis s'].
  destruct (_ && _); [intros [= <-]; apply (zero_bytes 16)|].
  destruct (parseIPv6Groups 8 [] ellipsis s') as [[[ip e] rest]|] eqn:E; [|done].
  cbn [mbind option_bind]. apply parseIPv6Groups_ok in E; [|constructor].
  destruct (negb _); [done|]. case_bool_decide.
  - destruct e as [e|]; simpl; [|done]. intros [= <-].
    repeat apply Forall_app_2; [by apply Forall_take|apply zero_bytes|by apply Forall_drop].
  - destruct e; [done|]. by intros [= <-].
Qed.

Lemma ParseAddr_ok s a : ParseAddr s = Some a -> addrOk a.
Proof.
  unfold ParseAddr. generalize (String.list_ascii_of_string s) at 1 as whole. intros whole.
  induction (String.list_ascii_of_string s) as [|c cs IH]; [done|].
  assert (parseIPv4 whole = Some a -> addrOk a) as H4.
  { unfold parseIPv4. destruct (parseIPv4Fields [] 0 0 whole) as [fields|] eqn:Ef; [|done].
    apply parseIPv4Fields_ok in Ef as [Hl Hf]; [|simpl; lia|constructor|unfold isByte; lia].
    intros [= <-]. apply AddrFromSlice_ok; [done|]. unfold AddrFromSlice. by rewrite bool_decide_eq_true_2. }
  assert (parseIPv6 whole = Some a -> addrOk a) as H6.
  { unfold parseIPv6. destruct (cutZone whole) as [s' zone].
    intros H. assert (exists ip b z, Forall isByte ip /\ AddrFromSlice ip = Addr6 b "" /\ a = Addr6 b z)
      as (ip & b & z & Hip & E & ->).
    { destruct (parseIPv6Bytes s') as [ip|] eqn:E; [|by repeat case_match]. apply parseIPv6Bytes_ok in E.
      cbn [mbind option_bind] in H. destruct (AddrFromSlice ip) as [| |b z] eqn:Ea; [by repeat case_match..|].
      assert (z = "") as ->.
      { revert Ea. unfold AddrFromSlice. repeat case_bool_decide; congruence. }
      destruct zone as [[|x zone]|]; [done|..]; injection H as <-; eauto 10. }
    apply AddrFromSlice_ok in Hip; [|by rewrite E]. rewrite E in Hip. by destruct Hip. }
  simpl. repeat (case_match; eauto; try done).
Qed.

(** A parsed prefix has a length its address can have, and no zone. *)
Definition prefixOk (p : Prefix) : Prop :=
  addrOk (pfxAddr p) /\ withoutZone (pfxAddr p) = pfxAddr p /\ 0 <= pfxBits p <= BitLen (pfxAddr p).

Lemma ParsePrefix_ok s p : ParsePrefix s = Some p -> prefixOk p.
Proof.
  unfold ParsePrefix. destruct (cutLastSlash s) as [[before after]|]; [|done]. simpl.
  destruct (ParseAddr before) as [ip|] eqn:Eip; [|done]. simpl. apply ParseAddr_ok in Eip. intros Hp.
  destruct (Is6 ip && _) eqn:Ez; [done|]. destruct (badBits after); [done|].
  destruct (Atoi after) as [bits|]; [|done]. simpl in Hp.
  destruct (Z.ltb_spec bits 0); [done|]. destruct (Z.ltb_spec (BitLen ip) bits); [done|].
  simpl in Hp. injection Hp as <-.
  assert (withoutZone ip = ip) as Ew.
  { destruct ip; [done..|]. simpl Is6 in Ez. rewrite andb_true_l, negb_false_iff, bool_decide_eq_true in Ez. done. }
  unfold PrefixFrom, prefixOk. simpl. rewrite Ew. destruct Eip as [Hne Hr].
  rewrite bool_decide_eq_false_2, (proj2 (Z.leb_le 0 bits)), (proj2 (Z.leb_le bits (BitLen ip))) by (done || lia).
  simpl. split_and!; try done; lia.
Qed.

#[export] Instance Addr_countable : Countable Addr.
Proof.
  refine (inj_countable'
    (fun a => match a with AddrZero => inl () | Addr4 b => inr (inl b) | Addr6 b z => inr (inr (b, z)) end)
    (fun x => match x with inl () => AddrZero | inr (inl b) => Addr4 b | inr (inr (b, z)) => Addr6 b z end) _).
  by intros [].
Defined.
