(* ===== verification/Text.v ===== *)
(** * Text: white space of package [strings]

    [TrimSpace] on the bytes of a string. *)

From S2P Require Import Prelude.
From S2P Require Import Netip.
From S2P Require Import Bytes.

(** The white space of Unicode, in UTF-8. *)
Definition spaces : list (list Z) :=
  [[9]; [10]; [11]; [12]; [13]; [32]; [0xC2; 0x85]; [0xC2; 0xA0]; [0xE1; 0x9A; 0x80];
   [0xE2; 0x80; 0x80]; [0xE2; 0x80; 0x81]; [0xE2; 0x80; 0x82]; [0xE2; 0x80; 0x83]; [0xE2; 0x80; 0x84];
   [0xE2; 0x80; 0x85]; [0xE2; 0x80; 0x86]; [0xE2; 0x80; 0x87]; [0xE2; 0x80; 0x88]; [0xE2; 0x80; 0x89];
   [0xE2; 0x80; 0x8A]; [0xE2; 0x80; 0xA8]; [0xE2; 0x80; 0xA9]; [0xE2; 0x80; 0xAF]; [0xE2; 0x81; 0x9F];
   [0xE3; 0x80; 0x80]].

Definition startsWith (s prefix : list Z) : bool := bool_decide (take (length prefix) s = prefix).

(** Drops leading runes of a set; each takes a byte, so the length is enough. *)
Fixpoint trimRunes (fuel : nat) (runes : list (list Z)) (s : list Z) : list Z :=
  match fuel with
  | O => s
  | S fuel =>
      match List.find (startsWith s) runes with
      | Some rune => trimRunes fuel runes (drop (length rune) s)
      | None => s
      end
  end.

Definition trimSpace (s : list Z) : list Z :=
  let s := trimRunes (length s) spaces s in
  reverse (trimRunes (length s) (map reverse spaces) (reverse s)).

Definition TrimSpace (s : string) : string := stringOf (trimSpace (bytesOf s)).
