(* ===== verification/DeviceClass.v ===== *)
(** * Device classes

    [deviceclass/deviceclass.go]: what an authored device type means.  A type
    is the string the schema spells. *)

From S2P Require Import Prelude.
From S2P Require Import Netip.
From S2P Require Import Bytes.
From S2P Require Import Oid.
From S2P Require Import Text.

Module deviceclass.

Definition Router : string := "router".
Definition Switch : string := "switch".
Definition Layer3Switch : string := "layer3-switch".
Definition AP : string := "ap".
Definition AccessPoint : string := "access-point".
Definition Firewall : string := "firewall".
Definition Server : string := "server".
Definition Host : string := "host".
Definition Workstation : string := "workstation".
Definition IoT : string := "iot".
Definition Printer : string := "printer".
Definition VoipPhone : string := "voip-phone".
Definition Unknown : string := "".

Definition All : list string :=
  [Router; Switch; Layer3Switch; AP; AccessPoint; Firewall; Server; Host; Workstation; IoT; Printer; VoipPhone].

Definition IsKnown (t : string) : bool := bool_decide (t ∈ All).

Definition aliases : gmap string string := list_to_map
  [("access_point"%string, AccessPoint); ("accesspoint"%string, AccessPoint); ("wireless-ap"%string, AccessPoint);
   ("wireless_ap"%string, AccessPoint); ("voip_phone"%string, VoipPhone); ("phone"%string, VoipPhone);
   ("pc"%string, Workstation); ("client"%string, Workstation)].

Definition Parse (raw : string) : string :=
  let lowered := ToLower (TrimSpace raw) in
  if IsKnown lowered then lowered
  else match aliases !! lowered with Some resolved => resolved | None => Unknown end.

Definition Forwards (t : string) : bool :=
  bool_decide (t ∈ [Router; Switch; Layer3Switch; AP; AccessPoint; Firewall]).

Definition RunsLLDPByDefault (t : string) : bool :=
  bool_decide (t ∈ [Router; Switch; Layer3Switch; AP; AccessPoint; Firewall; VoipPhone]).

Definition RoutesIP (t : string) : bool := bool_decide (t ∈ [Router; Layer3Switch; Firewall]).

Definition IsEndpoint (t : string) : bool :=
  bool_decide (t ∈ [Server; Host; Workstation; IoT; Printer; VoipPhone]).

End deviceclass.

Example parse_types :
  deviceclass.Parse <$> [" Router "; "wireless_AP"; "voip-phone"; "mainframe"; "pc"]
  = [deviceclass.Router; deviceclass.AccessPoint; deviceclass.VoipPhone; deviceclass.Unknown; deviceclass.Workstation].
Proof. vm_compute. reflexivity. Qed.

(** Every authored type is one of the schema's or unknown, and a known one is
    either infrastructure or an endpoint; only infrastructure routes. *)
Lemma Parse_known raw : deviceclass.Parse raw = deviceclass.Unknown \/ deviceclass.Parse raw ∈ deviceclass.All.
Proof.
  unfold deviceclass.Parse, deviceclass.IsKnown. case_bool_decide as H; [by right|].
  destruct (deviceclass.aliases !! _) as [t|] eqn:E; [|by left]. right.
  assert (map_Forall (fun _ t => t ∈ deviceclass.All) deviceclass.aliases) as Ha
    by (apply (bool_decide_unpack _); vm_compute; exact I).
  exact (Ha _ _ E).
Qed.
