(* ===== verification/FabricTypes.v ===== *)
(** * The fabric compiler: data

    What [internal/fabric/types.go] declares, and what the compiler reads of a
    scenario ([config/types.go], in the module [config]).  A nil [net.IP] is the
    empty list.  A diagnostic's message is prose for people and is left out;
    its code and its field are kept. *)

From S2P Require Import Prelude.
From S2P Require Import Netip.
From S2P Require Import Bytes.
From S2P Require Import NetipParse.

(** ** The scenario *)

Module config.

Record Network := mkNetwork { nwName : string; nwSubnet : string; nwSubnetV6 : string; nwVirtualVLAN : Z }.

Record AttachmentPort := mkAttachmentPort { apDevice : string; apPorts : list string }.
Record AttachmentPin := mkAttachmentPin { pnMAC : string; pnDevice : string; pnInterface : string }.
Record LogicalAttachment := mkLogicalAttachment {
  laName : string; laNetwork : string; laAt : list AttachmentPort; laPins : list AttachmentPin
}.

Record Route := mkRoute { rtDestination : string; rtVia : string; rtNextHop : string }.

Record Interface := mkInterface {
  ifName : string; ifNetwork : string; ifAddress : string; ifAddressV6 : string; ifDHCPRelay : string; ifVLANs : list Z
}.

Record DHCPScope := mkDHCPScope { dsPoolStart : list Z; dsPoolEnd : list Z; dsRouter : list Z }.
Record DHCPLease := mkDHCPLease { dlClientIP : list Z; dlMACAddress : list Z; dlMACMask : list Z }.
Record DHCPConfig := mkDHCPConfig {
  dcRouter : list Z; dcDomainNameServer : list (list Z); dcServerIdentifier : list Z; dcNextServerIP : list Z;
  dcPoolStart : list Z; dcPoolEnd : list Z; dcClientLeases : list DHCPLease; dcScopes : list DHCPScope
}.

Record PortChannel := mkPortChannel { pcID : Z; pcMembers : list string }.
Record TrunkPort := mkTrunkPort {
  tpInterface : string; tpVLANs : list Z; tpNativeVLAN : Z; tpRemoteDevice : string; tpFDBOnly : bool
}.

Record Device := mkDevice {
  dvName : string; dvType : string; dvInterfaces : list Interface; dvRoutes : list Route;
  dvDHCPConfig : option DHCPConfig; dvTrunkPorts : list TrunkPort; dvPortChannels : list PortChannel
}.

Record Config := mkConfig { cfDevices : list Device; cfNetworks : list Network; cfAttachments : list LogicalAttachment }.

End config.

(** ** Codes *)

Definition ModeDirect : string := "direct".
Definition ModeAccess : string := "access".
Definition ModeTrunk : string := "trunk".

Inductive DiagnosticCode :=
| CodeAttachmentPolicyDenied | CodeHostInterfaceUnavailable | CodeInvalidAccessVLAN | CodeInvalidAttachmentMode
| CodeUnknownAttachment | CodeUnknownNetwork | CodeInvalidNetwork | CodeInvalidVirtualVLAN | CodeDuplicateNetwork
| CodeDuplicateDevice | CodeDuplicateInterface | CodeDuplicateInterfaceAddr | CodeOverlappingNetworks
| CodeInvalidInterfaceAddress | CodeAddressOutsideNetwork | CodeInterfacePrefixMismatch | CodeReservedInterfaceAddr
| CodeUnknownRouteInterface | CodeInvalidRoute | CodeInvalidRouteNextHop | CodeRouteNextHopOffLink
| CodeUnknownRouteNextHop | CodeRouteNextHopSelf | CodeDHCPNetworkAmbiguous | CodeDHCPPoolOutsideNetwork
| CodeInvalidDHCPRange | CodeInvalidDHCPRouter | CodeInvalidDHCPLease | CodeInvalidDHCPOption
| CodeReservedDHCPAddress | CodeDHCPAddressCollision | CodeInvalidDHCPRelay | CodeAttachmentFormAmbiguous
| CodeUnknownAttachmentDevice | CodeUnknownAttachmentPort | CodeDuplicateAttachmentPort | CodeAttachmentPoolEmpty
| CodeAttachmentPortOccupied | CodeAttachmentPortVLANUnresolved | CodeAttachmentPortNetworkUnresolved
| CodeAttachmentPortNetworkAmbiguous | CodeAttachmentPoolNetworksDiffer | CodeAttachmentPinOutsidePool
| CodeAttachmentPinDuplicate | CodeInvalidAttachmentPinMAC.

#[export] Instance DiagnosticCode_eq_dec : EqDecision DiagnosticCode.
Proof. solve_decision. Defined.

Definition bindingDiagnosticCodes : list DiagnosticCode :=
  [CodeAttachmentPolicyDenied; CodeHostInterfaceUnavailable; CodeInvalidAccessVLAN; CodeInvalidAttachmentMode;
   CodeUnknownAttachment].

Definition IsBinding (c : DiagnosticCode) : bool := bool_decide (c ∈ bindingDiagnosticCodes).

(** ** Results *)

Record Binding := mkBinding {
  bnAttachment : string; bnInterface : string; bnMode : string; bnAccessVLAN : Z; bnPolicyApproved : bool
}.
Definition noBinding : Binding := mkBinding "" "" "" 0 false.

Record PhysicalAttachmentPolicy := mkPolicy {
  ppInterface : string; ppMode : string; ppAccessVLAN : Z; ppAllowedVLANs : list Z
}.

Definition Approves (p : PhysicalAttachmentPolicy) (binding : Binding) : bool :=
  if negb (bool_decide (ppInterface p = bnInterface binding)) || negb (bool_decide (ppMode p = bnMode binding)) then false
  else if negb (bool_decide (ppMode p = ModeTrunk)) then ppAccessVLAN p =? bnAccessVLAN binding
  else bool_decide (bnAccessVLAN binding ∈ ppAllowedVLANs p).

Record CompiledBinding := mkCompiledBinding { cbBinding : Binding; cbNetwork : string; cbWireTagged : bool }.

Record Network := mkNetwork { ntName : string; ntPrefix : Prefix; ntPrefixV6 : Prefix; ntVirtualVLAN : Z }.

Record Interface := mkInterface {
  itDevice : string; itName : string; itNetwork : string; itAddress : Prefix; itAddressV6 : Prefix
}.

Record Route := mkRoute {
  roDevice : string; roDestination : Prefix; roVia : string; roNextHop : Addr; roConnected : bool
}.

Record DHCPRelay := mkDHCPRelay { drDevice : string; drInterface : string; drAddress : Addr; drServer : Addr }.
Definition noRelay : DHCPRelay := mkDHCPRelay "" "" AddrZero AddrZero.

Record DHCPScope := mkDHCPScope {
  dsDevice : string; dsNetwork : string; dsStart : Addr; dsEnd : Addr; dsRouter : Addr; dsRelay : DHCPRelay
}.

Record AttachmentPort := mkAttachmentPort { atDevice : string; atInterface : string; atVLAN : Z; atNetwork : string }.
Record AttachmentPin := mkAttachmentPin { piMAC : string; piDevice : string; piInterface : string }.
Record CompiledAttachment := mkCompiledAttachment {
  caName : string; caNetwork : string; caPorts : list AttachmentPort; caPins : list AttachmentPin
}.

Record Topology := mkTopology {
  tyBinding : CompiledBinding; tyNetworks : list Network; tyInterfaces : list Interface; tyRoutes : list Route;
  tyDHCPScopes : list DHCPScope; tyAttachments : list CompiledAttachment
}.
#[export] Instance Topology_rebuild : Rebuild Topology := fun t =>
  mkTopology (tyBinding t) (tyNetworks t) (tyInterfaces t) (tyRoutes t) (tyDHCPScopes t) (tyAttachments t).

Definition NewTopology : Topology := mkTopology (mkCompiledBinding noBinding "" false) [] [] [] [] [].

Record Diagnostic := mkDiagnostic { dgCode : DiagnosticCode; dgField : string }.

Record Report := mkReport { reSafe : bool; reTopology : Topology; reDiagnostics : list Diagnostic }.
#[export] Instance Report_rebuild : Rebuild Report := fun r => mkReport (reSafe r) (reTopology r) (reDiagnostics r).

Definition NewReport : Report := mkReport false NewTopology [].
