(* ===== verification/Fabric.v ===== *)
(** * The fabric compiler: networks, interfaces, routes and the binding

    [fabric/compiler.go], the interface and route part of
    [compiler_devices.go], and [route_validation.go].  A method of
    [scenarioCompiler] is a step of the state monad [Compiling]; the fields of
    the compiler are the state. *)

From S2P Require Import Prelude.
From S2P Require Import Netip.
From S2P Require Import Bytes.
From S2P Require Import NetipParse.
From S2P Require Import Safeconv.
From S2P Require Import DeviceClass.
From S2P Require Import FabricTypes.

(** ** The compiler's state *)

Record dhcpLeaseMAC := mkLeaseMAC { lmAddress : list Z; lmMask : list Z; lmDevice : string }.

Record dhcpRelaySource := mkRelaySource {
  rsDevice : config.Device; rsIface : Interface; rsTarget : string; rsField : string; rsAddress : Addr
}.
#[export] Instance dhcpRelaySource_rebuild : Rebuild dhcpRelaySource := fun r =>
  mkRelaySource (rsDevice r) (rsIface r) (rsTarget r) (rsField r) (rsAddress r).

Record scenarioCompiler := mkCompiler {
  scCfg : option config.Config; scBinding : Binding; scNetworks : gmap string Network; scDevices : gset string;
  scAddresses : gmap Addr string; scLeaseAddresses : gmap Addr string; scLeaseMACs : list dhcpLeaseMAC;
  scRelays : list dhcpRelaySource; scReport : Report
}.
#[export] Instance scenarioCompiler_rebuild : Rebuild scenarioCompiler := fun c =>
  mkCompiler (scCfg c) (scBinding c) (scNetworks c) (scDevices c) (scAddresses c) (scLeaseAddresses c) (scLeaseMACs c)
    (scRelays c) (scReport c).

Definition newScenarioCompiler (cfg : option config.Config) (binding : Binding) : scenarioCompiler :=
  mkCompiler cfg binding ∅ ∅ ∅ ∅ [] [] NewReport.

(** ** Steps *)

Definition Compiling (A : Type) : Type := scenarioCompiler -> A * scenarioCompiler.

#[export] Instance Compiling_ret : MRet Compiling := fun A x c => (x, c).
#[export] Instance Compiling_bind : MBind Compiling := fun A B k m c => let '(x, c) := m c in k x c.

Definition gets {A} (f : scenarioCompiler -> A) : Compiling A := fun c => (f c, c).
Definition modify (f : scenarioCompiler -> scenarioCompiler) : Compiling unit := fun c => (tt, f c).

Definition scTopology (c : scenarioCompiler) : Topology := reTopology (scReport c).
Definition onTopology (f : Topology -> Topology) : Compiling unit :=
  modify (fun c => c <| scReport := (scReport c) <| reTopology := f (scTopology c) |> |>).

(** A [for i, x := range xs] loop. *)
Fixpoint forRange {X} (body : nat -> X -> Compiling unit) (i : nat) (xs : list X) : Compiling unit :=
  match xs with
  | [] => mret tt
  | x :: xs => body i x;; forRange body (S i) xs
  end.

Definition add (code : DiagnosticCode) (field : string) : Compiling unit :=
  modify (fun c => c <| scReport := (scReport c)
    <| reDiagnostics := reDiagnostics (scReport c) ++ [mkDiagnostic code field] |> |>).

Definition indexed (name : string) (i : nat) : string := name +:+ "[" +:+ pretty i +:+ "]".

(** ** The physical binding *)

Definition validateBindingMode : Compiling unit :=
  b ← gets scBinding;
  if bool_decide (bnMode b = ""%string) then add CodeInvalidAttachmentMode "mode"
  else
    (if negb (bnPolicyApproved b) then add CodeAttachmentPolicyDenied "interface" else mret tt);;
    if bool_decide (bnMode b = ModeDirect) then
      if negb (bnAccessVLAN b =? 0) then add CodeInvalidAccessVLAN "accessVlan" else mret tt
    else if bool_decide (bnMode b = ModeAccess) then
      if (bnAccessVLAN b <? 1) || (4094 <? bnAccessVLAN b) then add CodeInvalidAccessVLAN "accessVlan" else mret tt
    else if bool_decide (bnMode b = ModeTrunk) then
      if (bnAccessVLAN b <? 1) || (4094 <? bnAccessVLAN b) then add CodeInvalidAccessVLAN "accessVlan" else mret tt
    else add CodeInvalidAttachmentMode "mode".

Definition wireTagged (b : Binding) : bool := bool_decide (bnMode b = ModeTrunk).

Definition compileBinding : Compiling unit :=
  validateBindingMode;;
  cfg ← gets scCfg;
  b ← gets scBinding;
  match cfg with
  | None => add CodeUnknownAttachment "attachment"
  | Some cfg =>
      match List.find (fun a => bool_decide (config.laName a = bnAttachment b)) (config.cfAttachments cfg) with
      | Some a => onTopology (fun t => t <| tyBinding := mkCompiledBinding b (config.laNetwork a) (wireTagged b) |>)
      | None => add CodeUnknownAttachment "attachment"
      end
  end.

(** [bindPoolNetwork] *)
Definition bindPoolNetwork : Compiling unit :=
  b ← gets scBinding;
  t ← gets scTopology;
  if bool_decide (bnAttachment b = ""%string) || negb (bool_decide (cbNetwork (tyBinding t) = ""%string)) then mret tt
  else
    match List.find (fun a => bool_decide (caName a = bnAttachment b)) (tyAttachments t) with
    | Some a =>
        onTopology (fun t => t <| tyBinding :=
          mkCompiledBinding (cbBinding (tyBinding t)) (caNetwork a) (cbWireTagged (tyBinding t)) |>)
    | None => mret tt
    end.

(** ** Networks *)

Definition parseCanonicalPrefix (value : string) : option Prefix :=
  prefix ← ParsePrefix value;
  if negb (Is4 (pfxAddr prefix)) then None
  else if negb (bool_decide (prefix = Masked prefix)) then None
  else Some prefix.

Definition parseCanonicalPrefixV6 (value : string) : option Prefix :=
  prefix ← ParsePrefix value;
  if negb (Is6 (pfxAddr prefix)) || Is4In6 (pfxAddr prefix) then None
  else if negb (bool_decide (prefix = Masked prefix)) then None
  else if IsSingleIP prefix then None
  else if negb (IsGlobalUnicast (pfxAddr prefix)) then None
  else Some prefix.

(** [None] is the [false] of the source. *)
Definition compileSubnetV6 (field value : string) : Compiling (option Prefix) :=
  if bool_decide (value = ""%string) then mret (Some PrefixZero)
  else
    match parseCanonicalPrefixV6 value with
    | None => add CodeInvalidNetwork (field +:+ ".subnet_v6");; mret None
    | Some prefix => mret (Some prefix)
    end.

Fixpoint overlapField (candidate : Network) (networks : list Network) : option string :=
  match networks with
  | [] => None
  | network :: networks =>
      if Overlaps (ntPrefix network) (ntPrefix candidate) then Some ".subnet"%string
      else if PrefixIsValid (ntPrefixV6 network) && Overlaps (ntPrefixV6 network) (ntPrefixV6 candidate)
      then Some ".subnet_v6"%string
      else overlapField candidate networks
  end.

Definition checkOverlap (field : string) (candidate : Network) : Compiling unit :=
  networks ← gets (tyNetworks ∘ scTopology);
  match overlapField candidate networks with
  | Some suffix => add CodeOverlappingNetworks (field +:+ suffix)
  | None => mret tt
  end.

Definition compileNetwork (i : nat) (source : config.Network) : Compiling unit :=
  let field := indexed "networks" i in
  match parseCanonicalPrefix (config.nwSubnet source) with
  | None => add CodeInvalidNetwork (field +:+ ".subnet")
  | Some prefix =>
      networks ← gets scNetworks;
      if bool_decide (is_Some (networks !! config.nwName source)) then add CodeDuplicateNetwork (field +:+ ".name")
      else if (config.nwVirtualVLAN source <? 0) || (4094 <? config.nwVirtualVLAN source)
      then add CodeInvalidVirtualVLAN (field +:+ ".virtual_vlan")
      else
        prefixV6 ← compileSubnetV6 field (config.nwSubnetV6 source);
        match prefixV6 with
        | None => mret tt
        | Some prefixV6 =>
            let network := mkNetwork (config.nwName source) prefix prefixV6 (Uint16 (config.nwVirtualVLAN source)) in
            checkOverlap field network;;
            modify (fun c => c <| scNetworks := <[config.nwName source := network]> (scNetworks c) |>);;
            onTopology (fun t => t <| tyNetworks := tyNetworks t ++ [network] |>)
        end
  end.

Definition validateAttachmentNetwork : Compiling unit :=
  t ← gets scTopology;
  networks ← gets scNetworks;
  let name := cbNetwork (tyBinding t) in
  if bool_decide (name = ""%string) then mret tt
  else if bool_decide (is_Some (networks !! name)) then mret tt
  else add CodeUnknownNetwork "attachment".

Definition compileNetworks : Compiling unit :=
  cfg ← gets scCfg;
  match cfg with
  | None => mret tt
  | Some cfg => forRange compileNetwork 0 (config.cfNetworks cfg);; validateAttachmentNetwork
  end.

(** ** Addresses of interfaces *)

Definition maxUsableEndpointPrefixLen : Z := 30.
Definition maxAnycastPrefixLenV6 : Z := 127.
Definition fullByteMask : Z := 0xff.

(** The bytes of an IPv4 prefix with every host bit set; [As4] of another
    address is a run-time error, and the compiler calls this for IPv4 only. *)
Definition broadcastAddress (prefix : Prefix) : Addr :=
  let bytes := big32 (addrValue (pfxAddr prefix)) in
  let wholeBytes := Z.to_nat (pfxBits prefix / 8) in
  let remainingBits := pfxBits prefix mod 8 in
  let '(bytes, wholeBytes) :=
    if negb (remainingBits =? 0) then
      (alter (fun b => Z.lor b (Z.shiftr fullByteMask remainingBits)) wholeBytes bytes, S wholeBytes)
    else (bytes, wholeBytes) in
  AddrFromSlice (take wholeBytes bytes ++ replicate (length bytes - wholeBytes) fullByteMask).

Definition isReservedEndpoint (prefix : Prefix) (address : Addr) : bool :=
  if maxUsableEndpointPrefixLen <? pfxBits prefix then false
  else bool_decide (address = pfxAddr prefix) || bool_decide (address = broadcastAddress prefix).

Definition isReservedNextHop (prefix : Prefix) (address : Addr) : bool :=
  if Is4 address then isReservedEndpoint prefix address
  else (pfxBits prefix <? maxAnycastPrefixLenV6) && bool_decide (address = pfxAddr prefix).

Definition refuse {A} (code : DiagnosticCode) (field : string) : Compiling (option A) := add code field;; mret None.

Definition compileInterfaceV6 (network : Network) (value field : string) : Compiling (option Prefix) :=
  if bool_decide (value = ""%string) then mret (Some PrefixZero)
  else if negb (PrefixIsValid (ntPrefixV6 network)) then refuse CodeAddressOutsideNetwork field
  else
    match ParsePrefix value with
    | None => refuse CodeInvalidInterfaceAddress field
    | Some address =>
        if negb (Is6 (pfxAddr address)) || Is4In6 (pfxAddr address) then refuse CodeInvalidInterfaceAddress field
        else if negb (Contains (ntPrefixV6 network) (pfxAddr address)) then refuse CodeAddressOutsideNetwork field
        else if negb (pfxBits address =? pfxBits (ntPrefixV6 network)) then refuse CodeInterfacePrefixMismatch field
        else if (pfxBits (ntPrefixV6 network) <? maxAnycastPrefixLenV6) &&
                bool_decide (pfxAddr address = pfxAddr (ntPrefixV6 network))
        then refuse CodeReservedInterfaceAddr field
        else
          addresses ← gets scAddresses;
          if bool_decide (is_Some (addresses !! pfxAddr address)) then refuse CodeDuplicateInterfaceAddr field
          else mret (Some address)
    end.

Definition compileInterface (device : string) (source : config.Interface) (field : string)
    : Compiling (option Interface) :=
  networks ← gets scNetworks;
  match networks !! config.ifNetwork source with
  | None => refuse CodeUnknownNetwork (field +:+ ".network")
  | Some network =>
      let field4 := field +:+ ".address" in
      match ParsePrefix (config.ifAddress source) with
      | None => refuse CodeInvalidInterfaceAddress field4
      | Some address =>
          if negb (Is4 (pfxAddr address)) then refuse CodeInvalidInterfaceAddress field4
          else if negb (Contains (ntPrefix network) (pfxAddr address)) then refuse CodeAddressOutsideNetwork field4
          else if negb (pfxBits address =? pfxBits (ntPrefix network)) then refuse CodeInterfacePrefixMismatch field4
          else if isReservedEndpoint (ntPrefix network) (pfxAddr address) then refuse CodeReservedInterfaceAddr field4
          else
            addresses ← gets scAddresses;
            if bool_decide (is_Some (addresses !! pfxAddr address)) then refuse CodeDuplicateInterfaceAddr field4
            else
              addressV6 ← compileInterfaceV6 network (config.ifAddressV6 source) (field +:+ ".address_v6");
              match addressV6 with
              | None => mret None
              | Some addressV6 =>
                  modify (fun c => c <| scAddresses := <[pfxAddr address := device]> (scAddresses c) |>);;
                  (if PrefixIsValid addressV6 then
                     modify (fun c => c <| scAddresses := <[pfxAddr addressV6 := device]> (scAddresses c) |>)
                   else mret tt);;
                  mret (Some (mkInterface device (config.ifName source) (config.ifNetwork source) address addressV6))
              end
      end
  end.

(** ** Routes *)

Record StaticRouteSpec := mkRouteSpec { srDevice : string; srDestination : string; srVia : string; srNextHop : string }.

Definition parseRouteDestination (value : string) : option Prefix :=
  match ParsePrefix value with
  | None => parseCanonicalPrefix value
  | Some prefix =>
      if negb (Is6 (pfxAddr prefix)) || Is4In6 (pfxAddr prefix) then parseCanonicalPrefix value
      else if negb (bool_decide (prefix = Masked prefix)) then None
      else if negb (pfxBits prefix =? 0) && negb (IsGlobalUnicast (pfxAddr prefix)) then None
      else Some prefix
  end.

Definition ValidateStaticRoute (spec : StaticRouteSpec) (interfaces : gmap string Interface)
    (addressOwners : gmap Addr string) : Route + Diagnostic :=
  match parseRouteDestination (srDestination spec) with
  | None => inr (mkDiagnostic CodeInvalidRoute "destination")
  | Some destination =>
      match interfaces !! srVia spec with
      | None => inr (mkDiagnostic CodeUnknownRouteInterface "via")
      | Some iface =>
          match ParseAddr (srNextHop spec) with
          | None => inr (mkDiagnostic CodeInvalidRouteNextHop "next_hop")
          | Some nextHop =>
              if Is4In6 nextHop || negb (Bool.eqb (Is6 nextHop) (Is6 (pfxAddr destination)))
              then inr (mkDiagnostic CodeInvalidRouteNextHop "next_hop")
              else
                let egress := if Is6 nextHop then itAddressV6 iface else itAddress iface in
                if negb (PrefixIsValid egress) || negb (Contains (Masked egress) nextHop) ||
                   isReservedNextHop (Masked egress) nextHop
                then inr (mkDiagnostic CodeRouteNextHopOffLink "next_hop")
                else
                  match addressOwners !! nextHop with
                  | None => inr (mkDiagnostic CodeUnknownRouteNextHop "next_hop")
                  | Some owner =>
                      if bool_decide (owner = srDevice spec) then inr (mkDiagnostic CodeRouteNextHopSelf "next_hop")
                      else inl (mkRoute (srDevice spec) destination (srVia spec) nextHop false)
                  end
          end
      end
  end.

Definition appendRoute (route : Route) : Compiling unit :=
  onTopology (fun t => t <| tyRoutes := tyRoutes t ++ [route] |>).

Definition compileRoute (device : config.Device) (interfaces : gmap string Interface) (i : nat) (source : config.Route)
    : Compiling unit :=
  let field := indexed ("devices[" +:+ config.dvName device +:+ "].routes") i in
  addresses ← gets scAddresses;
  match ValidateStaticRoute
          (mkRouteSpec (config.dvName device) (config.rtDestination source) (config.rtVia source) (config.rtNextHop source))
          interfaces addresses with
  | inr diagnostic => add (dgCode diagnostic) (field +:+ "." +:+ dgField diagnostic)
  | inl route => appendRoute route
  end.

Definition compileRoutes (device : config.Device) (interfaces : gmap string Interface) : Compiling unit :=
  forRange (compileRoute device interfaces) 0 (config.dvRoutes device).

(** ** Interfaces of a device *)

Definition routesIP (device : config.Device) : bool :=
  deviceclass.RoutesIP (deviceclass.Parse (config.dvType device)).

(** What one authored interface adds: [names] are the names already used and
    [compiled] the interfaces accepted so far. *)
Definition compileOneInterface (device : config.Device) (i : nat) (source : config.Interface) (names : gset string)
    (compiled : gmap string Interface) : Compiling (gset string * gmap string Interface) :=
  if bool_decide (config.ifNetwork source = ""%string) && bool_decide (config.ifAddress source = ""%string) &&
     bool_decide (config.ifAddressV6 source = ""%string) then mret (names, compiled)
  else
    let field := indexed ("devices[" +:+ config.dvName device +:+ "].interfaces") i in
    if bool_decide (config.ifName source ∈ names) then
      add CodeDuplicateInterface (field +:+ ".name");; mret (names, compiled)
    else
      let names := {[ config.ifName source ]} ∪ names in
      iface ← compileInterface (config.dvName device) source field;
      match iface with
      | None => mret (names, compiled)
      | Some iface =>
          onTopology (fun t => t <| tyInterfaces := tyInterfaces t ++ [iface] |>);;
          (if negb (bool_decide (config.ifDHCPRelay source = ""%string)) then
             modify (fun c => c <| scRelays := scRelays c ++
               [mkRelaySource device iface (config.ifDHCPRelay source) (field +:+ ".dhcp_relay") AddrZero] |>)
           else mret tt);;
          networks ← gets scNetworks;
          (if routesIP device then
             appendRoute (mkRoute (config.dvName device)
               (default PrefixZero (ntPrefix <$> networks !! itNetwork iface)) (itName iface) AddrZero true)
           else mret tt);;
          mret (names, <[itName iface := iface]> compiled)
      end.

Fixpoint compileInterfacesFrom (device : config.Device) (i : nat) (sources : list config.Interface) (names : gset string)
    (compiled : gmap string Interface) : Compiling (gmap string Interface) :=
  match sources with
  | [] => mret compiled
  | source :: sources =>
      r ← compileOneInterface device i source names compiled;
      compileInterfacesFrom device (S i) sources r.1 r.2
  end.

Definition compileInterfaces (device : config.Device) : Compiling (gmap string Interface) :=
  compileInterfacesFrom device 0 (config.dvInterfaces device) ∅ ∅.
