(* ===== verification/FabricDhcp.v ===== *)
(** * The fabric compiler: DHCP pools, leases and relays

    The DHCP part of [fabric/compiler_devices.go] and
    [compiler_dhcp_relay.go].  Of an interface these functions read its network
    only, so the network's name stands for it: which of several interfaces of
    one network a Go map yields first cannot matter. *)

From S2P Require Import Prelude.
From S2P Require Import Netip.
From S2P Require Import Bytes.
From S2P Require Import NetipParse.
From S2P Require Import DeviceClass.
From S2P Require Import FabricTypes.
From S2P Require Import Fabric.

(** ** Addresses *)

Definition ipToAddr (ip : list Z) : Addr * bool :=
  let addr := AddrFromSlice ip in (Unmap addr, negb (bool_decide (addr = AddrZero))).

Definition hasDHCPPool (cfg : config.DHCPConfig) : bool :=
  negb (bool_decide (config.dcPoolStart cfg = [])) || negb (bool_decide (config.dcPoolEnd cfg = [])).

Definition dhcpField (device : config.Device) : string := "devices." +:+ config.dvName device +:+ ".dhcp".

(** An address of the pool, of either map: which one a Go map yields decides
    the message only. *)
Definition anyBetween {A} (addresses : gmap Addr A) (start stop : Addr) : bool :=
  existsb (fun '(address, _) => between address start stop) (map_to_list addresses).

Definition poolsOverlap (network : string) (start stop : Addr) (scope : DHCPScope) : bool :=
  bool_decide (dsNetwork scope = network) && negb (addrGt start (dsEnd scope)) && negb (addrGt (dsStart scope) stop).

Definition validateDHCPPoolCollisions (device : config.Device) (network : string) (start stop : Addr) : Compiling bool :=
  let field := dhcpField device in
  addresses ← gets scAddresses;
  scopes ← gets (tyDHCPScopes ∘ scTopology);
  leases ← gets scLeaseAddresses;
  if anyBetween addresses start stop then add CodeDHCPAddressCollision field;; mret false
  else if existsb (poolsOverlap network start stop) scopes then add CodeDHCPAddressCollision field;; mret false
  else if anyBetween leases start stop then add CodeDHCPAddressCollision field;; mret false
  else mret true.

(** ** Options *)

Definition usableIn (network : Network) (address : Addr) : bool :=
  Contains (ntPrefix network) address && negb (isReservedEndpoint (ntPrefix network) address).

Definition badServer (server : list Z) : bool :=
  let '(address, ok) := ipToAddr server in negb ok || negb (Is4 address) || negb (IsGlobalUnicast address).

Fixpoint firstBadServer (i : nat) (servers : list (list Z)) : option nat :=
  match servers with
  | [] => None
  | server :: servers => if badServer server then Some i else firstBadServer (S i) servers
  end.

Definition badServerOption (network : Network) (option : list Z) : bool :=
  negb (bool_decide (option = [])) &&
  let '(address, ok) := ipToAddr option in negb ok || negb (Is4 address) || negb (usableIn network address).

Definition validateDHCPOptions (device : config.Device) (cfg : config.DHCPConfig) (network : Network) : Compiling bool :=
  let field := dhcpField device in
  match firstBadServer 0 (config.dcDomainNameServer cfg) with
  | Some index => add CodeInvalidDHCPOption (indexed (field +:+ ".domain_name_server") index);; mret false
  | None =>
      if badServerOption network (config.dcServerIdentifier cfg) then
        add CodeInvalidDHCPOption (field +:+ ".server_identifier");; mret false
      else if badServerOption network (config.dcNextServerIP cfg) then
        add CodeInvalidDHCPOption (field +:+ ".next_server_ip");; mret false
      else mret true
  end.

(** ** Leases *)

Definition ethernetMACBytes : nat := 6.

Definition validDHCPLeaseMAC (lease : config.DHCPLease) : bool :=
  if negb (bool_decide (length (config.dlMACAddress lease) = ethernetMACBytes)) ||
     negb (Z.land (byteAt (config.dlMACAddress lease) 0) 1 =? 0) ||
     bool_decide (config.dlMACAddress lease = replicate ethernetMACBytes 0) then false
  else bool_decide (config.dlMACMask lease = []) || bool_decide (length (config.dlMACMask lease) = ethernetMACBytes).

(** The mask's byte, or every bit for a lease without a mask. *)
Definition constraintAt (mask : list Z) (index : nat) : Z :=
  if bool_decide (mask = []) then fullByteMask else byteAt mask index.

Definition dhcpLeaseMACsOverlap (left leftMask right rightMask : list Z) : bool :=
  forallb (fun index =>
    Z.land (Z.land (Z.lxor (byteAt left index) (byteAt right index)) (constraintAt leftMask index))
      (constraintAt rightMask index) =? 0) (seq 0 ethernetMACBytes).

Definition overlappingDHCPLeaseMAC (lease : config.DHCPLease) (assigned : list dhcpLeaseMAC) : bool :=
  existsb (fun candidate =>
    dhcpLeaseMACsOverlap (config.dlMACAddress lease) (config.dlMACMask lease) (lmAddress candidate) (lmMask candidate))
    assigned.

Definition validateDHCPLeaseAddress (field : string) (address poolStart poolEnd : Addr) (pending : gmap Addr string)
    : Compiling bool :=
  addresses ← gets scAddresses;
  scopes ← gets (tyDHCPScopes ∘ scTopology);
  leases ← gets scLeaseAddresses;
  if bool_decide (is_Some (addresses !! address)) || between address poolStart poolEnd ||
     existsb (fun scope => between address (dsStart scope) (dsEnd scope)) scopes ||
     bool_decide (is_Some (leases !! address)) || bool_decide (is_Some (pending !! address))
  then add CodeDHCPAddressCollision (field +:+ ".ip");; mret false
  else mret true.

Definition validateDHCPLease (device : config.Device) (lease : config.DHCPLease) (index : nat) (network : Network)
    (poolStart poolEnd : Addr) (pending : gmap Addr string) (pendingMACs : list dhcpLeaseMAC)
    : Compiling (option (Addr * dhcpLeaseMAC)) :=
  let field := indexed (dhcpField device +:+ ".client_leases") index in
  let '(address, ok) := ipToAddr (config.dlClientIP lease) in
  if negb ok || negb (Is4 address) || negb (usableIn network address) || negb (validDHCPLeaseMAC lease)
  then refuse CodeInvalidDHCPLease field
  else
    free ← validateDHCPLeaseAddress field address poolStart poolEnd pending;
    if negb free then mret None
    else
      assigned ← gets scLeaseMACs;
      if overlappingDHCPLeaseMAC lease assigned || overlappingDHCPLeaseMAC lease pendingMACs
      then refuse CodeDHCPAddressCollision (field +:+ ".mac")
      else mret (Some (address,
                       mkLeaseMAC (config.dlMACAddress lease) (config.dlMACMask lease) (config.dvName device))).

Fixpoint validateLeasesFrom (device : config.Device) (index : nat) (leases : list config.DHCPLease) (network : Network)
    (poolStart poolEnd : Addr) (pending : gmap Addr string) (pendingMACs : list dhcpLeaseMAC)
    : Compiling (option (gmap Addr string * list dhcpLeaseMAC)) :=
  match leases with
  | [] => mret (Some (pending, pendingMACs))
  | lease :: leases =>
      r ← validateDHCPLease device lease index network poolStart poolEnd pending pendingMACs;
      match r with
      | None => mret None
      | Some (address, mac) =>
          validateLeasesFrom device (S index) leases network poolStart poolEnd
            (<[address := config.dvName device]> pending) (pendingMACs ++ [mac])
      end
  end.

Definition validateDHCPLeases (device : config.Device) (cfg : config.DHCPConfig) (network : Network)
    (poolStart poolEnd : Addr) : Compiling bool :=
  r ← validateLeasesFrom device 0 (config.dcClientLeases cfg) network poolStart poolEnd ∅ [];
  match r with
  | None => mret false
  | Some (pending, pendingMACs) =>
      modify (fun c => c <| scLeaseAddresses := pending ∪ scLeaseAddresses c |>
                         <| scLeaseMACs := scLeaseMACs c ++ pendingMACs |>);;
      mret true
  end.

(** ** A server's own pool *)

Definition appendScope (scope : DHCPScope) : Compiling unit :=
  onTopology (fun t => t <| tyDHCPScopes := tyDHCPScopes t ++ [scope] |>).

Definition appendDHCPScope (device : config.Device) (cfg : config.DHCPConfig) (ifaceNetwork : string) : Compiling unit :=
  networks ← gets scNetworks;
  let network := default (mkNetwork "" PrefixZero PrefixZero 0) (networks !! ifaceNetwork) in
  let field := dhcpField device in
  let '(start, startOK) := ipToAddr (config.dcPoolStart cfg) in
  let '(stop, endOK) := ipToAddr (config.dcPoolEnd cfg) in
  if negb startOK || negb endOK || negb (Contains (ntPrefix network) start) || negb (Contains (ntPrefix network) stop)
  then add CodeDHCPPoolOutsideNetwork field
  else if addrGt start stop then add CodeInvalidDHCPRange field
  else if isReservedEndpoint (ntPrefix network) start || isReservedEndpoint (ntPrefix network) stop
  then add CodeReservedDHCPAddress field
  else
    let '(router, routerOK) := ipToAddr (config.dcRouter cfg) in
    if negb routerOK || negb (usableIn network router) then add CodeInvalidDHCPRouter (field +:+ ".router")
    else
      optionsOK ← validateDHCPOptions device cfg network;
      if negb optionsOK then mret tt
      else
        poolOK ← validateDHCPPoolCollisions device ifaceNetwork start stop;
        if negb poolOK then mret tt
        else
          leasesOK ← validateDHCPLeases device cfg network start stop;
          if negb leasesOK then mret tt
          else appendScope (mkDHCPScope (config.dvName device) ifaceNetwork start stop router noRelay).

Definition compileDHCP (device : config.Device) (interfaces : gmap string Interface) : Compiling unit :=
  match config.dvDHCPConfig device with
  | None => mret tt
  | Some cfg =>
      if negb (hasDHCPPool cfg) then mret tt
      else
        let field := dhcpField device in
        let '(start, startOK) := ipToAddr (config.dcPoolStart cfg) in
        let '(stop, endOK) := ipToAddr (config.dcPoolEnd cfg) in
        if negb startOK || negb endOK then add CodeDHCPPoolOutsideNetwork field
        else
          networks ← gets scNetworks;
          let holds iface :=
            match networks !! itNetwork iface with
            | Some network => Contains (ntPrefix network) start && Contains (ntPrefix network) stop
            | None => false
            end in
          let candidates : gset string := list_to_set (itNetwork <$> List.filter holds (snd <$> map_to_list interfaces)) in
          match elements candidates with
          | [] => add CodeDHCPPoolOutsideNetwork field
          | [network] => appendDHCPScope device cfg network
          | _ => add CodeDHCPNetworkAmbiguous field
          end
  end.

(** ** Relayed pools *)

Definition validateRelay (relay : dhcpRelaySource) : Compiling (option dhcpRelaySource) :=
  if negb (routesIP (rsDevice relay)) then refuse CodeInvalidDHCPRelay (rsField relay)
  else
    match ParseAddr (rsTarget relay) with
    | Some target =>
        if Is4 target then mret (Some (relay <| rsAddress := target |>))
        else refuse CodeInvalidDHCPRelay (rsField relay)
    | None => refuse CodeInvalidDHCPRelay (rsField relay)
    end.

Fixpoint validRelays (relays : list dhcpRelaySource) : Compiling (list dhcpRelaySource) :=
  match relays with
  | [] => mret []
  | relay :: relays =>
      r ← validateRelay relay;
      valid ← validRelays relays;
      mret (match r with Some relay => relay :: valid | None => valid end)
  end.

Definition validDHCPRelays : Compiling (list dhcpRelaySource) := relays ← gets scRelays; validRelays relays.

(** The first network, by name, that contains the address. *)
Definition networkContaining (address : Addr) : Compiling (option Network) :=
  networks ← gets scNetworks;
  mret (List.find (fun network => Contains (ntPrefix network) address)
          (omap (fun name => networks !! name) (sortedKeys networks))).

Definition relaysToServer (network : Network) (interfaces : gmap string Interface) (relay : dhcpRelaySource) : bool :=
  bool_decide (itNetwork (rsIface relay) = ntName network) &&
  existsb (fun '(_, iface) => bool_decide (pfxAddr (itAddress iface) = rsAddress relay)) (map_to_list interfaces).

Definition compileRelayedScope (device : config.Device) (interfaces : gmap string Interface) (scope : config.DHCPScope)
    (field : string) (relays : list dhcpRelaySource) (used : list bool) : Compiling (list bool) :=
  let '(start, startOK) := ipToAddr (config.dsPoolStart scope) in
  let '(stop, endOK) := ipToAddr (config.dsPoolEnd scope) in
  found ← networkContaining start;
  match found with
  | None => add CodeDHCPPoolOutsideNetwork field;; mret used
  | Some network =>
      if negb startOK || negb endOK || negb (Contains (ntPrefix network) stop)
      then add CodeDHCPPoolOutsideNetwork field;; mret used
      else if addrGt start stop then add CodeInvalidDHCPRange field;; mret used
      else if isReservedEndpoint (ntPrefix network) start || isReservedEndpoint (ntPrefix network) stop
      then add CodeReservedDHCPAddress field;; mret used
      else
        let '(router, routerOK) := ipToAddr (config.dsRouter scope) in
        if negb routerOK || negb (usableIn network router)
        then add CodeInvalidDHCPRouter (field +:+ ".router");; mret used
        else if existsb (fun '(_, iface) => bool_decide (itNetwork iface = ntName network)) (map_to_list interfaces)
        then add CodeInvalidDHCPRelay field;; mret used
        else
          match List.find (relaysToServer network interfaces) relays with
          | None => add CodeInvalidDHCPRelay field;; mret used
          | Some relay =>
              poolOK ← validateDHCPPoolCollisions device (ntName network) start stop;
              if negb poolOK then mret used
              else
                appendScope (mkDHCPScope (config.dvName device) (ntName network) start stop router
                  (mkDHCPRelay (config.dvName (rsDevice relay)) (itName (rsIface relay))
                     (pfxAddr (itAddress (rsIface relay))) (rsAddress relay)));;
                mret (zip_with (fun u relay => u || relaysToServer network interfaces relay) used relays)
          end
  end.

Fixpoint compileScopesFrom (device : config.Device) (interfaces : gmap string Interface) (i : nat)
    (scopes : list config.DHCPScope) (relays : list dhcpRelaySource) (used : list bool) : Compiling (list bool) :=
  match scopes with
  | [] => mret used
  | scope :: scopes =>
      used ← compileRelayedScope device interfaces scope (indexed (dhcpField device +:+ ".scopes") i) relays used;
      compileScopesFrom device interfaces (S i) scopes relays used
  end.

Fixpoint compileServersFrom (servers : list (config.Device * option (gmap string Interface)))
    (relays : list dhcpRelaySource) (used : list bool) : Compiling (list bool) :=
  match servers with
  | [] => mret used
  | (device, interfaces) :: servers =>
      used ← match interfaces, config.dvDHCPConfig device with
             | Some interfaces, Some cfg => compileScopesFrom device interfaces 0 (config.dcScopes cfg) relays used
             | _, _ => mret used
             end;
      compileServersFrom servers relays used
  end.

Fixpoint reportUnused (relays : list dhcpRelaySource) (used : list bool) : Compiling unit :=
  match relays, used with
  | relay :: relays, u :: used =>
      (if negb u then add CodeInvalidDHCPRelay (rsField relay) else mret tt);; reportUnused relays used
  | _, _ => mret tt
  end.

Definition compileRelayedDHCP (servers : list (config.Device * option (gmap string Interface))) : Compiling unit :=
  relays ← validDHCPRelays;
  used ← compileServersFrom servers relays (replicate (length relays) false);
  reportUnused relays used.
