(* ===== verification/FabricAttachment.v ===== *)
(** * The fabric compiler: attachment pools

    [fabric/compiler_attachment.go]: the ports a client can appear on, resolved
    to the network behind each, and [compileScenario] with its callers from
    [compiler.go]. *)

From S2P Require Import Prelude.
From S2P Require Import Netip.
From S2P Require Import Bytes.
From S2P Require Import NetipParse.
From S2P Require Import FabricTypes.
From S2P Require Import Fabric.
From S2P Require Import FabricDhcp.

(** ** The scenario's devices *)

Definition deviceByName (devices : list config.Device) (name : string) : option config.Device :=
  List.find (fun device => bool_decide (config.dvName device = name)) devices.

Definition interfaceByName (device : config.Device) (name : string) : option config.Interface :=
  List.find (fun iface => bool_decide (config.ifName iface = name)) (config.dvInterfaces device).

(** What occupies a port, or the empty string. *)
Definition portOccupation (device : config.Device) (name : string) : string :=
  match List.find (fun trunk => bool_decide (config.tpInterface trunk = name)) (config.dvTrunkPorts device) with
  | Some trunk =>
      if config.tpFDBOnly trunk then "a client learned in the forwarding database"
      else "a link to " +:+ config.tpRemoteDevice trunk
  | None =>
      match List.find (fun channel => bool_decide (name ∈ config.pcMembers channel)) (config.dvPortChannels device) with
      | Some channel => "port-channel" +:+ pretty (config.pcID channel)
      | None => ""
      end
  end.

Definition accessVLAN (iface : config.Interface) : option Z :=
  match config.ifVLANs iface with
  | [vlan] => if (vlan <? 1) || (4094 <? vlan) then None else Some vlan
  | _ => None
  end.

(** ** The broadcast domain of a VLAN *)

Definition trunkCarriesVLAN (trunk : config.TrunkPort) (vlan : Z) : bool :=
  (config.tpNativeVLAN trunk =? vlan) || bool_decide (vlan ∈ config.tpVLANs trunk).

Definition followed (vlan : Z) (trunk : config.TrunkPort) : bool :=
  negb (bool_decide (config.tpRemoteDevice trunk = ""%string)) && negb (config.tpFDBOnly trunk) && trunkCarriesVLAN trunk vlan.

Definition visitTrunk (vlan : Z) (acc : gset string * list string) (trunk : config.TrunkPort) : gset string * list string :=
  let neighbour := config.tpRemoteDevice trunk in
  if negb (followed vlan trunk) || bool_decide (neighbour ∈ acc.1) then acc
  else ({[ neighbour ]} ∪ acc.1, acc.2 ++ [neighbour]).

(** The queue loop; [None] when the fuel is not enough ([domain_fuel]). *)
Fixpoint domainLoop (fuel : nat) (devices : list config.Device) (vlan : Z) (domain : gset string) (queue : list string)
    : option (gset string) :=
  match queue with
  | [] => Some domain
  | current :: queue =>
      match fuel with
      | O => None
      | S fuel =>
          match deviceByName devices current with
          | None => domainLoop fuel devices vlan domain queue
          | Some device =>
              let '(domain, queue) := foldl (visitTrunk vlan) (domain, queue) (config.dvTrunkPorts device) in
              domainLoop fuel devices vlan domain queue
          end
      end
  end.

Definition domainFuel (devices : list config.Device) : nat :=
  S (length (concat (map config.dvTrunkPorts devices))).

Definition broadcastDomain (devices : list config.Device) (from : config.Device) (vlan : Z) : gset string :=
  default ∅ (domainLoop (domainFuel devices) devices vlan {[ config.dvName from ]} [config.dvName from]).

(** ** The network behind a port *)

Inductive vlanNetworkResolution := vlanNetworkMissing | vlanNetworkResolved (network : string) | vlanNetworkAmbiguous.

Definition servesVLAN (networks : gmap string Network) (vlan : Z) (name : string) : bool :=
  negb (bool_decide (name = ""%string)) &&
  match networks !! name with Some network => ntVirtualVLAN network =? vlan | None => false end.

Definition noteNetwork (networks : gmap string Network) (vlan : Z) (found : list string) (iface : config.Interface)
    : list string :=
  let name := config.ifNetwork iface in
  if bool_decide (name = ""%string) || bool_decide (name ∈ found) then found
  else if servesVLAN networks vlan name then found ++ [name] else found.

Definition networkServingVLAN (devices : list config.Device) (networks : gmap string Network) (vlan : Z)
    (domain : gset string) : vlanNetworkResolution :=
  let found := foldl (fun found device =>
    if bool_decide (config.dvName device ∈ domain) then foldl (noteNetwork networks vlan) found (config.dvInterfaces device)
    else found) [] devices in
  match found with
  | [] => vlanNetworkMissing
  | [network] => vlanNetworkResolved network
  | _ => vlanNetworkAmbiguous
  end.

Definition compileAttachmentPoolPort (devices : list config.Device) (device : config.Device) (name field : string)
    : Compiling (option AttachmentPort) :=
  match interfaceByName device name with
  | None => refuse CodeUnknownAttachmentPort field
  | Some iface =>
      if negb (bool_decide (portOccupation device name = ""%string)) then refuse CodeAttachmentPortOccupied field
      else
        match accessVLAN iface with
        | None => refuse CodeAttachmentPortVLANUnresolved field
        | Some vlan =>
            networks ← gets scNetworks;
            match networkServingVLAN devices networks vlan (broadcastDomain devices device vlan) with
            | vlanNetworkResolved network => mret (Some (mkAttachmentPort (config.dvName device) name vlan network))
            | vlanNetworkAmbiguous => refuse CodeAttachmentPortNetworkAmbiguous field
            | vlanNetworkMissing => refuse CodeAttachmentPortNetworkUnresolved field
            end
        end
  end.

(** ** Pools *)

(** A port of a pool is known by its device's name, a zero byte and its own. *)
Definition portKey (device name : string) : string := device +:+ String Ascii.zero name.

(** What a pool has gathered: the ports seen, those resolved, and [ok]. *)
Record Pool := mkPool { plSeen : gset string; plPorts : list AttachmentPort; plOk : bool }.

Fixpoint compileGroupPorts (devices : list config.Device) (device : config.Device) (groupField : string) (j : nat)
    (names : list string) (pool : Pool) : Compiling Pool :=
  match names with
  | [] => mret pool
  | name :: names =>
      let portField := indexed (groupField +:+ ".ports") j in
      pool ←
        if bool_decide (portKey (config.dvName device) name ∈ plSeen pool) then
          add CodeDuplicateAttachmentPort portField;; mret (mkPool (plSeen pool) (plPorts pool) false)
        else
          let seen := {[ portKey (config.dvName device) name ]} ∪ plSeen pool in
          r ← compileAttachmentPoolPort devices device name portField;
          mret (match r with
                | Some port => mkPool seen (plPorts pool ++ [port]) (plOk pool)
                | None => mkPool seen (plPorts pool) false
                end);
      compileGroupPorts devices device groupField (S j) names pool
  end.

Fixpoint compileGroups (devices : list config.Device) (field : string) (k : nat) (groups : list config.AttachmentPort)
    (pool : Pool) : Compiling Pool :=
  match groups with
  | [] => mret pool
  | group :: groups =>
      let groupField := indexed (field +:+ ".at") k in
      pool ←
        match deviceByName devices (config.apDevice group) with
        | None =>
            add CodeUnknownAttachmentDevice (groupField +:+ ".device");; mret (mkPool (plSeen pool) (plPorts pool) false)
        | Some device =>
            if bool_decide (config.apPorts group = []) then
              add CodeAttachmentPoolEmpty (groupField +:+ ".ports");; mret (mkPool (plSeen pool) (plPorts pool) false)
            else compileGroupPorts devices device groupField 0 (config.apPorts group) pool
        end;
      compileGroups devices field (S k) groups pool
  end.

(** The networks of the ports, each once, in order of first use. *)
Definition poolNetworks (ports : list AttachmentPort) : list string :=
  foldl (fun networks port =>
    if bool_decide (atNetwork port ∈ networks) then networks else networks ++ [atNetwork port]) [] ports.

(** The network, when the ports agree on one; a pool without ports would be an
    index out of range, which [resolvePool] reports as the outer [None]. *)
Definition resolvePoolNetwork (ports : list AttachmentPort) (field : string) : Compiling (option (option string)) :=
  match poolNetworks ports with
  | [] => mret None
  | [network] => mret (Some (Some network))
  | _ => add CodeAttachmentPoolNetworksDiffer (field +:+ ".at");; mret (Some None)
  end.

Fixpoint compilePinsFrom (ports : list AttachmentPort) (field : string) (j : nat) (sources : list config.AttachmentPin)
    (pinned : gset string) (pins : list AttachmentPin) : Compiling (list AttachmentPin) :=
  match sources with
  | [] => mret pins
  | pin :: sources =>
      let pinField := indexed (field +:+ ".pins") j in
      let key := portKey (config.pnDevice pin) (config.pnInterface pin) in
      match ParseMAC (config.pnMAC pin) with
      | None => add CodeInvalidAttachmentPinMAC (pinField +:+ ".mac");; compilePinsFrom ports field (S j) sources pinned pins
      | Some hardware =>
          if negb (existsb (fun port => bool_decide (atDevice port = config.pnDevice pin) &&
                                     bool_decide (atInterface port = config.pnInterface pin)) ports) then
            add CodeAttachmentPinOutsidePool pinField;; compilePinsFrom ports field (S j) sources pinned pins
          else if bool_decide (key ∈ pinned) then
            add CodeAttachmentPinDuplicate pinField;; compilePinsFrom ports field (S j) sources pinned pins
          else
            compilePinsFrom ports field (S j) sources ({[ key ]} ∪ pinned)
              (pins ++ [mkAttachmentPin (macString hardware) (config.pnDevice pin) (config.pnInterface pin)])
      end
  end.

Definition compileAttachmentPins (attachment : config.LogicalAttachment) (ports : list AttachmentPort) (field : string)
    : Compiling (list AttachmentPin) :=
  compilePinsFrom ports field 0 (config.laPins attachment) ∅ [].

(** The outer [None] is a run-time error. *)
Definition compileAttachmentPool (devices : list config.Device) (attachment : config.LogicalAttachment) (field : string)
    : Compiling (option (option CompiledAttachment)) :=
  pool ← compileGroups devices field 0 (config.laAt attachment) (mkPool ∅ [] true);
  if negb (plOk pool) then mret (Some None)
  else
    r ← resolvePoolNetwork (plPorts pool) field;
    match r with
    | None => mret None
    | Some None => mret (Some None)
    | Some (Some network) =>
        pins ← compileAttachmentPins attachment (plPorts pool) field;
        mret (Some (Some (mkCompiledAttachment (config.laName attachment) network (plPorts pool) pins)))
    end.

Definition validateAttachmentForm (attachment : config.LogicalAttachment) (field : string) : Compiling bool :=
  let connects := negb (bool_decide (config.laNetwork attachment = ""%string)) in
  let pooled := negb (bool_decide (config.laAt attachment = [])) in
  if connects && pooled then add CodeAttachmentFormAmbiguous field;; mret false
  else if negb connects && negb pooled then add CodeAttachmentFormAmbiguous field;; mret false
  else mret true.

(** [false] is a run-time error. *)
Definition compileAttachment (devices : list config.Device) (i : nat) (attachment : config.LogicalAttachment)
    : Compiling bool :=
  let field := indexed "attachments" i in
  formOK ← validateAttachmentForm attachment field;
  if negb formOK then mret true
  else if bool_decide (config.laAt attachment = []) then mret true
  else
    r ← compileAttachmentPool devices attachment field;
    match r with
    | None => mret false
    | Some None => mret true
    | Some (Some compiled) => onTopology (fun t => t <| tyAttachments := tyAttachments t ++ [compiled] |>);; mret true
    end.

Fixpoint compileAttachmentsFrom (devices : list config.Device) (i : nat) (attachments : list config.LogicalAttachment)
    : Compiling bool :=
  match attachments with
  | [] => mret true
  | attachment :: attachments =>
      ok ← compileAttachment devices i attachment;
      if negb ok then mret false else compileAttachmentsFrom devices (S i) attachments
  end.

Definition compileAttachments : Compiling bool :=
  cfg ← gets scCfg;
  match cfg with
  | None => mret true
  | Some cfg => compileAttachmentsFrom (config.cfDevices cfg) 0 (config.cfAttachments cfg)
  end.

(** ** The whole scenario *)

(** Every device once: those whose name was already used are skipped. *)
Fixpoint compileDeviceInterfaces (i : nat) (devices : list config.Device)
    : Compiling (list (config.Device * option (gmap string Interface))) :=
  match devices with
  | [] => mret []
  | device :: devices =>
      known ← gets scDevices;
      interfaces ←
        if bool_decide (config.dvName device ∈ known) then refuse CodeDuplicateDevice (indexed "devices" i +:+ ".name")
        else
          modify (fun c => c <| scDevices := {[ config.dvName device ]} ∪ scDevices c |>);;
          interfaces ← compileInterfaces device;
          mret (Some interfaces);
      rest ← compileDeviceInterfaces (S i) devices;
      mret ((device, interfaces) :: rest)
  end.

Definition compileServices (i : nat) (server : config.Device * option (gmap string Interface)) : Compiling unit :=
  match server.2 with
  | None => mret tt
  | Some interfaces => compileRoutes server.1 interfaces;; compileDHCP server.1 interfaces
  end.

Definition compileDevices : Compiling unit :=
  cfg ← gets scCfg;
  match cfg with
  | None => mret tt
  | Some cfg =>
      servers ← compileDeviceInterfaces 0 (config.cfDevices cfg);
      forRange compileServices 0 servers;;
      compileRelayedDHCP servers
  end.

(** [None] is a run-time error ([compile_returns] excludes it). *)
Definition compileScenario : Compiling (option Report) :=
  compileNetworks;;
  compileDevices;;
  ok ← compileAttachments;
  if negb ok then mret None
  else
    bindPoolNetwork;;
    modify (fun c => c <| scReport := (scReport c)
      <| reSafe := bool_decide (reDiagnostics (scReport c) = []) |> |>);;
    report ← gets scReport;
    mret (Some report).

Definition Compile (cfg : option config.Config) (binding : Binding) : option Report :=
  ((compileBinding;; compileScenario) (newScenarioCompiler cfg binding)).1.

Definition CompileConfig (cfg : option config.Config) : option Report :=
  (compileScenario (newScenarioCompiler cfg noBinding)).1.

Definition IsRouted (cfg : option config.Config) : bool :=
  match cfg with
  | None => false
  | Some cfg =>
      negb (bool_decide (config.cfNetworks cfg = [])) || negb (bool_decide (config.cfAttachments cfg = []))
  end.

(** [CompilePhysicalBinding] *)
Definition CompilePhysicalBinding (binding : Binding) : Report :=
  let c := (validateBindingMode (newScenarioCompiler None binding)).2 in
  mkReport (bool_decide (reDiagnostics (scReport c) = []))
    ((scTopology c) <| tyBinding := mkCompiledBinding binding "" (wireTagged binding) |>) (reDiagnostics (scReport c)).
