(* ===== verification/FabricFacts.v ===== *)
(** * The fabric compiler: reasoning about its steps

    Two ways of reading a step: [wp] pushes a postcondition through it, and
    [Framed] says that it neither reads nor changes the binding and the
    findings made so far, except to append its own.  Both are discharged by
    walking over the step's structure. *)

From S2P Require Import Prelude.
From S2P Require Import Netip.
From S2P Require Import Bytes.
From S2P Require Import NetipParse.
From S2P Require Import Safeconv.
From S2P Require Import DeviceClass.
From S2P Require Import FabricTypes.
From S2P Require Import Fabric.
From S2P Require Import FabricDhcp.
From S2P Require Import FabricAttachment.

(** ** Postconditions *)

Definition wp {A} (m : Compiling A) (Q : A -> scenarioCompiler -> Prop) (c : scenarioCompiler) : Prop :=
  Q (m c).1 (m c).2.

Lemma wp_ret {A} (x : A) (Q : A -> scenarioCompiler -> Prop) c : Q x c -> wp (mret x) Q c.
Proof. done. Qed.

Lemma wp_bind {A B} (m : Compiling A) (k : A -> Compiling B) (Q : B -> scenarioCompiler -> Prop) c :
  wp m (fun x c' => wp (k x) Q c') c -> wp (m ≫= k) Q c.
Proof. unfold wp, mbind, Compiling_bind. by destruct (m c). Qed.

Lemma wp_gets {A} (f : scenarioCompiler -> A) (Q : A -> scenarioCompiler -> Prop) c : Q (f c) c -> wp (gets f) Q c.
Proof. done. Qed.

Lemma wp_modify f (Q : unit -> scenarioCompiler -> Prop) c : Q tt (f c) -> wp (modify f) Q c.
Proof. done. Qed.

Lemma wp_mono {A} (m : Compiling A) (Q Q' : A -> scenarioCompiler -> Prop) c :
  wp m Q c -> (forall x c', Q x c' -> Q' x c') -> wp m Q' c.
Proof. unfold wp. auto. Qed.

Lemma wp_forRange {X} (body : nat -> X -> Compiling unit) (I : scenarioCompiler -> Prop) xs i c :
  I c -> (forall i x c, x ∈ xs -> I c -> wp (body i x) (fun _ => I) c) -> wp (forRange body i xs) (fun _ => I) c.
Proof.
  revert i c. induction xs as [|x xs IH]; intros i c Hc Hbody; simpl; [by apply wp_ret|].
  apply wp_bind, (wp_mono _ (fun _ => I)); [apply Hbody; [left|done]|]. intros [] c' Hc'. apply IH; [done|].
  intros j y d Hy. apply Hbody. by right.
Qed.

(** ** What does not look at the binding or the findings *)

Definition unbound (t : Topology) : Topology := t <| tyBinding := mkCompiledBinding noBinding "" false |>.

(** What two compilations of a scenario may differ in: the binding, what it was
    compiled to, and the findings made before. *)
Record Deployment := mkDeployment {
  dpBinding : Binding; dpCompiled : CompiledBinding; dpFindings : list Diagnostic
}.

(** Two compilers that agree on all but their deployments [X] and [Y].  What comes after is about the
    scenario, not its deployment. *)
Definition configScoped (d : Diagnostic) : Prop := IsBinding (dgCode d) = false.

Record alike (X Y : Deployment) (c c' : scenarioCompiler) : Prop := mkAlike {
  alCfg : scCfg c = scCfg c';
  alNetworks : scNetworks c = scNetworks c';
  alDevices : scDevices c = scDevices c';
  alAddresses : scAddresses c = scAddresses c';
  alLeases : scLeaseAddresses c = scLeaseAddresses c';
  alMACs : scLeaseMACs c = scLeaseMACs c';
  alRelays : scRelays c = scRelays c';
  alTopology : unbound (scTopology c) = unbound (scTopology c');
  alBinding : scBinding c = dpBinding X /\ scBinding c' = dpBinding Y;
  alCompiled : tyBinding (scTopology c) = dpCompiled X /\ tyBinding (scTopology c') = dpCompiled Y;
  alDiagnostics : exists t, reDiagnostics (scReport c) = dpFindings X ++ t /\
                            reDiagnostics (scReport c') = dpFindings Y ++ t /\ Forall configScoped t
}.

Class Framed {A} (m : Compiling A) : Prop :=
  framed : forall X Y c c', alike X Y c c' -> (m c).1 = (m c').1 /\ alike X Y (m c).2 (m c').2.

#[export] Instance framed_ret {A} (x : A) : Framed (mret x).
Proof. done. Qed.

#[export] Instance framed_bind {A B} (m : Compiling A) (k : A -> Compiling B) :
  Framed m -> (forall x, Framed (k x)) -> Framed (m ≫= k).
Proof.
  intros Hm Hk X Y c c' Ha. unfold mbind, Compiling_bind. destruct (Hm X Y c c' Ha) as [E H].
  destruct (m c) as [x d], (m c') as [x' d']. simpl in *. subst x'. by apply Hk.
Qed.

Lemma framed_gets {A} (f : scenarioCompiler -> A) :
  (forall X Y c c', alike X Y c c' -> f c = f c') -> Framed (gets f).
Proof. intros Hf X Y c c' Ha. split; [by eapply Hf|done]. Qed.

#[export] Instance framed_cfg : Framed (gets scCfg).
Proof. apply framed_gets. by intros X Y c c' []. Qed.
#[export] Instance framed_networks : Framed (gets scNetworks).
Proof. apply framed_gets. by intros X Y c c' []. Qed.
#[export] Instance framed_devices : Framed (gets scDevices).
Proof. apply framed_gets. by intros X Y c c' []. Qed.
#[export] Instance framed_addresses : Framed (gets scAddresses).
Proof. apply framed_gets. by intros X Y c c' []. Qed.
#[export] Instance framed_leases : Framed (gets scLeaseAddresses).
Proof. apply framed_gets. by intros X Y c c' []. Qed.
#[export] Instance framed_macs : Framed (gets scLeaseMACs).
Proof. apply framed_gets. by intros X Y c c' []. Qed.
#[export] Instance framed_relays : Framed (gets scRelays).
Proof. apply framed_gets. by intros X Y c c' []. Qed.
#[export] Instance framed_topology_networks : Framed (gets (tyNetworks ∘ scTopology)).
Proof. apply framed_gets. intros X Y c c' Ha. exact (f_equal tyNetworks (alTopology _ _ _ _ Ha)). Qed.
#[export] Instance framed_topology_scopes : Framed (gets (tyDHCPScopes ∘ scTopology)).
Proof. apply framed_gets. intros X Y c c' Ha. exact (f_equal tyDHCPScopes (alTopology _ _ _ _ Ha)). Qed.

Lemma framed_add code field : IsBinding code = false -> Framed (add code field).
Proof.
  intros Hcode X Y c c' [? ? ? ? ? ? ? ? ? ? (t & Ht & Ht' & Hs)]. split; [done|]. constructor; try done.
  exists (t ++ [mkDiagnostic code field]). simpl. rewrite Ht, Ht', <- !app_assoc.
  split_and!; try done. apply Forall_app. split; [done|by apply Forall_singleton].
Qed.

Lemma framed_refuse {A} code field : IsBinding code = false -> Framed (@refuse A code field).
Proof. intros H. apply framed_bind; [by apply framed_add|intros; apply framed_ret]. Qed.

(** A change of the topology that leaves the binding alone. *)
Lemma framed_onTopology f :
  (forall t, unbound (f t) = f (unbound t) /\ tyBinding (f t) = tyBinding t) -> Framed (onTopology f).
Proof.
  intros Hf X Y c c' [? ? ? ? ? ? ? Ht ? [Hb Hb'] Hd]. split; [done|].
  constructor; try done; cbn; unfold scTopology in *.
  - rewrite (proj1 (Hf (reTopology (scReport c)))), (proj1 (Hf (reTopology (scReport c')))). by rewrite Ht.
  - by rewrite !(proj2 (Hf _)).
Qed.

Lemma framed_modify f :
  (forall X Y c c', alike X Y c c' -> alike X Y (f c) (f c')) -> Framed (modify f).
Proof. intros Hf X Y c c' Ha. split; [done|]. by apply Hf. Qed.

#[export] Instance framed_if {A} (b : bool) (m n : Compiling A) : Framed m -> Framed n -> Framed (if b then m else n).
Proof. by destruct b. Qed.

#[export] Instance framed_forRange {X} (body : nat -> X -> Compiling unit) i xs :
  (forall i x, Framed (body i x)) -> Framed (forRange body i xs).
Proof. intros H. revert i. induction xs; intros i; simpl; apply _. Qed.

Ltac framed_modify_tac :=
  apply framed_modify; intros ? ? ? ? [? ? ? ? ? ? ? ? ? ? ?]; constructor; first [assumption | simpl; congruence].

(** Walks over a step, leaving nothing when every leaf is framed. *)
Ltac framed :=
  repeat (intros;
    first
      [ assumption
      | apply framed_ret | apply framed_add; reflexivity | apply framed_refuse; reflexivity
      | progress cbv zeta
      | solve [apply _]
      | apply framed_bind
      | match goal with |- Framed (match ?x with _ => _ end) => destruct x eqn:? end
      | apply framed_forRange
      | apply framed_onTopology; intros; split; reflexivity
      | framed_modify_tac ]).

#[export] Instance framed_appendRoute route : Framed (appendRoute route).
Proof. unfold appendRoute. framed. Qed.
#[export] Instance framed_appendScope scope : Framed (appendScope scope).
Proof. unfold appendScope. framed. Qed.
#[export] Instance framed_compileNetwork i source : Framed (compileNetwork i source).
Proof. unfold compileNetwork, compileSubnetV6, checkOverlap. framed. Qed.
#[export] Instance framed_compileInterface device source field : Framed (compileInterface device source field).
Proof. unfold compileInterface, compileInterfaceV6. framed. Qed.
#[export] Instance framed_compileInterfaces device : Framed (compileInterfaces device).
Proof.
  unfold compileInterfaces. generalize (∅ : gset string) at 1 as names. generalize (∅ : gmap string Interface) as compiled.
  generalize O as i. induction (config.dvInterfaces device) as [|source sources IH]; simpl; [framed|].
  intros. unfold compileOneInterface. framed.
Qed.
Lemma route_findings spec interfaces owners d :
  ValidateStaticRoute spec interfaces owners = inr d -> IsBinding (dgCode d) = false.
Proof. unfold ValidateStaticRoute. intros. by repeat (case_match; simplify_eq). Qed.

#[export] Instance framed_compileRoutes device interfaces : Framed (compileRoutes device interfaces).
Proof.
  unfold compileRoutes. apply framed_forRange. intros i source. unfold compileRoute. framed.
  apply framed_add. eapply route_findings. eassumption.
Qed.
#[export] Instance framed_validateDHCPPoolCollisions device network start stop :
  Framed (validateDHCPPoolCollisions device network start stop).
Proof. unfold validateDHCPPoolCollisions. framed. Qed.
#[export] Instance framed_validateDHCPLeases device cfg network start stop :
  Framed (validateDHCPLeases device cfg network start stop).
Proof.
  assert (forall leases index pending macs,
    Framed (validateLeasesFrom device index leases network start stop pending macs)) as Hl.
  { induction leases; simpl; [framed|]. unfold validateDHCPLease, validateDHCPLeaseAddress. framed. }
  unfold validateDHCPLeases. framed.
Qed.
#[export] Instance framed_compileDHCP device interfaces : Framed (compileDHCP device interfaces).
Proof. unfold compileDHCP, appendDHCPScope, validateDHCPOptions. framed. Qed.
#[export] Instance framed_compileRelayedDHCP servers : Framed (compileRelayedDHCP servers).
Proof.
  assert (forall relays, Framed (validRelays relays)) as Hv
    by (induction relays; simpl; unfold validateRelay; framed).
  assert (forall device interfaces scope field relays used,
    Framed (compileRelayedScope device interfaces scope field relays used)) as Hs
    by (intros; unfold compileRelayedScope, networkContaining; framed).
  assert (forall device interfaces scopes relays i used,
    Framed (compileScopesFrom device interfaces i scopes relays used)) as Hf
    by (induction scopes; simpl; framed).
  assert (forall servers relays used, Framed (compileServersFrom servers relays used)) as Hc
    by (induction servers0 as [|[] ? ?]; simpl; framed).
  assert (forall relays used, Framed (reportUnused relays used)) as Hr
    by (induction relays; simpl; framed).
  unfold compileRelayedDHCP, validDHCPRelays. framed.
Qed.

#[export] Instance framed_compileAttachments : Framed compileAttachments.
Proof.
  assert (forall devices device groupField names j pool,
    Framed (compileGroupPorts devices device groupField j names pool)) as Hp
    by (induction names; simpl; unfold compileAttachmentPoolPort; framed).
  assert (forall devices field groups k pool, Framed (compileGroups devices field k groups pool)) as Hg
    by (induction groups; simpl; framed).
  assert (forall ports field sources j pinned pins, Framed (compilePinsFrom ports field j sources pinned pins)) as Hs
    by (induction sources; simpl; framed).
  assert (forall devices attachments i, Framed (compileAttachmentsFrom devices i attachments)) as Ha.
  { induction attachments; simpl; [framed|].
    unfold compileAttachment, validateAttachmentForm, compileAttachmentPool, resolvePoolNetwork, compileAttachmentPins.
    framed. }
  unfold compileAttachments. framed.
Qed.

#[export] Instance framed_compileDevices : Framed compileDevices.
Proof.
  assert (forall devices i, Framed (compileDeviceInterfaces i devices)) as Hd by (induction devices; simpl; framed).
  unfold compileDevices, compileServices. framed.
Qed.
