(* ===== verification/FabricInvariant.v ===== *)
(** * The fabric compiler: what its state keeps

    The networks, interfaces, routes and pools compiled so far, related to the
    scenario-wide tables the compiler checks new ones against.  Each component
    speaks of the parts of the state it needs, so a step that only reports a
    finding keeps it as it is. *)

From S2P Require Import Prelude.
From S2P Require Import Netip.
From S2P Require Import Bytes.
From S2P Require Import NetipParse.
From S2P Require Import Safeconv.
From S2P Require Import DeviceClass.
From S2P Require Import FabricTypes.
From S2P Require Import Fabric.
From S2P Require Import FabricDhcp.
From S2P Require Import FabricAttachment.
From S2P Require Import FabricFacts.

(** ** Walking over a step *)

Definition reported (c : scenarioCompiler) (code : DiagnosticCode) (field : string) : scenarioCompiler :=
  c <| scReport := (scReport c) <| reDiagnostics := reDiagnostics (scReport c) ++ [mkDiagnostic code field] |> |>.

Lemma wp_add code field (Q : unit -> scenarioCompiler -> Prop) c :
  Q tt (reported c code field) -> wp (add code field) Q c.
Proof. done. Qed.

Lemma wp_refuse {A} code field (Q : option A -> scenarioCompiler -> Prop) c :
  Q None (reported c code field) -> wp (refuse code field) Q c.
Proof. done. Qed.

Definition retopology (f : Topology -> Topology) (c : scenarioCompiler) : scenarioCompiler :=
  c <| scReport := (scReport c) <| reTopology := f (scTopology c) |> |>.

Lemma wp_onTopology f (Q : unit -> scenarioCompiler -> Prop) c : Q tt (retopology f c) -> wp (onTopology f) Q c.
Proof. done. Qed.

Ltac wp_step :=
  lazymatch goal with
  | |- wp (mret _) _ _ => apply wp_ret
  | |- wp (_ ≫= _) _ _ => apply wp_bind
  | |- wp (gets _) _ _ => apply wp_gets
  | |- wp (modify _) _ _ => apply wp_modify
  | |- wp (add _ _) _ _ => apply wp_add
  | |- wp (refuse _ _) _ _ => apply wp_refuse
  | |- wp (onTopology _) _ _ => apply wp_onTopology
  | |- wp (let _ := _ in _) _ _ => cbv zeta
  | |- wp (match ?x with _ => _ end) _ _ => destruct x eqn:?; try discriminate
  end.
Ltac wp_walk := repeat wp_step.

Definition findings (c : scenarioCompiler) : list Diagnostic := reDiagnostics (scReport c).
Definition nets (c : scenarioCompiler) : list Network := tyNetworks (scTopology c).
Definition ifaces (c : scenarioCompiler) : list Interface := tyInterfaces (scTopology c).
Definition routes (c : scenarioCompiler) : list Route := tyRoutes (scTopology c).
Definition scopes (c : scenarioCompiler) : list DHCPScope := tyDHCPScopes (scTopology c).

(** What compiling the devices leaves alone. *)
Definition fixedParts (c : scenarioCompiler) : list CompiledAttachment * list Network :=
  (tyAttachments (scTopology c), nets c).

Lemma reported_findings c code field : findings (reported c code field) <> [].
Proof. unfold findings, reported. simpl. by destruct (reDiagnostics _). Qed.

(** ** Networks *)

(** A prefix as the compiler accepts one: written at its network address. *)
Definition canonical (p : Prefix) : Prop := prefixOk p /\ p = Masked p.

Definition numbered (nw : Network) : Prop :=
  (canonical (ntPrefix nw) /\ Is4 (pfxAddr (ntPrefix nw)) = true) /\
  (ntPrefixV6 nw = PrefixZero \/
   canonical (ntPrefixV6 nw) /\ Is6 (pfxAddr (ntPrefixV6 nw)) = true /\ PrefixIsValid (ntPrefixV6 nw) = true).

Definition apart (nw candidate : Network) : Prop :=
  Overlaps (ntPrefix nw) (ntPrefix candidate) = false /\
  PrefixIsValid (ntPrefixV6 nw) && Overlaps (ntPrefixV6 nw) (ntPrefixV6 candidate) = false.

(** The table of networks holds exactly the networks compiled. *)
Record Listed (table : gmap string Network) (l : list Network) : Prop := mkListed {
  ldTable : forall n nw, table !! n = Some nw -> ntName nw = n /\ nw ∈ l;
  ldList : forall nw, nw ∈ l -> table !! ntName nw = Some nw;
  ldOnce : NoDup (ntName <$> l);
  ldNumbered : forall nw, nw ∈ l -> numbered nw
}.

Definition Grounded (c : scenarioCompiler) : Prop :=
  Listed (scNetworks c) (nets c) /\ (findings c = [] -> StronglySorted apart (nets c)).

Lemma grounded_reported c code field : Grounded c -> Grounded (reported c code field).
Proof. intros [Hl _]. split; [exact Hl|]. intros H. by apply reported_findings in H. Qed.

Lemma parseCanonicalPrefix_ok s p :
  parseCanonicalPrefix s = Some p -> canonical p /\ Is4 (pfxAddr p) = true.
Proof.
  unfold parseCanonicalPrefix. destruct (ParsePrefix s) as [q|] eqn:E; [|done]. simpl. intros H.
  destruct (Is4 (pfxAddr q)) eqn:E4; [|done]. simpl in H. case_bool_decide; [|done]. simpl in H.
  simplify_eq. split; [|done]. split; [by eapply ParsePrefix_ok|done].
Qed.

Lemma parseCanonicalPrefixV6_ok s p :
  parseCanonicalPrefixV6 s = Some p -> canonical p /\ Is6 (pfxAddr p) = true /\ PrefixIsValid p = true.
Proof.
  unfold parseCanonicalPrefixV6. destruct (ParsePrefix s) as [q|] eqn:E; [|done]. simpl. intros H.
  apply ParsePrefix_ok in E as Hok.
  destruct (Is6 (pfxAddr q)) eqn:E6; [|done]. destruct (Is4In6 _); [done|]. simpl in H.
  case_bool_decide; [|done]. simpl in H. destruct (IsSingleIP q); [done|]. destruct (IsGlobalUnicast (pfxAddr q)); simpl in H; [|done].
  simplify_eq/=. split; [by split|]. split; [done|]. destruct Hok as (_ & _ & [Hb _]). by apply Z.leb_le.
Qed.

Lemma overlapField_none candidate l :
  overlapField candidate l = None -> Forall (fun nw => apart nw candidate) l.
Proof.
  induction l as [|nw l IH]; simpl; [constructor|].
  destruct (Overlaps _ _) eqn:E4; [done|]. destruct (_ && _) eqn:E6; [done|].
  intros H. constructor; [by split|by apply IH].
Qed.

Definition addNetwork (network : Network) (c : scenarioCompiler) : scenarioCompiler :=
  retopology (fun t => t <| tyNetworks := tyNetworks t ++ [network] |>)
    (c <| scNetworks := <[ntName network := network]> (scNetworks c) |>).

Lemma grounded_add network c :
  Grounded c -> scNetworks c !! ntName network = None -> numbered network ->
  (findings c = [] -> Forall (fun nw => apart nw network) (nets c)) -> Grounded (addNetwork network c).
Proof.
  intros [[Ht Hl Ho Hn] Hap] Hnew Hok Hover.
  assert (forall nw, nw ∈ nets c -> ntName nw <> ntName network) as Hfresh
    by (intros nw Hnw E; apply Hl in Hnw; rewrite E in Hnw; congruence).
  unfold addNetwork. split; [constructor|]; unfold nets, retopology, scTopology in *; simpl in *.
  - intros n nw [[<- <-]|[Hne Hin]]%lookup_insert_Some; [split; [done|]; set_solver|].
    apply Ht in Hin. set_solver.
  - intros nw [Hnw| ->%list_elem_of_singleton]%elem_of_app; [|by rewrite lookup_insert_eq].
    rewrite lookup_insert_ne; [by apply Hl|]. intros E. by apply (Hfresh nw).
  - rewrite fmap_app. apply NoDup_app. split_and!; [done| |apply NoDup_singleton].
    intros n (nw & -> & Hnw)%list_elem_of_fmap E%list_elem_of_singleton. by apply (Hfresh nw).
  - intros nw [Hnw| ->%list_elem_of_singleton]%elem_of_app; [by apply Hn|done].
  - intros Hf. apply StronglySorted_app_2; [|by apply Hap|repeat constructor].
    intros x y Hx ->%list_elem_of_singleton. apply Hover in Hf. rewrite Forall_forall in Hf. by apply Hf.
Qed.

Lemma compileNetwork_grounded i source c :
  Grounded c -> wp (compileNetwork i source) (fun _ => Grounded) c.
Proof.
  intros Hg. unfold compileNetwork, compileSubnetV6.
  destruct (parseCanonicalPrefix _) as [prefix|] eqn:Ep; [|wp_walk; by apply grounded_reported].
  apply parseCanonicalPrefix_ok in Ep. wp_step. wp_step.
  destruct (bool_decide _) eqn:Ed; [wp_walk; by apply grounded_reported|].
  destruct (_ || _); [wp_walk; by apply grounded_reported|].
  apply bool_decide_eq_false, eq_None_not_Some in Ed.
  assert (forall prefixV6 c',
    let network := mkNetwork (config.nwName source) prefix prefixV6 (Uint16 (config.nwVirtualVLAN source)) in
    numbered network -> c' = c ->
    wp (checkOverlap (indexed "networks" i) network;;
        modify (fun c => c <| scNetworks := <[config.nwName source := network]> (scNetworks c) |>);;
        onTopology (fun t => t <| tyNetworks := tyNetworks t ++ [network] |>)) (fun _ => Grounded) c') as Hkeep.
  { intros prefixV6 c' network Hok ->. unfold checkOverlap. do 3 wp_step.
    destruct (overlapField _ _) eqn:Eo; wp_walk.
    - apply (grounded_add network (reported c _ _)); [by apply grounded_reported|done|done|].
      intros H. by apply reported_findings in H.
    - apply (grounded_add network c); try done. intros _. by apply overlapField_none in Eo. }
  wp_step. destruct (bool_decide (config.nwSubnetV6 source = ""%string)).
  - wp_step. apply Hkeep; [|done]. split; [done|by left].
  - destruct (parseCanonicalPrefixV6 _) as [p6|] eqn:E6; wp_step; [|wp_walk; by apply grounded_reported].
    apply parseCanonicalPrefixV6_ok in E6. apply Hkeep; [|done]. split; [done|by right].
Qed.

(** ** Interfaces *)

Definition addressesOf (i : Interface) : list Addr :=
  pfxAddr (itAddress i) :: (if PrefixIsValid (itAddressV6 i) then [pfxAddr (itAddressV6 i)] else []).

(** An interface numbered from its network, at a usable address. *)
Record home (nw : Network) (i : Interface) : Prop := mkHome {
  hmName : ntName nw = itNetwork i;
  hmInside : Contains (ntPrefix nw) (pfxAddr (itAddress i)) = true;
  hmLength : pfxBits (itAddress i) = pfxBits (ntPrefix nw);
  hmUsable : isReservedEndpoint (ntPrefix nw) (pfxAddr (itAddress i)) = false;
  hmV6 : itAddressV6 i = PrefixZero \/
         PrefixIsValid (ntPrefixV6 nw) = true /\ Contains (ntPrefixV6 nw) (pfxAddr (itAddressV6 i)) = true /\
         pfxBits (itAddressV6 i) = pfxBits (ntPrefixV6 nw) /\
         isReservedNextHop (ntPrefixV6 nw) (pfxAddr (itAddressV6 i)) = false
}.

Record Wired (l : list Network) (ifs : list Interface) (owners : gmap Addr string) : Prop := mkWired {
  wrHome : forall i, i ∈ ifs -> exists nw, nw ∈ l /\ home nw i;
  wrOwner : forall a d, owners !! a = Some d <-> exists i, i ∈ ifs /\ itDevice i = d /\ a ∈ addressesOf i;
  wrOnce : NoDup (ifs ≫= addressesOf);
  wrNames : NoDup ((fun i => (itDevice i, itName i)) <$> ifs)
}.

Definition ownersOf (i : Interface) : gmap Addr string :=
  list_to_map ((fun a => (a, itDevice i)) <$> addressesOf i).

Lemma ownersOf_lookup i a d : ownersOf i !! a = Some d <-> a ∈ addressesOf i /\ itDevice i = d.
Proof.
  unfold ownersOf. induction (addressesOf i) as [|x l IH]; simpl.
  - rewrite lookup_empty. split; [done|]. by intros [?%elem_of_nil _].
  - rewrite lookup_insert_Some, IH, elem_of_cons. destruct (decide (x = a)); naive_solver.
Qed.

Lemma wired_add l ifs owners i nw :
  Wired l ifs owners -> nw ∈ l -> home nw i -> (forall a, a ∈ addressesOf i -> owners !! a = None) ->
  NoDup (addressesOf i) -> (forall j, j ∈ ifs -> itDevice j = itDevice i -> itName j <> itName i) ->
  Wired l (ifs ++ [i]) (ownersOf i ∪ owners).
Proof.
  intros [Hh Ho Hon Hn] Hnw Hhome Hfree Hnd Hname. constructor.
  - intros j [Hj| ->%list_elem_of_singleton]%elem_of_app; [by apply Hh|by exists nw].
  - intros a d. rewrite lookup_union_Some_raw, ownersOf_lookup. split.
    + intros [[Ha <-]|[_ (j & Hj & Hd & Ha)%Ho]]; [exists i|exists j]; set_solver.
    + intros (j & [Hj| ->%list_elem_of_singleton]%elem_of_app & Hd & Ha); [right|by left].
      assert (owners !! a = Some d) as Hown by (apply Ho; eauto). split; [|done].
      destruct (ownersOf i !! a) eqn:E; [|done]. apply ownersOf_lookup in E as [Ha' _].
      apply Hfree in Ha'. congruence.
  - rewrite bind_app. simpl. rewrite app_nil_r. apply NoDup_app. split_and!; [done| |done].
    intros a (j & Ha & Hj)%list_elem_of_bind Ha'.
    apply Hfree in Ha'. assert (owners !! a = Some (itDevice j)) by (apply Ho; eauto). congruence.
  - rewrite fmap_app. apply NoDup_app. split_and!; [done| |apply NoDup_singleton].
    intros p (j & -> & Hj)%list_elem_of_fmap E%list_elem_of_singleton. simplify_eq. by apply (Hname j).
Qed.

Lemma compileInterfaceV6_spec network value field c :
  wp (compileInterfaceV6 network value field) (fun r c' =>
    match r with
    | None => exists code f, c' = reported c code f
    | Some p => c' = c /\
        (p = PrefixZero \/
         Is6 (pfxAddr p) = true /\ PrefixIsValid p = true /\ PrefixIsValid (ntPrefixV6 network) = true /\
         Contains (ntPrefixV6 network) (pfxAddr p) = true /\ pfxBits p = pfxBits (ntPrefixV6 network) /\
         isReservedNextHop (ntPrefixV6 network) (pfxAddr p) = false /\ scAddresses c !! pfxAddr p = None)
    end) c.
Proof.
  unfold compileInterfaceV6. wp_walk; try (by eauto). split; [done|right].
  repeat match goal with
  | H : bool_decide _ = _ |- _ => apply bool_decide_eq_false in H
  | H : negb _ = false |- _ => apply negb_false_iff in H
  | H : _ || _ = false |- _ => apply orb_false_iff in H as [? ?]
  end.
  match goal with H : ParsePrefix _ = Some _ |- _ => apply ParsePrefix_ok in H as (_ & _ & [? _]) end.
  assert (forall a, Is6 a = true -> Is4 a = false) as H64 by (by intros []).
  split_and!; try done.
  - by apply Z.leb_le.
  - by apply Z.eqb_eq.
  - unfold isReservedNextHop. by rewrite H64.
  - by apply eq_None_not_Some.
Qed.

(** What one authored interface compiles to: a refusal with one finding, or an
    interface at home in its network whose addresses were free. *)
Lemma compileInterface_spec device source field c l :
  Listed (scNetworks c) l ->
  wp (compileInterface device source field) (fun r c' =>
    match r with
    | None => exists code f, c' = reported c code f
    | Some i =>
        c' = c <| scAddresses := ownersOf i ∪ scAddresses c |> /\
        itDevice i = device /\ itName i = config.ifName source /\
        (exists nw, nw ∈ l /\ scNetworks c !! itNetwork i = Some nw /\ home nw i) /\
        (forall a, a ∈ addressesOf i -> scAddresses c !! a = None) /\ NoDup (addressesOf i)
    end) c.
Proof.
  intros Hl. unfold compileInterface. do 2 wp_step.
  destruct (scNetworks c !! config.ifNetwork source) as [network|] eqn:En; [|wp_walk; eauto].
  apply (ldTable _ _ Hl) in En as Hn. destruct Hn as [Hname Hin].
  cbv zeta. destruct (ParsePrefix _) as [address|] eqn:Ep; [|wp_walk; eauto].
  destruct (negb _) eqn:E4; [wp_walk; eauto|]. destruct (negb _) eqn:Ec in |- *; [wp_walk; eauto|].
  destruct (negb _) eqn:Eb in |- *; [wp_walk; eauto|]. destruct (isReservedEndpoint _ _) eqn:Er; [wp_walk; eauto|].
  do 2 wp_step. destruct (bool_decide _) eqn:Ea; [wp_walk; eauto|].
  apply negb_false_iff in E4, Ec, Eb. apply Z.eqb_eq in Eb. apply bool_decide_eq_false, eq_None_not_Some in Ea.
  wp_step. eapply wp_mono; [apply compileInterfaceV6_spec|]. intros [p|] c'; [|intros (? & ? & ->); wp_walk; eauto].
  intros [-> Hp]. wp_step. wp_step.
  set (i := mkInterface device (config.ifName source) (config.ifNetwork source) address p).
  assert (home network i) as Hhome.
  { constructor; try done. destruct Hp as [->|(? & ? & ? & ? & ? & ? & ?)]; [by left|by right]. }
  assert (forall a, Is6 a = true -> Is4 a = false) as H64 by (by intros []).
  wp_step. destruct (PrefixIsValid p) eqn:Ev; wp_walk; cbv beta.
  - destruct Hp as [->|(H6 & _ & _ & _ & _ & _ & Hfree)]; [done|].
    assert (pfxAddr address <> pfxAddr p) as Hne by (intros E; rewrite E, H64 in E4; done).
    split_and!; try done; [|by eauto|..].
    + unfold setf; simpl. do 2 f_equal. unfold ownersOf, addressesOf, i. simpl. rewrite Ev. simpl.
      rewrite <- !insert_union_l, (left_id_L ∅ (∪)). by apply insert_insert_ne.
    + unfold addressesOf, i. simpl. rewrite Ev. by intros a [->|[->|[]%elem_of_nil]%elem_of_cons]%elem_of_cons.
    + unfold addressesOf, i. simpl. rewrite Ev. apply NoDup_cons. split; [|apply NoDup_singleton].
      by intros ?%list_elem_of_singleton.
  - split_and!; try done; [|by eauto|..].
    + unfold setf; simpl. do 2 f_equal. unfold ownersOf, addressesOf, i. simpl. rewrite Ev. simpl.
      by rewrite <- !insert_union_l, (left_id_L ∅ (∪)).
    + unfold addressesOf, i. simpl. rewrite Ev. by intros a ->%list_elem_of_singleton.
    + unfold addressesOf, i. simpl. rewrite Ev. apply NoDup_singleton.
Qed.

(** ** Routes and relays *)

Definition egressOf (i : Interface) (nextHop : Addr) : Prefix := if Is6 nextHop then itAddressV6 i else itAddress i.

(** Where a compiled route comes from: a network of an interface of its
    device, or an authored next hop on such a network, held by another device. *)
Definition Routed (l : list Network) (ifs : list Interface) (r : Route) : Prop :=
  exists i, i ∈ ifs /\ itDevice i = roDevice r /\ itName i = roVia r /\
    if roConnected r then exists nw, nw ∈ l /\ ntName nw = itNetwork i /\ roDestination r = ntPrefix nw
    else
      let egress := egressOf i (roNextHop r) in
      PrefixIsValid egress = true /\ Contains (Masked egress) (roNextHop r) = true /\
      isReservedNextHop (Masked egress) (roNextHop r) = false /\
      exists j, j ∈ ifs /\ itDevice j <> roDevice r /\ roNextHop r ∈ addressesOf j.

Definition Relaying (ifs : list Interface) (relay : dhcpRelaySource) : Prop :=
  rsIface relay ∈ ifs /\ itDevice (rsIface relay) = config.dvName (rsDevice relay).

Lemma routed_mono l ifs i r : Routed l ifs r -> Routed l (ifs ++ [i]) r.
Proof.
  intros (j & Hj & Hd & Hv & H). exists j. split; [set_solver|]. split_and!; [done..|].
  destruct (roConnected r); [done|]. destruct H as (? & ? & ? & k & ? & ? & ?). split_and!; try done.
  exists k. split_and!; try done. set_solver.
Qed.

Lemma validateStaticRoute_routed l ifs owners spec interfaces r :
  Wired l ifs owners ->
  (forall n i, interfaces !! n = Some i -> i ∈ ifs /\ itDevice i = srDevice spec /\ itName i = n) ->
  ValidateStaticRoute spec interfaces owners = inl r -> Routed l ifs r.
Proof.
  intros Hw Hi. unfold ValidateStaticRoute.
  destruct (parseRouteDestination _); [|done]. destruct (interfaces !! srVia spec) as [i|] eqn:Ei; [|done].
  apply Hi in Ei as (Hin & Hd & Hn). destruct (ParseAddr _) as [nextHop|]; [|done].
  destruct (_ || _); [done|]. cbv zeta. destruct (_ || _) eqn:Eo; [done|].
  apply orb_false_iff in Eo as [[Ev Ec]%orb_false_iff Er]. apply negb_false_iff in Ev, Ec.
  destruct (owners !! nextHop) as [owner|] eqn:Eown; [|done]. case_bool_decide; [done|]. intros [= <-].
  apply (wrOwner _ _ _ Hw) in Eown as (j & Hj & Hjd & Ha).
  exists i. split_and!; try done. simpl. split_and!; try done. exists j. split_and!; try done. congruence.
Qed.

(** ** Pools *)

(** A pool inside a network, at usable addresses. *)
Definition poolIn (nw : Network) (s : DHCPScope) : Prop :=
  ntName nw = dsNetwork s /\
  Contains (ntPrefix nw) (dsStart s) = true /\ Contains (ntPrefix nw) (dsEnd s) = true /\
  addrGt (dsStart s) (dsEnd s) = false /\
  isReservedEndpoint (ntPrefix nw) (dsStart s) = false /\ isReservedEndpoint (ntPrefix nw) (dsEnd s) = false /\
  usableIn nw (dsRouter s) = true.

(** Who serves a pool: a device on its network, or one reached through the
    interface of a router there. *)
Definition servedBy (ifs : list Interface) (s : DHCPScope) : Prop :=
  (dsRelay s = noRelay /\ exists i, i ∈ ifs /\ itDevice i = dsDevice s /\ itNetwork i = dsNetwork s) \/
  (exists i j, i ∈ ifs /\ j ∈ ifs /\ itNetwork i = dsNetwork s /\ itDevice j = dsDevice s /\
     dsRelay s = mkDHCPRelay (itDevice i) (itName i) (pfxAddr (itAddress i)) (pfxAddr (itAddress j))).

Record Pooled (l : list Network) (ifs : list Interface) (owners leases : gmap Addr string) (ss : list DHCPScope) : Prop :=
  mkPooled {
  plInside : forall s, s ∈ ss -> exists nw, nw ∈ l /\ poolIn nw s;
  plServed : forall s, s ∈ ss -> servedBy ifs s;
  plOwners : forall s a, s ∈ ss -> is_Some (owners !! a) -> between a (dsStart s) (dsEnd s) = false;
  plApart : StronglySorted (fun s s' => poolsOverlap (dsNetwork s') (dsStart s') (dsEnd s') s = false) ss;
  plLeases : forall a, is_Some (leases !! a) ->
    owners !! a = None /\ forall s, s ∈ ss -> between a (dsStart s) (dsEnd s) = false
}.

Lemma pooled_nil l ifs owners : Pooled l ifs owners ∅ [].
Proof. constructor; try (by intros ? ?%elem_of_nil); try (by intros ? ? ?%elem_of_nil); [constructor|]. by intros a [? ?]. Qed.

(** ** The whole state *)

Definition Sound (c : scenarioCompiler) : Prop :=
  Grounded c /\ Wired (nets c) (ifaces c) (scAddresses c) /\
  (forall r, r ∈ routes c -> Routed (nets c) (ifaces c) r) /\
  (forall relay, relay ∈ scRelays c -> Relaying (ifaces c) relay) /\
  Pooled (nets c) (ifaces c) (scAddresses c) (scLeaseAddresses c) (scopes c).

(** Before any pool. *)
Definition Wiring (c : scenarioCompiler) : Prop := Sound c /\ scopes c = [] /\ scLeaseAddresses c = ∅.

Lemma sound_reported c code field : Sound c -> Sound (reported c code field).
Proof. intros (Hg & H). split; [by apply grounded_reported|exact H]. Qed.

Lemma wiring_reported c code field : Wiring c -> Wiring (reported c code field).
Proof. intros (Hs & H). split; [by apply sound_reported|exact H]. Qed.

Lemma sound_route c r : Sound c -> Routed (nets c) (ifaces c) r ->
  Sound (retopology (fun t => t <| tyRoutes := tyRoutes t ++ [r] |>) c).
Proof.
  intros (Hg & Hw & Hr & Hrest) Hnew. split; [exact Hg|]. split; [exact Hw|]. split; [|exact Hrest].
  intros r' [?| ->%list_elem_of_singleton]%elem_of_app; [by apply Hr|done].
Qed.

Lemma compileRoute_sound device interfaces i source c :
  Sound c ->
  (forall n i, interfaces !! n = Some i -> i ∈ ifaces c /\ itDevice i = config.dvName device /\ itName i = n) ->
  wp (compileRoute device interfaces i source) (fun _ c' => Sound c' /\ ifaces c' = ifaces c) c.
Proof.
  intros Hs Hi. unfold compileRoute, appendRoute. wp_walk.
  - split; [|done]. apply sound_route; [done|]. destruct Hs as (_ & Hw & _).
    eapply validateStaticRoute_routed; [exact Hw| |eassumption]. exact Hi.
  - split; [by apply sound_reported|done].
Qed.

(** ** Interfaces of a device *)

(** What the loop over the interfaces of a device knows. *)
Record Naming (device : config.Device) (names : gset string) (compiled : gmap string Interface) (c : scenarioCompiler)
    : Prop := mkNaming {
  nmNames : forall i, i ∈ ifaces c -> itDevice i = config.dvName device -> itName i ∈ names;
  nmCompiled : forall n i, compiled !! n = Some i -> i ∈ ifaces c /\ itDevice i = config.dvName device /\ itName i = n
}.

Lemma naming_reported device names compiled c code field :
  Naming device names compiled c -> Naming device names compiled (reported c code field).
Proof. intros [Hn Hc]. by constructor. Qed.

Lemma naming_grow device names compiled c name :
  Naming device names compiled c -> Naming device ({[name]} ∪ names) compiled c.
Proof. intros [Hn Hc]. constructor; [|done]. set_solver. Qed.

(** The state once an interface is accepted, before its relay and route. *)
Definition withInterface (i : Interface) (c : scenarioCompiler) : scenarioCompiler :=
  retopology (fun t => t <| tyInterfaces := tyInterfaces t ++ [i] |>)
    (c <| scAddresses := ownersOf i ∪ scAddresses c |>).

Lemma wiring_interface i nw c :
  Wiring c -> nw ∈ nets c -> home nw i -> (forall a, a ∈ addressesOf i -> scAddresses c !! a = None) ->
  NoDup (addressesOf i) -> (forall j, j ∈ ifaces c -> itDevice j = itDevice i -> itName j <> itName i) ->
  Wiring (withInterface i c).
Proof.
  intros [(Hg & Hw & Hr & Hrel & Hp) [Hsc Hle]] Hnw Hhome Hfree Hnd Hname.
  split; [|by split]. split; [exact Hg|]. split; [by eapply wired_add|].
  split; [intros r Hin; apply routed_mono; by apply Hr|].
  split; [intros relay Hin; destruct (Hrel relay Hin); split; [|done]; unfold ifaces; simpl; set_solver|].
  unfold scopes, withInterface, retopology, scTopology in *. simpl in *. rewrite Hsc, Hle. apply pooled_nil.
Qed.

(** What compiling interfaces of one device changes. *)
Record Extends (name : string) (c c' : scenarioCompiler) : Prop := mkExtends {
  exKept : forall j, j ∈ ifaces c -> j ∈ ifaces c';
  exOnly : forall j, j ∈ ifaces c' -> j ∈ ifaces c \/ itDevice j = name;
  exDevices : scDevices c' = scDevices c;
  exCfg : scCfg c' = scCfg c;
  exPools : fixedParts c' = fixedParts c
}.

Lemma extends_refl name c c' :
  ifaces c' = ifaces c -> scDevices c' = scDevices c -> scCfg c' = scCfg c -> fixedParts c' = fixedParts c -> Extends name c c'.
Proof. intros E ? ? ?. constructor; try done; rewrite E; [done|by left]. Qed.

Lemma extends_trans name c c' c'' : Extends name c c' -> Extends name c' c'' -> Extends name c c''.
Proof.
  intros [Hk Ho Hd Hc Hp] [Hk' Ho' Hd' Hc' Hp']. constructor; [eauto| |congruence..].
  intros j [?|?]%Ho'; [by apply Ho|by right].
Qed.

Lemma compileOneInterface_wiring device i source names compiled c :
  Wiring c -> Naming device names compiled c ->
  wp (compileOneInterface device i source names compiled)
    (fun r c' => Wiring c' /\ Naming device r.1 r.2 c' /\ Extends (config.dvName device) c c') c.
Proof.
  intros Hw Hn. unfold compileOneInterface, appendRoute. destruct (_ && _ && _); [by wp_walk; split_and!; [| |apply extends_refl]|].
  cbv zeta. destruct (bool_decide _) eqn:Ed.
  { wp_walk. split_and!; [by apply wiring_reported|by apply naming_reported|by apply extends_refl]. }
  apply bool_decide_eq_false in Ed. wp_step. eapply wp_mono.
  { apply (compileInterface_spec _ _ _ _ (nets c)). by destruct Hw as [[[Hl _] _] _]. }
  intros [iface|] c'; simpl; cycle 1.
  { intros (code & f & ->). wp_walk. split_and!; [by apply wiring_reported| |by apply extends_refl].
    by apply naming_reported, naming_grow. }
  intros (-> & Hdev & Hname & (nw & Hnw & Hlook & Hhome) & Hfree & Hnd).
  do 2 wp_step. change (retopology _ _) with (withInterface iface c).
  assert (Wiring (withInterface iface c)) as Hw'.
  { eapply wiring_interface; try done. intros j Hj Hjd. rewrite Hname. intros E. apply Ed. rewrite <- E.
    apply (nmNames _ _ _ _ Hn); [done|congruence]. }
  assert (Naming device ({[config.ifName source]} ∪ names) (<[itName iface := iface]> compiled) (withInterface iface c))
    as Hn'.
  { destruct Hn as [Hnn Hnc]. constructor.
    - intros j [Hj| ->%list_elem_of_singleton]%elem_of_app Hjd; [apply Hnn in Hj; set_solver|set_solver].
    - intros n j [[<- <-]|[Hne Hj]]%lookup_insert_Some.
      + split_and!; try done. unfold ifaces. simpl. set_solver.
      + apply Hnc in Hj as (Hj & ? & ?). split_and!; try done. unfold ifaces. simpl. set_solver. }
  assert (Extends (config.dvName device) c (withInterface iface c)) as Hd'.
  { constructor; try done; unfold ifaces; simpl; [set_solver|].
    intros j [Hj| ->%list_elem_of_singleton]%elem_of_app; [by left|by right]. }
  assert (iface ∈ ifaces (withInterface iface c)) as Hin by (unfold ifaces; simpl; set_solver).
  assert (nw ∈ nets (withInterface iface c) /\ scNetworks (withInterface iface c) !! itNetwork iface = Some nw) as Hnet
    by (by split).
  generalize dependent (withInterface iface c). intros d Hw' Hn' Hd' Hin [Hnet Hlk].
  assert (forall d', Wiring d' -> ifaces d' = ifaces d -> nets d' = nets d -> scNetworks d' = scNetworks d ->
    Extends (config.dvName device) d d' ->
    wp (networks ← gets scNetworks;
        (if routesIP device then
           appendRoute (mkRoute (config.dvName device)
             (default PrefixZero (ntPrefix <$> networks !! itNetwork iface)) (itName iface) AddrZero true)
         else mret tt);;
        mret ({[config.ifName source]} ∪ names, <[itName iface := iface]> compiled))
      (fun r c' => Wiring c' /\ Naming device r.1 r.2 c' /\ Extends (config.dvName device) c c') d') as Htail.
  { intros d' Hwd Ei En Et Hext. apply (extends_trans _ _ _ _ Hd') in Hext. unfold appendRoute. wp_walk; simpl.
    - split_and!; [|by destruct Hn'; constructor; unfold ifaces in *; simpl; rewrite Ei|
        by eapply extends_trans; [|apply extends_refl]].
      destruct Hwd as [Hs Hrest]. split; [|exact Hrest]. apply sound_route; [done|].
      exists iface. rewrite Ei, En, Et, Hlk. split_and!; try done. by exists nw; split_and!; destruct Hhome.
    - split_and!; [done|by destruct Hn'; constructor; rewrite Ei|done]. }
  unfold appendRoute in Htail. wp_step. destruct (negb _); wp_step.
  - apply Htail; try done; [|by apply extends_refl]. destruct Hw' as [(Hg & Hw2 & Hr & Hrel & Hp) Hrest]. split; [|exact Hrest].
    split; [exact Hg|]. split; [exact Hw2|]. split; [exact Hr|]. split; [|exact Hp].
    intros relay [Hrelay| ->%list_elem_of_singleton]%elem_of_app; [by apply Hrel|by split].
  - apply Htail; try done. by apply extends_refl.
Qed.

Lemma compileInterfacesFrom_wiring device i sources names compiled c :
  Wiring c -> Naming device names compiled c ->
  wp (compileInterfacesFrom device i sources names compiled)
    (fun compiled' c' => Wiring c' /\ (exists names', Naming device names' compiled' c') /\
       Extends (config.dvName device) c c') c.
Proof.
  revert i names compiled c. induction sources as [|source sources IH]; intros i names compiled c Hw Hn; simpl.
  - wp_walk. split_and!; [done|by exists names|by apply extends_refl].
  - wp_step. eapply wp_mono; [by apply compileOneInterface_wiring|]. intros [names' compiled'] c' (Hw' & Hn' & Hx).
    eapply wp_mono; [by apply IH|]. intros r c'' (? & ? & ?). split_and!; try done. by eapply extends_trans.
Qed.

(** ** All devices *)

Definition Known (c : scenarioCompiler) : Prop := forall i, i ∈ ifaces c -> itDevice i ∈ scDevices c.

(** The interfaces of a server are the compiled ones of its device. *)
Definition Server (c : scenarioCompiler) (server : config.Device * option (gmap string Interface)) : Prop :=
  forall interfaces n i, server.2 = Some interfaces -> interfaces !! n = Some i ->
    i ∈ ifaces c /\ itDevice i = config.dvName server.1 /\ itName i = n.

Lemma compileDeviceInterfaces_wiring i devices c :
  Wiring c -> Known c ->
  wp (compileDeviceInterfaces i devices)
    (fun servers c' => Wiring c' /\ Known c' /\ (forall j, j ∈ ifaces c -> j ∈ ifaces c') /\
       (scCfg c' = scCfg c /\ fixedParts c' = fixedParts c) /\ Forall (Server c') servers /\ servers.*1 = devices) c.
Proof.
  revert i c. induction devices as [|device devices IH]; intros i c Hw Hk; simpl.
  { wp_walk. by split_and!. }
  do 3 wp_step. destruct (bool_decide _) eqn:Ed.
  - wp_step. wp_step. eapply wp_mono; [apply IH; [by apply wiring_reported|exact Hk]|].
    intros servers c' (? & ? & ? & [? ?] & Hs & <-). wp_walk. split_and!; try done. by constructor.
  - apply bool_decide_eq_false in Ed. do 3 wp_step. unfold compileInterfaces.
    assert (Naming device ∅ ∅ (c <| scDevices := {[config.dvName device]} ∪ scDevices c |>)) as Hn.
    { constructor; [|by intros n j Hj; rewrite lookup_empty in Hj].
      intros j Hj E. destruct Ed. rewrite <- E. by apply Hk. }
    eapply wp_mono; [by apply compileInterfacesFrom_wiring|].
    intros interfaces c' (Hw' & (names & Hn') & [Hkept Honly Hdev Hcfg Hpools]). wp_step. wp_step.
    eapply wp_mono; [apply IH; [done|]|].
    { intros j [Hj|Hj]%Honly; rewrite Hdev; simpl; [apply Hk in Hj|rewrite Hj]; set_solver. }
    intros servers c'' (? & ? & Hkept' & [Hcfg' Hpools'] & Hs & <-). wp_walk. split_and!; try done.
    + intros j Hj. by apply Hkept', Hkept.
    + by rewrite Hcfg', Hcfg.
    + by rewrite Hpools', Hpools.
    + constructor; [|done]. intros ? n j [= <-] Hj. simpl. apply (nmCompiled _ _ _ _ Hn') in Hj as (? & ? & ?).
      split_and!; try done. by apply Hkept'.
Qed.

(** ** Pools of a server *)

Lemma anyBetween_false {A} (m : gmap Addr A) start stop a :
  anyBetween m start stop = false -> is_Some (m !! a) -> between a start stop = false.
Proof.
  unfold anyBetween. intros H [x Hx%elem_of_map_to_list]. apply not_true_iff_false. intros Hb.
  apply not_true_iff_false in H. apply H, existsb_exists. exists (a, x). by rewrite <- list_elem_of_In.
Qed.

Lemma existsb_false {A} (f : A -> bool) l x : existsb f l = false -> x ∈ l -> f x = false.
Proof.
  intros H Hx. apply not_true_iff_false. intros Hf. apply not_true_iff_false in H.
  apply H, existsb_exists. exists x. by rewrite <- list_elem_of_In.
Qed.

Definition Refused (c c' : scenarioCompiler) : Prop := exists code field, c' = reported c code field.

Lemma refused_reported c code field : Refused c (reported c code field).
Proof. by eexists _, _. Qed.
#[local] Hint Resolve refused_reported : core.

Lemma sound_refused c c' : Sound c -> Refused c c' -> Sound c'.
Proof. intros H (code & field & ->). by apply sound_reported. Qed.

(** A pool free of interface addresses, of leases and of the other pools. *)
Definition freePool (c : scenarioCompiler) (network : string) (start stop : Addr) : Prop :=
  (forall a, is_Some (scAddresses c !! a) -> between a start stop = false) /\
  (forall s, s ∈ scopes c -> poolsOverlap network start stop s = false) /\
  (forall a, is_Some (scLeaseAddresses c !! a) -> between a start stop = false).

Lemma validateDHCPPoolCollisions_spec device network start stop c :
  wp (validateDHCPPoolCollisions device network start stop)
    (fun ok c' => if ok then c' = c /\ freePool c network start stop else Refused c c') c.
Proof.
  unfold validateDHCPPoolCollisions. wp_walk; try done.
  split; [done|]. split_and!.
  - intros a Ha. by apply (anyBetween_false (scAddresses c)).
  - intros s Hs. by eapply existsb_false.
  - intros a Ha. by apply (anyBetween_false (scLeaseAddresses c)).
Qed.

Lemma validateDHCPOptions_spec device cfg network c :
  wp (validateDHCPOptions device cfg network) (fun ok c' => if ok then c' = c else Refused c c') c.
Proof. unfold validateDHCPOptions. by wp_walk. Qed.

(** An address a lease may use beside the pool of its server. *)
Definition leasable (c : scenarioCompiler) (start stop a : Addr) : Prop :=
  scAddresses c !! a = None /\ between a start stop = false /\ scLeaseAddresses c !! a = None /\
  forall s, s ∈ scopes c -> between a (dsStart s) (dsEnd s) = false.

Lemma validateDHCPLease_spec device lease index network start stop pending macs c :
  wp (validateDHCPLease device lease index network start stop pending macs)
    (fun r c' => match r with
       | Some (a, _) => c' = c /\ a = (ipToAddr (config.dlClientIP lease)).1 /\ leasable c start stop a /\ pending !! a = None
       | None => Refused c c'
       end) c.
Proof.
  unfold validateDHCPLease, validateDHCPLeaseAddress. cbv zeta.
  destruct (ipToAddr (config.dlClientIP lease)) as [a ok]. wp_walk; simpl in *; try done.
  match goal with H : (_ || _ || _ || _ || _) = false |- _ =>
    apply orb_false_iff in H as [[[[H1 H2]%orb_false_iff H3]%orb_false_iff H4]%orb_false_iff H5] end.
  apply bool_decide_eq_false, eq_None_not_Some in H1, H4, H5. split_and!; try done. split_and!; try done.
  intros s Hs. by apply (existsb_false _ _ _ H3).
Qed.

Lemma validateLeasesFrom_spec device index leases network start stop pending macs c :
  (forall a, is_Some (pending !! a) -> leasable c start stop a) ->
  wp (validateLeasesFrom device index leases network start stop pending macs)
    (fun r c' => match r with
       | Some (pending', _) => c' = c /\ forall a, is_Some (pending' !! a) -> leasable c start stop a
       | None => Refused c c'
       end) c.
Proof.
  revert index pending macs. induction leases as [|lease leases IH]; intros index pending macs Hp; simpl; [by wp_walk|].
  wp_step. eapply wp_mono; [apply validateDHCPLease_spec|]. intros [[a mac]|] c'; [|by intros; wp_walk].
  intros (-> & _ & Ha & _). apply IH. intros b. destruct (decide (a = b)) as [->|Hne]; [done|].
  rewrite lookup_insert_ne by done. apply Hp.
Qed.

(** The state after a pool and its leases have been accepted. *)
Definition withScope (scope : DHCPScope) (pending : gmap Addr string) (macs : list dhcpLeaseMAC) (c : scenarioCompiler)
    : scenarioCompiler :=
  retopology (fun t => t <| tyDHCPScopes := tyDHCPScopes t ++ [scope] |>)
    (c <| scLeaseAddresses := pending ∪ scLeaseAddresses c |> <| scLeaseMACs := scLeaseMACs c ++ macs |>).

Lemma sound_scope scope pending macs c :
  Sound c -> (exists nw, nw ∈ nets c /\ poolIn nw scope) -> servedBy (ifaces c) scope ->
  freePool c (dsNetwork scope) (dsStart scope) (dsEnd scope) ->
  (forall a, is_Some (pending !! a) -> leasable c (dsStart scope) (dsEnd scope) a) ->
  Sound (withScope scope pending macs c).
Proof.
  intros (Hg & Hw & Hr & Hrel & [Hi Hs Ho Ha Hl]) Hin Hserved (Hfo & Hfs & Hfl) Hpend.
  split; [exact Hg|]. split; [exact Hw|]. split; [exact Hr|]. split; [exact Hrel|].
  constructor; unfold scopes, nets, ifaces, withScope, retopology, scTopology in *; simpl in *.
  - intros s [?| ->%list_elem_of_singleton]%elem_of_app; [by apply Hi|done].
  - intros s [?| ->%list_elem_of_singleton]%elem_of_app; [by apply Hs|done].
  - intros s a [?| ->%list_elem_of_singleton]%elem_of_app; [by apply Ho|apply Hfo].
  - apply StronglySorted_app_2; [|done|repeat constructor].
    intros s s' Hin' ->%list_elem_of_singleton. by apply Hfs.
  - intros a [d Hd]. apply lookup_union_Some_raw in Hd as [Hd|[_ Hd]].
    + destruct (Hpend a) as (? & ? & ? & ?); [eauto|]. split; [done|].
      intros s [?| ->%list_elem_of_singleton]%elem_of_app; auto.
    + destruct (Hl a) as [? Hls]; [eauto|]. split; [done|].
      intros s [?| ->%list_elem_of_singleton]%elem_of_app; [by apply Hls|apply Hfl; eauto].
Qed.

(** A step that leaves the interfaces and the relays alone. *)
Definition Serving (c c' : scenarioCompiler) : Prop :=
  Sound c' /\ ifaces c' = ifaces c /\ scRelays c' = scRelays c /\ scCfg c' = scCfg c /\ fixedParts c' = fixedParts c.

Lemma serving_refused c c' : Sound c -> Refused c c' -> Serving c c'.
Proof. intros Hs (code & field & ->). by split; [apply sound_reported|]. Qed.

Lemma appendDHCPScope_serving device cfg network c :
  Sound c -> (exists i, i ∈ ifaces c /\ itDevice i = config.dvName device /\ itNetwork i = network) ->
  wp (appendDHCPScope device cfg network) (fun _ => Serving c) c.
Proof.
  intros Hs (i & Hi & Hid & Hin). unfold appendDHCPScope. wp_step. wp_step. cbv zeta.
  assert (forall code field, Serving c (reported c code field)) as Href by (intros; by apply serving_refused).
  destruct (ipToAddr (config.dcPoolStart cfg)) as [start startOK], (ipToAddr (config.dcPoolEnd cfg)) as [stop endOK].
  set (nw := default _ (scNetworks c !! network)).
  destruct (_ || _) eqn:Ein; [by wp_walk|]. destruct (addrGt start stop) eqn:Egt; [by wp_walk|].
  destruct (_ || _) eqn:Eres in |- *; [by wp_walk|].
  destruct (ipToAddr (config.dcRouter cfg)) as [router routerOK].
  destruct (_ || _) eqn:Erouter in |- *; [by wp_walk|].
  wp_step. eapply wp_mono; [apply validateDHCPOptions_spec|].
  intros [] c1; [intros ->|intros; wp_walk; by apply serving_refused]. simpl.
  wp_step. eapply wp_mono; [apply validateDHCPPoolCollisions_spec|].
  intros [] c1; [intros [-> Hfree]|intros; wp_walk; by apply serving_refused]. simpl.
  wp_step. unfold validateDHCPLeases. wp_step. eapply wp_mono.
  { apply (validateLeasesFrom_spec _ _ _ _ start stop). intros a [? Ha]. by rewrite lookup_empty in Ha. }
  intros [[pending macs]|] c1; [intros [-> Hpend]|intros; wp_walk; by apply serving_refused].
  unfold appendScope. wp_walk. cbv beta.
  split; [|done]. refine (sound_scope (mkDHCPScope _ _ _ _ _ _) pending macs c Hs _ _ Hfree Hpend).
  - destruct Hs as ([Hl _] & Hw & _). destruct (wrHome _ _ _ Hw i Hi) as (nw' & Hnw' & Hhome).
    apply (ldList _ _ Hl) in Hnw' as Hlook. rewrite (hmName _ _ Hhome), Hin in Hlook.
    assert (nw = nw') as -> by (unfold nw; by rewrite Hlook). exists nw'. split; [done|].
    apply orb_false_iff in Ein as [[_ E1]%orb_false_iff E2], Eres as [E3 E4], Erouter as [_ E5].
    apply negb_false_iff in E1, E2, E5. split_and!; try done. by rewrite <- Hin, (hmName _ _ Hhome).
  - left. split; [done|]. by exists i.
Qed.

Lemma compileDHCP_serving device interfaces c :
  Sound c -> Server c (device, Some interfaces) -> wp (compileDHCP device interfaces) (fun _ => Serving c) c.
Proof.
  intros Hs Hsrv. unfold compileDHCP. cbv zeta.
  assert (forall code field, Serving c (reported c code field)) as Href by (intros; by apply serving_refused).
  destruct (config.dvDHCPConfig device) as [cfg|]; [|by wp_walk].
  destruct (negb (hasDHCPPool cfg)); [by wp_walk|].
  destruct (ipToAddr (config.dcPoolStart cfg)) as [start startOK], (ipToAddr (config.dcPoolEnd cfg)) as [stop endOK].
  destruct (_ || _); [by wp_walk|]. wp_step. wp_step. cbv zeta.
  set (holds := fun iface => _). set (candidates := list_to_set _ : gset string).
  destruct (elements candidates) as [|network [|]] eqn:E; [by wp_walk| |by wp_walk].
  apply appendDHCPScope_serving; [done|].
  assert (network ∈ candidates) as Hin by (apply elem_of_elements; rewrite E; set_solver).
  apply elem_of_list_to_set, list_elem_of_fmap in Hin as (i & -> & Hi).
  apply list_elem_of_In, filter_In in Hi as [Hi _]. apply list_elem_of_In, list_elem_of_fmap in Hi as ([n j] & -> & Hj).
  apply elem_of_map_to_list in Hj. destruct (Hsrv _ _ _ eq_refl Hj) as (? & ? & ?). by exists j.
Qed.

(** ** Relayed pools *)

Lemma withScope_nil scope c :
  withScope scope ∅ [] c = retopology (fun t => t <| tyDHCPScopes := tyDHCPScopes t ++ [scope] |>) c.
Proof. unfold withScope. destruct c. unfold setf. simpl. by rewrite (left_id_L ∅ (∪)), app_nil_r. Qed.

Lemma serving_refl c : Sound c -> Serving c c.
Proof. done. Qed.

Lemma serving_trans c c' c'' : Serving c c' -> Serving c' c'' -> Serving c c''.
Proof. intros (? & ? & ? & ? & ?) (? & ? & ? & ? & ?). split_and!; congruence. Qed.

Lemma validRelays_serving relays c :
  Sound c -> (forall relay, relay ∈ relays -> Relaying (ifaces c) relay) ->
  wp (validRelays relays) (fun valid c' => Serving c c' /\ forall relay, relay ∈ valid -> Relaying (ifaces c) relay) c.
Proof.
  revert c. induction relays as [|relay relays IH]; intros c Hs Hr; simpl.
  { wp_walk. split; [done|]. by intros ? ?%elem_of_nil. }
  assert (Relaying (ifaces c) relay) as Hrelay by (apply Hr; set_solver).
  assert (forall c', Serving c c' ->
    wp (validRelays relays) (fun valid c'' => Serving c c'' /\ forall relay, relay ∈ valid -> Relaying (ifaces c) relay) c')
    as Htail.
  { intros c' (Hs' & Hi & Hrest). eapply wp_mono; [apply IH; [done|]|].
    - intros r Hin. rewrite Hi. apply Hr. set_solver.
    - intros valid c'' [Hv Hall]. rewrite Hi in Hall. split; [|done]. by eapply serving_trans. }
  unfold validateRelay.
  wp_walk; try (eapply wp_mono; [by apply Htail, serving_refused|by intros; wp_walk]).
  eapply wp_mono; [by apply Htail|]. intros valid c' [Hv Hall]. wp_walk. split; [done|].
  by intros r [->|?%Hall]%elem_of_cons.
Qed.

Lemma networkContaining_spec address c :
  Sound c ->
  wp (networkContaining address) (fun r c' =>
    match r with Some nw => c' = c /\ nw ∈ nets c /\ Contains (ntPrefix nw) address = true | None => c' = c end) c.
Proof.
  intros ([Hl _] & _). unfold networkContaining. wp_walk.
  destruct (List.find _ _) as [nw|] eqn:E; [|done]. apply find_some in E as [Hin Hc]. split_and!; [done| |done].
  apply list_elem_of_In, list_elem_of_omap in Hin as (n & _ & Hn). by apply (ldTable _ _ Hl) in Hn as [_ ?].
Qed.

Lemma compileRelayedScope_serving device interfaces scope field relays used c :
  Sound c -> Server c (device, Some interfaces) -> (forall relay, relay ∈ relays -> Relaying (ifaces c) relay) ->
  wp (compileRelayedScope device interfaces scope field relays used) (fun _ => Serving c) c.
Proof.
  intros Hs Hsrv Hrel. unfold compileRelayedScope.
  assert (forall code field, Serving c (reported c code field)) as Href by (intros; by apply serving_refused).
  destruct (ipToAddr (config.dsPoolStart scope)) as [start startOK], (ipToAddr (config.dsPoolEnd scope)) as [stop endOK].
  wp_step. eapply wp_mono; [by apply networkContaining_spec|]. intros [nw|] c1; [intros [-> Hnw]|intros ->; by wp_walk].
  destruct (_ || _) eqn:Ein; [by wp_walk|]. destruct (addrGt start stop) eqn:Egt; [by wp_walk|].
  destruct (_ || _) eqn:Eres in |- *; [by wp_walk|].
  destruct (ipToAddr (config.dsRouter scope)) as [router routerOK].
  destruct (_ || _) eqn:Erouter in |- *; [by wp_walk|].
  destruct (existsb _ _); [by wp_walk|]. destruct (List.find _ relays) as [relay|] eqn:Ef; [|by wp_walk].
  wp_step. eapply wp_mono; [apply validateDHCPPoolCollisions_spec|].
  intros [] c1; [intros [-> Hfree]|intros; wp_walk; by apply serving_refused].
  unfold appendScope. wp_walk. cbv beta. rewrite <- withScope_nil.
  apply find_some in Ef as [Hrelay%list_elem_of_In Hto]. apply andb_true_iff in Hto as [Hnet%bool_decide_eq_true Hto].
  apply existsb_exists in Hto as ([n j] & Hj & Haddr%bool_decide_eq_true).
  apply list_elem_of_In, elem_of_map_to_list in Hj. destruct (Hsrv _ _ _ eq_refl Hj) as (Hjin & Hjd & _).
  destruct (Hrel _ Hrelay) as [Hi Hid]. destruct Hnw as [Hnw Hstart].
  split; [|done]. apply (sound_scope (mkDHCPScope _ _ _ _ _ _)); try done.
  - exists nw. split; [done|].
    apply orb_false_iff in Ein as [_ E2], Eres as [E3 E4], Erouter as [_ E5]. apply negb_false_iff in E2, E5.
    by split_and!.
  - right. exists (rsIface relay), j. split_and!; try done. simpl. by rewrite Hid, Haddr.
  - intros a [? Ha]. by rewrite lookup_empty in Ha.
Qed.

Lemma server_serving c c' server : Serving c c' -> Server c server -> Server c' server.
Proof. intros (_ & E & _) Hs interfaces n i H1 H2. rewrite E. by eapply Hs. Qed.

Lemma compileScopesFrom_serving device interfaces i scopes relays used c :
  Sound c -> Server c (device, Some interfaces) -> (forall relay, relay ∈ relays -> Relaying (ifaces c) relay) ->
  wp (compileScopesFrom device interfaces i scopes relays used) (fun _ => Serving c) c.
Proof.
  revert i used c. induction scopes as [|scope scopes IH]; intros i used c Hs Hsrv Hrel; simpl; [by wp_walk|].
  wp_step. eapply wp_mono; [by apply compileRelayedScope_serving|]. intros used' c' Hc. pose proof Hc as (Hs' & Hi & _).
  eapply wp_mono; [apply IH; [done|by apply (server_serving c)|by rewrite Hi]|]. intros ? c''. by apply serving_trans.
Qed.

Lemma compileServersFrom_serving servers relays used c :
  Sound c -> Forall (Server c) servers -> (forall relay, relay ∈ relays -> Relaying (ifaces c) relay) ->
  wp (compileServersFrom servers relays used) (fun _ => Serving c) c.
Proof.
  revert used c. induction servers as [|[device interfaces] servers IH]; intros used c Hs Hsrv Hrel; simpl; [by wp_walk|].
  apply Forall_cons in Hsrv as [Hd Hsrv]. wp_step. apply (wp_mono _ (fun _ => Serving c)).
  - destruct interfaces; [|by wp_walk]. destruct (config.dvDHCPConfig device); [|by wp_walk].
    by apply compileScopesFrom_serving.
  - intros used' c' Hc. pose proof Hc as (Hs' & Hi & _).
    eapply wp_mono; [apply IH; [done| |by rewrite Hi]|].
    + eapply Forall_impl; [done|]. intros s. by apply server_serving.
    + intros ? c''. by apply serving_trans.
Qed.

Lemma reportUnused_serving relays used c : Sound c -> wp (reportUnused relays used) (fun _ => Serving c) c.
Proof.
  revert used c. induction relays as [|relay relays IH]; intros [|u used] c Hs; simpl; try by wp_walk.
  wp_step. wp_step; wp_step; [|by apply IH]. eapply wp_mono; [by apply IH, sound_reported|].
  intros ? c'. apply serving_trans. by apply serving_refused.
Qed.

Lemma compileRelayedDHCP_serving servers c :
  Sound c -> Forall (Server c) servers -> wp (compileRelayedDHCP servers) (fun _ => Serving c) c.
Proof.
  intros Hs Hsrv. unfold compileRelayedDHCP, validDHCPRelays. do 3 wp_step. eapply wp_mono.
  { apply validRelays_serving; [done|]. by destruct Hs as (_ & _ & _ & Hrel & _). }
  intros relays c' [Hc Hrel]. pose proof Hc as (Hs' & Hi & _). wp_step.
  eapply wp_mono; [apply compileServersFrom_serving; [done| |by rewrite Hi]|].
  - eapply Forall_impl; [done|]. intros s. by apply server_serving.
  - intros used c'' Hc'. eapply wp_mono; [apply reportUnused_serving; by destruct Hc'|]. intros ? c3 Hc3.
    by apply (serving_trans _ c'), (serving_trans _ c'').
Qed.

(** ** The whole scenario *)

Lemma compileServices_serving i server c :
  Sound c -> Server c server -> wp (compileServices i server) (fun _ => Serving c) c.
Proof.
  intros Hs Hsrv. unfold compileServices. destruct server as [device [interfaces|]]; simpl; [|by wp_walk].
  wp_step. apply (wp_mono _ (fun _ => Serving c)).
  - unfold compileRoutes. apply wp_forRange; [done|]. intros j source c' _ Hc'. pose proof Hc' as (Hs' & Hi & ? & ?).
    unfold compileRoute, appendRoute. wp_walk; (split; [|done]).
    + apply sound_route; [done|]. destruct Hs' as (_ & Hw & _). eapply validateStaticRoute_routed; [exact Hw| |eassumption].
      intros n k Hk. simpl. rewrite Hi. by apply (Hsrv interfaces).
    + by apply sound_reported.
  - intros [] c' Hc'. eapply wp_mono.
    + apply compileDHCP_serving; [by destruct Hc'|]. by apply (server_serving c).
    + intros ? c''. by apply serving_trans.
Qed.

Lemma compileDevices_sound c :
  Wiring c -> Known c -> wp compileDevices (fun _ c' => Sound c' /\ scCfg c' = scCfg c /\ fixedParts c' = fixedParts c) c.
Proof.
  intros Hw Hk. unfold compileDevices. do 2 wp_step. destruct (scCfg c) as [cfg|] eqn:Ecfg; [|wp_walk; by destruct Hw].
  wp_step. eapply wp_mono; [by apply compileDeviceInterfaces_wiring|].
  intros servers c1 ([Hs1 _] & _ & _ & [Hcfg Hpools] & Hsrv & _).
  wp_step. apply (wp_mono _ (fun _ => Serving c1)).
  - apply wp_forRange; [done|]. intros i server c2 Hin Hc2. pose proof Hc2 as (Hs2 & _).
    eapply wp_mono; [apply compileServices_serving; [done|]|].
    + rewrite Forall_forall in Hsrv. eapply server_serving; [done|]. by apply Hsrv.
    + intros ? c3. by apply serving_trans.
  - intros [] c2 Hc2. pose proof Hc2 as (Hs2 & _). eapply wp_mono.
    + apply compileRelayedDHCP_serving; [done|]. eapply Forall_impl; [done|]. intros s. by apply server_serving.
    + intros ? c3 Hc3. destruct (serving_trans _ _ _ Hc2 Hc3) as (? & _ & _ & ? & ?). split_and!; congruence.
Qed.
