(* ===== verification/FabricDomain.v ===== *)
(** * The fabric compiler: broadcast domains and the pools they resolve

    A domain is the closure of the links that carry its VLAN; the network
    behind a port is the only one that serves the VLAN there; and a compiled
    attachment has free, distinct ports that agree on a network. *)

From stdpp Require Import relations.
From S2P Require Import Prelude.
From S2P Require Import Netip.
From S2P Require Import Bytes.
From S2P Require Import NetipParse.
From S2P Require Import FabricTypes.
From S2P Require Import Fabric.
From S2P Require Import FabricDhcp.
From S2P Require Import FabricAttachment.
From S2P Require Import FabricFacts.
From S2P Require Import FabricInvariant.

(** ** Broadcast domains *)

Section domain.
Context (devices : list config.Device) (vlan : Z).

(** A link to another device, not a learned client, tagged or untagged in the VLAN. *)
Definition carries (trunk : config.TrunkPort) : Prop :=
  config.tpRemoteDevice trunk <> ""%string /\ config.tpFDBOnly trunk = false /\
  (config.tpNativeVLAN trunk = vlan \/ vlan ∈ config.tpVLANs trunk).

Lemma followed_carries trunk : followed vlan trunk = true <-> carries trunk.
Proof.
  unfold followed, trunkCarriesVLAN, carries.
  rewrite !andb_true_iff, orb_true_iff, !negb_true_iff, bool_decide_eq_false, bool_decide_eq_true, Z.eqb_eq. tauto.
Qed.

(** One link that carries the VLAN. *)
Definition linked (a b : string) : Prop :=
  exists device trunk, deviceByName devices a = Some device /\ trunk ∈ config.dvTrunkPorts device /\
    carries trunk /\ config.tpRemoteDevice trunk = b.

Definition remotes : gset string :=
  list_to_set (config.tpRemoteDevice <$> concat (map config.dvTrunkPorts devices)).

Lemma size_remotes : (size remotes <= length (concat (map config.dvTrunkPorts devices)))%nat.
Proof.
  unfold remotes. generalize (concat (map config.dvTrunkPorts devices)) as l.
  induction l as [|t l IH]; [done|]. cbn [fmap list_fmap list_to_set length].
  rewrite size_union_alt, size_singleton.
  pose proof (subseteq_size (list_to_set (config.tpRemoteDevice <$> l) ∖ {[config.tpRemoteDevice t]} : gset string)
    (list_to_set (config.tpRemoteDevice <$> l)) ltac:(set_solver)). lia.
Qed.

(** What visiting the trunks of one device adds. *)
Lemma visit_trunks trunks domain queue :
  exists new,
    foldl (visitTrunk vlan) (domain, queue) trunks = (list_to_set new ∪ domain, queue ++ new) /\
    NoDup new /\ (forall x, x ∈ new -> x ∉ domain) /\
    (forall x, x ∈ new -> exists t, t ∈ trunks /\ followed vlan t = true /\ config.tpRemoteDevice t = x) /\
    (forall t, t ∈ trunks -> followed vlan t = true -> config.tpRemoteDevice t ∈ new \/ config.tpRemoteDevice t ∈ domain).
Proof.
  revert domain queue. induction trunks as [|t trunks IH]; intros domain queue; simpl.
  { exists []. rewrite app_nil_r. split_and!; [|constructor|by intros ? ?%elem_of_nil..].
    f_equal. set_solver. }
  unfold visitTrunk at 2. destruct (followed vlan t) eqn:Ef; cbn [negb orb fst snd].
  - case_bool_decide as Hin.
    + destruct (IH domain queue) as (new & -> & Hnd & Hfresh & Hfrom & Hall). exists new. split_and!; try done.
      * intros x (t' & ? & ? & ?)%Hfrom. exists t'. split_and!; [by right|done..].
      * intros t' [->|Ht']%elem_of_cons Hf; [by right|by apply Hall].
    + destruct (IH ({[config.tpRemoteDevice t]} ∪ domain) (queue ++ [config.tpRemoteDevice t]))
        as (new & -> & Hnd & Hfresh & Hfrom & Hall).
      exists (config.tpRemoteDevice t :: new). split_and!.
      * rewrite <- app_assoc. f_equal. simpl. set_solver.
      * constructor; [|done]. intros Hx. apply Hfresh in Hx. set_solver.
      * intros x [->|Hx]%elem_of_cons; [done|]. apply Hfresh in Hx. set_solver.
      * intros x [->|(t' & ? & ? & ?)%Hfrom]%elem_of_cons; [exists t|exists t']; split_and!; set_solver.
      * intros t' [->|Ht']%elem_of_cons Hf; [left; left|].
        destruct (Hall t' Ht' Hf) as [?|[->%elem_of_singleton|?]%elem_of_union]; [left; by right|left; left|by right].
  - destruct (IH domain queue) as (new & -> & Hnd & Hfresh & Hfrom & Hall). exists new. split_and!; try done.
    + intros x (t' & ? & ? & ?)%Hfrom. exists t'. split_and!; [by right|done..].
    + intros t' [->|Ht']%elem_of_cons Hf; [congruence|by apply Hall].
Qed.

Lemma device_trunks_remote a device trunk :
  deviceByName devices a = Some device -> trunk ∈ config.dvTrunkPorts device -> config.tpRemoteDevice trunk ∈ remotes.
Proof.
  intros [Hd _]%find_some Ht. apply elem_of_list_to_set, list_elem_of_fmap. exists trunk. split; [done|].
  apply list_elem_of_In, in_concat. exists (config.dvTrunkPorts device). split; [by apply in_map|by apply list_elem_of_In].
Qed.

(** What the queue loop keeps, from a start it has reached. *)
Record Spread (start : string) (domain : gset string) (queue : list string) : Prop := mkSpread {
  spStart : start ∈ domain;
  spQueue : forall x, x ∈ queue -> x ∈ domain;
  spReached : forall x, x ∈ domain -> rtc linked start x;
  spClosed : forall x y, x ∈ domain -> linked x y -> y ∈ domain \/ x ∈ queue
}.

Lemma spread_done start domain x : Spread start domain [] -> x ∈ domain <-> rtc linked start x.
Proof.
  intros [Hst _ Hr Hc]. split; [apply Hr|]. revert x. apply rtc_ind_r; [done|].
  intros y z _ Hy IH. by destruct (Hc y z IH Hy) as [?|?%elem_of_nil].
Qed.

(** Fuel for every name that can still be met is enough, and the loop returns
    exactly the names reachable from its start. *)
Lemma domainLoop_reaches start fuel domain queue :
  Spread start domain queue -> (size (remotes ∖ domain) + length queue <= fuel)%nat ->
  exists domain', domainLoop fuel devices vlan domain queue = Some domain' /\
    forall x, x ∈ domain' <-> rtc linked start x.
Proof.
  revert domain queue. induction fuel as [|fuel IH]; intros domain queue Hs Hfuel.
  all: destruct queue as [|current queue]; cbn [domainLoop length] in *; try lia.
  1,2: exists domain; split; [done|]; intros x; by apply spread_done.
  destruct Hs as [Hst Hq Hr Hc]. destruct (deviceByName devices current) as [device|] eqn:Ed.
  - destruct (visit_trunks (config.dvTrunkPorts device) domain queue) as (new & -> & Hnd & Hfresh & Hfrom & Hall).
    assert (forall x, x ∈ new -> linked current x) as Hlink
      by (intros x (t & ? & ?%followed_carries & ?)%Hfrom; by exists device, t).
    apply IH.
    + constructor; [set_solver|intros x; set_solver| |].
      * intros x [Hx%elem_of_list_to_set|Hx]%elem_of_union; [|by apply Hr].
        eapply rtc_r; [apply Hr, Hq; left|by apply Hlink].
      * intros x y Hx Hxy. destruct (decide (x = current)) as [->|Hne].
        { destruct Hxy as (device' & t & Hd' & Ht & Hf%followed_carries & <-). simplify_eq.
          destruct (Hall t Ht Hf); [left|left]; set_solver. }
        apply elem_of_union in Hx as [Hx%elem_of_list_to_set|Hx]; [right; set_solver|].
        destruct (Hc x y Hx Hxy) as [?|[?|?]%elem_of_cons]; [left; set_solver|done|right; set_solver].
    + assert ((list_to_set new : gset string) ⊆ remotes ∖ domain) as Hsub.
      { intros x Hx%elem_of_list_to_set. apply elem_of_difference. split; [|by apply Hfresh].
        destruct (Hfrom x Hx) as (t & Ht & _ & <-). by eapply device_trunks_remote. }
      pose proof (size_difference _ _ Hsub) as Hsz. rewrite (size_list_to_set new Hnd) in Hsz.
      pose proof (subseteq_size _ _ Hsub) as Hle. rewrite (size_list_to_set new Hnd) in Hle.
      rewrite length_app. replace (remotes ∖ (list_to_set new ∪ domain)) with (remotes ∖ domain ∖ list_to_set new)
        by set_solver. lia.
  - apply IH; [|lia]. constructor; [done|set_solver|done|].
    intros x y Hx Hxy. destruct (Hc x y Hx Hxy) as [?|[->|?]%elem_of_cons]; [by left| |by right].
    destruct Hxy as (d & ? & Hd & _). congruence.
Qed.

(** The broadcast domain of a device is exactly what the links that carry the
    VLAN reach from it. *)
Lemma broadcastDomain_reaches from x :
  x ∈ broadcastDomain devices from vlan <-> rtc linked (config.dvName from) x.
Proof.
  unfold broadcastDomain.
  destruct (domainLoop_reaches (config.dvName from) (domainFuel devices) {[config.dvName from]} [config.dvName from])
    as (domain & -> & H); [| |apply H].
  - constructor; [set_solver|set_solver|by intros y ->%elem_of_singleton|].
    intros y z ->%elem_of_singleton _. right. left.
  - unfold domainFuel. simpl. pose proof size_remotes.
    pose proof (subseteq_size (remotes ∖ {[config.dvName from]}) remotes ltac:(set_solver)). lia.
Qed.

End domain.

(** ** The network behind a port *)

Section network.
Context (devices : list config.Device) (networks : gmap string Network) (vlan : Z) (domain : gset string).

(** A device of the domain has an interface on a network with this VLAN. *)
Definition serves (name : string) : Prop :=
  exists device iface, device ∈ devices /\ config.dvName device ∈ domain /\ iface ∈ config.dvInterfaces device /\
    config.ifNetwork iface = name /\ servesVLAN networks vlan name = true.

Lemma noteNetwork_fold found ifs :
  NoDup found ->
  let found' := foldl (noteNetwork networks vlan) found ifs in
  NoDup found' /\
  forall n, n ∈ found' <->
    n ∈ found \/ exists iface, iface ∈ ifs /\ config.ifNetwork iface = n /\ servesVLAN networks vlan n = true.
Proof.
  revert found. induction ifs as [|iface ifs IH]; intros found Hnd; simpl.
  { split; [done|]. intros n. split; [by left|]. intros [?|(? & ?%elem_of_nil & _)]; done. }
  assert (NoDup (noteNetwork networks vlan found iface) /\
    forall n, n ∈ noteNetwork networks vlan found iface <->
      n ∈ found \/ config.ifNetwork iface = n /\ servesVLAN networks vlan n = true) as [Hnd' Hstep].
  { unfold noteNetwork. destruct (decide (config.ifNetwork iface = ""%string)) as [E0|E0].
    - rewrite (bool_decide_eq_true_2 _ E0). simpl. split; [done|]. intros n. split; [by left|].
      intros [?|[<- Hs]]; [done|]. unfold servesVLAN in Hs. by rewrite (bool_decide_eq_true_2 _ E0) in Hs.
    - rewrite (bool_decide_eq_false_2 _ E0). simpl. case_bool_decide as Hin; [split; [done|]; set_solver|]. destruct (servesVLAN _ _ _) eqn:Es.
      + split; [|intros n; rewrite elem_of_app, list_elem_of_singleton; split;
          [intros [?|Hn]; [by left|right; by subst n]|intros [?|[<- _]]; [by left|by right]]].
        apply NoDup_app. split_and!; [done| |apply NoDup_singleton]. by intros x Hx ->%list_elem_of_singleton.
      + split; [done|]. intros n. split; [by left|]. intros [?|[<- ?]]; [done|congruence]. }
  destruct (IH _ Hnd') as [Hnd2 Hall]. split; [done|]. intros n. rewrite Hall, Hstep. set_solver.
Qed.

(** The answer is the one network that serves the VLAN in the domain, if there
    is exactly one. *)
Lemma networkServingVLAN_exact :
  match networkServingVLAN devices networks vlan domain with
  | vlanNetworkMissing => forall n, ~ serves n
  | vlanNetworkResolved n => serves n /\ forall m, serves m -> m = n
  | vlanNetworkAmbiguous => exists n m, n <> m /\ serves n /\ serves m
  end.
Proof.
  unfold networkServingVLAN.
  assert (forall ds found, NoDup found ->
    let found' := foldl (fun found device => if bool_decide (config.dvName device ∈ domain)
      then foldl (noteNetwork networks vlan) found (config.dvInterfaces device) else found) found ds in
    NoDup found' /\ forall n, n ∈ found' <-> n ∈ found \/ exists device iface,
      device ∈ ds /\ config.dvName device ∈ domain /\ iface ∈ config.dvInterfaces device /\
      config.ifNetwork iface = n /\ servesVLAN networks vlan n = true) as Hfold.
  { induction ds as [|device ds IH]; intros found Hnd; simpl.
    { split; [done|]. intros n. split; [by left|]. intros [?|(? & ? & ?%elem_of_nil & _)]; done. }
    case_bool_decide as Hin.
    - destruct (noteNetwork_fold found (config.dvInterfaces device) Hnd) as [Hnd' Hn].
      destruct (IH _ Hnd') as [? Hall]. split; [done|]. intros n. rewrite Hall, Hn. set_solver.
    - destruct (IH _ Hnd) as [? Hall]. split; [done|]. intros n. rewrite Hall. set_solver. }
  destruct (Hfold devices [] NoDup_nil_2) as [Hnd Hall]. cbv zeta in Hnd, Hall.
  assert (forall n, serves n <-> n ∈ foldl (fun found device => if bool_decide (config.dvName device ∈ domain)
      then foldl (noteNetwork networks vlan) found (config.dvInterfaces device) else found) [] devices) as Hs
    by (intros n; rewrite Hall; unfold serves; set_solver).
  revert Hnd Hs. generalize (foldl (fun found device => if bool_decide (config.dvName device ∈ domain)
      then foldl (noteNetwork networks vlan) found (config.dvInterfaces device) else found) [] devices) as found.
  intros [|n [|m found]] Hnd Hs.
  - intros n Hn. apply Hs in Hn. by apply elem_of_nil in Hn.
  - split; [apply Hs; left|]. intros m Hm%Hs. by apply list_elem_of_singleton in Hm.
  - exists n, m. split_and!; [|apply Hs; left|apply Hs; right; left].
    apply NoDup_cons in Hnd as [Hnd _]. set_solver.
Qed.

End network.

(** A port is free when nothing is linked to it, learned on it or bundles it. *)
Lemma portOccupation_free device name :
  portOccupation device name = ""%string ->
  (forall trunk, trunk ∈ config.dvTrunkPorts device -> config.tpInterface trunk <> name) /\
  (forall channel, channel ∈ config.dvPortChannels device -> name ∉ config.pcMembers channel).
Proof.
  unfold portOccupation. destruct (List.find _ (config.dvTrunkPorts device)) as [t|] eqn:Et;
    [by destruct (config.tpFDBOnly t)|].
  destruct (List.find _ (config.dvPortChannels device)) as [ch|] eqn:Ec; [done|]. intros _. split.
  - intros trunk Hin E. apply list_elem_of_In in Hin. apply (find_none _ _ Et) in Hin.
    by apply bool_decide_eq_false in Hin.
  - intros ch Hin E. apply list_elem_of_In in Hin. apply (find_none _ _ Ec) in Hin. by apply bool_decide_eq_false in Hin.
Qed.

(** ** Pools *)

(** Only findings are added. *)
Definition Quiet (c c' : scenarioCompiler) : Prop :=
  exists ds, c' = c <| scReport := (scReport c) <| reDiagnostics := reDiagnostics (scReport c) ++ ds |> |>.

Lemma onlyFindings_refl c : Quiet c c.
Proof. exists []. rewrite app_nil_r. by destruct c as [? ? ? ? ? ? ? ? []]. Qed.

Lemma quiet_reported c code field : Quiet c (reported c code field).
Proof. by eexists. Qed.

Lemma onlyFindings_trans c c' c'' : Quiet c c' -> Quiet c' c'' -> Quiet c c''.
Proof. intros [ds ->] [ds' ->]. exists (ds ++ ds'). unfold setf. simpl. by rewrite app_assoc. Qed.

Lemma quiet_networks c c' : Quiet c c' -> scNetworks c' = scNetworks c.
Proof. by intros [ds ->]. Qed.

Lemma quiet_sound c c' : Quiet c c' -> Sound c -> Sound c'.
Proof.
  intros [ds ->] ([Hl Ha] & H). split; [split; [exact Hl|]|exact H]. intros Hf. apply Ha.
  by apply app_eq_nil in Hf as [? _].
Qed.

#[local] Hint Resolve onlyFindings_refl quiet_reported : core.

Section pools.
Context (devices : list config.Device) (networks : gmap string Network).

(** A port of a pool: declared, free, in one access VLAN, and on the network
    that alone serves this VLAN where it reaches. *)
Definition resolved (p : AttachmentPort) : Prop :=
  exists device iface, deviceByName devices (atDevice p) = Some device /\
    interfaceByName device (atInterface p) = Some iface /\ portOccupation device (atInterface p) = ""%string /\
    config.ifVLANs iface = [atVLAN p] /\ 1 <= atVLAN p <= 4094 /\
    networkServingVLAN devices networks (atVLAN p) (broadcastDomain devices device (atVLAN p)) =
      vlanNetworkResolved (atNetwork p).

Lemma accessVLAN_some iface vlan : accessVLAN iface = Some vlan -> config.ifVLANs iface = [vlan] /\ 1 <= vlan <= 4094.
Proof. unfold accessVLAN. destruct (config.ifVLANs iface) as [|v [|]]; try done.
  destruct (Z.ltb_spec v 1); [done|]. destruct (Z.ltb_spec 4094 v); [done|]. intros [= ->]. by split_and!. Qed.

Lemma compileAttachmentPoolPort_spec device name field c :
  deviceByName devices (config.dvName device) = Some device -> scNetworks c = networks ->
  wp (compileAttachmentPoolPort devices device name field) (fun r c' => Quiet c c' /\
    match r with
    | Some p => resolved p /\ atDevice p = config.dvName device /\ atInterface p = name
    | None => True
    end) c.
Proof.
  intros Hd Hnet. unfold compileAttachmentPoolPort. wp_walk; try (by split; auto).
  split; [done|]. split; [|done].
  match goal with H : accessVLAN _ = Some _ |- _ => apply accessVLAN_some in H as [Hv Hr] end.
  match goal with H : negb _ = false |- _ => apply negb_false_iff, bool_decide_eq_true in H as Ho end.
  eexists _, _. split_and!; simpl; try lia; try done. by rewrite <- Hnet.
Qed.

Definition portOf (p : AttachmentPort) : string * string := (atDevice p, atInterface p).

(** What a pool that is still [ok] has gathered from the ports [listed]. *)
Record Gathered (listed : list (string * string)) (pool : Pool) : Prop := mkGathered {
  gaPorts : portOf <$> plPorts pool = listed;
  gaResolved : Forall resolved (plPorts pool);
  gaSeen : forall p, p ∈ plPorts pool -> portKey (atDevice p) (atInterface p) ∈ plSeen pool;
  gaOnce : NoDup (portOf <$> plPorts pool)
}.

Lemma compileGroupPorts_spec device groupField j names pool listed c :
  deviceByName devices (config.dvName device) = Some device -> scNetworks c = networks ->
  (plOk pool = true -> Gathered listed pool) ->
  wp (compileGroupPorts devices device groupField j names pool) (fun pool' c' => Quiet c c' /\
    (plOk pool' = true -> plOk pool = true /\ Gathered (listed ++ (pair (config.dvName device) <$> names)) pool')) c.
Proof.
  intros Hd. revert j pool listed c. induction names as [|name names IH]; intros j pool listed c Hn Hg; simpl.
  { wp_walk. split; [done|]. rewrite app_nil_r. by auto. }
  wp_step. apply (wp_mono _ (fun pool' c' => Quiet c c' /\
    (plOk pool' = true -> plOk pool = true /\ Gathered (listed ++ [(config.dvName device, name)]) pool'))).
  - destruct (bool_decide _) eqn:Eseen; [by wp_walk|]. apply bool_decide_eq_false in Eseen.
    wp_step. eapply wp_mono; [by apply compileAttachmentPoolPort_spec|].
    intros [p|] c' [Hq Hp]; wp_walk; (split; [done|]); [|done]. simpl. intros Hok.
    destruct Hp as (Hp & Hpd & Hpn), (Hg Hok) as [Hports Hres Hsn Hnd].
    split; [done|]. constructor; simpl.
    + rewrite fmap_app, Hports. simpl. unfold portOf. by rewrite Hpd, Hpn.
    + by apply Forall_app_2, Forall_singleton.
    + intros q [Hq'| ->%list_elem_of_singleton]%elem_of_app; [apply Hsn in Hq'; set_solver|].
      rewrite Hpd, Hpn. set_solver.
    + rewrite fmap_app. apply NoDup_app. split_and!; [done| |apply NoDup_singleton].
      intros x (q & -> & Hq')%list_elem_of_fmap E%list_elem_of_singleton. apply Eseen.
      unfold portOf in E. injection E as E1 E2. rewrite <- Hpd, <- Hpn, <- E1, <- E2. by apply Hsn.
  - intros pool' c' [Hq Hg']. eapply wp_mono; [apply IH; [by rewrite (quiet_networks _ _ Hq)|by intros [_ ?]%Hg']|].
    intros pool'' c'' [Hq' Hg'']. split; [by eapply onlyFindings_trans|].
    intros Hok. destruct (Hg'' Hok) as [Hok' Hgg]. rewrite <- app_assoc in Hgg. by destruct (Hg' Hok').
Qed.

Definition listedPorts (groups : list config.AttachmentPort) : list (string * string) :=
  groups ≫= fun group => pair (config.apDevice group) <$> config.apPorts group.

Lemma deviceByName_name name device : deviceByName devices name = Some device -> config.dvName device = name.
Proof. by intros [_ H%bool_decide_eq_true]%find_some. Qed.

Lemma compileGroups_spec field k groups pool listed c :
  scNetworks c = networks -> (plOk pool = true -> Gathered listed pool) ->
  wp (compileGroups devices field k groups pool) (fun pool' c' => Quiet c c' /\
    (plOk pool' = true -> plOk pool = true /\ Gathered (listed ++ listedPorts groups) pool' /\
       Forall (fun group => config.apPorts group <> []) groups)) c.
Proof.
  revert k pool listed c. induction groups as [|group groups IH]; intros k pool listed c Hn Hg; simpl.
  { wp_walk. split; [done|]. rewrite app_nil_r. by auto. }
  wp_step. apply (wp_mono _ (fun pool' c' => Quiet c c' /\ (plOk pool' = true ->
    plOk pool = true /\ config.apPorts group <> [] /\ Gathered (listed ++ (pair (config.apDevice group) <$> config.apPorts group)) pool'))).
  - destruct (deviceByName devices (config.apDevice group)) as [device|] eqn:Ed; [|by wp_walk].
    case_bool_decide as Hp; [by wp_walk|]. apply deviceByName_name in Ed as Hname.
    eapply wp_mono; [apply compileGroupPorts_spec; [by rewrite Hname|done|done]|].
    intros pool' c'. rewrite Hname. intros [? Hg']. split; [done|]. by intros [? ?]%Hg'.
  - intros pool' c' [Hq Hg']. eapply wp_mono.
    { apply (IH _ _ (listed ++ (pair (config.apDevice group) <$> config.apPorts group))).
      - by rewrite (quiet_networks _ _ Hq).
      - by intros (_ & _ & ?)%Hg'. }
    intros pool'' c'' [Hq' Hall]. split; [by eapply onlyFindings_trans|]. intros Hok.
    destruct (Hall Hok) as (Hok' & Hg'' & Hne), (Hg' Hok') as (? & ? & _).
    unfold listedPorts at 1. simpl. rewrite app_assoc. split_and!; [done|done|]. by constructor.
Qed.

(** ** The network of a pool, and its pins *)

Lemma poolNetworks_fold ports found :
  NoDup found ->
  let found' := foldl (fun networks port =>
    if bool_decide (atNetwork port ∈ networks) then networks else networks ++ [atNetwork port]) found ports in
  NoDup found' /\ forall n, n ∈ found' <-> n ∈ found \/ n ∈ (atNetwork <$> ports).
Proof.
  revert found. induction ports as [|p ports IH]; intros found Hnd; simpl; [split; [done|]; set_solver|].
  case_bool_decide as Hin.
  - destruct (IH found Hnd) as [? Hall]. split; [done|]. intros n. rewrite Hall. set_solver.
  - destruct (IH (found ++ [atNetwork p])) as [? Hall].
    { apply NoDup_app. split_and!; [done| |apply NoDup_singleton]. by intros x Hx ->%list_elem_of_singleton. }
    split; [done|]. intros n. rewrite Hall. set_solver.
Qed.

(** A pool with ports never reads past the end of its list of networks. *)
Lemma resolvePoolNetwork_spec ports field c :
  ports <> [] ->
  wp (resolvePoolNetwork ports field) (fun r c' => Quiet c c' /\
    match r with
    | None => False
    | Some None => True
    | Some (Some n) => Forall (fun p => atNetwork p = n) ports
    end) c.
Proof.
  intros Hne. unfold resolvePoolNetwork, poolNetworks.
  destruct (poolNetworks_fold ports [] NoDup_nil_2) as [_ Hall]. cbv zeta in Hall.
  destruct (foldl _ [] ports) as [|n [|]]; wp_walk; (split; [done|]); [| |done].
  - destruct ports as [|p ports]; [done|]. destruct (Hall (atNetwork p)) as [_ Hp].
    destruct (proj1 (elem_of_nil (atNetwork p))). apply Hp. right. left.
  - apply Forall_forall. intros p Hp. apply list_elem_of_singleton. apply Hall. right. by apply list_elem_of_fmap_2.
Qed.

Definition pinOf (p : AttachmentPin) : string * string := (piDevice p, piInterface p).

(** Pins sit on ports of the pool, one to a port. *)
Definition pinned (ports : list AttachmentPort) (pins : list AttachmentPin) : Prop :=
  NoDup (pinOf <$> pins) /\ forall pin, pin ∈ pins -> pinOf pin ∈ (portOf <$> ports).

Lemma compilePinsFrom_spec ports field j sources keys pins c :
  pinned ports pins -> (forall pin, pin ∈ pins -> portKey (piDevice pin) (piInterface pin) ∈ keys) ->
  wp (compilePinsFrom ports field j sources keys pins) (fun pins' c' => Quiet c c' /\ pinned ports pins') c.
Proof.
  revert j keys pins c. induction sources as [|pin sources IH]; intros j keys pins c Hp Hk; simpl; [by wp_walk|].
  assert (forall code field', wp (add code field';; compilePinsFrom ports field (S j) sources keys pins)
    (fun pins' c' => Quiet c c' /\ pinned ports pins') c) as Hskip.
  { intros. wp_step. wp_step. eapply wp_mono; [by apply IH|]. intros pins' c' [? ?].
    split; [by eapply onlyFindings_trans|done]. }
  destruct (ParseMAC _) as [hardware|]; [|apply Hskip]. destruct (negb _) eqn:Ein; [apply Hskip|].
  destruct (bool_decide _) eqn:Ek; [apply Hskip|]. apply bool_decide_eq_false in Ek.
  apply negb_false_iff, existsb_exists in Ein as (p & Hpin%list_elem_of_In & [E1 E2]%andb_true_iff).
  apply bool_decide_eq_true in E1, E2. destruct Hp as [Hnd Hin]. apply IH; [split|].
  - rewrite fmap_app. apply NoDup_app. split_and!; [done| |apply NoDup_singleton].
    intros x (q & -> & Hq)%list_elem_of_fmap E%list_elem_of_singleton. apply Ek.
    unfold pinOf in E. simpl in E. injection E as E3 E4. rewrite <- E3, <- E4. by apply Hk.
  - intros q [?| ->%list_elem_of_singleton]%elem_of_app; [by apply Hin|].
    apply list_elem_of_fmap. exists p. unfold portOf, pinOf. simpl. by rewrite E1, E2.
  - intros q [Hq| ->%list_elem_of_singleton]%elem_of_app; [apply Hk in Hq; set_solver|]. simpl. set_solver.
Qed.

(** What a compiled attachment is. *)
Record Attached (attachments : list config.LogicalAttachment) (a : CompiledAttachment) : Prop := mkAttached {
  acAuthored : exists source, source ∈ attachments /\ config.laName source = caName a /\
                 config.laNetwork source = ""%string /\ portOf <$> caPorts a = listedPorts (config.laAt source);
  acPorts : caPorts a <> [];
  acOnce : NoDup (portOf <$> caPorts a);
  acResolved : Forall resolved (caPorts a);
  acNetwork : Forall (fun p => atNetwork p = caNetwork a) (caPorts a);
  acPins : pinned (caPorts a) (caPins a)
}.

Lemma compileAttachmentPool_spec attachments attachment field c :
  scNetworks c = networks -> attachment ∈ attachments -> config.laNetwork attachment = ""%string ->
  config.laAt attachment <> [] ->
  wp (compileAttachmentPool devices attachment field) (fun r c' => Quiet c c' /\
    match r with
    | None => False
    | Some None => True
    | Some (Some a) => Attached attachments a
    end) c.
Proof.
  intros Hn Hin Hnet Hat. unfold compileAttachmentPool. wp_step. eapply wp_mono.
  { apply (compileGroups_spec _ _ _ _ []); [done|]. constructor; simpl; try done; [|constructor].
    by intros ? ?%elem_of_nil. }
  intros pool c' [Hq Hg]. destruct (negb (plOk pool)) eqn:Eok; [by wp_walk|]. apply negb_false_iff in Eok.
  destruct (Hg Eok) as (_ & [Hports Hres _ Hnd] & Hne).
  assert (plPorts pool <> []) as Hpne.
  { intros E. rewrite E in Hports. simpl in Hports. destruct (config.laAt attachment) as [|g gs]; [done|].
    apply Forall_cons in Hne as [Hg0 _]. unfold listedPorts in Hports. simpl in Hports.
    by destruct (config.apPorts g). }
  wp_step. eapply wp_mono; [by apply resolvePoolNetwork_spec|].
  intros [[network|]|] c'' [Hq' Hr]; [|wp_walk; split; [by eapply onlyFindings_trans|done]|done].
  wp_step. unfold compileAttachmentPins. eapply wp_mono.
  { apply compilePinsFrom_spec; [|by intros ? ?%elem_of_nil]. split; [constructor|by intros ? ?%elem_of_nil]. }
  intros pins c3 [Hq3 Hpins]. wp_walk. split; [by do 2 (eapply onlyFindings_trans; [done|])|].
  constructor; simpl; try done. by exists attachment.
Qed.

Lemma compileAttachment_spec attachments i attachment c :
  Sound c -> scNetworks c = networks -> attachment ∈ attachments ->
  Forall (Attached attachments) (tyAttachments (scTopology c)) ->
  wp (compileAttachment devices i attachment) (fun ok c' => ok = true /\ Sound c' /\ scNetworks c' = networks /\
    Forall (Attached attachments) (tyAttachments (scTopology c'))) c.
Proof.
  intros Hs Hn Hin Hall. unfold compileAttachment, validateAttachmentForm.
  destruct (bool_decide (config.laNetwork attachment = ""%string)) eqn:En; cbv zeta; simpl; cycle 1.
  { destruct (bool_decide (config.laAt attachment = [])); simpl; wp_walk; split_and!; try done.
    by apply sound_reported. }
  apply bool_decide_eq_true in En. destruct (bool_decide (config.laAt attachment = [])) eqn:Ea.
  { wp_walk. split_and!; try done. by apply sound_reported. }
  apply bool_decide_eq_false in Ea. simpl. do 4 wp_step. eapply wp_mono; [by apply compileAttachmentPool_spec|].
  intros [[a|]|] c' [Hq Ha]; [| |done]; wp_walk.
  all: pose proof (quiet_sound _ _ Hq Hs) as Hs'; destruct Hq as [ds ->]; split_and!; try done.
  simpl. by apply Forall_app_2, Forall_singleton.
Qed.
End pools.
