(* ===== verification/FabricTheorems.v ===== *)
(** * The fabric compiler: what a compiled topology promises *)

From stdpp Require Import relations.
From S2P Require Import Prelude.
From S2P Require Import Netip.
From S2P Require Import Bytes.
From S2P Require Import NetipParse.
From S2P Require Import FabricTypes.
From S2P Require Import Fabric.
From S2P Require Import FabricDhcp.
From S2P Require Import FabricAttachment.
From S2P Require Import FabricFacts.
From S2P Require Import FabricInvariant.
From S2P Require Import FabricDomain.

(** ** Addresses of a prefix *)

Lemma bytes_of n :
  0 <= n < 2 ^ 32 ->
  exists b0 b1 b2 b3, big32 n = [b0; b1; b2; b3] /\ n = b0 * 2 ^ 24 + b1 * 2 ^ 16 + b2 * 2 ^ 8 + b3 /\
    isByte b0 /\ isByte b1 /\ isByte b2 /\ isByte b3.
Proof.
  intros Hn. do 4 eexists. split; [reflexivity|]. unfold isByte.
  pose proof (Z.div_mod n (2 ^ 8)). pose proof (Z.div_mod (n / 2 ^ 8) (2 ^ 8)).
  pose proof (Z.div_mod (n / 2 ^ 16) (2 ^ 8)).
  assert (n / 2 ^ 16 = n / 2 ^ 8 / 2 ^ 8) by (rewrite Z.div_div by lia; done).
  assert (n / 2 ^ 24 = n / 2 ^ 16 / 2 ^ 8) by (rewrite Z.div_div by lia; done).
  assert (n / 2 ^ 24 mod 2 ^ 8 = n / 2 ^ 24) by (apply Z.mod_small; split;
    [apply Z.div_pos; lia|apply Z.div_lt_upper_bound; lia]).
  pose proof (Z.mod_pos_bound n (2 ^ 8)). pose proof (Z.mod_pos_bound (n / 2 ^ 8) (2 ^ 8)).
  pose proof (Z.mod_pos_bound (n / 2 ^ 16) (2 ^ 8)). pose proof (Z.mod_pos_bound (n / 2 ^ 24) (2 ^ 8)). lia.
Qed.

(** Setting the bits under a multiple of a power of two adds them. *)
Lemma lor_low b rem t : isByte b -> 0 < rem < 8 -> b = t * 2 ^ (8 - rem) ->
  Z.lor b (Z.shiftr fullByteMask rem) = b + 2 ^ (8 - rem) - 1.
Proof.
  intros Hb Hr.
  assert (forallb (fun r => forallb (fun b => implb (Z.of_nat b mod 2 ^ (8 - Z.of_nat r) =? 0)
    (Z.lor (Z.of_nat b) (Z.shiftr fullByteMask (Z.of_nat r)) =? Z.of_nat b + 2 ^ (8 - Z.of_nat r) - 1))
    (seq 0 256)) (seq 1 7) = true) as H by (vm_compute; reflexivity).
  rewrite forallb_forall in H. specialize (H (Z.to_nat rem)). rewrite in_seq in H. specialize (H ltac:(lia)).
  rewrite forallb_forall in H. unfold isByte in Hb. specialize (H (Z.to_nat b)). rewrite in_seq in H.
  specialize (H ltac:(lia)). rewrite !Z2Nat.id in H by lia. intros E. rewrite E, Z_mod_mult in H.
  simpl implb in H. apply Z.eqb_eq in H. by rewrite E.
Qed.

Ltac compute_in_goal t := let v := eval vm_compute in t in change t with v.

Lemma AddrFromSlice_four a b c d :
  AddrFromSlice [a; b; c; d] = Addr4 (a * 2 ^ 24 + b * 2 ^ 16 + c * 2 ^ 8 + d).
Proof. unfold AddrFromSlice. rewrite bool_decide_eq_true_2 by done. cbn [foldl]. f_equal. lia. Qed.

(** Replaces the partly filled byte by its value. *)
Ltac fill_byte b0 b1 b2 b3 q :=
  try match goal with |- context [Z.lor ?b (Z.shiftr fullByteMask ?r)] =>
    let t := match constr:((b, tt)) with
      | (b0, _) => constr:(q) | (b1, _) => constr:(q - b0 * 2 ^ r)
      | (b2, _) => constr:(q - b0 * 2 ^ (8 + r) - b1 * 2 ^ r)
      | (b3, _) => constr:(q - b0 * 2 ^ (16 + r) - b1 * 2 ^ (8 + r) - b2 * 2 ^ r) end in
    rewrite (lor_low b r t) by (assumption || lia || (unfold isByte in *; simpl Z.sub; lia));
    compute_in_goal (2 ^ (8 - r)) end.

Lemma broadcast_value n bits q :
  0 <= n < 2 ^ 32 -> 0 <= bits <= 30 -> n = q * 2 ^ (32 - bits) ->
  broadcastAddress (mkPrefix (Addr4 n) bits) = Addr4 (n + 2 ^ (32 - bits) - 1).
Proof.
  intros Hn Hb Hq. destruct (bytes_of n Hn) as (b0 & b1 & b2 & b3 & E & Hs & H0 & H1 & H2 & H3).
  unfold broadcastAddress. cbn [addrValue pfxAddr pfxBits]. rewrite E. clear E.
  assert (In bits (map Z.of_nat (seq 0 31))) as Hin.
  { apply in_map_iff. exists (Z.to_nat bits). rewrite in_seq. lia. }
  vm_compute in Hin. repeat destruct Hin as [<-|Hin]; [..|done].
  all: match goal with |- context [?x mod 8] => compute_in_goal (x mod 8); compute_in_goal (Z.to_nat (x / 8)) end.
  all: cbn [negb Z.eqb alter list_alter take replicate length app Nat.sub].
  all: match type of Hq with _ = _ * ?p => let v := eval vm_compute in p in change p with v in Hq |- * end.
  all: fill_byte b0 b1 b2 b3 q.
  all: rewrite AddrFromSlice_four; f_equal; unfold fullByteMask, isByte in *; lia.
Qed.

(** ** Networks *)

Definition inNetwork (nw : Network) (a : Addr) : bool := Contains (ntPrefix nw) a || Contains (ntPrefixV6 nw) a.

Lemma contains_zero a : Contains PrefixZero a = false.
Proof. done. Qed.

Lemma contains_families p q a :
  Is4 (pfxAddr p) = true -> Is6 (pfxAddr q) = true -> Contains p a = true -> Contains q a = true -> False.
Proof.
  intros H4 H6 (_ & _ & E & _)%Contains_inv (_ & _ & E' & _)%Contains_inv.
  rewrite H4 in E. rewrite <- E in E'. by destruct (pfxAddr q).
Qed.

Lemma numbered_bits nw : numbered nw ->
  pfxBits (ntPrefix nw) <= BitLen (pfxAddr (ntPrefix nw)) /\ pfxBits (ntPrefixV6 nw) <= BitLen (pfxAddr (ntPrefixV6 nw)).
Proof.
  intros [[((_ & _ & [_ Hb]) & _) _] H6]. split; [done|].
  destruct H6 as [->|(((_ & _ & [_ ?]) & _) & _)]; [done|done].
Qed.

(** Networks set apart share no address, of either family. *)
Lemma apart_disjoint nw nw' a :
  numbered nw -> numbered nw' -> apart nw nw' -> inNetwork nw a = true -> inNetwork nw' a = true -> False.
Proof.
  intros Hn Hn' [H4 H6] Ha Ha'. destruct (numbered_bits _ Hn), (numbered_bits _ Hn').
  destruct Hn as [[_ E4] Hv6], Hn' as [[_ E4'] Hv6']. unfold inNetwork in *.
  apply orb_true_iff in Ha as [Ha|Ha], Ha' as [Ha'|Ha'].
  - by eapply Overlaps_disjoint.
  - destruct Hv6' as [E|(_ & E6 & _)]; [by rewrite E in Ha'|]. exact (contains_families _ _ a E4 E6 Ha Ha').
  - destruct Hv6 as [E|(_ & E6 & _)]; [by rewrite E in Ha|]. exact (contains_families _ _ a E4' E6 Ha' Ha).
  - destruct Hv6 as [E|(_ & _ & Ev)]; [by rewrite E in Ha|]. rewrite Ev in H6. simpl in H6.
    by eapply Overlaps_disjoint.
Qed.

Lemma pairwise_unique {A} (R : A -> A -> Prop) l x y :
  StronglySorted R l -> x ∈ l -> y ∈ l -> x = y \/ R x y \/ R y x.
Proof.
  induction 1 as [|z l _ IH Hz]; [by intros ?%elem_of_nil|]. rewrite Forall_forall in Hz.
  intros [->|Hx]%elem_of_cons [->|Hy]%elem_of_cons; auto.
Qed.

Lemma network_unique l nw nw' a :
  StronglySorted apart l -> Forall numbered l -> nw ∈ l -> nw' ∈ l ->
  inNetwork nw a = true -> inNetwork nw' a = true -> nw = nw'.
Proof.
  intros Hs Hn Hnw Hnw' Ha Ha'. rewrite Forall_forall in Hn.
  destruct (pairwise_unique _ _ _ _ Hs Hnw Hnw') as [|[H|H]]; [done|exfalso..].
  - eapply (apart_disjoint nw nw'); eauto.
  - eapply (apart_disjoint nw' nw); eauto.
Qed.

(** An interface's own prefix is its network's. *)
Lemma Masked_home p a :
  canonical p -> Contains p (pfxAddr a) = true -> pfxBits a = pfxBits p -> Masked a = p.
Proof.
  intros [Hok Hm] (Hb0 & HL & H4 & Hne & E)%Contains_inv Eb. rewrite Hm at 1. unfold Masked.
  destruct Hok as ([Hpne _] & _ & [_ Hb]). rewrite Eb. unfold addrPrefix.
  rewrite (bool_decide_eq_false_2 _ Hne), (bool_decide_eq_false_2 _ Hpne), HL.
  destruct (_ || _) eqn:Eg; [done|]. f_equal.
  destruct (pfxAddr p), (pfxAddr a); simpl in *; try done; by rewrite E.
Qed.

Lemma home_inside nw i a : home nw i -> a ∈ addressesOf i -> inNetwork nw a = true.
Proof.
  intros [_ Hin _ _ H6]. unfold addressesOf, inNetwork. intros [->|Ha]%elem_of_cons; [by rewrite Hin|].
  destruct H6 as [E|(_ & Hc & _)]; [rewrite E in Ha; by apply elem_of_nil in Ha|].
  destruct (PrefixIsValid _); [|by apply elem_of_nil in Ha]. apply list_elem_of_singleton in Ha as ->.
  rewrite Hc. apply orb_true_r.
Qed.

Lemma egress_inside nw i nextHop :
  numbered nw -> home nw i -> PrefixIsValid (egressOf i nextHop) = true ->
  Contains (Masked (egressOf i nextHop)) nextHop = true -> inNetwork nw nextHop = true.
Proof.
  intros [[Hc4 _] H6] [_ Hin Hlen _ Hv6] Hv Hc. unfold inNetwork, egressOf in *. destruct (Is6 nextHop).
  - destruct Hv6 as [E|(Hvn & Hin6 & Hlen6 & _)]; [by rewrite E in Hv|].
    destruct H6 as [E|(Hc6 & _)]; [by rewrite E in Hvn|].
    rewrite (Masked_home _ _ Hc6 Hin6 Hlen6) in Hc. rewrite Hc. apply orb_true_r.
  - rewrite (Masked_home _ _ Hc4 Hin Hlen) in Hc. by rewrite Hc.
Qed.

(** ** Pools *)

Lemma between_4 x y a : between a (Addr4 x) (Addr4 y) = true -> exists v, a = Addr4 v /\ x <= v <= y.
Proof.
  unfold between, addrGt, Compare. destruct a as [|v|v z]; simpl; try done.
  rewrite andb_true_iff, !negb_true_iff. intros [H1 H2]. exists v. split; [done|].
  destruct (Z.compare_spec x v), (Z.compare_spec v y); try done; lia.
Qed.

(** Every address of a pool is a usable address of its network. *)
Lemma pool_usable nw s a :
  numbered nw -> poolIn nw s -> between a (dsStart s) (dsEnd s) = true -> usableIn nw a = true.
Proof.
  intros [[[((Hne & Hr) & _ & Hb) Hm] H4] _] (_ & Hs & He & _ & Hrs & Hre & _) Hbt.
  destruct (ntPrefix nw) as [pa bits] eqn:Ep. cbn [pfxAddr pfxBits] in *.
  destruct pa as [|n|]; try done. simpl in Hr, Hb.
  assert (exists q, n = q * 2 ^ (32 - bits)) as [q Hq].
  { unfold Masked, addrPrefix in Hm. cbn [pfxAddr pfxBits] in Hm. destruct (_ || _); [done|].
    injection Hm as Hm _. exists (Z.shiftr n (32 - bits)). rewrite <- Z.shiftl_mul_pow2 by lia. done. }
  assert (forall x, Contains (mkPrefix (Addr4 n) bits) (Addr4 x) = true <-> n <= x < n + 2 ^ (32 - bits)) as Hin.
  { intros x. unfold Contains, PrefixIsValid. cbn [pfxAddr pfxBits]. rewrite (proj2 (Z.leb_le 0 bits)) by lia.
    rewrite andb_true_l, Z.eqb_eq, Z.shiftr_lxor, Z.lxor_eq_0_iff, !Z.shiftr_div_pow2 by lia.
    pose proof (Z.pow_pos_nonneg 2 (32 - bits)). rewrite Hq, Z.div_mul by lia. split.
    - intros E. pose proof (Z.div_mod x (2 ^ (32 - bits))). pose proof (Z.mod_pos_bound x (2 ^ (32 - bits))). nia.
    - intros Hx. apply (Z.div_unique _ _ _ (x - q * 2 ^ (32 - bits))); lia. }
  apply Contains_inv in Hs as Hs'. apply Contains_inv in He as He'. cbn [pfxAddr BitLen] in Hs', He'.
  destruct (dsStart s) as [|x|], (dsEnd s) as [|y|]; try (by destruct Hs' as (_ & ? & _)); try (by destruct He' as (_ & ? & _)).
  clear Hs' He'. apply Hin in Hs, He. apply between_4 in Hbt as (v & -> & Hv).
  unfold usableIn. rewrite Ep. rewrite (proj2 (Hin v)) by lia. simpl.
  unfold isReservedEndpoint in *. cbn [pfxBits pfxAddr] in *. destruct (Z.ltb_spec maxUsableEndpointPrefixLen bits); [done|].
  unfold maxUsableEndpointPrefixLen in *. rewrite (broadcast_value n bits q) in * by (done || lia).
  apply orb_false_iff in Hrs as [R1%bool_decide_eq_false R2%bool_decide_eq_false],
    Hre as [R3%bool_decide_eq_false R4%bool_decide_eq_false].
  apply negb_true_iff, orb_false_iff. split; apply bool_decide_eq_false; intros [= ->].
  - apply R1. f_equal. lia.
  - apply R4. f_equal. lia.
Qed.

Lemma contains_4 p a : Is4 (pfxAddr p) = true -> Contains p a = true -> exists v, a = Addr4 v.
Proof. intros H4 (_ & _ & E & _)%Contains_inv. rewrite H4 in E. destruct a; try done. by eexists. Qed.

(** Pools with a common address on one network overlap. *)
Lemma pools_overlap nw nw' s s' a :
  numbered nw -> numbered nw' -> poolIn nw s -> poolIn nw' s' -> dsNetwork s = dsNetwork s' ->
  between a (dsStart s) (dsEnd s) = true -> between a (dsStart s') (dsEnd s') = true ->
  poolsOverlap (dsNetwork s') (dsStart s') (dsEnd s') s = true.
Proof.
  intros [[_ H4] _] [[_ H4'] _] (_ & Hs & He & _) (_ & Hs' & He' & _) En Hb Hb'.
  destruct (contains_4 _ _ H4 Hs) as [x Ex], (contains_4 _ _ H4 He) as [y Ey],
    (contains_4 _ _ H4' Hs') as [x' Ex'], (contains_4 _ _ H4' He') as [y' Ey'].
  rewrite Ex, Ey in Hb. rewrite Ex', Ey' in Hb'.
  apply between_4 in Hb as (v & -> & Hv), Hb' as (w & [= <-] & Hw).
  unfold poolsOverlap. rewrite Ex, Ey, Ex', Ey', bool_decide_eq_true_2 by done. unfold addrGt, Compare. simpl.
  destruct (Z.compare_spec x' y), (Z.compare_spec x y'); try done; lia.
Qed.

Lemma sorted_lookup {A} (R : A -> A -> Prop) l i j x y :
  StronglySorted R l -> l !! i = Some x -> l !! j = Some y -> (i < j)%nat -> R x y.
Proof.
  intros Hs. revert i j. induction Hs as [|z l _ IH Hz]; intros i j; [done|]. destruct i as [|i], j as [|j]; simpl; try lia.
  - intros [= ->] Hj _. rewrite Forall_forall in Hz. apply Hz. by eapply list_elem_of_lookup_2.
  - intros Hi Hj ?. eapply IH; [done|done|lia].
Qed.

(** ** The topology of a compiled scenario *)

(** Before any device is compiled. *)
Definition Blank (c : scenarioCompiler) : Prop :=
  ifaces c = [] /\ scAddresses c = ∅ /\ routes c = [] /\ scRelays c = [] /\ scopes c = [] /\ scLeaseAddresses c = ∅ /\
  scDevices c = ∅ /\ tyAttachments (scTopology c) = [].

Lemma blank_wiring c : Grounded c -> Blank c -> Wiring c.
Proof.
  intros Hg (Ei & Eo & Er & Erl & Es & El & _). split; [|done]. split; [done|].
  rewrite Ei, Eo, Er, Erl, Es, El. split.
  { constructor; simpl; [by intros ? ?%elem_of_nil| |constructor|constructor].
    intros a d. rewrite lookup_empty. split; [done|]. by intros (i & ?%elem_of_nil & _). }
  split; [by intros ? ?%elem_of_nil|]. split; [by intros ? ?%elem_of_nil|apply pooled_nil].
Qed.

Lemma compileNetwork_blank i source c : Blank c -> wp (compileNetwork i source) (fun _ => Blank) c.
Proof. intros Hb. unfold compileNetwork, compileSubnetV6, checkOverlap. wp_walk; exact Hb. Qed.

Lemma compileNetwork_cfg i source c : wp (compileNetwork i source) (fun _ c' => scCfg c' = scCfg c) c.
Proof. unfold compileNetwork, compileSubnetV6, checkOverlap. by wp_walk. Qed.

Lemma compileNetworks_blank cfg c :
  scCfg c = Some cfg -> Grounded c -> Blank c ->
  wp compileNetworks (fun _ c' => Grounded c' /\ Blank c' /\ scCfg c' = Some cfg) c.
Proof.
  intros Ecfg Hg Hb. unfold compileNetworks. do 2 wp_step. rewrite Ecfg. wp_step.
  apply (wp_mono _ (fun _ c' => Grounded c' /\ Blank c' /\ scCfg c' = Some cfg)).
  - apply wp_forRange; [done|]. intros i source c' _ (Hg' & Hb' & Ecfg').
    pose proof (compileNetwork_grounded i source c' Hg') as H1. pose proof (compileNetwork_blank i source c' Hb') as H2.
    pose proof (compileNetwork_cfg i source c') as H3. unfold wp in *. rewrite Ecfg' in H3. done.
  - intros [] c' (Hg' & Hb' & Ecfg'). unfold validateAttachmentNetwork. wp_walk; split_and!; try done.
    by apply grounded_reported.
Qed.

Lemma compileAttachmentsFrom_spec devices networks attachments i all c :
  Sound c -> scNetworks c = networks -> (forall a, a ∈ attachments -> a ∈ all) ->
  Forall (Attached devices networks all) (tyAttachments (scTopology c)) ->
  wp (compileAttachmentsFrom devices i attachments) (fun ok c' => ok = true /\ Sound c' /\ scNetworks c' = networks /\
    Forall (Attached devices networks all) (tyAttachments (scTopology c'))) c.
Proof.
  revert i c. induction attachments as [|a attachments IH]; intros i c Hs Hn Hin Hall; simpl; [by wp_walk|].
  wp_step. eapply wp_mono; [apply compileAttachment_spec; try done; apply Hin; left|].
  intros ok c' (-> & Hs' & Hn' & Hall'). simpl. apply IH; try done. intros b Hb. apply Hin. by right.
Qed.

Definition Started (cfg : option config.Config) (c : scenarioCompiler) : Prop :=
  Grounded c /\ Blank c /\ scCfg c = cfg.

Lemma sound_listed c : Sound c -> Listed (scNetworks c) (nets c).
Proof. by intros [[? _] _]. Qed.

Lemma listed_names table l n : Listed table l -> is_Some (table !! n) <-> n ∈ (ntName <$> l).
Proof.
  intros [Ht Hl _ _]. rewrite list_elem_of_fmap. split.
  - intros [nw [<- Hin]%Ht]. by exists nw.
  - intros (nw & -> & Hin). exists nw. by apply Hl.
Qed.

(** Devices and attachments always compile to an end, on the networks there are. *)
Lemma compileRest_sound cfg c :
  Started (Some cfg) c ->
  wp (compileDevices;; compileAttachments) (fun ok c' => ok = true /\ Sound c' /\
    (forall n, n ∈ (ntName <$> nets c') <-> n ∈ (ntName <$> nets c)) /\
    Forall (Attached (config.cfDevices cfg) (scNetworks c') (config.cfAttachments cfg)) (tyAttachments (scTopology c'))) c.
Proof.
  intros (Hg & Hb & E). pose proof (blank_wiring _ Hg Hb) as Hw. pose proof Hb as (Ei & _).
  wp_step. eapply wp_mono.
  { apply compileDevices_sound; [done|]. intros i Hi. rewrite Ei in Hi. by apply elem_of_nil in Hi. }
  intros [] c2 (Hs2 & E2 & Hp2). unfold compileAttachments. do 2 wp_step. rewrite E2, E. eapply wp_mono.
  { apply (compileAttachmentsFrom_spec (config.cfDevices cfg) (scNetworks c2) _ _ (config.cfAttachments cfg)); try done.
    injection Hp2 as -> _. destruct Hb as (_ & _ & _ & _ & _ & _ & _ & ->). constructor. }
  intros ok c3 (-> & Hs3 & Hn3 & Hall). split_and!; [done|done| |by rewrite Hn3].
  intros n. rewrite <- !listed_names by (by apply sound_listed). rewrite Hn3, (listed_names _ _ n (sound_listed _ Hs2)).
  by injection Hp2 as _ ->.
Qed.

Lemma wp_assoc {A B C} (m : Compiling A) (k : Compiling B) (h : B -> Compiling C) (Q : C -> scenarioCompiler -> Prop) c :
  wp ((m;; k) ≫= h) Q c -> wp (m;; (k ≫= h)) Q c.
Proof. unfold wp, mbind, Compiling_bind. by destruct (m c). Qed.

(** What is left once the attachments are compiled. *)
Definition finishScenario : Compiling (option Report) :=
  bindPoolNetwork;;
  modify (fun c => c <| scReport := (scReport c) <| reSafe := bool_decide (reDiagnostics (scReport c) = []) |> |>);;
  report ← gets scReport;
  mret (Some report).

Definition reports (c : scenarioCompiler) (r : option Report) : Prop :=
  exists report, r = Some report /\ reSafe report = bool_decide (findings c = []) /\
    reDiagnostics report = findings c /\ unbound (reTopology report) = unbound (scTopology c).

Lemma finishScenario_reports c : wp finishScenario (fun r _ => reports c r) c.
Proof.
  unfold finishScenario. wp_step. apply (wp_mono _ (fun _ c' => findings c' = findings c /\
    unbound (scTopology c') = unbound (scTopology c))).
  - unfold bindPoolNetwork. by wp_walk.
  - intros [] c' [Ef Et]. wp_walk. eexists. split; [reflexivity|]. simpl. fold (findings c'). by rewrite Ef.
Qed.

(** What every compilation of a scenario ends with. *)
Definition Compiled (cfg : config.Config) (r : option Report) : Prop :=
  exists c, reports c r /\ Sound c /\
    Forall (Attached (config.cfDevices cfg) (scNetworks c) (config.cfAttachments cfg)) (tyAttachments (scTopology c)).

Lemma compileScenario_compiled cfg c : Started (Some cfg) c -> wp compileScenario (fun r _ => Compiled cfg r) c.
Proof.
  intros (Hg & Hb & Ecfg). unfold compileScenario. wp_step. eapply wp_mono; [by apply compileNetworks_blank|].
  intros [] c1 Hst. apply wp_assoc, wp_bind. eapply wp_mono; [by apply compileRest_sound|].
  intros ok c3 (-> & Hs3 & _ & Hall). eapply wp_mono; [apply finishScenario_reports|].
  intros r ? Hr. by exists c3.
Qed.

Lemma new_grounded cfg binding : Grounded (newScenarioCompiler cfg binding).
Proof.
  split; [|constructor]. constructor; simpl; [|by intros ? ?%elem_of_nil|constructor|by intros ? ?%elem_of_nil].
  intros n nw H. by rewrite lookup_empty in H.
Qed.

Lemma started_reported cfg c code field : Started cfg c -> Started cfg (reported c code field).
Proof. intros (? & ? & ?). split; [by apply grounded_reported|done]. Qed.

Lemma started_new cfg b : Started cfg (newScenarioCompiler cfg b).
Proof. split; [apply new_grounded|done]. Qed.

Lemma compileBinding_start cfg c : Started cfg c -> wp compileBinding (fun _ => Started cfg) c.
Proof.
  intros Hst. unfold compileBinding. wp_step. apply (wp_mono _ (fun _ => Started cfg)).
  { unfold validateBindingMode. wp_walk; auto using started_reported. }
  intros [] c' H. wp_walk; auto using started_reported.
Qed.

(** Compiling always returns, whatever the scenario and the binding. *)
Lemma compile_compiled cfg b : Compiled cfg (Compile (Some cfg) b).
Proof.
  unfold Compile.
  change (wp (compileBinding;; compileScenario) (fun r _ => Compiled cfg r) (newScenarioCompiler (Some cfg) b)).
  wp_step. eapply wp_mono; [apply compileBinding_start, started_new|]. intros [] c Hst.
  by apply compileScenario_compiled.
Qed.

(** ** What a safe report promises *)

(** The reference laboratory of the compiler's tests. *)
Definition labInterface (name network address : string) : config.Interface :=
  config.mkInterface name network address "" "" [].

Definition labRouter : config.Device :=
  config.mkDevice "LAB-EDGE-R1" "router"
    [labInterface "outside" "lab-access" "10.10.200.1/24"; labInterface "evt" "evt-data" "10.20.210.1/24"]
    [config.mkRoute "10.20.0.0/16" "evt" "10.20.210.2"] None [] [].

Definition labPool : config.DHCPConfig :=
  config.mkDHCPConfig [10; 10; 200; 1] [] [] [] [10; 10; 200; 200] [10; 10; 200; 220]
    [config.mkDHCPLease [10; 10; 200; 50] [2; 0; 0; 0; 0; 9] []] [].

Definition labServer : config.Device :=
  config.mkDevice "LAB-DHCP01" "server" [labInterface "eth0" "lab-access" "10.10.200.2/24"] [] (Some labPool) [] [].

Definition labPeer : config.Device :=
  config.mkDevice "EVT-EDGE-R1" "router" [labInterface "cos" "evt-data" "10.20.210.2/24"] [] None [] [].

Definition labConfig (connect : string) : config.Config :=
  config.mkConfig [labRouter; labServer; labPeer]
    [config.mkNetwork "lab-access" "10.10.200.0/24" "2001:db8:200::/64" 200;
     config.mkNetwork "evt-data" "10.20.210.0/24" "" 210]
    [config.mkLogicalAttachment "tester" connect [] []].

Definition labBinding : Binding := mkBinding "tester" "eth0" ModeAccess 200 true.

Example lab_compiles :
  (fun r => (reSafe r, length (tyNetworks (reTopology r)), length (tyRoutes (reTopology r)),
             length (tyDHCPScopes (reTopology r)))) <$> Compile (Some (labConfig "lab-access")) labBinding
  = Some (true, 2, 4, 1)%nat.
Proof. vm_compute. reflexivity. Qed.

(** The scenario's own defects reach both compilers; an attachment that names
    an unknown network reaches one. *)
Example lab_dangling :
  (reDiagnostics <$> CompileConfig (Some (labConfig "nosuch")), reDiagnostics <$> Compile (Some (labConfig "nosuch")) labBinding)
  = (Some [], Some [mkDiagnostic CodeUnknownNetwork "attachment"]).
Proof. vm_compute. reflexivity. Qed.

Lemma listed_numbered table l : Listed table l -> Forall numbered l.
Proof. intros H. apply Forall_forall, (ldNumbered _ _ H). Qed.

(** A safe report's state, read back from its topology. *)
Lemma safe_state cfg b r :
  Compile (Some cfg) b = Some r -> reSafe r = true ->
  exists c, Sound c /\ StronglySorted apart (nets c) /\ Forall numbered (nets c) /\
    tyNetworks (reTopology r) = nets c /\ tyInterfaces (reTopology r) = ifaces c /\
    tyRoutes (reTopology r) = routes c /\ tyDHCPScopes (reTopology r) = scopes c.
Proof.
  intros Er Hsafe. destruct (compile_compiled cfg b) as (c & (report & E & Hsafe' & _ & Ht) & Hs & _).
  rewrite Er in E. injection E as <-. rewrite Hsafe in Hsafe'. symmetry in Hsafe'. apply bool_decide_eq_true in Hsafe'.
  exists c. split; [done|]. destruct Hs as ([Hl Hap] & _). split; [by apply Hap|]. split; [by eapply listed_numbered|].
  split_and!; [exact (f_equal tyNetworks Ht)|exact (f_equal tyInterfaces Ht)|exact (f_equal tyRoutes Ht)|
    exact (f_equal tyDHCPScopes Ht)].
Qed.

(** C19. What a safe topology promises of its addresses: networks have names of
    their own and share no address, every interface is numbered from a network
    at one of its usable addresses, and no two interfaces share a name on one
    device or an address anywhere. *)
Theorem compiled_addresses cfg b r (Hr : Compile (Some cfg) b = Some r) (Hsafe : reSafe r = true) :
  let t := reTopology r in
  NoDup (ntName <$> tyNetworks t) /\
  (forall nw nw' a, nw ∈ tyNetworks t -> nw' ∈ tyNetworks t -> inNetwork nw a = true -> inNetwork nw' a = true -> nw = nw') /\
  (forall i, i ∈ tyInterfaces t -> exists nw, nw ∈ tyNetworks t /\ home nw i) /\
  NoDup ((fun i => (itDevice i, itName i)) <$> tyInterfaces t) /\
  NoDup (tyInterfaces t ≫= addressesOf).
Proof.
  cbv zeta. destruct (safe_state _ _ _ Hr Hsafe) as (c & ([Hl _] & Hw & _) & Hap & Hnum & -> & -> & _).
  split_and!; [apply Hl| |apply Hw|apply Hw|apply Hw].
  intros nw nw' a. by apply network_unique.
Qed.

(** C20. Every route of a safe topology leaves by an interface of its device: a
    connected one leads to the network this interface is on, and an authored
    one to an address on this network that another device holds. *)
Theorem compiled_routes cfg b r (Hr : Compile (Some cfg) b = Some r) (Hsafe : reSafe r = true) :
  let t := reTopology r in
  forall route, route ∈ tyRoutes t ->
  exists i, i ∈ tyInterfaces t /\ itDevice i = roDevice route /\ itName i = roVia route /\
    if roConnected route then
      exists nw, nw ∈ tyNetworks t /\ ntName nw = itNetwork i /\ roDestination route = ntPrefix nw
    else exists j, j ∈ tyInterfaces t /\ itDevice j <> itDevice i /\ itNetwork j = itNetwork i /\
           roNextHop route ∈ addressesOf j.
Proof.
  cbv zeta. destruct (safe_state _ _ _ Hr Hsafe) as (c & (_ & Hw & Hroutes & _) & Hap & Hnum & -> & -> & -> & _).
  intros route Hin. destruct (Hroutes route Hin) as (i & Hi & Hd & Hv & H). exists i. split_and!; try done.
  destruct (roConnected route); [done|]. destruct H as (Hev & Hec & _ & j & Hj & Hjd & Ha).
  destruct (wrHome _ _ _ Hw i Hi) as (nw & Hnw & Hhome), (wrHome _ _ _ Hw j Hj) as (nw' & Hnw' & Hhome').
  exists j. split_and!; try done; [congruence|].
  assert (nw = nw') as <-.
  { apply (network_unique (nets c) _ _ (roNextHop route)); try done.
    - rewrite Forall_forall in Hnum. by apply (egress_inside nw i); [apply Hnum|..].
    - by eapply home_inside. }
  by rewrite <- (hmName _ _ Hhome), <- (hmName _ _ Hhome').
Qed.

(** Every pool of a safe topology serves one network, through a device on it
    or a relay there; all its addresses, the router and the pool's inside, are
    usable addresses of this network and none belongs to an interface, and no
    address is in two pools. *)
Theorem compiled_pools cfg b r (Hr : Compile (Some cfg) b = Some r) (Hsafe : reSafe r = true) :
  let t := reTopology r in
  (forall s, s ∈ tyDHCPScopes t -> servedBy (tyInterfaces t) s /\
     exists nw, nw ∈ tyNetworks t /\ ntName nw = dsNetwork s /\ usableIn nw (dsRouter s) = true /\
       forall a, between a (dsStart s) (dsEnd s) = true ->
         usableIn nw a = true /\ a ∉ (tyInterfaces t ≫= addressesOf)) /\
  (forall k k' s s' a, tyDHCPScopes t !! k = Some s -> tyDHCPScopes t !! k' = Some s' ->
     between a (dsStart s) (dsEnd s) = true -> between a (dsStart s') (dsEnd s') = true -> k = k').
Proof.
  cbv zeta. destruct (safe_state _ _ _ Hr Hsafe) as (c & (_ & Hw & _ & _ & [Hin Hserved Hown Hapart _]) & Hap & Hnum & -> & -> & _ & ->).
  rewrite Forall_forall in Hnum. split.
  - intros s Hs. split; [by apply Hserved|]. destruct (Hin s Hs) as (nw & Hnw & Hp). exists nw.
    pose proof Hp as (Hname & _ & _ & _ & _ & _ & Hrouter). split_and!; try done.
    intros a Ha. split; [eapply pool_usable; [by apply Hnum|done|done]|].
    intros (i & Hai & Hi)%list_elem_of_bind.
    assert (scAddresses c !! a = Some (itDevice i)) as Hl by (apply (wrOwner _ _ _ Hw); eauto).
    rewrite (Hown s a Hs) in Ha; [done|by eexists].
  - assert (forall k k' s s' a, scopes c !! k = Some s -> scopes c !! k' = Some s' -> (k < k')%nat ->
      between a (dsStart s) (dsEnd s) = true -> between a (dsStart s') (dsEnd s') = true -> False) as Hlt.
    { intros k k' s s' a Hk Hk' Hlt Ha Ha'. pose proof (sorted_lookup _ _ _ _ _ _ Hapart Hk Hk' Hlt) as Ho.
      apply list_elem_of_lookup_2 in Hk, Hk'.
      destruct (Hin s Hk) as (nw & Hnw & Hp), (Hin s' Hk') as (nw' & Hnw' & Hp').
      assert (nw = nw') as <-.
      { apply (network_unique (nets c) _ _ a); [done|by apply Forall_forall|done|done|..]; unfold inNetwork.
        - pose proof (pool_usable _ _ _ (Hnum nw Hnw) Hp Ha) as Hu. apply andb_true_iff in Hu as [-> _]. done.
        - pose proof (pool_usable _ _ _ (Hnum nw' Hnw') Hp' Ha') as Hu. apply andb_true_iff in Hu as [-> _]. done. }
      cbv beta in Ho. rewrite (pools_overlap nw nw s s' a) in Ho; try done; try (by apply Hnum).
      destruct Hp as [<- _], Hp' as [<- _]. done. }
    intros k k' s s' a Hk Hk' Ha Ha'. destruct (lt_eq_lt_dec k k') as [[?|?]|?]; [|done|]; exfalso; eauto.
Qed.

Definition labReport : Report := default NewReport (Compile (Some (labConfig "lab-access")) labBinding).

Lemma lab_report : Compile (Some (labConfig "lab-access")) labBinding = Some labReport /\ reSafe labReport = true.
Proof. split; vm_compute; reflexivity. Qed.

Lemma compiled_addresses_witness :
  length (tyInterfaces (reTopology labReport)) = 4%nat /\ NoDup (tyInterfaces (reTopology labReport) ≫= addressesOf).
Proof.
  split; [vm_compute; reflexivity|].
  destruct lab_report as [Hr Hs]. by apply (compiled_addresses _ _ _ Hr Hs).
Defined.

Lemma compiled_routes_witness :
  exists route, route ∈ tyRoutes (reTopology labReport) /\ roConnected route = false /\
    exists i, i ∈ tyInterfaces (reTopology labReport) /\ itDevice i = roDevice route.
Proof.
  set (route := mkRoute "LAB-EDGE-R1" (mkPrefix (AddrFrom4 10 20 0 0) 16) "evt" (AddrFrom4 10 20 210 2) false).
  exists route.
  assert (route ∈ tyRoutes (reTopology labReport)) as Hin
    by (apply (list_elem_of_lookup_2 _ 3%nat); vm_compute; reflexivity).
  split; [done|]. split; [done|]. destruct lab_report as [Hr Hs].
  destruct (compiled_routes _ _ _ Hr Hs route Hin) as (i & Hi & Hd & _). exists i. exact (conj Hi Hd).
Defined.

Lemma compiled_pools_witness :
  exists s, s ∈ tyDHCPScopes (reTopology labReport) /\ servedBy (tyInterfaces (reTopology labReport)) s.
Proof.
  set (s := mkDHCPScope "LAB-DHCP01" "lab-access" (AddrFrom4 10 10 200 200) (AddrFrom4 10 10 200 220)
    (AddrFrom4 10 10 200 1) noRelay).
  exists s.
  assert (s ∈ tyDHCPScopes (reTopology labReport)) as Hin
    by (apply (list_elem_of_lookup_2 _ 0%nat); vm_compute; reflexivity).
  split; [done|]. destruct lab_report as [Hr Hs], (compiled_pools _ _ _ Hr Hs) as [H _]. exact (proj1 (H s Hin)).
Defined.

(** ** The two compilers *)

(** The attachment the binding names. *)
Definition boundNetwork (cfg : config.Config) (b : Binding) : string :=
  match List.find (fun a => bool_decide (config.laName a = bnAttachment b)) (config.cfAttachments cfg) with
  | Some a => config.laNetwork a
  | None => ""
  end.

(** The finding [CompileConfig] misses: the bound attachment connects to a
    network the scenario does not have. *)
Definition dangling (cfg : config.Config) (b : Binding) (networks : list Network) : list Diagnostic :=
  if bool_decide (boundNetwork cfg b = ""%string) || bool_decide (boundNetwork cfg b ∈ (ntName <$> networks)) then []
  else [mkDiagnostic CodeUnknownNetwork "attachment"].

Definition deploymentScoped (d : Diagnostic) : Prop := IsBinding (dgCode d) = true.

Definition deploymentOf (c : scenarioCompiler) : Deployment :=
  mkDeployment (scBinding c) (tyBinding (scTopology c)) (findings c).

Lemma alike_deployments c c' :
  scCfg c = scCfg c' -> scNetworks c = scNetworks c' -> scDevices c = scDevices c' -> scAddresses c = scAddresses c' ->
  scLeaseAddresses c = scLeaseAddresses c' -> scLeaseMACs c = scLeaseMACs c' -> scRelays c = scRelays c' ->
  unbound (scTopology c) = unbound (scTopology c') -> alike (deploymentOf c) (deploymentOf c') c c'.
Proof. intros. constructor; try done. exists []. by rewrite !app_nil_r. Qed.

(** Two compilers in step, wherever they started from. *)
Definition inStep (c c' : scenarioCompiler) : Prop := alike (deploymentOf c) (deploymentOf c') c c'.

Lemma alike_inStep X Y c c' : alike X Y c c' -> inStep c c'.
Proof. intros [? ? ? ? ? ? ? ? ? ? ?]. by apply alike_deployments. Qed.

Lemma inStep_reported c c' code field : inStep c c' -> inStep (reported c code field) c'.
Proof. intros [? ? ? ? ? ? ? ? ? ? ?]. by apply alike_deployments. Qed.

(** Framed steps taken by both add the same findings, all about the scenario. *)
Lemma inStep_framed {A} (m : Compiling A) c c' :
  Framed m -> inStep c c' ->
  (m c).1 = (m c').1 /\ inStep (m c).2 (m c').2 /\
  scBinding (m c).2 = scBinding c /\ scBinding (m c').2 = scBinding c' /\
  tyBinding (scTopology (m c).2) = tyBinding (scTopology c) /\ tyBinding (scTopology (m c').2) = tyBinding (scTopology c') /\
  exists t, findings (m c).2 = findings c ++ t /\ findings (m c').2 = findings c' ++ t /\ Forall configScoped t.
Proof.
  intros Hm Ha. destruct (Hm _ _ _ _ Ha) as [E H]. split; [done|]. split; [by eapply alike_inStep|].
  destruct H as [? ? ? ? ? ? ? ? [? ?] [? ?] Ht]. by split_and!.
Qed.

Lemma compileBinding_inStep cfg b :
  let c := (compileBinding (newScenarioCompiler (Some cfg) b)).2 in
  Forall deploymentScoped (findings c) /\ inStep c (newScenarioCompiler (Some cfg) noBinding) /\
  cbNetwork (tyBinding (scTopology c)) = boundNetwork cfg b.
Proof.
  set (P := fun c => Forall deploymentScoped (findings c) /\ inStep c (newScenarioCompiler (Some cfg) noBinding) /\
    scBinding c = b).
  assert (forall c code field, IsBinding code = true -> P c -> P (reported c code field)) as Hrep.
  { intros c code field Hcode (Hf & Ha & Hb).
    split_and!; [by apply Forall_app_2, Forall_singleton|by apply inStep_reported|done]. }
  assert (P (newScenarioCompiler (Some cfg) b) /\ cbNetwork (tyBinding (scTopology (newScenarioCompiler (Some cfg) b))) = ""%string)
    as H0 by (split; [split_and!; [constructor|by apply alike_deployments|done]|done]).
  change (wp compileBinding (fun _ c => Forall deploymentScoped (findings c) /\
    inStep c (newScenarioCompiler (Some cfg) noBinding) /\
    cbNetwork (tyBinding (scTopology c)) = boundNetwork cfg b) (newScenarioCompiler (Some cfg) b)).
  unfold compileBinding. wp_step.
  apply (wp_mono _ (fun _ c => P c /\ cbNetwork (tyBinding (scTopology c)) = ""%string)).
  { unfold validateBindingMode. wp_walk; (split; [repeat (apply Hrep; [reflexivity|]); apply H0|apply H0]). }
  intros [] c [(Hf & Ha & Hb) Hnet]. do 2 wp_step. rewrite (alCfg _ _ _ _ Ha). simpl. do 2 wp_step. rewrite Hb.
  unfold boundNetwork. destruct (List.find _ _) as [a|] eqn:Ef; wp_walk.
  - split_and!; try done. destruct Ha as [? ? ? ? ? ? ? ? ? ? ?]. by apply alike_deployments.
  - destruct (Hrep c CodeUnknownAttachment "attachment" eq_refl) as (? & ? & _); [done|]. by split_and!.
Qed.

Lemma dangling_named cfg b l l' :
  (forall n, n ∈ (ntName <$> l) <-> n ∈ (ntName <$> l')) -> dangling cfg b l = dangling cfg b l'.
Proof. intros H. unfold dangling. by rewrite (bool_decide_ext _ _ (H _)). Qed.

Lemma validateAttachmentNetwork_bound cfg b c :
  Listed (scNetworks c) (nets c) -> cbNetwork (tyBinding (scTopology c)) = boundNetwork cfg b ->
  wp validateAttachmentNetwork (fun _ c' => findings c' = findings c ++ dangling cfg b (nets c) /\ Quiet c c') c.
Proof.
  intros Hl Hb. unfold validateAttachmentNetwork. do 4 wp_step. cbv zeta. rewrite Hb. unfold dangling.
  rewrite <- (bool_decide_ext _ _ (listed_names _ _ (boundNetwork cfg b) Hl)).
  destruct (bool_decide (boundNetwork cfg b = _)); [wp_step; rewrite app_nil_r; split; [done|apply onlyFindings_refl]|].
  destruct (bool_decide _); wp_step; [rewrite app_nil_r; split; [done|apply onlyFindings_refl]|].
  split; [done|by eexists].
Qed.

Lemma inStep_quiet c c' d : Quiet c d -> inStep c c' -> inStep d c'.
Proof. intros [ds ->] [? ? ? ? ? ? ? ? ? ? ?]. by apply alike_deployments. Qed.

(** The networks of both compilers, before the bound attachment is looked up. *)
Lemma compileNetworks_inStep cfg b c c' :
  Started (Some cfg) c -> Started (Some cfg) c' -> inStep c c' ->
  cbNetwork (tyBinding (scTopology c)) = boundNetwork cfg b -> cbNetwork (tyBinding (scTopology c')) = ""%string ->
  let d := (compileNetworks c).2 in let d' := (compileNetworks c').2 in
  Started (Some cfg) d /\ Started (Some cfg) d' /\ inStep d d' /\
  exists t, Forall configScoped t /\ findings d = findings c ++ t ++ dangling cfg b (nets d) /\ findings d' = findings c' ++ t.
Proof.
  intros (Hg & Hb & E) (Hg' & Hb' & E') Ha Hn Hn'. cbv zeta.
  pose proof (compileNetworks_blank cfg c E Hg Hb) as Hd. pose proof (compileNetworks_blank cfg c' E' Hg' Hb') as Hd'.
  unfold wp in Hd, Hd'. split; [done|]. split; [done|]. clear Hd'.
  set (networks := forRange compileNetwork 0 (config.cfNetworks cfg)).
  assert (forall c0, scCfg c0 = Some cfg -> (compileNetworks c0).2 = (validateAttachmentNetwork (networks c0).2).2) as Hrun.
  { intros c0 E0. unfold compileNetworks, mbind, Compiling_bind, gets. rewrite E0. fold networks. by destruct (networks c0). }
  assert (wp networks (fun _ => Grounded) c) as Hgn
    by (apply wp_forRange; [exact Hg|]; intros; by apply compileNetwork_grounded).
  destruct (inStep_framed networks c c' (framed_forRange _ _ _ _) Ha) as (_ & Ha1 & _ & _ & Eb & Eb' & t & Et & Et' & Ht).
  rewrite !Hrun by done.
  pose proof (validateAttachmentNetwork_bound cfg b (networks c).2 (proj1 Hgn) ltac:(by rewrite Eb)) as [Ef Hq].
  assert ((validateAttachmentNetwork (networks c').2).2 = (networks c').2) as ->.
  { unfold validateAttachmentNetwork, mbind, Compiling_bind, gets. by rewrite Eb', Hn'. }
  split; [by eapply inStep_quiet|]. exists t. split; [done|]. split; [|done]. rewrite Ef, Et, <- app_assoc.
  by destruct Hq as [ds ->].
Qed.

(** Compiling always returns, with a physical binding and without one, and
    both give the same topology but for the binding.  The preflight finds what
    the configuration compile finds, in the same order, after findings that
    are all about the deployment, and at most one finding between: that the
    bound attachment connects to a network the scenario does not have. *)
Theorem compile_config_findings cfg b :
  exists r rc, Compile (Some cfg) b = Some r /\ CompileConfig (Some cfg) = Some rc /\
    unbound (reTopology r) = unbound (reTopology rc) /\
    exists deployment before after, Forall deploymentScoped deployment /\ Forall configScoped (before ++ after) /\
      reDiagnostics rc = before ++ after /\
      reDiagnostics r = deployment ++ before ++ dangling cfg b (tyNetworks (reTopology r)) ++ after.
Proof.
  destruct (compileBinding_inStep cfg b) as (Hdep & Ha & Hn).
  pose proof (compileBinding_start (Some cfg) _ (started_new _ b)) as Hst. unfold wp in Hst.
  set (c := (compileBinding (newScenarioCompiler (Some cfg) b)).2) in *. set (c' := newScenarioCompiler (Some cfg) noBinding) in *.
  destruct (compileNetworks_inStep cfg b c c' Hst (started_new _ _) Ha Hn eq_refl)
    as (Hd & Hd' & Ha1 & before & Hbefore & Ef & Ef').
  set (d := (compileNetworks c).2) in *. set (d' := (compileNetworks c').2) in *.
  destruct (inStep_framed (compileDevices;; compileAttachments) d d' _ Ha1) as (_ & Ha2 & _ & _ & _ & _ & after & Et & Et' & Hafter).
  pose proof (compileRest_sound cfg d Hd) as (Eok & Hs & Hnames & _).
  pose proof (compileRest_sound cfg d' Hd') as (Eok' & _).
  set (e := ((compileDevices;; compileAttachments) d).2) in *. set (e' := ((compileDevices;; compileAttachments) d').2) in *.
  assert (forall c0, ((compileDevices;; compileAttachments) (compileNetworks c0).2).1 = true ->
    (compileScenario c0).1 = (finishScenario ((compileDevices;; compileAttachments) (compileNetworks c0).2).2).1) as Hrun.
  { intros c0 E0. change (wp compileScenario (fun r _ => r = (finishScenario ((compileDevices;; compileAttachments) (compileNetworks c0).2).2).1) c0).
    unfold compileScenario. wp_step. unfold wp at 1. apply wp_assoc, wp_bind. unfold wp at 1. by rewrite E0. }
  assert (Compile (Some cfg) b = (compileScenario c).1) as Ec.
  { unfold Compile, c, mbind, Compiling_bind. by destruct (compileBinding _). }
  destruct (finishScenario_reports e) as (r & Er & _ & Edr & Etr), (finishScenario_reports e') as (rc & Erc & _ & Edrc & Etrc).
  exists r, rc. split; [by rewrite Ec, Hrun|]. split; [by unfold CompileConfig; fold c'; rewrite Hrun|].
  split; [rewrite Etr, Etrc; apply Ha2|]. exists (findings c), before, after. split; [done|]. split; [by apply Forall_app|].
  split; [by rewrite Edrc; unfold findings in *; fold e'; rewrite Et', Ef'|].
  rewrite Edr, Et, Ef, <- !app_assoc. do 3 f_equal. apply dangling_named. intros n.
  rewrite <- Hnames. by rewrite (f_equal tyNetworks Etr : tyNetworks (reTopology r) = nets e).
Qed.

(** ** Attachment pools *)

(** A network reached from a device by the links that carry a VLAN, and
    numbered with this VLAN. *)
Definition servedFrom (devices : list config.Device) (networks : list Network) (vlan : Z) (from name : string) : Prop :=
  name <> ""%string /\ exists device iface nw,
    device ∈ devices /\ rtc (linked devices vlan) from (config.dvName device) /\ iface ∈ config.dvInterfaces device /\
    config.ifNetwork iface = name /\ nw ∈ networks /\ ntName nw = name /\ ntVirtualVLAN nw = vlan.

Lemma serves_servedFrom devices table l vlan from name :
  Listed table l ->
  serves devices table vlan (broadcastDomain devices from vlan) name <->
  servedFrom devices l vlan (config.dvName from) name.
Proof.
  intros [Ht Hl _ _]. unfold serves, servedFrom, servesVLAN. setoid_rewrite broadcastDomain_reaches. split.
  - intros (device & iface & Hd & Hr & Hi & Hn & [Hne Hv]%andb_true_iff).
    apply negb_true_iff, bool_decide_eq_false in Hne. destruct (table !! name) as [nw|] eqn:E; [|done].
    apply Ht in E as [<- Hin]. apply Z.eqb_eq in Hv. split; [done|]. by exists device, iface, nw.
  - intros (Hne & device & iface & nw & Hd & Hr & Hi & Hn & Hin & <- & Hv). exists device, iface. split_and!; try done.
    rewrite bool_decide_eq_false_2, (Hl nw Hin) by done. by apply Z.eqb_eq.
Qed.

(** A port a client may be placed on: declared on its device, taken by no link,
    learned client or bundle, and in one access VLAN. *)
Record freePort (devices : list config.Device) (p : AttachmentPort) : Prop := mkFreePort {
  fpDeclared : exists device iface, deviceByName devices (atDevice p) = Some device /\
    interfaceByName device (atInterface p) = Some iface /\ config.ifVLANs iface = [atVLAN p] /\
    (forall trunk, trunk ∈ config.dvTrunkPorts device -> config.tpInterface trunk <> atInterface p) /\
    (forall channel, channel ∈ config.dvPortChannels device -> atInterface p ∉ config.pcMembers channel);
  fpVLAN : 1 <= atVLAN p <= 4094
}.

Lemma resolved_port devices table l p :
  Listed table l -> resolved devices table p ->
  freePort devices p /\ forall n, servedFrom devices l (atVLAN p) (atDevice p) n <-> n = atNetwork p.
Proof.
  intros Hl (device & iface & Hd & Hi & Ho & Hv & Hr & Hn). apply portOccupation_free in Ho as [Ht Hc].
  split; [constructor; [by exists device, iface|done]|]. intros n.
  rewrite <- (deviceByName_name _ _ _ Hd), <- (serves_servedFrom _ _ _ _ _ _ Hl).
  pose proof (networkServingVLAN_exact devices table (atVLAN p) (broadcastDomain devices device (atVLAN p))) as H.
  rewrite Hn in H. destruct H as [Hs Hall]. split; [apply Hall|by intros ->].
Qed.

(** An attachment of a compiled topology is well formed. *)
Lemma compiled_attached cfg b r a :
  Compile (Some cfg) b = Some r -> a ∈ tyAttachments (reTopology r) ->
  exists c, tyNetworks (reTopology r) = nets c /\ Sound c /\ Attached (config.cfDevices cfg) (scNetworks c) (config.cfAttachments cfg) a.
Proof.
  intros Hr Ha. destruct (compile_compiled cfg b) as (c & (report & E & _ & _ & Ht) & Hs & Hall).
  rewrite Hr in E. injection E as <-.
  rewrite (f_equal tyAttachments Ht : tyAttachments (reTopology r) = tyAttachments (scTopology c)) in Ha.
  rewrite Forall_forall in Hall. exists c. split_and!; [exact (f_equal tyNetworks Ht)|done|by apply Hall].
Qed.

(** Every compiled attachment has exactly the ports its author listed, in
    order, each once and at least one; every port is declared, taken by
    nothing and in one access VLAN, and the attachment's network is the only
    one that serves this VLAN among the devices the links that carry it reach;
    pins sit on ports of the pool, one to a port. *)
Theorem attachment_ports cfg b r (Hr : Compile (Some cfg) b = Some r) :
  let t := reTopology r in
  forall a, a ∈ tyAttachments t ->
    (exists source, source ∈ config.cfAttachments cfg /\ config.laName source = caName a /\
       portOf <$> caPorts a = listedPorts (config.laAt source)) /\
    caPorts a <> [] /\ NoDup (portOf <$> caPorts a) /\
    (forall p, p ∈ caPorts a -> freePort (config.cfDevices cfg) p /\ atNetwork p = caNetwork a /\
       forall n, servedFrom (config.cfDevices cfg) (tyNetworks t) (atVLAN p) (atDevice p) n <-> n = caNetwork a) /\
    pinned (caPorts a) (caPins a).
Proof.
  cbv zeta. intros a Ha. destruct (compiled_attached _ _ _ _ Hr Ha) as (c & -> & Hs & Hat). destruct Hat as [(source & Hin & Hname & _ & Hports) Hne Hnd Hres Hnet Hpins].
  rewrite Forall_forall in Hres, Hnet. split_and!; try done; [by exists source|].
  intros p Hp. destruct (resolved_port _ _ _ p (sound_listed _ Hs) (Hres p Hp)) as [Hf Hn].
  split_and!; [done|by apply Hnet|]. by rewrite <- (Hnet p Hp).
Qed.

(** The access switch and its core, of the compiler's tests, with a pinned client. *)
Definition trunkTo (name remote : string) : config.TrunkPort := config.mkTrunkPort name [200; 210] 200 remote false.
Definition accessPort (name : string) (vlans : list Z) : config.Interface := config.mkInterface name "" "" "" "" vlans.

Definition accessSwitch : config.Device :=
  config.mkDevice "MED-ACC-SW01" "switch"
    [labInterface "Vlan200" "med-mgmt" "10.51.200.21/24"; accessPort "HundredGigabitEthernet1/0/49" [200; 210];
     accessPort "GigabitEthernet1/0/10" [210]; accessPort "GigabitEthernet1/0/20" [210]; accessPort "GigabitEthernet1/0/21" [210]]
    [] None
    [trunkTo "HundredGigabitEthernet1/0/49" "MED-CORE-SW01";
     config.mkTrunkPort "GigabitEthernet1/0/10" [210] 210 "MED-NURSE-1101" true] [].

Definition coreSwitch : config.Device :=
  config.mkDevice "MED-CORE-SW01" "layer3-switch"
    [labInterface "Vlan200" "med-mgmt" "10.51.200.2/24"; labInterface "Vlan210" "med-data" "10.51.210.2/24";
     accessPort "HundredGigabitEthernet1/0/1" [200; 210]]
    [] None [trunkTo "HundredGigabitEthernet1/0/1" "MED-ACC-SW01"] [].

Definition poolConfig : config.Config :=
  config.mkConfig [accessSwitch; coreSwitch]
    [config.mkNetwork "med-mgmt" "10.51.200.0/24" "" 200; config.mkNetwork "med-data" "10.51.210.0/24" "" 210]
    [config.mkLogicalAttachment "cyberscope" ""
       [config.mkAttachmentPort "MED-ACC-SW01" ["GigabitEthernet1/0/20"; "GigabitEthernet1/0/21"]]
       [config.mkAttachmentPin "02:00:00:00:00:09" "MED-ACC-SW01" "GigabitEthernet1/0/21"]].

Definition poolBinding : Binding := mkBinding "cyberscope" "eth0" ModeAccess 200 true.
Definition poolReport : Report := default NewReport (Compile (Some poolConfig) poolBinding).

Example pool_binds : reSafe poolReport = true /\ cbNetwork (tyBinding (reTopology poolReport)) = "med-data"%string.
Proof. split; vm_compute; reflexivity. Qed.

Lemma attachment_ports_witness :
  exists a, a ∈ tyAttachments (reTopology poolReport) /\ caNetwork a = "med-data"%string /\ length (caPins a) = 1%nat /\
    forall p, p ∈ caPorts a -> freePort (config.cfDevices poolConfig) p.
Proof.
  assert (Compile (Some poolConfig) poolBinding = Some poolReport) as Hr by (vm_compute; reflexivity).
  destruct (tyAttachments (reTopology poolReport)) as [|a l] eqn:E; [exfalso; revert E; vm_compute; discriminate|].
  exists a. assert (a ∈ tyAttachments (reTopology poolReport)) as Ha by (rewrite E; left).
  destruct (attachment_ports _ _ _ Hr a Ha) as (_ & _ & _ & Hp & _). vm_compute in E. injection E as <- <-.
  split; [left|]. split; [reflexivity|]. split; [reflexivity|]. intros p Hin. exact (proj1 (Hp p Hin)).
Defined.
