(* ===== verification/Placement.v ===== *)
(** * Clients on the ports of an attachment pool

    [protocols/client_placement.go]: which pool port each client address is
    plugged into.  A [clientPlacement] is the struct without its mutex, each
    method one step under it; the index -1, "no port", is [None].  The check
    whether a port can carry a client is a callback, an argument of the
    operations.

    A pool is used through [assign], [repin] and [reset]; [Placed] are the
    states reached when every repin moves the pin of one client only, as the
    daemon does.  Then no two clients share a port, and a pinned port holds
    its client or nobody.  A repin whose recompiled scenario brings other pins
    along can put two clients on one port. *)

From S2P Require Import Prelude.
From S2P Require Import Netip.
From S2P Require Import FabricTypes.
From S2P Require Import Fabric.
From S2P Require Import FabricAttachment.
From S2P Require Import FabricFacts.
From S2P Require Import FabricDomain.
From S2P Require Import FabricTheorems.

#[export] Instance AttachmentPort_eq_dec : EqDecision AttachmentPort.
Proof. solve_decision. Defined.

(** The zero port, read by no index within range. *)
#[export] Instance AttachmentPort_inhabited : Inhabited AttachmentPort := populate (mkAttachmentPort "" "" 0 "").

Inductive placementErr :=
| ErrAttachmentPortOccupied
| errAttachmentPinMissing
| ErrAttachmentPortShut.

Abbreviation portUsable := (AttachmentPort -> bool).

Record clientPlacement := mkPlacement {
  plcPorts : list AttachmentPort;
  plcPins : gmap string nat;
  plcReserved : list bool;
  plcTaken : list bool;
  plcAssigned : gmap string nat;
  plcEarliest : option nat;
  plcExhausted : bool
}.
#[export] Instance clientPlacement_rebuild : Rebuild clientPlacement := fun p =>
  mkPlacement (plcPorts p) (plcPins p) (plcReserved p) (plcTaken p) (plcAssigned p) (plcEarliest p) (plcExhausted p).

(** The port a pin names. *)
Definition pinIndex (ports : list AttachmentPort) (pin : AttachmentPin) : option nat :=
  fst <$> list_find (fun port => atDevice port = piDevice pin /\ atInterface port = piInterface pin) ports.

Definition resolvePins (ports : list AttachmentPort) (pins : list AttachmentPin) : gmap string nat * list bool :=
  foldl (fun '(indexes, reserved) pin =>
    match pinIndex ports pin with
    | Some index => (<[ piMAC pin := index ]> indexes, <[ index := true ]> reserved)
    | None => (indexes, reserved)
    end) (∅, replicate (length ports) false) pins.

Definition newClientPlacement (attachment : CompiledAttachment) : clientPlacement :=
  let '(pins, reserved) := resolvePins (caPorts attachment) (caPins attachment) in
  mkPlacement (caPorts attachment) pins reserved (replicate (length (caPorts attachment)) false) ∅ None false.

(** Where a client was plugged in, unless it was not seen yet, and where it is now. *)
Record clientMove := mkMove { mvFrom : option AttachmentPort; mvTo : AttachmentPort }.

Definition repin (pins : list AttachmentPin) (mac : string) (usable : portUsable) (p : clientPlacement)
    : clientPlacement * (clientMove + placementErr) :=
  let '(indexes, reserved) := resolvePins (plcPorts p) pins in
  match indexes !! mac with
  | None => (p, inr errAttachmentPinMissing)
  | Some target =>
      let current := plcAssigned p !! mac in
      if (plcTaken p !!! target) && negb (bool_decide (current = Some target)) then (p, inr ErrAttachmentPortOccupied)
      else if negb (usable (plcPorts p !!! target)) then (p, inr ErrAttachmentPortShut)
      else
        let p := p <| plcPins := indexes |> <| plcReserved := reserved |> in
        match current with
        | None => (p, inl (mkMove None (plcPorts p !!! target)))
        | Some current =>
            (p <| plcTaken := <[ target := true ]> (<[ current := false ]> (plcTaken p)) |>
               <| plcAssigned := <[ mac := target ]> (plcAssigned p) |>
               <| plcEarliest := if bool_decide (plcEarliest p = Some current) then Some target else plcEarliest p |>,
             inl (mkMove (Some (plcPorts p !!! current)) (plcPorts p !!! target)))
        end
  end.

Definition firstFreePort (usable : portUsable) (p : clientPlacement) : option nat :=
  fst <$> list_find (fun index =>
    (negb (plcReserved p !!! index) && negb (plcTaken p !!! index) && usable (plcPorts p !!! index)) = true)
    (seq 0 (length (plcPorts p))).

(** The port given to a client seen for the first time. *)
Definition assign (mac : string) (usable : portUsable) (p : clientPlacement) : clientPlacement * option AttachmentPort :=
  match plcAssigned p !! mac with
  | Some _ => (p, None)
  | None =>
      let place index :=
        (p <| plcTaken := <[ index := true ]> (plcTaken p) |> <| plcAssigned := <[ mac := index ]> (plcAssigned p) |>
           <| plcEarliest := match plcEarliest p with None => Some index | earliest => earliest end |>,
         Some (plcPorts p !!! index)) in
      match plcPins p !! mac with
      | Some index => if negb (usable (plcPorts p !!! index)) then (p, None) else place index
      | None =>
          match firstFreePort usable p with
          | None => (p <| plcExhausted := true |>, None)
          | Some index => place index
          end
      end
  end.

Definition lookup (mac : string) (p : clientPlacement) : option AttachmentPort :=
  (fun index => plcPorts p !!! index) <$> plcAssigned p !! mac.

Definition advertisedPort (usable : portUsable) (p : clientPlacement) : option AttachmentPort :=
  let index :=
    match plcEarliest p with
    | Some index => if negb (usable (plcPorts p !!! index)) then firstFreePort usable p else Some index
    | None => firstFreePort usable p
    end in
  (fun index => plcPorts p !!! index) <$> index.

(** Every client is unplugged; the ports that were taken. *)
Definition reset (p : clientPlacement) : clientPlacement * list AttachmentPort :=
  (p <| plcTaken := replicate (length (plcTaken p)) false |> <| plcAssigned := ∅ |> <| plcEarliest := None |>
     <| plcExhausted := false |>,
   (fun index => plcPorts p !!! index) <$> filter (fun index => plcTaken p !!! index = true) (seq 0 (length (plcTaken p)))).

(** ** Pins *)

Lemma pinIndex_some ports pin i :
  pinIndex ports pin = Some i ->
  exists port, ports !! i = Some port /\ portOf port = pinOf pin /\
    forall j port', ports !! j = Some port' -> (j < i)%nat -> portOf port' <> pinOf pin.
Proof.
  unfold pinIndex, portOf, pinOf. intros ([j port] & E & [= ->])%fmap_Some_1.
  apply list_find_Some in E as (Hi & [E1 E2] & Hfirst). exists port. split_and!; [done|congruence|].
  intros k port' Hk Hlt [= E3 E4]. by apply (Hfirst k port').
Qed.

(** What resolving a list of pins, one to a port, gives. *)
Record Resolved (ports : list AttachmentPort) (pins : list AttachmentPin) (r : gmap string nat * list bool) : Prop := mkResolved {
  rsLength : length r.2 = length ports;
  rsPin : forall m i, r.1 !! m = Some i -> exists pin, pin ∈ pins /\ piMAC pin = m /\ pinIndex ports pin = Some i;
  rsReserved : forall i, r.2 !! i = Some true <-> exists pin, pin ∈ pins /\ pinIndex ports pin = Some i
}.

Lemma resolvePins_spec ports pins : Resolved ports pins (resolvePins ports pins).
Proof.
  unfold resolvePins. induction pins as [|pin pins IH] using rev_ind.
  { constructor; simpl; [by rewrite length_replicate|intros m i; by rewrite lookup_empty|].
    intros i. split; [intros [? _]%lookup_replicate; done|intros (pin & []%elem_of_nil & _)]. }
  rewrite foldl_app. simpl. set (r := foldl _ _ pins) in *. destruct r as [indexes reserved], IH as [Hlen Hpin Hres].
  simpl in *. destruct (pinIndex ports pin) as [k|] eqn:Ek.
  - pose proof (pinIndex_some _ _ _ Ek) as (port & Hk%lookup_lt_Some & _). constructor; simpl.
    + by rewrite length_insert.
    + intros m i [[<- <-]|[_ Hm]]%lookup_insert_Some; [exists pin; set_solver|].
      destruct (Hpin m i Hm) as (q & ? & ? & ?). exists q. set_solver.
    + intros i. destruct (decide (i = k)) as [->|Hne].
      * rewrite list_lookup_insert_eq by lia. split; [intros _; exists pin; set_solver|done].
      * rewrite list_lookup_insert_ne, Hres by done. split; intros (q & Hq & E); exists q; [set_solver|].
        apply elem_of_app in Hq as [?| ->%list_elem_of_singleton]; [done|congruence].
  - constructor; simpl; [done| |].
    + intros m i Hm. destruct (Hpin m i Hm) as (q & ? & ? & ?). exists q. set_solver.
    + intros i. rewrite Hres. split; intros (q & Hq & E); exists q; [set_solver|].
      apply elem_of_app in Hq as [?| ->%list_elem_of_singleton]; [done|congruence].
Qed.

Section resolved.
Context (ports : list AttachmentPort) (pins : list AttachmentPin).
Hypothesis Hpins : NoDup (pinOf <$> pins).

Lemma resolved_inj m1 m2 i :
  (resolvePins ports pins).1 !! m1 = Some i -> (resolvePins ports pins).1 !! m2 = Some i -> m1 = m2.
Proof.
  intros H1 H2. pose proof (resolvePins_spec ports pins) as [_ Hp _].
  destruct (Hp _ _ H1) as (p1 & Hin1 & <- & (q1 & E1 & F1 & _)%pinIndex_some),
    (Hp _ _ H2) as (p2 & Hin2 & <- & (q2 & E2 & F2 & _)%pinIndex_some).
  f_equal. eapply (key_inj_NoDup pinOf); [done..|congruence].
Qed.

Lemma resolved_reserved m i :
  (resolvePins ports pins).1 !! m = Some i -> (resolvePins ports pins).2 !! i = Some true.
Proof.
  pose proof (resolvePins_spec ports pins) as [_ Hp Hr]. intros (pin & ? & _ & ?)%Hp. apply Hr. eauto.
Qed.
End resolved.

(** ** Reached states *)

(** One operation on a pool; a repin moves one pin, to a port no other pin claims. *)
Inductive placementStep (p : clientPlacement) : clientPlacement -> Prop :=
| StepAssign mac usable : placementStep p (assign mac usable p).1
| StepRepin pins mac usable :
    NoDup (pinOf <$> pins) -> (forall m, m <> mac -> (resolvePins (plcPorts p) pins).1 !! m = plcPins p !! m) ->
    placementStep p (repin pins mac usable p).1
| StepReset : placementStep p (reset p).1.

Definition Placed (a : CompiledAttachment) : clientPlacement -> Prop := rtc placementStep (newClientPlacement a).

(** Clients hold the taken ports, one each, and a pinned port is held by its client only. *)
Record Plugged (p : clientPlacement) : Prop := mkPlugged {
  pgReserved : length (plcReserved p) = length (plcPorts p);
  pgTaken : length (plcTaken p) = length (plcPorts p);
  pgHeld : forall i, plcTaken p !! i = Some true <-> exists m, plcAssigned p !! m = Some i;
  pgApart : forall m1 m2 i, plcAssigned p !! m1 = Some i -> plcAssigned p !! m2 = Some i -> m1 = m2;
  pgPins : forall m i, plcPins p !! m = Some i -> plcReserved p !! i = Some true /\ (i < length (plcPorts p))%nat;
  pgPinned : forall m m' i, plcPins p !! m = Some i -> plcPins p !! m' = Some i -> m = m';
  pgOwn : forall m m' i, plcPins p !! m = Some i -> plcAssigned p !! m' = Some i -> m' = m;
  pgEarliest : forall i, plcEarliest p = Some i -> plcTaken p !! i = Some true
}.

Lemma flag_total (l : list bool) i b : (i < length l)%nat -> l !!! i = b <-> l !! i = Some b.
Proof.
  intros [x Hx]%lookup_lt_is_Some. rewrite list_lookup_total_alt, Hx. simpl. by split; [intros ->|intros [= ->]].
Qed.

Lemma new_plugged a : NoDup (pinOf <$> caPins a) -> Plugged (newClientPlacement a).
Proof.
  intros Hp. unfold newClientPlacement. pose proof (resolvePins_spec (caPorts a) (caPins a)) as [Hl _ _].
  pose proof (resolved_inj (caPorts a) _ Hp) as Hinj. pose proof (resolved_reserved (caPorts a) (caPins a)) as Hres.
  destruct (resolvePins _ _) as [pins reserved]. simpl in *. constructor; simpl; [done|..].
  - apply length_replicate.
  - intros i. split; [intros [? _]%lookup_replicate; done|]. intros (m & Hm). by rewrite lookup_empty in Hm.
  - intros m1 m2 i Hm. by rewrite lookup_empty in Hm.
  - intros m i Hm%Hres. split; [done|]. apply lookup_lt_Some in Hm. lia.
  - intros m m' i. apply Hinj.
  - intros m m' i _ Hm. by rewrite lookup_empty in Hm.
  - done.
Qed.

Lemma firstFree_some usable p i :
  firstFreePort usable p = Some i ->
  (i < length (plcPorts p))%nat /\ plcReserved p !!! i = false /\ plcTaken p !!! i = false /\ usable (plcPorts p !!! i) = true /\
  forall j, (j < i)%nat -> plcReserved p !!! j = true \/ plcTaken p !!! j = true \/ usable (plcPorts p !!! j) = false.
Proof.
  unfold firstFreePort. intros ([k x] & E & [= ->])%fmap_Some_1. simpl.
  apply list_find_Some in E as (Hk & Hf & Hfirst). apply lookup_seq in Hk as [-> Hlt]. rewrite Nat.add_0_l in *.
  apply andb_true_iff in Hf as [[Hf1%negb_true_iff Hf2%negb_true_iff]%andb_true_iff Hf3]. split_and!; try done.
  intros j Hj. specialize (Hfirst j j). rewrite lookup_seq in Hfirst.
  destruct (plcReserved p !!! j), (plcTaken p !!! j), (usable (plcPorts p !!! j)); auto.
  naive_solver lia.
Qed.

Lemma firstFree_none usable p :
  firstFreePort usable p = None ->
  forall i, (i < length (plcPorts p))%nat ->
    plcReserved p !!! i = true \/ plcTaken p !!! i = true \/ usable (plcPorts p !!! i) = false.
Proof.
  unfold firstFreePort. intros E%fmap_None i Hi. apply list_find_None in E. rewrite Forall_forall in E.
  specialize (E i). rewrite elem_of_seq in E. specialize (E ltac:(lia)).
  destruct (plcReserved p !!! i), (plcTaken p !!! i), (usable (plcPorts p !!! i)); naive_solver.
Qed.

(** Giving a free port to a client that has none. *)
Lemma place_plugged p mac index :
  Plugged p -> plcAssigned p !! mac = None -> plcTaken p !! index = Some false ->
  (forall m, plcPins p !! m = Some index -> m = mac) ->
  Plugged (p <| plcTaken := <[ index := true ]> (plcTaken p) |> <| plcAssigned := <[ mac := index ]> (plcAssigned p) |>
             <| plcEarliest := match plcEarliest p with None => Some index | earliest => earliest end |>).
Proof.
  intros [Hrl Hl Hh Ha Hp Hpp Ho He] Hmac Hfree Hpin. pose proof (lookup_lt_Some _ _ _ Hfree) as Hlt.
  assert (forall m, plcAssigned p !! m <> Some index) as Hun.
  { intros m Hm. assert (plcTaken p !! index = Some true) by (apply Hh; eauto). congruence. }
  constructor; simpl; try done.
  - by rewrite length_insert.
  - intros i. destruct (decide (i = index)) as [->|Hne].
    + rewrite list_lookup_insert_eq by lia. split; [|done]. intros _. exists mac. by rewrite lookup_insert_eq.
    + rewrite list_lookup_insert_ne, Hh by done. split; intros (m & Hm); exists m.
      * rewrite lookup_insert_ne; [done|congruence].
      * apply lookup_insert_Some in Hm as [[_ [=]]|[_ ?]]; [done|done].
  - intros m1 m2 i [[<- <-]|[? H1]]%lookup_insert_Some [[<- E]|[? H2]]%lookup_insert_Some; subst; try done; [by destruct (Hun m2)|by destruct (Hun m1)|by eapply Ha].
  - intros m m' i Hm [[<- <-]|[? Hm']]%lookup_insert_Some; [by symmetry; apply Hpin|by eapply Ho].
  - intros i E. destruct (decide (i = index)) as [->|Hne]; [by rewrite list_lookup_insert_eq by lia|].
    rewrite list_lookup_insert_ne by done. destruct (plcEarliest p) as [e|] eqn:Ee; [|congruence]. apply He. congruence.
Qed.

Lemma free_own p mac index :
  Plugged p -> plcAssigned p !! mac = None -> plcPins p !! mac = Some index -> plcTaken p !! index = Some false.
Proof.
  intros Hp Hmac Hpin. destruct (pgPins _ Hp _ _ Hpin) as [_ Hlt]. rewrite <- (pgTaken _ Hp) in Hlt.
  apply lookup_lt_is_Some in Hlt as [[] Ht]; [|done]. apply (pgHeld _ Hp) in Ht as (m & Hm).
  pose proof (pgOwn _ Hp _ _ _ Hpin Hm). congruence.
Qed.

Lemma assign_plugged p mac usable : Plugged p -> Plugged (assign mac usable p).1.
Proof.
  intros Hp. unfold assign. destruct (plcAssigned p !! mac) eqn:Em; [done|].
  destruct (plcPins p !! mac) as [index|] eqn:Epin.
  - destruct (negb _); [done|]. apply place_plugged; [done..|by eapply free_own|]. intros m Hm. by eapply (pgPinned _ Hp).
  - destruct (firstFreePort usable p) as [index|] eqn:Ef; simpl; [|by destruct Hp; constructor].
    apply firstFree_some in Ef as (Hlt & Hr & Ht & _). apply flag_total in Ht; [|by rewrite (pgTaken _ Hp)].
    apply place_plugged; [done..|]. intros m [Hres _]%(pgPins _ Hp).
    apply flag_total in Hres; [congruence|by eapply lookup_lt_Some].
Qed.

Lemma reset_plugged p : Plugged p -> Plugged (reset p).1.
Proof.
  intros [Hrl Hl Hh Ha Hp Hpp Ho He]. constructor; simpl; try done.
  - by rewrite length_replicate.
  - intros i. split; [intros [? _]%lookup_replicate; done|]. intros (m & Hm). by rewrite lookup_empty in Hm.
Qed.

(** What a repin checked before it changed anything, and what it made of the pool. *)
Lemma repin_cases pins mac usable p :
  match repin pins mac usable p with
  | (p', inr _) => p' = p
  | (p', inl mv) =>
      exists target,
        (resolvePins (plcPorts p) pins).1 !! mac = Some target /\
        ((plcTaken p !!! target) = true -> plcAssigned p !! mac = Some target) /\
        usable (plcPorts p !!! target) = true /\
        mv = mkMove ((fun i => plcPorts p !!! i) <$> plcAssigned p !! mac) (plcPorts p !!! target) /\
        p' = match plcAssigned p !! mac with
             | None => p <| plcPins := (resolvePins (plcPorts p) pins).1 |> <| plcReserved := (resolvePins (plcPorts p) pins).2 |>
             | Some current =>
                 p <| plcPins := (resolvePins (plcPorts p) pins).1 |> <| plcReserved := (resolvePins (plcPorts p) pins).2 |>
                   <| plcTaken := <[ target := true ]> (<[ current := false ]> (plcTaken p)) |>
                   <| plcAssigned := <[ mac := target ]> (plcAssigned p) |>
                   <| plcEarliest := if bool_decide (plcEarliest p = Some current) then Some target else plcEarliest p |>
             end
  end.
Proof.
  unfold repin. destruct (resolvePins (plcPorts p) pins) as [indexes reserved]. simpl.
  destruct (indexes !! mac) as [target|]; [|done].
  destruct (_ && _) eqn:Et; [done|]. destruct (negb (usable _)) eqn:Eu; [done|]. apply negb_false_iff in Eu.
  assert ((plcTaken p !!! target) = true -> plcAssigned p !! mac = Some target) as Hown.
  { intros Ht. rewrite Ht in Et. by apply negb_false_iff, bool_decide_eq_true in Et. }
  destruct (plcAssigned p !! mac) as [current|] eqn:Ec; exists target; split_and!; done.
Qed.

(** The pins change, and the client they move is not plugged in. *)
Lemma repinned_plugged p pins mac target :
  Plugged p -> NoDup (pinOf <$> pins) ->
  (forall m, m <> mac -> (resolvePins (plcPorts p) pins).1 !! m = plcPins p !! m) ->
  (resolvePins (plcPorts p) pins).1 !! mac = Some target ->
  (forall m, plcAssigned p !! m = Some target -> m = mac) ->
  Plugged (p <| plcPins := (resolvePins (plcPorts p) pins).1 |> <| plcReserved := (resolvePins (plcPorts p) pins).2 |>).
Proof.
  intros [Hrl Hl Hh Ha Hp Hpp Ho He] Hnd Hsame Hmac Hown. pose proof (resolvePins_spec (plcPorts p) pins) as [Hlen _ _].
  constructor; simpl; try done.
  - intros m i Hm. apply resolved_reserved in Hm. split; [done|]. apply lookup_lt_Some in Hm. lia.
  - intros m m' i. by apply resolved_inj.
  - intros m m' i Hm Hm'. destruct (decide (m = mac)) as [->|Hne].
    + rewrite Hmac in Hm. injection Hm as ->. by apply Hown.
    + rewrite Hsame in Hm by done. by eapply Ho.
Qed.

(** A client leaves its port for a free one, or for the port it has. *)
Lemma moved_plugged p mac current target :
  Plugged p -> plcAssigned p !! mac = Some current -> plcPins p !! mac = Some target ->
  (plcTaken p !! target = Some true -> current = target) ->
  Plugged (p <| plcTaken := <[ target := true ]> (<[ current := false ]> (plcTaken p)) |>
             <| plcAssigned := <[ mac := target ]> (plcAssigned p) |>
             <| plcEarliest := if bool_decide (plcEarliest p = Some current) then Some target else plcEarliest p |>).
Proof.
  intros [Hrl Hl Hh Ha Hp Hpp Ho He] Hcur Hpin Hfree. destruct (Hp _ _ Hpin) as [_ Hlt].
  assert (plcTaken p !! current = Some true) as Hc by (apply Hh; eauto). pose proof (lookup_lt_Some _ _ _ Hc) as Hcl.
  constructor; simpl; try done.
  - by rewrite !length_insert.
  - intros i. destruct (decide (i = target)) as [->|Hne].
    + rewrite list_lookup_insert_eq by (rewrite length_insert; lia). split; [|done]. intros _. exists mac.
      by rewrite lookup_insert_eq.
    + rewrite list_lookup_insert_ne by done. destruct (decide (i = current)) as [->|Hnc].
      * rewrite list_lookup_insert_eq by done. split; [done|].
        intros (m & [[_ ?]|[Hm Hm']]%lookup_insert_Some); [done|]. destruct Hm. by eapply Ha.
      * rewrite list_lookup_insert_ne, Hh by done. split; intros (m & Hm); exists m.
        -- rewrite lookup_insert_ne; [done|congruence].
        -- apply lookup_insert_Some in Hm as [[_ ?]|[_ ?]]; done.
  - intros m1 m2 i H1 H2. assert (forall m, m <> mac -> plcAssigned p !! m = Some target -> current = target) as Hmt.
    { intros m _ Hm. apply Hfree, Hh. eauto. }
    apply lookup_insert_Some in H1 as [[E1 E2]|[? H1]], H2 as [[E3 E4]|[? H2]]; try congruence.
    + rewrite <- E2 in H2. specialize (Hmt m2 ltac:(congruence) H2) as ->. subst. by eapply Ha.
    + rewrite <- E4 in H1. specialize (Hmt m1 ltac:(congruence) H1) as ->. subst. by eapply Ha.
    + by eapply Ha.
  - intros m m' i Hm [[<- <-]|[? Hm']]%lookup_insert_Some; [by eapply Hpp|by eapply Ho].
  - intros i E. destruct (decide (i = target)) as [->|Hne]; [apply list_lookup_insert_eq; rewrite length_insert; lia|].
    rewrite list_lookup_insert_ne by done. destruct (bool_decide _) eqn:Eb; [congruence|].
    apply bool_decide_eq_false in Eb. rewrite list_lookup_insert_ne by congruence. by apply He.
Qed.

Lemma repin_plugged p pins mac usable :
  Plugged p -> NoDup (pinOf <$> pins) ->
  (forall m, m <> mac -> (resolvePins (plcPorts p) pins).1 !! m = plcPins p !! m) ->
  Plugged (repin pins mac usable p).1.
Proof.
  intros Hp Hnd Hsame. pose proof (repin_cases pins mac usable p) as Hr.
  destruct (repin _ _ _ _) as [p' [mv|]]; simpl; [|by subst].
  destruct Hr as (target & Ht & Hown & _ & _ & ->).
  assert (target < length (plcTaken p))%nat as Hlt.
  { rewrite (pgTaken _ Hp). pose proof (resolvePins_spec (plcPorts p) pins) as [Hlen _ _].
    apply resolved_reserved, lookup_lt_Some in Ht. lia. }
  assert (forall m, plcAssigned p !! m = Some target -> m = mac) as Hm.
  { intros m Hm. eapply (pgApart _ Hp); [done|]. apply Hown, flag_total; [done|]. apply (pgHeld _ Hp). eauto. }
  pose proof (repinned_plugged _ _ _ _ Hp Hnd Hsame Ht Hm) as Hq.
  destruct (plcAssigned p !! mac) as [current|] eqn:Ec; [|done].
  apply (moved_plugged _ mac current target Hq); [done..|]. simpl. intros Hk.
  apply flag_total in Hk; [|done]. specialize (Hown Hk). congruence.
Qed.

Lemma placed_plugged a p : NoDup (pinOf <$> caPins a) -> Placed a p -> Plugged p.
Proof.
  intros Hpins Hr. unfold Placed in Hr. assert (Plugged (newClientPlacement a)) as H0 by by apply new_plugged.
  induction Hr as [|p q r Hstep _ IH]; [done|]. apply IH.
  destruct Hstep; auto using assign_plugged, repin_plugged, reset_plugged.
Qed.

Lemma repin_ports pins mac usable p : plcPorts (repin pins mac usable p).1 = plcPorts p.
Proof.
  unfold repin. destruct (resolvePins _ _) as [indexes reserved]. by repeat case_match.
Qed.

Lemma assign_ports mac usable p : plcPorts (assign mac usable p).1 = plcPorts p.
Proof. unfold assign. by repeat case_match. Qed.

Lemma placed_ports a p : Placed a p -> plcPorts p = caPorts a.
Proof.
  intros Hr. unfold Placed in Hr. assert (plcPorts (newClientPlacement a) = caPorts a) as E
    by (unfold newClientPlacement; by destruct (resolvePins _ _)).
  rewrite <- E. clear E. induction Hr as [|p q r Hstep _ IH]; [done|]. rewrite IH.
  destruct Hstep; [apply assign_ports|apply repin_ports|done].
Qed.

(** ** Lookups *)

Section pool.
Context (p : clientPlacement).
Hypothesis (Hp : Plugged p) (Hnd : NoDup (portOf <$> plcPorts p)).

Lemma lookup_some m port :
  lookup m p = Some port <-> exists i, plcAssigned p !! m = Some i /\ plcPorts p !! i = Some port.
Proof.
  unfold lookup. rewrite fmap_Some. split; intros (i & Hi & E); exists i; (split; [done|]).
  - assert (plcTaken p !! i = Some true) as Ht by (apply (pgHeld _ Hp); eauto).
    apply lookup_lt_Some in Ht. rewrite (pgTaken _ Hp) in Ht. apply lookup_lt_is_Some in Ht as [x Hx].
    rewrite list_lookup_total_alt, Hx in E. simpl in E. congruence.
  - by rewrite list_lookup_total_alt, E.
Qed.

Lemma port_index i j port : plcPorts p !! i = Some port -> plcPorts p !! j = Some port -> i = j.
Proof. intros Hi Hj. eapply (NoDup_lookup _ i j (portOf port)); [done|..]; by rewrite list_lookup_fmap, ?Hi, ?Hj. Qed.

(** A port is held by the client whose lookup gives it, when it is taken. *)
Lemma taken_held i port : plcPorts p !! i = Some port -> plcTaken p !! i = Some true <-> exists m, lookup m p = Some port.
Proof.
  intros Hi. rewrite (pgHeld _ Hp). split; intros (m & Hm); exists m.
  - apply lookup_some. by exists i.
  - apply lookup_some in Hm as (j & Hm & Hj). by rewrite (port_index _ _ _ Hi Hj).
Qed.

Lemma lookup_apart m1 m2 port : lookup m1 p = Some port -> lookup m2 p = Some port -> m1 = m2.
Proof.
  intros (i & H1 & Hi)%lookup_some (j & H2 & Hj)%lookup_some. rewrite (port_index _ _ _ Hi Hj) in H1.
  by eapply (pgApart _ Hp).
Qed.

Lemma reset_plugs port : port ∈ (reset p).2 <-> exists m, lookup m p = Some port.
Proof.
  unfold reset. simpl. rewrite list_elem_of_fmap. split.
  - intros (i & -> & [Ht Hi%elem_of_seq]%list_elem_of_filter). apply flag_total in Ht; [|lia].
    assert (is_Some (plcPorts p !! i)) as [x Hx] by (apply lookup_lt_is_Some; rewrite <- (pgTaken _ Hp); lia).
    rewrite list_lookup_total_alt, Hx. simpl. by apply (taken_held _ _ Hx).
  - intros (m & Hm). apply lookup_some in Hm as (i & Hm & Hi). exists i. split; [by rewrite list_lookup_total_alt, Hi|].
    assert (plcTaken p !! i = Some true) as Ht by (apply (pgHeld _ Hp); eauto). pose proof (lookup_lt_Some _ _ _ Ht).
    apply list_elem_of_filter. split; [by apply flag_total|]. apply elem_of_seq. lia.
Qed.

Lemma reset_once : NoDup (reset p).2.
Proof.
  unfold reset. simpl. apply NoDup_fmap_2_strong.
  - intros i j [_ Hi%elem_of_seq]%list_elem_of_filter [_ Hj%elem_of_seq]%list_elem_of_filter E.
    rewrite (pgTaken _ Hp) in *.
    assert (is_Some (plcPorts p !! i)) as [x Hx] by (apply lookup_lt_is_Some; lia).
    assert (is_Some (plcPorts p !! j)) as [y Hy] by (apply lookup_lt_is_Some; lia).
    rewrite !list_lookup_total_alt, Hx, Hy in E. simpl in E. subst. by eapply port_index.
  - apply NoDup_filter, NoDup_seq.
Qed.
End pool.

(** ** Properties *)

Lemma compiled_placed cfg b r a p :
  Compile (Some cfg) b = Some r -> a ∈ tyAttachments (reTopology r) -> Placed a p ->
  Plugged p /\ NoDup (portOf <$> plcPorts p) /\ plcPorts p = caPorts a.
Proof.
  intros Hr Ha Hp. destruct (compiled_attached _ _ _ _ Hr Ha) as (c & _ & _ & Hat).
  destruct (acPins _ _ _ _ Hat) as [Hpins _]. rewrite (placed_ports _ _ Hp). split_and!; [by eapply placed_plugged| |done].
  by destruct Hat.
Qed.


(** A port that an unpinned client may be given. *)
Definition openPort (usable : portUsable) (p : clientPlacement) (j : nat) (port : AttachmentPort) : Prop :=
  plcPorts p !! j = Some port /\ plcReserved p !! j = Some false /\ (forall m, lookup m p <> Some port) /\ usable port = true.

Section first_free.
Context (p : clientPlacement) (usable : portUsable).
Hypothesis (Hp : Plugged p) (Hnd : NoDup (portOf <$> plcPorts p)).

Lemma open_flags j : (j < length (plcPorts p))%nat ->
  openPort usable p j (plcPorts p !!! j) <->
  plcReserved p !!! j = false /\ plcTaken p !!! j = false /\ usable (plcPorts p !!! j) = true.
Proof.
  intros Hj. unfold openPort. apply lookup_lt_is_Some in Hj as Hx. destruct Hx as [x Hx].
  rewrite (list_lookup_total_correct _ _ _ Hx), !flag_total by (rewrite ?(pgTaken _ Hp), ?(pgReserved _ Hp); lia).
  assert (is_Some (plcTaken p !! j)) as [b Hb] by (apply lookup_lt_is_Some; rewrite (pgTaken _ Hp); lia).
  pose proof (taken_held p Hp Hnd j x Hx) as Hheld. rewrite Hb in *. destruct b; [|by naive_solver].
  destruct Hheld as [Hheld _]. destruct (Hheld eq_refl) as (m & Hm). naive_solver.
Qed.

Lemma firstFree_open i : firstFreePort usable p = Some i <->
  (exists port, openPort usable p i port) /\ forall j port, openPort usable p j port -> (i <= j)%nat.
Proof.
  assert (forall j port, openPort usable p j port -> (j < length (plcPorts p))%nat /\ plcPorts p !!! j = port) as Hin.
  { intros j port [Hj _]. split; [by eapply lookup_lt_Some|by apply list_lookup_total_correct]. }
  split.
  - intros (Hlt & Hr & Ht & Hu & Hfirst)%firstFree_some. split; [exists (plcPorts p !!! i); by apply open_flags|].
    intros j port Ho. destruct (Hin _ _ Ho) as [Hj <-]. apply open_flags in Ho as (? & ? & ?); [|done].
    destruct (decide (i <= j)%nat); [done|]. destruct (Hfirst j ltac:(lia)) as [?|[?|?]]; congruence.
  - intros [(port & Ho) Hleast]. destruct (firstFreePort usable p) as [k|] eqn:E.
    + apply firstFree_some in E as (Hlt & Hr & Ht & Hu & Hfirst).
      assert (openPort usable p k (plcPorts p !!! k)) as Hk%Hleast by by apply open_flags.
      destruct (Hin _ _ Ho) as [Hi <-]. apply open_flags in Ho as (? & ? & ?); [|done].
      destruct (decide (i = k)) as [->|]; [done|]. destruct (Hfirst i ltac:(lia)) as [?|[?|?]]; congruence.
    + destruct (Hin _ _ Ho) as [Hi <-]. apply open_flags in Ho as (? & ? & ?); [|done].
      destruct (firstFree_none _ _ E i Hi) as [?|[?|?]]; congruence.
Qed.

Lemma firstFree_shut : firstFreePort usable p = None <-> forall j port, ~ openPort usable p j port.
Proof.
  split.
  - intros E j port Ho. assert (exists i, firstFreePort usable p = Some i) as (i & Hi); [|congruence].
    destruct (firstFreePort usable p) eqn:E'; [by eauto|]. destruct Ho as (Hj & Hr & Hh & Hu).
    pose proof (lookup_lt_Some _ _ _ Hj) as Hlt. assert (openPort usable p j (plcPorts p !!! j)) as Ho.
    { rewrite (list_lookup_total_correct _ _ _ Hj). done. }
    apply open_flags in Ho as (? & ? & ?); [|done]. destruct (firstFree_none _ _ E' j Hlt) as [?|[?|?]]; congruence.
  - intros Hno. destruct (firstFreePort usable p) as [i|] eqn:E; [|done].
    apply firstFree_open in E as [(port & Ho) _]. by destruct (Hno i port).
Qed.
End first_free.

Lemma lookup_moved p q mac i m :
  plcPorts q = plcPorts p -> plcAssigned q = <[ mac := i ]> (plcAssigned p) ->
  lookup m q = if decide (m = mac) then Some (plcPorts p !!! i) else lookup m p.
Proof. intros E1 E2. unfold lookup. rewrite E1, E2. case_decide; [subst; by rewrite lookup_insert_eq|by rewrite lookup_insert_ne]. Qed.

(** On first sight a client is plugged into its pin, or without one into the
    first port of the pool that is not reserved, held or shut; it is refused
    only when its pin is shut or no such port is left.  A client that has a
    port keeps it, and no other client is touched. *)
Theorem new_client_port cfg b r a p mac usable :
  Compile (Some cfg) b = Some r -> a ∈ tyAttachments (reTopology r) -> Placed a p ->
  let '(p', given) := assign mac usable p in
  (forall m, m <> mac -> lookup m p' = lookup m p) /\
  lookup mac p' = match lookup mac p with Some port => Some port | None => given end /\
  match lookup mac p, plcPins p !! mac, given with
  | Some _, _, _ => given = None
  | None, Some i, Some port => caPorts a !! i = Some port /\ usable port = true /\ forall m, lookup m p <> Some port
  | None, Some i, None => exists port, caPorts a !! i = Some port /\ usable port = false
  | None, None, Some port =>
      exists i, openPort usable p i port /\ forall j port', openPort usable p j port' -> (i <= j)%nat
  | None, None, None => forall j port, ~ openPort usable p j port
  end.
Proof.
  intros Hr Ha Hpl. destruct (compiled_placed _ _ _ _ _ Hr Ha Hpl) as (Hp & Hnd & E). rewrite <- E.
  assert (lookup mac p = (fun i => plcPorts p !!! i) <$> plcAssigned p !! mac) as -> by done.
  unfold assign. destruct (plcAssigned p !! mac) as [held|] eqn:Em; simpl.
  { split_and!; [done| |done]. unfold lookup. by rewrite Em. }
  destruct (plcPins p !! mac) as [i|] eqn:Epin.
  - destruct (pgPins _ Hp _ _ Epin) as [_ [x Hx]%lookup_lt_is_Some]. rewrite (list_lookup_total_correct _ _ _ Hx).
    destruct (usable x) eqn:Eu; simpl; [|by split_and!; [|unfold lookup; rewrite Em|exists x]].
    split_and!; [intros m Hm; by rewrite (lookup_moved p _ mac i), decide_False|
      by rewrite (lookup_moved p _ mac i), decide_True, (list_lookup_total_correct _ _ _ Hx)|done|done|]. intros m Hm. 
    assert (plcTaken p !! i = Some true) by (apply (taken_held p Hp Hnd i x Hx); eauto).
    pose proof (free_own p mac i Hp Em Epin). congruence.
  - destruct (firstFreePort usable p) as [i|] eqn:Ef; simpl; [|by split_and!; [|unfold lookup; simpl; rewrite Em|apply firstFree_shut]].
    apply firstFree_open in Ef as [(x & Ho) Hleast]; [|done..]. pose proof (proj1 Ho) as Hx.
    rewrite (list_lookup_total_correct _ _ _ Hx). split_and!; [intros m Hm; by rewrite (lookup_moved p _ mac i), decide_False| |by exists i].
    by rewrite (lookup_moved p _ mac i), decide_True, (list_lookup_total_correct _ _ _ Hx).
Qed.

(** The port that pins give a client: the one its last pin names. *)
Definition pinnedTo (ports : list AttachmentPort) (pins : list AttachmentPin) (mac : string) (port : AttachmentPort) : Prop :=
  exists i, (resolvePins ports pins).1 !! mac = Some i /\ ports !! i = Some port.

(** The port a pin names, and what its being taken says. *)
Lemma target_port p pins mac target :
  Plugged p -> (resolvePins (plcPorts p) pins).1 !! mac = Some target ->
  exists x, plcPorts p !! target = Some x /\ plcPorts p !!! target = x /\
    (plcTaken p !!! target = true <-> plcTaken p !! target = Some true).
Proof.
  intros Hp Ht%resolved_reserved%lookup_lt_Some. pose proof (resolvePins_spec (plcPorts p) pins) as [Hl _ _].
  rewrite Hl in Ht. apply lookup_lt_is_Some in Ht as Hx. destruct Hx as [x Hx]. exists x.
  split_and!; [done|by apply list_lookup_total_correct|]. apply flag_total. by rewrite (pgTaken _ Hp).
Qed.

Lemma repin_refused p pins mac usable refusal :
  Plugged p -> NoDup (portOf <$> plcPorts p) -> (repin pins mac usable p).2 = inr refusal ->
  match refusal with
  | errAttachmentPinMissing => forall port, ~ pinnedTo (plcPorts p) pins mac port
  | ErrAttachmentPortOccupied => exists m port, pinnedTo (plcPorts p) pins mac port /\ m <> mac /\ lookup m p = Some port
  | ErrAttachmentPortShut => exists port, pinnedTo (plcPorts p) pins mac port /\ usable port = false
  end.
Proof.
  intros Hp Hnd. unfold repin, pinnedTo. pose proof (target_port p pins mac) as Htp.
  destruct (resolvePins (plcPorts p) pins) as [indexes reserved]. simpl in *.
  destruct (indexes !! mac) as [target|] eqn:Et; [|intros [= <-]; naive_solver].
  destruct (Htp target Hp eq_refl) as (x & Hx & -> & Hflag). destruct (_ && _) eqn:Eo; simpl.
  - intros [= <-]. apply andb_true_iff in Eo as [Etk%Hflag Eb%negb_true_iff%bool_decide_eq_false].
    apply (taken_held p Hp Hnd target x Hx) in Etk as (m & Hm). exists m, x. split_and!; [by exists target| |done].
    intros ->. apply lookup_some in Hm as (i & Hi & Hix); [|done]. by rewrite (port_index _ Hnd _ _ _ Hix Hx) in Hi.
  - destruct (usable x) eqn:Eu; simpl; [by destruct (plcAssigned p !! mac)|]. intros [= <-].
    exists x. split; [by exists target|done].
Qed.

Lemma repin_moved p pins mac usable move :
  Plugged p -> NoDup (portOf <$> plcPorts p) -> (repin pins mac usable p).2 = inl move ->
  pinnedTo (plcPorts p) pins mac (mvTo move) /\ usable (mvTo move) = true /\ mvFrom move = lookup mac p /\
  (forall m, m <> mac -> lookup m (repin pins mac usable p).1 = lookup m p /\ lookup m p <> Some (mvTo move)) /\
  lookup mac (repin pins mac usable p).1 = (fun _ => mvTo move) <$> lookup mac p.
Proof.
  intros Hp Hnd. pose proof (repin_cases pins mac usable p) as Hr. destruct (repin pins mac usable p) as [p' [mv|]]; [|done].
  simpl. intros [= <-]. destruct Hr as (target & Ht & Hown & Hu & -> & ->). simpl.
  destruct (target_port _ _ _ _ Hp Ht) as (x & Hx & Ex & Hflag). rewrite Ex in *.
  assert (forall m, m <> mac -> lookup m p <> Some x) as Hothers.
  { intros m Hm E. apply Hm. assert (plcTaken p !! target = Some true) as Htk by (apply (taken_held p Hp Hnd target x Hx); eauto).
    apply (lookup_apart p Hp Hnd _ _ x E), (lookup_some p Hp). exists target. split; [by apply Hown, Hflag|done]. }
  split_and!; [by exists target|done|done|intros m Hm; split; [|by apply Hothers]|]; destruct (plcAssigned p !! mac) as [current|] eqn:Ec.
  - by rewrite (lookup_moved p _ mac target), decide_False.
  - done.
  - rewrite (lookup_moved p _ mac target), decide_True, Ex by done. unfold lookup. by rewrite Ec.
  - unfold lookup. simpl. by rewrite Ec.
Qed.

(** A repin moves its own client and no other: the client leaves the port it
    has for the usable port of its pin, and stays unplugged if it was not seen
    yet.  It is refused, and nothing changes, when the client has no pin, when
    another client is on that port, or when the port is shut. *)
Theorem repin_moves_one cfg b r a p pins mac usable :
  Compile (Some cfg) b = Some r -> a ∈ tyAttachments (reTopology r) -> Placed a p ->
  match repin pins mac usable p with
  | (p', inl move) =>
      pinnedTo (caPorts a) pins mac (mvTo move) /\ usable (mvTo move) = true /\ mvFrom move = lookup mac p /\
      (forall m, m <> mac -> lookup m p' = lookup m p /\ lookup m p <> Some (mvTo move)) /\
      lookup mac p' = (fun _ => mvTo move) <$> lookup mac p
  | (p', inr refusal) => p' = p /\
      match refusal with
      | errAttachmentPinMissing => forall port, ~ pinnedTo (caPorts a) pins mac port
      | ErrAttachmentPortOccupied => exists m port, pinnedTo (caPorts a) pins mac port /\ m <> mac /\ lookup m p = Some port
      | ErrAttachmentPortShut => exists port, pinnedTo (caPorts a) pins mac port /\ usable port = false
      end
  end.
Proof.
  intros Hr Ha Hpl. destruct (compiled_placed _ _ _ _ _ Hr Ha Hpl) as (Hp & Hnd & E). rewrite <- E.
  pose proof (repin_cases pins mac usable p) as Hcases. pose proof (repin_moved p pins mac usable) as Hm.
  pose proof (repin_refused p pins mac usable) as Hf.
  destruct (repin pins mac usable p) as [p' [move|refusal]]; simpl in *; [by apply Hm|]. split; [done|by apply Hf].
Qed.

(** A repin takes over every pin of the recompiled scenario, not only the
    one it moves.  When an edit of the file pins a new client to a port that
    another client is on, the repin of a third client is accepted, and the new
    client then joins the other on its port. *)
Theorem edited_pin_doubles cfg b r a p pins mac move m c port usable :
  Compile (Some cfg) b = Some r -> a ∈ tyAttachments (reTopology r) -> Placed a p ->
  (repin pins mac usable p).2 = inl move -> pinnedTo (caPorts a) pins c port -> usable port = true ->
  lookup m p = Some port -> lookup c p = None -> m <> mac -> c <> mac ->
  let p' := (assign c usable (repin pins mac usable p).1).1 in
  lookup m p' = Some port /\ lookup c p' = Some port.
Proof.
  intros Hr Ha Hpl Hmove Hpin Hu Hm Hc Hmm Hcm. destruct (compiled_placed _ _ _ _ _ Hr Ha Hpl) as (Hp & Hnd & E).
  rewrite <- E in Hpin. destruct Hpin as (i & Hi & Hx). destruct (repin_moved _ _ _ _ _ Hp Hnd Hmove) as (_ & _ & _ & Hsame & _).
  destruct (Hsame m Hmm) as [Em _], (Hsame c Hcm) as [Ec _]. pose proof (repin_cases pins mac usable p) as Hcases.
  pose proof (repin_ports pins mac usable p) as Eports.
  destruct (repin pins mac usable p) as [q [mv|]]; [|done]. simpl in *. destruct Hcases as (target & _ & _ & _ & _ & Eq).
  assert (plcPins q !! c = Some i) as Hqc by (rewrite Eq; by case_match).
  assert (plcAssigned q !! c = None) as Hqn by (rewrite Hc in Ec; by apply fmap_None in Ec).
  unfold assign. rewrite Hqn, Hqc, Eports, (list_lookup_total_correct _ _ _ Hx), Hu. simpl.
  assert (m <> c) as Hne by congruence.
  split; [by rewrite (lookup_moved q _ c i), decide_False by done; rewrite Em|].
  by rewrite (lookup_moved q _ c i), decide_True, Eports, (list_lookup_total_correct _ _ _ Hx) by done.
Qed.

(** ** The pool of the compiler's tests *)

Definition testPool : CompiledAttachment :=
  default (mkCompiledAttachment "" "" [] []) (head (tyAttachments (reTopology poolReport))).

Definition allUp : portUsable := fun _ => true.
Definition onPort (p : clientPlacement) (mac : string) : string := from_option atInterface "" (lookup mac p).

(** A client took the free port before the pinned one arrived. *)
Definition testPlacement : clientPlacement := (assign "02:00:00:00:00:01" allUp (newClientPlacement testPool)).1.

(** A repin whose scenario pins a new client to the port that is taken. *)
Definition editedPins : list AttachmentPin :=
  [mkAttachmentPin "02:00:00:00:00:0c" "MED-ACC-SW01" "GigabitEthernet1/0/20";
   mkAttachmentPin "02:00:00:00:00:0b" "MED-ACC-SW01" "GigabitEthernet1/0/21"].
Definition movedPins : list AttachmentPin := [mkAttachmentPin "02:00:00:00:00:09" "MED-ACC-SW01" "GigabitEthernet1/0/20"].

Lemma test_compiled : Compile (Some poolConfig) poolBinding = Some poolReport.
Proof. vm_compute. reflexivity. Defined.

Lemma test_attached : testPool ∈ tyAttachments (reTopology poolReport).
Proof. vm_compute. left. Defined.

Lemma test_placed : Placed testPool testPlacement.
Proof. apply rtc_once. apply StepAssign. Defined.


Lemma new_client_port_witness :
  (assign "02:00:00:00:00:02" allUp testPlacement).2 = None /\
  forall j port, ~ openPort allUp testPlacement j port.
Proof.
  assert ((assign "02:00:00:00:00:02" allUp testPlacement).2 = None) as E by (vm_compute; reflexivity). split; [done|].
  pose proof (new_client_port _ _ _ _ _ "02:00:00:00:00:02"%string allUp test_compiled test_attached test_placed) as H.
  destruct (assign _ allUp testPlacement) as [p' given]. simpl in E. subst given. destruct H as (_ & _ & H). exact H.
Defined.

Lemma repin_moves_one_witness :
  (repin movedPins "02:00:00:00:00:09" allUp testPlacement).2 = inr ErrAttachmentPortOccupied /\
  exists m port, m <> "02:00:00:00:00:09"%string /\ lookup m testPlacement = Some port.
Proof.
  split; [vm_compute; reflexivity|].
  pose proof (repin_moves_one _ _ _ _ _ movedPins "02:00:00:00:00:09"%string allUp test_compiled test_attached test_placed) as H.
  destruct (repin movedPins "02:00:00:00:00:09" allUp testPlacement) as [p' r] eqn:E.
  assert (r = inr ErrAttachmentPortOccupied) as -> by (apply (f_equal snd) in E; vm_compute in E; congruence).
  destruct H as (_ & m & port & _ & Hm & Hp). exists m, port. by split.
Defined.

Lemma edited_pin_doubles_witness :
  let p' := (assign "02:00:00:00:00:0c" allUp (repin editedPins "02:00:00:00:00:0b" allUp testPlacement).1).1 in
  onPort p' "02:00:00:00:00:01" = "GigabitEthernet1/0/20"%string /\ lookup "02:00:00:00:00:01" p' = lookup "02:00:00:00:00:0c" p'.
Proof.
  cbv zeta. split; [vm_compute; reflexivity|].
  destruct (repin editedPins "02:00:00:00:00:0b" allUp testPlacement).2 as [move|] eqn:E; [|exfalso; revert E; vm_compute; discriminate].
  destruct (edited_pin_doubles _ _ _ _ _ editedPins "02:00:00:00:00:0b"%string move "02:00:00:00:00:01"%string "02:00:00:00:00:0c"%string
    (mkAttachmentPort "MED-ACC-SW01" "GigabitEthernet1/0/20" 210 "med-data") allUp test_compiled test_attached test_placed E)
    as [H1 H2]; [|reflexivity|vm_compute; reflexivity|vm_compute; reflexivity|discriminate|discriminate|].
  - exists 0%nat. split; vm_compute; reflexivity.
  - by rewrite H1, H2.
Defined.
