(* ===== verification/FabricRuntime.v ===== *)
(** * The fabric at run time

    [protocols/fabric_runtime.go], [fabric_runtime_ipv6.go],
    [fabric_egress.go], [discovery_egress.go] and the frame a session
    transmits ([finalizeEgressFrame] of [stack_threads.go]): the compiled
    topology as the packet handlers ask it, over the live device state.

    A [*config.Device] is the index of the device in the configuration; the
    table of device state is [None] until it is bound.  Go ranges over
    [interfacesByAddr] in any order: the order is the parameter [ranged]. *)

From S2P Require Import Prelude.
From S2P Require Import Netip.
From S2P Require Import DeviceTypes.
From S2P Require Import DeviceStore.
From S2P Require Import Safeconv.
From S2P Require Import Bytes.
From S2P Require Import Packet.
From S2P Require Import Vlan.
From S2P Require Import NetipParse.
From S2P Require Import DeviceClass.
From S2P Require Import FabricTypes.
From S2P Require Import Fabric.
From S2P Require Import FabricDhcp.
From S2P Require Import Placement.

Open Scope Z_scope.

(** ** State *)

(** What the runtime reads of a device. *)
Record netDevice := mkNetDevice { ndConfig : config.Device; ndMAC : list Z; ndIPs : list (list Z) }.

Record fabricEndpoint := mkEndpoint { feDevice : nat; feInterface : string; feNetwork : string; feMAC : list Z }.

Record fabricDHCPRelay := mkFabricRelay { fdScope : DHCPScope; fdMask : option (Z * Z); fdDevice : option nat }.

Record fabricRouter := mkFabricRouter { fwDevice : nat; fwAttachmentIP : Addr; fwAttachmentInterface : string; fwMAC : list Z }.

Record fabricRoute := mkFabricRoute { fuDestination : Prefix; fuVia : string; fuNextHop : Addr; fuConnected : bool }.

Record fabricResolution := mkResolution {
  rlDevice : nat; rlReplySourceMAC : list Z; rlRouted : bool; rlFirstHopIP : Addr; rlFirstHopMAC : list Z;
  rlFirstHopDevice : option nat; rlEgressNetwork : string; rlRouteVia : string
}.

Record fabricNotificationEgress := mkNotificationEgress { fnDevice : nat; fnSource : Addr; fnTarget : Addr }.

Record fabricRuntime := mkRuntime {
  frTopology : Topology;
  frAttachmentNetwork : string;
  frDevices : list netDevice;
  frDevicesByName : gmap string nat;
  frInterfacesByAddr : gmap Addr fabricEndpoint;
  frInterfacesByAddrV6 : gmap Addr fabricEndpoint;
  frAttachmentRouters : list fabricRouter;
  frRoutesByDevice : gmap nat (list fabricRoute);
  frAttachmentDHCP : list (option nat);
  frDhcpRelays : gmap nat fabricDHCPRelay;
  frDeviceStates : option (gmap nat Store);
  frPlacement : option clientPlacement;
  frHostMAC : list Z
}.
#[export] Instance fabricRuntime_rebuild : Rebuild fabricRuntime := fun r =>
  mkRuntime (frTopology r) (frAttachmentNetwork r) (frDevices r) (frDevicesByName r) (frInterfacesByAddr r)
    (frInterfacesByAddrV6 r) (frAttachmentRouters r) (frRoutesByDevice r) (frAttachmentDHCP r) (frDhcpRelays r)
    (frDeviceStates r) (frPlacement r) (frHostMAC r).

Definition frBinding (r : fabricRuntime) : CompiledBinding := tyBinding (frTopology r).

(** ** The indexes *)

Definition macOf (devices : list netDevice) (device : nat) : list Z := from_option ndMAC [] (devices !! device).
Definition nameOf (devices : list netDevice) (device : nat) : string :=
  from_option (fun d => config.dvName (ndConfig d)) ""%string (devices !! device).

(** A name used twice names the last device. *)
Definition indexDevices (devices : list netDevice) : gmap string nat :=
  foldl (fun m '(i, d) => <[ config.dvName (ndConfig d) := i ]> m) ∅ (imap pair devices).

Definition indexInterfaces (devices : list netDevice) (byName : gmap string nat) (interfaces : list Interface)
    : gmap Addr fabricEndpoint :=
  foldl (fun m iface =>
    match byName !! itDevice iface with
    | None => m
    | Some device =>
        <[ pfxAddr (itAddress iface) := mkEndpoint device (itName iface) (itNetwork iface) (macOf devices device) ]> m
    end) ∅ interfaces.

Definition indexInterfacesV6 (devices : list netDevice) (byName : gmap string nat) (interfaces : list Interface)
    : gmap Addr fabricEndpoint :=
  foldl (fun m iface =>
    match byName !! itDevice iface with
    | None => m
    | Some device =>
        if PrefixIsValid (itAddressV6 iface) then
          <[ pfxAddr (itAddressV6 iface) := mkEndpoint device (itName iface) (itNetwork iface) (macOf devices device) ]> m
        else m
    end) ∅ interfaces.

Definition indexAttachmentRouters (devices : list netDevice) (byName : gmap string nat) (network : string)
    (interfaces : list Interface) : list fabricRouter :=
  omap (fun iface =>
    match byName !! itDevice iface with
    | None => None
    | Some device =>
        if negb (bool_decide (itNetwork iface = network)) ||
           negb (from_option (fun d => routesIP (ndConfig d)) false (devices !! device)) then None
        else Some (mkFabricRouter device (pfxAddr (itAddress iface)) (itName iface) (macOf devices device))
    end) interfaces.

Definition indexRoutes (byName : gmap string nat) (routes : list Route) : gmap nat (list fabricRoute) :=
  foldl (fun m route =>
    match byName !! roDevice route with
    | None => m
    | Some device =>
        let added := mkFabricRoute (roDestination route) (roVia route) (roNextHop route) (roConnected route) in
        <[ device := default [] (m !! device) ++ [added] ]> m
    end) ∅ routes.

Definition networkNamed (networks : list Network) (name : string) : option Network :=
  List.find (fun n => bool_decide (ntName n = name)) networks.

(** [net.CIDRMask] of the attachment network: the length and the width. *)
Definition attachmentMask (networks : list Network) (network : string) : option (Z * Z) :=
  (fun n => (pfxBits (ntPrefix n), BitLen (pfxAddr (ntPrefix n)))) <$> networkNamed networks network.

(** The relays are filed by server; one for a server that is no device is
    filed under the nil pointer, which no query reads. *)
Definition indexAttachmentDHCP (byName : gmap string nat) (networks : list Network) (network : string) (scopes : list DHCPScope)
    : list (option nat) * gmap nat fabricDHCPRelay :=
  foldl (fun '(servers, relays) scope =>
    if negb (bool_decide (dsNetwork scope = network)) then (servers, relays)
    else
      let server := byName !! dsDevice scope in
      (servers ++ [server],
       match server with
       | Some device =>
           if bool_decide (drDevice (dsRelay scope) = ""%string) then relays
           else <[ device := mkFabricRelay scope (attachmentMask networks network) (byName !! drDevice (dsRelay scope)) ]> relays
       | None => relays
       end)) ([], ∅) scopes.

(** [hostMAC] is the address of the bound interface of the host. *)
Definition newFabricRuntime (topology : Topology) (devices : list netDevice) (hostMAC : list Z) : fabricRuntime :=
  let byName := indexDevices devices in
  let network := cbNetwork (tyBinding topology) in
  let '(servers, relays) := indexAttachmentDHCP byName (tyNetworks topology) network (tyDHCPScopes topology) in
  mkRuntime topology network devices byName
    (indexInterfaces devices byName (tyInterfaces topology)) (indexInterfacesV6 devices byName (tyInterfaces topology))
    (indexAttachmentRouters devices byName network (tyInterfaces topology)) (indexRoutes byName (tyRoutes topology))
    servers relays None
    (foldl (fun placement attachment =>
       if bool_decide (caName attachment = bnAttachment (cbBinding (tyBinding topology))) then Some (newClientPlacement attachment)
       else placement) None (tyAttachments topology))
    hostMAC.

Definition bindDeviceStates (states : gmap nat Store) (r : fabricRuntime) : fabricRuntime := r <| frDeviceStates := Some states |>.

(** ** Frames of the attachment *)

Definition acceptsFrame (r : option fabricRuntime) (vlan : Z) (tagged : bool) : bool :=
  match r with
  | None => true
  | Some r =>
      let mode := bnMode (cbBinding (frBinding r)) in
      if bool_decide (mode = ModeDirect) || bool_decide (mode = ModeAccess) then negb tagged && (vlan <=? 0)
      else if bool_decide (mode = ModeTrunk) then tagged && (vlan =? bnAccessVLAN (cbBinding (frBinding r)))
      else false
  end.

Definition IPProtocolUDP : Z := 17.

(** [config.ValidIPv4Host] *)
Definition ValidIPv4Host (prefix : Prefix) (address : Addr) : bool :=
  if negb (PrefixIsValid prefix) || negb (Is4 (pfxAddr prefix)) || negb (Contains prefix address) then false
  else if 30 <? pfxBits prefix then true
  else
    match pfxAddr (Masked prefix), address with
    | Addr4 network, Addr4 host =>
        negb (host =? network) && negb (host =? Z.lor network (Z.shiftr 0xffffffff (pfxBits prefix)))
    | _, _ => false
    end.

Definition acceptsIPv4Source (r : option fabricRuntime) (sourceIP destinationIP : list Z) (protocol : Z) : bool :=
  match r with
  | None => true
  | Some r =>
      let '(source, sourceOK) := ipToAddr sourceIP in
      let '(destination, destinationOK) := ipToAddr destinationIP in
      if negb sourceOK || negb destinationOK then false
      else if bool_decide (source = Addr4 0) then
        (protocol =? IPProtocolUDP) && bool_decide (destination = AddrFrom4 255 255 255 255)
      else if negb (Is4 source) || IsMulticast source then false
      else
        match networkNamed (tyNetworks (frTopology r)) (frAttachmentNetwork r) with
        | Some network => ValidIPv4Host (ntPrefix network) source
        | None => false
        end
  end.

(** ** Live device state *)

Section runtime.
Context (ranged : gmap Addr fabricEndpoint -> list fabricEndpoint) (r : fabricRuntime).

(** The interface of that name in a snapshot of the device. *)
Definition liveInterface (store : Store) (name : string) : option DeviceTypes.Interface :=
  List.find (fun iface => bool_decide (ifName iface = name)) (nwInterfaces (spNetwork (storeSnapshot store))).

Definition interfaceAvailable (device : nat) (name : string) : bool :=
  match frDeviceStates r with
  | None => true
  | Some states =>
      match states !! device with
      | None => false
      | Some store => from_option (fun iface => ifAdminUp iface && ifOperUp iface) false (liveInterface store name)
      end
  end.

Definition portAdminUp (port : AttachmentPort) : bool :=
  match frDeviceStates r with
  | None => true
  | Some states =>
      match frDevicesByName r !! atDevice port ≫= (states !!.) with
      | None => false
      | Some store => from_option ifAdminUp false (liveInterface store (atInterface port))
      end
  end.

(** The address and whether there is one. *)
Definition interfaceAddress (device : nat) (name : string) (fallback : Addr) : option Addr :=
  let valid a := if bool_decide (a = AddrZero) then None else Some a in
  match frDeviceStates r ≫= (.!! device) with
  | Some store =>
      iface ← liveInterface store name;
      if PrefixIsValid (ifAddress iface) then Some (pfxAddr (ifAddress iface)) else None
  | None => valid fallback
  end.

(** An interface of the device carries the address now. *)
Definition carriesAddress (states : gmap nat Store) (address : Addr) (endpoint : fabricEndpoint) : bool :=
  match states !! feDevice endpoint with
  | None => false
  | Some store =>
      existsb (fun iface => bool_decide (ifName iface = feInterface endpoint) && PrefixIsValid (ifAddress iface) &&
                            bool_decide (pfxAddr (ifAddress iface) = address))
        (nwInterfaces (spNetwork (storeSnapshot store)))
  end.

Definition endpointForAddress (address : Addr) : option fabricEndpoint :=
  match frDeviceStates r with
  | None => frInterfacesByAddr r !! address
  | Some states => List.find (carriesAddress states address) (ranged (frInterfacesByAddr r))
  end.

(** ** Routes *)

(** The addresses held by one interface only, and the device that holds each. *)
Definition addressOwners (states : gmap nat Store) : gmap Addr string :=
  let held := concat ((fun '(device, store) =>
    omap (fun iface => if PrefixIsValid (ifAddress iface) then Some (pfxAddr (ifAddress iface), nameOf (frDevices r) device) else None)
      (nwInterfaces (spNetwork (storeSnapshot store)))) <$> map_to_list states) in
  list_to_map (filter (fun '(address, _) => length (filter (fun x => x = address) held.*1) = 1%nat) held).

Definition validateStaticRoute (states : gmap nat Store) (device : nat) (route : DeviceTypes.Route) : bool :=
  match states !! device with
  | None => false
  | Some store =>
      let interfaces := foldl (fun m iface =>
        <[ ifName iface := mkInterface (nameOf (frDevices r) device) (ifName iface) (ifNetwork iface) (ifAddress iface) PrefixZero ]> m)
        ∅ (nwInterfaces (spNetwork (storeSnapshot store))) in
      match ValidateStaticRoute
              (mkRouteSpec (nameOf (frDevices r) device) (prefixString (rtDestination route)) (rtVia route)
                 (addrString (rtNextHop route))) interfaces (addressOwners states) with
      | inl _ => true
      | inr _ => false
      end
  end.

Definition routesFor (device : nat) : list fabricRoute :=
  match frDeviceStates r with
  | None => default [] (frRoutesByDevice r !! device)
  | Some states =>
      match states !! device with
      | None => []
      | Some store =>
          (fun route => mkFabricRoute (rtDestination route) (rtVia route) (rtNextHop route) (rtConnected route)) <$>
            nwRoutes (spNetwork (storeSnapshot store))
      end
  end.

Definition routeAvailable (device : nat) (route : fabricRoute) : bool :=
  if negb (interfaceAvailable device (fuVia route)) then false
  else if match frDeviceStates r with
          | Some states => negb (fuConnected route) &&
              negb (validateStaticRoute states device
                      (DeviceTypes.mkRoute (fuDestination route) (fuVia route) (fuNextHop route) false))
          | None => false
          end then false
  else if fuConnected route then true
  else
    match endpointForAddress (fuNextHop route) with
    | None => false
    | Some nextHop => negb (bool_decide (feDevice nextHop = device)) && interfaceAvailable (feDevice nextHop) (feInterface nextHop)
    end.

(** The best route so far, -1 bits before there is one. *)
Definition bestBits {A} (best : option (A * fabricRoute)) : Z := from_option (fun x => pfxBits (fuDestination x.2)) (-1) best.

(** The attachment router the frame was sent to that is in service. *)
Definition routerTakes (ingressMAC : list Z) (router : fabricRouter) : bool :=
  bool_decide (fwMAC router = ingressMAC) && interfaceAvailable (fwDevice router) (fwAttachmentInterface router).

Definition routeFor (dst : Addr) (ingressMAC : list Z) : option (fabricRouter * fabricRoute) :=
  foldl (fun best router =>
    if negb (routerTakes ingressMAC router) then best
    else foldl (fun best route =>
      if routeAvailable (fwDevice router) route && Contains (fuDestination route) dst &&
         (bestBits best <? pfxBits (fuDestination route))
      then Some (router, route) else best) best (routesFor (fwDevice router))) None (frAttachmentRouters r).

Definition bestRoute (device : nat) (dst : Addr) : option fabricRoute :=
  snd <$> foldl (fun best route =>
    if (bestBits best <? pfxBits (fuDestination route)) && Contains (fuDestination route) dst && routeAvailable device route
    then Some (device, route) else best) None (routesFor device).

(** ** Where a packet goes *)

Definition resolveIPv4 (dst : Addr) (ingressMAC : list Z) : option fabricResolution :=
  if negb (Is4 dst) then None
  else
    endpoint ← endpointForAddress dst;
    if negb (interfaceAvailable (feDevice endpoint) (feInterface endpoint)) then None
    else if bool_decide (feNetwork endpoint = frAttachmentNetwork r) then
      Some (mkResolution (feDevice endpoint) (feMAC endpoint) false AddrZero [] None (feNetwork endpoint) "")
    else
      '(router, route) ← routeFor dst ingressMAC;
      firstHopIP ← interfaceAddress (fwDevice router) (fwAttachmentInterface router) (fwAttachmentIP router);
      Some (mkResolution (feDevice endpoint) (fwMAC router) true firstHopIP (fwMAC router) (Some (fwDevice router))
              (feNetwork endpoint) (fuVia route)).

Definition resolveARP (ip : list Z) : option nat :=
  let '(addr, ok) := ipToAddr ip in
  if negb ok then None
  else
    endpoint ← endpointForAddress addr;
    if negb (bool_decide (feNetwork endpoint = frAttachmentNetwork r)) ||
       negb (interfaceAvailable (feDevice endpoint) (feInterface endpoint)) then None
    else Some (feDevice endpoint).

Definition deviceOwnsIPv4 (device : nat) (ip : list Z) : bool :=
  let '(addr, ok) := ipToAddr ip in
  if negb ok then false
  else match endpointForAddress addr with Some endpoint => bool_decide (feDevice endpoint = device) | None => false end.

(** The first router of the device whose connected route holds the destination
    decides; the address it sends from may be gone ([Some None]). *)
Fixpoint egressFrom (routerDevice : nat) (destination : Addr) (routers : list fabricRouter) : option (option fabricNotificationEgress) :=
  match routers with
  | [] => None
  | router :: routers =>
      if negb (bool_decide (fwDevice router = routerDevice)) ||
         negb (interfaceAvailable (fwDevice router) (fwAttachmentInterface router)) then egressFrom routerDevice destination routers
      else if existsb (fun route => fuConnected route && bool_decide (fuVia route = fwAttachmentInterface router) &&
                                    Contains (fuDestination route) destination) (routesFor (fwDevice router)) then
        Some ((fun source => mkNotificationEgress (fwDevice router) source destination) <$>
                interfaceAddress (fwDevice router) (fwAttachmentInterface router) (fwAttachmentIP router))
      else egressFrom routerDevice destination routers
  end.

Definition notificationEgress (routerDevice : option nat) (destination : Addr) : option fabricNotificationEgress :=
  match routerDevice with
  | None => None
  | Some device => if negb (Is4 destination) then None else mjoin (egressFrom device destination (frAttachmentRouters r))
  end.

(** ** Who is on the link of the client *)

Definition deviceOnAttachment (device : nat) : bool :=
  existsb (fun iface => bool_decide (itDevice iface = nameOf (frDevices r) device) &&
                        bool_decide (itNetwork iface = frAttachmentNetwork r) && interfaceAvailable device (itName iface))
    (tyInterfaces (frTopology r)).

(** The outer [None] is a nil pointer read. *)
Definition dhcpServerReachable (server : nat) : option bool :=
  match frDhcpRelays r !! server with
  | None => Some (deviceOnAttachment server)
  | Some relay =>
      device ← fdDevice relay;
      Some (match resolveIPv4 (drServer (dsRelay (fdScope relay))) (macOf (frDevices r) device) with
            | Some resolution => bool_decide (rlDevice resolution = server)
            | None => false
            end)
  end.

Definition advertisesAtClient (device : nat) : bool :=
  match frPlacement r with
  | Some placement =>
      match advertisedPort portAdminUp placement with
      | Some port => bool_decide (atDevice port = nameOf (frDevices r) device)
      | None => false
      end
  | None => deviceOnAttachment device
  end.

Definition onClientLink (device : nat) : bool :=
  match frPlacement r with
  | Some placement => if advertisedPort portAdminUp placement then deviceOnAttachment device else false
  | None => deviceOnAttachment device
  end.
End runtime.

(** ** Frames that leave the fabric *)

Definition ipv4TTLOffset : nat := 8.
Definition ipv4ChecksumOffset : nat := 10.
Definition ipv4MinHeaderLen : nat := 20.
Definition ipv4IHLMask : Z := 0x0f.
Definition ipv4IHLWordLen : Z := 4.
Definition ipv4SourceOffset : nat := 12.
Definition ipv4SourceEnd : nat := ipv4SourceOffset + SizeOfIP.

Section egress.
Context (ranged : gmap Addr fabricEndpoint -> list fabricEndpoint) (r : fabricRuntime).

(** Router after router towards the source; the bound ends a loop. *)
Fixpoint hopLoop (fuel : nat) (origin : nat) (source : Addr) (route : fabricRoute) (hops : Z) : Z :=
  match fuel with
  | O => hops
  | S fuel =>
      if fuConnected route then hops
      else
        match endpointForAddress ranged r (fuNextHop route) with
        | None => hops
        | Some next =>
            if bool_decide (feDevice next = origin) then hops
            else
              match bestRoute ranged r (feDevice next) source with
              | None => hops
              | Some route => hopLoop fuel origin source route (hops + 1)
              end
        end
  end.

Definition forwardingHops (source : Addr) (routerMAC : list Z) : Z :=
  match endpointForAddress ranged r source with
  | None => 0
  | Some origin =>
      if bool_decide (feNetwork origin = frAttachmentNetwork r) then 0
      else
        match routeFor ranged r source routerMAC with
        | None => 0
        | Some (router, route) =>
            if bool_decide (fwDevice router = feDevice origin) then 0
            else hopLoop (size (frDevicesByName r)) (feDevice origin) source route 1
        end
  end.

(** [None] is the error of an expired TTL. *)
Definition forwardIPv4 (frame : list Z) : option (list Z) :=
  if bool_decide (length frame < ethHeaderLen + ipv4MinHeaderLen)%nat || negb (etherTypeOf frame =? EtherTypeIP) then Some frame
  else
    let header := drop ethHeaderLen frame in
    let headerLen := Z.to_nat (Z.land (byteAt header 0) ipv4IHLMask * ipv4IHLWordLen) in
    if bool_decide (headerLen < ipv4MinHeaderLen)%nat || bool_decide (length header < headerLen)%nat then Some frame
    else
      let source := AddrFromSlice (take SizeOfIP (drop ipv4SourceOffset header)) in
      let hops := forwardingHops source (take SizeOfMac (drop SizeOfMac frame)) in
      if hops =? 0 then Some frame
      else if byteAt header ipv4TTLOffset <=? hops then None
      else
        let header := take headerLen header in
        let header := overwrite header ipv4TTLOffset [(byteAt header ipv4TTLOffset - Uint8 hops) mod 2 ^ 8] in
        let header := overwrite header ipv4ChecksumOffset (big16 0) in
        let header := overwrite header ipv4ChecksumOffset (big16 (CalculateIPChecksum header)) in
        Some (overwrite frame ethHeaderLen header).

(** ** Discovery advertisements *)

Definition LLDPMulticastMAC : list Z := [0x01; 0x80; 0xc2; 0; 0; 0x0e].
Definition STPMulticastMAC : list Z := [0x01; 0x80; 0xc2; 0; 0; 0].
Definition CDPMulticastMAC : list Z := [0x01; 0; 0x0c; 0xcc; 0xcc; 0xcc].
Definition EDPMulticastMAC : list Z := [0; 0xe0; 0x2b; 0; 0; 0].
Definition FDPMulticastMAC : list Z := [0x01; 0xe0; 0x52; 0xcc; 0xcc; 0xcc].

Definition isDiscoveryAdvertisement (frame : list Z) : bool :=
  if bool_decide (length frame < SizeOfMac)%nat then false
  else bool_decide (take SizeOfMac frame ∈ [LLDPMulticastMAC; STPMulticastMAC; CDPMulticastMAC; EDPMulticastMAC; FDPMulticastMAC]).
End egress.

Inductive egressErr :=
| errDiscoveryIdentity
| errDiscoveryOffAttachment
| errFrameLength
| errTruncatedTag
| errFabricTTLExpired.

Section stack.
Context (ranged : gmap Addr fabricEndpoint -> list fabricEndpoint) (fabric : option fabricRuntime).

(** A packet without a device has no valid identity. *)
Definition validateDiscoveryEgress (pkt : Packet) : option egressErr :=
  match fabric with
  | None => None
  | Some r =>
      if negb (isDiscoveryAdvertisement (pkBuffer pkt)) then None
      else
        match pkDevice pkt with
        | None => Some errDiscoveryIdentity
        | Some device => if advertisesAtClient r device then None else Some errDiscoveryOffAttachment
        end
  end.

(** The frame to transmit and the VLAN it is tagged for, -1 for none. *)
Definition finalizeEgressFrame (pkt : Packet) : (list Z * Z) + egressErr :=
  match validateDiscoveryEgress pkt with
  | Some err => inr err
  | None =>
      let length := if pkLength pkt =? 0 then Z.of_nat (length (pkBuffer pkt)) else pkLength pkt in
      if (length <? Z.of_nat ethHeaderLen) || (Z.of_nat (List.length (pkBuffer pkt)) <? length) then inr errFrameLength
      else
        let frame := take (Z.to_nat length) (pkBuffer pkt) in
        match fabric with
        | Some r =>
            match stripDot1Q frame with
            | None => inr errTruncatedTag
            | Some untagged =>
                match forwardIPv4 ranged r untagged with
                | None => inr errFabricTTLExpired
                | Some untagged =>
                    if negb (cbWireTagged (frBinding r)) then inl (untagged, -1)
                    else
                      let physicalVLAN := bnAccessVLAN (cbBinding (frBinding r)) in
                      inl (insertDot1Q untagged physicalVLAN, physicalVLAN)
                end
            end
        | None => inl (if 0 <? pkVLAN pkt then insertDot1Q frame (pkVLAN pkt) else frame, pkVLAN pkt)
        end
  end.

(** The port a discovery advertisement of the device names. *)
Definition advertisedPortName (device : config.Device) (authored fallback : string) : string :=
  let own :=
    match fabric with
    | Some r =>
        match frPlacement r ≫= advertisedPort (portAdminUp r) with
        | Some port => if bool_decide (atDevice port = config.dvName device) then Some (atInterface port) else None
        | None => None
        end
    | None => None
    end in
  match own with
  | Some name => name
  | None =>
      if negb (bool_decide (authored = ""%string)) then authored
      else
        match config.dvInterfaces device with
        | iface :: _ => if negb (bool_decide (config.ifName iface = ""%string)) then config.ifName iface else fallback
        | [] => fallback
        end
  end.
End stack.

(** ** IPv6 *)

Definition eui64Marker0 : Z := 0xff.
Definition eui64Marker1 : Z := 0xfe.
Definition eui64UniversalLocalBit : Z := 0x02.

(** [net.IP.IsLinkLocalUnicast] of an address that is not IPv4 *)
Definition isLinkLocalIP (ip : list Z) : bool :=
  bool_decide (length ip = 16%nat) && (byteAt ip 0 =? 0xfe) && (Z.land (byteAt ip 1) 0xc0 =? 0x80).

(** The authored link-local address, or the one derived from the MAC; [[]] is nil. *)
Definition linkLocalAddress (device : netDevice) : list Z :=
  match List.find (fun ip => bool_decide (To4 ip = []) && isLinkLocalIP ip) (ndIPs device) with
  | Some ip => ip
  | None =>
      match ndMAC device with
      | [a; b; c; d; e; f] =>
          [0xfe; 0x80; 0; 0; 0; 0; 0; 0; Z.lxor a eui64UniversalLocalBit; b; c; eui64Marker0; eui64Marker1; d; e; f]
      | _ => []
      end
  end.

Definition firstIPv6Address (device : netDevice) : list Z :=
  default [] (List.find (fun ip => bool_decide (To4 ip = []) && bool_decide (length ip = 16%nat)) (ndIPs device)).

Section ipv6.
Context (r : fabricRuntime).

Definition acceptsIPv6Source (sourceIP destinationIP : list Z) : bool :=
  let source := AddrFromSlice sourceIP in
  let destination := AddrFromSlice destinationIP in
  if bool_decide (destination = AddrZero) || negb (Is6 source) || Is4In6 source || IsMulticast source then false
  else if IsUnspecified source then IsMulticast destination
  else if IsLinkLocalUnicast source then true
  else
    match networkNamed (tyNetworks (frTopology r)) (frAttachmentNetwork r) with
    | Some network => PrefixIsValid (ntPrefixV6 network) && Contains (ntPrefixV6 network) source
    | None => false
    end.

Definition resolveLinkLocal (target : Addr) : option nat :=
  iface ← List.find (fun iface =>
    bool_decide (itNetwork iface = frAttachmentNetwork r) &&
    match frDevicesByName r !! itDevice iface with
    | None => false
    | Some device =>
        bool_decide (AddrFromSlice (from_option linkLocalAddress [] (frDevices r !! device)) = target) &&
        interfaceAvailable r device (itName iface) &&
        (PrefixIsValid (itAddressV6 iface) || negb (bool_decide (from_option firstIPv6Address [] (frDevices r !! device) = [])))
    end) (tyInterfaces (frTopology r));
  frDevicesByName r !! itDevice iface.

Definition staticRouteV6Available (device : nat) (route : Route) : bool :=
  match frInterfacesByAddrV6 r !! roNextHop route with
  | None => false
  | Some nextHop =>
      negb (bool_decide (feDevice nextHop = device)) && interfaceAvailable r device (roVia route) &&
      interfaceAvailable r (feDevice nextHop) (feInterface nextHop)
  end.

(** The best router so far, its prefix length and the interface it forwards by. *)
Definition bestV6 (best : option (fabricRouter * Z * string)) : Z := from_option (fun x => x.1.2) (-1) best.

Definition routeForV6 (dst : Addr) (ingressMAC : list Z) : option (fabricRouter * string) :=
  (fun x => (x.1.1, x.2)) <$>
  foldl (fun best router =>
    if negb (routerTakes r ingressMAC router) then best
    else
      let name := nameOf (frDevices r) (fwDevice router) in
      let best := foldl (fun best iface =>
        if negb (bool_decide (itDevice iface = name)) || negb (PrefixIsValid (itAddressV6 iface)) ||
           negb (Contains (itAddressV6 iface) dst) || (pfxBits (itAddressV6 iface) <=? bestV6 best) ||
           negb (interfaceAvailable r (fwDevice router) (itName iface)) then best
        else Some (router, pfxBits (itAddressV6 iface), itName iface)) best (tyInterfaces (frTopology r)) in
      foldl (fun best route =>
        if negb (bool_decide (roDevice route = name)) || negb (Is6 (pfxAddr (roDestination route))) ||
           negb (Contains (roDestination route) dst) || (pfxBits (roDestination route) <=? bestV6 best) ||
           negb (staticRouteV6Available (fwDevice router) route) then best
        else Some (router, pfxBits (roDestination route), roVia route)) best (tyRoutes (frTopology r)))
    None (frAttachmentRouters r).

Definition resolveIPv6 (dst : Addr) (ingressMAC : list Z) : option fabricResolution :=
  if IsLinkLocalUnicast dst then
    device ← resolveLinkLocal dst;
    Some (mkResolution device (macOf (frDevices r) device) false AddrZero [] None (frAttachmentNetwork r) "")
  else
    endpoint ← frInterfacesByAddrV6 r !! dst;
    if negb (interfaceAvailable r (feDevice endpoint) (feInterface endpoint)) then None
    else if bool_decide (feNetwork endpoint = frAttachmentNetwork r) then
      Some (mkResolution (feDevice endpoint) (feMAC endpoint) false AddrZero [] None (feNetwork endpoint) "")
    else
      '(router, via) ← routeForV6 dst ingressMAC;
      Some (mkResolution (feDevice endpoint) (fwMAC router) true
              (AddrFromSlice (from_option linkLocalAddress [] (frDevices r !! fwDevice router)))
              (fwMAC router) (Some (fwDevice router)) (feNetwork endpoint) via).

(** [AsSlice] of the address, as the address. *)
Definition attachmentAddressV6 (device : nat) : option Addr :=
  (fun iface => pfxAddr (itAddressV6 iface)) <$>
  List.find (fun iface =>
    bool_decide (itDevice iface = nameOf (frDevices r) device) && bool_decide (itNetwork iface = frAttachmentNetwork r) &&
    PrefixIsValid (itAddressV6 iface) && interfaceAvailable r device (itName iface)) (tyInterfaces (frTopology r)).

Definition resolveNeighbor (target : list Z) : option nat :=
  let address := AddrFromSlice target in
  if bool_decide (address = AddrZero) then None
  else if IsLinkLocalUnicast address then resolveLinkLocal address
  else
    endpoint ← frInterfacesByAddrV6 r !! address;
    if negb (bool_decide (feNetwork endpoint = frAttachmentNetwork r)) ||
       negb (interfaceAvailable r (feDevice endpoint) (feInterface endpoint)) then None
    else Some (feDevice endpoint).

Definition deviceOwnsIPv6 (device : nat) (ip : list Z) : bool :=
  let address := AddrFromSlice ip in
  if bool_decide (address = AddrZero) then false
  else if IsLinkLocalUnicast address then bool_decide (resolveLinkLocal address = Some device)
  else match frInterfacesByAddrV6 r !! address with Some endpoint => bool_decide (feDevice endpoint = device) | None => false end.
End ipv6.
