(* ===== verification/FabricRuntimeTheorems.v ===== *)
(** * What the running fabric guarantees

    Routes are chosen by longest prefix ([route_longest]); the hops counted
    for a packet are the routers it crosses, whatever the routes are, loops
    included ([hops_exact]); a forwarded packet differs in its TTL and in a
    checksum that is right ([forward_header]). *)

From S2P Require Import Prelude.
From S2P Require Import Netip.
From S2P Require Import DeviceTypes.
From S2P Require Import DeviceStore.
From S2P Require Import Safeconv.
From S2P Require Import Bytes.
From S2P Require Import Packet.
From S2P Require Import Vlan.
From S2P Require Import NetipParse.
From S2P Require Import FabricTypes.
From S2P Require Import Fabric.
From S2P Require Import FabricAttachment.
From S2P Require Import FabricFacts.
From S2P Require Import FabricDomain.
From S2P Require Import FabricTheorems.
From S2P Require Import Placement.
From S2P Require Import FabricRuntime.

(** ** The first of the longest *)

Section longest.
Context {A : Type} (key : A -> Z).

Definition longerOf (best : option A) (x : A) : option A := if from_option key (-1) best <? key x then Some x else best.

(** [x] comes first among the elements of the largest key. *)
Definition firstOfLongest (l : list A) (x : A) : Prop :=
  exists l1 l2, l = l1 ++ x :: l2 /\ Forall (fun y => key y < key x) l1 /\ Forall (fun y => key y <= key x) l2.

Lemma foldl_better l :
  Forall (fun x => 0 <= key x) l ->
  match foldl longerOf None l with Some x => firstOfLongest l x | None => l = [] end.
Proof.
  induction l as [|y l IH] using rev_ind; intros H; [done|]. apply Forall_app in H as [Hl [Hy _]%Forall_cons].
  rewrite foldl_app. simpl. specialize (IH Hl). unfold longerOf at 1.
  destruct (foldl longerOf None l) as [x|]; simpl in *.
  - destruct IH as (l1 & l2 & -> & H1 & H2). destruct (Z.ltb_spec (key x) (key y)).
    + exists (l1 ++ x :: l2), []. split_and!; [done| |constructor]. apply Forall_app_2; [|constructor; [done|]].
      * eapply Forall_impl; [done|]. simpl. lia.
      * eapply Forall_impl; [done|]. simpl. lia.
    + exists l1, (l2 ++ [y]). split_and!; [by rewrite <- app_assoc|done|]. apply Forall_app_2; [done|]. by constructor.
  - subst. destruct (Z.ltb_spec (-1) (key y)); [|lia]. exists [], []. split_and!; [done|constructor|constructor].
Qed.

Lemma foldl_filter {B} (f : B -> A -> B) (P : A -> bool) b l :
  foldl (fun b x => if P x then f b x else b) b l = foldl f b (filter (fun x => P x = true) l).
Proof.
  revert b. induction l as [|x l IH]; intros b; [done|]. simpl. rewrite filter_cons, IH.
  by destruct (P x).
Qed.

Lemma foldl_concat {B C} (f : B -> A -> B) (g : C -> list A) b l :
  foldl (fun b x => foldl f b (g x)) b l = foldl f b (concat (g <$> l)).
Proof. revert b. induction l as [|x l IH]; intros b; [done|]. simpl. by rewrite foldl_app, IH. Qed.
End longest.

Lemma foldl_ext {A B} (f g : B -> A -> B) b l : (forall b x, f b x = g b x) -> foldl f b l = foldl g b l.
Proof. intros H. revert b. induction l as [|x l IH]; intros b; [done|]. simpl. by rewrite H, IH. Qed.

Lemma foldl_fmap {A B C} (f : B -> C -> B) (g : A -> C) b l : foldl f b (g <$> l) = foldl (fun b x => f b (g x)) b l.
Proof. revert b. induction l as [|x l IH]; intros b; [done|]. apply IH. Qed.

Section routes.
Context (ranged : gmap Addr fabricEndpoint -> list fabricEndpoint) (r : fabricRuntime).

(** A route that can carry the packet. *)
Definition carriesTo (dst : Addr) (device : nat) (route : fabricRoute) : bool :=
  routeAvailable ranged r device route && Contains (fuDestination route) dst.

Definition routeBits {A} (x : A * fabricRoute) : Z := pfxBits (fuDestination x.2).

(** The routes of a device that carry the packet, in order, and those of the
    attachment routers the frame was sent to. *)
Definition deviceRoutes (dst : Addr) (device : nat) : list fabricRoute :=
  filter (fun route => carriesTo dst device route = true) (routesFor r device).

Definition candidates (dst : Addr) (ingressMAC : list Z) : list (fabricRouter * fabricRoute) :=
  concat ((fun router => if routerTakes r ingressMAC router then pair router <$> deviceRoutes dst (fwDevice router) else [])
            <$> frAttachmentRouters r).

Lemma contains_bits p a : Contains p a = true -> 0 <= pfxBits p.
Proof. unfold Contains, PrefixIsValid. intros [H%Z.leb_le _]%andb_true_iff. done. Qed.

Lemma deviceRoutes_bits {A} (x : A) dst device :
  Forall (fun y => 0 <= routeBits y) (pair x <$> deviceRoutes dst device).
Proof.
  apply Forall_fmap, Forall_forall. intros route [[_ H%contains_bits]%andb_true_iff _]%list_elem_of_filter. done.
Qed.

Lemma foldl_device {A} (x : A) dst device best :
  foldl (fun best route =>
    if routeAvailable ranged r device route && Contains (fuDestination route) dst &&
       (bestBits best <? pfxBits (fuDestination route)) then Some (x, route) else best) best (routesFor r device) =
  foldl (longerOf routeBits) best (pair x <$> deviceRoutes dst device).
Proof.
  unfold deviceRoutes. rewrite foldl_fmap, <- foldl_filter. apply foldl_ext. intros b route.
  unfold carriesTo, longerOf, bestBits, routeBits. simpl. by destruct (_ && Contains _ _).
Qed.

Lemma bestRoute_better dst device :
  bestRoute ranged r device dst = snd <$> foldl (longerOf routeBits) None (pair device <$> deviceRoutes dst device).
Proof.
  unfold bestRoute. rewrite <- foldl_device. f_equal. apply foldl_ext. intros best route.
  by destruct (bestBits best <? _), (Contains _ _), (routeAvailable _ _ _ _).
Qed.

Lemma routeFor_better dst ingressMAC :
  routeFor ranged r dst ingressMAC = foldl (longerOf routeBits) None (candidates dst ingressMAC).
Proof.
  unfold routeFor, candidates. rewrite <- foldl_concat. apply foldl_ext. intros best router.
  destruct (routerTakes r ingressMAC router); simpl; [apply foldl_device|done].
Qed.
End routes.

(** C23. Among the available routes to the destination of all the attachment
    routers the frame was addressed to, the fabric takes one with the longest
    prefix, the first of these; it finds no route only when there is none. *)
Theorem route_longest ranged r dst ingressMAC :
  match routeFor ranged r dst ingressMAC with
  | Some found => firstOfLongest routeBits (candidates ranged r dst ingressMAC) found
  | None => candidates ranged r dst ingressMAC = []
  end.
Proof.
  rewrite routeFor_better. apply foldl_better. unfold candidates. apply Forall_concat, Forall_fmap, Forall_forall.
  intros router _. simpl. destruct (routerTakes _ _ _); [apply deviceRoutes_bits|constructor].
Qed.

(** ** The routers a packet crosses *)

Section hops.
Context (ranged : gmap Addr fabricEndpoint -> list fabricEndpoint) (r : fabricRuntime) (origin : nat) (source : Addr).

(** The router after the one that holds the route, with its own best route. *)
Definition nextRouter (route : fabricRoute) : option (nat * fabricRoute) :=
  if fuConnected route then None
  else
    next ← endpointForAddress ranged r (fuNextHop route);
    if bool_decide (feDevice next = origin) then None
    else pair (feDevice next) <$> bestRoute ranged r (feDevice next) source.

(** Following the routes crosses [n] more routers, and ends. *)
Inductive crosses : fabricRoute -> nat -> Prop :=
| CrossesLast route : nextRouter route = None -> crosses route 0
| CrossesNext route device route' n : nextRouter route = Some (device, route') -> crosses route' n -> crosses route (S n).

Lemma crosses_fun route n m : crosses route n -> crosses route m -> n = m.
Proof.
  intros H. revert m. induction H as [route E|route device route' n E H IH]; intros m Hm; inversion Hm; subst; try congruence.
  f_equal. apply IH. congruence.
Qed.

(** A router crossed is on the way once only. *)
Definition onWay (n : nat) (device : nat) : Prop :=
  exists route k, bestRoute ranged r device source = Some route /\ crosses route k /\ (k < n)%nat.

Lemma nextRouter_best route device route' :
  nextRouter route = Some (device, route') ->
  bestRoute ranged r device source = Some route' /\
  exists next, endpointForAddress ranged r (fuNextHop route) = Some next /\ feDevice next = device.
Proof.
  unfold nextRouter. destruct (fuConnected route); [done|]. intros (next & E & H)%bind_Some.
  case_bool_decide; [done|]. apply fmap_Some in H as (? & Hb & [= -> ->]). split; [done|]. by exists next.
Qed.

Lemma crosses_way route n :
  crosses route n ->
  exists way, NoDup way /\ length way = n /\
    forall device, device ∈ way -> onWay n device /\ exists a next, endpointForAddress ranged r a = Some next /\ feDevice next = device.
Proof.
  induction 1 as [route E|route device route' n E H (way & Hnd & Hl & Hway)].
  { exists []. split_and!; [constructor|done|by intros ? ?%elem_of_nil]. }
  apply nextRouter_best in E as (Hb & next & He & Hd). exists (device :: way). split_and!.
  - constructor; [|done]. intros ((route'' & k & Hb' & Hc & Hk) & _)%Hway.
    rewrite Hb in Hb'. injection Hb' as <-. pose proof (crosses_fun _ _ _ H Hc). lia.
  - simpl. by rewrite Hl.
  - intros d [->|Hd']%elem_of_cons.
    + split; [exists route', n; split_and!; [done|done|lia]|by exists (fuNextHop route), next].
    + destruct (Hway d Hd') as [(route'' & k & ? & ? & ?) ?]. split; [|done]. exists route'', k. split_and!; [done|done|lia].
Qed.

Lemma hopLoop_next fuel route hops :
  hopLoop ranged r (S fuel) origin source route hops =
    match nextRouter route with None => hops | Some (_, route') => hopLoop ranged r fuel origin source route' (hops + 1) end.
Proof.
  simpl. unfold nextRouter. destruct (fuConnected route); [done|].
  destruct (endpointForAddress ranged r (fuNextHop route)) as [next|]; [simpl|done].
  case_bool_decide; [done|]. by destruct (bestRoute ranged r (feDevice next) source).
Qed.

Lemma hopLoop_crosses fuel route n hops :
  crosses route n -> (n <= fuel)%nat -> hopLoop ranged r fuel origin source route hops = hops + Z.of_nat n.
Proof.
  intros H. revert fuel hops. induction H as [route E|route device route' n E H IH]; intros fuel hops Hf.
  - destruct fuel; [simpl; lia|]. rewrite hopLoop_next, E. lia.
  - destruct fuel as [|fuel]; [lia|]. rewrite hopLoop_next, E, IH by lia. lia.
Qed.

Lemma hopLoop_endless fuel route hops :
  (forall n, ~ crosses route n) -> hopLoop ranged r fuel origin source route hops = hops + Z.of_nat fuel.
Proof.
  revert route hops. induction fuel as [|fuel IH]; intros route hops H; [simpl; lia|].
  rewrite hopLoop_next. destruct (nextRouter route) as [[device route']|] eqn:E.
  - rewrite IH; [lia|]. intros n Hn. by apply (H (S n)), (CrossesNext _ device route').
  - destruct (H 0%nat). by apply CrossesLast.
Qed.
End hops.

(** ** The devices of a runtime *)

(** The devices that have an interface are named. *)
Definition namedDevices (r : fabricRuntime) : Prop :=
  forall a e, frInterfacesByAddr r !! a = Some e -> exists name, frDevicesByName r !! name = Some (feDevice e).

Lemma new_named topology devices host states :
  namedDevices (newFabricRuntime topology devices host <| frDeviceStates := states |>).
Proof.
  unfold newFabricRuntime, namedDevices. destruct (indexAttachmentDHCP _ _ _ _) as [servers relays]. simpl.
  unfold indexInterfaces. generalize (indexDevices devices). intros byName.
  induction (tyInterfaces topology) as [|iface l IH] using rev_ind; intros a e; [simpl; by rewrite lookup_empty|].
  rewrite foldl_app. simpl. destruct (byName !! itDevice iface) as [device|] eqn:E; [|by apply IH].
  intros [[_ <-]|[_ H]]%lookup_insert_Some; [by exists (itDevice iface)|by eapply IH].
Qed.

Lemma crosses_bound ranged r origin source route n :
  (forall m, ranged m ≡ₚ (map_to_list m).*2) -> namedDevices r ->
  crosses ranged r origin source route n -> (n <= size (frDevicesByName r))%nat.
Proof.
  intros Hr Hnamed H. destruct (crosses_way _ _ _ _ _ _ H) as (way & Hnd & <- & Hway).
  rewrite <- length_map_to_list, <- (length_fmap snd). apply submseteq_length, NoDup_submseteq; [done|].
  intros device (_ & a & next & He & <-)%Hway.
  assert (exists b, frInterfacesByAddr r !! b = Some next) as (b & Hb).
  { unfold endpointForAddress in He. destruct (frDeviceStates r) as [states|]; [|by exists a].
    apply List.find_some in He as [Hin%list_elem_of_In _]. rewrite Hr in Hin.
    apply list_elem_of_fmap in Hin as ([b e] & -> & Hb%elem_of_map_to_list). by exists b. }
  apply Hnamed in Hb as (name & Hname). apply list_elem_of_fmap. exists (name, feDevice next).
  split; [done|]. by apply elem_of_map_to_list.
Qed.

(** C24. The hops counted for a packet that leaves are the routers it crosses from
    the attachment router towards its source, however many there are; when
    the routes loop and never end, the count is the number of devices and one
    more.  A source on the attachment network, and the attachment router
    itself, cross none. *)
Theorem hops_exact ranged topology devices host states source routerMAC :
  (forall m, ranged m ≡ₚ (map_to_list m).*2) ->
  let r := newFabricRuntime topology devices host <| frDeviceStates := states |> in
  match endpointForAddress ranged r source, routeFor ranged r source routerMAC with
  | Some origin, Some (router, route) =>
      if bool_decide (feNetwork origin = frAttachmentNetwork r) || bool_decide (fwDevice router = feDevice origin)
      then forwardingHops ranged r source routerMAC = 0
      else
        (forall n, crosses ranged r (feDevice origin) source route n ->
           forwardingHops ranged r source routerMAC = 1 + Z.of_nat n) /\
        ((forall n, ~ crosses ranged r (feDevice origin) source route n) ->
           forwardingHops ranged r source routerMAC = 1 + Z.of_nat (size (frDevicesByName r)))
  | _, _ => forwardingHops ranged r source routerMAC = 0
  end.
Proof.
  intros Hr. cbv zeta. pose proof (new_named topology devices host states) as Hn.
  set (r := newFabricRuntime topology devices host <| frDeviceStates := states |>) in *. clearbody r.
  unfold forwardingHops. destruct (endpointForAddress ranged r source) as [origin|]; [|done].
  destruct (routeFor ranged r source routerMAC) as [[router route]|]; [|by case_bool_decide].
  case_bool_decide; simpl; [done|]. case_bool_decide; simpl; [done|]. split.
  - intros n Hc. apply hopLoop_crosses; [done|]. by eapply crosses_bound.
  - intros Hc. by apply hopLoop_endless.
Qed.

(** ** Forwarded packets *)

Definition headerLength (frame : list Z) : nat :=
  Z.to_nat (Z.land (byteAt frame ethHeaderLen) ipv4IHLMask * ipv4IHLWordLen).

(** An Ethernet frame with a whole IPv4 header. *)
Definition carriesIPv4 (frame : list Z) : Prop :=
  (ethHeaderLen + ipv4MinHeaderLen <= length frame)%nat /\ etherTypeOf frame = EtherTypeIP /\
  (ipv4MinHeaderLen <= headerLength frame)%nat /\ (ethHeaderLen + headerLength frame <= length frame)%nat.

Definition ipHeader (frame : list Z) : list Z := take (headerLength frame) (drop ethHeaderLen frame).

(** Where the TTL and the checksum are in the frame. *)
Definition frameTTL : nat := ethHeaderLen + ipv4TTLOffset.
Definition frameChecksum : nat := ethHeaderLen + ipv4ChecksumOffset.

(** The source address of the packet, and the hops to it. *)
Definition packetHops (ranged : gmap Addr fabricEndpoint -> list fabricEndpoint) (r : fabricRuntime) (frame : list Z) : Z :=
  forwardingHops ranged r (AddrFromSlice (take SizeOfIP (drop ipv4SourceOffset (drop ethHeaderLen frame))))
    (take SizeOfMac (drop SizeOfMac frame)).

(** The parts of a frame that forwarding tells apart. *)
Lemma frame_parts frame :
  carriesIPv4 frame -> exists eth a ttl p c post rest,
    frame = eth ++ (a ++ [ttl] ++ [p] ++ c ++ post) ++ rest /\ length eth = 14%nat /\ length a = 8%nat /\ length c = 2%nat /\
    length (a ++ [ttl] ++ [p] ++ c ++ post) = headerLength frame.
Proof.
  intros (Hl & _ & Hm & Hh). unfold ethHeaderLen, ipv4MinHeaderLen in *.
  set (h := take (headerLength frame) (drop 14 frame)).
  assert (length h = headerLength frame) as Eh by (subst h; rewrite length_take, length_drop; lia).
  assert (h = take 8 h ++ take 1 (drop 8 h) ++ take 1 (drop 9 h) ++ take 2 (drop 10 h) ++ drop 12 h) as Es.
  { rewrite <- (take_drop 8 h) at 1. f_equal. rewrite <- (take_drop 1 (drop 8 h)) at 1. rewrite drop_drop. f_equal.
    rewrite <- (take_drop 1 (drop (8 + 1) h)) at 1. rewrite drop_drop. f_equal.
    rewrite <- (take_drop 2 (drop (8 + 1 + 1) h)) at 1. by rewrite drop_drop. }
  assert (exists ttl, take 1 (drop 8 h) = [ttl]) as [ttl Et].
  { destruct (drop 8 h) as [|t l] eqn:Ed; [|by exists t]. apply (f_equal length) in Ed. rewrite length_drop in Ed. simpl in Ed. lia. }
  assert (exists p, take 1 (drop 9 h) = [p]) as [p Ep].
  { destruct (drop 9 h) as [|t l] eqn:Ed; [|by exists t]. apply (f_equal length) in Ed. rewrite length_drop in Ed. simpl in Ed. lia. }
  rewrite Et, Ep in Es.
  exists (take 14 frame), (take 8 h), ttl, p, (take 2 (drop 10 h)), (drop 12 h), (drop (headerLength frame) (drop 14 frame)).
  rewrite <- Es. split_and!; [|rewrite length_take; lia|rewrite length_take; lia|rewrite length_take, length_drop; lia|done].
  subst h. by rewrite take_drop, take_drop.
Qed.

Lemma byteAt_mid (a post : list Z) x i : length a = i -> byteAt (a ++ x :: post) i = x.
Proof. intros <-. unfold byteAt. by rewrite list_lookup_middle. Qed.

(** A frame that is forwarded, written out. *)
Lemma forward_parts ranged r frame :
  carriesIPv4 frame -> 0 < packetHops ranged r frame -> Forall isByte frame ->
  exists eth a ttl p c post rest,
    frame = eth ++ (a ++ [ttl] ++ [p] ++ c ++ post) ++ rest /\ length eth = 14%nat /\ length a = 8%nat /\ length c = 2%nat /\
    length (a ++ [ttl] ++ [p] ++ c ++ post) = headerLength frame /\
    let zeroed := a ++ [ttl - packetHops ranged r frame] ++ [p] ++ [0; 0] ++ post in
    forwardIPv4 ranged r frame =
      if ttl <=? packetHops ranged r frame then None
      else Some (eth ++ (a ++ [ttl - packetHops ranged r frame] ++ [p] ++ big16 (CalculateIPChecksum zeroed) ++ post) ++ rest).
Proof.
  intros Hc Hpos Hb. destruct (frame_parts _ Hc) as (eth & a & ttl & p & c & post & rest & E & He & Ha & Hcl & Hh).
  exists eth, a, ttl, p, c, post, rest. split_and!; try done. cbv zeta.
  destruct Hc as (Hl & Ht & Hm & Hle). unfold forwardIPv4, packetHops in *.
  rewrite bool_decide_eq_false_2, Ht by lia. cbn [orb negb]. rewrite Z.eqb_refl. cbn [negb].
  assert (byteAt (drop ethHeaderLen frame) 0 = byteAt frame ethHeaderLen) as -> by (unfold byteAt; by rewrite lookup_drop).
  fold (headerLength frame). rewrite bool_decide_eq_false_2 by lia. cbn [orb].
  rewrite bool_decide_eq_false_2 by (rewrite length_drop; lia).
  set (hops := forwardingHops _ _ _ _) in *. destruct (Z.eqb_spec hops 0); [lia|]. clearbody hops.
  assert (drop ethHeaderLen frame = (a ++ [ttl] ++ [p] ++ c ++ post) ++ rest) as ->.
  { rewrite E at 1. unfold ethHeaderLen. rewrite <- He. apply drop_app_length. }
  assert (byteAt ((a ++ [ttl] ++ [p] ++ c ++ post) ++ rest) ipv4TTLOffset = ttl) as ->.
  { rewrite <- app_assoc. by apply byteAt_mid. }
  destruct (Z.leb_spec ttl hops); [done|]. rewrite <- Hh, take_app_length. f_equal.
  assert (isByte ttl) as Httl.
  { rewrite E in Hb. rewrite !Forall_app in Hb. destruct Hb as (_ & (_ & Hx & _) & _). by apply Forall_cons in Hx as [Hx _]. }
  unfold isByte in Httl.
  assert (byteAt (a ++ [ttl] ++ [p] ++ c ++ post) ipv4TTLOffset = ttl) as -> by by apply byteAt_mid.
  assert ((ttl - Uint8 hops) mod 2 ^ 8 = ttl - hops) as ->.
  { unfold Uint8. destruct (Z.ltb_spec hops 0), (Z.ltb_spec MaxUint8 hops); unfold MaxUint8, uint8 in *; try lia.
    rewrite (Z.mod_small hops) by lia. apply Z.mod_small. lia. }
  unfold ipv4TTLOffset. rewrite <- Ha at 1 2. rewrite overwrite_middle by done.
  assert (forall x y z w, length w = 2%nat ->
    overwrite (a ++ [x] ++ [y] ++ w ++ post) ipv4ChecksumOffset (big16 z) = a ++ [x] ++ [y] ++ big16 z ++ post) as Ho.
  { intros x y z w Hw. pose proof (overwrite_middle (a ++ [x] ++ [y]) w (big16 z) post Hw) as Ho.
    rewrite <- !app_assoc in Ho. rewrite <- Ho. f_equal. rewrite !length_app, Ha. done. }
  rewrite !Ho by done. change (big16 0) with [0; 0].
  rewrite E at 1. unfold ethHeaderLen. rewrite <- He at 1. apply overwrite_middle. rewrite !length_app. unfold big16. simpl. lia.
Qed.

Lemma outside_parts (l1 l2 : list Z) (eth a c c' post rest : list Z) x y p :
  length c = length c' -> length eth = 14%nat -> length a = 8%nat -> length c = 2%nat ->
  l1 = eth ++ (a ++ [x] ++ [p] ++ c ++ post) ++ rest -> l2 = eth ++ (a ++ [y] ++ [p] ++ c' ++ post) ++ rest ->
  forall i, i <> frameTTL -> (i < frameChecksum \/ frameChecksum + 2 <= i)%nat -> l1 !! i = l2 !! i.
Proof.
  intros Hcc He Ha Hc -> -> i Ht Hk. unfold frameTTL, frameChecksum, ethHeaderLen, ipv4TTLOffset, ipv4ChecksumOffset in *.
  destruct (decide (i < 14)%nat); [by rewrite !lookup_app_l by lia|]. rewrite !(lookup_app_r eth) by lia. rewrite <- !app_assoc.
  destruct (decide (i - length eth < 8)%nat); [by rewrite !(lookup_app_l a) by lia|]. rewrite !(lookup_app_r a) by lia.
  destruct (decide (i - length eth - length a = 1)%nat) as [->|]; [done|].
  rewrite (lookup_app_r [x]), (lookup_app_r [y]) by (simpl; lia). rewrite !(lookup_app_r [p]) by (simpl; lia).
  rewrite (lookup_app_r c), (lookup_app_r c') by (simpl; lia). by rewrite Hcc.
Qed.

Lemma frameTTL_part eth a ttl (h rest : list Z) :
  length eth = 14%nat -> length a = 8%nat -> byteAt (eth ++ (a ++ [ttl] ++ h) ++ rest) frameTTL = ttl.
Proof. intros He Ha. rewrite <- app_assoc, app_assoc. apply byteAt_mid. rewrite length_app, He, Ha. done. Qed.

(** The header of a frame put together from its parts. *)
Lemma ipHeader_parts (eth h rest : list Z) :
  length eth = 14%nat -> length h = headerLength (eth ++ h ++ rest) -> ipHeader (eth ++ h ++ rest) = h.
Proof.
  intros He Hh. unfold ipHeader. rewrite <- Hh. unfold ethHeaderLen. rewrite <- He, drop_app_length. apply take_app_length.
Qed.

Lemma headerLength_parts eth (h h' rest : list Z) :
  length eth = 14%nat -> byteAt h 0 = byteAt h' 0 -> (0 < length h)%nat -> (0 < length h')%nat ->
  headerLength (eth ++ h ++ rest) = headerLength (eth ++ h' ++ rest).
Proof.
  intros He H Hl Hl'. unfold headerLength, byteAt in *. f_equal. f_equal. f_equal. unfold ethHeaderLen.
  rewrite !(lookup_app_r eth) by lia. rewrite He. change (14 - 14)%nat with 0%nat. by rewrite !lookup_app_l by done.
Qed.

Lemma headerLength_bound frame : (headerLength frame <= 60)%nat.
Proof.
  unfold headerLength, ipv4IHLMask, ipv4IHLWordLen. change 0x0f with (Z.ones 4). rewrite Z.land_ones by lia.
  pose proof (Z.mod_pos_bound (byteAt frame ethHeaderLen) (2 ^ 4)). lia.
Qed.

Lemma hops_nonneg ranged r source mac : 0 <= forwardingHops ranged r source mac.
Proof.
  assert (forall fuel origin route hops, 0 <= hops -> 0 <= hopLoop ranged r fuel origin source route hops) as Hl.
  { induction fuel as [|fuel IH]; intros origin route hops H; simpl; [done|]. repeat case_match; auto with lia. }
  unfold forwardingHops. repeat case_match; try lia. by apply Hl.
Qed.

Lemma forward_other ranged r frame :
  ~ carriesIPv4 frame \/ packetHops ranged r frame = 0 -> forwardIPv4 ranged r frame = Some frame.
Proof.
  intros H. unfold forwardIPv4. destruct (_ || _) eqn:E1; [done|]. apply orb_false_iff in E1 as [E1 E2].
  apply bool_decide_eq_false in E1. apply negb_false_iff, Z.eqb_eq in E2.
  assert (byteAt (drop ethHeaderLen frame) 0 = byteAt frame ethHeaderLen) as -> by (unfold byteAt; by rewrite lookup_drop).
  fold (headerLength frame). destruct (_ || _) eqn:E3; [done|]. apply orb_false_iff in E3 as [E3 E4].
  apply bool_decide_eq_false in E3, E4. rewrite length_drop in E4. destruct H as [H|H].
  - destruct H. unfold carriesIPv4. split_and!; try done; unfold ethHeaderLen in *; lia.
  - unfold packetHops in H. by rewrite H.
Qed.

(** C25. A packet from behind the simulated routers leaves with its TTL lowered by
    the routers it crossed, nothing else but the header checksum changed, and
    with a checksum that is right; it does not leave when its TTL is used up.
    Any other frame leaves as it is. *)
Theorem forward_header ranged r frame :
  Forall isByte frame ->
  let hops := packetHops ranged r frame in
  (~ carriesIPv4 frame \/ hops = 0 -> forwardIPv4 ranged r frame = Some frame) /\
  (carriesIPv4 frame -> 0 < hops -> byteAt frame frameTTL <= hops -> forwardIPv4 ranged r frame = None) /\
  (carriesIPv4 frame -> 0 < hops < byteAt frame frameTTL ->
     exists sent, forwardIPv4 ranged r frame = Some sent /\ byteAt sent frameTTL = byteAt frame frameTTL - hops /\
       CalculateIPChecksum (ipHeader sent) = 0 /\ length sent = length frame /\
       forall i, i <> frameTTL -> (i < frameChecksum \/ frameChecksum + 2 <= i)%nat -> sent !! i = frame !! i).
Proof.
  intros Hb. cbv zeta. split_and!; [apply forward_other| |].
  - intros Hc Hpos Ht. destruct (forward_parts ranged r frame Hc Hpos Hb)
      as (eth & a & ttl & p & c & post & rest & E & He & Ha & Hcl & Hh & ->).
    rewrite E in Ht at 1. rewrite frameTTL_part in Ht by done. by destruct (Z.leb_spec ttl (packetHops ranged r frame)); [|lia].
  - intros Hc [Hpos Ht]. destruct (forward_parts ranged r frame Hc Hpos Hb)
      as (eth & a & ttl & p & c & post & rest & E & He & Ha & Hcl & Hh & ->).
    assert (byteAt frame frameTTL = ttl) as Ettl by (rewrite E at 1; by apply frameTTL_part).
    rewrite Ettl in *. destruct (Z.leb_spec ttl (packetHops ranged r frame)); [lia|].
    set (hops := packetHops ranged r frame) in *. clearbody hops. pose proof (headerLength_bound frame) as Hlen.
    rewrite E, !Forall_app in Hb. destruct Hb as (_ & (Hab & [Htb _]%Forall_cons & Hpb & _ & Hpostb) & _).
    set (ck := CalculateIPChecksum _). eexists. split; [done|]. split_and!.
    + by apply frameTTL_part.
    + rewrite ipHeader_parts; [|done|].
      * pose proof (checksum_completes (a ++ [ttl - hops] ++ [p]) post) as Hk. rewrite <- !app_assoc in Hk. apply Hk; clear Hk.
        -- rewrite !Forall_app. split_and!; [done|constructor; [unfold isByte in *; lia|constructor]|done].
        -- done.
        -- rewrite !length_app, Ha. done.
        -- unfold maxChecksumLen. rewrite <- Hh in Hlen. revert Hlen. rewrite !length_app. simpl. lia.
      * rewrite (headerLength_parts _ _ (a ++ [ttl] ++ [p] ++ c ++ post)), <- E, <- Hh; [|done|..].
        -- rewrite !length_app, Hcl. done.
        -- unfold byteAt. by rewrite !lookup_app_l by lia.
        -- rewrite length_app. lia.
        -- rewrite length_app. lia.
    + rewrite E, !length_app, Hcl. done.
    + eapply (outside_parts _ _ eth a (big16 ck) c post rest); done.
Qed.

(** ** The lab of the compiler's tests *)

Definition labMAC (n : Z) : list Z := [0x02; 0; 0; 0; 0x10; n].
Definition labDevices : list netDevice :=
  imap (fun i d => mkNetDevice d (labMAC (Z.of_nat i)) []) [labRouter; labServer; labPeer].
Definition labRuntime : fabricRuntime := newFabricRuntime (reTopology labReport) labDevices [] <| frDeviceStates := None |>.
Definition labRanged (m : gmap Addr fabricEndpoint) : list fabricEndpoint := (map_to_list m).*2.

(** A packet of the peer behind the router, sent on by the router, as it was
    captured with checksum field zero. *)
Definition labFrame : list Z :=
  [0x02; 0; 0; 0; 0; 9] ++ labMAC 0 ++ [0x08; 0] ++
  [0x45; 0; 0; 20; 0; 0; 0; 0; 64; 17; 0; 0; 10; 20; 210; 2; 10; 10; 200; 50] ++ [1; 2].

Example lab_forwards :
  packetHops labRanged labRuntime labFrame = 1 /\
  (fun sent => (byteAt sent frameTTL, CalculateIPChecksum (ipHeader sent), drop 34 sent)) <$> forwardIPv4 labRanged labRuntime labFrame
  = Some (63, 0, [1; 2]).
Proof. split; vm_compute; reflexivity. Qed.

Lemma forward_header_witness :
  carriesIPv4 labFrame /\ exists sent, forwardIPv4 labRanged labRuntime labFrame = Some sent /\ CalculateIPChecksum (ipHeader sent) = 0.
Proof.
  assert (carriesIPv4 labFrame) as Hc by (split_and!; vm_compute; (reflexivity || lia)). split; [done|].
  assert (Forall isByte labFrame) as Hb by (repeat constructor; vm_compute; done).
  destruct (forward_header labRanged labRuntime labFrame Hb) as (_ & _ & Hf).
  destruct (Hf Hc) as (sent & Hs & _ & Hk & _); [vm_compute; done|]. exists sent. split; assumption.
Defined.

Lemma hops_exact_witness : forwardingHops labRanged labRuntime (AddrFrom4 10 20 210 2) (labMAC 0) = 1.
Proof.
  assert (forall m, labRanged m ≡ₚ (map_to_list m).*2) as Hr by done.
  pose proof (hops_exact labRanged (reTopology labReport) labDevices [] None (AddrFrom4 10 20 210 2) (labMAC 0) Hr) as H.
  cbv zeta in H. fold labRuntime in H.
  destruct (endpointForAddress labRanged labRuntime (AddrFrom4 10 20 210 2)) as [origin|] eqn:Eo; [|exfalso; revert Eo; vm_compute; discriminate].
  destruct (routeFor labRanged labRuntime (AddrFrom4 10 20 210 2) (labMAC 0)) as [[router route]|] eqn:Er; [|exfalso; revert Er; vm_compute; discriminate].
  vm_compute in Eo. injection Eo as <-. vm_compute in Er. injection Er as <- <-. cbn [feNetwork feDevice fwDevice] in H.
  rewrite bool_decide_eq_false_2 in H by (vm_compute; discriminate). rewrite bool_decide_eq_false_2 in H by (vm_compute; discriminate).
  apply (proj1 H 0%nat). apply CrossesLast. vm_compute. reflexivity.
Defined.
