(* ===== verification/Trunk.v ===== *)
(** * The shared trunk capture

    [daemon/trunk_capture.go]: one physical handle carries a session per
    802.1Q tag and one native session.  A [*trunkSessionTransport] is the
    index of the transport; its queue is the channel [rx], of capacity
    [trunkIngressQueue].  Every method is one step under the locks it takes.
    What the physical handle is given to send is logged in [tcSent]; its
    answer is a parameter.

    A session gets exactly the frames of its VLAN, in order ([session_stream]);
    every frame that no session gets is counted once ([drops_counted]). *)

From S2P Require Import Prelude.
From S2P Require Import Netip.
From S2P Require Import Bytes.

Definition dot1QEtherType : Z := 0x8100.
Definition dot1QVLANMask : Z := 0x0fff.
Definition dot1QHeaderLength : nat := 4.
Definition ethernetHeaderLength : nat := 14.
Definition trunkIngressQueue : Z := 16384.
Definition maxTrackedUnapprovedVLANs : nat := 16.
Definition nativeVLANKey : Z := 0.

Inductive trunkErr :=
| ErrTrunkVLANUnavailable (vlan : Z)
| ErrTrunkEgressVLAN
| ErrTrunkCaptureFailed
| ErrPhysical.

Record trunkDrops := mkTrunkDrops {
  tdUntagged : Z; tdUnapproved : Z; tdUnapprovedByTag : gmap Z Z; tdOverrun : Z; tdOverrunByTag : gmap Z Z
}.
#[export] Instance trunkDrops_rebuild : Rebuild trunkDrops := fun d =>
  mkTrunkDrops (tdUntagged d) (tdUnapproved d) (tdUnapprovedByTag d) (tdOverrun d) (tdOverrunByTag d).

Record trunkTransport := mkTransport { tpVlan : Z; tpRx : list (list Z); tpClosed : bool }.
#[export] Instance trunkTransport_rebuild : Rebuild trunkTransport := fun t => mkTransport (tpVlan t) (tpRx t) (tpClosed t).

Record trunkCapture := mkTrunk {
  tcSessions : gmap Z (option nat);
  tcTransports : list trunkTransport;
  tcDrops : trunkDrops;
  tcFailure : option string;
  tcSent : list (list Z);
  tcPhysicalClosed : bool
}.
#[export] Instance trunkCapture_rebuild : Rebuild trunkCapture := fun c =>
  mkTrunk (tcSessions c) (tcTransports c) (tcDrops c) (tcFailure c) (tcSent c) (tcPhysicalClosed c).

Definition newTrunkCapture : trunkCapture := mkTrunk ∅ [] (mkTrunkDrops 0 0 ∅ 0 ∅) None [] false.

(** The flag is set once and the message with it. *)
Definition failed (c : trunkCapture) : bool := if tcFailure c then true else false.

(** ** Sessions *)

Definition newTransport (vlan : Z) (c : trunkCapture) : trunkCapture * nat :=
  (c <| tcTransports := tcTransports c ++ [mkTransport vlan [] false] |>, length (tcTransports c)).

Definition register (vlan : Z) (c : trunkCapture) : trunkCapture * (nat + trunkErr) :=
  if failed c then (c, inr ErrTrunkCaptureFailed)
  else
    match tcSessions c !! vlan with
    | Some _ => (c, inr (ErrTrunkVLANUnavailable vlan))
    | None =>
        let '(c, transport) := newTransport vlan c in
        (c <| tcSessions := <[ vlan := Some transport ]> (tcSessions c) |>, inl transport)
    end.

(** The replacement and what it replaced. *)
Definition replace (vlan : Z) (c : trunkCapture) : trunkCapture * (nat * option nat) :=
  let previous := mjoin (tcSessions c !! vlan) in
  let '(c, replacement) := newTransport vlan c in
  (c <| tcSessions := <[ vlan := Some replacement ]> (tcSessions c) |>, (replacement, previous)).

Definition closeTransport (transport : nat) (c : trunkCapture) : trunkCapture :=
  c <| tcTransports := alter (fun t => t <| tpClosed := true |>) transport (tcTransports c) |>.

Definition restore (vlan : Z) (replacement : nat) (previous : option nat) (c : trunkCapture) : trunkCapture :=
  let c := if bool_decide (mjoin (tcSessions c !! vlan) = Some replacement)
           then c <| tcSessions := <[ vlan := previous ]> (tcSessions c) |> else c in
  closeTransport replacement c.

Definition unregister (vlan : Z) (transport : nat) (c : trunkCapture) : trunkCapture :=
  let c := if bool_decide (mjoin (tcSessions c !! vlan) = Some transport)
           then c <| tcSessions := delete vlan (tcSessions c) |> else c in
  closeTransport transport c.

(** ** Frames from the wire *)

(** The tag of the frame, and whether it is a tag a session can have. *)
Definition frameVLAN (frame : list Z) : Z * bool :=
  if bool_decide (length frame < ethernetHeaderLength + dot1QHeaderLength)%nat ||
     negb (bigUint16 (drop 12 frame) =? dot1QEtherType) then (0, false)
  else
    let vlan := Z.land (bigUint16 (drop 14 frame)) dot1QVLANMask in
    (vlan, (0 <? vlan) && (vlan <? 4095)).

(** A tag of a counter map is counted from zero. *)
Definition countTag (tag : Z) (m : gmap Z Z) : gmap Z Z := <[ tag := uint64 (default 0 (m !! tag) + 1) ]> m.

Definition recordUntagged (d : trunkDrops) : trunkDrops := d <| tdUntagged := uint64 (tdUntagged d + 1) |>.

Definition recordUnapproved (vlan : Z) (d : trunkDrops) : trunkDrops :=
  let d := d <| tdUnapproved := uint64 (tdUnapproved d + 1) |> in
  if bool_decide (tdUnapprovedByTag d !! vlan = None) && bool_decide (maxTrackedUnapprovedVLANs <= size (tdUnapprovedByTag d))%nat
  then d else d <| tdUnapprovedByTag := countTag vlan (tdUnapprovedByTag d) |>.

Definition recordOverrun (vlan : Z) (d : trunkDrops) : trunkDrops :=
  d <| tdOverrun := uint64 (tdOverrun d + 1) |> <| tdOverrunByTag := countTag vlan (tdOverrunByTag d) |>.

Definition dispatchFrame (frame : list Z) (c : trunkCapture) : trunkCapture * bool :=
  let '(vlan, tagged) := frameVLAN frame in
  let key := if tagged then vlan else nativeVLANKey in
  match mjoin (tcSessions c !! key) with
  | None => (c <| tcDrops := if tagged then recordUnapproved vlan (tcDrops c) else recordUntagged (tcDrops c) |>, false)
  | Some transport =>
      match tcTransports c !! transport with
      | Some t =>
          if Z.of_nat (length (tpRx t)) <? trunkIngressQueue then
            (c <| tcTransports := <[ transport := t <| tpRx := tpRx t ++ [frame] |> ]> (tcTransports c) |>, true)
          else (c <| tcDrops := recordOverrun key (tcDrops c) |>, false)
      | None => (c, false)
      end
  end.

Record TrunkDropStats := mkDropStats {
  dsUntagged : Z; dsUnapproved : Z; dsOverrun : Z; dsTotal : Z; dsUnapprovedByVLAN : gmap Z Z; dsOverrunByVLAN : gmap Z Z
}.

Definition dropsSnapshot (d : trunkDrops) : TrunkDropStats :=
  mkDropStats (tdUntagged d) (tdUnapproved d) (tdOverrun d) (uint64 (tdUntagged d + tdUnapproved d + tdOverrun d))
    (tdUnapprovedByTag d) (tdOverrunByTag d).

(** The capture stopped: every session that reads from it is woken. *)
Definition fail (message : string) (c : trunkCapture) : trunkCapture :=
  match tcFailure c with
  | Some _ => c
  | None =>
      foldl (fun c transport => match transport with Some t => closeTransport t c | None => c end)
        (c <| tcFailure := Some message |>) (map_to_list (tcSessions c)).*2
  end.

Record TrunkCaptureHealth := mkHealth {
  hcHealthy : bool; hcError : string; hcDrops : TrunkDropStats; hcSessionVLANs : list Z
}.

Definition health (c : trunkCapture) : TrunkCaptureHealth :=
  mkHealth (negb (failed c)) (default "" (tcFailure c)) (dropsSnapshot (tcDrops c)) (merge_sort Z.le (map_to_list (tcSessions c)).*1).

Definition closePhysical (c : trunkCapture) : trunkCapture := c <| tcPhysicalClosed := true |>.

(** ** A session's transport *)

Inductive readResult := ReadFrame (frame : list Z) | ReadClosed | ReadBlocked.

(** When a frame is waiting and the transport is closed, [select] takes either:
    [pick] takes the frame. *)
Definition ReadPacket (transport : nat) (pick : bool) (c : trunkCapture) : trunkCapture * readResult :=
  match tcTransports c !! transport with
  | None => (c, ReadBlocked)
  | Some t =>
      match tpRx t with
      | frame :: rx =>
          if pick || negb (tpClosed t) then
            (c <| tcTransports := <[ transport := t <| tpRx := rx |> ]> (tcTransports c) |>, ReadFrame frame)
          else (c, ReadClosed)
      | [] => (c, if tpClosed t then ReadClosed else ReadBlocked)
      end
  end.

(** [sent] is whether the physical handle took the frame. *)
Definition SendPacket (transport : nat) (frame : list Z) (sent : bool) (c : trunkCapture) : trunkCapture * option trunkErr :=
  let physical := (c <| tcSent := tcSent c ++ [frame] |>, if sent then None else Some ErrPhysical) in
  match tcTransports c !! transport with
  | None => (c, Some ErrTrunkEgressVLAN)
  | Some t =>
      if failed c then (c, Some ErrTrunkCaptureFailed)
      else
        let '(vlan, tagged) := frameVLAN frame in
        if tpVlan t =? nativeVLANKey then
          if tagged then (c, Some ErrTrunkEgressVLAN) else physical
        else if negb tagged || negb (vlan =? tpVlan t) then (c, Some ErrTrunkEgressVLAN)
        else physical
  end.

(** The demux slot of a frame. *)
Definition slotOf (frame : list Z) : Z := let '(vlan, tagged) := frameVLAN frame in if tagged then vlan else nativeVLANKey.

Definition queueOf (c : trunkCapture) (transport : nat) : list (list Z) := from_option tpRx [] (tcTransports c !! transport).

(** Every slot has the transport that was made for it. *)
Definition Wired (c : trunkCapture) : Prop :=
  forall vlan transport, tcSessions c !! vlan = Some (Some transport) ->
    tpVlan <$> tcTransports c !! transport = Some vlan.

Lemma slot_zero frame : slotOf frame = nativeVLANKey <-> (frameVLAN frame).2 = false.
Proof.
  unfold slotOf, frameVLAN. destruct (_ || _); simpl; [done|]. set (v := Z.land _ _).
  destruct (Z.ltb_spec 0 v), (Z.ltb_spec v 4095); unfold nativeVLANKey; simpl; split; intros; try done; lia.
Qed.

(** ** Dispatching *)

Lemma dispatch_delivered frame c c' transport :
  Wired c -> dispatchFrame frame c = (c', true) -> tcSessions c !! slotOf frame = Some (Some transport) ->
  tcSessions c' = tcSessions c /\ tcDrops c' = tcDrops c /\
  tcTransports c' = alter (fun t => t <| tpRx := tpRx t ++ [frame] |>) transport (tcTransports c).
Proof.
  unfold dispatchFrame, slotOf. intros Hw. destruct (frameVLAN frame) as [vlan tagged]. intros H E. rewrite E in H. simpl in H.
  destruct (tcTransports c !! transport) as [t|] eqn:Et; [|done]. destruct (_ <? _); [|done]. injection H as <-. simpl.
  split_and!; [done..|]. apply list_eq. intros i. destruct (decide (i = transport)) as [->|Hne].
  - rewrite list_lookup_alter_eq, Et. simpl. apply list_lookup_insert_eq. by eapply lookup_lt_Some.
  - by rewrite list_lookup_alter_ne, list_lookup_insert_ne.
Qed.

(** A frame is refused for one of three reasons, and counted under it. *)
Inductive refused (c : trunkCapture) (frame : list Z) : trunkDrops -> Prop :=
| RefusedUntagged :
    (frameVLAN frame).2 = false -> mjoin (tcSessions c !! nativeVLANKey) = None -> refused c frame (recordUntagged (tcDrops c))
| RefusedUnapproved :
    (frameVLAN frame).2 = true -> mjoin (tcSessions c !! slotOf frame) = None ->
    refused c frame (recordUnapproved (slotOf frame) (tcDrops c))
| RefusedOverrun transport :
    tcSessions c !! slotOf frame = Some (Some transport) -> trunkIngressQueue <= Z.of_nat (length (queueOf c transport)) ->
    refused c frame (recordOverrun (slotOf frame) (tcDrops c)).

Lemma mjoin_some {A} (x : option (option A)) a : mjoin x = Some a <-> x = Some (Some a).
Proof. destruct x as [[]|]; naive_solver. Qed.

Lemma dispatch_spec frame c :
  Wired c ->
  match dispatchFrame frame c with
  | (c', true) =>
      exists transport, tcSessions c !! slotOf frame = Some (Some transport) /\
        Z.of_nat (length (queueOf c transport)) < trunkIngressQueue /\
        tcSessions c' = tcSessions c /\ tcDrops c' = tcDrops c /\
        tcTransports c' = alter (fun t => t <| tpRx := tpRx t ++ [frame] |>) transport (tcTransports c)
  | (c', false) =>
      tcSessions c' = tcSessions c /\ tcTransports c' = tcTransports c /\ refused c frame (tcDrops c')
  end.
Proof.
  intros Hw. destruct (dispatchFrame frame c) as [c' ok] eqn:E. pose proof (dispatch_delivered frame c c') as Hd.
  pose proof E as E'. unfold dispatchFrame in E'.
  assert (slotOf frame = if (frameVLAN frame).2 then (frameVLAN frame).1 else nativeVLANKey) as Es
    by (unfold slotOf; by destruct (frameVLAN frame)).
  destruct (frameVLAN frame) as [vlan tagged] eqn:Ev. simpl in Es. rewrite <- Es in E'.
  destruct (mjoin (tcSessions c !! slotOf frame)) as [transport|] eqn:Em.
  - apply mjoin_some in Em. pose proof (Hw _ _ Em) as Ht. destruct (tcTransports c !! transport) as [t|] eqn:Et; [|done].
    destruct (Z.ltb_spec (Z.of_nat (length (tpRx t))) trunkIngressQueue) as [Hl|Hl]; injection E' as <- <-.
    + destruct (Hd transport Hw E Em) as (? & ? & ?). exists transport. unfold queueOf. by rewrite Et.
    + split_and!; [done..|]. apply (RefusedOverrun _ _ transport); [done|]. unfold queueOf. by rewrite Et.
  - injection E' as <- <-. split_and!; [done..|]. destruct tagged.
    + simpl. rewrite <- Es. apply RefusedUnapproved; [by rewrite Ev|done].
    + apply RefusedUntagged; [by rewrite Ev|by rewrite <- Es].
Qed.

Lemma dispatch_wired frame c : Wired c -> Wired (dispatchFrame frame c).1.
Proof.
  intros Hw. pose proof (dispatch_spec frame c Hw) as H. destruct (dispatchFrame frame c) as [c' []]; simpl.
  - destruct H as (transport & _ & _ & Es & _ & Et). intros v t. rewrite Es, Et. intros Hv. rewrite <- (Hw _ _ Hv).
    destruct (decide (t = transport)) as [->|Hne]; [|by rewrite list_lookup_alter_ne].
    rewrite list_lookup_alter_eq. by destruct (tcTransports c !! transport).
  - destruct H as (Es & Et & _). intros v t. rewrite Es, Et. apply Hw.
Qed.

(** ** A session's stream *)

Inductive trunkEvent := Arrives (frame : list Z) | Reads (transport : nat) (pick : bool).

Inductive trunkLog := Dispatched (frame : list Z) (delivered : bool) | Got (transport : nat) (frame : list Z).

Definition trunkStep (event : trunkEvent) (c : trunkCapture) : trunkCapture * list trunkLog :=
  match event with
  | Arrives frame => let '(c, ok) := dispatchFrame frame c in (c, [Dispatched frame ok])
  | Reads transport pick =>
      match ReadPacket transport pick c with
      | (c, ReadFrame frame) => (c, [Got transport frame])
      | (c, _) => (c, [])
      end
  end.

Fixpoint runTrunk (events : list trunkEvent) (c : trunkCapture) : trunkCapture * list trunkLog :=
  match events with
  | [] => (c, [])
  | event :: events =>
      let '(c, log) := trunkStep event c in
      let '(c, rest) := runTrunk events c in (c, log ++ rest)
  end.

(** The frames of a slot that were delivered, and those a session read. *)
Definition deliveredTo (slot : Z) (log : list trunkLog) : list (list Z) :=
  omap (fun e => match e with Dispatched frame true => if slotOf frame =? slot then Some frame else None | _ => None end) log.
Definition readBy (transport : nat) (log : list trunkLog) : list (list Z) :=
  omap (fun e => match e with Got t frame => if bool_decide (t = transport) then Some frame else None | _ => None end) log.
Definition refusals (log : list trunkLog) : nat :=
  length (omap (fun e => match e with Dispatched frame false => Some frame | _ => None end) log).

Lemma read_spec transport pick c :
  match ReadPacket transport pick c with
  | (c', ReadFrame frame) =>
      exists t, tcTransports c !! transport = Some t /\ tpRx t = frame :: queueOf c' transport /\
        tcTransports c' = alter (fun t => t <| tpRx := tail (tpRx t) |>) transport (tcTransports c) /\
        tcSessions c' = tcSessions c /\ tcDrops c' = tcDrops c
  | (c', _) => c' = c
  end.
Proof.
  unfold ReadPacket. destruct (tcTransports c !! transport) as [t|] eqn:Et; [|done].
  destruct (tpRx t) as [|frame rx] eqn:Er; [by destruct (tpClosed t)|]. destruct (_ || _); [|done].
  exists t. assert (<[ transport := t <| tpRx := rx |> ]> (tcTransports c) =
    alter (fun t => t <| tpRx := tail (tpRx t) |>) transport (tcTransports c)) as Ea.
  { apply list_eq. intros i. destruct (decide (i = transport)) as [->|Hne].
    - rewrite list_lookup_alter_eq, Et, list_lookup_insert_eq by (by eapply lookup_lt_Some). simpl. by rewrite Er.
    - by rewrite list_lookup_alter_ne, list_lookup_insert_ne. }
  split_and!; [done| |done|done|done]. unfold queueOf. simpl. rewrite Er. f_equal.
  rewrite list_lookup_insert_eq by (by eapply lookup_lt_Some). done.
Qed.

Lemma alter_queue (f : trunkTransport -> trunkTransport) transport (c c' : trunkCapture) t :
  tcTransports c' = alter f transport (tcTransports c) ->
  queueOf c' t = if decide (t = transport) then from_option (tpRx ∘ f) [] (tcTransports c !! t) else queueOf c t.
Proof.
  intros E. unfold queueOf. rewrite E. case_decide as Ht; [subst; rewrite list_lookup_alter_eq|by rewrite list_lookup_alter_ne].
  by destruct (tcTransports c !! transport).
Qed.

(** One event keeps the equation of the stream. *)
Lemma step_stream event c slot transport :
  Wired c -> tcSessions c !! slot = Some (Some transport) ->
  let '(c', log) := trunkStep event c in
  Wired c' /\ tcSessions c' = tcSessions c /\
  queueOf c transport ++ deliveredTo slot log = readBy transport log ++ queueOf c' transport.
Proof.
  intros Hw Hs. destruct event as [frame|t pick]; simpl.
  - pose proof (dispatch_spec frame c Hw) as Hd. pose proof (dispatch_wired frame c Hw) as Hw'.
    destruct (dispatchFrame frame c) as [c' []]; unfold deliveredTo, readBy; simpl in *.
    + destruct Hd as (t & Ht & _ & Es & _ & Et). split_and!; [done|done|].
      rewrite (alter_queue _ _ _ _ transport Et). destruct (Z.eqb_spec (slotOf frame) slot) as [<-|Hne].
      * rewrite Hs in Ht. injection Ht as <-. rewrite decide_True by done. unfold queueOf.
        pose proof (Hw _ _ Hs) as Hv. by destruct (tcTransports c !! transport).
      * rewrite decide_False, app_nil_r; [done|]. intros <-. apply Hne.
        pose proof (Hw _ _ Hs) as H1. pose proof (Hw _ _ Ht) as H2. congruence.
    + destruct Hd as (Es & Et & _). split_and!; [done|done|]. rewrite app_nil_r. unfold queueOf. by rewrite Et.
  - pose proof (read_spec t pick c) as Hr. destruct (ReadPacket t pick c) as [c' []];
      [|subst; by rewrite app_nil_r..]. destruct Hr as (x & Hx & Hrx & Et & Es & _). split_and!; [|done|].
    + intros v u. rewrite Es, Et. intros Hv. rewrite <- (Hw _ _ Hv). destruct (decide (u = t)) as [->|Hne].
      * rewrite list_lookup_alter_eq. by destruct (tcTransports c !! t).
      * by rewrite list_lookup_alter_ne.
    + unfold deliveredTo, readBy. simpl. rewrite app_nil_r. case_bool_decide as Htt; simpl.
      * subst. unfold queueOf at 1. by rewrite Hx.
      * rewrite (alter_queue _ _ _ _ transport Et). by rewrite decide_False.
Qed.

(** C26. A session reads exactly the frames of its VLAN that were accepted, in the
    order in which they arrived; what it has not read is in its queue.  The
    frames and the reads of other sessions do not touch it. *)
Theorem session_stream events c slot transport :
  Wired c -> tcSessions c !! slot = Some (Some transport) ->
  let '(c', log) := runTrunk events c in
  queueOf c transport ++ deliveredTo slot log = readBy transport log ++ queueOf c' transport.
Proof.
  intros Hw Hs. revert c Hw Hs. induction events as [|event events IH]; intros c Hw Hs; simpl; [by rewrite app_nil_r|].
  pose proof (step_stream event c slot transport Hw Hs) as H. destruct (trunkStep event c) as [c1 log].
  destruct H as (Hw1 & Es & E). specialize (IH c1 Hw1). rewrite Es in IH. specialize (IH Hs).
  destruct (runTrunk events c1) as [c' rest]. unfold deliveredTo, readBy in *.
  by rewrite !omap_app, app_assoc, E, <- app_assoc, IH, app_assoc.
Qed.

(** ** Refused frames *)

Definition droppedTotal (d : trunkDrops) : Z := tdUntagged d + tdUnapproved d + tdOverrun d.

Lemma uint64_succ x y z : uint64 x = uint64 y -> uint64 (uint64 x + z) = uint64 (y + z).
Proof. unfold uint64. intros H. by rewrite H, Zplus_mod_idemp_l. Qed.

Lemma total_step a b c : uint64 (uint64 (a + 1) + b + c) = uint64 (a + b + c + 1).
Proof. unfold uint64. rewrite <- Z.add_assoc, Zplus_mod_idemp_l. f_equal. lia. Qed.

Lemma unapproved_size vlan d :
  (size (tdUnapprovedByTag d) <= maxTrackedUnapprovedVLANs)%nat ->
  (size (tdUnapprovedByTag (recordUnapproved vlan d)) <= maxTrackedUnapprovedVLANs)%nat.
Proof.
  intros H. unfold recordUnapproved. simpl. destruct (_ && _) eqn:E; simpl; [done|]. unfold countTag.
  destruct (tdUnapprovedByTag d !! vlan) as [x|] eqn:Ex; [rewrite map_size_insert_Some; eauto|].
  rewrite map_size_insert_None by done. simpl in E. apply bool_decide_eq_false in E. lia.
Qed.

Lemma refused_counts c frame d :
  refused c frame d -> (size (tdUnapprovedByTag (tcDrops c)) <= maxTrackedUnapprovedVLANs)%nat ->
  uint64 (droppedTotal d) = uint64 (droppedTotal (tcDrops c) + 1) /\
  (size (tdUnapprovedByTag d) <= maxTrackedUnapprovedVLANs)%nat.
Proof.
  unfold droppedTotal. intros [H Hs|H Hs|t H Hs] Hsz; (split; [|try by apply unapproved_size]); try done.
  - simpl. apply total_step.
  - unfold recordUnapproved. destruct (_ && _); simpl; rewrite (Z.add_comm (tdUntagged _)), total_step; f_equal; lia.
  - simpl. rewrite (Z.add_comm _ (uint64 _)), Z.add_assoc, total_step. f_equal. lia.
Qed.

Lemma step_counts event c :
  Wired c -> (size (tdUnapprovedByTag (tcDrops c)) <= maxTrackedUnapprovedVLANs)%nat ->
  let '(c', log) := trunkStep event c in
  Wired c' /\ uint64 (droppedTotal (tcDrops c')) = uint64 (droppedTotal (tcDrops c) + Z.of_nat (refusals log)) /\
  (size (tdUnapprovedByTag (tcDrops c')) <= maxTrackedUnapprovedVLANs)%nat.
Proof.
  intros Hw Hs. destruct event as [frame|t pick]; simpl.
  - pose proof (dispatch_spec frame c Hw) as Hd. pose proof (dispatch_wired frame c Hw) as Hw'.
    destruct (dispatchFrame frame c) as [c' []]; unfold refusals; simpl in *.
    + destruct Hd as (t & _ & _ & _ & -> & _). by rewrite Z.add_0_r.
    + destruct Hd as (_ & _ & Hr). by destruct (refused_counts _ _ _ Hr Hs).
  - pose proof (read_spec t pick c) as Hr. destruct (ReadPacket t pick c) as [c' []];
      [|subst; unfold refusals; simpl; by rewrite Z.add_0_r..]. destruct Hr as (x & Hx & _ & Et & Es & Ed).
    unfold refusals. simpl. rewrite Ed, Z.add_0_r. split_and!; [|done|done].
    intros v u. rewrite Es, Et. intros Hv. rewrite <- (Hw _ _ Hv). destruct (decide (u = t)) as [->|Hne].
    + rewrite list_lookup_alter_eq. by destruct (tcTransports c !! t).
    + by rewrite list_lookup_alter_ne.
Qed.

(** Every frame that no session gets is counted exactly once, in counters
    that wrap around at 2^64, and the unapproved tags that are named are never
    more than sixteen, whatever is on the wire. *)
Theorem drops_counted events c :
  Wired c -> (size (tdUnapprovedByTag (tcDrops c)) <= maxTrackedUnapprovedVLANs)%nat ->
  let '(c', log) := runTrunk events c in
  dsTotal (dropsSnapshot (tcDrops c')) = uint64 (droppedTotal (tcDrops c) + Z.of_nat (refusals log)) /\
  (size (dsUnapprovedByVLAN (dropsSnapshot (tcDrops c'))) <= maxTrackedUnapprovedVLANs)%nat.
Proof.
  intros Hw Hs. change (dsTotal (dropsSnapshot ?d)) with (uint64 (droppedTotal d)). simpl. revert c Hw Hs.
  induction events as [|event events IH]; intros c Hw Hs; simpl; [by rewrite Z.add_0_r|].
  pose proof (step_counts event c Hw Hs) as H. destruct (trunkStep event c) as [c1 log]. destruct H as (Hw1 & E & Hs1).
  specialize (IH c1 Hw1 Hs1). destruct (runTrunk events c1) as [c' rest]. destruct IH as [IH Hs']. split; [|done].
  change (dsTotal (dropsSnapshot (tcDrops c'))) with (uint64 (droppedTotal (tcDrops c'))) in *. rewrite IH.
  unfold refusals. rewrite omap_app, length_app, Nat2Z.inj_add, Z.add_assoc. unfold uint64 in *.
  by rewrite <- Zplus_mod_idemp_l, E, Zplus_mod_idemp_l.
Qed.

(** ** Concrete runs *)

(** A trunk with a session on VLAN 10 and a native one. *)
Definition testTrunk : trunkCapture := (register 0 (register 10 newTrunkCapture).1).1.
Definition testFrame (vlan : Z) (byte : Z) : list Z :=
  replicate 12 0 ++ [0x81; 0; 0; vlan] ++ [8; 0; byte; byte].
Definition testEvents : list trunkEvent :=
  [Arrives (testFrame 10 1); Arrives (testFrame 20 2); Arrives (replicate 14 0); Reads 0 true; Arrives (testFrame 10 3);
   Reads 1 true; Arrives (testFrame 30 4)].

Lemma test_wired : Wired testTrunk.
Proof.
  intros vlan transport. change (tcSessions testTrunk) with (<[ 0 := Some 1%nat ]> (<[ 10 := Some 0%nat ]> (∅ : gmap Z (option nat)))).
  destruct (decide (vlan = 0)) as [->|]; [rewrite lookup_insert_eq|rewrite lookup_insert_ne by done]; [by intros [= <-]|].
  destruct (decide (vlan = 10)) as [->|]; [rewrite lookup_insert_eq|by rewrite lookup_insert_ne]. by intros [= <-].
Qed.

Lemma session_stream_witness :
  deliveredTo 10 (runTrunk testEvents testTrunk).2 = [testFrame 10 1; testFrame 10 3] /\
  let '(c', log) := runTrunk testEvents testTrunk in
  queueOf testTrunk 0 ++ deliveredTo 10 log = readBy 0 log ++ queueOf c' 0.
Proof. split; [vm_compute; reflexivity|]. apply session_stream; [apply test_wired|vm_compute; reflexivity]. Defined.

Lemma drops_counted_witness :
  refusals (runTrunk testEvents testTrunk).2 = 2%nat /\
  let '(c', log) := runTrunk testEvents testTrunk in
  dsTotal (dropsSnapshot (tcDrops c')) = uint64 (droppedTotal (tcDrops testTrunk) + Z.of_nat (refusals log)) /\
  (size (dsUnapprovedByVLAN (dropsSnapshot (tcDrops c'))) <= maxTrackedUnapprovedVLANs)%nat.
Proof. split; [vm_compute; reflexivity|]. apply drops_counted; [apply test_wired|vm_compute; lia]. Defined.

(** Replacing a session's transport does not look at the capture: on a dead
    one it succeeds, and gives a transport that blocks every read and refuses
    every frame, without being closed. *)
Theorem replace_hides_failure vlan c c' transport previous :
  failed c = true -> replace vlan c = (c', (transport, previous)) ->
  (forall pick, ReadPacket transport pick c' = (c', ReadBlocked)) /\
  (forall frame sent, SendPacket transport frame sent c' = (c', Some ErrTrunkCaptureFailed)) /\
  (register vlan c).2 = inr ErrTrunkCaptureFailed.
Proof.
  intros Hf E. injection E as <- <- <-. unfold ReadPacket, SendPacket, register. simpl.
  rewrite lookup_app_r, Nat.sub_diag by done. simpl. unfold failed in *. simpl. by rewrite Hf.
Qed.
