(* ===== verification/Sessions.v ===== *)
(** * Sessions of the daemon

    [daemon/session_registry.go], [admission.go], [simulation_resources.go]
    and the start and stop of a session in [daemon.go].  All of it runs under
    the daemon's mutex; the goroutine of a trunk capture may fail it at any
    time, which is the step [TrunkFails].

    A [*trunkCapture] is the index of the capture.  What the environment
    answers while a session starts is an argument ([Environment]): whether the
    interface exists, the configuration loads, the authored behavior targets
    are valid, the capture opens, the stack starts and the commit is written,
    and whether a new capture's goroutine has failed before the session
    registers.  The replay controller, the API
    server's copy, recovery files and run history are not part of the state. *)

From S2P Require Import Prelude.
From S2P Require Import Netip.
From S2P Require Import FabricTypes.
From S2P Require Import Fabric.
From S2P Require Import FabricAttachment.
From S2P Require Import Trunk.

Inductive sessionErr :=
| ErrSessionIDRequired
| ErrInterfaceInUse
| ErrPhysicalVLANInUse
| ErrInterfaceNotExist
| ErrConfig
| ErrSimulationSessionCapacity
| ErrSimulationDeviceCapacity
| ErrUnsafeTopology
| ErrBehaviorTargets
| ErrCaptureEngine
| ErrTransport (err : trunkErr)
| ErrStackStart
| ErrPersist
| ErrSimulationSessionNotFound
| ErrNoSimulationRunning.

Definition defaultSessionID : string := "default".
Definition maxActiveSessions : Z := 16.

(** What a session holds of a trunk: the interface, the capture, the slot and the transport. *)
Record trunkSlot := mkSlot { slInterface : string; slCapture : nat; slVlan : Z; slTransport : nat }.

Record Simulation := mkSimulation {
  smSessionID : string; smBinding : Binding; smDeviceCount : Z; smSlot : option trunkSlot
}.

Record Daemon := mkDaemon {
  dmSessions : gmap string Simulation;
  dmTrunks : gmap string nat;
  dmCaptures : list trunkCapture;
  dmSimulation : option string;
  dmMaxDevices : Z;
  dmPolicies : list PhysicalAttachmentPolicy
}.
#[export] Instance Daemon_rebuild : Rebuild Daemon := fun d =>
  mkDaemon (dmSessions d) (dmTrunks d) (dmCaptures d) (dmSimulation d) (dmMaxDevices d) (dmPolicies d).

Definition NewDaemon (maxDevices : Z) (policies : list PhysicalAttachmentPolicy) : Daemon := mkDaemon ∅ ∅ [] None maxDevices policies.

Record SimulationRequest := mkSimulationRequest {
  sqSessionID : string; sqInterface : string; sqAttachment : string; sqAttachmentMode : string; sqAccessVLAN : Z
}.

Record Environment := mkEnvironment {
  evInterfaceExists : bool;
  evScenario : option (config.Config * Z);
  evDryRun : bool;
  evTargetsValid : bool;
  evCaptureOpens : bool;
  evEarlyFailure : option string;
  evStackStarts : bool;
  evCommits : bool
}.

(** ** The registry *)

(** Whether a binding may run beside an active one. *)
Definition conflictWith (binding active : Binding) : option sessionErr :=
  if negb (bool_decide (bnInterface active = bnInterface binding)) then None
  else if bool_decide (bnMode active = ModeDirect) || bool_decide (bnMode binding = ModeDirect) then Some ErrInterfaceInUse
  else
    let activeNative := bool_decide (bnMode active = ModeAccess) in
    let incomingNative := bool_decide (bnMode binding = ModeAccess) in
    if activeNative && incomingNative then Some ErrInterfaceInUse
    else if negb (Bool.eqb activeNative incomingNative) then None
    else if bnAccessVLAN active =? bnAccessVLAN binding then Some ErrPhysicalVLANInUse
    else None.

(** The sessions are visited in any order; the first conflict decides which error it is. *)
Definition validateReplacement (sessionID : string) (binding : Binding) (sessions : gmap string Simulation) : option sessionErr :=
  if bool_decide (sessionID = ""%string) then Some ErrSessionIDRequired
  else head (omap (fun '(id, active) =>
         if bool_decide (id = sessionID) then None else conflictWith binding (smBinding active)) (map_to_list sessions)).

(** ** Admission *)

Definition sumDevices (sessions : list Simulation) : Z := foldr (fun sim acc => smDeviceCount sim + acc) 0 sessions.

Definition admitSession (sessionID : string) (incoming : Z) (d : Daemon) : option sessionErr :=
  let others := delete sessionID (dmSessions d) in
  let active := Z.of_nat (size others) in
  let devices := sumDevices (map_to_list others).*2 in
  if bool_decide (dmSessions d !! sessionID = None) && (maxActiveSessions <? active + 1) then Some ErrSimulationSessionCapacity
  else if dmMaxDevices d <? devices + incoming then Some ErrSimulationDeviceCapacity
  else None.

Record DaemonCapacity := mkCapacity { cpSessions : Z; cpDevices : Z; cpMaxSessions : Z; cpMaxDevices : Z }.

Definition aggregateUsage (d : Daemon) : DaemonCapacity :=
  mkCapacity (Z.of_nat (size (dmSessions d))) (sumDevices (map_to_list (dmSessions d)).*2) maxActiveSessions (dmMaxDevices d).

(** ** Requests *)

Definition onlyVLAN (policy : PhysicalAttachmentPolicy) : option Z :=
  if negb (bool_decide (ppMode policy = ModeTrunk)) then Some (ppAccessVLAN policy)
  else match ppAllowedVLANs policy with [vlan] => Some vlan | _ => None end.

Definition withDefaultBinding (req : SimulationRequest) (d : Daemon) : SimulationRequest :=
  if negb (bool_decide (sqAttachmentMode req = ""%string)) then req
  else
    match filter (fun policy => ppInterface policy = sqInterface req) (dmPolicies d) with
    | [only] =>
        if sqAccessVLAN req =? 0 then
          match onlyVLAN only with
          | Some vlan => mkSimulationRequest (sqSessionID req) (sqInterface req) (sqAttachment req) (ppMode only) vlan
          | None => req
          end
        else mkSimulationRequest (sqSessionID req) (sqInterface req) (sqAttachment req) (ppMode only) (sqAccessVLAN req)
    | _ => req
    end.

Definition bindingFromRequest (req : SimulationRequest) (d : Daemon) : Binding :=
  let binding := mkBinding (sqAttachment req) (sqInterface req) (sqAttachmentMode req) (sqAccessVLAN req) false in
  mkBinding (sqAttachment req) (sqInterface req) (sqAttachmentMode req) (sqAccessVLAN req)
    (existsb (fun policy => Approves policy binding) (dmPolicies d)).

(** The compiled topology, none for a configuration that has none. *)
Definition compileSimulationFabric (cfg : config.Config) (binding : Binding) : option Topology + sessionErr :=
  let checked report := if reSafe report then inl (Some (reTopology report)) else inr ErrUnsafeTopology in
  if negb (IsRouted (Some cfg)) then
    if negb (bool_decide (bnMode binding = ModeTrunk)) then inl None else checked (CompilePhysicalBinding binding)
  else match Compile (Some cfg) binding with Some report => checked report | None => inr ErrUnsafeTopology end.

(** ** Trunk captures *)

Definition onCapture (capture : nat) (f : trunkCapture -> trunkCapture) (d : Daemon) : Daemon :=
  d <| dmCaptures := alter f capture (dmCaptures d) |>.

Definition closeUnusedTrunk (iface : string) (d : Daemon) : Daemon :=
  match dmTrunks d !! iface with
  | None => d
  | Some capture =>
      match dmCaptures d !! capture with
      | Some c =>
          if bool_decide (tcSessions c = ∅) then onCapture capture closePhysical (d <| dmTrunks := delete iface (dmTrunks d) |>) else d
      | None => d
      end
  end.

(** The close function of a session's resources. *)
Definition closeSlot (slot : trunkSlot) (d : Daemon) : Daemon :=
  closeUnusedTrunk (slInterface slot) (onCapture (slCapture slot) (unregister (slVlan slot) (slTransport slot)) d).

Definition closeResources (slot : option trunkSlot) (d : Daemon) : Daemon :=
  match slot with Some slot => closeSlot slot d | None => d end.

(** What starting the session took, and the transport it replaced. *)
Record simulationResources := mkResources { rsSlot : option trunkSlot; rsPrevious : option nat }.

Definition rollback (resources : simulationResources) (d : Daemon) : Daemon :=
  match rsSlot resources, rsPrevious resources with
  | Some slot, Some previous => onCapture (slCapture slot) (restore (slVlan slot) (slTransport slot) (Some previous)) d
  | _, _ => d
  end.

Definition abort (resources : simulationResources) (d : Daemon) : Daemon := closeResources (rsSlot resources) (rollback resources d).

Definition acquireTrunkTransport (vlan : Z) (replacing : bool) (c : trunkCapture) : trunkCapture * ((nat * option nat) + trunkErr) :=
  if replacing then let '(c, acquired) := replace vlan c in (c, inl acquired)
  else match register vlan c with
       | (c, inl transport) => (c, inl (transport, None))
       | (c, inr err) => (c, inr err)
       end.

(** The capture of the interface, opened when there is none. *)
Definition openTrunk (iface : string) (env : Environment) (d : Daemon) : Daemon * option nat :=
  match dmTrunks d !! iface with
  | Some capture => (d, Some capture)
  | None =>
      if negb (evCaptureOpens env) then (d, None)
      else
        let capture := length (dmCaptures d) in
        let c := match evEarlyFailure env with Some message => fail message newTrunkCapture | None => newTrunkCapture end in
        (d <| dmTrunks := <[ iface := capture ]> (dmTrunks d) |> <| dmCaptures := dmCaptures d ++ [c] |>, Some capture)
  end.

Definition startTrunkSimulationResources (iface : string) (vlan : Z) (replacing : bool) (env : Environment) (d : Daemon)
    : Daemon * (simulationResources + sessionErr) :=
  if evDryRun env then (d, if evStackStarts env then inl (mkResources None None) else inr ErrStackStart)
  else if negb (evTargetsValid env) then (d, inr ErrBehaviorTargets)
  else
    match openTrunk iface env d with
    | (d, None) => (d, inr ErrCaptureEngine)
    | (d, Some capture) =>
        match dmCaptures d !! capture with
        | None => (d, inr ErrCaptureEngine)
        | Some c =>
            match acquireTrunkTransport vlan replacing c with
            | (_, inr err) => (d, inr (ErrTransport err))
            | (c, inl (transport, previous)) =>
                let d := onCapture capture (fun _ => c) d in
                let slot := mkSlot iface capture vlan transport in
                if evStackStarts env then (d, inl (mkResources (Some slot) previous))
                else
                  let release :=
                    match previous with
                    | Some _ => onCapture capture (restore vlan transport previous) d
                    | None => onCapture capture (unregister vlan transport) d
                    end in
                  (closeUnusedTrunk iface release, inr ErrStackStart)
            end
        end
    end.

(** A session of its own takes nothing of the trunks. *)
Definition startSimulationResources (env : Environment) (d : Daemon) : Daemon * (simulationResources + sessionErr) :=
  (d, if negb (evDryRun env) && negb (evTargetsValid env) then inr ErrBehaviorTargets
      else if negb (evDryRun env) && negb (evCaptureOpens env) then inr ErrCaptureEngine
      else if evStackStarts env then inl (mkResources None None) else inr ErrStackStart).

Definition startResourcesForRequest (req : SimulationRequest) (replacing : bool) (env : Environment) (d : Daemon)
    : Daemon * (simulationResources + sessionErr) :=
  if bool_decide (sqAttachmentMode req = ModeTrunk) then
    startTrunkSimulationResources (sqInterface req) (sqAccessVLAN req) replacing env d
  else if bool_decide (sqAttachmentMode req = ModeAccess) && negb (evDryRun env) && bool_decide (is_Some (dmTrunks d !! sqInterface req))
  then startTrunkSimulationResources (sqInterface req) nativeVLANKey replacing env d
  else startSimulationResources env d.

(** ** Starting and stopping *)

Definition publishSimulation (sim : Simulation) (d : Daemon) : Daemon :=
  d <| dmSessions := <[ smSessionID sim := sim ]> (dmSessions d) |>
    <| dmSimulation := match dmSimulation d with
                       | None => Some (smSessionID sim)
                       | Some selected => Some selected
                       end |>.

Definition startGeneration (req : SimulationRequest) (env : Environment) (d : Daemon) : Daemon * option sessionErr :=
  let sessionID := if bool_decide (sqSessionID req = ""%string) then defaultSessionID else sqSessionID req in
  let binding := bindingFromRequest req d in
  match validateReplacement sessionID binding (dmSessions d) with
  | Some err => (d, Some err)
  | None =>
      if negb (evDryRun env) && negb (evInterfaceExists env) then (d, Some ErrInterfaceNotExist)
      else
        match evScenario env with
        | None => (d, Some ErrConfig)
        | Some (cfg, devices) =>
            if dmMaxDevices d <? devices then (d, Some ErrConfig)
            else
              match admitSession sessionID devices d with
              | Some err => (d, Some err)
              | None =>
                  match compileSimulationFabric cfg binding with
                  | inr err => (d, Some err)
                  | inl _ =>
                      let active := dmSessions d !! sessionID in
                      match startResourcesForRequest req (bool_decide (is_Some active)) env d with
                      | (d, inr err) => (d, Some err)
                      | (d, inl resources) =>
                          if negb (evCommits env) then (abort resources d, Some ErrPersist)
                          else
                            let d := publishSimulation (mkSimulation sessionID binding devices (rsSlot resources)) d in
                            (closeResources (active ≫= smSlot) d, None)
                      end
                  end
              end
        end
  end.

Definition StartSimulation (req : SimulationRequest) (env : Environment) (d : Daemon) : Daemon * option sessionErr :=
  startGeneration (withDefaultBinding req d) env d.

(** [first] is some session of the registry; [persists] is whether the launch
    intent could be cleared. *)
Definition stopSimulation (first : gmap string Simulation -> option string) (clearIntent persists : bool) (d : Daemon)
    : Daemon * option sessionErr :=
  match dmSimulation d ≫= (dmSessions d !!.) with
  | None => (d, Some ErrNoSimulationRunning)
  | Some sim =>
      if clearIntent && negb persists then (d, Some ErrPersist)
      else
        let sessions := delete (smSessionID sim) (dmSessions d) in
        (closeResources (smSlot sim) (d <| dmSessions := sessions |> <| dmSimulation := first sessions |>), None)
  end.

Definition StopSimulation (first : gmap string Simulation -> option string) (sessionID : string) (persists : bool) (d : Daemon)
    : Daemon * option sessionErr :=
  if bool_decide (sessionID = ""%string) then stopSimulation first true persists d
  else if bool_decide (dmSessions d !! sessionID = None) then (d, Some ErrSimulationSessionNotFound)
  else stopSimulation first true persists (d <| dmSimulation := Some sessionID |>).

Definition SelectSimulation (sessionID : string) (d : Daemon) : Daemon * option sessionErr :=
  match dmSessions d !! sessionID with
  | None => (d, Some ErrSimulationSessionNotFound)
  | Some _ => (d <| dmSimulation := Some sessionID |>, None)
  end.

(** Every session is stopped, the selected one first; a round stops one, so
    the number of sessions is fuel enough. *)
Fixpoint shutdownLoop (fuel : nat) (first : gmap string Simulation -> option string) (d : Daemon) : Daemon :=
  match fuel with
  | O => d
  | S fuel =>
      if bool_decide (dmSessions d = ∅) then d
      else
        match stopSimulation first false true (d <| dmSimulation := first (dmSessions d) |>) with
        | (d, None) => shutdownLoop fuel first d
        | (d, Some _) => d
        end
  end.

Definition Shutdown (first : gmap string Simulation -> option string) (d : Daemon) : Daemon :=
  shutdownLoop (size (dmSessions d)) first d.
