(* ===== verification/Ledger.v ===== *)
(** * The ledger of the trunk captures

    Which session holds which slot of which capture, as the steps of
    [simulation_resources.go] change it.  [Ledger P d] says that exactly the
    slots of [P] are held, each by an open transport of its VLAN while the
    capture lives. *)

From S2P Require Import Prelude.
From S2P Require Import Netip.
From S2P Require Import Bytes.
From S2P Require Import FabricTypes.
From S2P Require Import Fabric.
From S2P Require Import FabricAttachment.
From S2P Require Import Trunk.
From S2P Require Import Sessions.

(** ** One capture *)

Definition holdsSlot (c : trunkCapture) (vlan : Z) (transport : nat) : Prop := tcSessions c !! vlan = Some (Some transport).

Definition openTransport (c : trunkCapture) (transport : nat) : Prop := tpClosed <$> tcTransports c !! transport = Some false.

Definition Sturdy (c : trunkCapture) : Prop :=
  Wired c /\ (forall vlan, tcSessions c !! vlan <> Some None) /\
  (failed c = false -> forall vlan transport, holdsSlot c vlan transport -> openTransport c transport).

Definition ofVlan (c : trunkCapture) (transport : nat) (vlan : Z) : Prop := tpVlan <$> tcTransports c !! transport = Some vlan.

(** What registering and replacing both do. *)
Definition attached (vlan : Z) (c : trunkCapture) : trunkCapture :=
  c <| tcTransports := tcTransports c ++ [mkTransport vlan [] false] |>
    <| tcSessions := <[ vlan := Some (length (tcTransports c)) ]> (tcSessions c) |>.

Lemma acquire_spec vlan replacing c :
  match acquireTrunkTransport vlan replacing c with
  | (c', inl (transport, previous)) =>
      c' = attached vlan c /\ transport = length (tcTransports c) /\ previous = mjoin (tcSessions c !! vlan) /\
      (replacing = false -> failed c = false /\ tcSessions c !! vlan = None)
  | (c', inr err) =>
      c' = c /\ replacing = false /\
      (failed c = true /\ err = ErrTrunkCaptureFailed \/ is_Some (tcSessions c !! vlan) /\ err = ErrTrunkVLANUnavailable vlan)
  end.
Proof.
  unfold acquireTrunkTransport, register, replace. destruct replacing; [done|].
  destruct (failed c) eqn:Ef; [by split_and!; [..|left]|].
  destruct (tcSessions c !! vlan) as [o|] eqn:Eo; [split_and!; [done..|right; split; [by eexists|done]]|done].
Qed.

Lemma lookup_below {A B} (f : A -> B) (l : list A) i y : f <$> l !! i = Some y -> (i < length l)%nat.
Proof. intros H. apply lookup_lt_is_Some. destruct (l !! i); [by eexists|done]. Qed.

Lemma ofVlan_attached c vlan v t : ofVlan c t v -> ofVlan (attached vlan c) t v.
Proof. intros H. unfold ofVlan in *. simpl. rewrite lookup_app_l; [done|]. by eapply lookup_below. Qed.

Lemma ofVlan_new c vlan : ofVlan (attached vlan c) (length (tcTransports c)) vlan.
Proof. unfold ofVlan. simpl. rewrite lookup_app_r, Nat.sub_diag; done. Qed.

Lemma attached_sturdy vlan c : Sturdy c -> Sturdy (attached vlan c).
Proof.
  intros (Hw & Hn & Ho). split_and!.
  - intros v t. simpl. destruct (decide (v = vlan)) as [->|Hne].
    + rewrite lookup_insert_eq. intros [= <-]. apply ofVlan_new.
    + rewrite lookup_insert_ne by done. intros Hv. by apply ofVlan_attached, Hw.
  - intros v. simpl. destruct (decide (v = vlan)) as [->|Hne]; [by rewrite lookup_insert_eq|by rewrite lookup_insert_ne].
  - intros Hf v t. unfold holdsSlot, openTransport. simpl. destruct (decide (v = vlan)) as [->|Hne].
    + rewrite lookup_insert_eq. intros [= <-]. by rewrite lookup_app_r, Nat.sub_diag.
    + rewrite lookup_insert_ne by done. intros Hv. pose proof (Ho Hf v t Hv) as Hc.
      rewrite lookup_app_l; [done|]. by eapply lookup_below.
Qed.

Lemma close_lookup transport c t :
  tcTransports (closeTransport transport c) !! t =
  (fun x => if decide (t = transport) then x <| tpClosed := true |> else x) <$> tcTransports c !! t.
Proof.
  unfold closeTransport. simpl. case_decide as H.
  - by rewrite H, list_lookup_alter_eq.
  - rewrite list_lookup_alter_ne by done. by destruct (tcTransports c !! t).
Qed.

Lemma ofVlan_close transport c t v : ofVlan (closeTransport transport c) t v <-> ofVlan c t v.
Proof. unfold ofVlan. rewrite close_lookup. destruct (tcTransports c !! t); simpl; [|done]. by case_decide. Qed.

(** Closing a transport that holds no slot. *)
Lemma close_sturdy transport c :
  Sturdy c -> (forall vlan, ~ holdsSlot c vlan transport) -> Sturdy (closeTransport transport c).
Proof.
  intros (Hw & Hn & Ho) Hun. split_and!; [|done|].
  - intros v t Hv. by apply ofVlan_close, Hw.
  - intros Hf v t Hv. pose proof (Ho Hf v t Hv) as Hc. unfold openTransport in *. rewrite close_lookup.
    destruct (tcTransports c !! t); [|done]. simpl. rewrite decide_False; [done|]. intros ->. by apply (Hun v).
Qed.

Lemma delete_slot vlan c v o :
  tcSessions (c <| tcSessions := delete vlan (tcSessions c) |>) !! v = Some o -> vlan <> v /\ tcSessions c !! v = Some o.
Proof. apply lookup_delete_Some. Qed.

Lemma sturdy_delete vlan c : Sturdy c -> Sturdy (c <| tcSessions := delete vlan (tcSessions c) |>).
Proof.
  intros (Hw & Hn & Ho). split_and!.
  - intros v t [_ Hv]%delete_slot. by apply Hw.
  - intros v [_ Hv]%delete_slot. by apply (Hn v).
  - intros Hf v t [_ Hv]%delete_slot. by apply (Ho Hf v).
Qed.

Lemma held_once c v w t : Wired c -> ofVlan c t v -> holdsSlot c w t -> w = v.
Proof. intros Hw Hv Hh. pose proof (Hw _ _ Hh) as H. unfold ofVlan in Hv. congruence. Qed.

Lemma unregister_sturdy vlan transport c : Sturdy c -> ofVlan c transport vlan -> Sturdy (unregister vlan transport c).
Proof.
  intros Hs Hv. unfold unregister. case_bool_decide as Hm; apply close_sturdy; try done; [by apply sturdy_delete|..];
    intros w Hw.
  - apply delete_slot in Hw as [Hne Hw]. apply Hne. symmetry. by eapply held_once; [apply Hs|..].
  - assert (w = vlan) as -> by (by eapply held_once; [apply Hs|..]). apply Hm. by rewrite Hw.
Qed.

Lemma unregister_holds vlan transport c v t :
  ofVlan c transport vlan -> Wired c ->
  holdsSlot (unregister vlan transport c) v t <-> holdsSlot c v t /\ ~ (v = vlan /\ t = transport).
Proof.
  intros Hv Hw. unfold unregister, holdsSlot. case_bool_decide as Hm; simpl.
  - rewrite lookup_delete_Some. apply mjoin_some in Hm. naive_solver.
  - split; [|naive_solver]. intros H. split; [done|]. intros [-> ->]. apply Hm. by rewrite H.
Qed.

(** Giving the slot back to what was replaced. *)
Lemma restore_attached vlan previous c :
  Sturdy c -> holdsSlot c vlan previous ->
  let c' := restore vlan (length (tcTransports c)) (Some previous) (attached vlan c) in
  Sturdy c' /\ tcSessions c' = tcSessions c.
Proof.
  intros Hs Hp. cbv zeta. unfold restore. simpl. rewrite lookup_insert_eq, bool_decide_eq_true_2 by done.
  match goal with |- context [closeTransport _ ?c0] => set (c1 := c0) end.
  assert (tcSessions c1 = tcSessions c) as E by (unfold c1; simpl; by rewrite insert_insert_eq, insert_id).
  destruct Hs as (Hw & Hn & Ho). split; [|done]. apply close_sturdy.
  - split_and!.
    + intros v t. rewrite E. intros Hv. by apply (ofVlan_attached c vlan), Hw.
    + intros v. rewrite E. apply Hn.
    + intros Hf v t. unfold holdsSlot. rewrite E. intros Hv. pose proof (Ho Hf v t Hv) as Hc. unfold openTransport in *.
      simpl. rewrite lookup_app_l; [done|]. by eapply lookup_below.
  - intros v. unfold holdsSlot. rewrite E. intros Hv. pose proof (lookup_below _ _ _ _ (Hw _ _ Hv)). lia.
Qed.

Lemma fail_closes message c :
  tcSessions (fail message c) = tcSessions c /\ failed (fail message c) = true /\
  (forall t v, ofVlan (fail message c) t v <-> ofVlan c t v).
Proof.
  unfold fail. destruct (tcFailure c) as [m|] eqn:E; [by unfold failed; rewrite E|].
  set (c1 := c <| tcFailure := Some message |>).
  assert (tcSessions c1 = tcSessions c /\ failed c1 = true /\ forall t v, ofVlan c1 t v <-> ofVlan c t v) as H by done.
  clearbody c1. generalize (map_to_list (tcSessions c)).*2 as l. intros l. revert c1 H.
  induction l as [|o l IH]; intros c1 H; simpl; [done|]. apply IH. destruct o as [t0|]; [|done].
  destruct H as (Es & Ef & Hv). split_and!; [done|done|]. intros t v. by rewrite ofVlan_close.
Qed.

Lemma fail_sturdy message c : Sturdy c -> Sturdy (fail message c).
Proof.
  intros (Hw & Hn & Ho). destruct (fail_closes message c) as (Es & Ef & Hv). split_and!.
  - intros v t. rewrite Es. intros H. by apply Hv, Hw.
  - intros v. rewrite Es. apply Hn.
  - by rewrite Ef.
Qed.

Lemma new_sturdy : Sturdy newTrunkCapture.
Proof. split_and!; intros; try done; unfold holdsSlot in *; by rewrite lookup_empty in *. Qed.

(** ** The captures of the daemon *)

(** A slot, as the trunks have it. *)
Definition heldIn (d : Daemon) (s : trunkSlot) : Prop :=
  exists c, dmTrunks d !! slInterface s = Some (slCapture s) /\ dmCaptures d !! slCapture s = Some c /\
    holdsSlot c (slVlan s) (slTransport s).

Definition Ledger (P : trunkSlot -> Prop) (d : Daemon) : Prop :=
  (forall s, P s <-> heldIn d s) /\
  (forall iface k, dmTrunks d !! iface = Some k -> exists c, dmCaptures d !! k = Some c /\ Sturdy c) /\
  (forall i j k, dmTrunks d !! i = Some k -> dmTrunks d !! j = Some k -> i = j).

(** A live capture that nobody uses. *)
Definition Idle (d : Daemon) (iface : string) : Prop :=
  exists k c, dmTrunks d !! iface = Some k /\ dmCaptures d !! k = Some c /\ tcSessions c = ∅ /\ failed c = false.

(** The slot's transport was made for its VLAN by the capture of its interface. *)
Definition Known (s : trunkSlot) (d : Daemon) : Prop :=
  exists c, dmTrunks d !! slInterface s = Some (slCapture s) /\ dmCaptures d !! slCapture s = Some c /\
    ofVlan c (slTransport s) (slVlan s).

Definition samePlace (s n : trunkSlot) : Prop := slInterface s = slInterface n /\ slVlan s = slVlan n.

Lemma ledger_ext P Q d : (forall s, P s <-> Q s) -> Ledger P d -> Ledger Q d.
Proof. intros H (Hp & ? & ?). split; [|done]. intros s. by rewrite <- H. Qed.

Lemma ledger_known P d s : Ledger P d -> P s -> Known s d.
Proof.
  intros (Hp & Hc & _) (c & Ht & Hk & Hh)%Hp. exists c. split_and!; [done..|].
  destruct (Hc _ _ Ht) as (c' & E & Hw & _). rewrite Hk in E. injection E as <-. by apply Hw.
Qed.

Lemma capture_at f k d j : dmCaptures (onCapture k f d) !! j = if decide (j = k) then f <$> dmCaptures d !! k else dmCaptures d !! j.
Proof.
  unfold onCapture. simpl. case_decide as H; [subst; apply list_lookup_alter_eq|by apply list_lookup_alter_ne].
Qed.

(** A step of one capture changes the slots of its interface only. *)
Lemma ledger_on P d iface k c f :
  Ledger P d -> dmTrunks d !! iface = Some k -> dmCaptures d !! k = Some c -> Sturdy (f c) ->
  Ledger (fun s => if decide (slInterface s = iface) then slCapture s = k /\ holdsSlot (f c) (slVlan s) (slTransport s) else P s)
    (onCapture k f d).
Proof.
  intros (Hp & Hc & Hi) Ht Hk Hs. split_and!; [| |by apply Hi].
  - intros s. unfold heldIn. simpl. setoid_rewrite capture_at. case_decide as Hd.
    + rewrite Hd, Ht. split.
      * intros [-> Hh]. exists (f c). rewrite decide_True by done. by rewrite Hk.
      * intros (c' & [= ->] & E & Hh). rewrite decide_True, Hk in E by done. by injection E as <-.
    + rewrite Hp. unfold heldIn. split; intros (c' & E & E' & Hh); exists c'; (split; [done|]).
      * rewrite decide_False; [done|]. intros Hj. rewrite Hj in E. by apply Hd, (Hi _ _ _ E Ht).
      * rewrite decide_False in E'; [done|]. intros Hj. rewrite Hj in E. by apply Hd, (Hi _ _ _ E Ht).
  - intros i j Hj. rewrite capture_at. case_decide as Hd; [subst; rewrite Hk; by exists (f c)|by eapply Hc].
Qed.

Lemma idle_on d iface k c f i :
  dmTrunks d !! iface = Some k -> dmCaptures d !! k = Some c ->
  Idle (onCapture k f d) i -> i <> iface -> (forall i j k, dmTrunks d !! i = Some k -> dmTrunks d !! j = Some k -> i = j) -> Idle d i.
Proof.
  intros Ht Hk (j & c' & Ej & Ec & H) Hne Hi. exists j, c'. split; [done|]. rewrite capture_at, decide_False in Ec; [done|].
  intros ->. by apply Hne, (Hi _ _ k).
Qed.

Lemma known_on d k f s :
  Known s d -> (forall c t v, dmCaptures d !! k = Some c -> ofVlan c t v -> ofVlan (f c) t v) -> Known s (onCapture k f d).
Proof.
  intros (c & Ht & Hc & Hv) Hf. unfold Known. simpl. setoid_rewrite capture_at. case_decide as Hd.
  - rewrite Hd in Hc, Ht. exists (f c). rewrite Hc, Hd. split_and!; [done..|]. by apply Hf.
  - by exists c.
Qed.

(** ** Closing *)

Lemma released_trunk iface k f d i j :
  dmTrunks (onCapture k f (d <| dmTrunks := delete iface (dmTrunks d) |>)) !! i = Some j ->
  iface <> i /\ dmTrunks d !! i = Some j.
Proof. apply lookup_delete_Some. Qed.

Lemma closeUnused_ledger P iface d : Ledger P d -> Ledger P (closeUnusedTrunk iface d).
Proof.
  intros HL. pose proof HL as (Hp & Hc & Hi). unfold closeUnusedTrunk.
  destruct (dmTrunks d !! iface) as [k|] eqn:Ht; [|done]. destruct (dmCaptures d !! k) as [c|] eqn:Hk; [|done].
  case_bool_decide as He; [|done]. split_and!.
  - intros s. rewrite Hp. unfold heldIn. simpl. setoid_rewrite capture_at. setoid_rewrite lookup_delete_Some. split.
    + intros (c' & E & E' & Hh). destruct (decide (iface = slInterface s)) as [->|Hne].
      * rewrite Ht in E. injection E as Ek. rewrite <- Ek, Hk in E'. injection E' as <-. unfold holdsSlot in Hh.
        by rewrite He in Hh.
      * exists c'. split; [done|]. rewrite decide_False; [done|]. intros Hj. rewrite Hj in E. by apply Hne, (Hi _ _ k).
    + intros (c' & [Hne E] & E' & Hh). exists c'. split; [done|]. rewrite decide_False in E'; [done|].
      intros Hj. apply Hne, (Hi _ _ k); [done|]. by rewrite <- Hj.
  - intros i j [Hne Hj]%released_trunk. rewrite capture_at, decide_False; [by apply (Hc i)|].
    intros ->. by apply Hne, (Hi _ _ k).
  - intros i j k' [_ ?]%released_trunk [_ ?]%released_trunk. by eapply Hi.
Qed.

Lemma closeUnused_idle P iface d i :
  Ledger P d -> Idle (closeUnusedTrunk iface d) i -> i <> iface /\ Idle d i.
Proof.
  intros (Hp & Hc & Hi). unfold closeUnusedTrunk.
  destruct (dmTrunks d !! iface) as [k|] eqn:Ht.
  2: { intros H. split; [|done]. intros ->. destruct H as (? & ? & H & _). congruence. }
  destruct (Hc _ _ Ht) as (c & Hk & Hs). rewrite Hk. case_bool_decide as He.
  - intros (j & c' & [Hne Ej]%released_trunk & Ec & H). split; [done|].
    exists j, c'. split; [done|]. rewrite capture_at, decide_False in Ec; [done|]. intros ->. by apply Hne, (Hi _ _ k).
  - intros H. split; [|done]. intros ->. destruct H as (j & c' & Ej & Ec & He' & _). congruence.
Qed.

(** Closing a slot takes it out of the ledger, and leaves its trunk only to
    other sessions. *)
Lemma closeSlot_ledger P s d :
  Ledger P d -> Known s d ->
  Ledger (fun s' => P s' /\ s' <> s) (closeSlot s d) /\
  (forall i, Idle (closeSlot s d) i -> i <> slInterface s /\ Idle d i).
Proof.
  intros HL (c & Ht & Hk & Hv). pose proof HL as (Hp & Hc & Hi).
  destruct (Hc _ _ Ht) as (c' & E & Hs). rewrite Hk in E. injection E as <-. unfold closeSlot.
  set (f := unregister (slVlan s) (slTransport s)).
  pose proof (ledger_on P d _ _ c f HL Ht Hk (unregister_sturdy _ _ _ Hs Hv)) as HL'. split.
  - eapply closeUnused_ledger, ledger_ext; [|exact HL']. intros s'. cbv beta. case_decide as Hd.
    + rewrite Hp. unfold f, heldIn. rewrite Hd, Ht, unregister_holds by (exact Hv || exact (proj1 Hs)). split.
      * intros (Ek & Hh & Hne). split; [exists c; by rewrite Ek|]. intros ->. by apply Hne.
      * intros [(c' & [= Ek] & E & Hh) Hne]. rewrite <- Ek, Hk in E. injection E as <-. split_and!; [done..|].
        intros [Ev Et]. apply Hne. destruct s, s'. simpl in *. congruence.
    + split; [|by intros [? _]]. intros H. split; [done|]. intros ->. done.
  - intros i H. destruct (closeUnused_idle _ _ _ _ HL' H) as [Hne Hidle]. split; [done|].
    by eapply idle_on; [..|exact Hi].
Qed.

(** ** Taking a slot *)

Definition Busy (d : Daemon) : Prop := forall iface, ~ Idle d iface.

(** Everything but the trunks. *)
Definition onlyTrunks (d d' : Daemon) : Prop :=
  dmSessions d' = dmSessions d /\ dmSimulation d' = dmSimulation d /\ dmMaxDevices d' = dmMaxDevices d /\
  dmPolicies d' = dmPolicies d.

Lemma closeUnused_only iface d : onlyTrunks d (closeUnusedTrunk iface d).
Proof. unfold closeUnusedTrunk. repeat case_match; done. Qed.

Lemma onlyTrunks_on k f d d' : onlyTrunks (onCapture k f d) d' -> onlyTrunks d d'.
Proof. done. Qed.

Lemma onlyTrunks_trans d1 d2 d3 : onlyTrunks d1 d2 -> onlyTrunks d2 d3 -> onlyTrunks d1 d3.
Proof. unfold onlyTrunks. intros (-> & -> & -> & ->) (-> & -> & -> & ->). done. Qed.

Lemma closeSlot_only s d : onlyTrunks d (closeSlot s d).
Proof. unfold closeSlot. apply (closeUnused_only _ (onCapture (slCapture s) _ d)). Qed.

Lemma closeSlot_busy P s d : Ledger P d -> Known s d -> (forall i, Idle d i -> i = slInterface s) -> Busy (closeSlot s d).
Proof. intros HL Hk Hb i Hi. destruct (closeSlot_ledger P s d HL Hk) as [_ H]. destruct (H i Hi) as [Hne Hd]. by apply Hne, Hb. Qed.

Lemma openTrunk_spec P iface env d :
  Ledger P d ->
  match openTrunk iface env d with
  | (d', None) => d' = d
  | (d', Some k) =>
      Ledger P d' /\ dmTrunks d' !! iface = Some k /\ onlyTrunks d d' /\ (forall i, Idle d' i -> i = iface \/ Idle d i)
  end.
Proof.
  intros HL. pose proof HL as (Hp & Hc & Hi). unfold openTrunk. destruct (dmTrunks d !! iface) as [k|] eqn:Ht.
  { split_and!; [done..|]. by right. }
  destruct (evCaptureOpens env); [|done]. simpl. set (c := match evEarlyFailure env with Some m => _ | None => _ end).
  assert (Sturdy c /\ tcSessions c = ∅) as [Hs He].
  { unfold c. destruct (evEarlyFailure env) as [m|]; [|split; [apply new_sturdy|done]].
    split; [apply fail_sturdy, new_sturdy|apply fail_closes]. }
  assert (forall i j, dmTrunks d !! i = Some j -> (j < length (dmCaptures d))%nat) as Hlt.
  { intros i j (? & ? & _)%Hc. by eapply lookup_lt_Some. }
  split; [|split; [|split; [done|]]].
  - split_and!.
    + intros s. rewrite Hp. unfold heldIn. simpl. split.
      * intros (c' & E & E' & Hh). exists c'. split_and!; [|by rewrite lookup_app_l by (by eapply Hlt)|done].
        rewrite lookup_insert_ne; [done|congruence].
      * intros (c' & E & E' & Hh). apply lookup_insert_Some in E as [[Ei Ek]|[Hne E]].
        -- rewrite <- Ek, lookup_app_r, Nat.sub_diag in E' by done. injection E' as <-. unfold holdsSlot in Hh. by rewrite He in Hh.
        -- exists c'. rewrite lookup_app_l in E' by (by eapply Hlt). done.
    + intros i j. simpl. intros [[_ <-]|[_ E]]%lookup_insert_Some.
      * exists c. by rewrite lookup_app_r, Nat.sub_diag.
      * rewrite lookup_app_l by (by eapply Hlt). by eapply Hc.
    + intros i j k. simpl. intros [[<- <-]|[_ E]]%lookup_insert_Some [[<- E']|[_ E']]%lookup_insert_Some; try done.
      * apply Hlt in E'. lia.
      * subst. apply Hlt in E. lia.
      * by eapply Hi.
  - simpl. apply lookup_insert_eq.
  - intros i (k & c' & E & E' & H). simpl in *. apply lookup_insert_Some in E as [[<- _]|[_ E]]; [by left|right].
    exists k, c'. rewrite lookup_app_l in E' by (by eapply Hlt). done.
Qed.

(** The slots once [n] is taken: its place has no other holder. *)
Definition taking (P : trunkSlot -> Prop) (n : option trunkSlot) (s : trunkSlot) : Prop :=
  n = Some s \/ P s /\ forall n', n = Some n' -> ~ samePlace s n'.

Section taken.
Context (P : trunkSlot -> Prop) (d : Daemon) (iface : string) (k : nat) (c : trunkCapture).
Hypothesis (HL : Ledger P d) (Ht : dmTrunks d !! iface = Some k) (Hk : dmCaptures d !! k = Some c).

Lemma capture_sturdy : Sturdy c.
Proof. destruct HL as (_ & Hc & _). destruct (Hc _ _ Ht) as (c' & E & Hs). rewrite Hk in E. by injection E as ->. Qed.

Lemma held_here s : P s -> slInterface s = iface -> slCapture s = k /\ holdsSlot c (slVlan s) (slTransport s).
Proof.
  destruct HL as (Hp & _). intros (c' & E & E' & Hh)%Hp Hs. rewrite Hs, Ht in E. injection E as E.
  rewrite <- E, Hk in E'. by injection E' as ->.
Qed.

Lemma held_there s : slInterface s = iface -> slCapture s = k -> holdsSlot c (slVlan s) (slTransport s) -> P s.
Proof. destruct HL as (Hp & _). intros Hi Hs Hh. apply Hp. exists c. by rewrite Hi, Hs. Qed.

Context (vlan : Z).
Let n := mkSlot iface k vlan (length (tcTransports c)).
Let d' := onCapture k (fun _ => attached vlan c) d.

Lemma taken_fresh s : Known s d -> s <> n.
Proof.
  intros (c' & E & E' & Hv) ->. simpl in *. rewrite Hk in E'. injection E' as <-. apply lookup_below in Hv. lia.
Qed.

Lemma taken_ledger : Ledger (taking P (Some n)) d'.
Proof.
  eapply ledger_ext; [|apply (ledger_on P d iface k c (fun _ => attached vlan c) HL Ht Hk), attached_sturdy, capture_sturdy].
  intros s. cbv beta. unfold taking. unfold holdsSlot at 1. simpl. case_decide as Hd.
  - destruct (decide (slVlan s = vlan)) as [Hv|Hv].
    + rewrite Hv, lookup_insert_eq. split.
      * intros [E [= Et]]. left. unfold n. rewrite Et. destruct s. simpl in *. congruence.
      * intros [[= <-]|[_ Hne]]; [done|]. by destruct (Hne n eq_refl).
    + rewrite lookup_insert_ne by done. split.
      * intros [E Hh]. right. split; [by apply held_there|]. intros ? [= <-] [_ ?]. done.
      * intros [[= <-]|[HP _]]; [done|]. by apply held_here.
  - split; [intros HP; right; split; [done|]; by intros ? [= <-] [? _]|]. intros [[= <-]|[HP _]]; [done|by apply HP].
Qed.

Lemma taken_capture : dmCaptures d' !! k = Some (attached vlan c).
Proof. unfold d'. by rewrite capture_at, decide_True, Hk. Qed.

Lemma taken_known s : Known s d -> Known s d'.
Proof.
  intros H. apply known_on; [done|]. intros c' t v E. rewrite Hk in E. injection E as <-. apply ofVlan_attached.
Qed.

Lemma taken_new : Known n d'.
Proof. exists (attached vlan c). split; [done|]. split; [apply taken_capture|apply ofVlan_new]. Qed.

Lemma taken_busy : (forall i, Idle d i -> i = iface) -> Busy d'.
Proof.
  intros Hi i H. destruct (decide (i = iface)) as [->|Hne].
  - destruct H as (j & c' & E & E' & He & _). change (dmTrunks d !! iface = Some j) in E. rewrite Ht in E. injection E as <-.
    rewrite taken_capture in E'. injection E' as <-. simpl in He. by apply insert_non_empty in He.
  - apply Hne, Hi. eapply idle_on; [exact Ht|exact Hk|exact H|done|apply HL].
Qed.

(** Putting the replaced transport back gives the ledger back. *)
Lemma restored_ledger previous :
  holdsSlot c vlan previous ->
  let d'' := onCapture k (restore vlan (length (tcTransports c)) (Some previous)) d' in
  Ledger P d'' /\ Known n d'' /\ (forall i, Idle d'' i -> Idle d' i).
Proof.
  intros Hp. cbv zeta. destruct (restore_attached vlan previous c capture_sturdy Hp) as [Hs Es].
  set (f := restore vlan (length (tcTransports c)) (Some previous)) in *. split_and!.
  - eapply ledger_ext; [|apply (ledger_on _ d' iface k _ f taken_ledger Ht taken_capture Hs)].
    intros s. cbv beta. unfold holdsSlot. rewrite Es. case_decide as Hd.
    + split; [intros [? ?]; by apply held_there|intros ?; by apply held_here].
    + unfold taking. split; [intros [[= <-]|[HP _]]; [done|by apply HP]|].
      intros HP. right. split; [done|]. by intros ? [= <-] [? _].
  - apply known_on; [apply taken_new|]. intros c' t v E. rewrite taken_capture in E. injection E as <-.
    unfold f, restore. case_bool_decide; intros Hv; apply ofVlan_close; exact Hv.
  - intros i (j & c' & Ej & Ec & He & Hf). rewrite capture_at in Ec. case_decide as Hj; [|by exists j, c'].
    rewrite taken_capture in Ec. injection Ec as <-. rewrite Es in He. unfold holdsSlot in Hp. by rewrite He in Hp.
Qed.

(** Closing it again where nothing was replaced. *)
Lemma untaken_ledger : tcSessions c !! vlan = None -> Ledger P (closeSlot n d').
Proof.
  intros Hn. destruct (closeSlot_ledger _ n d' taken_ledger taken_new) as [H _]. eapply ledger_ext; [|exact H].
  intros s. unfold taking. split.
  - intros [[[= <-]|[HP _]] Hne]; done.
  - intros HP. split.
    + right. split; [done|]. intros ? [= <-] [Hi Hv]. simpl in *. destruct (held_here s HP Hi) as [_ Hh].
      unfold holdsSlot in Hh. by rewrite Hv, Hn in Hh.
    + apply taken_fresh. by eapply ledger_known.
Qed.
End taken.

(** ** Starting and aborting the resources of a session *)

(** What a session started with: a slot of its own, or none; aborting gives
    the ledger back. *)
Record Resourced (P : trunkSlot -> Prop) (iface : string) (vlan : Z) (resources : simulationResources) (d' : Daemon) : Prop := {
  stLedger : Ledger (taking P (rsSlot resources)) d';
  stBusy : Busy d';
  stKnown s : P s -> Known s d';
  stSlot n : rsSlot resources = Some n ->
    slInterface n = iface /\ slVlan n = vlan /\ Known n d' /\ ~ P n;
  stAbort : Ledger P (abort resources d') /\ Busy (abort resources d') /\ onlyTrunks d' (abort resources d')
}.

Lemma taking_none P s : taking P None s <-> P s.
Proof. unfold taking. naive_solver. Qed.

Lemma started_none P iface vlan d : Ledger P d -> Busy d -> Resourced P iface vlan (mkResources None None) d.
Proof.
  intros HL Hb. split; try done.
  - eapply ledger_ext; [|exact HL]. intros s. by rewrite taking_none.
  - intros s. by apply ledger_known.
Qed.

Lemma mapped_none {A} (x : option (option A)) : x <> Some None -> mjoin x = None -> x = None.
Proof. by destruct x as [[]|]. Qed.

Lemma started_taken P iface vlan k c d previous :
  Ledger P d -> dmTrunks d !! iface = Some k -> dmCaptures d !! k = Some c -> (forall i, Idle d i -> i = iface) ->
  previous = mjoin (tcSessions c !! vlan) ->
  let n := mkSlot iface k vlan (length (tcTransports c)) in
  let d' := onCapture k (fun _ => attached vlan c) d in
  Resourced P iface vlan (mkResources (Some n) previous) d'.
Proof.
  intros HL Ht Hk Hi Hprev. cbv zeta. assert (Sturdy c) as Hs by by eapply capture_sturdy.
  pose proof (taken_busy P d iface k c HL Ht Hk vlan Hi) as Hb. split.
  - by apply taken_ledger.
  - done.
  - intros s HP. eapply taken_known; [done..|]. by eapply ledger_known.
  - intros n [= <-]. split_and!; [done|done|by eapply taken_new|]. intros HP.
    by eapply taken_fresh; [exact Hk|by eapply ledger_known|].
  - unfold abort, rollback. simpl. destruct previous as [t|].
    + symmetry in Hprev. apply mjoin_some in Hprev.
      destruct (restored_ledger P d iface k c HL Ht Hk vlan t Hprev) as (HL' & Hkn & Hid).
      destruct (closeSlot_ledger P _ _ HL' Hkn) as [HL'' Hid']. split; [|split].
      * eapply ledger_ext; [|exact HL'']. intros s. split; [by intros [? _]|]. intros HP. split; [done|].
        eapply taken_fresh; [exact Hk|]. by eapply ledger_known.
      * intros i H. destruct (Hid' i H) as [_ H']. by apply (Hb i), Hid.
      * eapply onlyTrunks_on, closeSlot_only.
    + assert (tcSessions c !! vlan = None) as Hn by (apply mapped_none; [apply Hs|done]).
      pose proof (taken_ledger P d iface k c HL Ht Hk vlan) as HL'.
      pose proof (taken_new d iface k c Ht Hk vlan) as Hkn. split; [by apply untaken_ledger|]. split.
      * eapply closeSlot_busy; [exact HL'|exact Hkn|]. intros i H. by apply Hb in H.
      * apply closeSlot_only.
Qed.

Lemma startTrunk_spec P iface vlan replacing env d :
  Ledger P d -> Busy d ->
  match startTrunkSimulationResources iface vlan replacing env d with
  | (d', inl resources) => onlyTrunks d d' /\ Resourced P iface vlan resources d'
  | (d', inr _) => onlyTrunks d d' /\ Ledger P d' /\ Busy d'
  end.
Proof.
  intros HL Hb. unfold startTrunkSimulationResources.
  destruct (evDryRun env); [destruct (evStackStarts env); (split; [done|]); [by apply started_none|done]|].
  destruct (evTargetsValid env); [|done]. simpl.
  pose proof (openTrunk_spec P iface env d HL) as Ho. destruct (openTrunk iface env d) as [d1 [k|]]; [|by subst].
  destruct Ho as (HL1 & Ht & Honly & Hid). pose proof HL1 as (_ & Hc & _). destruct (Hc _ _ Ht) as (c & Hk & Hs). rewrite Hk.
  assert (forall i, Idle d1 i -> i = iface) as Hi by (intros i H; destruct (Hid i H) as [?|H']; [done|by apply Hb in H']).
  pose proof (acquire_spec vlan replacing c) as Ha. destruct (acquireTrunkTransport vlan replacing c) as [c' [[t previous]|err]].
  - destruct Ha as (-> & -> & Hprev & _).
    pose proof (started_taken P iface vlan k c d1 previous HL1 Ht Hk Hi Hprev) as Hst. cbv zeta in Hst.
    destruct (evStackStarts env).
    + done.
    + pose proof (taken_ledger P d1 iface k c HL1 Ht Hk vlan) as HL2. pose proof (taken_new d1 iface k c Ht Hk vlan) as Hkn.
      destruct previous as [t|].
      * symmetry in Hprev. apply mjoin_some in Hprev.
        destruct (restored_ledger P d1 iface k c HL1 Ht Hk vlan t Hprev) as (HL' & _ & Hid').
        split; [|split; [by apply closeUnused_ledger|]].
        -- eapply onlyTrunks_trans; [exact Honly|]. do 2 eapply onlyTrunks_on. apply closeUnused_only.
        -- intros i H. destruct (closeUnused_idle _ _ _ _ HL' H) as [_ H']. by apply (stBusy _ _ _ _ _ Hst i), Hid'.
      * assert (tcSessions c !! vlan = None) as Hn by (apply mapped_none; [apply Hs|done]).
        destruct (stAbort _ _ _ _ _ Hst) as (HL' & Hb' & Ho'). split; [|by split].
        eapply onlyTrunks_trans; [exact Honly|]. by eapply onlyTrunks_on.
  - destruct Ha as (-> & -> & Herr). split; [done|]. split; [done|]. intros i H. pose proof (Hi i H) as ->.
    destruct H as (j & c0 & E & E' & He & Hf). rewrite Ht in E. injection E as <-. rewrite Hk in E'. injection E' as <-.
    destruct Herr as [[? _]|[[o Ho] _]]; [congruence|]. by rewrite He in Ho.
Qed.

Lemma startResources_spec P req replacing env d :
  Ledger P d -> Busy d ->
  let vlan := if bool_decide (sqAttachmentMode req = ModeTrunk) then sqAccessVLAN req else nativeVLANKey in
  match startResourcesForRequest req replacing env d with
  | (d', inl resources) =>
      onlyTrunks d d' /\ Resourced P (sqInterface req) vlan resources d' /\
      (is_Some (rsSlot resources) -> sqAttachmentMode req = ModeTrunk \/ sqAttachmentMode req = ModeAccess)
  | (d', inr _) => onlyTrunks d d' /\ Ledger P d' /\ Busy d'
  end.
Proof.
  intros HL Hb. unfold startResourcesForRequest. cbv zeta. case_bool_decide as Hm.
  - pose proof (startTrunk_spec P (sqInterface req) (sqAccessVLAN req) replacing env d HL Hb) as H.
    destruct (startTrunkSimulationResources _ _ _ _ _) as [d' [r|]]; [|done]. destruct H. split_and!; [done..|]. by left.
  - destruct (bool_decide _ && _ && _) eqn:Ea.
    + apply andb_true_iff in Ea as [[Ha%bool_decide_eq_true _]%andb_true_iff _].
      pose proof (startTrunk_spec P (sqInterface req) nativeVLANKey replacing env d HL Hb) as H.
      destruct (startTrunkSimulationResources _ _ _ _ _) as [d' [r|]]; [|done]. destruct H. split_and!; [done..|]. by right.
    + unfold startSimulationResources. repeat case_match; simplify_eq; try done.
      split; [done|]. split; [by apply started_none|]. by intros [? ?].
Qed.
