(* ===== verification/SessionTheorems.v ===== *)
(** * What the daemon's sessions guarantee *)

From S2P Require Import Prelude.
From S2P Require Import Netip.
From S2P Require Import Bytes.
From S2P Require Import NetipParse.
From S2P Require Import FabricTypes.
From S2P Require Import Fabric.
From S2P Require Import FabricAttachment.
From S2P Require Import FabricFacts.
From S2P Require Import FabricInvariant.
From S2P Require Import FabricDomain.
From S2P Require Import FabricTheorems.
From S2P Require Import Trunk.
From S2P Require Import Sessions.
From S2P Require Import Ledger.

(** ** A safe binding *)

(** What [validateBindingMode] accepts. *)
Definition soundMode (b : Binding) : Prop :=
  (bnMode b = ModeDirect /\ bnAccessVLAN b = 0) \/
  ((bnMode b = ModeAccess \/ bnMode b = ModeTrunk) /\ 1 <= bnAccessVLAN b <= 4094).

Lemma mode_checked c :
  findings (validateBindingMode c).2 = [] -> soundMode (scBinding c) /\ (validateBindingMode c).2 = c.
Proof.
  assert (forall l (d : Diagnostic), l ++ [d] <> []) as Hne by (by intros []).
  unfold validateBindingMode, soundMode, mbind, Compiling_bind, gets, findings.
  destruct (bool_decide (bnMode (scBinding c) = ""%string)); [simpl; intros Hf; by apply Hne in Hf|].
  destruct (bnPolicyApproved (scBinding c)); simpl; repeat case_bool_decide; repeat case_match; simpl; intros Hf;
    try (by apply Hne in Hf); (split; [|done]).
  all: rewrite ?negb_false_iff, ?orb_false_iff, ?Z.eqb_eq, ?Z.ltb_ge in *; naive_solver.
Qed.

(** ** What compiling keeps *)

(** Findings are only added, and the compiled binding stays. *)
Definition kept (c c' : scenarioCompiler) : Prop :=
  (exists t, findings c' = findings c ++ t) /\ tyBinding (scTopology c') = tyBinding (scTopology c).

Lemma kept_refl c : kept c c.
Proof. split; [exists []; by rewrite app_nil_r|done]. Qed.

Lemma kept_trans c1 c2 c3 : kept c1 c2 -> kept c2 c3 -> kept c1 c3.
Proof. intros [[t E] H] [[t' E'] H']. split; [exists (t ++ t'); by rewrite E', E, app_assoc|congruence]. Qed.

Lemma kept_framed {A} (m : Compiling A) c : Framed m -> kept c (m c).2.
Proof.
  intros Hm. assert (inStep c c) as Hc by by apply alike_deployments.
  destruct (inStep_framed m c c Hm Hc) as (_ & _ & _ & _ & Eb & _ & t & Et & _). split; [by exists t|done].
Qed.

Lemma kept_networks cfg c : scCfg c = Some cfg -> kept c (compileNetworks c).2.
Proof.
  intros E. unfold compileNetworks, mbind, Compiling_bind, gets. rewrite E.
  set (networks := forRange compileNetwork 0 (config.cfNetworks cfg)).
  pose proof (kept_framed networks c (framed_forRange _ _ _ _)) as Hk. destruct (networks c) as [[] d]. simpl in *.
  eapply kept_trans; [exact Hk|]. change (wp validateAttachmentNetwork (fun _ => kept d) d).
  unfold validateAttachmentNetwork. wp_walk; try apply kept_refl. split; [by eexists|done].
Qed.

(** What a report without findings says of its binding. *)
Lemma finish_kept c :
  wp finishScenario (fun r _ => forall report, r = Some report -> reSafe report = true ->
    findings c = [] /\ cbBinding (tyBinding (reTopology report)) = cbBinding (tyBinding (scTopology c)) /\
    cbWireTagged (tyBinding (reTopology report)) = cbWireTagged (tyBinding (scTopology c))) c.
Proof.
  unfold finishScenario. wp_step. apply (wp_mono _ (fun _ c' => findings c' = findings c /\
    cbBinding (tyBinding (scTopology c')) = cbBinding (tyBinding (scTopology c)) /\
    cbWireTagged (tyBinding (scTopology c')) = cbWireTagged (tyBinding (scTopology c)))).
  - unfold bindPoolNetwork. by wp_walk.
  - intros [] c' (Ef & Eb & Ew). wp_walk. intros report [= <-]. simpl. rewrite bool_decide_eq_true.
    change (reDiagnostics (scReport c')) with (findings c'). rewrite Ef. done.
Qed.

Lemma kept_empty c c' : kept c c' -> findings c' = [] -> findings c = [].
Proof. intros [[t ->] _] [? _]%app_eq_nil. done. Qed.

Lemma scenario_kept cfg c :
  Started (Some cfg) c ->
  wp compileScenario (fun r _ => forall report, r = Some report -> reSafe report = true ->
    findings c = [] /\ cbBinding (tyBinding (reTopology report)) = cbBinding (tyBinding (scTopology c)) /\
    cbWireTagged (tyBinding (reTopology report)) = cbWireTagged (tyBinding (scTopology c))) c.
Proof.
  intros Hst. unfold compileScenario. wp_step. pose proof (kept_networks cfg c (proj2 (proj2 Hst))) as H1.
  unfold wp at 1. destruct (compileNetworks c) as [[] c1]. simpl in *. apply wp_assoc, wp_bind.
  pose proof (kept_framed (compileDevices;; compileAttachments) c1 _) as H2.
  unfold wp at 1. destruct ((compileDevices;; compileAttachments) c1) as [ok c2]. simpl in *.
  pose proof (kept_trans _ _ _ H1 H2) as H. destruct ok; simpl; [|unfold wp; simpl; done].
  fold finishScenario. eapply wp_mono; [apply finish_kept|]. intros r c3 Hr report E Hsafe.
  destruct (Hr report E Hsafe) as (Ef & Eb & Ew). pose proof (proj2 H) as Et. rewrite Et in *.
  split; [|done]. by eapply kept_empty.
Qed.

Lemma binding_kept cfg b :
  wp compileBinding (fun _ c => findings c = [] ->
    soundMode b /\ cbBinding (tyBinding (scTopology c)) = b /\ cbWireTagged (tyBinding (scTopology c)) = wireTagged b)
    (newScenarioCompiler (Some cfg) b).
Proof.
  unfold compileBinding. wp_step. unfold wp at 1.
  pose proof (mode_checked (newScenarioCompiler (Some cfg) b)) as Hm.
  destruct (validateBindingMode _) as [[] c] eqn:E. simpl in Hm.
  assert (scBinding c = b) as Hb.
  { change c with (snd (tt, c)). rewrite <- E.
    change (wp validateBindingMode (fun _ c => scBinding c = b) (newScenarioCompiler (Some cfg) b)).
    unfold validateBindingMode. by wp_walk. }
  simpl. wp_walk; unfold findings in *; simpl; intros Hf; try (by apply app_eq_nil in Hf as [_ ?]).
  rewrite Hb. split; [|done]. by apply Hm.
Qed.

(** A safe topology is bound to what was asked, in a mode with its VLAN. *)
Lemma compiled_binding cfg b r :
  Compile (Some cfg) b = Some r -> reSafe r = true ->
  soundMode b /\ cbBinding (tyBinding (reTopology r)) = b /\ cbWireTagged (tyBinding (reTopology r)) = wireTagged b.
Proof.
  intros E Hsafe. unfold Compile in E. revert r E Hsafe.
  change (wp (compileBinding;; compileScenario) (fun r _ => forall report, r = Some report -> reSafe report = true ->
    soundMode b /\ cbBinding (tyBinding (reTopology report)) = b /\
    cbWireTagged (tyBinding (reTopology report)) = wireTagged b) (newScenarioCompiler (Some cfg) b)).
  wp_step. pose proof (binding_kept cfg b) as Hb. pose proof (compileBinding_start (Some cfg) _ (started_new _ b)) as Hst.
  unfold wp in Hb, Hst |- *. destruct (compileBinding _) as [[] c]. simpl in *.
  intros report E Hsafe. pose proof (scenario_kept cfg c Hst) as Hs. unfold wp in Hs.
  destruct (Hs report E Hsafe) as (Hf & -> & ->). by apply Hb.
Qed.

Lemma physical_binding b :
  reSafe (CompilePhysicalBinding b) = true ->
  soundMode b /\ cbBinding (tyBinding (reTopology (CompilePhysicalBinding b))) = b /\
  cbWireTagged (tyBinding (reTopology (CompilePhysicalBinding b))) = wireTagged b.
Proof.
  unfold CompilePhysicalBinding. simpl. intros Hf%bool_decide_eq_true. split; [|done].
  by apply (mode_checked (newScenarioCompiler None b)).
Qed.

(** ** What the daemon keeps *)

Definition claims (sessions : gmap string Simulation) (s : trunkSlot) : Prop :=
  exists id sim, sessions !! id = Some sim /\ smSlot sim = Some s.

(** A session's slot is the one its binding asks for. *)
Definition slotted (sim : Simulation) : Prop :=
  forall s, smSlot sim = Some s ->
    slInterface s = bnInterface (smBinding sim) /\
    (bnMode (smBinding sim) = ModeTrunk /\ slVlan s = bnAccessVLAN (smBinding sim) /\ 1 <= slVlan s <= 4094 \/
     bnMode (smBinding sim) = ModeAccess /\ slVlan s = nativeVLANKey).

Definition devicesOf (sessions : gmap string Simulation) : Z := sumDevices (map_to_list sessions).*2.

Record Live (d : Daemon) : Prop := {
  lvLedger : Ledger (claims (dmSessions d)) d;
  lvBusy : Busy d;
  lvSessions id sim : dmSessions d !! id = Some sim -> smSessionID sim = id /\ id <> ""%string /\ slotted sim /\ 0 <= smDeviceCount sim;
  lvApart i j a b : i <> j -> dmSessions d !! i = Some a -> dmSessions d !! j = Some b ->
    conflictWith (smBinding a) (smBinding b) = None;
  lvBudget : Z.of_nat (size (dmSessions d)) <= maxActiveSessions /\ devicesOf (dmSessions d) <= dmMaxDevices d;
  lvSelected : match dmSimulation d with Some id => is_Some (dmSessions d !! id) | None => dmSessions d = ∅ end
}.

Lemma conflict_sym a b : conflictWith a b = None -> conflictWith b a = None.
Proof.
  unfold conflictWith. rewrite (bool_decide_ext (bnInterface a = bnInterface b) (bnInterface b = bnInterface a)) by done.
  rewrite (orb_comm (bool_decide (bnMode a = ModeDirect))), (andb_comm (bool_decide (bnMode a = ModeAccess))), (Z.eqb_sym (bnAccessVLAN a)).
  assert (forall x y, Bool.eqb x y = Bool.eqb y x) as Hc by by intros [] [].
  by rewrite (Hc (bool_decide (bnMode a = ModeAccess))).
Qed.

Lemma slots_apart a b s t :
  slotted a -> slotted b -> conflictWith (smBinding a) (smBinding b) = None -> smSlot a = Some s -> smSlot b = Some t ->
  ~ samePlace s t.
Proof.
  intros Ha Hb Hc Hs Ht [Ei Ev]. destruct (Ha s Hs) as [Ia Ma], (Hb t Ht) as [Ib Mb]. unfold conflictWith in Hc.
  rewrite (bool_decide_eq_true_2 (_ = _)) in Hc by congruence. cbn [negb] in Hc.
  destruct Ma as [(Ma & Va & Ra)|[Ma Va]], Mb as [(Mb & Vb & Rb)|[Mb Vb]]; rewrite Ma, Mb in Hc; simpl in Hc; try done.
  - destruct (Z.eqb_spec (bnAccessVLAN (smBinding b)) (bnAccessVLAN (smBinding a))); [done|]. congruence.
  - unfold nativeVLANKey in Vb. lia.
  - unfold nativeVLANKey in Va. lia.
Qed.

(** ** Counting devices *)

Lemma sum_perm l k : l ≡ₚ k -> sumDevices l = sumDevices k.
Proof. unfold sumDevices. induction 1; simpl; lia. Qed.

Lemma devices_insert id sim m : m !! id = None -> devicesOf (<[ id := sim ]> m) = smDeviceCount sim + devicesOf m.
Proof. intros H. unfold devicesOf. by rewrite (sum_perm _ ((id, sim) :: map_to_list m).*2) by (by rewrite map_to_list_insert). Qed.

Lemma devices_delete id sim m : m !! id = Some sim -> devicesOf m = smDeviceCount sim + devicesOf (delete id m).
Proof. intros H. rewrite <- (devices_insert id) by apply lookup_delete_eq. by rewrite insert_delete_id. Qed.

Lemma devices_replace id sim m : devicesOf (<[ id := sim ]> m) = smDeviceCount sim + devicesOf (delete id m).
Proof. rewrite <- (insert_delete_eq m). apply devices_insert, lookup_delete_eq. Qed.

Lemma size_replace id sim (m : gmap string Simulation) : size (<[ id := sim ]> m) = S (size (delete id m)).
Proof. rewrite <- (insert_delete_eq m). apply map_size_insert_None, lookup_delete_eq. Qed.

(** ** Closing what a session held *)

Lemma closeResources_ledger Q old d :
  Ledger Q d -> Busy d -> (forall s, old = Some s -> Known s d) ->
  Ledger (fun s => Q s /\ old <> Some s) (closeResources old d) /\ Busy (closeResources old d) /\
  onlyTrunks d (closeResources old d).
Proof.
  intros HL Hb Hk. destruct old as [s|]; simpl.
  - destruct (closeSlot_ledger Q s d HL (Hk s eq_refl)) as [HL' Hid]. split; [|split].
    + eapply ledger_ext; [|exact HL']. intros s'. naive_solver.
    + intros i Hi. destruct (Hid i Hi) as [_ H]. by apply Hb in H.
    + apply closeSlot_only.
  - split; [|done]. eapply ledger_ext; [|exact HL]. naive_solver.
Qed.

Lemma claims_delete id sim m s :
  (forall i j a b s t, i <> j -> m !! i = Some a -> m !! j = Some b -> smSlot a = Some s -> smSlot b = Some t -> ~ samePlace s t) ->
  m !! id = Some sim -> claims (delete id m) s <-> claims m s /\ smSlot sim <> Some s.
Proof.
  intros Hap Hid. unfold claims. setoid_rewrite lookup_delete_Some. split.
  - intros (j & b & [Hne Hj] & Hs). split; [by exists j, b|]. intros Hs'. by apply (Hap id j sim b s s Hne).
  - intros [(j & b & Hj & Hs) Hne]. exists j, b. split_and!; [|done|done]. intros ->. congruence.
Qed.

Lemma live_apart d : Live d -> forall i j a b s t, i <> j -> dmSessions d !! i = Some a -> dmSessions d !! j = Some b ->
  smSlot a = Some s -> smSlot b = Some t -> ~ samePlace s t.
Proof.
  intros HL i j a b s t Hne Hi Hj. apply slots_apart; [by eapply lvSessions|by eapply lvSessions|]. by eapply lvApart.
Qed.

(** ** Publishing a session *)

Section publish.
Context (d : Daemon) (HL : Live d) (d1 : Daemon) (Honly : onlyTrunks d d1).
Context (id : string) (binding : Binding) (devices : Z) (resources : simulationResources) (iface : string) (vlan : Z).
Hypothesis (Hr : Resourced (claims (dmSessions d)) iface vlan resources d1).

Let sim := mkSimulation id binding devices (rsSlot resources).
Let old := dmSessions d !! id ≫= smSlot.

Hypothesis (Hs : slotted sim) (Hapart : forall j a, j <> id -> dmSessions d !! j = Some a -> conflictWith binding (smBinding a) = None).

Lemma old_claimed s : old = Some s -> claims (dmSessions d) s.
Proof. unfold old. intros (a & Ha & Hs')%bind_Some. by exists id, a. Qed.

Lemma published_claims s :
  taking (claims (dmSessions d)) (rsSlot resources) s /\ old <> Some s <-> claims (<[ id := sim ]> (dmSessions d)) s.
Proof.
  unfold taking. split.
  - intros [[Hn|[(j & a & Hj & Ha) _]] Ho].
    + exists id, sim. by rewrite lookup_insert_eq.
    + exists j, a. rewrite lookup_insert_ne; [done|]. intros <-. apply Ho. unfold old. by rewrite Hj.
  - intros (j & a & Hj & Ha). destruct (decide (id = j)) as [<-|Hne].
    + rewrite lookup_insert_eq in Hj. injection Hj as <-. split; [by left|]. intros Ho%old_claimed.
      by apply (stSlot _ _ _ _ _ Hr s Ha).
    + rewrite lookup_insert_ne in Hj by done. assert (claims (dmSessions d) s) as Hc by by exists j, a. split.
      * right. split; [done|]. intros n Hn Hp.
        apply (slots_apart sim a n s); [done|by eapply lvSessions|by eapply Hapart|done|done|].
        destruct Hp. by split.
      * unfold old. intros (b & Hb & Hs')%bind_Some. by apply (live_apart d HL id j b a s s).
Qed.

Hypothesis (Hid : id <> ""%string) (Hdev : 0 <= devices).
Hypothesis (Hsize : Z.of_nat (size (delete id (dmSessions d))) + 1 <= maxActiveSessions).
Hypothesis (Hmax : devicesOf (delete id (dmSessions d)) + devices <= dmMaxDevices d).

Lemma publish_live :
  let d' := closeResources old (publishSimulation sim d1) in
  Live d' /\ dmSessions d' = <[ id := sim ]> (dmSessions d).
Proof.
  cbv zeta. set (p := publishSimulation sim d1). destruct Honly as (Es & Esel & Em & _).
  assert (dmSessions p = <[ id := sim ]> (dmSessions d)) as Ep by (unfold p; simpl; by rewrite Es).
  destruct (closeResources_ledger (taking (claims (dmSessions d)) (rsSlot resources)) old p)
    as (HL' & Hb' & (Es' & Esel' & Em' & _)).
  { exact (stLedger _ _ _ _ _ Hr). } { exact (stBusy _ _ _ _ _ Hr). }
  { intros s Ho. exact (stKnown _ _ _ _ _ Hr s (old_claimed s Ho)). }
  set (d' := closeResources old p) in *. rewrite Ep in Es'. split; [|done]. split.
  - rewrite Es'. eapply ledger_ext; [|exact HL']. apply published_claims.
  - done.
  - rewrite Es'. intros j a [[<- <-]|[_ Ha]]%lookup_insert_Some; [done|by apply (lvSessions d)].
  - rewrite Es'. intros i j a b Hne [[<- <-]|[Hi Ha]]%lookup_insert_Some [[<- <-]|[Hj Hb]]%lookup_insert_Some; [done|..].
    + by eapply Hapart.
    + apply conflict_sym. by eapply Hapart.
    + exact (lvApart d HL i j a b Hne Ha Hb).
  - rewrite Es', Em', devices_replace, size_replace. change (dmMaxDevices p) with (dmMaxDevices d1).
    change (smDeviceCount sim) with devices. rewrite Em. split; lia.
  - rewrite Esel', Es'. unfold p. simpl. rewrite Esel. pose proof (lvSelected d HL) as Hsel.
    destruct (dmSimulation d) as [i|]; [|by rewrite lookup_insert_eq].
    destruct (decide (id = i)) as [<-|Hne]; [by rewrite lookup_insert_eq|by rewrite lookup_insert_ne].
Qed.
End publish.

(** ** Starting *)

Lemma validate_clear id binding sessions :
  validateReplacement id binding sessions = None ->
  id <> ""%string /\ forall j a, j <> id -> sessions !! j = Some a -> conflictWith binding (smBinding a) = None.
Proof.
  unfold validateReplacement. case_bool_decide as Hid; [done|]. intros H. split; [done|]. intros j a Hne Hj.
  destruct (conflictWith binding (smBinding a)) as [err|] eqn:E; [|done]. apply head_None in H.
  assert (err ∈ omap (fun '(i, active) => if bool_decide (i = id) then None else conflictWith binding (smBinding active))
    (map_to_list sessions)) as Hin; [|by rewrite H in Hin; apply not_elem_of_nil in Hin].
  apply list_elem_of_omap. exists (j, a). split; [by apply elem_of_map_to_list|]. by rewrite bool_decide_eq_false_2.
Qed.

Lemma admit_clear id incoming d :
  Live d -> admitSession id incoming d = None ->
  Z.of_nat (size (delete id (dmSessions d))) + 1 <= maxActiveSessions /\
  devicesOf (delete id (dmSessions d)) + incoming <= dmMaxDevices d.
Proof.
  intros HL. unfold admitSession. destruct (bool_decide _ && _) eqn:Ec; [done|].
  destruct (Z.ltb_spec (dmMaxDevices d) (sumDevices (map_to_list (delete id (dmSessions d))).*2 + incoming)) as [|Hd]; [done|].
  intros _. split; [|exact Hd]. apply andb_false_iff in Ec as [Ec|Ec%Z.ltb_ge]; [|done].
  apply bool_decide_eq_false in Ec. destruct (dmSessions d !! id) as [sim|] eqn:E; [|done].
  pose proof (lvBudget d HL) as [Hs _]. rewrite <- (insert_id _ _ _ E), size_replace in Hs. lia.
Qed.

Lemma compiled_mode cfg binding topology :
  compileSimulationFabric cfg binding = inl topology -> bnMode binding = ModeTrunk -> 1 <= bnAccessVLAN binding <= 4094.
Proof.
  intros E Hm. assert (soundMode binding -> 1 <= bnAccessVLAN binding <= 4094) as Hs.
  { intros [[Hd _]|[_ ?]]; [|done]. rewrite Hm in Hd. done. }
  unfold compileSimulationFabric in E. rewrite Hm, bool_decide_eq_true_2 in E by done. cbn [negb] in E.
  destruct (IsRouted (Some cfg)); cbn [negb] in E.
  - destruct (Compile (Some cfg) binding) as [r|] eqn:Er; [|done]. destruct (reSafe r) eqn:Es; [|done].
    apply Hs. by eapply compiled_binding.
  - destruct (reSafe (CompilePhysicalBinding binding)) eqn:Es; [|done]. apply Hs. by apply physical_binding.
Qed.

(** What the request of a start is once the defaults are in. *)
Definition startID (req : SimulationRequest) : string :=
  if bool_decide (sqSessionID req = ""%string) then defaultSessionID else sqSessionID req.

Definition countsDevices (env : Environment) : Prop := forall cfg n, evScenario env = Some (cfg, n) -> 0 <= n.

Lemma start_spec req env d :
  Live d -> countsDevices env ->
  match startGeneration req env d with
  | (d', Some _) => onlyTrunks d d' /\ Ledger (claims (dmSessions d)) d' /\ Busy d'
  | (d', None) =>
      Live d' /\ exists devices slot, dmSessions d' =
        <[ startID req := mkSimulation (startID req) (bindingFromRequest req d) devices slot ]> (dmSessions d)
  end.
Proof.
  intros HL Hn. unfold startGeneration. fold (startID req). set (binding := bindingFromRequest req d).
  assert (forall err : sessionErr, onlyTrunks d d /\ Ledger (claims (dmSessions d)) d /\ Busy d) as Hsame
    by (intros _; split; [done|]; split; [apply HL|by apply lvBusy]).
  destruct (validateReplacement _ _ _) as [err|] eqn:Ev; [by apply Hsame|]. apply validate_clear in Ev as [Hid Hapart].
  destruct (negb (evDryRun env) && negb (evInterfaceExists env)); [by apply Hsame; constructor|].
  destruct (evScenario env) as [[cfg devices]|] eqn:Esc; [|by apply Hsame; constructor].
  destruct (dmMaxDevices d <? devices); [by apply Hsame; constructor|].
  destruct (admitSession _ _ _) as [err|] eqn:Ea; [by apply Hsame|]. apply admit_clear in Ea as [Hsize Hmax]; [|done].
  destruct (compileSimulationFabric cfg binding) as [topology|err] eqn:Ec; [|by apply Hsame].
  pose proof (startResources_spec _ req (bool_decide (is_Some (dmSessions d !! startID req))) env d (lvLedger d HL) (lvBusy d HL)) as Hr.
  cbv zeta in Hr. destruct (startResourcesForRequest _ _ _ _) as [d1 [resources|err]]; [|done].
  destruct Hr as (Honly & Hr & Hmode). destruct (evCommits env); cbn [negb].
  - destruct (publish_live d HL d1 Honly (startID req) binding devices resources _ _ Hr) as [HL' Es']; [|done|done| |done|done|].
    + intros s Hs. destruct (stSlot _ _ _ _ _ Hr s Hs) as (Hi & Hv & _). split; [done|].
      case_bool_decide as Hm; [left|right].
      * split; [done|]. split; [done|]. rewrite Hv. by apply (compiled_mode cfg binding topology).
      * destruct (Hmode ltac:(by eexists)) as [?|?]; done.
    + by eapply Hn.
    + split; [done|]. by eexists _, _.
  - destruct (stAbort _ _ _ _ _ Hr) as (HL' & Hb' & Ho'). split; [by eapply onlyTrunks_trans|done].
Qed.

Lemma live_error d d' : Live d -> onlyTrunks d d' -> Ledger (claims (dmSessions d)) d' -> Busy d' -> Live d'.
Proof.
  intros HL (Es & Esel & Em & _) HL' Hb. destruct HL as [_ _ H1 H2 H3 H4]. rewrite <- Es, <- ?Esel, <- ?Em in *. by split.
Qed.

Lemma start_live req env d : Live d -> countsDevices env -> Live (startGeneration req env d).1.
Proof.
  intros HL Hn. pose proof (start_spec req env d HL Hn) as H. destruct (startGeneration req env d) as [d' [err|]]; [|apply H].
  destruct H as (? & ? & ?). by eapply live_error.
Qed.

(** ** Stopping *)

(** What Go's range over the registry may return first. *)
Definition picks (first : gmap string Simulation -> option string) : Prop :=
  forall m, match first m with Some id => is_Some (m !! id) | None => m = ∅ end.

Lemma stop_live first d id sim :
  picks first -> Live d -> dmSessions d !! id = Some sim ->
  let m := delete id (dmSessions d) in
  let d' := closeResources (smSlot sim) (d <| dmSessions := m |> <| dmSimulation := first m |>) in
  Live d' /\ dmSessions d' = m.
Proof.
  intros Hf HL Hs. cbv zeta. set (m := delete id (dmSessions d)).
  set (p := d <| dmSessions := m |> <| dmSimulation := first m |>).
  destruct (closeResources_ledger (claims (dmSessions d)) (smSlot sim) p) as (HL' & Hb' & (Es & Esel & Em & _)).
  { exact (lvLedger d HL). } { exact (lvBusy d HL). }
  { intros s Hsl. apply (ledger_known (claims (dmSessions d)) d); [apply HL|]. by exists id, sim. }
  change (dmSessions p) with m in Es. change (dmSimulation p) with (first m) in Esel. change (dmMaxDevices p) with (dmMaxDevices d) in Em.
  split; [|done]. split; rewrite ?Es, ?Esel, ?Em.
  - eapply ledger_ext; [|exact HL']. intros s. symmetry. by apply claims_delete; [apply live_apart|].
  - done.
  - intros j a [_ Ha]%lookup_delete_Some. by apply (lvSessions d).
  - intros i j a b Hne [_ Ha]%lookup_delete_Some [_ Hb]%lookup_delete_Some. by apply (lvApart d HL i j).
  - pose proof (lvBudget d HL) as [H1 H2]. rewrite (devices_delete id sim) in H2 by done. fold m in H2.
    pose proof (lvSessions d HL id sim Hs) as (_ & _ & _ & ?). unfold m.
    rewrite map_size_delete_Some by (by eexists). split; [lia|]. fold m. lia.
  - apply Hf.
Qed.

Lemma live_select id d : Live d -> is_Some (dmSessions d !! id) -> Live (d <| dmSimulation := Some id |>).
Proof. intros [H1 H2 H3 H4 H5 H6] Hs. split; [exact H1|exact H2|exact H3|exact H4|exact H5|exact Hs]. Qed.

Lemma stopSelected_live first clear persists d : picks first -> Live d -> Live (stopSimulation first clear persists d).1.
Proof.
  intros Hf HL. unfold stopSimulation. destruct (dmSimulation d) as [id|]; [|done]. simpl.
  destruct (dmSessions d !! id) as [sim|] eqn:Es; [|done]. destruct (clear && negb persists); [done|]. simpl.
  destruct (lvSessions d HL id sim Es) as (-> & _). by apply stop_live.
Qed.

Lemma stop_named first id persists d : picks first -> Live d -> Live (StopSimulation first id persists d).1.
Proof.
  intros Hf HL. unfold StopSimulation. case_bool_decide as Hid; [by apply stopSelected_live|].
  case_bool_decide as Hs; [done|]. apply stopSelected_live, live_select; [done..|].
  destruct (dmSessions d !! id); [by eexists|done].
Qed.

(** ** The captures run *)

Lemma live_capture d iface k f :
  Live d -> dmTrunks d !! iface = Some k ->
  (forall c, Sturdy c -> Sturdy (f c) /\ tcSessions (f c) = tcSessions c /\ (failed (f c) = false -> failed c = false)) ->
  Live (onCapture k f d).
Proof.
  intros HL Ht Hf. destruct HL as [H1 H2 H3 H4 H5 H6]. pose proof H1 as (Hp & Hc & Hi).
  destruct (Hc _ _ Ht) as (c & Hk & Hs). destruct (Hf c Hs) as (Hs' & Es & Hfl).
  split; [|intros i H|exact H3|exact H4|exact H5|exact H6].
  - eapply ledger_ext; [|exact (ledger_on _ d iface k c f H1 Ht Hk Hs')]. intros s. cbv beta. case_decide as Hd; [|done].
    change (dmSessions (onCapture k f d)) with (dmSessions d). unfold holdsSlot. rewrite Es. split.
    + intros [? ?]. by eapply held_there.
    + intros ?. by eapply held_here.
  - destruct H as (j & c' & E & E' & He & Hff). change (dmTrunks d !! i = Some j) in E. rewrite capture_at in E'.
    apply (H2 i). case_decide as Hj; [|by exists j, c']. rewrite Hk in E'. injection E' as <-. rewrite Hj in E.
    exists k, c. rewrite Es in He. by split_and!; [..|apply Hfl].
Qed.

Lemma step_kept event c :
  Sturdy c -> Sturdy (trunkStep event c).1 /\ tcSessions (trunkStep event c).1 = tcSessions c /\
  (failed (trunkStep event c).1 = false -> failed c = false).
Proof.
  intros (Hw & Hn & Ho). set (c' := (trunkStep event c).1).
  set (still := fun x => (tpVlan x, tpClosed x)).
  assert (tcSessions c' = tcSessions c /\ tcFailure c' = tcFailure c /\
    forall t, still <$> tcTransports c' !! t = still <$> tcTransports c !! t) as (Es & Ef & Et).
  { assert (forall t x rx, tcTransports c !! t = Some x ->
      forall u, still <$> <[ t := x <| tpRx := rx |> ]> (tcTransports c) !! u = still <$> tcTransports c !! u) as Hi.
    { intros t x rx Hx u. destruct (decide (u = t)) as [->|Hne]; [|by rewrite list_lookup_insert_ne].
      rewrite list_lookup_insert_eq by (by eapply lookup_lt_Some). by rewrite Hx. }
    unfold c', trunkStep, dispatchFrame, ReadPacket. destruct event as [frame|t pick]; repeat case_match; simplify_eq/=;
      (split; [done|]; split; [done|]; intros u; try done; by eapply Hi). }
  clearbody c'. split; [|split; [done|unfold failed; by rewrite Ef]]. split_and!.
  - intros v t Hv. rewrite Es in Hv. pose proof (Hw v t Hv) as H. specialize (Et t). unfold ofVlan.
    destruct (tcTransports c' !! t), (tcTransports c !! t); unfold still in Et; simpl in *; congruence.
  - intros v. rewrite Es. apply Hn.
  - intros Hf v t Hv. unfold holdsSlot, failed in *. rewrite Es in Hv. rewrite Ef in Hf. pose proof (Ho Hf v t Hv) as H.
    specialize (Et t). unfold openTransport in *. destruct (tcTransports c' !! t), (tcTransports c !! t); unfold still in Et; simpl in *; congruence.
Qed.

(** ** The daemon's runs *)

(** A step of the daemon: an API call, a frame that arrives at a capture or is
    read by a session, or a capture that dies. *)
Inductive daemonStep (first : gmap string Simulation -> option string) (d : Daemon) : Daemon -> Prop :=
| DaemonStarts req env : countsDevices env -> daemonStep first d (StartSimulation req env d).1
| DaemonStops id persists : daemonStep first d (StopSimulation first id persists d).1
| DaemonSelects id : daemonStep first d (SelectSimulation id d).1
| TrunkFails iface k message : dmTrunks d !! iface = Some k -> daemonStep first d (onCapture k (fail message) d)
| TrunkTraffic iface k event : dmTrunks d !! iface = Some k -> daemonStep first d (onCapture k (fun c => (trunkStep event c).1) d).

Definition daemonRun (first : gmap string Simulation -> option string) := rtc (daemonStep first).

Lemma new_trunks maxDevices policies i k : dmTrunks (NewDaemon maxDevices policies) !! i <> Some k.
Proof. apply lookup_empty_Some. Qed.

Lemma new_sessions maxDevices policies id sim : dmSessions (NewDaemon maxDevices policies) !! id <> Some sim.
Proof. apply lookup_empty_Some. Qed.

Lemma new_live maxDevices policies : 0 <= maxDevices -> Live (NewDaemon maxDevices policies).
Proof.
  intros Hm. split; [split; [|split]| | | |done|done].
  - intros s. split; [intros (id & sim & H & _); by apply new_sessions in H|intros (c & H & _); by apply new_trunks in H].
  - intros i k H. by apply new_trunks in H.
  - intros i j k H. by apply new_trunks in H.
  - intros i (k & c & H & _). by apply new_trunks in H.
  - intros id sim H. by apply new_sessions in H.
  - intros i j a b _ H. by apply new_sessions in H.
Qed.

Lemma step_live first d d' : picks first -> Live d -> daemonStep first d d' -> Live d'.
Proof.
  intros Hf HL [req env Hn|id persists|id|iface k message Ht|iface k event Ht].
  - by apply start_live.
  - by apply stop_named.
  - unfold SelectSimulation. destruct (dmSessions d !! id) eqn:E; [|done]. apply live_select; [done|by eexists].
  - apply (live_capture d iface); [done..|]. intros c Hs. destruct (fail_closes message c) as (Es & Ef & _).
    split; [by apply fail_sturdy|]. split; [done|by rewrite Ef].
  - apply (live_capture d iface); [done..|]. intros c. apply step_kept.
Qed.

Lemma run_live first maxDevices policies d :
  picks first -> 0 <= maxDevices -> daemonRun first (NewDaemon maxDevices policies) d -> Live d.
Proof.
  intros Hf Hm H. pose proof (new_live maxDevices policies Hm) as HL.
  induction H as [|x y z Hxy _ IH]; [done|]. by eapply IH, step_live.
Qed.
