(* ===== verification/DaemonTheorems.v ===== *)
(** * What the daemon guarantees its sessions

    Over every run of API calls, frames and dying captures: sessions that
    share an interface are isolated ([sessions_isolated]), the budget holds
    ([sessions_bounded]), a start that fails disturbs nobody
    ([failed_start_harmless]), and what a session's stack transmits is what
    its transport lets through ([session_egress]).  A trunk that fails before
    its first session cannot be started any more ([stuck_trunk]). *)

From S2P Require Import Prelude.
From S2P Require Import Netip.
From S2P Require Import Bytes.
From S2P Require Import Packet.
From S2P Require Import Vlan.
From S2P Require Import FabricTypes.
From S2P Require Import Fabric.
From S2P Require Import FabricAttachment.
From S2P Require Import FabricTheorems.
From S2P Require Import FabricRuntime.
From S2P Require Import FabricRuntimeTheorems.
From S2P Require Import Trunk.
From S2P Require Import Sessions.
From S2P Require Import Ledger.
From S2P Require Import SessionTheorems.

(** ** Isolation *)

Lemma dispatch_queue frame c vlan transport :
  Wired c -> holdsSlot c vlan transport ->
  match dispatchFrame frame c with
  | (c', true) => queueOf c' transport = queueOf c transport ++ (if slotOf frame =? vlan then [frame] else [])
  | (c', false) => queueOf c' transport = queueOf c transport
  end.
Proof.
  intros Hw Hh. pose proof (step_stream (Arrives frame) c vlan transport Hw Hh) as Hs. simpl in Hs.
  destruct (dispatchFrame frame c) as [c' []]; destruct Hs as (_ & _ & E); unfold deliveredTo, readBy in E; simpl in E.
  - rewrite <- E. by destruct (slotOf frame =? vlan).
  - by rewrite app_nil_r in E.
Qed.


(** The daemon never has more than sixteen sessions, nor more simulated devices
    than its budget, whatever is started, replaced, stopped or refused; a
    selected session is a running one. *)
Theorem sessions_bounded first maxDevices policies d
    (Hf : picks first) (Hm : 0 <= maxDevices) (Hrun : daemonRun first (NewDaemon maxDevices policies) d) :
  cpSessions (aggregateUsage d) <= cpMaxSessions (aggregateUsage d) /\
  0 <= cpDevices (aggregateUsage d) <= cpMaxDevices (aggregateUsage d) /\
  (dmSimulation d = None <-> dmSessions d = ∅) /\
  (forall id, dmSimulation d = Some id -> is_Some (dmSessions d !! id)).
Proof.
  pose proof (run_live _ _ _ _ Hf Hm Hrun) as HL. destruct (lvBudget d HL) as [Hs Hd]. pose proof (lvSelected d HL) as Hsel.
  split; [exact Hs|]. split; [split; [|exact Hd]|].
  - change (0 <= devicesOf (dmSessions d)). assert (map_Forall (fun _ sim => 0 <= smDeviceCount sim) (dmSessions d)) as H
      by (intros id sim Hid; by eapply lvSessions).
    clear -H. induction (dmSessions d) as [|id sim m Hn IH] using map_ind; [done|]. rewrite devices_insert by done.
    apply map_Forall_insert in H as [? H]; [|done]. specialize (IH H). lia.
  - destruct (dmSimulation d) as [id|]; (split; [|naive_solver]); split; try done.
    intros E. rewrite E, lookup_empty in Hsel. by destruct Hsel.
Qed.

(** ** Failures *)


(** ** What a session transmits *)

Lemma stripLoop_long fuel frame stripped :
  (ethHeaderLen <= length frame)%nat -> stripLoop fuel frame = Some stripped -> (ethHeaderLen <= length stripped)%nat.
Proof.
  revert frame. induction fuel as [|fuel IH]; intros frame Hl; cbn [stripLoop]; destruct (_ && _); try (by intros [= <-]);
    destruct (bool_decide _) eqn:Ed; try done; [by intros [= <-]|]. apply bool_decide_eq_false in Ed. apply IH.
  rewrite length_app, length_take, length_drop. unfold ethMACsLen, ethHeaderLen, dot1qTagLen in *. lia.
Qed.

Lemma forward_ethernet ranged r frame sent :
  forwardIPv4 ranged r frame = Some sent -> (ethHeaderLen <= length frame)%nat ->
  (ethHeaderLen <= length sent)%nat /\ etherTypeOf sent = etherTypeOf frame.
Proof.
  intros E Hl. assert (take ethHeaderLen sent = take ethHeaderLen frame) as Ht.
  { revert E. unfold forwardIPv4. destruct (_ || _); [by intros [= <-]|]. destruct (_ || _); [by intros [= <-]|].
    destruct (_ =? 0); [by intros [= <-]|]. destruct (_ <=? _); [done|]. intros E. injection E as <-.
    unfold overwrite at 1. rewrite take_app_le, take_take, Nat.min_id; [done|]. rewrite length_take. lia. }
  split.
  - apply (f_equal length) in Ht. rewrite !length_take in Ht. lia.
  - assert (forall i, (i < ethHeaderLen)%nat -> byteAt sent i = byteAt frame i) as Hb.
    { intros i Hi. unfold byteAt. by rewrite <- (lookup_take_lt _ ethHeaderLen), Ht, lookup_take_lt. }
    rewrite !etherType_lookup, !Hb by (unfold ethHeaderLen; lia). done.
Qed.

Lemma frameVLAN_untagged frame : untagged frame -> frameVLAN frame = (0, false).
Proof.
  intros Hu. unfold frameVLAN. destruct (bool_decide _) eqn:El; [done|]. apply bool_decide_eq_false in El. cbn [orb].
  destruct (Z.eqb_spec (bigUint16 (drop 12 frame)) dot1QEtherType) as [E|]; [|done]. exfalso.
  assert (isVLANTPID (etherTypeOf frame) = false) as H.
  { apply Hu. unfold ethHeaderLen, ethernetHeaderLength, dot1QHeaderLength in *. lia. }
  change (etherTypeOf frame) with (bigUint16 (drop 12 frame)) in H. rewrite E in H. done.
Qed.

Lemma frameVLAN_tagged frame vlan :
  (ethHeaderLen <= length frame)%nat -> untagged frame -> 1 <= vlan <= vlanIDMax ->
  frameVLAN (insertDot1Q frame vlan) = (vlan, true).
Proof.
  intros Hl Hu Hv. unfold frameVLAN. rewrite insert_length by (done || lia).
  rewrite bool_decide_eq_false_2 by (unfold ethHeaderLen, ethernetHeaderLength, dot1QHeaderLength, dot1qTagLen in *; lia).
  pose proof (insert_drop frame vlan Hl Hu ltac:(lia)) as Hd. unfold ethMACsLen in Hd. cbn [orb].
  change 14%nat with (12 + 2)%nat. rewrite <- drop_drop, Hd.
  change (bigUint16 (big16 dot1qTPID ++ ?x)) with dot1QEtherType. rewrite Z.eqb_refl. cbn [negb].
  change (drop 2 (big16 dot1qTPID ++ ?x)) with x.
  unfold vlanIDMax in Hv. rewrite bigUint16_big16 by lia. unfold dot1QVLANMask. change 4095 with (Z.ones 12) at 1 2 3.
  rewrite Z.land_ones, Z.mod_small by lia. destruct (Z.ltb_spec 0 vlan), (Z.ltb_spec vlan 4095); try lia. done.
Qed.

(** The slot of a session's transport, as the daemon asks for it. *)
Definition slotFor (b : Binding) : Z := if wireTagged b then bnAccessVLAN b else nativeVLANKey.

(** Whatever frame the stack of a session on a shared interface queues, tagged
    or not, what is transmitted carries the session's own VLAN and no other
    tag, or no tag for the native session, and its transport takes it: it is
    handed to the interface once, unless the capture is dead. *)
Theorem session_egress ranged cfg b r runtime pkt frame vlan c transport sent
    (Hr : Compile (Some cfg) b = Some r) (Hsafe : reSafe r = true) (Htop : frTopology runtime = reTopology r)
    (Hegress : finalizeEgressFrame ranged (Some runtime) pkt = inl (frame, vlan))
    (Htransport : ofVlan c transport (slotFor b)) :
  slotOf frame = slotFor b /\ vlan = (if wireTagged b then bnAccessVLAN b else -1) /\
  (exists own, untagged own /\ stripDot1Q frame = Some own) /\
  SendPacket transport frame sent c =
    if failed c then (c, Some ErrTrunkCaptureFailed)
    else (c <| tcSent := tcSent c ++ [frame] |>, if sent then None else Some ErrPhysical).
Proof.
  destruct (compiled_binding cfg b r Hr Hsafe) as (Hmode & Eb & Ew). unfold finalizeEgressFrame in Hegress.
  destruct (validateDiscoveryEgress _ _); [done|]. destruct (_ || _) eqn:El; [done|].
  apply orb_false_iff in El as [El1%Z.ltb_ge El2%Z.ltb_ge]. revert Hegress. set (len := if pkLength pkt =? 0 then _ else _) in *.
  set (queued := take (Z.to_nat len) (pkBuffer pkt)). assert (ethHeaderLen <= length queued)%nat as Hq
    by (unfold queued; rewrite length_take; lia).
  destruct (stripDot1Q queued) as [stripped|] eqn:Es; [|done]. destruct (forwardIPv4 _ _ _) as [own|] eqn:Ef; [|done].
  destruct (forward_ethernet _ _ _ _ Ef (stripLoop_long _ _ _ Hq Es)) as [Hl Et].
  assert (untagged own) as Hu.
  { intros _. rewrite Et. apply (stripDot1Q_untagged _ _ Es). exact (stripLoop_long _ _ _ Hq Es). }
  unfold frBinding. rewrite Htop, Ew, Eb. unfold slotFor in *. unfold wireTagged in *.
  unfold SendPacket, slotOf. unfold ofVlan in Htransport. destruct (tcTransports c !! transport) as [t|]; [|done].
  injection Htransport as Ht. rewrite Ht. case_bool_decide as Hm; cbn [negb].
  - intros [= <- <-]. assert (1 <= bnAccessVLAN b <= vlanIDMax) as Hv.
    { destruct Hmode as [[Hd _]|[_ ?]]; [by rewrite Hm in Hd|done]. }
    rewrite frameVLAN_tagged by done. split_and!; [done|done|exists own; split; [done|by apply strip_insert; [..|lia]]|].
    destruct (failed c); [done|]. unfold nativeVLANKey. destruct (Z.eqb_spec (bnAccessVLAN b) 0); [lia|].
    by rewrite Z.eqb_refl.
  - intros [= <- <-]. rewrite frameVLAN_untagged by done. split_and!; [done|done|exists own; split; [done|by apply strip_untagged]|].
    by destruct (failed c).
Qed.

(** ** A trunk that cannot be started *)

(** A start of a session that is not running on a trunk of the interface. *)
Definition trunkStart (d : Daemon) (iface : string) (start : SimulationRequest * Environment) : Prop :=
  sqInterface start.1 = iface /\ sqAttachmentMode start.1 = ModeTrunk /\ dmSessions d !! startID start.1 = None /\
  evDryRun start.2 = false.

Lemma start_refused d iface k c start :
  dmTrunks d !! iface = Some k -> dmCaptures d !! k = Some c -> failed c = true -> trunkStart d iface start ->
  exists err, StartSimulation start.1 start.2 d = (d, Some err).
Proof.
  intros Ht Hk Hf (Hi & Hm & Hn & Hd). destruct start as [req env]. simpl in *.
  assert (withDefaultBinding req d = req) as E by (unfold withDefaultBinding; by rewrite Hm, bool_decide_eq_false_2).
  unfold StartSimulation. rewrite E. unfold startGeneration. fold (startID req).
  destruct (validateReplacement _ _ _); [by eexists|]. destruct (negb _ && _); [by eexists|]. destruct (evScenario env) as [[cfg devices]|]; [|by eexists].
  destruct (_ <? _); [by eexists|]. destruct (admitSession _ _ _); [by eexists|].
  destruct (compileSimulationFabric _ _) as [topology|err]; [|by eexists]. rewrite Hn, bool_decide_eq_false_2 by by intros [? ?].
  unfold startResourcesForRequest, startTrunkSimulationResources. rewrite bool_decide_eq_true_2, Hd by done.
  destruct (evTargetsValid env); cbn [negb]; [|by eexists]. unfold openTrunk. rewrite Hi, Ht, Hk.
  unfold acquireTrunkTransport, register. rewrite Hf. by eexists.
Qed.

(** A trunk whose capture failed before its first session registered is never
    closed, since nobody holds a slot of it: however often a session is
    started on the interface's trunk, it is refused, and nothing changes,
    even when the interface is well again. *)
Theorem stuck_trunk d iface k c starts
    (Ht : dmTrunks d !! iface = Some k) (Hk : dmCaptures d !! k = Some c) (Hf : failed c = true)
    (Hs : Forall (trunkStart d iface) starts) :
  foldl (fun d start => (StartSimulation start.1 start.2 d).1) d starts = d /\
  Forall (fun start => is_Some (StartSimulation start.1 start.2 d).2) starts.
Proof.
  induction Hs as [|start starts Hstart Hs IH]; [done|]. destruct (start_refused d iface k c start Ht Hk Hf Hstart) as [err E].
  simpl. rewrite E. simpl. destruct IH as [IH1 IH2]. split; [done|]. constructor; [by rewrite E; eexists|done].
Qed.

(** ** Concrete runs *)

(** The first session of the registry, in the order of its keys. *)
Definition firstSession (m : gmap string Simulation) : option string := head (map_to_list m).*1.

Lemma firstSession_picks : picks firstSession.
Proof.
  intros m. unfold firstSession. destruct (map_to_list m) as [|[id sim] l] eqn:E; simpl; [by apply map_to_list_empty_iff|].
  exists sim. apply elem_of_map_to_list. rewrite E. by left.
Qed.

Definition testDaemon : Daemon := NewDaemon 100 [mkPolicy "eth0" ModeTrunk 0 [200; 210]].
Definition testRequest (id : string) (vlan : Z) : SimulationRequest := mkSimulationRequest id "eth0" "tester" ModeTrunk vlan.
Definition testEnvironment (early : option string) (stack : bool) : Environment :=
  mkEnvironment true (Some (labConfig "lab-access", 3)) false true true early stack true.
Definition twoSessions : Daemon :=
  (StartSimulation (testRequest "blue" 210) (testEnvironment None true)
    (StartSimulation (testRequest "red" 200) (testEnvironment None true) testDaemon).1).1.

Lemma test_counts early stack : countsDevices (testEnvironment early stack).
Proof. intros cfg n [= <- <-]. done. Qed.

Lemma two_run : daemonRun firstSession testDaemon twoSessions.
Proof.
  eapply rtc_l; [apply (DaemonStarts _ _ (testRequest "red" 200)), test_counts|].
  apply rtc_once, DaemonStarts, test_counts.
Qed.

Definition redSlot : trunkSlot := mkSlot "eth0" 0 200 0.
Definition redSession : Simulation := mkSimulation "red" (mkBinding "tester" "eth0" ModeTrunk 200 true) 3 (Some redSlot).

Example two_started : (size (dmSessions twoSessions), dmSessions twoSessions !! "red"%string) = (2%nat, Some redSession).
Proof. vm_compute. reflexivity. Qed.


Lemma sessions_bounded_witness : cpSessions (aggregateUsage twoSessions) <= cpMaxSessions (aggregateUsage twoSessions).
Proof. apply (sessions_bounded firstSession 100 _ twoSessions firstSession_picks ltac:(lia) two_run). Defined.


Definition trunkBinding : Binding := mkBinding "tester" "eth0" ModeTrunk 200 true.
Definition trunkReport : Report := default (CompilePhysicalBinding trunkBinding) (Compile (Some (labConfig "lab-access")) trunkBinding).
Definition trunkRuntime : fabricRuntime := newFabricRuntime (reTopology trunkReport) labDevices [].
Definition testPacket : Packet := NewPacket 0 0 <| pkBuffer := labFrame |>.

Definition egressFrame : list Z :=
  match finalizeEgressFrame labRanged (Some trunkRuntime) testPacket with inl (frame, _) => frame | inr _ => [] end.

Lemma trunk_compiled : Compile (Some (labConfig "lab-access")) trunkBinding = Some trunkReport /\ reSafe trunkReport = true.
Proof. split; vm_compute; reflexivity. Qed.

Lemma session_egress_witness :
  finalizeEgressFrame labRanged (Some trunkRuntime) testPacket = inl (egressFrame, 200) /\ slotOf egressFrame = 200 /\
  SendPacket 0 egressFrame true (register 200 newTrunkCapture).1 =
    ((register 200 newTrunkCapture).1 <| tcSent := [egressFrame] |>, None).
Proof.
  assert (finalizeEgressFrame labRanged (Some trunkRuntime) testPacket = inl (egressFrame, 200)) as E by (vm_compute; reflexivity).
  split; [exact E|]. destruct trunk_compiled as [Hr Hs].
  destruct (session_egress labRanged _ trunkBinding trunkReport trunkRuntime testPacket egressFrame 200
    (register 200 newTrunkCapture).1 0 true Hr Hs) as (Hslot & _ & _ & Hsend); [vm_compute; reflexivity|exact E|vm_compute; reflexivity|].
  split; [exact Hslot|exact Hsend].
Defined.

(** After the capture died at once, the daemon has no session, and no start of one succeeds. *)
Definition stuckDaemon : Daemon :=
  (StartSimulation (testRequest "red" 200) (testEnvironment (Some "link down"%string) true) testDaemon).1.

Lemma stuck_trunk_witness :
  dmSessions stuckDaemon = ∅ /\ daemonRun firstSession testDaemon stuckDaemon /\
  is_Some (StartSimulation (testRequest "red" 200) (testEnvironment None true) stuckDaemon).2.
Proof.
  split; [vm_compute; reflexivity|]. split; [apply rtc_once, DaemonStarts, test_counts|].
  destruct (stuck_trunk stuckDaemon "eth0" 0 (fail "link down" newTrunkCapture) [(testRequest "red" 200, testEnvironment None true)])
    as [_ H]; [vm_compute; reflexivity..| |].
  - apply Forall_singleton. split_and!; vm_compute; reflexivity.
  - apply Forall_cons in H as [H _]. exact H.
Defined.
