(* ===== verification/Ftp.v ===== *)
(** * FTP control connections

    [protocols/ftp.go]: the command lines of a control connection and their
    replies.  Text is kept as bytes; [TrimSpace] and [ToUpper] are those of
    package [strings], the latter as far as a comparison with ASCII commands
    can tell. *)

From stdpp Require Import pretty.
From S2P Require Import Prelude.
From S2P Require Import Netip.
From S2P Require Import Bytes.
From S2P Require Import Text.
From S2P Require Import Streams.

(** ** Text *)

Definition upperByte (c : Z) : Z := if (97 <=? c) && (c <=? 122) then c - 32 else c.

(** U+0131 and U+017F have the ASCII upper cases I and S. *)
Fixpoint toUpper (s : list Z) : list Z :=
  match s with
  | [] => []
  | c :: s1 =>
      match s1 with
      | d :: s2 =>
          if (c =? 0xC4) && (d =? 0xB1) then 73 :: toUpper s2
          else if (c =? 0xC5) && (d =? 0xBF) then 83 :: toUpper s2
          else upperByte c :: toUpper s1
      | [] => [upperByte c]
      end
  end.

(** [strings.Cut(line, " ")] *)
Definition cutSpace (line : list Z) : list Z * list Z :=
  match indexByte line 32 with
  | Some i => (take i line, drop (S i) line)
  | None => (line, [])
  end.

Definition crlf : list Z := [13; 10].
Definition text (s : string) : list Z := bytesOf s ++ crlf.
Definition decimal (n : Z) : list Z := bytesOf (pretty n).

(** ** The server *)

Record FTPConfig := mkFTPConfig {
  ftcEnabled : bool; ftcWelcomeBanner : list Z; ftcSystemType : list Z
}.

Definition servesFTP (config : option FTPConfig) : bool :=
  match config with Some config => ftcEnabled config | None => false end.

Definition ftpMaxCommandLine : nat := 4096.
Definition ftpPassivePort : Z := 20000.
Definition ftpPortByteMultiply : Z := 256.

Definition ftpSyntaxErrorResponse : list Z := text "501 Syntax error in parameters or arguments.".
Definition ftpHelpResponse : list Z :=
  text "214-The following commands are recognized:" ++
  text " USER PASS SYST PWD TYPE PASV EPSV LIST RETR STOR" ++
  text " CWD CDUP DELE MKD RMD NOOP QUIT HELP" ++ text "214 Help OK.".

(** The greeting ends with CRLF. *)
Definition ftpGreeting (banner : list Z) : list Z :=
  if bool_decide (drop (length banner - 2) banner = crlf) then banner else banner ++ crlf.

Definition handleFTPUser (arg : list Z) : list Z :=
  if bool_decide (arg <> []) then text "331 User name okay, need password." else ftpSyntaxErrorResponse.

Definition handleFTPType (arg : list Z) : list Z :=
  if bool_decide (arg <> []) then bytesOf "200 Type set to " ++ arg ++ text "." else ftpSyntaxErrorResponse.

Definition handleFTPPasv (address : list Z) : list Z :=
  let comma := [44] in
  bytesOf "227 Entering Passive Mode (" ++
  decimal (byteAt address 0) ++ comma ++ decimal (byteAt address 1) ++ comma ++
  decimal (byteAt address 2) ++ comma ++ decimal (byteAt address 3) ++ comma ++
  decimal (ftpPassivePort / ftpPortByteMultiply) ++ comma ++ decimal (ftpPassivePort mod ftpPortByteMultiply) ++
  text ").".

Definition handleFTPRetr (arg : list Z) : list Z :=
  if bool_decide (arg <> []) then bytesOf "550 " ++ arg ++ text ": No such file or directory."
  else ftpSyntaxErrorResponse.

Definition handleFTPStor (arg : list Z) : list Z :=
  if bool_decide (arg <> []) then text "553 Could not create file (read-only filesystem)."
  else ftpSyntaxErrorResponse.

Definition handleFTPCwd (arg : list Z) : list Z :=
  if bool_decide (arg <> []) then text "250 Directory successfully changed." else ftpSyntaxErrorResponse.

Definition handleFTPDele (arg : list Z) : list Z :=
  if bool_decide (arg <> []) then text "553 Could not delete file (read-only filesystem)."
  else ftpSyntaxErrorResponse.

Definition handleFTPMkd (arg : list Z) : list Z :=
  if bool_decide (arg <> []) then text "257 Directory created." else ftpSyntaxErrorResponse.

Definition handleFTPRmd (arg : list Z) : list Z :=
  if bool_decide (arg <> []) then text "250 Directory deleted." else ftpSyntaxErrorResponse.

Definition ftpReply (command arg : list Z) (cfg : FTPConfig) (address : list Z) : list Z :=
  let named name := bool_decide (command = bytesOf name) in
  if named "USER"%string then handleFTPUser arg
  else if named "PASS"%string then text "230 User logged in, proceed."
  else if named "SYST"%string then bytesOf "215 " ++ ftcSystemType cfg ++ crlf
  else if named "PWD"%string then bytesOf "257 " ++ [34; 47; 34] ++ text " is current directory."
  else if named "TYPE"%string then handleFTPType arg
  else if named "PASV"%string then handleFTPPasv address
  else if named "EPSV"%string then
    bytesOf "229 Entering Extended Passive Mode (|||" ++ decimal ftpPassivePort ++ text "|)."
  else if named "LIST"%string then text "150 Here comes the directory listing." ++ text "226 Directory send OK."
  else if named "RETR"%string then handleFTPRetr arg
  else if named "STOR"%string then handleFTPStor arg
  else if named "CWD"%string then handleFTPCwd arg
  else if named "CDUP"%string then text "250 Directory successfully changed."
  else if named "DELE"%string then handleFTPDele arg
  else if named "MKD"%string then handleFTPMkd arg
  else if named "RMD"%string then handleFTPRmd arg
  else if named "NOOP"%string then text "200 NOOP ok."
  else if named "QUIT"%string then text "221 Goodbye."
  else if named "HELP"%string then ftpHelpResponse
  else text "502 Command not implemented.".

(** The command and argument of a line, nothing of a blank one. *)
Definition commandOf (line : list Z) : option (list Z * list Z) :=
  let line := trimSpace line in
  if bool_decide (line = []) then None
  else let '(command, arg) := cutSpace line in Some (toUpper command, trimSpace arg).

(** The body of the loop. *)
Definition ftpTurn (cfg : FTPConfig) (address : list Z) (rest : list Z) : Turn :=
  match indexByte rest 10 with
  | None =>
      if bool_decide (ftpMaxCommandLine < length rest)%nat then
        Stop (text "500 Command line too long.") (length rest) true
      else Stop [] 0 false
  | Some stop =>
      match commandOf (take stop rest) with
      | None => Request [] (stop + 1)
      | Some (command, arg) =>
          let reply := ftpReply command arg cfg address in
          if bool_decide (command = bytesOf "QUIT") then Stop reply (stop + 1) true
          else Request reply (stop + 1)
      end
  end.

Definition ftpAnswer (stream : list Z) (cfg : FTPConfig) (address : list Z) : list Z * nat * bool :=
  answerBy (ftpTurn cfg address) stream.

Example ftp_quit :
  ftpAnswer (text "  user  me " ++ text "" ++ text "quit" ++ text "NOOP") (mkFTPConfig true [] []) [] =
  (text "331 User name okay, need password." ++ text "221 Goodbye.", 21%nat, true).
Proof. vm_compute. reflexivity. Qed.

(** ** It is a service *)

#[export] Instance ftpTurn_laws cfg address : TurnLaws (ftpTurn cfg address).
Proof.
  split.
  - done.
  - intros s r n e. unfold ftpTurn. destruct (indexByte s 10) as [stop|] eqn:E.
    + apply indexByte_lt in E. repeat case_match; intros [= <- <- <-]; (split; [lia|done]).
    + case_match; intros [= <- <- <-]; (split; [lia|done]).
  - intros s r n. unfold ftpTurn. destruct (indexByte s 10) as [stop|] eqn:E; [|by case_match].
    apply indexByte_lt in E. repeat case_match; intros [= <- <-]; lia.
  - intros s t r n. unfold ftpTurn. destruct (indexByte s 10) as [stop|] eqn:E; [|by case_match].
    rewrite (indexByte_app _ _ _ _ E). apply indexByte_lt in E. by rewrite take_app_le by lia.
Qed.

#[export] Instance ftp_StreamAnswer cfg address : StreamAnswer (fun stream => ftpAnswer stream cfg address).
Proof. exact (answerBy_StreamAnswer (ftpTurn cfg address)). Qed.

(** ** Lines and replies *)

Definition replyTo (cfg : FTPConfig) (address line : list Z) : list Z :=
  match commandOf line with Some (command, arg) => ftpReply command arg cfg address | None => [] end.

Definition quits (line : list Z) : bool :=
  match commandOf line with Some (command, _) => bool_decide (command = bytesOf "QUIT") | None => false end.

(** Text lines, each ended by CRLF, with no line feed of their own. *)
Definition framed (reply : list Z) : Prop :=
  exists lines, lines <> [] /\ reply = concat (map (fun l => l ++ crlf) lines) /\ Forall (fun l => 10 ∉ l) lines.

Lemma framed_line l : 10 ∉ l -> framed (l ++ crlf).
Proof. intros H. exists [l]. cbn. rewrite app_nil_r. split_and!; [done|done|by constructor]. Qed.

Lemma framed_app r1 r2 : framed r1 -> framed r2 -> framed (r1 ++ r2).
Proof.
  intros (l1 & H1 & -> & F1) (l2 & H2 & -> & F2). exists (l1 ++ l2). rewrite map_app, concat_app.
  split_and!; [by destruct l1|done|by apply Forall_app].
Qed.

Lemma framed_text s : 10 ∉ bytesOf s -> framed (text s).
Proof. apply framed_line. Qed.

Lemma framed_tail pre s : 10 ∉ pre -> 10 ∉ bytesOf s -> framed (pre ++ text s).
Proof. intros Hp Hs. unfold text. rewrite app_assoc. apply framed_line. by rewrite not_elem_of_app. Qed.

(** Closed text has no line feed. *)
Ltac no_lf := apply (bool_decide_unpack _); vm_compute; exact I.

Lemma trimRunes_sub fuel runes s x : x ∈ trimRunes fuel runes s -> x ∈ s.
Proof.
  revert s. induction fuel as [|fuel IH]; intros s; simpl; [done|].
  destruct (List.find (startsWith s) runes) as [rune|]; [|done].
  intros H%IH. rewrite <- (take_drop (length rune) s). apply elem_of_app. by right.
Qed.

Lemma trimSpace_sub s x : x ∈ trimSpace s -> x ∈ s.
Proof.
  unfold trimSpace. rewrite elem_of_reverse. intros H%trimRunes_sub. rewrite elem_of_reverse in H.
  by apply trimRunes_sub in H.
Qed.

Lemma commandOf_sub line command arg x :
  commandOf line = Some (command, arg) -> x ∈ arg -> x ∈ line.
Proof.
  unfold commandOf, cutSpace. case_bool_decide; [done|].
  destruct (indexByte (trimSpace line) 32) as [i|]; intros [= _ <-] Hx%trimSpace_sub.
  - apply trimSpace_sub. rewrite <- (take_drop (S i) (trimSpace line)). apply elem_of_app. by right.
  - by apply elem_of_nil in Hx.
Qed.

Lemma decimal_bytes : forallb (fun n => bool_decide (10 ∉ decimal n)) (seqZ 0 256) = true.
Proof. vm_compute. reflexivity. Qed.

Lemma decimal_no_lf n : isByte n -> 10 ∉ decimal n.
Proof.
  intros H. pose proof decimal_bytes as Hf. rewrite forallb_forall in Hf.
  apply (bool_decide_unpack _), Is_true_true_2, Hf, list_elem_of_In, elem_of_seqZ. exact H.
Qed.

Section replies.
Context (cfg : FTPConfig) (address : list Z).
Context (Hsystem : 10 ∉ ftcSystemType cfg) (Haddress : Forall isByte address).

Lemma pasv_framed : framed (handleFTPPasv address).
Proof using Haddress.
  unfold handleFTPPasv. rewrite !app_assoc. apply framed_tail; [|no_lf].
  rewrite !not_elem_of_app. pose proof (fun i => decimal_no_lf _ (byteAt_range address i Haddress)).
  split_and!; try done; no_lf.
Qed.

(** Every reply is framed, whatever the argument echoed in it. *)
Lemma reply_framed command arg : 10 ∉ arg -> framed (ftpReply command arg cfg address).
Proof using Hsystem Haddress.
  intros Ha. assert (framed ftpSyntaxErrorResponse) as Hs by (apply framed_text; no_lf).
  unfold ftpReply, handleFTPUser, handleFTPType, handleFTPRetr, handleFTPStor, handleFTPCwd, handleFTPDele,
    handleFTPMkd, handleFTPRmd, ftpHelpResponse.
  repeat match goal with |- framed (if ?b then _ else _) => destruct b end; try done;
    try (apply framed_text; no_lf); try apply pasv_framed.
  - rewrite app_assoc. apply framed_line. apply not_elem_of_app. split; [no_lf|done].
  - rewrite app_assoc. apply framed_tail; no_lf.
  - rewrite app_assoc. apply framed_tail; [|no_lf]. apply not_elem_of_app. split; [no_lf|done].
  - rewrite app_assoc. apply framed_tail; no_lf.
  - apply framed_app; apply framed_text; no_lf.
  - rewrite app_assoc. apply framed_tail; [|no_lf]. apply not_elem_of_app. split; [no_lf|done].
  - do 3 (apply framed_app; [apply framed_text; no_lf|]). apply framed_text; no_lf.
Qed.
End replies.

(** ** Sessions *)

Definition ended_by_lf (line : list Z) : list Z := line ++ [10].

Lemma turn_line cfg address line rest :
  10 ∉ line ->
  ftpTurn cfg address (ended_by_lf line ++ rest) =
  if quits line then Stop (replyTo cfg address line) (length (ended_by_lf line)) true
  else Request (replyTo cfg address line) (length (ended_by_lf line)).
Proof.
  intros Hl. unfold ftpTurn, ended_by_lf, quits, replyTo. rewrite <- app_assoc. cbn [app].
  rewrite indexByte_first, take_app_length, length_app by done. cbn [length].
  destruct (commandOf line) as [[command arg]|]; [|done]. by case_bool_decide.
Qed.

Lemma answer_lines cfg address ls rest reply n ended :
  Forall (fun l => 10 ∉ l /\ quits l = false) ls ->
  ftpAnswer rest cfg address = (reply, n, ended) ->
  ftpAnswer (concat (map ended_by_lf ls) ++ rest) cfg address =
  (concat (map (replyTo cfg address) ls) ++ reply, (length (concat (map ended_by_lf ls)) + n)%nat, ended).
Proof.
  unfold ftpAnswer. intros Hls Hrest. induction Hls as [|l ls [Hl Hq] _ IH]; [done|]. cbn [map concat].
  rewrite length_app, <- !app_assoc, <- Nat.add_assoc.
  eapply answerBy_request; [apply _|by rewrite turn_line, Hq by done|]. rewrite drop_app_length. exact IH.
Qed.

Lemma quits_reply cfg address line : quits line = true -> replyTo cfg address line = text "221 Goodbye.".
Proof.
  unfold quits, replyTo. destruct (commandOf line) as [[command arg]|]; [|done].
  intros ->%bool_decide_eq_true. reflexivity.
Qed.

(** FTP: every complete command line is answered in order with properly
    ended reply lines, whatever the client echoes into them, and blank lines
    with nothing; a partial line waits until it outgrows 4096 bytes, which ends
    the conversation, as QUIT does, and nothing after it is read. *)
Theorem ftp_serves cfg address ls :
  10 ∉ ftcSystemType cfg -> Forall isByte address ->
  Forall (fun l => 10 ∉ l /\ quits l = false) ls ->
  let before := concat (map ended_by_lf ls) in
  let replies := concat (map (replyTo cfg address) ls) in
  (forall tail, 10 ∉ tail -> ftpAnswer (before ++ tail) cfg address =
    if bool_decide (4096 < length tail)%nat
    then (replies ++ text "500 Command line too long.", length (before ++ tail), true)
    else (replies, length before, false)) /\
  (forall quit rest, 10 ∉ quit -> quits quit = true ->
    ftpAnswer (before ++ ended_by_lf quit ++ rest) cfg address =
    (replies ++ text "221 Goodbye.", length (before ++ ended_by_lf quit), true)) /\
  Forall (fun l => if commandOf l then framed (replyTo cfg address l) else replyTo cfg address l = []) ls.
Proof.
  intros Hsys Haddr Hls before replies. split; [|split].
  - intros tail Ht. assert (indexByte tail 10 = None) as E by by apply indexByte_None.
    assert (ftpTurn cfg address tail = if bool_decide (4096 < length tail)%nat
      then Stop (text "500 Command line too long.") (length tail) true else Stop [] 0 false) as Et.
    { unfold ftpTurn, ftpMaxCommandLine. by rewrite E. }
    case_bool_decide.
    + rewrite length_app. apply answer_lines; [done|]. by apply answerBy_stop.
    + pose proof (answer_lines cfg address ls tail [] 0 false Hls (answerBy_stop _ _ _ _ _ Et)) as H'.
      rewrite app_nil_r, Nat.add_0_r in H'. exact H'.
  - intros quit rest Hq Hquit. rewrite length_app. apply answer_lines; [done|].
    apply answerBy_stop. by rewrite turn_line, Hquit, (quits_reply _ _ _ Hquit).
  - eapply Forall_impl; [exact Hls|]. intros l [Hl _]. unfold replyTo.
    destruct (commandOf l) as [[command arg]|] eqn:E; [|done].
    apply reply_framed; [done|done|]. intros Hin. by apply Hl, (commandOf_sub _ _ _ _ E).
Qed.

Definition testFtp : FTPConfig := mkFTPConfig true (bytesOf "220 ftp1 ready.") (bytesOf "UNIX Type: L8").

Lemma ftp_serves_witness :
  let ls := [bytesOf "USER me"; bytesOf " "; bytesOf "retr a b "] in
  let before := concat (map ended_by_lf ls) in
  ftpAnswer (before ++ bytesOf "NO") testFtp [192; 0; 2; 7] =
    (text "331 User name okay, need password." ++ text "550 a b: No such file or directory.", 20%nat, false) /\
  ftpAnswer (before ++ ended_by_lf (bytesOf "quit") ++ bytesOf "NOOP") testFtp [192; 0; 2; 7] =
    (concat (map (replyTo testFtp [192; 0; 2; 7]) ls) ++ text "221 Goodbye.",
     length (before ++ ended_by_lf (bytesOf "quit")), true).
Proof.
  assert (10 ∉ ftcSystemType testFtp) as H1 by no_lf.
  assert (Forall isByte [192; 0; 2; 7]) as H2 by (repeat constructor; unfold isByte; lia).
  assert (Forall (fun l => 10 ∉ l /\ quits l = false) [bytesOf "USER me"; bytesOf " "; bytesOf "retr a b "]) as H3.
  { repeat apply Forall_cons_2; [..|constructor]; (split; [no_lf|vm_compute; reflexivity]). }
  destruct (ftp_serves testFtp [192; 0; 2; 7] _ H1 H2 H3) as (G1 & G2 & _).
  split; [rewrite G1 by no_lf; vm_compute; reflexivity|apply G2; [no_lf|vm_compute; reflexivity]].
Defined.

(** QUIT, sent again because its reply was lost. *)
Lemma ended_answers_again_witness :
  let answer stream := ftpAnswer stream testFtp [192; 0; 2; 7] in
  let s := open 1 id (testKey 4000) 100 newServiceStreams in
  let quit := text "QUIT" in
  (receive 2 id (testKey 4000) 100 quit answer s).1 = (text "221 Goodbye.", true) /\
  (receive 3 id (testKey 4000) 100 quit answer (receive 2 id (testKey 4000) 100 quit answer s).2).1 =
    (text "221 Goodbye.", true).
Proof.
  apply (ended_answers_again 2 id 3 id (testKey 4000) (text "QUIT") (fun stream => ftpAnswer stream testFtp [192; 0; 2; 7])
    (open 1 id (testKey 4000) 100 newServiceStreams) (mkStream 100 false [] 1)); vm_compute; reflexivity.
Defined.
