(* ===== verification/Hl7.v ===== *)
(** * HL7 framing

    The MLLP side of [protocols/hl7.go]: blocks in a byte stream and the frame
    around an acknowledgement.  The acknowledgement's text (MSH and MSA
    segments) is not modelled. *)

From S2P Require Import Prelude.
From S2P Require Import Bytes.

Definition mllpStartBlock : Z := 0x0B.
Definition mllpEndBlock : Z := 0x1C.
Definition mllpCarriageReturn : Z := 0x0D.
Definition hl7MaxMessage : Z := Z.shiftl 64 10.

(** The loop of [mllpMessages] on what is left of the stream: the messages and
    the bytes taken.  Every turn but the last takes a byte. *)
Fixpoint mllpLoop (fuel : nat) (rest : list Z) : list (list Z) * nat :=
  match fuel with
  | O => ([], O)
  | S fuel =>
      match indexByte rest mllpStartBlock with
      | None => ([], length rest)
      | Some start =>
          let block := drop (start + 1) rest in
          match indexByte block mllpEndBlock with
          | None =>
              if hl7MaxMessage <? Z.of_nat (length block) then ([], length rest) else ([], start)
          | Some stop =>
              let taken := (start + (1 + stop + 1))%nat in
              let '(messages, consumed) := mllpLoop fuel (drop taken rest) in
              (take stop block :: messages, (taken + consumed)%nat)
          end
      end
  end.

Definition mllpMessages (stream : list Z) : list (list Z) * nat := mllpLoop (S (length stream)) stream.

Definition mllpFrame (message : list Z) : list Z :=
  [mllpStartBlock] ++ message ++ [mllpEndBlock; mllpCarriageReturn].

Lemma mllpLoop_fuel fuel fuel' s :
  (length s < fuel)%nat -> (length s < fuel')%nat -> mllpLoop fuel s = mllpLoop fuel' s.
Proof.
  revert fuel' s. induction fuel as [|fuel IH]; intros [|fuel'] s H H'; [lia..|]. cbn [mllpLoop].
  destruct (indexByte s mllpStartBlock) as [start|] eqn:E; [|done]. apply indexByte_lt in E.
  destruct (indexByte (drop (start + 1) s) mllpEndBlock) as [stop|]; [|done].
  by rewrite (IH fuel' (drop (start + (1 + stop + 1)) s)) by (rewrite length_drop; lia).
Qed.

(** Bytes outside a block, then a block. *)
Definition blockAfter (junk message : list Z) : list Z := junk ++ [mllpStartBlock] ++ message ++ [mllpEndBlock].

Lemma indexByte_skip junk c t : c ∉ junk -> indexByte (junk ++ t) c = Nat.add (length junk) <$> indexByte t c.
Proof.
  induction junk as [|x junk IH]; intros Hc; cbn [app length indexByte].
  - by destruct (indexByte t c).
  - rewrite elem_of_cons in Hc. destruct (Z.eqb_spec x c); [subst; tauto|]. rewrite IH by tauto.
    by destruct (indexByte t c).
Qed.

Lemma messages_block junk message rest messages consumed :
  mllpStartBlock ∉ junk -> mllpEndBlock ∉ message -> mllpMessages rest = (messages, consumed) ->
  mllpMessages (blockAfter junk message ++ rest) =
  (message :: messages, (length (blockAfter junk message) + consumed)%nat).
Proof.
  intros Hj Hm Hr. unfold mllpMessages in *. unfold blockAfter. rewrite <- !app_assoc. cbn [app].
  set (block := message ++ mllpEndBlock :: rest).
  assert (length (blockAfter junk message) = length junk + (1 + length message + 1))%nat as Hlen.
  { unfold blockAfter. rewrite !length_app. cbn. lia. }
  assert (indexByte (junk ++ mllpStartBlock :: block) mllpStartBlock = Some (length junk)) as Hs
    by by apply indexByte_first.
  assert (drop (length junk + 1) (junk ++ mllpStartBlock :: block) = block) as Hb by (by rewrite drop_app_add).
  assert (indexByte block mllpEndBlock = Some (length message)) as He by by apply indexByte_first.
  assert (drop (length junk + (1 + length message + 1)) (junk ++ mllpStartBlock :: block) = rest) as Hd.
  { rewrite drop_app_add. cbn [Nat.add drop]. unfold block. by rewrite drop_app_add. }
  cbn [mllpLoop]. rewrite Hs, Hb, He, Hd.
  rewrite (mllpLoop_fuel _ (S (length rest))), Hr; [|unfold block; rewrite length_app; cbn; rewrite length_app; cbn; lia|lia].
  unfold block. rewrite take_app_length. do 2 f_equal.
  unfold blockAfter in Hlen. exact (eq_sym Hlen).
Qed.

(** What may follow the complete blocks: no block, or the start of one. *)
Lemma messages_none junk : mllpStartBlock ∉ junk -> mllpMessages junk = ([], length junk).
Proof. intros H%indexByte_None. unfold mllpMessages. cbn [mllpLoop]. by rewrite H. Qed.

Lemma messages_partial junk part :
  mllpStartBlock ∉ junk -> mllpEndBlock ∉ part ->
  mllpMessages (junk ++ mllpStartBlock :: part) =
  if 65536 <? Z.of_nat (length part) then ([], length (junk ++ mllpStartBlock :: part)) else ([], length junk).
Proof.
  intros Hj Hp%indexByte_None. unfold mllpMessages. cbn [mllpLoop].
  rewrite indexByte_first, drop_app_add by done. cbn [drop]. by rewrite drop_0, Hp.
Qed.

Definition block (b : list Z * list Z) : list Z := blockAfter b.1 b.2.

(** MLLP: whatever stands between them, the complete blocks at the front
    of a stream are its messages, in order; an unfinished block waits until it
    has more than 65536 bytes and is then dropped with everything before it;
    and a frame's message is read back — of any length: once its end has
    arrived a message is not refused for its size. *)
Theorem mllp_reads blocks junk part :
  Forall (fun b => mllpStartBlock ∉ b.1 /\ mllpEndBlock ∉ b.2) blocks ->
  mllpStartBlock ∉ junk -> mllpEndBlock ∉ part ->
  let front := concat (map block blocks) in
  mllpMessages (front ++ junk) = (map snd blocks, length (front ++ junk)) /\
  mllpMessages (front ++ junk ++ mllpStartBlock :: part) =
    (map snd blocks,
     if 65536 <? Z.of_nat (length part) then length (front ++ junk ++ mllpStartBlock :: part)
     else length (front ++ junk)) /\
  mllpMessages (mllpFrame part) = ([part], length (mllpFrame part)).
Proof.
  intros Hblocks Hj Hp front.
  assert (forall rest messages n, mllpMessages rest = (messages, n) ->
    mllpMessages (front ++ rest) = (map snd blocks ++ messages, (length front + n)%nat)) as Hfront.
  { intros rest messages n Hr. subst front.
    induction Hblocks as [|[j m] blocks [Hbj Hbm] _ IH]; [done|]. cbn [map concat]. rewrite length_app, <- app_assoc.
    change (block (j, m)) with (blockAfter j m). rewrite (messages_block j m _ _ _ Hbj Hbm IH). f_equal. lia. }
  split; [|split].
  - rewrite (Hfront _ _ _ (messages_none junk Hj)), app_nil_r, length_app. done.
  - pose proof (messages_partial junk part Hj Hp) as Hpart.
    destruct (65536 <? Z.of_nat (length part)); rewrite (Hfront _ _ _ Hpart), app_nil_r, !length_app; done.
  - change (mllpFrame part) with ([] ++ [mllpStartBlock] ++ part ++ [mllpEndBlock; mllpCarriageReturn]).
    assert (mllpStartBlock ∉ [mllpCarriageReturn]) as Hcr by (unfold mllpCarriageReturn, mllpStartBlock; set_solver).
    pose proof (messages_block [] part [mllpCarriageReturn] [] _ ltac:(set_solver) Hp (messages_none _ Hcr)) as H.
    unfold blockAfter in H. rewrite <- !app_assoc in H. cbn [app] in H |- *. rewrite H. f_equal.
    rewrite !length_cons, !length_app. cbn. lia.
Qed.

Lemma mllp_reads_witness :
  mllpMessages ([13; 11; 77; 83; 72; 28] ++ mllpFrame [65] ++ [11; 66]) = ([[77; 83; 72]; [65]], 10%nat) /\
  mllpMessages (mllpFrame [65; 11]) = ([[65; 11]], 5%nat).
Proof.
  assert (forall c (l : list Z), bool_decide (c ∉ l) = true -> c ∉ l) as Hn by (intros c l; apply bool_decide_eq_true).
  split.
  - apply (mllp_reads [([13], [77; 83; 72]); ([], [65])] [13] [66]); [|by apply Hn..].
    repeat apply Forall_cons_2; [..|constructor]; split; by apply Hn.
  - apply (mllp_reads [] [] [65; 11]); [constructor|by apply Hn..].
Defined.
