(* ===== verification/PacketConn.v ===== *)
(** * The packet-backed connection

    [virtualtcp/packet_conn.go] as a transition system.  The goroutines that
    call [Deliver], [Read], [FinishInbound], [Write] and [Close] and the emitter
    interleave between the channel operations of their bodies: each select, each
    check and each unbuffered decision is one step.  [deliverMu] and [readMu]
    admit one call at a time, so the phase of their holder is part of the state;
    every [Write] in progress has its own phase and is named by the number of
    writes started before it. *)

From S2P Require Import Prelude.

(** ** State *)

Definition streamBufferDepth : nat := 128.

Inductive ConnError := ErrClosed | ErrClosedPipe | ErrReceiveBufferFull | EOF | ErrEmit.

(** The holder of [deliverMu], before its second check or its send. *)
Inductive Deliverer :=
| DeliverIdle
| DeliverCheck (payload : list Z)
| DeliverSend (segment : list Z).

(** The holder of [readMu]: at the head of its loop, in the blocking select, or
    draining what was accepted before the end. *)
Inductive Reader :=
| ReadIdle
| ReadLoop (size : nat)
| ReadWait (size : nat)
| ReadDrain (size : nat).

(** A [Write] in progress: its request not yet queued, awaiting its result, or
    holding a result it still has to return. *)
Inductive Writer :=
| WriteQueue (payload : list Z)
| WriteAwait (payload : list Z)
| WriteReturn (payload : list Z) (err : option ConnError).

Inductive Emitter :=
| EmitIdle
| EmitBusy (id : nat) (payload : list Z)
| EmitExited.

Record PacketConn := mkPacketConn {
  pcInbound : list (list Z);
  pcPending : list Z;
  pcDone : bool;
  pcInboundDone : bool;
  pcCancelled : bool;
  pcWrites : list (nat * list Z);
  pcResults : gmap nat (option ConnError);
  pcDeliverer : Deliverer;
  pcReader : Reader;
  pcWriters : gmap nat Writer;
  pcStarted : nat;
  pcEmitter : Emitter
}.
#[export] Instance PacketConn_rebuild : Rebuild PacketConn := fun c =>
  mkPacketConn (pcInbound c) (pcPending c) (pcDone c) (pcInboundDone c) (pcCancelled c) (pcWrites c)
    (pcResults c) (pcDeliverer c) (pcReader c) (pcWriters c) (pcStarted c) (pcEmitter c).

Definition NewPacketConn : PacketConn :=
  mkPacketConn [] [] false false false [] ∅ DeliverIdle ReadIdle ∅ 0 EmitIdle.

(** ** Steps *)

(** What a step shows: a call returning, a request queued, a payload emitted. *)
Inductive ConnEvent :=
| Silent
| Delivered (payload : list Z)
| DeliverFailed (err : ConnError)
| ReadBytes (bytes : list Z)
| ReadFailed (err : ConnError)
| Queued (id : nat) (payload : list Z)
| Emitted (id : nat) (payload : list Z) (err : option ConnError)
| Wrote (id : nat) (payload : list Z)
| WriteFailed (id : nat) (err : ConnError)
| Closed.

Inductive deliverStep (c : PacketConn) : ConnEvent -> PacketConn -> Prop :=
| deliver_closed :
    pcDeliverer c = DeliverIdle -> pcDone c = true -> deliverStep c (DeliverFailed ErrClosed) c
| deliver_open payload :
    pcDeliverer c = DeliverIdle -> pcDone c = false ->
    deliverStep c Silent (c <| pcDeliverer := DeliverCheck payload |>)
| deliver_finished payload :
    pcDeliverer c = DeliverCheck payload -> pcInboundDone c = true ->
    deliverStep c (DeliverFailed ErrClosedPipe) (c <| pcDeliverer := DeliverIdle |>)
| deliver_empty :
    pcDeliverer c = DeliverCheck [] -> pcInboundDone c = false ->
    deliverStep c (Delivered []) (c <| pcDeliverer := DeliverIdle |>)
| deliver_segment payload :
    pcDeliverer c = DeliverCheck payload -> payload <> [] -> pcInboundDone c = false ->
    deliverStep c Silent (c <| pcDeliverer := DeliverSend payload |>)
| deliver_send segment :
    pcDeliverer c = DeliverSend segment -> (length (pcInbound c) < streamBufferDepth)%nat ->
    deliverStep c (Delivered segment)
      (c <| pcInbound := pcInbound c ++ [segment] |> <| pcDeliverer := DeliverIdle |>)
| deliver_done segment :
    pcDeliverer c = DeliverSend segment -> pcDone c = true ->
    deliverStep c (DeliverFailed ErrClosed) (c <| pcDeliverer := DeliverIdle |>)
| deliver_full segment :
    pcDeliverer c = DeliverSend segment -> ~ (length (pcInbound c) < streamBufferDepth)%nat -> pcDone c = false ->
    deliverStep c (DeliverFailed ErrReceiveBufferFull) (c <| pcDeliverer := DeliverIdle |>)
(** [FinishInbound] holds [deliverMu] around its one action. *)
| finish_inbound :
    pcDeliverer c = DeliverIdle -> deliverStep c Silent (c <| pcInboundDone := true |>).

Inductive readStep (c : PacketConn) : ConnEvent -> PacketConn -> Prop :=
| read_nothing : pcReader c = ReadIdle -> readStep c (ReadBytes []) c
| read_closed : pcReader c = ReadIdle -> pcDone c = true -> readStep c (ReadFailed ErrClosed) c
| read_start size :
    pcReader c = ReadIdle -> (0 < size)%nat -> pcDone c = false ->
    readStep c Silent (c <| pcReader := ReadLoop size |>)
| read_copy size :
    pcReader c = ReadLoop size -> pcPending c <> [] ->
    readStep c (ReadBytes (take size (pcPending c)))
      (c <| pcPending := drop size (pcPending c) |> <| pcReader := ReadIdle |>)
| read_poll size segment rest :
    pcReader c = ReadLoop size -> pcPending c = [] -> pcInbound c = segment :: rest ->
    readStep c Silent (c <| pcPending := segment |> <| pcInbound := rest |>)
| read_block size :
    pcReader c = ReadLoop size -> pcPending c = [] -> pcInbound c = [] ->
    readStep c Silent (c <| pcReader := ReadWait size |>)
| read_receive size segment rest :
    pcReader c = ReadWait size -> pcInbound c = segment :: rest ->
    readStep c Silent (c <| pcPending := segment |> <| pcInbound := rest |> <| pcReader := ReadLoop size |>)
| read_finished size :
    pcReader c = ReadWait size -> pcInboundDone c = true ->
    readStep c Silent (c <| pcReader := ReadDrain size |>)
| read_done size :
    pcReader c = ReadWait size -> pcDone c = true ->
    readStep c (ReadFailed ErrClosed) (c <| pcReader := ReadIdle |>)
| read_drain size segment rest :
    pcReader c = ReadDrain size -> pcInbound c = segment :: rest ->
    readStep c Silent (c <| pcPending := segment |> <| pcInbound := rest |> <| pcReader := ReadLoop size |>)
| read_eof size :
    pcReader c = ReadDrain size -> pcInbound c = [] ->
    readStep c (ReadFailed EOF) (c <| pcReader := ReadIdle |>).

(** [Write] copies its payload; [emit] is the stream's emitter, whose result is
    open here. *)
Inductive writeStep (c : PacketConn) : ConnEvent -> PacketConn -> Prop :=
| write_start payload :
    writeStep c Silent
      (c <| pcWriters := <[pcStarted c := WriteQueue payload]> (pcWriters c) |>
         <| pcStarted := S (pcStarted c) |>)
| write_queue id payload :
    pcWriters c !! id = Some (WriteQueue payload) -> (length (pcWrites c) < streamBufferDepth)%nat ->
    writeStep c (Queued id payload)
      (c <| pcWrites := pcWrites c ++ [(id, payload)] |>
         <| pcWriters := <[id := WriteAwait payload]> (pcWriters c) |>)
| write_queue_done id payload :
    pcWriters c !! id = Some (WriteQueue payload) -> pcDone c = true ->
    writeStep c (WriteFailed id ErrClosed) (c <| pcWriters := delete id (pcWriters c) |>)
| write_await_done id payload :
    pcWriters c !! id = Some (WriteAwait payload) -> pcDone c = true ->
    writeStep c (WriteFailed id ErrClosed) (c <| pcWriters := delete id (pcWriters c) |>)
| write_result id payload err :
    pcWriters c !! id = Some (WriteAwait payload) -> pcResults c !! id = Some err ->
    writeStep c Silent
      (c <| pcResults := delete id (pcResults c) |>
         <| pcWriters := <[id := WriteReturn payload err]> (pcWriters c) |>)
| write_return_done id payload err :
    pcWriters c !! id = Some (WriteReturn payload err) -> pcDone c = true ->
    writeStep c (WriteFailed id ErrClosed) (c <| pcWriters := delete id (pcWriters c) |>)
| write_return_ok id payload :
    pcWriters c !! id = Some (WriteReturn payload None) -> pcDone c = false ->
    writeStep c (Wrote id payload) (c <| pcWriters := delete id (pcWriters c) |>)
| write_return_failed id payload err :
    pcWriters c !! id = Some (WriteReturn payload (Some err)) -> pcDone c = false ->
    writeStep c (WriteFailed id err) (c <| pcWriters := delete id (pcWriters c) |>).

(** [Close] closes [done] and then cancels the emitter's context. *)
Inductive closeStep (c : PacketConn) : ConnEvent -> PacketConn -> Prop :=
| close_done : closeStep c Closed (c <| pcDone := true |>)
| close_cancel : pcDone c = true -> closeStep c Silent (c <| pcCancelled := true |>).

Inductive emitStep (c : PacketConn) : ConnEvent -> PacketConn -> Prop :=
| emit_exit : pcEmitter c = EmitIdle -> pcCancelled c = true ->
    emitStep c Silent (c <| pcEmitter := EmitExited |>)
| emit_take id payload rest :
    pcEmitter c = EmitIdle -> pcWrites c = (id, payload) :: rest ->
    emitStep c Silent (c <| pcWrites := rest |> <| pcEmitter := EmitBusy id payload |>)
| emit_result id payload err :
    pcEmitter c = EmitBusy id payload ->
    emitStep c (Emitted id payload err)
      (c <| pcResults := <[id := err]> (pcResults c) |> <| pcEmitter := EmitIdle |>).

Inductive connStep (c : PacketConn) (e : ConnEvent) (c' : PacketConn) : Prop :=
| step_deliver : deliverStep c e c' -> connStep c e c'
| step_read : readStep c e c' -> connStep c e c'
| step_write : writeStep c e c' -> connStep c e c'
| step_close : closeStep c e c' -> connStep c e c'
| step_emit : emitStep c e c' -> connStep c e c'.

(** Runs from a new connection, with the events so far, oldest first. *)
Inductive connRun : list ConnEvent -> PacketConn -> Prop :=
| run_new : connRun [] NewPacketConn
| run_step trace c e c' : connRun trace c -> connStep c e c' -> connRun (trace ++ [e]) c'.

(** ** What a run has delivered, read, queued and emitted *)

Definition delivered (trace : list ConnEvent) : list Z :=
  concat (omap (fun e => match e with Delivered payload => Some payload | _ => None end) trace).

Definition bytesRead (trace : list ConnEvent) : list Z :=
  concat (omap (fun e => match e with ReadBytes bytes => Some bytes | _ => None end) trace).

Definition queued (trace : list ConnEvent) : list (nat * list Z) :=
  omap (fun e => match e with Queued id payload => Some (id, payload) | _ => None end) trace.

Definition emitted (trace : list ConnEvent) : list (nat * list Z) :=
  omap (fun e => match e with Emitted id payload _ => Some (id, payload) | _ => None end) trace.

Lemma delivered_app t1 t2 : delivered (t1 ++ t2) = delivered t1 ++ delivered t2.
Proof. unfold delivered. by rewrite omap_app, concat_app. Qed.
Lemma bytesRead_app t1 t2 : bytesRead (t1 ++ t2) = bytesRead t1 ++ bytesRead t2.
Proof. unfold bytesRead. by rewrite omap_app, concat_app. Qed.
Lemma queued_app t1 t2 : queued (t1 ++ t2) = queued t1 ++ queued t2.
Proof. apply omap_app. Qed.
Lemma emitted_app t1 t2 : emitted (t1 ++ t2) = emitted t1 ++ emitted t2.
Proof. apply omap_app. Qed.

(** ** The read side *)

Record readInv (trace : list ConnEvent) (c : PacketConn) : Prop := {
  ri_bytes : delivered trace = bytesRead trace ++ pcPending c ++ concat (pcInbound c);
  ri_depth : (length (pcInbound c) <= streamBufferDepth)%nat;
  ri_send : forall segment, pcDeliverer c = DeliverSend segment -> pcInboundDone c = false;
  ri_wait : forall size, pcReader c = ReadWait size \/ pcReader c = ReadDrain size -> pcPending c = [];
  ri_drain : forall size, pcReader c = ReadDrain size -> pcInboundDone c = true
}.

(** Steps of the writers, of [Close] and of the emitter leave the read side
    alone. *)
Definition sameRead (c c' : PacketConn) : Prop :=
  pcInbound c' = pcInbound c /\ pcPending c' = pcPending c /\ pcInboundDone c' = pcInboundDone c /\
  pcDeliverer c' = pcDeliverer c /\ pcReader c' = pcReader c.

Definition noBytes (e : ConnEvent) : Prop := delivered [e] = [] /\ bytesRead [e] = [].

Lemma readInv_same trace c e c' : readInv trace c -> sameRead c c' -> noBytes e -> readInv (trace ++ [e]) c'.
Proof.
  intros [Hb Hd Hs Hw Hr] (E1 & E2 & E3 & E4 & E5) [Ed Er].
  split; rewrite ?delivered_app, ?bytesRead_app, ?Ed, ?Er, ?app_nil_r, ?E1, ?E2, ?E3; try done; intros x;
    rewrite ?E4, ?E5; eauto.
Qed.

Lemma readInv_deliver trace c e c' : readInv trace c -> deliverStep c e c' -> readInv (trace ++ [e]) c'.
Proof.
  intros Hi H. destruct H.
  1: by apply (readInv_same trace c).
  all: destruct Hi as [Hb Hd Hs Hw Hr]; split; cbn; rewrite ?delivered_app, ?bytesRead_app, ?app_nil_r; auto.
  all: try (by intros; congruence).
  - rewrite Hb, concat_app. unfold delivered. cbn. by rewrite !app_nil_r, !app_assoc.
  - rewrite length_app. cbn. lia.
Qed.

(** Taking the oldest segment while nothing is pending. *)
Lemma readInv_take trace c segment rest reader :
  readInv trace c -> pcPending c = [] -> pcInbound c = segment :: rest ->
  (forall size, reader <> ReadWait size /\ reader <> ReadDrain size) ->
  readInv (trace ++ [Silent])
    (c <| pcPending := segment |> <| pcInbound := rest |> <| pcReader := reader |>).
Proof.
  intros [Hb Hd Hs _ _] Ep Ei Hreader. rewrite Ep, Ei in Hb. rewrite Ei in Hd. cbn in Hd.
  split; cbn; rewrite ?delivered_app, ?bytesRead_app, ?app_nil_r; cbn; rewrite ?app_nil_r.
  - exact Hb.
  - lia.
  - exact Hs.
  - intros size [E|E]; by destruct (Hreader size).
  - intros size E. by destruct (Hreader size).
Qed.

Lemma readInv_read trace c e c' : readInv trace c -> readStep c e c' -> readInv (trace ++ [e]) c'.
Proof.
  intros Hi H. destruct H as [| | | |size segment rest Hr Hp He| |size segment rest Hr He| | |size segment rest Hr He|].
  1,2: by apply (readInv_same trace c).
  3: { destruct c. cbn in *. subst. by eapply (readInv_take trace _ segment rest (ReadLoop size)) in Hi; cbn in *. }
  4: { eapply readInv_take; [done| |done|done]. apply (ri_wait _ _ Hi size). by left. }
  6: { eapply readInv_take; [done| |done|done]. apply (ri_wait _ _ Hi size). by right. }
  all: destruct Hi as [Hb Hd Hs Hw Hr]; split; cbn; rewrite ?delivered_app, ?bytesRead_app; cbn; rewrite ?app_nil_r; auto.
  all: try (intros ? [?|?]; congruence).
  all: try (intros; congruence).
  - rewrite Hb, <- app_assoc. f_equal. by rewrite app_assoc, take_drop.
  - intros ? _. apply (Hw size). by left.
Qed.

Lemma readInv_step trace c e c' : readInv trace c -> connStep c e c' -> readInv (trace ++ [e]) c'.
Proof.
  intros Hi [H|H|H|H|H].
  - by eapply readInv_deliver.
  - by eapply readInv_read.
  - eapply readInv_same; [done|by destruct H..].
  - eapply readInv_same; [done|by destruct H..].
  - eapply readInv_same; [done|by destruct H..].
Qed.

Lemma readInv_run trace c : connRun trace c -> readInv trace c.
Proof.
  induction 1 as [|trace c e c' _ IH Hstep]; [|by eapply readInv_step].
  split; cbn; [done|lia|done|by intros ? [?|?]|done].
Qed.

(** Once the inbound side is finished nothing more is accepted. *)
Definition finished (c : PacketConn) : Prop :=
  pcInboundDone c = true /\ forall segment, pcDeliverer c <> DeliverSend segment.

Lemma finished_step c e c' : finished c -> connStep c e c' -> finished c' /\ delivered [e] = [].
Proof.
  intros [Hf Hd] [H|H|H|H|H]; destruct H; unfold finished; cbn; try done; try congruence.
Qed.

Inductive connSteps : PacketConn -> list ConnEvent -> PacketConn -> Prop :=
| steps_nil c : connSteps c [] c
| steps_cons c e c' later c'' : connStep c e c' -> connSteps c' later c'' -> connSteps c (e :: later) c''.

Lemma connRun_split before later c :
  connRun (before ++ later) c -> exists c0, connRun before c0 /\ connSteps c0 later c.
Proof.
  revert c. induction later as [|e later IH] using rev_ind; intros c H.
  - rewrite app_nil_r in H. exists c. split; [done|constructor].
  - rewrite app_assoc in H. inversion H as [E|trace c0 e' c' Hrun Hstep E]; [by destruct (before ++ later)|].
    apply app_inj_tail in E as [-> ->]. destruct (IH c0 Hrun) as (c1 & Hr1 & Hr2). exists c1. split; [done|].
    clear - Hr2 Hstep. induction Hr2 as [|c1 e1 c2 l c3 Hs _ IH]; [by eapply steps_cons, steps_nil|].
    econstructor; [exact Hs|by apply IH].
Qed.

Lemma connSteps_finished c later c' : finished c -> connSteps c later c' -> delivered later = [].
Proof.
  intros Hf H. induction H as [|c e c' later c'' Hs _ IH]; [done|].
  apply (finished_step _ _ _ Hf) in Hs as [Hf' Hd]. change (e :: later) with ([e] ++ later).
  by rewrite delivered_app, Hd, IH.
Qed.

Lemma connSteps_run trace c later c' : connRun trace c -> connSteps c later c' -> connRun (trace ++ later) c'.
Proof.
  intros Hr H. revert trace Hr. induction H as [|c e c' later c'' Hs _ IH]; intros trace Hr; [by rewrite app_nil_r|].
  change (e :: later) with ([e] ++ later). rewrite app_assoc. apply IH. by econstructor.
Qed.

(** C13.  Reading: whatever the goroutines' interleaving, the bytes read and
    the bytes held are the bytes accepted, in order, at most 128 segments wait;
    EOF is returned only when every byte the connection will ever accept has
    been read; and a read that cannot go on has nothing to read, no end and no
    close to report. *)
Theorem read_exact trace c :
  connRun trace c ->
  delivered trace = bytesRead trace ++ pcPending c ++ concat (pcInbound c) /\
  (length (pcInbound c) <= streamBufferDepth)%nat /\
  (forall before later, trace = before ++ ReadFailed EOF :: later ->
    delivered trace = bytesRead before /\ bytesRead trace = bytesRead before) /\
  (pcReader c <> ReadIdle -> (forall e c', ~ readStep c e c') ->
    pcPending c = [] /\ pcInbound c = [] /\ pcInboundDone c = false /\ pcDone c = false).
Proof.
  intros Hrun. pose proof (readInv_run _ _ Hrun) as Hi. split; [apply Hi|]. split; [apply Hi|]. split.
  - intros before later ->. apply connRun_split in Hrun as (c0 & H0 & Hsteps).
    inversion Hsteps as [|? ? c1 ? ? Hstep Hlater]; subst. pose proof (readInv_run _ _ H0) as Hi0.
    assert (exists size, pcReader c0 = ReadDrain size /\ pcInbound c0 = []) as (size & Hr & Hin).
    { destruct Hstep as [H|H|H|H|H]; inversion H; subst; by eexists. }
    assert (finished c0) as Hf.
    { split; [by eapply (ri_drain _ _ Hi0)|]. intros segment E. apply (ri_send _ _ Hi0) in E.
      rewrite (ri_drain _ _ Hi0 size Hr) in E. done. }
    destruct (finished_step _ _ _ Hf Hstep) as [Hf1 Hd1].
    pose proof (connSteps_finished _ _ _ Hf1 Hlater) as Hd2.
    assert (delivered (before ++ ReadFailed EOF :: later) = bytesRead before) as Hd.
    { change (ReadFailed EOF :: later) with ([ReadFailed EOF] ++ later). rewrite !delivered_app, Hd1, Hd2.
      rewrite (ri_bytes _ _ Hi0), Hin, (ri_wait _ _ Hi0 size) by by right. by rewrite !app_nil_r. }
    split; [exact Hd|]. rewrite (ri_bytes _ _ Hi), bytesRead_app, <- app_assoc in Hd.
    rewrite bytesRead_app. apply (f_equal (@length Z)) in Hd. rewrite length_app in Hd.
    change (ReadFailed EOF :: later) with ([ReadFailed EOF] ++ later) in *.
    rewrite bytesRead_app in *. destruct (bytesRead later); [by rewrite !app_nil_r|].
    rewrite !length_app in Hd. cbn in Hd. lia.
  - intros Hr Hstuck. destruct (pcReader c) as [|size|size|size] eqn:Er; [done| | |].
    + destruct (pcPending c) eqn:Ep; [|exfalso; eapply Hstuck, (read_copy c size); [done|by rewrite Ep]].
      destruct (pcInbound c) eqn:Ei; exfalso; eapply Hstuck; [by eapply read_block|by eapply read_poll].
    + split; [by apply (ri_wait _ _ Hi size); left|].
      destruct (pcInbound c) eqn:Ei; [|exfalso; by eapply Hstuck, read_receive].
      destruct (pcInboundDone c) eqn:Ed; [exfalso; by eapply Hstuck, read_finished|].
      destruct (pcDone c) eqn:Ec; [exfalso; by eapply Hstuck, read_done|]. done.
    + destruct (pcInbound c) eqn:Ei; exfalso; eapply Hstuck; [by eapply read_eof|by eapply read_drain].
Qed.

(** ** The write side *)

Definition busy (c : PacketConn) : list (nat * list Z) :=
  match pcEmitter c with EmitBusy id payload => [(id, payload)] | _ => [] end.

Record writeInv (trace : list ConnEvent) (c : PacketConn) : Prop := {
  wi_queue : queued trace = emitted trace ++ busy c ++ pcWrites c;
  wi_depth : (length (pcWrites c) <= streamBufferDepth)%nat;
  wi_fresh id w : pcWriters c !! id = Some w -> (id < pcStarted c)%nat;
  wi_ids id payload : (id, payload) ∈ queued trace ->
    (id < pcStarted c)%nat /\ forall payload', pcWriters c !! id <> Some (WriteQueue payload');
  wi_nodup : NoDup (fst <$> queued trace);
  wi_await id payload : pcWriters c !! id = Some (WriteAwait payload) -> (id, payload) ∈ queued trace;
  wi_result id err : pcResults c !! id = Some err -> exists payload, Emitted id payload err ∈ trace;
  wi_return id payload err : pcWriters c !! id = Some (WriteReturn payload err) -> Emitted id payload err ∈ trace
}.

(** Steps of the readers, of deliverers and of [Close] leave the write side alone. *)
Definition sameWrite (c c' : PacketConn) : Prop :=
  pcWrites c' = pcWrites c /\ pcResults c' = pcResults c /\ pcWriters c' = pcWriters c /\
  pcStarted c' = pcStarted c /\ pcEmitter c' = pcEmitter c.

Definition noWrites (e : ConnEvent) : Prop := queued [e] = [] /\ emitted [e] = [].

Lemma writeInv_same trace c e c' : writeInv trace c -> sameWrite c c' -> noWrites e -> writeInv (trace ++ [e]) c'.
Proof.
  intros [H1 H2 H3 H4 H5 H6 H7 H8] (E1 & E2 & E3 & E4 & E5) [Eq Ee].
  split; unfold busy; rewrite ?queued_app, ?emitted_app, ?Eq, ?Ee, ?app_nil_r, ?E1, ?E2, ?E3, ?E4, ?E5; try done.
  - intros id err Hr. destruct (H7 id err Hr) as [p Hp]. exists p. apply elem_of_app. by left.
  - intros id p err Hr. apply elem_of_app. left. by apply H8.
Qed.

Lemma emitted_elem id payload trace :
  (id, payload) ∈ emitted trace <-> exists err, Emitted id payload err ∈ trace.
Proof.
  unfold emitted. rewrite list_elem_of_omap. split.
  - intros ([| | | | | |i p err| | |] & He & E); try done. injection E as -> ->. by exists err.
  - intros [err He]. by exists (Emitted id payload err).
Qed.

Lemma NoDup_pair {A B} (l : list (A * B)) a b1 b2 : NoDup (fst <$> l) -> (a, b1) ∈ l -> (a, b2) ∈ l -> b1 = b2.
Proof.
  induction l as [|[x y] l IH]; [by intros _ ?%elem_of_nil|]. rewrite fmap_cons, NoDup_cons, !elem_of_cons.
  intros [Hx Hl]. assert (forall b, (x, b) ∈ l -> False) as Hno.
  { intros b Hb. apply Hx, list_elem_of_fmap. by exists (x, b). }
  intros [E1|H1] [E2|H2]; [congruence| | |by apply IH].
  - injection E1 as -> ->. by destruct (Hno b2).
  - injection E2 as -> ->. by destruct (Hno b1).
Qed.

(** A step of a writer that queues nothing. *)
Lemma writeInv_writer trace c e id w results :
  writeInv trace c -> noWrites e -> (id < pcStarted c)%nat ->
  (forall payload, w <> Some (WriteQueue payload)) -> (forall payload, w <> Some (WriteAwait payload)) ->
  (forall payload err, w = Some (WriteReturn payload err) -> Emitted id payload err ∈ trace) ->
  results ⊆ pcResults c ->
  writeInv (trace ++ [e]) (c <| pcResults := results |> <| pcWriters := partial_alter (fun _ => w) id (pcWriters c) |>).
Proof.
  intros [H1 H2 H3 H4 H5 H6 H7 H8] [Eq Ee] Hid Hq Ha Hr Hsub.
  split; unfold busy; cbn; rewrite ?queued_app, ?emitted_app, ?Eq, ?Ee, ?app_nil_r; try done.
  - intros i x. destruct (decide (id = i)) as [<-|Hne]; [done|]. rewrite lookup_partial_alter_ne by done. apply H3.
  - intros i p Hin. split; [by eapply H4|]. intros p'. destruct (decide (id = i)) as [<-|Hne].
    + rewrite lookup_partial_alter_eq. apply Hq.
    + rewrite lookup_partial_alter_ne by done. by apply (H4 i p).
  - intros i p. destruct (decide (id = i)) as [<-|Hne].
    + rewrite lookup_partial_alter_eq. intros E. by apply Ha in E.
    + rewrite lookup_partial_alter_ne by done. apply H6.
  - intros i err Hres. destruct (H7 i err) as [p Hp]; [by eapply lookup_weaken|]. exists p. apply elem_of_app. by left.
  - intros i p err. rewrite elem_of_app. destruct (decide (id = i)) as [<-|Hne].
    + rewrite lookup_partial_alter_eq. intros E. left. by apply Hr.
    + rewrite lookup_partial_alter_ne by done. intros E. left. by apply H8.
Qed.

Lemma writeInv_delete trace c e id w :
  writeInv trace c -> noWrites e -> pcWriters c !! id = Some w ->
  writeInv (trace ++ [e]) (c <| pcWriters := delete id (pcWriters c) |>).
Proof.
  intros Hi He Hw. eapply (writeInv_writer trace c e id None (pcResults c)); try done. by eapply wi_fresh.
Qed.

Lemma writeInv_start trace c payload :
  writeInv trace c ->
  writeInv (trace ++ [Silent])
    (c <| pcWriters := <[pcStarted c := WriteQueue payload]> (pcWriters c) |> <| pcStarted := S (pcStarted c) |>).
Proof.
  intros [H1 H2 H3 H4 H5 H6 H7 H8].
  split; unfold busy; cbn; rewrite ?queued_app, ?emitted_app, ?app_nil_r; try done.
  - intros i x. rewrite lookup_insert_Some. intros [[<- _]|[_ Hx]]; [lia|]. apply H3 in Hx. lia.
  - intros i p Hin. destruct (H4 i p Hin) as [Hlt Hq]. split; [lia|]. intros p'.
    rewrite lookup_insert_Some. intros [[<- _]|[_ Hx]]; [lia|]. by apply (Hq p').
  - intros i p. rewrite lookup_insert_Some. intros [[_ ?]|[_ Hx]]; [done|by apply H6].
  - intros i err Hres. destruct (H7 i err Hres) as [p Hp]. exists p. apply elem_of_app. by left.
  - intros i p err. rewrite lookup_insert_Some, elem_of_app. intros [[_ ?]|[_ Hx]]; [done|left; by apply H8].
Qed.

Lemma writeInv_queue trace c id payload :
  writeInv trace c -> pcWriters c !! id = Some (WriteQueue payload) ->
  (length (pcWrites c) < streamBufferDepth)%nat ->
  writeInv (trace ++ [Queued id payload])
    (c <| pcWrites := pcWrites c ++ [(id, payload)] |> <| pcWriters := <[id := WriteAwait payload]> (pcWriters c) |>).
Proof.
  intros [H1 H2 H3 H4 H5 H6 H7 H8] Hw Hlen.
  split; unfold busy in *; cbn; rewrite ?queued_app, ?emitted_app; cbn; rewrite ?app_nil_r.
  - by rewrite H1, <- !app_assoc.
  - rewrite length_app. cbn. lia.
  - intros i x. rewrite lookup_insert_Some. intros [[<- _]|[_ Hx]]; by eapply H3.
  - intros i p. rewrite elem_of_app, list_elem_of_singleton. intros [Hin|[= -> ->]].
    + destruct (H4 i p Hin) as [Hlt Hq]. split; [done|]. intros p'.
      rewrite lookup_insert_Some. intros [[_ ?]|[_ Hx]]; [done|by apply (Hq p')].
    + split; [by eapply H3|]. intros p'. by rewrite lookup_insert_eq.
  - rewrite fmap_app. cbn. apply NoDup_app. split; [done|]. split; [|apply NoDup_singleton].
    intros i ([i' p] & -> & Hin)%list_elem_of_fmap. rewrite list_elem_of_singleton. cbn. intros ->.
    by apply (proj2 (H4 id p Hin) payload).
  - intros i p. rewrite lookup_insert_Some, elem_of_app, list_elem_of_singleton.
    intros [[<- [= <-]]|[_ Hx]]; [by right|left; by apply H6].
  - intros i err Hres. destruct (H7 i err Hres) as [p Hp]. exists p. apply elem_of_app. by left.
  - intros i p err. rewrite lookup_insert_Some, elem_of_app. intros [[_ ?]|[_ Hx]]; [done|left; by apply H8].
Qed.

Lemma writeInv_write trace c e c' : writeInv trace c -> writeStep c e c' -> writeInv (trace ++ [e]) c'.
Proof.
  intros Hi H. destruct H as [payload|id payload Hw Hlen|id payload Hw|id payload Hw|id payload err Hw Hres
    |id payload err Hw|id payload Hw|id payload err Hw].
  3,4,6,7,8: by eapply writeInv_delete.
  - by apply writeInv_start.
  - by apply writeInv_queue.
  - destruct (wi_result _ _ Hi id err Hres) as [p Hp].
    assert (p = payload) as ->.
    { apply (NoDup_pair (queued trace) id); [apply Hi| |by apply (wi_await _ _ Hi)].
      rewrite (wi_queue _ _ Hi), elem_of_app. left. apply emitted_elem. by exists err. }
    eapply (writeInv_writer trace c Silent id (Some (WriteReturn payload err)) (delete id (pcResults c)));
      try done; [by eapply wi_fresh|by intros ? ? [= <- <-]|apply delete_subseteq].
Qed.

Lemma writeInv_emit trace c e c' : writeInv trace c -> emitStep c e c' -> writeInv (trace ++ [e]) c'.
Proof.
  intros Hi H. destruct H as [He Hc|id payload rest He Hw|id payload err He];
    destruct Hi as [H1 H2 H3 H4 H5 H6 H7 H8]; unfold busy in *; rewrite He in *;
    split; unfold busy; cbn; rewrite ?queued_app, ?emitted_app; cbn; rewrite ?app_nil_r; try done.
  all: try (intros i p' err' Hr; rewrite elem_of_app; left; by apply H8).
  all: try (intros i err' Hr; destruct (H7 i err' Hr) as [p Hp]; exists p; rewrite elem_of_app; by left).
  - by rewrite H1, Hw.
  - rewrite Hw in H2. cbn in H2. lia.
  - by rewrite H1, <- app_assoc.
  - intros i err'. rewrite lookup_insert_Some. intros [[<- <-]|[_ Hr]].
    + exists payload. rewrite elem_of_app, list_elem_of_singleton. by right.
    + destruct (H7 i err' Hr) as [p Hp]. exists p. rewrite elem_of_app. by left.
Qed.

Lemma writeInv_run trace c : connRun trace c -> writeInv trace c.
Proof.
  induction 1 as [|trace c e c' _ IH [H|H|H|H|H]].
  - split; unfold busy; cbn; try done; [lia|by intros ? ? ?%elem_of_nil|constructor].
  - eapply writeInv_same; [done|by destruct H..].
  - eapply writeInv_same; [done|by destruct H..].
  - by eapply writeInv_write.
  - eapply writeInv_same; [done|by destruct H..].
  - by eapply writeInv_emit.
Qed.

(** Writing: payloads are emitted in the order they were queued, each at
    most once and one at a time, at most 128 wait; and a write that returns
    success was emitted, whole and without error, before it returned. *)
Theorem writes_emitted trace c :
  connRun trace c ->
  emitted trace `prefix_of` queued trace /\ NoDup (fst <$> queued trace) /\
  (length (pcWrites c) <= streamBufferDepth)%nat /\
  (forall before id payload later, trace = before ++ Wrote id payload :: later -> Emitted id payload None ∈ before).
Proof.
  intros Hrun. pose proof (writeInv_run _ _ Hrun) as Hi. split; [rewrite (wi_queue _ _ Hi); by eexists|].
  split; [apply Hi|]. split; [apply Hi|]. intros before id payload later ->.
  apply connRun_split in Hrun as (c0 & H0 & Hsteps). inversion Hsteps as [|? ? c1 ? ? Hstep _]; subst.
  apply (wi_return _ _ (writeInv_run _ _ H0)).
  destruct Hstep as [H|H|H|H|H]; by inversion H; subst.
Qed.

(** ** A run: two bytes delivered and read, the end, and one write *)

Definition testTrace : list ConnEvent :=
  [Silent; Silent; Delivered [65; 66]; Silent; Silent; Silent; ReadBytes [65]; Silent; ReadBytes [66];
   Silent; Silent; Silent; ReadFailed EOF;
   Silent; Queued 0 [7]; Silent; Emitted 0 [7] None; Silent; Wrote 0 [7]].

(** One step of a run, its constructor named. *)
Tactic Notation "conn" constr(family) uconstr(rule) :=
  eapply steps_cons; [apply family; eapply rule; (reflexivity || done || (unfold streamBufferDepth; cbn; lia))|cbn].

Lemma read_copied c size bytes :
  pcReader c = ReadLoop size -> pcPending c <> [] -> take size (pcPending c) = bytes ->
  readStep c (ReadBytes bytes) (c <| pcPending := drop size (pcPending c) |> <| pcReader := ReadIdle |>).
Proof. intros H1 H2 <-. by apply read_copy. Qed.

Lemma testRun : exists c, connRun testTrace c.
Proof.
  eexists. apply (connSteps_run [] NewPacketConn); [constructor|]. unfold testTrace, NewPacketConn.
  conn step_deliver (deliver_open _ [65; 66]). conn step_deliver deliver_segment. conn step_deliver deliver_send.
  conn step_deliver finish_inbound. conn step_read (read_start _ 1). conn step_read read_poll. conn step_read (read_copied _ 1).
  conn step_read (read_start _ 3). conn step_read (read_copied _ 3).
  conn step_read (read_start _ 3). conn step_read read_block. conn step_read read_finished. conn step_read read_eof.
  conn step_write (write_start _ [7]). conn step_write write_queue. conn step_emit emit_take.
  conn step_emit (emit_result _ 0 [7] None). conn step_write (write_result _ 0 [7] None). conn step_write (write_return_ok _ 0 [7]).
  apply steps_nil.
Qed.

Lemma read_exact_witness :
  exists c, connRun testTrace c /\
  delivered testTrace = bytesRead testTrace ++ pcPending c ++ concat (pcInbound c) /\
  delivered testTrace = [65; 66].
Proof.
  destruct testRun as [c Hc]. exists c. split; [exact Hc|]. split; [|reflexivity].
  apply (read_exact testTrace c Hc).
Defined.

Lemma writes_emitted_witness :
  exists c, connRun testTrace c /\ emitted testTrace `prefix_of` queued testTrace /\ queued testTrace = [(0%nat, [7])].
Proof.
  destruct testRun as [c Hc]. exists c. split; [exact Hc|]. split; [|reflexivity].
  apply (writes_emitted testTrace c Hc).
Defined.
