(* ===== verification/Dhcp.v ===== *)
(** * The DHCP server

    [protocols/dhcp.go], [dhcp_pool.go], [dhcp_selection.go], [dhcp_relay.go],
    [dhcp_domain_search.go], [dhcp_fault.go] and the DHCP part of
    [stack_address_fault.go].  One packet is handled at a time, with one reading
    of the clock; an address is the byte slice of [net.IP], nil the empty one; a
    device is named by a string.  What the stack decides for the handler (the
    armed faults, an active peer, whether a reply could be sent) is the
    environment of a packet. *)

From stdpp Require Import pretty.
From Stdlib Require Import Ascii.
From S2P Require Import Prelude.
From S2P Require Import Netip.
From S2P Require Import DeviceTypes.
From S2P Require Import DeviceOps.
From S2P Require Import Safeconv.
From S2P Require Import Bytes.

(** ** [net.IP] *)

Abbreviation IP := (list Z).

Definition v4InV6Prefix : list Z := replicate 10 0 ++ [0xff; 0xff].
Definition IPv4 (a b c d : Z) : IP := v4InV6Prefix ++ [a; b; c; d].
Definition IPv4zero : IP := IPv4 0 0 0 0.
Definition IPv4bcast : IP := IPv4 255 255 255 255.
Definition IPv6unspecified : IP := replicate 16 0.

Definition ipEqual (ip x : IP) : bool :=
  if bool_decide (length ip = length x) then bool_decide (ip = x)
  else if bool_decide (length ip = 4%nat) && bool_decide (length x = 16%nat) then
    bool_decide (take 12 x = v4InV6Prefix) && bool_decide (ip = drop 12 x)
  else if bool_decide (length ip = 16%nat) && bool_decide (length x = 4%nat) then
    bool_decide (take 12 ip = v4InV6Prefix) && bool_decide (drop 12 ip = x)
  else false.

Definition ipUnspecified (ip : IP) : bool := ipEqual ip IPv4zero || ipEqual ip IPv6unspecified.

Definition ipMulticast (ip : IP) : bool :=
  match To4 ip with
  | [] => bool_decide (length ip = 16%nat) && (byteAt ip 0 =? 0xff)
  | ip4 => Z.land (byteAt ip4 0) 0xf0 =? 0xe0
  end.

(** [net.IP.String] *)
Definition ipString (ip : IP) : string :=
  match ip with
  | [] => "<nil>"
  | _ =>
      match To4 ip with
      | [] => if bool_decide (length ip = 16%nat) then addrString (AddrFromSlice ip)
              else "?" +:+ String.string_of_list_ascii (flat_map hex2 ip)
      | ip4 => dotted (bigUint32 ip4)
      end
  end.

(** [netip.Addr.AsSlice] *)
Definition AsSlice (a : Addr) : IP :=
  match a with
  | AddrZero => []
  | Addr4 b => big32 b
  | Addr6 b _ => (fun i => Z.shiftr b (8 * (15 - Z.of_nat i)) mod 2 ^ 8) <$> seq 0 16
  end.

(** ** Data *)

Definition DHCPDiscover : Z := 1.
Definition DHCPOffer : Z := 2.
Definition DHCPRequest : Z := 3.
Definition DHCPDecline : Z := 4.
Definition DHCPAck : Z := 5.
Definition DHCPNak : Z := 6.
Definition DHCPRelease : Z := 7.
Definition DHCPInform : Z := 8.

(** Option numbers: the program's own, and RFC 2132's as gopacket names them. *)
Definition DHCPOptNTP : Z := 42.
Definition DHCPOptTFTPServer : Z := 66.
Definition DHCPOptBootfileName : Z := 67.
Definition DHCPOptDomainSearch : Z := 119.
Definition OptSubnetMask : Z := 1.
Definition OptRouter : Z := 3.
Definition OptDNS : Z := 6.
Definition OptHostname : Z := 12.
Definition OptDomainName : Z := 15.
Definition OptVendorOption : Z := 43.
Definition OptRequestIP : Z := 50.
Definition OptLeaseTime : Z := 51.
Definition OptMessageType : Z := 53.
Definition OptServerID : Z := 54.
Definition OptMessage : Z := 56.
Definition OptT1 : Z := 58.
Definition OptT2 : Z := 59.
Definition OptEnd : Z := 255.

(** Nanoseconds of 24 hours. *)
Definition DefaultLeaseTime : Z := 24 * 3600 * 10 ^ 9.
Definition dhcpMaxByte : nat := 255.
Definition dhcpIPv4Len : nat := 4.
Definition maxDomainLabelLen : nat := 63.
Definition t1RenewalDivisor : Z := 2.
Definition t2RebindNumerator : Z := 7.
Definition t2RebindDivisor : Z := 8.
Definition dhcpNakReason : list Z := bytesOf "requested address not available".
Definition MaxDHCPv4PoolSize : Z := 65536.
Definition MaxDHCPOptionLen : nat := 255.
Definition MaxDomainSearchCount : nat := 10.
Definition MaxDomainLen : nat := 253.

Record DHCPLease := mkDHCPLease {
  dlIP : IP; dlMAC : list Z; dlHostname : list Z; dlExpiry : Time; dlLeaseTime : Z
}.
#[export] Instance DHCPLease_rebuild : Rebuild DHCPLease := fun l =>
  mkDHCPLease (dlIP l) (dlMAC l) (dlHostname l) (dlExpiry l) (dlLeaseTime l).

(** [config.DHCPLease] *)
Record StaticLease := mkStaticLease { slClientIP : IP; slMACAddress : list Z; slMACMask : list Z }.

Record DHCPHandler := mkDHCPHandler {
  dhLeases : gmap string DHCPLease;
  dhDeclined : gset string;
  dhIpPool : list IP;
  dhPoolStart : IP;
  dhPoolEnd : IP;
  dhServerDevice : option string;
  dhServerIP : IP;
  dhNextServerIP : IP;
  dhSubnetMask : IP;
  dhGateway : IP;
  dhDnsServers : list IP;
  dhDomainName : list Z;
  dhNtpServers : list IP;
  dhDomainSearch : list (list Z);
  dhTftpServerName : list Z;
  dhBootfileName : list Z;
  dhVendorSpecificInfo : list Z;
  dhStaticLeases : list StaticLease;
  dhRelayIP : IP;
  dhRelayDevice : option string
}.
#[export] Instance DHCPHandler_rebuild : Rebuild DHCPHandler := fun h =>
  mkDHCPHandler (dhLeases h) (dhDeclined h) (dhIpPool h) (dhPoolStart h) (dhPoolEnd h) (dhServerDevice h)
    (dhServerIP h) (dhNextServerIP h) (dhSubnetMask h) (dhGateway h) (dhDnsServers h) (dhDomainName h)
    (dhNtpServers h) (dhDomainSearch h) (dhTftpServerName h) (dhBootfileName h) (dhVendorSpecificInfo h)
    (dhStaticLeases h) (dhRelayIP h) (dhRelayDevice h).

Record DHCPOption := mkOption { opType : Z; opLength : Z; opData : list Z }.

(** The fields of gopacket's DHCPv4 layer that a request is read by. *)
Record DHCPv4Request := mkRequest {
  rqXid : Z; rqClientIP : IP; rqClientHWAddr : list Z; rqOptions : list DHCPOption
}.

Record dhcpPacketInfo := mkInfo {
  diDhcp : DHCPv4Request; diMessageType : Z; diHostname : list Z; diVlan : Z
}.
#[export] Instance dhcpPacketInfo_rebuild : Rebuild dhcpPacketInfo := fun i =>
  mkInfo (diDhcp i) (diMessageType i) (diHostname i) (diVlan i).

(** A reply as it is handed to the serializer. *)
Record DHCPReply := mkReply {
  rpXid : Z; rpYourIP : IP; rpNextServerIP : IP; rpRelayAgentIP : IP; rpClientHWAddr : list Z;
  rpOptions : list DHCPOption; rpSourceIP : IP; rpSource : option string; rpVlan : Z
}.

(** The environment of a packet: the clock, the server's device state, whether
    the peer a duplicate offer names is active, and which replies can be sent. *)
Record Env := mkEnv {
  enNow : Time; enStore : option Store; enPeerActive : Addr -> bool; enSent : DHCPReply -> bool
}.

(** What handling a packet does outside the handler. *)
Inductive Action :=
| SendReply (reply : DHCPReply)
| IncrementStat (name : string)
| UpdateFDB (mac : list Z).

(** ** Configuration *)

Definition getDefaultSubnetMask : IP := IPv4 255 255 255 0.

Definition NewDHCPHandler : DHCPHandler :=
  mkDHCPHandler ∅ ∅ [] [] [] None [] [] getDefaultSubnetMask [] [] [] [] [] [] [] [] [] [] None.

Inductive PoolErr := ErrDHCPPoolInvalid | ErrDHCPPoolSizeExceeded.

(** The loop over the range, left when it reaches its end. *)
Fixpoint poolLoop (fuel : nat) (i endInt : Z) : list IP :=
  match fuel with
  | O => []
  | S fuel => big32 i :: (if i =? endInt then [] else poolLoop fuel (uint32 (i + 1)) endInt)
  end.

Definition generateIPPool (start stop : IP) : list IP + PoolErr :=
  if bool_decide (To4 start = []) || bool_decide (To4 stop = []) then inr ErrDHCPPoolInvalid
  else
    let startInt := bigUint32 (To4 start) in
    let endInt := bigUint32 (To4 stop) in
    if endInt <? startInt then inr ErrDHCPPoolInvalid
    else
      let size := uint64 (endInt - startInt + 1) in
      if MaxDHCPv4PoolSize <? size then inr ErrDHCPPoolSizeExceeded
      else inl (poolLoop (Z.to_nat size) startInt endInt).

Definition SetPool (start stop : IP) (h : DHCPHandler) : DHCPHandler :=
  h <| dhPoolStart := start |> <| dhPoolEnd := stop |>
    <| dhIpPool := match generateIPPool start stop with inl pool => pool | inr _ => [] end |>.

Definition setServerConfig (device : option string) (serverIP gateway : IP) (dnsServers : list IP)
    (domain : list Z) (h : DHCPHandler) : DHCPHandler :=
  h <| dhServerDevice := device |> <| dhServerIP := serverIP |> <| dhGateway := gateway |>
    <| dhDnsServers := dnsServers |> <| dhDomainName := domain |>.

Definition SetServerConfig := setServerConfig None.

Definition updateDerivedServerIP (device : option string) (serverIP : IP) (h : DHCPHandler) : DHCPHandler :=
  if bool_decide (dhServerDevice h = device) then h <| dhServerIP := serverIP |> else h.

Definition SetAdvancedOptions (ntpServers : list IP) (domainSearch : list (list Z))
    (tftpServer bootfile vendorInfo : list Z) (h : DHCPHandler) : DHCPHandler :=
  h <| dhNtpServers := ntpServers |> <| dhDomainSearch := domainSearch |> <| dhTftpServerName := tftpServer |>
    <| dhBootfileName := bootfile |> <| dhVendorSpecificInfo := vendorInfo |>.

Definition SetStaticLeases (leases : list StaticLease) (h : DHCPHandler) : DHCPHandler :=
  h <| dhStaticLeases := leases |>.

Definition Reset (h : DHCPHandler) : DHCPHandler := NewDHCPHandler.

(** A relayed scope: its pool, mask, router and relay interface. *)
Record DHCPRelay := mkRelay {
  ryStart : Addr; ryEnd : Addr; ryRouter : Addr; ryRelayAddress : Addr; ryMask : list Z; ryDevice : string
}.

Definition serveRelayedScope (relay : DHCPRelay) (h : DHCPHandler) : DHCPHandler :=
  SetPool (AsSlice (ryStart relay)) (AsSlice (ryEnd relay)) h
    <| dhSubnetMask := ryMask relay |> <| dhGateway := AsSlice (ryRouter relay) |>
    <| dhStaticLeases := [] |> <| dhRelayIP := AsSlice (ryRelayAddress relay) |>
    <| dhRelayDevice := Some (ryDevice relay) |>.

(** ** Leases *)

Fixpoint maskedEqual (mac matching mask : list Z) : bool :=
  match mac, matching, mask with
  | m :: mac, x :: matching, k :: mask => (Z.land m k =? Z.land x k) && maskedEqual mac matching mask
  | _, _, _ => true
  end.

Definition macMatchesMask (mac matching mask : list Z) : bool :=
  if bool_decide (mac = []) || bool_decide (matching = []) then false
  else if bool_decide (mask = []) then bool_decide (macString mac = macString matching)
  else if negb (bool_decide (length mask = length mac)) || negb (bool_decide (length matching = length mac)) then false
  else maskedEqual mac matching mask.

Fixpoint matchStatic (leases : list StaticLease) (mac : list Z) : IP :=
  match leases with
  | [] => []
  | lease :: leases =>
      if bool_decide (slMACAddress lease = []) then matchStatic leases mac
      else if macMatchesMask mac (slMACAddress lease) (slMACMask lease) then slClientIP lease
      else matchStatic leases mac
  end.

Definition matchStaticLease (h : DHCPHandler) (mac : list Z) : IP := matchStatic (dhStaticLeases h) mac.

Definition isIPInPool (h : DHCPHandler) (ip : IP) : bool :=
  existsb (fun poolIP => ipEqual poolIP ip) (dhIpPool h).

Definition heldAt (now : Time) (ip : IP) (lease : DHCPLease) : bool :=
  ipEqual (dlIP lease) ip && (now <? dlExpiry lease).

Definition isIPLeased (now : Time) (h : DHCPHandler) (ip : IP) : bool :=
  existsb (fun '(_, lease) => heldAt now ip lease) (map_to_list (dhLeases h)).

Definition findAvailableIP (now : Time) (h : DHCPHandler) : IP :=
  match List.find (fun ip => negb (bool_decide (ipString ip ∈ dhDeclined h)) && negb (isIPLeased now h ip))
          (dhIpPool h) with
  | Some ip => ip
  | None => []
  end.

Definition cloneDHCPLease (lease : DHCPLease) : DHCPLease := lease.

(** The address an armed duplicate-offer fault advertises. *)
Definition offerFault (env : Env) : Addr :=
  match enStore env with Some store => DeviceFaultAddress FaultDuplicateDHCPOffer store | None => AddrZero end.

Definition conflictsWithOffer (env : Env) (ip : IP) : bool :=
  match enStore env with
  | None => false
  | Some _ =>
      if bool_decide (ip = []) then false
      else negb (bool_decide (offerFault env = AddrZero)) && ipEqual ip (AsSlice (offerFault env))
  end.

Definition canGrantRequestedIPLocked (now : Time) (h : DHCPHandler) (mac : list Z) (ip : IP) : bool :=
  let staticIP := matchStaticLease h mac in
  if negb (bool_decide (staticIP = [])) then ipEqual staticIP ip
  else if bool_decide (ipString ip ∈ dhDeclined h) then false
  else
    match dhLeases h !! macString mac with
    | Some existing =>
        if ipEqual (dlIP existing) ip then true else isIPInPool h ip && negb (isIPLeased now h ip)
    | None => isIPInPool h ip && negb (isIPLeased now h ip)
    end.

Definition canGrantRequestedIP (env : Env) (h : DHCPHandler) (mac : list Z) (ip : IP) : bool :=
  if conflictsWithOffer env ip then false else canGrantRequestedIPLocked (enNow env) h mac ip.

(** An existing lease renewed, with a new address when there is one. *)
Definition renewed (now : Time) (ip hostname : list Z) (existing : DHCPLease) : DHCPLease :=
  let existing := existing <| dlExpiry := now + DefaultLeaseTime |> in
  let existing := if bool_decide (ip = []) then existing else existing <| dlIP := ip |> in
  if bool_decide (hostname = []) then existing else existing <| dlHostname := hostname |>.

Definition allocateLease (env : Env) (mac : list Z) (requestedIP hostname : list Z) (h : DHCPHandler)
    : option DHCPLease * DHCPHandler :=
  let now := enNow env in
  let put lease := (Some (cloneDHCPLease lease), h <| dhLeases := <[macString mac := lease]> (dhLeases h) |>) in
  let new ip := put (mkDHCPLease ip mac hostname (now + DefaultLeaseTime) DefaultLeaseTime) in
  if conflictsWithOffer env requestedIP then (None, h)
  else if negb (bool_decide (requestedIP = [])) && negb (canGrantRequestedIPLocked now h mac requestedIP) then (None, h)
  else
    let staticIP := matchStaticLease h mac in
    if negb (bool_decide (staticIP = [])) then
      match dhLeases h !! macString mac with
      | Some existing => put (renewed now staticIP hostname existing)
      | None => new staticIP
      end
    else
      match dhLeases h !! macString mac with
      | Some existing => put (renewed now requestedIP hostname existing)
      | None =>
          let ip := if negb (bool_decide (requestedIP = [])) && isIPInPool h requestedIP && negb (isIPLeased now h requestedIP)
                    then requestedIP else findAvailableIP now h in
          if bool_decide (ip = []) then (None, h) else new ip
      end.

(** ** Options *)

(** The labels of a domain name, empty ones left out. *)
Fixpoint splitLabels (label domain : list Z) : list (list Z) :=
  match domain with
  | [] => if bool_decide (label = []) then [] else [label]
  | c :: domain =>
      if c =? 46 then (if bool_decide (label = []) then [] else [label]) ++ splitLabels [] domain
      else splitLabels (label ++ [c]) domain
  end.

Definition splitDomain (domain : list Z) : list (list Z) :=
  if bool_decide (domain = []) then []
  else splitLabels [] (if bool_decide (last domain = Some 46) then take (length domain - 1) domain else domain).

Definition encodeLabel (label : list Z) : list Z :=
  if bool_decide (label = []) || bool_decide (maxDomainLabelLen < length label)%nat then []
  else Byte (Z.of_nat (length label)) :: label.

Fixpoint encodeDomains (result : list Z) (domains : list (list Z)) : option (list Z) :=
  match domains with
  | [] => Some result
  | domain :: domains =>
      if bool_decide (MaxDomainLen < length domain)%nat then None
      else
        let labels := concat (map encodeLabel (splitDomain domain)) ++ [0] in
        if bool_decide (MaxDHCPOptionLen < length result + length labels)%nat then None
        else encodeDomains (result ++ labels) domains
  end.

Definition encodeDomainSearchList (domains : list (list Z)) : option (list Z) :=
  if bool_decide (MaxDomainSearchCount < length domains)%nat then None else encodeDomains [] domains.

Definition encodeUint32 (val : Z) : list Z := big32 val.

Definition fixedOption (type : Z) (data : list Z) : DHCPOption := mkOption type (Z.of_nat dhcpIPv4Len) data.

(** An option cut to the longest a length byte counts. *)
Definition cutOption (type : Z) (data : list Z) : DHCPOption :=
  let len := (length data `min` dhcpMaxByte)%nat in
  mkOption type (Uint8 (Z.of_nat len)) (take len data).

Definition whenSome {A} (data : list A) (option : DHCPOption) : list DHCPOption :=
  if bool_decide (data = []) then [] else [option].

Definition appendNetworkOptions (h : DHCPHandler) (options : list DHCPOption) : list DHCPOption :=
  options ++
  whenSome (dhGateway h) (fixedOption OptRouter (To4 (dhGateway h))) ++
  whenSome (dhDnsServers h) (cutOption OptDNS (concat (map To4 (dhDnsServers h)))) ++
  whenSome (dhDomainName h) (cutOption OptDomainName (dhDomainName h)).

Definition leaseSeconds : Z := DefaultLeaseTime / 10 ^ 9.

Definition appendTimingOptions (h : DHCPHandler) (options : list DHCPOption) : list DHCPOption :=
  options ++
  [fixedOption OptT1 (encodeUint32 (uint32 (leaseSeconds / t1RenewalDivisor)));
   fixedOption OptT2 (encodeUint32 (uint32 (leaseSeconds * t2RebindNumerator / t2RebindDivisor)))] ++
  whenSome (dhNtpServers h) (cutOption DHCPOptNTP (concat (map To4 (dhNtpServers h)))).

Definition appendBootOptions (h : DHCPHandler) (options : list DHCPOption) : list DHCPOption :=
  options ++
  whenSome (dhTftpServerName h) (cutOption DHCPOptTFTPServer (dhTftpServerName h)) ++
  whenSome (dhBootfileName h) (cutOption DHCPOptBootfileName (dhBootfileName h)) ++
  (if bool_decide (dhDomainSearch h = []) then []
   else match encodeDomainSearchList (dhDomainSearch h) with
        | None => []
        | Some searchData => whenSome searchData (cutOption DHCPOptDomainSearch searchData)
        end).

Definition appendMiscOptions (h : DHCPHandler) (clientMAC : list Z) (options : list DHCPOption) : list DHCPOption :=
  options ++
  whenSome (dhVendorSpecificInfo h) (cutOption OptVendorOption (dhVendorSpecificInfo h)) ++
  match dhLeases h !! macString clientMAC with
  | Some lease => whenSome (dlHostname lease) (cutOption OptHostname (dlHostname lease))
  | None => []
  end.

Definition buildDHCPOptions (h : DHCPHandler) (msgType : Z) (serverIP : IP) (clientMAC : list Z) (withLease : bool)
    : list DHCPOption :=
  if msgType =? DHCPNak then
    [mkOption OptMessageType 1 [msgType]; fixedOption OptServerID (To4 serverIP);
     mkOption OptMessage (Uint8 (Z.of_nat (length dhcpNakReason))) dhcpNakReason; mkOption OptEnd 0 []]
  else
    let options :=
      [mkOption OptMessageType 1 [msgType]; fixedOption OptServerID (To4 serverIP);
       fixedOption OptSubnetMask (To4 (dhSubnetMask h))] in
    let options := if withLease then options ++ [fixedOption OptLeaseTime (encodeUint32 (uint32 leaseSeconds))] else options in
    let options := appendNetworkOptions h options in
    let options := if withLease then appendTimingOptions h options else options in
    let options := appendBootOptions h options in
    let options := appendMiscOptions h clientMAC options in
    options ++ [mkOption OptEnd 0 []].

(** ** Replies *)

Definition replySource (h : DHCPHandler) (serverIP : IP) (server : string) : IP * IP * option string :=
  if bool_decide (dhRelayIP h = []) then (IPv4zero, serverIP, Some server)
  else (dhRelayIP h, dhRelayIP h, dhRelayDevice h).

Definition sendDHCPResponse (h : DHCPHandler) (xid : Z) (clientMAC : list Z) (assignedIP serverIP : IP)
    (server : string) (msgType vlan : Z) (withLease : bool) : DHCPReply :=
  let nak := msgType =? DHCPNak in
  let '(relayAgent, sourceIP, source) := replySource h serverIP server in
  mkReply xid (if nak then IPv4zero else assignedIP) (if nak then IPv4zero else dhNextServerIP h) relayAgent clientMAC
    (buildDHCPOptions h msgType serverIP clientMAC withLease) sourceIP source vlan.

Definition SendDHCPOffer (h : DHCPHandler) xid clientMAC offeredIP serverIP server vlan : DHCPReply :=
  sendDHCPResponse h xid clientMAC offeredIP serverIP server DHCPOffer vlan true.
Definition SendDHCPAck (h : DHCPHandler) xid clientMAC assignedIP serverIP server vlan : DHCPReply :=
  sendDHCPResponse h xid clientMAC assignedIP serverIP server DHCPAck vlan true.
Definition SendDHCPInformAck (h : DHCPHandler) xid clientMAC serverIP server vlan : DHCPReply :=
  sendDHCPResponse h xid clientMAC IPv4zero serverIP server DHCPAck vlan false.
Definition SendDHCPNak (h : DHCPHandler) xid clientMAC serverIP server vlan : DHCPReply :=
  sendDHCPResponse h xid clientMAC IPv4zero serverIP server DHCPNak vlan false.

(** A reply, and what follows it when it could be sent. *)
Definition sent (env : Env) (reply : DHCPReply) (after : list Action) : list Action :=
  SendReply reply :: (if enSent env reply then after else []).

(** ** Messages *)

Definition parseOption (info : dhcpPacketInfo) (opt : DHCPOption) : dhcpPacketInfo :=
  if opType opt =? OptMessageType then
    match opData opt with [] => info | t :: _ => info <| diMessageType := t |> end
  else if opType opt =? OptHostname then
    match opData opt with [] => info | name => info <| diHostname := name |> end
  else info.

Definition parseDHCPPacket (dhcp : DHCPv4Request) (vlan : Z) : dhcpPacketInfo :=
  foldl parseOption (mkInfo dhcp 0 [] vlan) (rqOptions dhcp).

Definition configuredServerIP (h : DHCPHandler) : IP := dhServerIP h.

Definition getRequestedIP (dhcp : DHCPv4Request) : IP :=
  match List.find (fun opt => (opType opt =? OptRequestIP) && bool_decide (length (opData opt) = 4%nat)) (rqOptions dhcp) with
  | Some opt => opData opt
  | None => []
  end.

Definition serverIDs (dhcp : DHCPv4Request) : list IP :=
  map opData (filter (fun opt => opType opt = OptServerID) (rqOptions dhcp)).

Definition acceptsDHCPRequest (h : DHCPHandler) (info : dhcpPacketInfo) : bool :=
  let ids := serverIDs (diDhcp info) in
  if negb (forallb (fun id => bool_decide (length id = 4%nat)) ids) then false
  else
    match last ids with
    | Some serverID =>
        bool_decide (length ids = 1%nat) && negb (ipUnspecified serverID) && negb (ipMulticast serverID) &&
        negb (ipEqual serverID IPv4bcast) && ipEqual serverID (configuredServerIP h)
    | None =>
        if (diMessageType info =? DHCPDecline) || (diMessageType info =? DHCPRelease) then false
        else if negb (diMessageType info =? DHCPRequest) then true
        else
          let address := getRequestedIP (diDhcp info) in
          let address := if bool_decide (address = []) then rqClientIP (diDhcp info) else address in
          if bool_decide (address = []) || ipUnspecified address then false
          else isIPInPool h address || ipEqual (matchStaticLease h (rqClientHWAddr (diDhcp info))) address
    end.

Definition offerSuppressed (env : Env) : bool :=
  match enStore env with Some store => DeviceFaultActive FaultDHCPNoOffer store | None => false end.

Definition offerAddress (env : Env) (mac hostname : list Z) (h : DHCPHandler) : option IP * DHCPHandler :=
  if negb (bool_decide (offerFault env = AddrZero)) then
    if enPeerActive env (offerFault env) then (Some (AsSlice (offerFault env)), h) else (None, h)
  else
    let '(lease, h) := allocateLease env mac [] hostname h in (dlIP <$> lease, h).

Definition handleDHCPDiscover (env : Env) (info : dhcpPacketInfo) (server : string) (h : DHCPHandler)
    : list Action * DHCPHandler :=
  let mac := rqClientHWAddr (diDhcp info) in
  if offerSuppressed env then ([], h)
  else
    match offerAddress env mac (diHostname info) h with
    | (None, h) => ([], h)
    | (Some address, h) =>
        (sent env (SendDHCPOffer h (rqXid (diDhcp info)) mac address (configuredServerIP h) server (diVlan info))
           [IncrementStat "dhcp_offers"], h)
    end.

Definition sendDHCPNakForRequest (env : Env) (info : dhcpPacketInfo) (server : string) (h : DHCPHandler) : list Action :=
  sent env (SendDHCPNak h (rqXid (diDhcp info)) (rqClientHWAddr (diDhcp info)) (configuredServerIP h) server (diVlan info))
    [IncrementStat "dhcp_naks"].

Definition requestedAddress (dhcp : DHCPv4Request) : IP :=
  let requestedIP := getRequestedIP dhcp in
  if bool_decide (requestedIP = []) && negb (ipUnspecified (rqClientIP dhcp)) then rqClientIP dhcp else requestedIP.

Definition handleDHCPRequest (env : Env) (info : dhcpPacketInfo) (server : string) (h : DHCPHandler)
    : list Action * DHCPHandler :=
  let mac := rqClientHWAddr (diDhcp info) in
  let requestedIP := requestedAddress (diDhcp info) in
  if negb (bool_decide (requestedIP = [])) && negb (canGrantRequestedIP env h mac requestedIP) then
    (sendDHCPNakForRequest env info server h, h)
  else
    match allocateLease env mac requestedIP (diHostname info) h with
    | (None, h) => (sendDHCPNakForRequest env info server h, h)
    | (Some lease, h) =>
        (sent env (SendDHCPAck h (rqXid (diDhcp info)) mac (dlIP lease) (configuredServerIP h) server (diVlan info))
           [IncrementStat "dhcp_acks"; UpdateFDB mac], h)
    end.

Definition handleDHCPInform (env : Env) (info : dhcpPacketInfo) (server : string) (h : DHCPHandler) : list Action :=
  sent env (SendDHCPInformAck h (rqXid (diDhcp info)) (rqClientHWAddr (diDhcp info)) (configuredServerIP h) server (diVlan info))
    [IncrementStat "dhcp_acks"].

(** Drops the client's own lease, if it holds the address. *)
Definition dropLease (mac : list Z) (ip : IP) (h : DHCPHandler) : DHCPHandler :=
  match dhLeases h !! macString mac with
  | Some lease => if ipEqual (dlIP lease) ip then h <| dhLeases := delete (macString mac) (dhLeases h) |> else h
  | None => h
  end.

Definition handleDHCPDecline (info : dhcpPacketInfo) (h : DHCPHandler) : DHCPHandler :=
  let declinedIP := getRequestedIP (diDhcp info) in
  if bool_decide (declinedIP = []) then h
  else
    let h := if isIPInPool h declinedIP then h <| dhDeclined := {[ipString declinedIP]} ∪ dhDeclined h |> else h in
    dropLease (rqClientHWAddr (diDhcp info)) declinedIP h.

Definition dispatchDHCPMessage (env : Env) (info : dhcpPacketInfo) (server : string) (h : DHCPHandler)
    : list Action * DHCPHandler :=
  let t := diMessageType info in
  if t =? DHCPDiscover then handleDHCPDiscover env info server h
  else if t =? DHCPRequest then handleDHCPRequest env info server h
  else if t =? DHCPRelease then ([], dropLease (rqClientHWAddr (diDhcp info)) (rqClientIP (diDhcp info)) h)
  else if t =? DHCPInform then (handleDHCPInform env info server h, h)
  else if t =? DHCPDecline then ([], handleDHCPDecline info h)
  else ([], h).

(** A packet with a DHCP layer. *)
Definition HandlePacket (env : Env) (dhcp : DHCPv4Request) (vlan : Z) (h : DHCPHandler) : list Action * DHCPHandler :=
  let info := parseDHCPPacket dhcp vlan in
  match dhServerDevice h with
  | None => ([], h)
  | Some server =>
      if negb (acceptsDHCPRequest h info) then ([], h) else dispatchDHCPMessage env info server h
  end.
