(* ===== verification/DhcpTheorems.v ===== *)
(** * The DHCP server: leases, answers and options *)

From S2P Require Import Prelude.
From S2P Require Import Netip.
From S2P Require Import DeviceTypes.
From S2P Require Import Safeconv.
From S2P Require Import Bytes.
From S2P Require Import Dhcp.

(** ** Equality of addresses *)

(** An IPv4 address in its short form. *)
Definition canonIP (ip : IP) : IP :=
  if bool_decide (length ip = 16%nat /\ take 12 ip = v4InV6Prefix) then drop 12 ip else ip.

Lemma drop_inj (a b : IP) : take 12 a = take 12 b -> drop 12 a = drop 12 b -> a = b.
Proof. intros H1 H2. rewrite <- (take_drop 12 a), <- (take_drop 12 b). by rewrite H1, H2. Qed.

Lemma ipEqual_iff a b : ipEqual a b = true <-> canonIP a = canonIP b.
Proof.
  unfold ipEqual, canonIP.
  assert (forall x : IP, length x = 16%nat -> length (drop 12 x) = 4%nat) as Hd
    by (intros x H; rewrite length_drop; lia).
  destruct (decide (length a = length b)) as [E|E].
  - rewrite bool_decide_true by done. rewrite bool_decide_eq_true. split; [by intros ->|].
    destruct (decide (length a = 16%nat /\ take 12 a = v4InV6Prefix)) as [Ha|Ha];
      destruct (decide (length b = 16%nat /\ take 12 b = v4InV6Prefix)) as [Hb|Hb].
    + rewrite !bool_decide_true by done. intros H. apply drop_inj; [|done]. by rewrite (proj2 Ha), (proj2 Hb).
    + rewrite bool_decide_true, bool_decide_false by done. intros H. apply (f_equal length) in H.
      rewrite Hd in H by apply Ha. lia.
    + rewrite bool_decide_false, bool_decide_true by done. intros H. apply (f_equal length) in H.
      rewrite Hd in H by apply Hb. lia.
    + by rewrite !bool_decide_false by done.
  - rewrite bool_decide_false by done.
    destruct (decide (length a = 4%nat)) as [A4|A4].
    + rewrite (bool_decide_true (length a = 4%nat)) by done.
      rewrite (bool_decide_false (length a = 16%nat /\ _)) by lia.
      destruct (decide (length b = 16%nat)) as [B|B].
      * rewrite (bool_decide_true (length b = 16%nat)) by done. cbn [andb].
        rewrite andb_true_iff, !bool_decide_eq_true.
        case_bool_decide as Hb; [tauto|]. split; [tauto|]. intros ->. lia.
      * rewrite (bool_decide_false (length b = 16%nat)) by done. cbn [andb].
        rewrite (bool_decide_false (length b = 16%nat /\ _)) by tauto.
        rewrite (bool_decide_false (length a = 16%nat)) by lia. cbn [andb]. split; [done|by intros ->].
    + rewrite (bool_decide_false (length a = 4%nat)) by done. cbn [andb].
      destruct (decide (length a = 16%nat)) as [A|A].
      * rewrite (bool_decide_true (length a = 16%nat)) by done. cbn [andb].
        rewrite (bool_decide_false (length b = 16%nat /\ _)) by lia.
        destruct (decide (length b = 4%nat)) as [B|B].
        -- rewrite (bool_decide_true (length b = 4%nat)) by done. cbn [andb].
           rewrite andb_true_iff, !bool_decide_eq_true.
           case_bool_decide as Ha; [tauto|]. split; [tauto|]. intros <-. lia.
        -- rewrite (bool_decide_false (length b = 4%nat)) by done. split; [done|].
           case_bool_decide as Ha; [|by intros ->]. intros H. apply (f_equal length) in H. rewrite Hd in H by done. lia.
      * rewrite (bool_decide_false (length a = 16%nat)) by done. cbn [andb].
        rewrite (bool_decide_false (length a = 16%nat /\ _)) by tauto. split; [done|].
        case_bool_decide as Hb; [|by intros ->]. intros H. apply (f_equal length) in H.
        rewrite Hd in H by apply Hb. lia.
Qed.

Lemma ipEqual_canon a b : ipEqual a b = bool_decide (canonIP a = canonIP b).
Proof. apply eq_true_iff_eq. by rewrite ipEqual_iff, bool_decide_eq_true. Qed.

Lemma ipEqual_sym a b : ipEqual a b = ipEqual b a.
Proof. rewrite !ipEqual_canon. apply bool_decide_ext. naive_solver. Qed.

Lemma ipEqual_trans a b c : ipEqual a b = true -> ipEqual b c = ipEqual a c.
Proof. rewrite !ipEqual_canon, bool_decide_eq_true. by intros ->. Qed.

Lemma ipEqual_refl a : ipEqual a a = true.
Proof. rewrite ipEqual_canon. by apply bool_decide_eq_true. Qed.

(** ** Allocation *)

Lemma isIPLeased_false now h ip :
  isIPLeased now h ip = false <-> forall k l, dhLeases h !! k = Some l -> heldAt now ip l = false.
Proof.
  unfold isIPLeased. rewrite <- not_true_iff_false, existsb_exists. split.
  - intros Hn k l Hk. apply not_true_is_false. intros Hh. apply Hn. exists (k, l). split; [|done].
    by apply list_elem_of_In, elem_of_map_to_list.
  - intros Hf ([k l] & Hin & Hh). apply list_elem_of_In, elem_of_map_to_list in Hin. by rewrite (Hf k l) in Hh.
Qed.

Lemma findAvailable_free now h :
  findAvailableIP now h <> [] ->
  findAvailableIP now h ∈ dhIpPool h /\ ipString (findAvailableIP now h) ∉ dhDeclined h /\
  isIPLeased now h (findAvailableIP now h) = false.
Proof.
  unfold findAvailableIP. destruct (List.find _ (dhIpPool h)) as [ip|] eqn:E; [|done]. intros _.
  apply find_some in E as [Hin Hf]. apply andb_true_iff in Hf as [H1 H2].
  apply negb_true_iff, bool_decide_eq_false in H1. apply negb_true_iff in H2. by rewrite list_elem_of_In.
Qed.

Lemma free_grant now h mac ip :
  matchStaticLease h mac = [] -> canGrantRequestedIPLocked now h mac ip = true ->
  ipString ip ∉ dhDeclined h /\
  ((exists l, dhLeases h !! macString mac = Some l /\ ipEqual (dlIP l) ip = true) \/
   isIPInPool h ip = true /\ isIPLeased now h ip = false).
Proof.
  intros Hs. unfold canGrantRequestedIPLocked. rewrite Hs. cbn.
  case_bool_decide; [done|]. intros H'. split; [done|].
  destruct (dhLeases h !! macString mac) as [l|] eqn:E; [destruct (ipEqual (dlIP l) ip) eqn:El|].
  - left. by exists l.
  - apply andb_true_iff in H' as [? ?%negb_true_iff]. by right.
  - apply andb_true_iff in H' as [? ?%negb_true_iff]. by right.
Qed.

(** What a successful allocation stores: the client's lease from now, on the
    requested address, the static one, or a free one of the pool. *)
Lemma allocate_spec env mac req host h lease h' :
  allocateLease env mac req host h = (Some lease, h') ->
  h' = h <| dhLeases := <[macString mac := lease]> (dhLeases h) |> /\
  dlExpiry lease = enNow env + DefaultLeaseTime /\
  conflictsWithOffer env req = false /\
  (req = [] \/ canGrantRequestedIPLocked (enNow env) h mac req = true) /\
  (if bool_decide (matchStaticLease h mac = []) then
     match dhLeases h !! macString mac with
     | Some existing => dlIP lease = if bool_decide (req = []) then dlIP existing else req
     | None => (req <> [] /\ dlIP lease = req \/ req = [] /\ dlIP lease = findAvailableIP (enNow env) h) /\
               dlIP lease <> [] /\ isIPLeased (enNow env) h (dlIP lease) = false
     end
   else dlIP lease = matchStaticLease h mac).
Proof.
  unfold allocateLease. cbv zeta beta. destruct (conflictsWithOffer env req) eqn:Hc; [done|].
  destruct (negb (bool_decide (req = [])) && negb (canGrantRequestedIPLocked (enNow env) h mac req)) eqn:Hg; [done|].
  assert (req = [] \/ req <> [] /\ canGrantRequestedIPLocked (enNow env) h mac req = true) as Hreq.
  { destruct (decide (req = [])) as [->|Hr]; [by left|right]. rewrite bool_decide_false in Hg by done.
    split; [done|]. by apply negb_false_iff in Hg. }
  clear Hg. destruct (bool_decide_reflect (matchStaticLease h mac = [])) as [Hs|Hs]; cbn [negb].
  - destruct (dhLeases h !! macString mac) as [existing|] eqn:El.
    + intros E; injection E as <- <-. unfold renewed, cloneDHCPLease. repeat case_bool_decide; split_and!; try done; naive_solver.
    + set (ip := if _ && _ && _ then req else _).
      destruct (bool_decide_reflect (ip = [])) as [Hip|Hne]; [done|]. intros [= <- <-].
      cbn [dlIP dlExpiry cloneDHCPLease].
      assert ((req <> [] /\ ip = req \/ req = [] /\ ip = findAvailableIP (enNow env) h) /\
        isIPLeased (enNow env) h ip = false) as [H1 H2].
      { subst ip. destruct Hreq as [->|[Hr Hok]].
        - rewrite bool_decide_true by done. cbn in Hne |- *. split; [by right|]. by apply findAvailable_free.
        - destruct (free_grant _ _ _ _ Hs Hok) as [_ [(l & Hl & _)|[Hp Hf]]]; [congruence|].
          rewrite bool_decide_false, Hp, Hf by done. split; [by left|done]. }
      split_and!; [done|done|done|naive_solver|done|done|done].
  - destruct (dhLeases h !! macString mac) as [existing|] eqn:El; intros [= <- <-]; cbn [dlIP dlExpiry cloneDHCPLease];
      (split_and!; [done| |done|naive_solver|]); unfold renewed; rewrite ?(bool_decide_false (_ = [])) by done;
      repeat case_bool_decide; done.
Qed.

(** ** No address twice *)

(** A client without a static lease. *)
Definition dynamicKey (h : DHCPHandler) (key : string) : Prop :=
  forall mac, macString mac = key -> matchStaticLease h mac = [].

(** No two dynamic clients hold the same address at [now]. *)
Definition exclusive (now : Time) (h : DHCPHandler) : Prop :=
  forall k1 k2 l1 l2, k1 <> k2 -> dynamicKey h k1 -> dynamicKey h k2 ->
  dhLeases h !! k1 = Some l1 -> dhLeases h !! k2 = Some l2 -> now < dlExpiry l1 -> now < dlExpiry l2 ->
  ipEqual (dlIP l1) (dlIP l2) = false.

(** The client comes back before its lease ran out, or its address is free. *)
Definition timely (now : Time) (h : DHCPHandler) (mac : list Z) : Prop :=
  forall lease, dhLeases h !! macString mac = Some lease ->
  now < dlExpiry lease \/
  forall k other, k <> macString mac -> dhLeases h !! k = Some other -> heldAt now (dlIP lease) other = false.

Lemma exclusive_later now later h : exclusive now h -> now <= later -> exclusive later h.
Proof. intros H Hle k1 k2 l1 l2 Hne D1 D2 H1 H2 E1 E2. eapply (H k1 k2); eauto; lia. Qed.

Lemma exclusive_insert now h key lease :
  exclusive now h ->
  (dynamicKey h key -> forall k other, k <> key -> dynamicKey h k -> dhLeases h !! k = Some other ->
    now < dlExpiry other -> ipEqual (dlIP lease) (dlIP other) = false) ->
  exclusive now (h <| dhLeases := <[key := lease]> (dhLeases h) |>).
Proof.
  intros He Hnew k1 k2 l1 l2 Hne D1 D2. cbn. rewrite !lookup_insert_Some.
  intros [[<- <-]|[N1 H1]] [[<- <-]|[N2 H2]] E1 E2.
  - done.
  - by eapply Hnew.
  - rewrite ipEqual_sym. by eapply Hnew.
  - by apply (He k1 k2).
Qed.

Lemma exclusive_delete now h key :
  exclusive now h -> exclusive now (h <| dhLeases := delete key (dhLeases h) |>).
Proof.
  intros He k1 k2 l1 l2 Hne D1 D2. cbn. rewrite !lookup_delete_Some. intros [_ H1] [_ H2]. by apply (He k1 k2).
Qed.

Lemma heldAt_false now ip l : heldAt now ip l = false -> now < dlExpiry l -> ipEqual (dlIP l) ip = false.
Proof. unfold heldAt. destruct (Z.ltb_spec now (dlExpiry l)); [by rewrite andb_true_r|lia]. Qed.

Lemma allocate_exclusive env mac req host h :
  exclusive (enNow env) h -> timely (enNow env) h mac -> exclusive (enNow env) (allocateLease env mac req host h).2.
Proof.
  intros He Ht. destruct (allocateLease env mac req host h) as [[lease|] h'] eqn:E.
  - apply allocate_spec in E as (-> & _ & _ & Hreq & Hip). cbn [snd]. apply exclusive_insert; [done|].
    intros Hd k other Hk Dk Hother Hexp. rewrite bool_decide_true in Hip by by apply Hd.
    assert (forall l, dhLeases h !! macString mac = Some l -> ipEqual (dlIP l) (dlIP other) = false) as Hown.
    { intros l Hl. destruct (Ht l Hl) as [Hlt|Hfree].
      - by apply (He (macString mac) k).
      - rewrite ipEqual_sym. eapply heldAt_false; [by eapply Hfree|done]. }
    destruct (dhLeases h !! macString mac) as [existing|] eqn:El.
    + rewrite Hip. case_bool_decide as Hr; [by apply Hown|]. destruct Hreq as [?|Hok]; [done|].
      apply free_grant in Hok as [_ [(l & Hl & Heq)|[_ Hfree]]]; [| |by apply Hd].
      * rewrite El in Hl. injection Hl as ->. rewrite (ipEqual_trans _ _ (dlIP other) Heq). by apply Hown.
      * rewrite ipEqual_sym. eapply heldAt_false; [|exact Hexp]. by eapply isIPLeased_false.
    + destruct Hip as (_ & _ & Hfree). rewrite ipEqual_sym.
      eapply heldAt_false; [|exact Hexp]. by eapply isIPLeased_false.
  - assert (h' = h) as ->; [|done]. revert E. unfold allocateLease. cbv zeta beta.
    repeat case_match; congruence.
Qed.

Lemma drop_exclusive now mac ip h : exclusive now h -> exclusive now (dropLease mac ip h).
Proof.
  intros He. unfold dropLease. destruct (dhLeases h !! macString mac) as [l|]; [|done].
  destruct (ipEqual (dlIP l) ip); [by apply exclusive_delete|done].
Qed.

Lemma request_exclusive env info server h :
  exclusive (enNow env) h -> timely (enNow env) h (rqClientHWAddr (diDhcp info)) ->
  exclusive (enNow env) (handleDHCPRequest env info server h).2.
Proof.
  intros He Ht. unfold handleDHCPRequest. destruct (_ && _); [done|].
  pose proof (allocate_exclusive env _ (requestedAddress (diDhcp info)) (diHostname info) h He Ht) as H.
  by destruct (allocateLease _ _ _ _ h) as [[lease|] h'].
Qed.

Lemma discover_exclusive env info server h :
  exclusive (enNow env) h -> timely (enNow env) h (rqClientHWAddr (diDhcp info)) ->
  exclusive (enNow env) (handleDHCPDiscover env info server h).2.
Proof.
  intros He Ht. unfold handleDHCPDiscover, offerAddress. destruct (offerSuppressed env); [done|].
  destruct (negb _); [by destruct (enPeerActive env _)|].
  pose proof (allocate_exclusive env _ [] (diHostname info) h He Ht) as H.
  by destruct (allocateLease _ _ _ _ h) as [[lease|] h'].
Qed.

Lemma info_dhcp dhcp vlan : diDhcp (parseDHCPPacket dhcp vlan) = dhcp.
Proof.
  unfold parseDHCPPacket. generalize (mkInfo dhcp 0 [] vlan) as i, (eq_refl : diDhcp (mkInfo dhcp 0 [] vlan) = dhcp).
  induction (rqOptions dhcp) as [|o os IH]; intros i Hi; [done|]. cbn [foldl]. apply IH.
  unfold parseOption. repeat case_match; done.
Qed.

Lemma packet_exclusive env dhcp vlan h :
  exclusive (enNow env) h -> timely (enNow env) h (rqClientHWAddr dhcp) ->
  exclusive (enNow env) (HandlePacket env dhcp vlan h).2.
Proof.
  intros He Ht. unfold HandlePacket. destruct (dhServerDevice h) as [server|]; [|done].
  pose proof (info_dhcp dhcp vlan) as Ei. set (info := parseDHCPPacket dhcp vlan) in *.
  destruct (acceptsDHCPRequest h info); cbn [negb]; [|done]. rewrite <- Ei in Ht. unfold dispatchDHCPMessage.
  destruct (_ =? DHCPDiscover); [by apply discover_exclusive|].
  destruct (_ =? DHCPRequest); [by apply request_exclusive|].
  destruct (_ =? DHCPRelease); [by apply drop_exclusive|]. destruct (_ =? DHCPInform); [done|].
  destruct (_ =? DHCPDecline); [|done]. cbn [snd]. unfold handleDHCPDecline. case_bool_decide; [done|].
  destruct (isIPInPool h _); by apply drop_exclusive.
Qed.

(** ** Runs *)

Record arrival := mkArrival { arEnv : Env; arDhcp : DHCPv4Request; arVlan : Z }.

Definition serve (h : DHCPHandler) (a : arrival) : DHCPHandler := (HandlePacket (arEnv a) (arDhcp a) (arVlan a) h).2.

(** The clock does not run backwards and no client outstays its lease. *)
Fixpoint wellTimed (now : Time) (arrivals : list arrival) (h : DHCPHandler) : Prop :=
  match arrivals with
  | [] => True
  | a :: arrivals =>
      now <= enNow (arEnv a) /\ timely (enNow (arEnv a)) h (rqClientHWAddr (arDhcp a)) /\
      wellTimed (enNow (arEnv a)) arrivals (serve h a)
  end.

Definition clock (now : Time) (arrivals : list arrival) : Time :=
  match last arrivals with Some a => enNow (arEnv a) | None => now end.


(** And only then: a client whose lease ran out gets its old address back
    although the server has leased it to another client since; both then hold
    it. *)
Theorem returning_client_doubled env info server h k mine other :
  let mac := rqClientHWAddr (diDhcp info) in
  let ip := getRequestedIP (diDhcp info) in
  ip <> [] -> dhLeases h !! macString mac = Some mine -> dhLeases h !! k = Some other -> k <> macString mac ->
  ipEqual (dlIP mine) ip = true -> ipEqual (dlIP other) ip = true ->
  dlExpiry mine <= enNow env -> enNow env < dlExpiry other ->
  matchStaticLease h mac = [] -> ipString ip ∉ dhDeclined h -> conflictsWithOffer env ip = false ->
  let '(actions, h') := handleDHCPRequest env info server h in
  head actions = Some (SendReply (SendDHCPAck h' (rqXid (diDhcp info)) mac ip (dhServerIP h) server (diVlan info))) /\
  dhLeases h' !! k = Some other /\
  exists again, dhLeases h' !! macString mac = Some again /\ dlIP again = ip /\ enNow env < dlExpiry again.
Proof.
  intros mac ip Hip Hmine Hother Hk Em Eo Hexp Hnow Hstatic Hdecl Hconf. unfold handleDHCPRequest.
  assert (requestedAddress (diDhcp info) = ip) as ->.
  { unfold requestedAddress. fold ip. by rewrite bool_decide_false by done. }
  fold mac. assert (canGrantRequestedIPLocked (enNow env) h mac ip = true) as Hg.
  { unfold canGrantRequestedIPLocked. rewrite Hstatic, Hmine, Em. cbn. by rewrite bool_decide_false. }
  unfold canGrantRequestedIP. rewrite Hconf, Hg, andb_false_r.
  destruct (allocateLease env mac ip (diHostname info) h) as [[lease|] h'] eqn:E.
  - pose proof (allocate_spec _ _ _ _ _ _ _ E) as (-> & Hexpiry & _ & _ & Hd).
    rewrite bool_decide_true, Hmine, bool_decide_false in Hd by done. cbn. rewrite <- Hd. split; [done|].
    rewrite lookup_insert_ne by done. split; [done|]. exists lease. rewrite lookup_insert_eq.
    split; [done|]. split; [done|]. rewrite Hexpiry. unfold DefaultLeaseTime. lia.
  - exfalso. revert E. unfold allocateLease. cbv zeta beta. rewrite Hconf, Hg, andb_false_r.
    rewrite bool_decide_true, Hmine by done. done.
Qed.

(** ** A server of one address *)

Definition macA : list Z := [2; 0; 0; 0; 0; 10].
Definition macB : list Z := [2; 0; 0; 0; 0; 11].
Definition hours (n : Z) : Time := n * 3600 * 10 ^ 9.

Definition testServer : DHCPHandler :=
  setServerConfig (Some "srv"%string) [192; 0; 2; 1] [192; 0; 2; 1] [] []
    (SetPool [192; 0; 2; 10] [192; 0; 2; 10] NewDHCPHandler).

Definition testEnv (now : Time) : Env := mkEnv now None (fun _ => false) (fun _ => true).

Definition discover (now : Time) (mac : list Z) : arrival :=
  mkArrival (testEnv now) (mkRequest 7 [0; 0; 0; 0] mac [mkOption OptMessageType 1 [DHCPDiscover]]) 0.

Definition requestInfo (mac : list Z) : dhcpPacketInfo :=
  parseDHCPPacket (mkRequest 8 [0; 0; 0; 0] mac
    [mkOption OptMessageType 1 [DHCPRequest]; mkOption OptRequestIP 4 [192; 0; 2; 10]]) 0.

(** A's lease runs out and its address goes to B. *)
Definition testArrivals : list arrival := [discover (hours 0) macA; discover (hours 25) macB].

Definition testLeases : DHCPHandler := foldl serve testServer testArrivals.


Lemma returning_client_doubled_witness :
  let h' := (handleDHCPRequest (testEnv (hours 26)) (requestInfo macA) "srv" testLeases).2 in
  exists mine other, dhLeases testLeases !! macString macA = Some mine /\ dlExpiry mine = hours 24 /\
    dhLeases h' !! macString macB = Some other /\ dlIP other = [192; 0; 2; 10] /\ hours 26 < dlExpiry other /\
    exists again, dhLeases h' !! macString macA = Some again /\ dlIP again = [192; 0; 2; 10] /\ hours 26 < dlExpiry again.
Proof.
  set (lease mac at_ := mkDHCPLease [192; 0; 2; 10] mac [] (at_ + DefaultLeaseTime) DefaultLeaseTime).
  pose proof (returning_client_doubled (testEnv (hours 26)) (requestInfo macA) "srv" testLeases (macString macB)
    (lease macA (hours 0)) (lease macB (hours 25))) as H.
  destruct (handleDHCPRequest (testEnv (hours 26)) (requestInfo macA) "srv" testLeases) as [actions h'] eqn:E.
  cbv zeta in H. destruct H as (_ & Hother & Hagain);
    [discriminate|vm_compute; reflexivity|vm_compute; reflexivity|vm_compute; discriminate|vm_compute; reflexivity
    |vm_compute; reflexivity|vm_compute; discriminate|vm_compute; reflexivity|vm_compute; reflexivity
    |apply (bool_decide_unpack _); vm_compute; exact I|vm_compute; reflexivity|].
  exists (lease macA (hours 0)), (lease macB (hours 25)).
  split; [vm_compute; reflexivity|]. split; [reflexivity|]. split; [exact Hother|]. split; [reflexivity|].
  split; [reflexivity|]. exact Hagain.
Defined.

(** ** Answers to a REQUEST *)

(** The address can be leased to the client. *)
Definition grantable (env : Env) (h : DHCPHandler) (mac ip : list Z) : bool :=
  if bool_decide (ip = []) then
    negb (bool_decide (matchStaticLease h mac = [])) || bool_decide (is_Some (dhLeases h !! macString mac)) ||
    negb (bool_decide (findAvailableIP (enNow env) h = []))
  else canGrantRequestedIP env h mac ip.

Lemma allocate_grantable env h mac ip host :
  fst (allocateLease env mac ip host h) = None <-> grantable env h mac ip = false.
Proof.
  unfold allocateLease, grantable, canGrantRequestedIP. cbv zeta beta.
  destruct (bool_decide_reflect (ip = [])) as [->|Hip]; cbn [negb andb].
  - assert (conflictsWithOffer env [] = false) as -> by (unfold conflictsWithOffer; by destruct (enStore env)).
    destruct (bool_decide_reflect (matchStaticLease h mac = [])); cbn [negb orb].
    + destruct (dhLeases h !! macString mac) as [l|]; cbn [orb].
      * by rewrite bool_decide_true by by eexists.
      * destruct (bool_decide_reflect (is_Some (@None DHCPLease))) as [[? ?]|_]; [done|]. cbn [orb]. by case_bool_decide.
    + by destruct (dhLeases h !! macString mac).
  - destruct (conflictsWithOffer env ip); [done|].
    destruct (canGrantRequestedIPLocked (enNow env) h mac ip) eqn:Hg; [|done]. cbn [negb].
    destruct (bool_decide_reflect (matchStaticLease h mac = [])) as [Hs|Hs]; cbn [negb].
    + destruct (dhLeases h !! macString mac) as [l|] eqn:El; [done|].
      apply free_grant in Hg as [_ [(l & Hl & _)|[-> ->]]]; [congruence| |done].
      cbn. by rewrite bool_decide_false by done.
    + by destruct (dhLeases h !! macString mac).
Qed.


(** ** The pool *)

Lemma big32_inj a b : 0 <= a < 2 ^ 32 -> 0 <= b < 2 ^ 32 -> big32 a = big32 b -> a = b.
Proof. intros Ha Hb E. rewrite <- (bigUint32_big32 a []), <- (bigUint32_big32 b []) by done. by rewrite E. Qed.

Lemma poolLoop_range fuel i stop :
  0 <= i -> stop < 2 ^ 32 -> i <= stop -> (Z.to_nat (stop - i + 1) <= fuel)%nat ->
  poolLoop fuel i stop = map big32 (seqZ i (stop - i + 1)).
Proof.
  revert i. induction fuel as [|fuel IH]; intros i Hi Hstop Hle Hf; [lia|]. cbn [poolLoop].
  rewrite (seqZ_cons i) by lia. cbn [map]. f_equal. destruct (Z.eqb_spec i stop) as [->|Hne].
  - by rewrite seqZ_nil by lia.
  - rewrite uint32_id by lia. rewrite IH by lia. f_equal. replace (Z.succ i) with (i + 1) by lia. f_equal. lia.
Qed.


Lemma bigUint32_range b : Forall isByte b -> 0 <= bigUint32 b < 2 ^ 32.
Proof.
  intros H. unfold bigUint32. pose proof (byteAt_range b 0 H). pose proof (byteAt_range b 1 H).
  pose proof (byteAt_range b 2 H). pose proof (byteAt_range b 3 H). lia.
Qed.

Lemma To4_bytes ip : Forall isByte ip -> Forall isByte (To4 ip).
Proof. intros H. unfold To4. repeat case_match; auto. by apply Forall_drop. Qed.

Lemma To4_length ip : To4 ip = [] \/ length (To4 ip) = 4%nat.
Proof.
  unfold To4. case_bool_decide; [by right|]. destruct (_ && _ && _ && _) eqn:E; [right|by left].
  apply andb_true_iff in E as [[[E _]%andb_true_iff _]%andb_true_iff _]. apply bool_decide_eq_true in E.
  rewrite length_drop. lia.
Qed.

(** A range a pool can be made of. *)
Definition poolRange (start stop : IP) : Prop :=
  To4 start <> [] /\ To4 stop <> [] /\ bigUint32 (To4 start) <= bigUint32 (To4 stop) /\
  bigUint32 (To4 stop) - bigUint32 (To4 start) + 1 <= 65536.

(** C16.  A pool is its range: of IPv4 ends in order and at most 65536
    addresses apart it is every address between them once, in order — the loop
    ends there whatever more turns it is given, at 255.255.255.255 too — and of
    any other ends it is empty. *)
Theorem pool_exact start stop h :
  Forall isByte start -> Forall isByte stop ->
  let first := bigUint32 (To4 start) in
  let size := bigUint32 (To4 stop) - first + 1 in
  let pool := dhIpPool (SetPool start stop h) in
  (poolRange start stop -> pool = map big32 (seqZ first size) /\
    forall fuel, (Z.to_nat size <= fuel)%nat -> poolLoop fuel first (bigUint32 (To4 stop)) = pool) /\
  (~ poolRange start stop -> pool = []) /\
  NoDup pool /\ Z.of_nat (length pool) <= 65536.
Proof.
  intros Hs He first size pool.
  pose proof (bigUint32_range _ (To4_bytes _ Hs)) as Rs. pose proof (bigUint32_range _ (To4_bytes _ He)) as Re.
  assert (poolRange start stop -> pool = map big32 (seqZ first size)) as Hin.
  { intros (H1 & H2 & H3 & H4). subst pool size first. cbn. unfold generateIPPool.
    rewrite !bool_decide_false by done. cbn [orb]. destruct (Z.ltb_spec (bigUint32 (To4 stop)) (bigUint32 (To4 start))); [lia|].
    rewrite uint64_id by lia. destruct (Z.ltb_spec MaxDHCPv4PoolSize (bigUint32 (To4 stop) - bigUint32 (To4 start) + 1));
      [unfold MaxDHCPv4PoolSize in *; lia|]. apply poolLoop_range; lia. }
  assert (~ poolRange start stop -> pool = []) as Hout.
  { intros Hn. subst pool. cbn. unfold generateIPPool. unfold poolRange in Hn.
    destruct (bool_decide_reflect (To4 start = [])); [done|]. destruct (bool_decide_reflect (To4 stop = [])); [done|].
    cbn [orb]. destruct (Z.ltb_spec (bigUint32 (To4 stop)) (bigUint32 (To4 start))); [done|].
    rewrite uint64_id by lia. destruct (Z.ltb_spec MaxDHCPv4PoolSize (bigUint32 (To4 stop) - bigUint32 (To4 start) + 1)); [done|].
    destruct Hn. unfold MaxDHCPv4PoolSize in *. split_and!; [done|done|lia|lia]. }
  split; [intros Hr; split; [by apply Hin|]|split; [exact Hout|]].
  - intros fuel Hf. rewrite (Hin Hr). destruct Hr as (_ & _ & Hle & _). apply poolLoop_range; lia.
  - assert (Decision (poolRange start stop)) as [Hr|Hr] by (unfold poolRange; apply _).
    + rewrite (Hin Hr). destruct Hr as (_ & _ & Hle & Hsize). rewrite length_map, length_seqZ. split; [|lia].
      apply NoDup_fmap_2_strong; [|apply NoDup_seqZ]. intros a b Ha%elem_of_seqZ Hb%elem_of_seqZ E.
      apply big32_inj; [lia|lia|done].
    + rewrite (Hout Hr). split; [constructor|cbn; lia].
Qed.

Lemma pool_exact_witness :
  dhIpPool (SetPool [255; 255; 255; 254] (IPv4 255 255 255 255) NewDHCPHandler) = [[255; 255; 255; 254]; [255; 255; 255; 255]] /\
  dhIpPool (SetPool [192; 0; 2; 9] [192; 0; 2; 8] NewDHCPHandler) = [].
Proof.
  assert (forall l, forallb (fun b => (0 <=? b) && (b <? 256)) l = true -> Forall isByte l) as Hb.
  { intros l Hl. apply Forall_forall. intros b Hin. rewrite forallb_forall in Hl.
    apply list_elem_of_In, Hl, andb_true_iff in Hin as [H1%Z.leb_le H2%Z.ltb_lt]. done. }
  destruct (pool_exact [255; 255; 255; 254] (IPv4 255 255 255 255) NewDHCPHandler
    (Hb [255; 255; 255; 254] eq_refl) (Hb (IPv4 255 255 255 255) eq_refl)) as [H1 _].
  destruct (pool_exact [192; 0; 2; 9] [192; 0; 2; 8] NewDHCPHandler
    (Hb [192; 0; 2; 9] eq_refl) (Hb [192; 0; 2; 8] eq_refl)) as (_ & H2 & _).
  split.
  - refine (proj1 (H1 _)). unfold poolRange. vm_compute. split_and!; discriminate.
  - apply H2. unfold poolRange. vm_compute. intros (_ & _ & H & _). by apply H.
Defined.

(** ** Options *)

(** An option its length byte describes. *)
Definition wfOption (o : DHCPOption) : Prop :=
  opLength o = Z.of_nat (length (opData o)) /\ 0 <= opLength o <= 255.

(** Addresses an option can carry. *)
Definition wfServer (h : DHCPHandler) (serverIP : IP) : Prop :=
  To4 serverIP <> [] /\ To4 (dhSubnetMask h) <> [] /\ (dhGateway h <> [] -> To4 (dhGateway h) <> []).

Lemma wf_fixed type data : length data = 4%nat -> wfOption (fixedOption type data).
Proof. intros H. unfold wfOption, fixedOption. cbn. rewrite H. done. Qed.

Lemma wf_ip type ip : To4 ip <> [] -> wfOption (fixedOption type (To4 ip)).
Proof. intros H. apply wf_fixed. by destruct (To4_length ip). Qed.

Lemma wf_cut type data : wfOption (cutOption type data).
Proof.
  unfold wfOption, cutOption, dhcpMaxByte. cbn [opLength opData]. rewrite length_take.
  set (n := (length data `min` 255)%nat). assert (n <= 255)%nat by lia.
  unfold Uint8, MaxUint8, uint8. destruct (Z.ltb_spec (Z.of_nat n) 0), (Z.ltb_spec (2 ^ 8 - 1) (Z.of_nat n)); [lia..|].
  rewrite Z.mod_small by lia. split; [f_equal; lia|lia].
Qed.

Lemma wf_when {A} (data : list A) o : wfOption o -> Forall wfOption (whenSome data o).
Proof. intros H. unfold whenSome. case_bool_decide; [constructor|by constructor]. Qed.

Definition optType (type : Z) (options : list DHCPOption) : Prop := type ∈ map opType options.

Lemma types_when {A} type (data : list A) o : optType type (whenSome data o) -> type = opType o.
Proof.
  unfold optType, whenSome. case_bool_decide; cbn; [by intros ?%elem_of_nil|by intros ?%list_elem_of_singleton].
Qed.

Lemma optType_app type l1 l2 : optType type (l1 ++ l2) <-> optType type l1 \/ optType type l2.
Proof. unfold optType. by rewrite map_app, elem_of_app. Qed.

Lemma wf_network h options :
  (dhGateway h <> [] -> To4 (dhGateway h) <> []) -> Forall wfOption options ->
  Forall wfOption (appendNetworkOptions h options).
Proof.
  intros Hg Ho. unfold appendNetworkOptions. rewrite !Forall_app. split_and!; [done| |by apply wf_when, wf_cut..].
  unfold whenSome. case_bool_decide as Hn; [constructor|]. constructor; [|constructor]. by apply wf_ip, Hg.
Qed.

Lemma wf_timing h options : Forall wfOption options -> Forall wfOption (appendTimingOptions h options).
Proof.
  intros Ho. unfold appendTimingOptions. rewrite !Forall_app. split_and!; [done| |by apply wf_when, wf_cut].
  constructor; [by apply wf_fixed|constructor; [by apply wf_fixed|constructor]].
Qed.

Lemma wf_boot h options : Forall wfOption options -> Forall wfOption (appendBootOptions h options).
Proof.
  intros Ho. unfold appendBootOptions. rewrite !Forall_app. split_and!; [done|by apply wf_when, wf_cut..|].
  case_bool_decide; [constructor|]. destruct (encodeDomainSearchList _); [by apply wf_when, wf_cut|constructor].
Qed.

Lemma wf_misc h mac options : Forall wfOption options -> Forall wfOption (appendMiscOptions h mac options).
Proof.
  intros Ho. unfold appendMiscOptions. rewrite !Forall_app. split_and!; [done|by apply wf_when, wf_cut|].
  destruct (dhLeases h !! macString mac); [by apply wf_when, wf_cut|constructor].
Qed.

(** Options that say something about a lease. *)
Definition leaseTypes : list Z := [OptLeaseTime; OptT1; OptT2].

Lemma no_lease_types h mac options type :
  type ∈ leaseTypes -> ~ optType type options ->
  ~ optType type (appendMiscOptions h mac (appendBootOptions h (appendNetworkOptions h options))).
Proof.
  intros Ht Ho. unfold appendMiscOptions, appendBootOptions, appendNetworkOptions. rewrite !optType_app.
  assert (type = 51 \/ type = 58 \/ type = 59) as Hv by (unfold leaseTypes in Ht; rewrite !elem_of_cons, elem_of_nil in Ht; tauto).
  intros H. repeat match type of H with _ \/ _ => destruct H as [H|H] end; try done;
    try (apply types_when in H; cbn in H; unfold OptRouter, OptDNS, OptDomainName, DHCPOptTFTPServer, DHCPOptBootfileName,
      OptVendorOption in H; lia).
  - revert H. case_bool_decide; [by intros ?%elem_of_nil|]. destruct (encodeDomainSearchList _); [|by intros ?%elem_of_nil].
    intros Hin%types_when. cbn in Hin. unfold DHCPOptDomainSearch in Hin. lia.
  - revert H. destruct (dhLeases h !! macString mac); [|by intros ?%elem_of_nil].
    intros Hin%types_when. cbn in Hin. unfold OptHostname in Hin. lia.
Qed.

Lemma wf_build h msgType serverIP mac withLease :
  wfServer h serverIP -> Forall wfOption (buildDHCPOptions h msgType serverIP mac withLease).
Proof.
  intros (Hs & Hm & Hg). unfold buildDHCPOptions.
  destruct (msgType =? DHCPNak).
  { repeat (constructor; [first [by apply wf_ip|by split]|]). constructor. }
  rewrite Forall_app. split; [|by repeat constructor].
  assert (Forall wfOption [mkOption OptMessageType 1 [msgType]; fixedOption OptServerID (To4 serverIP);
    fixedOption OptSubnetMask (To4 (dhSubnetMask h))]) as Hbase.
  { repeat (constructor; [first [by apply wf_ip|by split]|]). constructor. }
  apply wf_misc, wf_boot. destruct withLease; [apply wf_timing|]; apply wf_network; try done.
  rewrite Forall_app. split; [done|]. constructor; [by apply wf_fixed|constructor].
Qed.



(** ** Domain search lists *)

(** A reader of the wire form: names of labels, each ended by a zero byte. *)
Fixpoint readNames (fuel : nat) (name : list (list Z)) (data : list Z) : list (list (list Z)) :=
  match fuel, data with
  | S fuel, n :: data =>
      if n =? 0 then name :: readNames fuel [] data
      else readNames fuel (name ++ [take (Z.to_nat n) data]) (drop (Z.to_nat n) data)
  | _, _ => []
  end.

(** The labels of a domain that fit a name; the code leaves longer ones out. *)
Definition wireLabels (domain : list Z) : list (list Z) :=
  filter (fun label => (length label <= maxDomainLabelLen)%nat) (splitDomain domain).

Definition wireDomain (domain : list Z) : list Z := concat (map encodeLabel (splitDomain domain)) ++ [0].

Lemma splitLabels_nonempty domain label : Forall (fun l => l <> []) (splitLabels label domain).
Proof.
  assert (forall l : list Z, Forall (fun l => l <> []) (if bool_decide (l = []) then [] else [l])) as Hl.
  { intros l. case_bool_decide; by repeat constructor. }
  revert label. induction domain as [|c domain IH]; intros label; cbn [splitLabels]; [apply Hl|].
  destruct (c =? 46); [|apply IH]. apply Forall_app. by split.
Qed.

Lemma splitDomain_nonempty domain : Forall (fun l => l <> []) (splitDomain domain).
Proof. unfold splitDomain. case_bool_decide; [constructor|apply splitLabels_nonempty]. Qed.

Lemma encodeLabel_cases label :
  label <> [] ->
  encodeLabel label =
    if decide (length label <= maxDomainLabelLen)%nat then Z.of_nat (length label) :: label else [].
Proof.
  intros Hn. unfold encodeLabel. rewrite (bool_decide_false (label = [])) by done. cbn [orb].
  case_bool_decide as H; destruct (decide _) as [H'|H']; try done; try lia.
  unfold maxDomainLabelLen in *. by rewrite Byte_id by (unfold MaxUint8; lia).
Qed.

Lemma readNames_labels labels fuel name rest :
  Forall (fun l => l <> []) labels -> (length (concat (map encodeLabel labels)) < fuel)%nat ->
  exists fuel', (fuel <= fuel' + length (concat (map encodeLabel labels)) + 1)%nat /\
    readNames fuel name (concat (map encodeLabel labels) ++ 0 :: rest) =
    (name ++ filter (fun label => (length label <= maxDomainLabelLen)%nat) labels) :: readNames fuel' [] rest.
Proof.
  intros Hl. revert fuel name. induction Hl as [|label labels Hg _ IH]; intros [|fuel] name Hf;
    cbn [map concat app] in *; try lia.
  - exists fuel. cbn [length filter readNames]. split; [lia|]. by rewrite app_nil_r.
  - rewrite filter_cons, encodeLabel_cases in * by done. destruct (decide _) as [Hd|Hd].
    + cbn [app readNames length] in *. rewrite length_app in *.
      assert (length label <> 0)%nat by (by intros ?%nil_length_inv).
      destruct (Z.eqb_spec (Z.of_nat (length label)) 0); [lia|].
      rewrite Nat2Z.id, <- app_assoc, take_app_length, drop_app_length.
      destruct (IH fuel (name ++ [label])) as (fuel' & Hf' & ->); [lia|]. exists fuel'. split; [lia|].
      by rewrite <- app_assoc.
    + cbn [app] in *. by apply IH.
Qed.

Lemma readNames_domains ds fuel :
  (length (concat (map wireDomain ds)) < fuel)%nat ->
  readNames fuel [] (concat (map wireDomain ds)) = map wireLabels ds.
Proof.
  revert fuel. induction ds as [|d ds IH]; intros fuel Hf; cbn [map concat] in *; [by destruct fuel|].
  assert (wireDomain d = concat (map encodeLabel (splitDomain d)) ++ [0]) as Hd by done.
  rewrite Hd in *. rewrite <- app_assoc. cbn [app]. rewrite !length_app in Hf. cbn [length] in Hf.
  destruct (readNames_labels (splitDomain d) fuel [] (concat (map wireDomain ds))) as (fuel' & Hf' & ->);
    [apply splitDomain_nonempty|lia|].
  rewrite IH by lia. done.
Qed.

(** The domains a list cannot say: too many, one too long, or too much together. *)
Definition sayable (ds : list (list Z)) : Prop :=
  (length ds <= MaxDomainSearchCount)%nat /\ Forall (fun d => (length d <= MaxDomainLen)%nat) ds /\
  (length (concat (map wireDomain ds)) <= MaxDHCPOptionLen)%nat.

Lemma encodeDomains_spec ds result :
  match encodeDomains result ds with
  | Some data =>
      data = result ++ concat (map wireDomain ds) /\ Forall (fun d => (length d <= MaxDomainLen)%nat) ds /\
      (ds <> [] -> length data <= MaxDHCPOptionLen)%nat
  | None =>
      ~ (Forall (fun d => (length d <= MaxDomainLen)%nat) ds /\
         (length result + length (concat (map wireDomain ds)) <= MaxDHCPOptionLen)%nat)
  end.
Proof.
  revert result. induction ds as [|d ds IH]; intros result; cbn [encodeDomains map concat].
  { by rewrite app_nil_r. }
  fold (wireDomain d). case_bool_decide as H1.
  { intros [Hf _]. inversion Hf. lia. }
  rewrite length_app. case_bool_decide as H2; [intros [_ H]; lia|].
  specialize (IH (result ++ wireDomain d)). destruct (encodeDomains _ ds) as [data|].
  - destruct IH as (-> & Hf & Hl). rewrite <- app_assoc. split_and!; [done|constructor; [lia|done]|]. intros _.
    destruct (decide (ds = [])) as [->|Hne]; [cbn; rewrite app_nil_r, length_app; lia|]. rewrite app_assoc. by apply Hl.
  - intros [Hf Hl]. apply IH. inversion Hf. rewrite length_app. split; [done|lia].
Qed.

(** A domain search list is either refused, exactly when it names too many
    domains, one is too long or they do not fit an option together, or its bytes
    fit an option and read back as the domains' labels, those over 63 bytes left
    out. *)
Theorem domain_search_roundtrip ds :
  match encodeDomainSearchList ds with
  | Some data =>
      sayable ds /\ (length data <= MaxDHCPOptionLen)%nat /\
      readNames (S (length data)) [] data = map wireLabels ds
  | None => ~ sayable ds
  end.
Proof.
  unfold encodeDomainSearchList, sayable. case_bool_decide as Hc; [intros (H & _); lia|].
  pose proof (encodeDomains_spec ds []) as H. destruct (encodeDomains [] ds) as [data|].
  - destruct H as (-> & Hf & Hl). cbn [app] in *.
    assert (length (concat (map wireDomain ds)) <= MaxDHCPOptionLen)%nat as Hlen.
    { destruct ds; [unfold MaxDHCPOptionLen; cbn; lia|by apply Hl]. }
    split_and!; try done; [lia|]. apply readNames_domains. lia.
  - intros (_ & Hf & Hl). by apply H.
Qed.
