(* ===== verification/Dhcpv6.v ===== *)
(** * The DHCPv6 server

    [protocols/dhcpv6.go]: messages and options on the wire, the lease table
    and every message type.  One packet is handled at a time, with one reading
    of the clock; whether a reply could be serialized and queued is the
    environment of the packet.  Durations are nanoseconds; the floats the code
    divides seconds with are exact for them and are cut down to a whole number.
    An address is the byte slice of [net.IP], a domain name its bytes. *)

From Stdlib Require Import Ascii.
From S2P Require Import Prelude.
From S2P Require Import Netip.
From S2P Require Import DeviceTypes.
From S2P Require Import Safeconv.
From S2P Require Import Bytes.
From S2P Require Import Dhcp.

Definition DHCPv6Solicit : Z := 1.
Definition DHCPv6Advertise : Z := 2.
Definition DHCPv6Request : Z := 3.
Definition DHCPv6Renew : Z := 5.
Definition DHCPv6Rebind : Z := 6.
Definition DHCPv6Reply : Z := 7.
Definition DHCPv6Release : Z := 8.
Definition DHCPv6Decline : Z := 9.
Definition DHCPv6InfoRequest : Z := 11.

Definition DHCPv6OptClientID : Z := 1.
Definition DHCPv6OptServerID : Z := 2.
Definition DHCPv6OptIANA : Z := 3.
Definition DHCPv6OptIAAddr : Z := 5.
Definition DHCPv6OptPreference : Z := 7.
Definition DHCPv6OptSIPServers : Z := 21.
Definition DHCPv6OptSIPServerAddrs : Z := 22.
Definition DHCPv6OptDNSServers : Z := 23.
Definition DHCPv6OptDomainList : Z := 24.
Definition DHCPv6OptSNTPServers : Z := 31.
Definition DHCPv6OptNTPServer : Z := 56.

Definition DUIDTypeLL : Z := 3.
Definition DefaultPreferredLifetime : Z := 7 * 24 * 3600 * 10 ^ 9.
Definition DefaultValidLifetime : Z := 30 * 24 * 3600 * 10 ^ 9.
Definition ipv6AddrSize : nat := 16.
Definition maxUint16Val : Z := 65535.
Definition ianaHeaderBase : nat := 12.
Definition iaAddrDataSize : Z := 24.
Definition optionHeaderSize : nat := 4.
Definition t1DivisorV6 : Z := 2.
Definition t2MultiplicandV6 : Z := 4.
Definition t2DivisorV6 : Z := 5.
Definition dhcpv6MinMsgSize : nat := 4.
Definition maxDUIDSize : Z := 130.
Definition macUnicastMask : Z := 0xfe.
Definition macLocalBitSet : Z := 0x02.

Record DHCPv6Option := mkOption6 { o6Code : Z; o6Length : Z; o6Data : list Z }.

Record DHCPv6Message := mkMessage6 { m6Type : Z; m6TransactionID : list Z; m6Options : list DHCPv6Option }.
#[export] Instance DHCPv6Message_rebuild : Rebuild DHCPv6Message := fun m =>
  mkMessage6 (m6Type m) (m6TransactionID m) (m6Options m).

(** No lease has a prefix: nothing delegates one. *)
Record DHCPv6Lease := mkLease6 {
  l6Address : IP; l6DUID : list Z; l6IAID : Z; l6Preferred : Time; l6Valid : Time; l6LastRenewal : Time
}.
#[export] Instance DHCPv6Lease_rebuild : Rebuild DHCPv6Lease := fun l =>
  mkLease6 (l6Address l) (l6DUID l) (l6IAID l) (l6Preferred l) (l6Valid l) (l6LastRenewal l).

Record DHCPv6Handler := mkHandler6 {
  h6Leases : gmap string DHCPv6Lease;
  h6AddressPool : list IP;
  h6PrefixPool : list (IP * list Z);
  h6ServerDUID : list Z;
  h6PreferredLifetime : Z;
  h6ValidLifetime : Z;
  h6DnsServers : list IP;
  h6DomainList : list (list Z);
  h6SntpServers : list IP;
  h6NtpServers : list IP;
  h6SipServers : list IP;
  h6SipDomains : list (list Z)
}.
#[export] Instance DHCPv6Handler_rebuild : Rebuild DHCPv6Handler := fun h =>
  mkHandler6 (h6Leases h) (h6AddressPool h) (h6PrefixPool h) (h6ServerDUID h) (h6PreferredLifetime h) (h6ValidLifetime h)
    (h6DnsServers h) (h6DomainList h) (h6SntpServers h) (h6NtpServers h) (h6SipServers h) (h6SipDomains h).

(** What the handler reads of a device. *)
Record serverDevice := mkServerDevice { sdIPAddresses : list IP; sdMACAddress : list Z; sdPreference : option Z }.

(** A frame as it is handed to the serializer; the UDP ports, the hop limit
    and the types are the same for all. *)
Record DHCPv6Frame := mkFrame6 { f6SrcMAC : list Z; f6DstMAC : list Z; f6SrcIP : IP; f6DstIP : IP; f6Payload : list Z }.

Inductive Action6 :=
| SendFrame6 (frame : DHCPv6Frame)
| Count6 (stat : string).

(** The clock, and which frames can be serialized and queued. *)
Record Env6 := mkEnv6 { e6Now : Time; e6Sent : DHCPv6Frame -> bool }.

(** ** Configuration *)

(** [mac] is read from the system's entropy. *)
Definition generateDUID (mac : list Z) : list Z :=
  big16 DUIDTypeLL ++ big16 1 ++
  match mac with b :: mac => Z.land (Z.lor b macLocalBitSet) macUnicastMask :: mac | [] => [] end.

Definition NewDHCPv6Handler (mac : list Z) : DHCPv6Handler :=
  mkHandler6 ∅ [] [] (generateDUID mac) DefaultPreferredLifetime DefaultValidLifetime [] [] [] [] [] [].

Definition Reset6 (mac : list Z) (h : DHCPv6Handler) : DHCPv6Handler :=
  mkHandler6 ∅ [] [] (generateDUID mac) DefaultPreferredLifetime DefaultValidLifetime [] [] [] [] [] [].

Definition SetAddressPool (addresses : list IP) (h : DHCPv6Handler) : DHCPv6Handler := h <| h6AddressPool := addresses |>.

Definition SetPrefixPool (prefixes : list (IP * list Z)) (h : DHCPv6Handler) : DHCPv6Handler := h <| h6PrefixPool := prefixes |>.

Definition SetServerConfig6 (dnsServers : list IP) (domainList : list (list Z)) (h : DHCPv6Handler) : DHCPv6Handler :=
  h <| h6DnsServers := dnsServers |> <| h6DomainList := domainList |>.

Definition SetAdvancedOptions6 (sntpServers ntpServers sipServers : list IP) (sipDomains : list (list Z)) (h : DHCPv6Handler)
    : DHCPv6Handler :=
  h <| h6SntpServers := sntpServers |> <| h6NtpServers := ntpServers |> <| h6SipServers := sipServers |>
    <| h6SipDomains := sipDomains |>.

(** ** Messages *)

Inductive parseErr6 := ErrMessageTooShort | ErrOptionDataExceedsLen | ErrDUIDTooLong.

(** The options of [data]; fewer than four bytes at the end are left over.
    Every round takes four bytes at least, so the length is fuel enough. *)
Fixpoint parseOptions (fuel : nat) (data : list Z) : list DHCPv6Option + parseErr6 :=
  match fuel with
  | O => inl []
  | S fuel =>
      if bool_decide (length data < 4)%nat then inl []
      else
        let code := bigUint16 data in
        let len := bigUint16 (drop 2 data) in
        let rest := drop 4 data in
        if Z.of_nat (length rest) <? len then inr ErrOptionDataExceedsLen
        else if ((code =? DHCPv6OptClientID) || (code =? DHCPv6OptServerID)) && (maxDUIDSize <? len) then inr ErrDUIDTooLong
        else
          match parseOptions fuel (drop (Z.to_nat len) rest) with
          | inl options => inl (mkOption6 code len (take (Z.to_nat len) rest) :: options)
          | inr err => inr err
          end
  end.

Definition parseDHCPv6Message (data : list Z) : DHCPv6Message + parseErr6 :=
  if bool_decide (length data < dhcpv6MinMsgSize)%nat then inr ErrMessageTooShort
  else
    match parseOptions (length data) (drop 4 data) with
    | inl options => inl (mkMessage6 (byteAt data 0) (take 3 (drop 1 data)) options)
    | inr err => inr err
    end.

Definition findOption (msg : DHCPv6Message) (code : Z) : option DHCPv6Option :=
  List.find (fun opt => o6Code opt =? code) (m6Options msg).

(** [copy(buf[at:], src)] *)
Definition copyAt (buf : list Z) (at_ : nat) (src : list Z) : list Z :=
  take at_ buf ++ take (length buf - at_) src ++ drop (at_ + length src) buf.

(** Into the buffer, at an offset; the data runs on behind its length. *)
Definition serializeOptionAt (buf : list Z) (offset : nat) (opt : DHCPv6Option) : list Z * nat :=
  let buf := copyAt buf offset (big16 (o6Code opt)) in
  let buf := copyAt buf (offset + 2) (big16 (o6Length opt)) in
  (copyAt buf (offset + 4) (o6Data opt), (offset + (optionHeaderSize + Z.to_nat (o6Length opt)))%nat).

(** The size is computed in 16 bits. *)
Definition serializeOption (opt : DHCPv6Option) : list Z :=
  (serializeOptionAt (replicate (Z.to_nat (uint16 (Z.of_nat optionHeaderSize + o6Length opt))) 0) 0 opt).1.

Definition messageSize (msg : DHCPv6Message) : nat :=
  foldl (fun size opt => (size + (optionHeaderSize + Z.to_nat (o6Length opt)))%nat) dhcpv6MinMsgSize (m6Options msg).

Definition serializeDHCPv6Message (msg : DHCPv6Message) : list Z :=
  let buf := replicate (messageSize msg) 0 in
  let buf := copyAt buf 0 [m6Type msg] in
  let buf := copyAt buf 1 (m6TransactionID msg) in
  (foldl (fun '(buf, offset) opt => serializeOptionAt buf offset opt) (buf, 4%nat) (m6Options msg)).1.

(** ** Clients *)

Definition extractClientDUID (msg : DHCPv6Message) : option (list Z) := o6Data <$> findOption msg DHCPv6OptClientID.

Definition extractIANA (msg : DHCPv6Message) : option Z :=
  match findOption msg DHCPv6OptIANA with
  | Some opt => if bool_decide (4 <= length (o6Data opt))%nat then Some (bigUint32 (o6Data opt)) else None
  | None => None
  end.

Definition duidString (duid : list Z) : string := String.string_of_list_ascii (flat_map hex2 duid).

Definition validateClientIdentity (msg : DHCPv6Message) : option (list Z * Z) :=
  clientDUID ← extractClientDUID msg;
  iaid ← extractIANA msg;
  Some (clientDUID, iaid).

(** ** Leases *)

Definition renewLeaseUnlocked (now : Time) (h : DHCPv6Handler) (lease : DHCPv6Lease) : DHCPv6Lease :=
  lease <| l6Preferred := now + h6PreferredLifetime h |> <| l6Valid := now + h6ValidLifetime h |> <| l6LastRenewal := now |>.

Definition addressInUse (now : Time) (h : DHCPv6Handler) (addr : IP) : bool :=
  existsb (fun '(_, lease) => ipEqual (l6Address lease) addr && (now <? l6Valid lease)) (map_to_list (h6Leases h)).

Definition findAvailableAddress (now : Time) (h : DHCPv6Handler) : option IP :=
  List.find (fun addr => negb (addressInUse now h addr)) (h6AddressPool h).

(** [None] is [ErrNoAvailableAddresses]. *)
Definition allocateLease6 (now : Time) (clientDUID : list Z) (iaid : Z) (h : DHCPv6Handler) : option DHCPv6Lease * DHCPv6Handler :=
  let duidKey := duidString clientDUID in
  let put lease := (Some lease, h <| h6Leases := <[duidKey := lease]> (h6Leases h) |>) in
  match h6Leases h !! duidKey with
  | Some existing => put (renewLeaseUnlocked now h existing)
  | None =>
      match findAvailableAddress now h with
      | None => (None, h)
      | Some address => put (mkLease6 address clientDUID iaid (now + h6PreferredLifetime h) (now + h6ValidLifetime h) now)
      end
  end.

Definition confirmLease (now : Time) (clientDUID : list Z) (iaid : Z) (h : DHCPv6Handler) : option DHCPv6Lease * DHCPv6Handler :=
  let duidKey := duidString clientDUID in
  match h6Leases h !! duidKey with
  | Some existing =>
      let existing := renewLeaseUnlocked now h existing in
      (Some existing, h <| h6Leases := <[duidKey := existing]> (h6Leases h) |>)
  | None => allocateLease6 now clientDUID iaid h
  end.

Definition findLease (clientDUID : list Z) (h : DHCPv6Handler) : option DHCPv6Lease := h6Leases h !! duidString clientDUID.

(** The lease is renewed where the table points to it. *)
Definition renewLease (now : Time) (clientDUID : list Z) (lease : DHCPv6Lease) (h : DHCPv6Handler) : DHCPv6Lease * DHCPv6Handler :=
  let lease := renewLeaseUnlocked now h lease in
  (lease, h <| h6Leases := <[duidString clientDUID := lease]> (h6Leases h) |>).

(** ** Replies *)

(** [net.IP.To16] *)
Definition To16 (ip : IP) : IP :=
  if bool_decide (length ip = 4%nat) then v4InV6Prefix ++ ip else if bool_decide (length ip = 16%nat) then ip else [].

Definition encodeIPv6List (ips : list IP) : list Z := flat_map To16 ips.

(** The labels up to [i], the last starting at [start]. *)
Fixpoint labelLoop (domain : list Z) (start i : nat) (rest : list Z) : list (list Z) :=
  match rest with
  | [] => if bool_decide (start < length domain)%nat then [drop start domain] else []
  | c :: rest =>
      if c =? 46 then
        (if bool_decide (start < i)%nat then [take (i - start) (drop start domain)] else []) ++ labelLoop domain (S i) (S i) rest
      else labelLoop domain start (S i) rest
  end.

Definition splitDomainLabels (domain : list Z) : list (list Z) := labelLoop domain 0 0 domain.

Definition encodeDomainList (domains : list (list Z)) : list Z :=
  flat_map (fun domain => flat_map (fun label => Byte (Z.of_nat (length label)) :: label) (splitDomainLabels domain) ++ [0]) domains.

(** An option whose length is clamped to 16 bits. *)
Definition option6 (code : Z) (data : list Z) : DHCPv6Option :=
  mkOption6 code (Uint16 (Z.min (Z.of_nat (length data)) maxUint16Val)) data.

Definition appendDNSOptions (h : DHCPv6Handler) (response : DHCPv6Message) : DHCPv6Message :=
  let response := match h6DnsServers h with
    | [] => response
    | servers => response <| m6Options := m6Options response ++ [option6 DHCPv6OptDNSServers (encodeIPv6List servers)] |>
    end in
  match h6DomainList h with
  | [] => response
  | domains => response <| m6Options := m6Options response ++ [option6 DHCPv6OptDomainList (encodeDomainList domains)] |>
  end.

Definition appendTimeServerOptions (h : DHCPv6Handler) (response : DHCPv6Message) : DHCPv6Message :=
  let response := match h6SntpServers h with
    | [] => response
    | servers => response <| m6Options := m6Options response ++ [option6 DHCPv6OptSNTPServers (encodeIPv6List servers)] |>
    end in
  match h6NtpServers h with
  | [] => response
  | servers => response <| m6Options := m6Options response ++ [option6 DHCPv6OptNTPServer (encodeIPv6List servers)] |>
  end.

Definition appendSIPOptions (h : DHCPv6Handler) (response : DHCPv6Message) : DHCPv6Message :=
  let response := match h6SipServers h with
    | [] => response
    | servers => response <| m6Options := m6Options response ++ [option6 DHCPv6OptSIPServerAddrs (encodeIPv6List servers)] |>
    end in
  match h6SipDomains h with
  | [] => response
  | domains => response <| m6Options := m6Options response ++ [option6 DHCPv6OptSIPServers (encodeDomainList domains)] |>
  end.

Definition appendPreferenceOption (device : option serverDevice) (response : DHCPv6Message) : DHCPv6Message :=
  let preference := default 0 (device ≫= sdPreference) in
  response <| m6Options := m6Options response ++ [mkOption6 DHCPv6OptPreference 1 [preference]] |>.

(** The whole seconds left until a time, none when it has passed. *)
Definition secondsUntil (now till : Time) : Z := if till <? now then 0 else uint32 ((till - now) / 10 ^ 9).

Definition buildIAAddrOption (now : Time) (lease : DHCPv6Lease) : DHCPv6Option :=
  let data := replicate (Z.to_nat iaAddrDataSize) 0 in
  let data := copyAt (take 16 data) 0 (To16 (l6Address lease)) ++ drop 16 data in
  let data := copyAt data 16 (big32 (secondsUntil now (l6Preferred lease))) in
  let data := copyAt data 20 (big32 (secondsUntil now (l6Valid lease))) in
  mkOption6 DHCPv6OptIAAddr iaAddrDataSize data.

Definition buildIANAOption (now : Time) (h : DHCPv6Handler) (lease : DHCPv6Lease) : DHCPv6Option :=
  let iaAddrBytes := serializeOption (buildIAAddrOption now lease) in
  let header := replicate (ianaHeaderBase + length iaAddrBytes) 0 in
  let t1 := uint32 (h6PreferredLifetime h / (10 ^ 9 * t1DivisorV6)) in
  let t2 := uint32 (h6PreferredLifetime h * t2MultiplicandV6 / (10 ^ 9 * t2DivisorV6)) in
  let header := copyAt header 0 (big32 (l6IAID lease)) in
  let header := copyAt header 4 (big32 t1) in
  let header := copyAt header 8 (big32 t2) in
  let header := copyAt header 12 iaAddrBytes in
  option6 DHCPv6OptIANA header.

Definition buildDHCPv6Response (now : Time) (h : DHCPv6Handler) (msgType : Z) (clientMsg : DHCPv6Message)
    (lease : option DHCPv6Lease) (device : option serverDevice) (infoOnly : bool) : DHCPv6Message :=
  let response := mkMessage6 msgType (m6TransactionID clientMsg) [option6 DHCPv6OptServerID (h6ServerDUID h)] in
  let response := match findOption clientMsg DHCPv6OptClientID with
    | Some clientID => response <| m6Options := m6Options response ++ [clientID] |>
    | None => response
    end in
  let response := match lease with
    | Some lease => if infoOnly then response
                    else response <| m6Options := m6Options response ++ [buildIANAOption now h lease] |>
    | None => response
    end in
  appendPreferenceOption device (appendSIPOptions h (appendTimeServerOptions h (appendDNSOptions h response))).

Definition AllDHCPRelayAgentsAndServers : IP := [0xff; 0x02; 0; 0; 0; 0; 0; 0; 0; 0; 0; 0; 0; 1; 0; 2].

Definition IPv6MulticastToMAC (ipv6 : IP) : list Z :=
  if bool_decide (length ipv6 = ipv6AddrSize) then [0x33; 0x33] ++ drop 12 ipv6 else [].

(** [net.IP.IsLinkLocalUnicast] *)
Definition ipLinkLocalUnicast (ip : IP) : bool :=
  match To4 ip with
  | [] => bool_decide (length ip = 16%nat) && (byteAt ip 0 =? 0xfe) && (Z.land (byteAt ip 1) 0xc0 =? 0x80)
  | ip4 => (byteAt ip4 0 =? 169) && (byteAt ip4 1 =? 254)
  end.

(** The frame, and whether it was sent. *)
Definition sendDHCPv6Response (env : Env6) (h : DHCPv6Handler) (msgType : Z) (clientMsg : DHCPv6Message)
    (lease : option DHCPv6Lease) (clientIP serverIP : IP) (serverMAC : list Z) (device : option serverDevice) (infoOnly : bool)
    : list Action6 * bool :=
  let response := buildDHCPv6Response (e6Now env) h msgType clientMsg lease device infoOnly in
  let dstMAC := [0x33; 0x33; 0; 1; 0; 2] in
  let dstMAC :=
    if ipLinkLocalUnicast clientIP && bool_decide (To4 clientIP = []) && bool_decide (length clientIP = 16%nat)
    then IPv6MulticastToMAC AllDHCPRelayAgentsAndServers else dstMAC in
  let frame := mkFrame6 serverMAC dstMAC serverIP clientIP (serializeDHCPv6Message response) in
  if e6Sent env frame then ([SendFrame6 frame], true) else ([], false).

(** ** Handlers *)

Definition handleLeaseMessage (env : Env6) (msg : DHCPv6Message) (msgType : Z) (stat : string)
    (leaseFn : list Z -> Z -> DHCPv6Handler -> option DHCPv6Lease * DHCPv6Handler)
    (clientIP serverIP : IP) (device : serverDevice) (h : DHCPv6Handler) : list Action6 * DHCPv6Handler :=
  match validateClientIdentity msg with
  | None => ([], h)
  | Some (clientDUID, iaid) =>
      match leaseFn clientDUID iaid h with
      | (None, h) => ([], h)
      | (Some lease, h) =>
          let '(frames, ok) :=
            sendDHCPv6Response env h msgType msg (Some lease) clientIP serverIP (sdMACAddress device) (Some device) false in
          (frames ++ (if ok then [Count6 stat] else []), h)
      end
  end.

Definition handleSolicit env msg clientIP serverIP device h :=
  handleLeaseMessage env msg DHCPv6Advertise "dhcp_offers" (allocateLease6 (e6Now env)) clientIP serverIP device h.

Definition handleRequest env msg clientIP serverIP device h :=
  handleLeaseMessage env msg DHCPv6Reply "dhcp_acks" (confirmLease (e6Now env)) clientIP serverIP device h.

Definition handleRenew (env : Env6) (msg : DHCPv6Message) (clientIP serverIP : IP) (device : serverDevice) (h : DHCPv6Handler)
    : list Action6 * DHCPv6Handler :=
  match extractClientDUID msg with
  | None => ([], h)
  | Some clientDUID =>
      match findLease clientDUID h with
      | None => ([], h)
      | Some lease =>
          let '(lease, h) := renewLease (e6Now env) clientDUID lease h in
          ((sendDHCPv6Response env h DHCPv6Reply msg (Some lease) clientIP serverIP (sdMACAddress device) (Some device) false).1, h)
      end
  end.

Definition handleRebind env msg clientIP serverIP device h := handleRenew env msg clientIP serverIP device h.

Definition handleRelease (msg : DHCPv6Message) (h : DHCPv6Handler) : DHCPv6Handler :=
  match extractClientDUID msg with
  | None => h
  | Some clientDUID => h <| h6Leases := delete (duidString clientDUID) (h6Leases h) |>
  end.

Definition handleDecline (msg : DHCPv6Message) (h : DHCPv6Handler) : DHCPv6Handler :=
  match extractClientDUID msg with
  | None => h
  | Some clientDUID => h <| h6Leases := delete (duidString clientDUID) (h6Leases h) |>
  end.

Definition handleInfoRequest (env : Env6) (msg : DHCPv6Message) (clientIP serverIP : IP) (serverMAC : list Z) (h : DHCPv6Handler)
    : list Action6 :=
  (sendDHCPv6Response env h DHCPv6Reply msg None clientIP serverIP serverMAC None true).1.

Definition dispatchDHCPv6Message (env : Env6) (msg : DHCPv6Message) (srcIP serverIP : IP) (device : serverDevice) (h : DHCPv6Handler)
    : list Action6 * DHCPv6Handler :=
  let type := m6Type msg in
  if type =? DHCPv6Solicit then handleSolicit env msg srcIP serverIP device h
  else if type =? DHCPv6Request then handleRequest env msg srcIP serverIP device h
  else if type =? DHCPv6Renew then handleRenew env msg srcIP serverIP device h
  else if type =? DHCPv6Rebind then handleRebind env msg srcIP serverIP device h
  else if type =? DHCPv6Release then ([], handleRelease msg h)
  else if type =? DHCPv6Decline then ([], handleDecline msg h)
  else if type =? DHCPv6InfoRequest then (handleInfoRequest env msg srcIP serverIP (sdMACAddress device) h, h)
  else ([], h).

Definition isIPv6 (ip : IP) : bool := bool_decide (To4 ip = []) && negb (bool_decide (To16 ip = [])).

Definition hasIPv6Address (ips : list IP) : bool := existsb isIPv6 ips.

Definition getFirstIPv6Address (ips : list IP) : IP := default [] (List.find isIPv6 ips).

Definition findIPv6ServerDevice (devices : list serverDevice) : option serverDevice :=
  List.find (fun dev => hasIPv6Address (sdIPAddresses dev)) devices.

(** The datagram of a client, and the devices its VLAN has. *)
Definition HandlePacket6 (env : Env6) (payload : list Z) (srcIP : IP) (devices : list serverDevice) (h : DHCPv6Handler)
    : list Action6 * DHCPv6Handler :=
  let '(answers, h) :=
    match parseDHCPv6Message payload with
    | inr _ => ([], h)
    | inl msg =>
        match findIPv6ServerDevice devices with
        | None => ([], h)
        | Some device => dispatchDHCPv6Message env msg srcIP (getFirstIPv6Address (sdIPAddresses device)) device h
        end
    end in
  (Count6 "dhcp_requests" :: answers, h).
