(* ===== verification/Dhcpv6Theorems.v ===== *)
(** * The DHCPv6 server: what is on the wire and who holds an address

    Every reply can be read back and says what the server decided
    ([replies_readable]); leases are exclusive ([leases6_exclusive]); a handler
    that is not configured never leases anything ([unconfigured_silent]). *)

From S2P Require Import Prelude.
From S2P Require Import Netip.
From S2P Require Import DeviceTypes.
From S2P Require Import Safeconv.
From S2P Require Import Bytes.
From S2P Require Import Dhcp.
From S2P Require Import DhcpTheorems.
From S2P Require Import Dhcpv6.

(** ** Buffers *)

Lemma copy_here p r s : copyAt (p ++ r) (length p) s = p ++ take (length r) s ++ drop (length s) r.
Proof.
  unfold copyAt. rewrite take_app_length, length_app, <- drop_drop, drop_app_length. do 3 f_equal. lia.
Qed.

Lemma copy_within p r s : (length s <= length r)%nat -> copyAt (p ++ r) (length p) s = (p ++ s) ++ drop (length s) r.
Proof. intros H. rewrite copy_here, take_ge by done. by rewrite app_assoc. Qed.

(** The octets of an option: its data up to its length. *)
Definition wireOption (opt : DHCPv6Option) : list Z :=
  big16 (o6Code opt) ++ big16 (o6Length opt) ++ take (Z.to_nat (o6Length opt)) (o6Data opt).

Definition framedOption (opt : DHCPv6Option) : Prop :=
  0 <= o6Code opt < 2 ^ 16 /\ 0 <= o6Length opt < 2 ^ 16 /\ (Z.to_nat (o6Length opt) <= length (o6Data opt))%nat.

Lemma wire_length opt : framedOption opt -> length (wireOption opt) = (optionHeaderSize + Z.to_nat (o6Length opt))%nat.
Proof. intros (_ & _ & H). unfold wireOption, big16, optionHeaderSize. rewrite !length_app, length_take. cbn [length]. lia. Qed.

(** An option is written whole, and what its data spills behind it is room of
    the options that follow. *)
Lemma option_written p r opt :
  framedOption opt -> (optionHeaderSize + Z.to_nat (o6Length opt) <= length r)%nat ->
  exists r', serializeOptionAt (p ++ r) (length p) opt = ((p ++ wireOption opt) ++ r', (length (p ++ wireOption opt))) /\
    length r = (length (wireOption opt) + length r')%nat.
Proof.
  intros Hf Hr. pose proof (wire_length opt Hf) as Hw. destruct Hf as (_ & _ & Hd). unfold optionHeaderSize in *.
  set (n := Z.to_nat (o6Length opt)) in *.
  exists (drop n (take (length r - 4) (o6Data opt)) ++ drop (length (o6Data opt)) (drop 4 r)). split.
  - unfold serializeOptionAt. fold n. rewrite copy_within by (unfold big16; simpl; lia).
    assert (length p + 2 = length (p ++ big16 (o6Code opt)))%nat as -> by (rewrite length_app; done).
    rewrite copy_within by (rewrite length_drop; unfold big16; simpl; lia).
    change (length (big16 _)) with 2%nat. rewrite drop_drop. change (2 + 2)%nat with 4%nat.
    assert (length p + 4 = length ((p ++ big16 (o6Code opt)) ++ big16 (o6Length opt)))%nat as -> by (rewrite !length_app; simpl; lia).
    rewrite copy_here, length_drop. f_equal; [|rewrite length_app, Hw; unfold optionHeaderSize; done].
    unfold wireOption. fold n. rewrite <- !app_assoc. do 3 f_equal. rewrite app_assoc. f_equal.
    rewrite <- (take_drop n (take (length r - 4) (o6Data opt))) at 1. f_equal. rewrite take_take. f_equal. lia.
  - rewrite Hw, length_app, !length_drop, length_take. lia.
Qed.

Definition wireOptions (opts : list DHCPv6Option) : list Z := flat_map wireOption opts.

Lemma wireOptions_cons opt opts : wireOptions (opt :: opts) = wireOption opt ++ wireOptions opts.
Proof. done. Qed.

Lemma options_written opts p r :
  Forall framedOption opts -> length r = length (wireOptions opts) ->
  (foldl (fun '(buf, offset) opt => serializeOptionAt buf offset opt) (p ++ r, length p) opts).1 = p ++ wireOptions opts.
Proof.
  revert p r. induction opts as [|opt opts IH]; intros p r Hf Hr; cbn [foldl].
  - destruct r; [done|discriminate].
  - apply Forall_cons in Hf as [Ho Hf]. rewrite wireOptions_cons in *. rewrite length_app in Hr. pose proof (wire_length opt Ho) as Hw.
    destruct (option_written p r opt Ho ltac:(lia)) as (r' & E & Hl). rewrite E.
    rewrite IH by (done || lia). by rewrite app_assoc.
Qed.

Lemma size_written opts n :
  Forall framedOption opts ->
  foldl (fun size opt => (size + (optionHeaderSize + Z.to_nat (o6Length opt)))%nat) n opts = (n + length (wireOptions opts))%nat.
Proof.
  intros H. revert n. induction H as [|opt opts Ho H IH]; intros n; cbn [foldl]; [simpl; lia|].
  rewrite IH, wireOptions_cons, length_app, (wire_length opt Ho). lia.
Qed.

(** The buffer that is filled step by step is the plain concatenation. *)
Lemma message_written msg :
  Forall framedOption (m6Options msg) -> length (m6TransactionID msg) = 3%nat ->
  serializeDHCPv6Message msg = m6Type msg :: m6TransactionID msg ++ wireOptions (m6Options msg).
Proof.
  intros Hf Ht. unfold serializeDHCPv6Message, messageSize. rewrite size_written by done.
  set (n := length (wireOptions (m6Options msg))). rewrite replicate_add. cbn [replicate dhcpv6MinMsgSize].
  change (copyAt ([0; 0; 0; 0] ++ replicate n 0) 0 [m6Type msg]) with ([m6Type msg] ++ [0; 0; 0] ++ replicate n 0).
  rewrite (copy_within [m6Type msg]) by (rewrite length_app, Ht; simpl; lia). rewrite Ht.
  change (drop 3 ([0; 0; 0] ++ ?x)) with x.
  assert (4 = length ([m6Type msg] ++ m6TransactionID msg))%nat as E by (rewrite length_app, Ht; done).
  rewrite E at 1. rewrite options_written; [by rewrite <- app_assoc|done|]. by rewrite length_replicate.
Qed.

(** ** Reading back *)

Definition trimmed (opt : DHCPv6Option) : DHCPv6Option :=
  mkOption6 (o6Code opt) (o6Length opt) (take (Z.to_nat (o6Length opt)) (o6Data opt)).

(** The identifiers are within what a client and the server accept. *)
Definition shortDUID (opt : DHCPv6Option) : Prop :=
  o6Code opt = DHCPv6OptClientID \/ o6Code opt = DHCPv6OptServerID -> o6Length opt <= maxDUIDSize.

Lemma options_read opts fuel :
  Forall framedOption opts -> Forall shortDUID opts -> (length (wireOptions opts) <= fuel)%nat ->
  parseOptions fuel (wireOptions opts) = inl (trimmed <$> opts).
Proof.
  intros Hf Hs. revert fuel. induction opts as [|opt opts IH]; intros fuel Hl; [by destruct fuel|].
  apply Forall_cons in Hf as [Ho Hf], Hs as [Hd Hs]. rewrite wireOptions_cons in *. rewrite length_app in Hl. pose proof (wire_length opt Ho) as Hw.
  unfold optionHeaderSize in Hw. destruct fuel as [|fuel]; [lia|]. destruct Ho as (Hc & Hn & Hlen).
  cbn [parseOptions]. rewrite bool_decide_eq_false_2 by (rewrite length_app; lia).
  assert (bigUint16 (wireOption opt ++ wireOptions opts) = o6Code opt) as ->.
  { unfold wireOption. rewrite <- !app_assoc. by apply bigUint16_big16. }
  assert (drop 2 (wireOption opt ++ wireOptions opts) =
    big16 (o6Length opt) ++ take (Z.to_nat (o6Length opt)) (o6Data opt) ++ wireOptions opts) as ->
    by (unfold wireOption; rewrite <- !app_assoc; done).
  rewrite bigUint16_big16 by done.
  assert (drop 4 (wireOption opt ++ wireOptions opts) = take (Z.to_nat (o6Length opt)) (o6Data opt) ++ wireOptions opts) as ->
    by (unfold wireOption; rewrite <- !app_assoc; done).
  set (data := take (Z.to_nat (o6Length opt)) (o6Data opt)).
  assert (length data = Z.to_nat (o6Length opt)) as Hdl by (unfold data; rewrite length_take; lia).
  destruct (Z.ltb_spec (Z.of_nat (length (data ++ wireOptions opts))) (o6Length opt)) as [Hx|_]; [rewrite length_app in Hx; lia|].
  destruct (_ && _) eqn:Ed.
  - apply andb_true_iff in Ed as [Ec Hx%Z.ltb_lt]. apply orb_true_iff in Ec as [Ec%Z.eqb_eq|Ec%Z.eqb_eq].
    + specialize (Hd (or_introl Ec)). lia.
    + specialize (Hd (or_intror Ec)). lia.
  - rewrite drop_app_length', take_app_length' by done. by rewrite IH by (done || lia).
Qed.

Lemma message_read msg :
  Forall framedOption (m6Options msg) -> Forall shortDUID (m6Options msg) -> length (m6TransactionID msg) = 3%nat ->
  parseDHCPv6Message (serializeDHCPv6Message msg) = inl (msg <| m6Options := trimmed <$> m6Options msg |>).
Proof.
  intros Hf Hs Ht. rewrite message_written by done. unfold parseDHCPv6Message.
  destruct (m6TransactionID msg) as [|a [|b [|c [|]]]] eqn:E; try discriminate Ht.
  set (tail := wireOptions (m6Options msg)). rewrite bool_decide_eq_false_2 by (unfold dhcpv6MinMsgSize; cbn [length app]; lia).
  change (drop 4 (m6Type msg :: [a; b; c] ++ tail)) with tail.
  rewrite (options_read (m6Options msg)); [|exact Hf|exact Hs|unfold tail; cbn [length app]; lia].
  destruct msg as [ty id options]. simpl in *. by rewrite E.
Qed.

(** An option whose length is that of its data. *)
Definition exactOption (opt : DHCPv6Option) : Prop := framedOption opt /\ o6Length opt = Z.of_nat (length (o6Data opt)).

Lemma trimmed_exact opt : exactOption opt -> trimmed opt = opt.
Proof. intros [_ E]. destruct opt as [c n d]. unfold trimmed. simpl in *. by rewrite E, Nat2Z.id, take_ge. Qed.

Lemma trimmed_all opts : Forall exactOption opts -> trimmed <$> opts = opts.
Proof. induction 1 as [|opt opts H _ IH]; [done|]. rewrite fmap_cons, IH. by rewrite trimmed_exact. Qed.

Lemma isByte_drop b n : Forall isByte b -> Forall isByte (drop n b).
Proof. apply Forall_drop. Qed.

Lemma parsed_exact fuel data opts :
  Forall isByte data -> parseOptions fuel data = inl opts -> Forall (fun opt => exactOption opt /\ shortDUID opt) opts.
Proof.
  revert data opts. induction fuel as [|fuel IH]; intros data opts Hb; cbn [parseOptions]; [by intros [= <-]|].
  destruct (bool_decide _) eqn:El; [by intros [= <-]|].
  pose proof (bigUint16_range data Hb) as Hc. pose proof (bigUint16_range (drop 2 data) (isByte_drop _ 2 Hb)) as Hn.
  set (len := bigUint16 (drop 2 data)) in *. destruct (Z.ltb_spec (Z.of_nat (length (drop 4 data))) len) as [|Hlen]; [done|].
  destruct (_ && _) eqn:Ed; [done|]. destruct (parseOptions fuel _) as [rest|] eqn:Er; [|done]. intros [= <-].
  constructor.
  - split; [split; [split_and!; simpl; try lia|]|].
    + rewrite length_take. lia.
    + simpl. rewrite length_take. lia.
    + intros Hcode. simpl in *. apply andb_false_iff in Ed as [Ed|Ed%Z.ltb_ge]; [|done].
      apply orb_false_iff in Ed as [E1%Z.eqb_neq E2%Z.eqb_neq]. by destruct Hcode.
  - eapply IH; [|exact Er]. apply isByte_drop. by apply isByte_drop.
Qed.

Lemma request_options payload request :
  Forall isByte payload -> parseDHCPv6Message payload = inl request ->
  length (m6TransactionID request) = 3%nat /\ Forall (fun opt => exactOption opt /\ shortDUID opt) (m6Options request).
Proof.
  intros Hb. unfold parseDHCPv6Message. destruct (bool_decide _) eqn:El; [done|]. apply bool_decide_eq_false in El.
  unfold dhcpv6MinMsgSize in El. destruct (parseOptions _ _) as [opts|] eqn:Eo; [|done]. intros [= <-]. simpl. split.
  - rewrite length_take, length_drop. lia.
  - eapply parsed_exact; [|exact Eo]. by apply isByte_drop.
Qed.

(** ** What a reply says *)

Lemma option6_exact code data :
  0 <= code < 2 ^ 16 -> Z.of_nat (length data) <= maxUint16Val -> exactOption (option6 code data).
Proof.
  intros Hc Hl. unfold option6, maxUint16Val in *. rewrite Z.min_l by lia.
  rewrite Uint16_id by (unfold MaxUint16; lia). split; [|done]. split_and!; simpl; lia.
Qed.

Lemma option6_framed code data : 0 <= code < 2 ^ 16 -> framedOption (option6 code data).
Proof.
  intros Hc. unfold option6, maxUint16Val, framedOption. simpl. set (n := Z.min _ _).
  assert (0 <= n <= 65535 /\ n <= Z.of_nat (length data)) as [Hn Hl] by (unfold n; lia). clearbody n.
  rewrite Uint16_id by (unfold MaxUint16; lia). lia.
Qed.

(** The options a reply has beside the identifiers and the lease. *)
Definition configured (h : DHCPv6Handler) (device : option serverDevice) : list DHCPv6Option :=
  m6Options (appendPreferenceOption device (appendSIPOptions h (appendTimeServerOptions h (appendDNSOptions h (mkMessage6 0 [] []))))).

Definition otherCode (opt : DHCPv6Option) : Prop :=
  o6Code opt <> DHCPv6OptClientID /\ o6Code opt <> DHCPv6OptServerID /\ o6Code opt <> DHCPv6OptIANA.

Lemma configured_other h device : Forall (fun opt => framedOption opt /\ otherCode opt) (configured h device).
Proof.
  assert (forall code data, 3 < code < 2 ^ 16 -> framedOption (option6 code data) /\ otherCode (option6 code data)) as Ho.
  { intros code data Hc. split; [apply option6_framed; lia|].
    unfold otherCode, DHCPv6OptClientID, DHCPv6OptServerID, DHCPv6OptIANA. simpl. lia. }
  unfold configured, appendPreferenceOption, appendSIPOptions, appendTimeServerOptions, appendDNSOptions. simpl.
  apply Forall_app_2; [|apply Forall_singleton; split; [by split_and!|done]].
  repeat case_match; simpl; repeat first [apply Forall_cons; split; [by apply Ho|]|constructor].
Qed.

Definition leaseOption (now : Time) (h : DHCPv6Handler) (lease : option DHCPv6Lease) : list DHCPv6Option :=
  from_option (fun lease => [buildIANAOption now h lease]) [] lease.

Definition clientOption (msg : DHCPv6Message) : list DHCPv6Option :=
  from_option (fun opt => [opt]) [] (findOption msg DHCPv6OptClientID).

Definition noMessage : DHCPv6Message := mkMessage6 0 [] [].

(** What appends options does not look at those before it. *)
Definition appends (f : DHCPv6Message -> DHCPv6Message) : Prop :=
  forall r, f r = mkMessage6 (m6Type r) (m6TransactionID r) (m6Options r ++ m6Options (f noMessage)).

Lemma appends_compose f g : appends f -> appends g -> appends (fun r => f (g r)).
Proof. intros Hf Hg r. rewrite (Hf (g r)), (Hf (g noMessage)), (Hg r). simpl. by rewrite app_assoc. Qed.

Lemma appends_dns h : appends (appendDNSOptions h).
Proof. intros [ty id opts]. unfold appendDNSOptions. destruct (h6DnsServers h), (h6DomainList h); simpl; by rewrite <- ?app_assoc, ?app_nil_r. Qed.

Lemma appends_time h : appends (appendTimeServerOptions h).
Proof. intros [ty id opts]. unfold appendTimeServerOptions. destruct (h6SntpServers h), (h6NtpServers h); simpl; by rewrite <- ?app_assoc, ?app_nil_r. Qed.

Lemma appends_sip h : appends (appendSIPOptions h).
Proof. intros [ty id opts]. unfold appendSIPOptions. destruct (h6SipServers h), (h6SipDomains h); simpl; by rewrite <- ?app_assoc, ?app_nil_r. Qed.

Lemma appends_preference device : appends (appendPreferenceOption device).
Proof. by intros [ty id opts]. Qed.

Lemma appends_configured h device r :
  appendPreferenceOption device (appendSIPOptions h (appendTimeServerOptions h (appendDNSOptions h r))) =
  mkMessage6 (m6Type r) (m6TransactionID r) (m6Options r ++ configured h device).
Proof.
  apply (appends_compose (appendPreferenceOption device) _ (appends_preference device)
    (appends_compose (appendSIPOptions h) _ (appends_sip h)
      (appends_compose (appendTimeServerOptions h) _ (appends_time h) (appends_dns h)))).
Qed.

Lemma response_options now h msgType msg lease device infoOnly :
  buildDHCPv6Response now h msgType msg lease device infoOnly =
  mkMessage6 msgType (m6TransactionID msg)
    (option6 DHCPv6OptServerID (h6ServerDUID h) :: clientOption msg ++
     leaseOption now h (if infoOnly then None else lease) ++ configured h device).
Proof.
  unfold buildDHCPv6Response. rewrite appends_configured. unfold clientOption, leaseOption.
  destruct (findOption msg DHCPv6OptClientID), lease, infoOnly; simpl; by rewrite <- ?app_assoc.
Qed.

(** ** The identity association *)

Lemma To16_length ip : To16 ip <> [] -> length (To16 ip) = 16%nat.
Proof. unfold To16. repeat case_bool_decide; [intros _; rewrite length_app; simpl; lia|done|done]. Qed.

(** The address option of a lease: the address and the two lifetimes. *)
Definition addressOption (now : Time) (lease : DHCPv6Lease) : DHCPv6Option :=
  mkOption6 DHCPv6OptIAAddr iaAddrDataSize
    (To16 (l6Address lease) ++ big32 (secondsUntil now (l6Preferred lease)) ++ big32 (secondsUntil now (l6Valid lease))).

Lemma copy_replace p z s r : length s = length z -> copyAt (p ++ z ++ r) (length p) s = (p ++ s) ++ r.
Proof. intros H. rewrite copy_within by (rewrite length_app; lia). by rewrite drop_app_length'. Qed.

Lemma copy_exact p s r : length s = length r -> copyAt (p ++ r) (length p) s = p ++ s.
Proof. intros H. rewrite copy_here, take_ge, drop_ge, app_nil_r by lia. done. Qed.

Lemma address_built now lease : To16 (l6Address lease) <> [] -> buildIAAddrOption now lease = addressOption now lease.
Proof.
  intros Ha. apply To16_length in Ha. unfold buildIAAddrOption, addressOption. f_equal.
  change (replicate (Z.to_nat iaAddrDataSize) 0) with (replicate 16 0 ++ replicate 8 0).
  rewrite take_app_length', drop_app_length' by done.
  assert (copyAt (replicate 16 0) 0 (To16 (l6Address lease)) = To16 (l6Address lease)) as ->
    by (apply (copy_exact [] (To16 (l6Address lease))); by rewrite Ha).
  change (replicate 8 0) with (replicate 4 0 ++ replicate 4 0). rewrite <- Ha at 1.
  rewrite (copy_replace (To16 (l6Address lease)) (replicate 4 0) (big32 (secondsUntil now (l6Preferred lease)))) by done.
  assert (20 = length (To16 (l6Address lease) ++ big32 (secondsUntil now (l6Preferred lease))))%nat as ->
    by (rewrite length_app, Ha; done).
  rewrite copy_exact by done. by rewrite <- app_assoc.
Qed.

(** The header of an identity association: its identifier and the times. *)
Definition associationHeader (h : DHCPv6Handler) (lease : DHCPv6Lease) : list Z :=
  big32 (l6IAID lease) ++ big32 (uint32 (h6PreferredLifetime h / (10 ^ 9 * t1DivisorV6))) ++
  big32 (uint32 (h6PreferredLifetime h * t2MultiplicandV6 / (10 ^ 9 * t2DivisorV6))).

Lemma address_framed now lease : To16 (l6Address lease) <> [] -> exactOption (addressOption now lease).
Proof.
  intros Ha%To16_length. assert (length (o6Data (addressOption now lease)) = 24%nat) as E
    by (simpl; rewrite !length_app, Ha; done).
  split; [|by rewrite E]. unfold framedOption. rewrite E. unfold addressOption, iaAddrDataSize, DHCPv6OptIAAddr. simpl. lia.
Qed.

Lemma association_built now h lease :
  To16 (l6Address lease) <> [] ->
  buildIANAOption now h lease = option6 DHCPv6OptIANA (associationHeader h lease ++ wireOption (addressOption now lease)).
Proof.
  intros Ha. unfold buildIANAOption. rewrite (address_built now lease Ha). pose proof (address_framed now lease Ha) as [Hf _].
  set (opt := addressOption now lease) in *. pose proof (wire_length opt Hf) as Hw.
  change (optionHeaderSize + Z.to_nat (o6Length opt))%nat with 28%nat in Hw.
  assert (serializeOption opt = wireOption opt) as ->.
  { unfold serializeOption. change (replicate _ 0) with ([] ++ replicate 28 0).
    destruct (option_written [] (replicate 28 0) opt Hf) as (r' & E & Hl); [done|]. change (length []) with 0%nat in E.
    rewrite E. cbn [fst app]. rewrite length_replicate, Hw in Hl. destruct r'; [by rewrite app_nil_r|simpl in Hl; lia]. }
  f_equal. rewrite replicate_add. unfold associationHeader. set (t1 := uint32 (_ / _)). set (t2 := uint32 (_ * _ / _)).
  set (wire := wireOption opt) in *. set (rest := replicate (length wire) 0).
  assert (length wire = length rest) as Hlr by (unfold rest; by rewrite length_replicate). clearbody wire rest t1 t2.
  set (z := replicate 4 0). change (replicate ianaHeaderBase 0) with (z ++ z ++ z). rewrite <- !app_assoc.
  set (iaid := big32 (l6IAID lease)). set (b1 := big32 t1). set (b2 := big32 t2).
  rewrite (copy_replace [] z iaid (z ++ z ++ rest) eq_refl : copyAt (z ++ z ++ z ++ rest) 0 iaid = iaid ++ z ++ z ++ rest).
  rewrite (copy_replace iaid z b1 (z ++ rest) eq_refl : copyAt (iaid ++ z ++ z ++ rest) 4 b1 = (iaid ++ b1) ++ z ++ rest).
  rewrite (copy_replace (iaid ++ b1) z b2 rest eq_refl : copyAt ((iaid ++ b1) ++ z ++ rest) 8 b2 = ((iaid ++ b1) ++ b2) ++ rest).
  rewrite (copy_exact ((iaid ++ b1) ++ b2) wire rest Hlr : copyAt (((iaid ++ b1) ++ b2) ++ rest) 12 wire = ((iaid ++ b1) ++ b2) ++ wire).
  by rewrite <- !app_assoc.
Qed.

(** ** Replies *)

Lemma find_skip (f : DHCPv6Option -> bool) l1 l2 : Forall (fun opt => f opt = false) l1 -> List.find f (l1 ++ l2) = List.find f l2.
Proof. induction 1 as [|opt l1 H _ IH]; simpl; [done|]. by rewrite H. Qed.

(** A handler whose identifier fits and whose addresses are addresses. *)
Definition usable6 (lease : DHCPv6Lease) : Prop := To16 (l6Address lease) <> [] /\ 0 <= l6IAID lease < 2 ^ 32.

Definition wellConfigured (h : DHCPv6Handler) : Prop :=
  Z.of_nat (length (h6ServerDUID h)) <= maxDUIDSize /\ Forall (fun addr => To16 addr <> []) (h6AddressPool h) /\
  map_Forall (fun _ lease => usable6 lease) (h6Leases h).

(** The lease as a client reads it: its identifier, its address and lifetimes. *)
Definition grantedIn (now : Time) (reply : DHCPv6Message) (lease : DHCPv6Lease) : Prop :=
  extractIANA reply = Some (l6IAID lease) /\
  exists opt, findOption reply DHCPv6OptIANA = Some opt /\
    parseOptions (length (o6Data opt)) (drop ianaHeaderBase (o6Data opt)) = inl [addressOption now lease].

Lemma client_option request :
  Forall (fun opt => exactOption opt /\ shortDUID opt) (m6Options request) ->
  Forall (fun opt => exactOption opt /\ shortDUID opt /\ o6Code opt = DHCPv6OptClientID) (clientOption request).
Proof.
  intros H. unfold clientOption, findOption. destruct (List.find _ _) as [opt|] eqn:E; [|constructor]. apply Forall_singleton.
  apply find_some in E as [Hin Hc%Z.eqb_eq]. rewrite Forall_forall in H.
  by destruct (H opt ltac:(by apply list_elem_of_In)).
Qed.

Lemma lease_option now h lease :
  (forall l, lease = Some l -> usable6 l) ->
  Forall (fun opt => exactOption opt /\ o6Code opt = DHCPv6OptIANA) (leaseOption now h lease).
Proof.
  intros H. destruct lease as [l|]; [|constructor]. apply Forall_singleton. destruct (H l eq_refl) as [Ha _].
  rewrite association_built by done. split; [|done]. apply option6_exact; [done|].
  pose proof (address_framed now l Ha) as [Hf _]. rewrite length_app, (wire_length _ Hf). done.
Qed.

Section response.
Context (now : Time) (h : DHCPv6Handler) (msgType : Z) (request : DHCPv6Message) (lease : option DHCPv6Lease)
  (device : option serverDevice).
Hypothesis (Hw : wellConfigured h) (Hid : length (m6TransactionID request) = 3%nat).
Hypothesis (Hreq : Forall (fun opt => exactOption opt /\ shortDUID opt) (m6Options request)).
Hypothesis (Hlease : forall l, lease = Some l -> usable6 l).

Let reply := mkMessage6 msgType (m6TransactionID request)
  (option6 DHCPv6OptServerID (h6ServerDUID h) :: clientOption request ++ leaseOption now h lease ++ (trimmed <$> configured h device)).

Lemma server_exact : exactOption (option6 DHCPv6OptServerID (h6ServerDUID h)).
Proof. apply option6_exact; [done|]. destruct Hw as [H _]. unfold maxDUIDSize, maxUint16Val in *. lia. Qed.

Lemma reply_read infoOnly :
  (infoOnly = true -> lease = None) ->
  parseDHCPv6Message (serializeDHCPv6Message (buildDHCPv6Response now h msgType request lease device infoOnly)) = inl reply.
Proof.
  intros Hi. rewrite response_options. assert ((if infoOnly then None else lease) = lease) as -> by (destruct infoOnly; naive_solver).
  pose proof server_exact as Hs. pose proof (client_option request Hreq) as Hc. pose proof (lease_option now h lease Hlease) as Hl.
  pose proof (configured_other h device) as Ho. rewrite message_read; [| | |done].
  - unfold reply. simpl. rewrite (trimmed_exact _ Hs), !fmap_app, (trimmed_all (clientOption request)), (trimmed_all (leaseOption _ _ _));
      [done| |]; eapply Forall_impl; [exact Hl| |exact Hc|]; by intros opt (? & _).
  - simpl. apply Forall_cons. split; [apply Hs|]. apply Forall_app_2; [|apply Forall_app_2].
    + eapply Forall_impl; [exact Hc|]. by intros opt ((? & _) & _).
    + eapply Forall_impl; [exact Hl|]. by intros opt ((? & _) & _).
    + eapply Forall_impl; [exact Ho|]. by intros opt (? & _).
  - simpl. apply Forall_cons. split; [|apply Forall_app_2; [|apply Forall_app_2]].
    + intros _. destruct Hw as [H _]. rewrite (proj2 Hs). exact H.
    + eapply Forall_impl; [exact Hc|]. by intros opt (_ & ? & _).
    + eapply Forall_impl; [exact Hl|]. intros opt (_ & Hcode) [Hx|Hx]; rewrite Hcode in Hx; done.
    + eapply Forall_impl; [exact Ho|]. intros opt (_ & H1 & H2 & _) [Hx|Hx]; done.
Qed.

Lemma others_skipped code :
  code = DHCPv6OptClientID \/ code = DHCPv6OptServerID \/ code = DHCPv6OptIANA ->
  List.find (fun opt => o6Code opt =? code) (trimmed <$> configured h device) = None.
Proof.
  intros Hcode. rewrite <- (app_nil_r (_ <$> _)), find_skip; [done|]. apply Forall_fmap. eapply Forall_impl; [apply configured_other|].
  intros opt (_ & H1 & H2 & H3). simpl. apply Z.eqb_neq. intros E. rewrite E in *. by destruct Hcode as [?|[?|?]].
Qed.

Lemma reply_server : findOption reply DHCPv6OptServerID = Some (option6 DHCPv6OptServerID (h6ServerDUID h)).
Proof. done. Qed.

Lemma reply_client : findOption reply DHCPv6OptClientID = findOption request DHCPv6OptClientID.
Proof.
  unfold findOption at 1, reply. simpl. pose proof (client_option request Hreq) as Hc. unfold clientOption in *.
  destruct (findOption request DHCPv6OptClientID) as [opt|]; simpl in *.
  - apply Forall_cons in Hc as [(_ & _ & ->) _]. done.
  - rewrite find_skip; [apply others_skipped; by left|]. eapply Forall_impl; [by apply lease_option|].
    by intros opt (_ & ->).
Qed.

Lemma reply_lease : findOption reply DHCPv6OptIANA = (fun l => buildIANAOption now h l) <$> lease.
Proof.
  unfold findOption, reply. simpl. rewrite find_skip.
  - destruct lease as [l|]; simpl; [done|]. apply others_skipped. by right; right.
  - eapply Forall_impl; [by apply client_option|]. by intros opt (_ & _ & ->).
Qed.

Lemma reply_granted l : lease = Some l -> grantedIn now reply l.
Proof.
  intros El. pose proof reply_lease as Hf. rewrite El in Hf. destruct (Hlease l El) as [Ha Hiaid]. simpl in Hf.
  rewrite (association_built now h l Ha) in Hf. pose proof (address_framed now l Ha) as He.
  pose proof (wire_length _ (proj1 He)) as Hlen. change (optionHeaderSize + _)%nat with 28%nat in Hlen.
  set (data := associationHeader h l ++ wireOption (addressOption now l)) in *.
  assert (length data = 40%nat) as Hd by (unfold data; rewrite length_app, Hlen; done).
  split.
  - unfold extractIANA. rewrite Hf. change (o6Data (option6 DHCPv6OptIANA data)) with data.
    rewrite bool_decide_eq_true_2 by lia. f_equal. unfold data, associationHeader. rewrite <- !app_assoc.
    by apply bigUint32_big32.
  - eexists. split; [exact Hf|]. change (o6Data (option6 DHCPv6OptIANA data)) with data. rewrite Hd.
    assert (drop ianaHeaderBase data = wireOptions [addressOption now l]) as ->.
    { unfold data, wireOptions. simpl. by rewrite app_nil_r. }
    rewrite options_read; [|apply Forall_singleton; apply He|apply Forall_singleton; by intros [?|?]|].
    + simpl. by rewrite trimmed_exact.
    + rewrite wireOptions_cons, length_app, Hlen. simpl. lia.
Qed.
End response.

(** ** Leasing *)

(** The client of a request has its lease renewed, or gets a free address. *)
Lemma allocate6_spec now duid iaid h :
  match allocateLease6 now duid iaid h with
  | (Some lease, h') =>
      h' = h <| h6Leases := <[duidString duid := lease]> (h6Leases h) |> /\ l6Valid lease = now + h6ValidLifetime h /\
      match h6Leases h !! duidString duid with
      | Some existing => lease = renewLeaseUnlocked now h existing
      | None => l6IAID lease = iaid /\ l6DUID lease = duid /\ l6Address lease ∈ h6AddressPool h /\
                addressInUse now h (l6Address lease) = false
      end
  | (None, h') => h' = h /\ h6Leases h !! duidString duid = None /\
                  Forall (fun addr => addressInUse now h addr = true) (h6AddressPool h)
  end.
Proof.
  unfold allocateLease6. destruct (h6Leases h !! duidString duid) as [existing|]; [done|]. unfold findAvailableAddress.
  destruct (List.find _ _) as [addr|] eqn:E.
  - apply find_some in E as [Hin Hf]. apply negb_true_iff in Hf. split_and!; try done. by apply list_elem_of_In.
  - split_and!; [done..|]. apply Forall_forall. intros addr Hin%list_elem_of_In. apply (find_none _ _ E) in Hin.
    by apply negb_false_iff in Hin.
Qed.

Lemma confirm_allocates now duid iaid h : confirmLease now duid iaid h = allocateLease6 now duid iaid h.
Proof. unfold confirmLease, allocateLease6. by destruct (h6Leases h !! duidString duid). Qed.

Lemma configured_put h key lease :
  wellConfigured h -> usable6 lease -> wellConfigured (h <| h6Leases := <[key := lease]> (h6Leases h) |>).
Proof. intros (? & ? & ?) Hl. split_and!; [done|done|]. by apply map_Forall_insert_2. Qed.

Lemma configured_delete h key : wellConfigured h -> wellConfigured (h <| h6Leases := delete key (h6Leases h) |>).
Proof. intros (? & ? & ?). split_and!; [done|done|]. by apply map_Forall_delete. Qed.

Lemma allocate_configured now duid iaid h lease h' :
  wellConfigured h -> 0 <= iaid < 2 ^ 32 -> allocateLease6 now duid iaid h = (Some lease, h') ->
  wellConfigured h' /\ usable6 lease /\ h6Leases h' !! duidString duid = Some lease.
Proof.
  intros Hw Hi E. pose proof (allocate6_spec now duid iaid h) as Hs. rewrite E in Hs. destruct Hs as (-> & _ & Hs).
  assert (usable6 lease) as Hu.
  { destruct Hw as (_ & Hp & Hl). destruct (h6Leases h !! duidString duid) as [existing|] eqn:Ee.
    - subst lease. exact (Hl _ _ Ee).
    - destruct Hs as (Ei & _ & Hin & _). split; [|by rewrite Ei]. rewrite Forall_forall in Hp. by apply Hp. }
  split; [by apply configured_put|]. split; [done|]. apply lookup_insert_eq.
Qed.

(** ** Every reply can be read *)

(** What the frame answers the request with. *)
Definition answers6 (now : Time) (h h' : DHCPv6Handler) (request : DHCPv6Message) (frame : DHCPv6Frame) : Prop :=
  exists reply, parseDHCPv6Message (f6Payload frame) = inl reply /\
    m6TransactionID reply = m6TransactionID request /\
    m6Type reply = (if m6Type request =? DHCPv6Solicit then DHCPv6Advertise else DHCPv6Reply) /\
    findOption reply DHCPv6OptClientID = findOption request DHCPv6OptClientID /\
    o6Data <$> findOption reply DHCPv6OptServerID = Some (h6ServerDUID h) /\
    if m6Type request =? DHCPv6InfoRequest then findOption reply DHCPv6OptIANA = None
    else exists duid lease, extractClientDUID request = Some duid /\ h6Leases h' !! duidString duid = Some lease /\
      grantedIn now reply lease.

Lemma sent_frames env h msgType msg lease clientIP serverIP serverMAC device infoOnly frame :
  SendFrame6 frame ∈ (sendDHCPv6Response env h msgType msg lease clientIP serverIP serverMAC device infoOnly).1 ->
  f6Payload frame = serializeDHCPv6Message (buildDHCPv6Response (e6Now env) h msgType msg lease device infoOnly).
Proof. unfold sendDHCPv6Response. destruct (e6Sent env _); simpl; set_solver. Qed.

Lemma lease_answers env request h0 h' duid lease frame msgType clientIP serverIP serverMAC device :
  wellConfigured h' -> h6ServerDUID h' = h6ServerDUID h0 -> length (m6TransactionID request) = 3%nat ->
  Forall (fun opt => exactOption opt /\ shortDUID opt) (m6Options request) ->
  m6Type request =? DHCPv6InfoRequest = false ->
  msgType = (if m6Type request =? DHCPv6Solicit then DHCPv6Advertise else DHCPv6Reply) ->
  extractClientDUID request = Some duid -> h6Leases h' !! duidString duid = Some lease -> usable6 lease ->
  SendFrame6 frame ∈ (sendDHCPv6Response env h' msgType request (Some lease) clientIP serverIP serverMAC device false).1 ->
  answers6 (e6Now env) h0 h' request frame.
Proof.
  intros Hw Ed Hid Hreq Hty -> Hduid Hlease Hu Hin. apply sent_frames in Hin. unfold answers6. rewrite Hin, Hty.
  assert (forall l, Some lease = Some l -> usable6 l) as Hl by by intros ? [= <-].
  eexists. split; [by apply reply_read|]. split; [done|]. split; [done|]. split; [by apply reply_client|].
  split; [by rewrite <- Ed|]. exists duid, lease. split_and!; [done|done|]. by apply reply_granted.
Qed.

Lemma info_answers env request h frame clientIP serverIP serverMAC :
  wellConfigured h -> length (m6TransactionID request) = 3%nat ->
  Forall (fun opt => exactOption opt /\ shortDUID opt) (m6Options request) ->
  m6Type request = DHCPv6InfoRequest -> SendFrame6 frame ∈ handleInfoRequest env request clientIP serverIP serverMAC h ->
  answers6 (e6Now env) h h request frame.
Proof.
  intros Hw Hid Hreq Hty Hin. apply sent_frames in Hin. unfold answers6. rewrite Hin, Hty.
  assert (forall l : DHCPv6Lease, None = Some l -> usable6 l) as Hl by done.
  eexists. split; [by apply reply_read|]. split; [done|]. split; [done|]. split; [by apply reply_client|].
  split; [done|]. exact (reply_lease (e6Now env) h DHCPv6Reply request None None Hreq Hl).
Qed.

Lemma parsed_bytes fuel data opts :
  Forall isByte data -> parseOptions fuel data = inl opts -> Forall (fun opt => Forall isByte (o6Data opt)) opts.
Proof.
  revert data opts. induction fuel as [|fuel IH]; intros data opts Hb; cbn [parseOptions]; [by intros [= <-]|].
  destruct (bool_decide _); [by intros [= <-]|]. destruct (_ <? _); [done|]. destruct (_ && _); [done|].
  destruct (parseOptions fuel _) as [rest|] eqn:Er; [|done]. intros [= <-]. constructor.
  - simpl. by apply Forall_take, isByte_drop.
  - eapply IH; [|exact Er]. by do 2 apply isByte_drop.
Qed.

Lemma iaid_range payload request iaid :
  Forall isByte payload -> parseDHCPv6Message payload = inl request -> extractIANA request = Some iaid -> 0 <= iaid < 2 ^ 32.
Proof.
  intros Hb. unfold parseDHCPv6Message. destruct (bool_decide _); [done|].
  destruct (parseOptions _ _) as [opts|] eqn:Eo; [|done]. intros [= <-]. unfold extractIANA, findOption. simpl.
  destruct (List.find _ _) as [opt|] eqn:Ef; [|done]. destruct (bool_decide _); [|done]. intros [= <-].
  apply find_some in Ef as [Hin%list_elem_of_In _]. apply bigUint32_range.
  pose proof (parsed_bytes _ _ _ (isByte_drop _ 4 Hb) Eo) as H. rewrite Forall_forall in H. by apply H.
Qed.

Section dispatch.
Context (env : Env6) (request : DHCPv6Message) (srcIP serverIP : IP) (device : serverDevice) (h : DHCPv6Handler).
Hypothesis (Hw : wellConfigured h) (Hid : length (m6TransactionID request) = 3%nat).
Hypothesis (Hreq : Forall (fun opt => exactOption opt /\ shortDUID opt) (m6Options request)).
Hypothesis (Hiaid : forall iaid, extractIANA request = Some iaid -> 0 <= iaid < 2 ^ 32).

(** What a handler does is sound. *)
Definition sound6 (result : list Action6 * DHCPv6Handler) : Prop :=
  wellConfigured result.2 /\ h6ServerDUID result.2 = h6ServerDUID h /\
  forall frame, SendFrame6 frame ∈ result.1 -> answers6 (e6Now env) h result.2 request frame.

Lemma silent6 h' : wellConfigured h' -> h6ServerDUID h' = h6ServerDUID h -> sound6 ([], h').
Proof. intros Hw' Ed. split; [done|]. split; [done|]. simpl. intros frame Hf. by apply elem_of_nil in Hf. Qed.

Lemma lease_message msgType stat :
  m6Type request =? DHCPv6InfoRequest = false ->
  msgType = (if m6Type request =? DHCPv6Solicit then DHCPv6Advertise else DHCPv6Reply) ->
  sound6 (handleLeaseMessage env request msgType stat (allocateLease6 (e6Now env)) srcIP serverIP device h).
Proof.
  intros Hty Hmt. unfold handleLeaseMessage, validateClientIdentity.
  destruct (extractClientDUID request) as [duid|] eqn:Ed; [|by apply silent6].
  destruct (extractIANA request) as [iaid|] eqn:Ei; [|by apply silent6]. simpl.
  pose proof (allocate6_spec (e6Now env) duid iaid h) as Hs.
  destruct (allocateLease6 (e6Now env) duid iaid h) as [[lease|] h'] eqn:Ea; [|destruct Hs as [-> _]; by apply silent6].
  destruct Hs as [Eh _]. destruct (allocate_configured _ _ _ _ _ _ Hw (Hiaid _ eq_refl) Ea) as (Hw' & Hu & Hl).
  assert (h6ServerDUID h' = h6ServerDUID h) as Esd by by rewrite Eh.
  pose proof (fun frame => lease_answers env request h h' duid lease frame msgType srcIP serverIP (sdMACAddress device) (Some device)
    Hw' Esd Hid Hreq Hty Hmt Ed Hl Hu) as Ha.
  destruct (sendDHCPv6Response _ _ _ _ _ _ _ _ _ _) as [frames ok]. simpl in *. split; [done|]. split; [done|]. simpl.
  intros frame [Hin|Hin]%elem_of_app; [by apply Ha|]. destruct ok; set_solver.
Qed.

Lemma renew_message :
  m6Type request =? DHCPv6InfoRequest = false -> m6Type request =? DHCPv6Solicit = false ->
  sound6 (handleRenew env request srcIP serverIP device h).
Proof.
  intros Hty Hsol. unfold handleRenew. destruct (extractClientDUID request) as [duid|] eqn:Ed; [|by apply silent6].
  unfold findLease. destruct (h6Leases h !! duidString duid) as [lease|] eqn:El; [|by apply silent6]. unfold renewLease.
  assert (usable6 (renewLeaseUnlocked (e6Now env) h lease)) as Hu by (destruct Hw as (_ & _ & Hl); exact (Hl _ _ El)).
  set (lease' := renewLeaseUnlocked _ _ _) in *. set (h' := h <| h6Leases := _ |>).
  assert (wellConfigured h') as Hw' by by apply configured_put. split; [done|]. split; [done|]. simpl.
  intros frame. apply (lease_answers env request h h' duid lease'); try done; [by rewrite Hsol|apply lookup_insert_eq].
Qed.

Lemma dispatch_sound : sound6 (dispatchDHCPv6Message env request srcIP serverIP device h).
Proof.
  unfold dispatchDHCPv6Message.
  destruct (Z.eqb_spec (m6Type request) DHCPv6Solicit) as [E|N1]; [apply lease_message; by rewrite E|].
  destruct (Z.eqb_spec (m6Type request) DHCPv6Request) as [E|N2].
  { unfold handleRequest. assert (forall stat mt, handleLeaseMessage env request mt stat (confirmLease (e6Now env)) srcIP serverIP device h =
      handleLeaseMessage env request mt stat (allocateLease6 (e6Now env)) srcIP serverIP device h) as ->.
    { intros stat mt. unfold handleLeaseMessage. destruct (validateClientIdentity request) as [[duid iaid]|]; [|done].
      by rewrite confirm_allocates. }
    apply lease_message; by rewrite E. }
  destruct (Z.eqb_spec (m6Type request) DHCPv6Renew) as [E|N3]; [apply renew_message; by rewrite E|].
  destruct (Z.eqb_spec (m6Type request) DHCPv6Rebind) as [E|N4]; [apply renew_message; by rewrite E|].
  destruct (_ =? DHCPv6Release). { apply silent6; unfold handleRelease; destruct (extractClientDUID request); try done. by apply configured_delete. }
  destruct (_ =? DHCPv6Decline). { apply silent6; unfold handleDecline; destruct (extractClientDUID request); try done. by apply configured_delete. }
  destruct (Z.eqb_spec (m6Type request) DHCPv6InfoRequest) as [E|N5]; [|by apply silent6].
  split; [done|]. split; [done|]. simpl. intros frame. by apply info_answers.
Qed.
End dispatch.

(** C29. Whatever datagram arrives, every frame the server sends carries a message
    that can be read back: it has the transaction and the client identifier
    of the request and the server's identifier, it is an Advertise for a
    Solicit and a Reply otherwise, and it grants, in an identity association
    that can be read back too, the lease the table has for the client; an
    Information-Request is granted nothing. *)
Theorem replies_readable env payload srcIP devices h :
  Forall isByte payload -> wellConfigured h ->
  let '(actions, h') := HandlePacket6 env payload srcIP devices h in
  wellConfigured h' /\
  forall frame, SendFrame6 frame ∈ actions ->
    exists request, parseDHCPv6Message payload = inl request /\ answers6 (e6Now env) h h' request frame.
Proof.
  intros Hb Hw. unfold HandlePacket6. assert (forall h', wellConfigured h' ->
    wellConfigured h' /\ forall frame, SendFrame6 frame ∈ [Count6 "dhcp_requests"] ->
      exists request, parseDHCPv6Message payload = inl request /\ answers6 (e6Now env) h h' request frame) as Hnone.
  { intros h' Hw'. split; [done|]. set_solver. }
  destruct (parseDHCPv6Message payload) as [request|err] eqn:Ep; [|by apply Hnone].
  destruct (findIPv6ServerDevice devices) as [device|]; [|by apply Hnone].
  destruct (request_options payload request Hb Ep) as [Hid Hreq].
  pose proof (dispatch_sound env request srcIP (getFirstIPv6Address (sdIPAddresses device)) device h Hw Hid Hreq
    (fun iaid => iaid_range payload request iaid Hb Ep)) as (Hw' & _ & Ha).
  destruct (dispatchDHCPv6Message _ _ _ _ _ _) as [actions h']. split; [done|]. intros frame [Hin|Hin]%elem_of_cons; [done|].
  exists request. split; [done|]. by apply Ha.
Qed.

(** Whoever asks, the frame goes to the multicast address of the servers, which
    no client listens to, and not to one of the client. *)
Theorem replies_to_servers env h msgType msg lease clientIP serverIP serverMAC device infoOnly frame :
  SendFrame6 frame ∈ (sendDHCPv6Response env h msgType msg lease clientIP serverIP serverMAC device infoOnly).1 ->
  f6DstIP frame = clientIP /\ f6DstMAC frame = IPv6MulticastToMAC AllDHCPRelayAgentsAndServers.
Proof.
  unfold sendDHCPv6Response. destruct (e6Sent env _); simpl; [|set_solver]. intros [= ->]%list_elem_of_singleton. simpl.
  split; [done|]. by destruct (_ && _).
Qed.

(** ** No address twice *)

Definition exclusive6 (now : Time) (h : DHCPv6Handler) : Prop :=
  forall k1 k2 l1 l2, k1 <> k2 -> h6Leases h !! k1 = Some l1 -> h6Leases h !! k2 = Some l2 ->
  now < l6Valid l1 -> now < l6Valid l2 -> ipEqual (l6Address l1) (l6Address l2) = false.

(** The client comes back before its lease ran out, or its address is free. *)
Definition timely6 (now : Time) (h : DHCPv6Handler) (duid : list Z) : Prop :=
  forall lease, h6Leases h !! duidString duid = Some lease ->
  now < l6Valid lease \/
  forall k other, k <> duidString duid -> h6Leases h !! k = Some other -> now < l6Valid other ->
    ipEqual (l6Address lease) (l6Address other) = false.

Lemma exclusive6_later now later h : exclusive6 now h -> now <= later -> exclusive6 later h.
Proof. intros H Hle k1 k2 l1 l2 Hne H1 H2 E1 E2. eapply (H k1 k2); eauto; lia. Qed.

Lemma exclusive6_put now h key lease :
  exclusive6 now h ->
  (forall k other, k <> key -> h6Leases h !! k = Some other -> now < l6Valid other ->
    ipEqual (l6Address lease) (l6Address other) = false) ->
  exclusive6 now (h <| h6Leases := <[key := lease]> (h6Leases h) |>).
Proof.
  intros He Hnew k1 k2 l1 l2 Hne. cbn. rewrite !lookup_insert_Some.
  intros [[<- <-]|[N1 H1]] [[<- <-]|[N2 H2]] E1 E2; [done|by eapply Hnew| |by apply (He k1 k2)].
  rewrite ipEqual_sym. by eapply Hnew.
Qed.

Lemma exclusive6_delete now h key : exclusive6 now h -> exclusive6 now (h <| h6Leases := delete key (h6Leases h) |>).
Proof. intros He k1 k2 l1 l2 Hne. cbn. rewrite !lookup_delete_Some. intros [_ H1] [_ H2]. by apply (He k1 k2). Qed.

Lemma unused_apart now h addr k other :
  addressInUse now h addr = false -> h6Leases h !! k = Some other -> now < l6Valid other -> ipEqual addr (l6Address other) = false.
Proof.
  unfold addressInUse. intros Hf Hk Hv. rewrite ipEqual_sym. apply not_true_iff_false. intros Ht.
  apply not_true_iff_false in Hf. apply Hf, existsb_exists. exists (k, other). split.
  - by apply list_elem_of_In, elem_of_map_to_list.
  - rewrite Ht. by apply Z.ltb_lt.
Qed.

Lemma timely_apart now h duid lease k other :
  exclusive6 now h -> timely6 now h duid -> h6Leases h !! duidString duid = Some lease ->
  k <> duidString duid -> h6Leases h !! k = Some other -> now < l6Valid other -> ipEqual (l6Address lease) (l6Address other) = false.
Proof. intros He Ht Hl Hne Hk Hv. destruct (Ht lease Hl) as [Hlt|Hfree]; [by apply (He (duidString duid) k)|by eapply Hfree]. Qed.

Lemma allocate6_exclusive now duid iaid h :
  exclusive6 now h -> timely6 now h duid -> exclusive6 now (allocateLease6 now duid iaid h).2.
Proof.
  intros He Ht. pose proof (allocate6_spec now duid iaid h) as Hs.
  destruct (allocateLease6 now duid iaid h) as [[lease|] h']; [|by destruct Hs as [-> _]].
  destruct Hs as (-> & _ & Hs). apply exclusive6_put; [done|]. intros k other Hne Hk Hv.
  destruct (h6Leases h !! duidString duid) as [existing|] eqn:Ee.
  - subst lease. by eapply (timely_apart now h duid existing).
  - destruct Hs as (_ & _ & _ & Hf). by eapply unused_apart.
Qed.

Lemma message_exclusive env request srcIP serverIP device h :
  exclusive6 (e6Now env) h -> (forall duid, extractClientDUID request = Some duid -> timely6 (e6Now env) h duid) ->
  exclusive6 (e6Now env) (dispatchDHCPv6Message env request srcIP serverIP device h).2.
Proof.
  intros He Ht. unfold dispatchDHCPv6Message.
  assert (forall mt stat leaseFn, (forall duid iaid, leaseFn duid iaid h = allocateLease6 (e6Now env) duid iaid h) ->
    exclusive6 (e6Now env) (handleLeaseMessage env request mt stat leaseFn srcIP serverIP device h).2) as Hlease.
  { intros mt stat leaseFn Hfn. unfold handleLeaseMessage, validateClientIdentity.
    destruct (extractClientDUID request) as [duid|]; [|done]. destruct (extractIANA request) as [iaid|]; [|done]. simpl.
    rewrite Hfn. pose proof (allocate6_exclusive (e6Now env) duid iaid h He (Ht duid eq_refl)) as Ha.
    destruct (allocateLease6 _ _ _ _) as [[lease|] h']; [|done]. by destruct (sendDHCPv6Response _ _ _ _ _ _ _ _ _ _). }
  assert (exclusive6 (e6Now env) (handleRenew env request srcIP serverIP device h).2) as Hrenew.
  { unfold handleRenew. destruct (extractClientDUID request) as [duid|]; [|done]. unfold findLease, renewLease.
    destruct (h6Leases h !! duidString duid) as [lease|] eqn:El; [|done]. simpl. apply exclusive6_put; [done|].
    intros k other Hne Hk Hv. by eapply (timely_apart (e6Now env) h duid lease); auto. }
  destruct (_ =? DHCPv6Solicit); [by apply Hlease|].
  destruct (_ =? DHCPv6Request); [by apply Hlease; intros; apply confirm_allocates|].
  destruct (_ =? DHCPv6Renew); [done|]. destruct (_ =? DHCPv6Rebind); [done|].
  destruct (_ =? DHCPv6Release). { simpl. unfold handleRelease. destruct (extractClientDUID request); [by apply exclusive6_delete|done]. }
  destruct (_ =? DHCPv6Decline). { simpl. unfold handleDecline. destruct (extractClientDUID request); [by apply exclusive6_delete|done]. }
  by destruct (_ =? DHCPv6InfoRequest).
Qed.

Record arrival6 := mkArrival6 { a6Env : Env6; a6Payload : list Z; a6Source : IP; a6Devices : list serverDevice }.

Definition serve6 (h : DHCPv6Handler) (a : arrival6) : DHCPv6Handler :=
  (HandlePacket6 (a6Env a) (a6Payload a) (a6Source a) (a6Devices a) h).2.

Fixpoint wellTimed6 (now : Time) (arrivals : list arrival6) (h : DHCPv6Handler) : Prop :=
  match arrivals with
  | [] => True
  | a :: arrivals =>
      now <= e6Now (a6Env a) /\
      (forall request duid, parseDHCPv6Message (a6Payload a) = inl request -> extractClientDUID request = Some duid ->
         timely6 (e6Now (a6Env a)) h duid) /\
      wellTimed6 (e6Now (a6Env a)) arrivals (serve6 h a)
  end.

Definition clock6 (now : Time) (arrivals : list arrival6) : Time := foldl (fun _ a => e6Now (a6Env a)) now arrivals.

(** C30. Leases are exclusive: whatever datagrams arrive, as long as no client
    comes back after its lease ran out and its address went to another, no two
    clients hold an unexpired lease on one address. *)
Theorem leases6_exclusive now arrivals h :
  exclusive6 now h -> wellTimed6 now arrivals h -> exclusive6 (clock6 now arrivals) (foldl serve6 h arrivals).
Proof.
  revert now h. induction arrivals as [|a arrivals IH]; intros now h He Hw; [done|]. destruct Hw as (Hle & Ht & Hw).
  cbn [foldl clock6]. apply IH; [|done]. apply (exclusive6_later now (e6Now (a6Env a))) in He; [|done].
  unfold serve6, HandlePacket6. destruct (parseDHCPv6Message (a6Payload a)) as [request|]; [|done].
  destruct (findIPv6ServerDevice _) as [device|]; [|done].
  pose proof (message_exclusive (a6Env a) request (a6Source a) (getFirstIPv6Address (sdIPAddresses device)) device h He
    (fun duid => Ht request duid eq_refl)) as H.
  by destruct (dispatchDHCPv6Message _ _ _ _ _ _).
Qed.

(** ** Handlers nobody configured *)

(** The address pool is empty until [SetAddressPool] is called: whatever
    arrives, no lease is ever made and no frame grants one. *)
Theorem unconfigured_silent mac arrivals env payload srcIP devices :
  let h := foldl serve6 (NewDHCPv6Handler mac) arrivals in
  h6Leases h = ∅ /\
  forall frame request, parseDHCPv6Message payload = inl request ->
    SendFrame6 frame ∈ (HandlePacket6 env payload srcIP devices h).1 -> m6Type request = DHCPv6InfoRequest.
Proof.
  assert (forall h env request srcIP serverIP device, h6AddressPool h = [] -> h6Leases h = ∅ ->
    let '(actions, h') := dispatchDHCPv6Message env request srcIP serverIP device h in
    h6AddressPool h' = [] /\ h6Leases h' = ∅ /\ (m6Type request <> DHCPv6InfoRequest -> actions = [])) as Hd.
  { clear. intros h env request srcIP serverIP device Hp Hl.
    assert (forall duid iaid, allocateLease6 (e6Now env) duid iaid h = (None, h)) as Ha.
    { intros duid iaid. unfold allocateLease6, findAvailableAddress. by rewrite Hl, lookup_empty, Hp. }
    assert (forall mt stat leaseFn, (forall duid iaid, leaseFn duid iaid h = (None, h)) ->
      handleLeaseMessage env request mt stat leaseFn srcIP serverIP device h = ([], h)) as Hm.
    { intros mt stat leaseFn Hfn. unfold handleLeaseMessage. destruct (validateClientIdentity request) as [[duid iaid]|]; [|done].
      by rewrite Hfn. }
    assert (handleRenew env request srcIP serverIP device h = ([], h)) as Hr.
    { unfold handleRenew, findLease. destruct (extractClientDUID request); [|done]. by rewrite Hl, lookup_empty. }
    unfold dispatchDHCPv6Message, handleSolicit, handleRequest, handleRebind. rewrite Hr, !Hm by (intros; rewrite ?confirm_allocates; apply Ha).
    unfold handleRelease, handleDecline. do 4 (destruct (_ =? _); [done|]).
    do 2 (destruct (_ =? _); [destruct (extractClientDUID request); simpl; by rewrite ?Hl, ?delete_empty|]).
    destruct (Z.eqb_spec (m6Type request) DHCPv6InfoRequest); [|done]. by split_and!. }
  cbv zeta. set (h0 := NewDHCPv6Handler mac). assert (h6AddressPool h0 = [] /\ h6Leases h0 = ∅) as H0 by done. clearbody h0.
  assert (let h := foldl serve6 h0 arrivals in h6AddressPool h = [] /\ h6Leases h = ∅) as [Hp Hl].
  { cbv zeta. revert h0 H0. induction arrivals as [|a arrivals IH]; intros h [Hp Hl]; [done|]. cbn [foldl]. apply IH.
    unfold serve6, HandlePacket6. destruct (parseDHCPv6Message _) as [request|]; [|done].
    destruct (findIPv6ServerDevice _) as [device|]; [|done].
    pose proof (Hd h (a6Env a) request (a6Source a) (getFirstIPv6Address (sdIPAddresses device)) device Hp Hl) as H.
    destruct (dispatchDHCPv6Message _ _ _ _ _ _) as [actions h']. by destruct H as (? & ? & _). }
  split; [done|]. intros frame request Ep. unfold HandlePacket6. rewrite Ep.
  destruct (findIPv6ServerDevice devices) as [device|]; [|set_solver].
  pose proof (Hd _ env request srcIP (getFirstIPv6Address (sdIPAddresses device)) device Hp Hl) as H.
  destruct (dispatchDHCPv6Message _ _ _ _ _ _) as [actions h']. destruct H as (_ & _ & Hn). simpl.
  intros Hin. destruct (decide (m6Type request = DHCPv6InfoRequest)) as [|Hne]; [done|]. rewrite (Hn Hne) in Hin. set_solver.
Qed.

(** ** An example server *)

Definition pooled6 : DHCPv6Handler := SetAddressPool [[0x20; 0x01; 0x0d; 0xb8; 0; 0; 0; 0; 0; 0; 0; 0; 0; 0; 0; 9]] (NewDHCPv6Handler [0; 1; 2; 3; 4; 5]).

Definition server6 : serverDevice :=
  mkServerDevice [[192; 0; 2; 1]; [0x20; 0x01; 0x0d; 0xb8; 0; 0; 0; 0; 0; 0; 0; 0; 0; 0; 0; 1]] [2; 0; 0; 0; 0; 1] None.

Definition message6 (type client : Z) : list Z := [type; 7; 8; 9; 0; 1; 0; 2; 1; client; 0; 3; 0; 4; 0; 0; 0; client].

Lemma message6_bytes type client : (0 <=? type) && (type <? 256) = true -> (0 <=? client) && (client <? 256) = true -> Forall isByte (message6 type client).
Proof.
  rewrite !andb_true_iff, !Z.leb_le, !Z.ltb_lt. intros. unfold message6, isByte. repeat (apply Forall_cons; split; [lia|]).
  by apply Forall_nil.
Qed.

Definition arrive6 (seconds type client : Z) : arrival6 :=
  mkArrival6 (mkEnv6 (seconds * 10 ^ 9) (fun _ => true)) (message6 type client)
    [0xfe; 0x80; 0; 0; 0; 0; 0; 0; 0; 0; 0; 0; 0; 0; 0; client] [server6].

Definition answer6 (h : DHCPv6Handler) (a : arrival6) : list Action6 * DHCPv6Handler :=
  HandlePacket6 (a6Env a) (a6Payload a) (a6Source a) (a6Devices a) h.

Lemma pooled6_configured : wellConfigured pooled6.
Proof. split_and!; [vm_compute; discriminate|by repeat constructor|apply map_Forall_empty]. Qed.

(** One address is in the pool: the first client gets it, the second nothing. *)
Example one_address :
  length (answer6 pooled6 (arrive6 0 DHCPv6Solicit 5)).1 = 3%nat /\ length (answer6 (serve6 pooled6 (arrive6 0 DHCPv6Solicit 5)) (arrive6 1 DHCPv6Solicit 6)).1 = 1%nat.
Proof. by vm_compute. Qed.

(** An address a client found in use is leased to the next client at once. *)
Example declined_reoffered :
  let h := foldl serve6 pooled6 [arrive6 0 DHCPv6Solicit 5; arrive6 1 DHCPv6Decline 5; arrive6 1 DHCPv6Solicit 6] in
  (l6Address <$> h6Leases h !! duidString [1; 6]) = Some [0x20; 0x01; 0x0d; 0xb8; 0; 0; 0; 0; 0; 0; 0; 0; 0; 0; 0; 9].
Proof. by vm_compute. Qed.

(** A client whose lease ran out gets its address back, leased to another
    though it is by now. *)
Example returning_doubled6 :
  let day := 24 * 3600 in
  let h := foldl serve6 pooled6 [arrive6 0 DHCPv6Solicit 5; arrive6 (31 * day) DHCPv6Solicit 6; arrive6 (32 * day) DHCPv6Renew 5] in
  (l6Address <$> h6Leases h !! duidString [1; 5]) = (l6Address <$> h6Leases h !! duidString [1; 6]) /\
  (forall client, client = 5 \/ client = 6 -> 32 * day * 10 ^ 9 < from_option l6Valid 0 (h6Leases h !! duidString [1; client])).
Proof. split; [by vm_compute|]. intros client [-> | ->]; by vm_compute. Qed.

Lemma replies_readable_witness :
  exists frame request, SendFrame6 frame ∈ (answer6 pooled6 (arrive6 0 DHCPv6Solicit 5)).1 /\
    parseDHCPv6Message (message6 DHCPv6Solicit 5) = inl request /\
    answers6 0 pooled6 (serve6 pooled6 (arrive6 0 DHCPv6Solicit 5)) request frame.
Proof.
  set (a := arrive6 0 DHCPv6Solicit 5).
  pose proof (replies_readable (a6Env a) (a6Payload a) (a6Source a) (a6Devices a) pooled6
    (message6_bytes DHCPv6Solicit 5 eq_refl eq_refl) pooled6_configured) as H.
  unfold serve6, answer6. destruct (HandlePacket6 _ _ _ _ pooled6) as [actions h'] eqn:E. destruct H as [_ H].
  assert (exists frame, SendFrame6 frame ∈ actions) as [frame Hin].
  { apply (f_equal fst) in E. simpl in E. rewrite <- E. eexists. vm_compute. do 2 constructor. }
  destruct (H frame Hin) as (request & Hp & Ha). exists frame, request. split; [exact Hin|]. split; [exact Hp|exact Ha].
Defined.

Lemma leases6_exclusive_witness :
  exclusive6 (2 * 10 ^ 9)
    (foldl serve6 pooled6 [arrive6 0 DHCPv6Solicit 5; arrive6 1 DHCPv6Decline 5; arrive6 2 DHCPv6Solicit 6]).
Proof.
  apply (leases6_exclusive 0 [arrive6 0 DHCPv6Solicit 5; arrive6 1 DHCPv6Decline 5; arrive6 2 DHCPv6Solicit 6] pooled6).
  - intros k1 k2 l1 l2 _ E. change (h6Leases pooled6) with (∅ : gmap string DHCPv6Lease) in E. by rewrite lookup_empty in E.
  - assert (forall n type client h, timely6 (n * 10 ^ 9) h [1; client] ->
      forall request duid, parseDHCPv6Message (a6Payload (arrive6 n type client)) = inl request ->
        extractClientDUID request = Some duid -> timely6 (n * 10 ^ 9) h duid) as Ht.
    { intros n type client h H request duid Ep Ed. cbv in Ep. injection Ep as <-. cbv in Ed. by injection Ed as <-. }
    split; [vm_compute; discriminate|]. split; [apply Ht; by intros lease; vm_compute|].
    split; [vm_compute; discriminate|]. split.
    { apply Ht. intros lease El. left. vm_compute in El. injection El as <-. vm_compute. reflexivity. }
    split; [vm_compute; discriminate|]. split; [|done]. apply Ht. intros lease El. by vm_compute in El.
Defined.
