(* ===== verification/Agent.v ===== *)
(** * The SNMP agent

    [protocols/snmp/agent.go] and [protocols/snmp/mib_snmp.go]: the requests an
    agent answers from its information base, its protocol counters and the one
    object it lets a manager write.

    A handler is a function of the agent that may panic (as the table does when
    its index is stale).  What is outside is an argument: the environment the
    dynamic values are computed from, and what [syncDeviceStateMIBs] does to the
    table, which is some run of the table's own methods. *)

From S2P Require Import Prelude.
From S2P Require Import Oid.
From S2P Require Import Mib.
From S2P Require Import Safeconv.

(** ** Data *)

(** A payload, by its Go type; [nil] is no payload. *)
Inductive Payload :=
| PString (s : string)
| PBytes (b : list Z)
| PInt (n : Z)
| PInt32 (n : Z)
| PInt64 (n : Z)
| PUint32 (n : Z)
| POther (n : Z).

(** gosnmp's codes. *)
Inductive PDUType :=
| Sequence | GetRequest | GetNextRequest | GetBulkRequest | SetRequest | GetResponse
| Trap | InformRequest | SNMPv2Trap | Report | UnknownPDU (code : Z).

Inductive SNMPError :=
| NoError | TooBig | NoSuchName | BadValue | ReadOnly | GenErr | NoAccess | WrongType | WrongLength
| WrongEncoding | WrongValue | NoCreation | InconsistentValue | ResourceUnavailable | CommitFailed
| UndoFailed | AuthorizationError | NotWritable | InconsistentName.

#[export] Instance SNMPError_eq_dec : EqDecision SNMPError.
Proof. solve_decision. Defined.

Definition Integer : Z := 0x02.
Definition OctetString : Z := 0x04.
Definition Counter32 : Z := 0x41.
Definition NoSuchObject : Z := 0x80.
Definition EndOfMibView : Z := 0x82.
Definition Version1 : Z := 0.
Definition Version2c : Z := 1.
Definition Version3 : Z := 3.

(** [gosnmp.SnmpPDU] and the fields of [gosnmp.SnmpPacket] a request is read by. *)
Record SnmpPDU := mkPDU { pduName : string; pduType : Z; pduValue : option Payload }.

Record SnmpRequest := mkSnmpRequest {
  srVersion : Z; srCommunity : string; srType : PDUType; srError : SNMPError;
  srNonRepeaters : Z; srMaxRepetitions : Z; srVariables : list SnmpPDU
}.

Definition SNMPRetryCount : Z := 10.
Definition MaxOIDResultSize : Z := 50.
Definition MaxBulkResponseBytes : Z := 1400.
Definition DefaultSNMPCommunity : string := "public".
Definition snmpGroup : string := "1.3.6.1.2.1.11".
Definition enableAuthenTrapsOID : string := (snmpGroup +:+ ".30.0")%string.
Definition authenticationTrapsOn : Z := 1.
Definition authenticationTrapsOff : Z := 2.

(** Every counter is a [uint32] that wraps. *)
Record snmpStats := mkSnmpStats {
  inPkts : Z; outPkts : Z; inBadVersions : Z; inBadCommunityNames : Z; inBadCommunityUses : Z;
  inASNParseErrs : Z; inBadTypes : Z; inTooBigs : Z; inNoSuchNames : Z; inBadValues : Z;
  inReadOnlys : Z; inGenErrs : Z; inTotalReqVars : Z; inTotalSetVars : Z; inGetRequests : Z;
  inGetNexts : Z; inSetRequests : Z; inGetResponses : Z; inTraps : Z; outTooBigs : Z;
  outNoSuchNames : Z; outBadValues : Z; outReadOnlys : Z; outGenErrs : Z; outGetRequests : Z;
  outGetNexts : Z; outSetRequests : Z; outGetResponses : Z; outTraps : Z; enableAuthenTraps : Z
}.
#[export] Instance snmpStats_rebuild : Rebuild snmpStats := fun s =>
  mkSnmpStats (inPkts s) (outPkts s) (inBadVersions s) (inBadCommunityNames s) (inBadCommunityUses s)
    (inASNParseErrs s) (inBadTypes s) (inTooBigs s) (inNoSuchNames s) (inBadValues s)
    (inReadOnlys s) (inGenErrs s) (inTotalReqVars s) (inTotalSetVars s) (inGetRequests s)
    (inGetNexts s) (inSetRequests s) (inGetResponses s) (inTraps s) (outTooBigs s)
    (outNoSuchNames s) (outBadValues s) (outReadOnlys s) (outGenErrs s) (outGetRequests s)
    (outGetNexts s) (outSetRequests s) (outGetResponses s) (outTraps s) (enableAuthenTraps s).

Definition zeroStats : snmpStats :=
  mkSnmpStats 0 0 0 0 0 0 0 0 0 0 0 0 0 0 0 0 0 0 0 0 0 0 0 0 0 0 0 0 0 0.

(** [atomic.Uint32.Add] *)
Definition addTo (counter n : Z) : Z := uint32 (counter + n).

Definition safeUint32FromInt (v : Z) : Z :=
  if v <? 0 then 0 else if 2 ^ 32 - 1 <? v then 2 ^ 32 - 1 else uint32 v.

Definition recordInboundPDU (pduType : PDUType) (variables : Z) (s : snmpStats) : snmpStats :=
  match pduType with
  | GetRequest =>
      s <| inGetRequests := addTo (inGetRequests s) 1 |>
        <| inTotalReqVars := addTo (inTotalReqVars s) (safeUint32FromInt variables) |>
  | GetNextRequest | GetBulkRequest =>
      s <| inGetNexts := addTo (inGetNexts s) 1 |>
        <| inTotalReqVars := addTo (inTotalReqVars s) (safeUint32FromInt variables) |>
  | SetRequest =>
      s <| inSetRequests := addTo (inSetRequests s) 1 |>
        <| inTotalSetVars := addTo (inTotalSetVars s) (safeUint32FromInt variables) |>
  | GetResponse => s <| inGetResponses := addTo (inGetResponses s) 1 |>
  | Trap | InformRequest | SNMPv2Trap => s <| inTraps := addTo (inTraps s) 1 |>
  | Sequence | Report => s <| inBadTypes := addTo (inBadTypes s) 1 |>
  | UnknownPDU _ => s
  end.

Definition RecordInboundPacket (s : snmpStats) : snmpStats := s <| inPkts := addTo (inPkts s) 1 |>.
Definition RecordBadVersion (s : snmpStats) : snmpStats :=
  RecordInboundPacket s <| inBadVersions := addTo (inBadVersions s) 1 |>.
Definition RecordBadCommunityName (s : snmpStats) : snmpStats :=
  RecordInboundPacket s <| inBadCommunityNames := addTo (inBadCommunityNames s) 1 |>.
Definition RecordBadCommunityUse (s : snmpStats) : snmpStats :=
  RecordInboundPacket s <| inBadCommunityUses := addTo (inBadCommunityUses s) 1 |>.
Definition RecordASNParseError (s : snmpStats) : snmpStats :=
  RecordInboundPacket s <| inASNParseErrs := addTo (inASNParseErrs s) 1 |>.

Definition RecordResponse (status : SNMPError) (s : snmpStats) : snmpStats :=
  let s := s <| outPkts := addTo (outPkts s) 1 |> <| outGetResponses := addTo (outGetResponses s) 1 |> in
  match status with
  | TooBig => s <| outTooBigs := addTo (outTooBigs s) 1 |>
  | NoSuchName => s <| outNoSuchNames := addTo (outNoSuchNames s) 1 |>
  | BadValue | WrongType | WrongLength | WrongEncoding | WrongValue | InconsistentValue =>
      s <| outBadValues := addTo (outBadValues s) 1 |>
  | ReadOnly => s <| outReadOnlys := addTo (outReadOnlys s) 1 |>
  | NoError => s
  | _ => s <| outGenErrs := addTo (outGenErrs s) 1 |>
  end.

Definition RecordInboundError (status : SNMPError) (s : snmpStats) : snmpStats :=
  match status with
  | TooBig => s <| inTooBigs := addTo (inTooBigs s) 1 |>
  | NoSuchName => s <| inNoSuchNames := addTo (inNoSuchNames s) 1 |>
  | BadValue | WrongType | WrongLength | WrongEncoding | WrongValue | InconsistentValue =>
      s <| inBadValues := addTo (inBadValues s) 1 |>
  | ReadOnly => s <| inReadOnlys := addTo (inReadOnlys s) 1 |>
  | NoError => s
  | _ => s <| inGenErrs := addTo (inGenErrs s) 1 |>
  end.

(** The counters the agent serves, by the number that ends their OID. *)
Definition snmpCounters : list (string * (snmpStats -> Z)) :=
  [("1", inPkts); ("2", outPkts); ("3", inBadVersions); ("4", inBadCommunityNames); ("5", inBadCommunityUses);
   ("6", inASNParseErrs); ("7", inBadTypes); ("8", inTooBigs); ("9", inNoSuchNames); ("10", inBadValues);
   ("11", inReadOnlys); ("12", inGenErrs); ("13", inTotalReqVars); ("14", inTotalSetVars); ("15", inGetRequests);
   ("16", inGetNexts); ("17", inSetRequests); ("18", inGetResponses); ("19", inTraps); ("20", outTooBigs);
   ("21", outNoSuchNames); ("22", outBadValues); ("23", outReadOnlys); ("24", outGenErrs); ("25", outGetRequests);
   ("26", outGetNexts); ("27", outSetRequests); ("28", outGetResponses); ("29", outTraps)]%string.

Section agent.
Context {E : Type}.

(** Dynamic values read the environment and the agent's own counters. *)
Abbreviation Table := (MIB Payload (E * snmpStats)).
Abbreviation Value := (Z * option Payload)%type.

Record Agent := mkAgent { agMib : Table; agCommunity : string; agStats : snmpStats }.
#[export] Instance Agent_rebuild : Rebuild Agent := fun a => mkAgent (agMib a) (agCommunity a) (agStats a).

(** The outside of one request step: the environment of dynamic values, and what
    the refresh from the device state does to the table. *)
Record World := mkWorld { wEnv : E; wSync : list (@mibOp Payload (E * snmpStats)) }.

(** ** Handlers *)

Definition Handler (A : Type) : Type := Agent -> option (A * Agent).

#[export] Instance Handler_ret : MRet Handler := fun A x a => Some (x, a).
#[export] Instance Handler_bind : MBind Handler := fun A B k h a =>
  match h a with Some (x, a) => k x a | None => None end.

Definition updateStats (f : snmpStats -> snmpStats) : Handler unit := fun a =>
  Some (tt, a <| agStats := f (agStats a) |>).

Definition initializeSNMPMIB (a : Agent) : Agent :=
  let a := a <| agStats := agStats a <| enableAuthenTraps := authenticationTrapsOff |> |> in
  let counters := foldl (fun m '(suffix, value) =>
      SetDynamic (snmpGroup +:+ "." +:+ suffix +:+ ".0")%string
        (fun env => Some (Counter32, Some (PUint32 (value env.2)))) m) (agMib a) snmpCounters in
  a <| agMib := SetDynamic enableAuthenTrapsOID
         (fun env => Some (Integer, Some (PInt (enableAuthenTraps env.2)))) counters |>.

Definition syncDeviceStateMIBs (w : World) : Handler unit := fun a =>
  Some (tt, a <| agMib := foldl mibStep (agMib a) (wSync w) |>).

Definition mibGet (env : E) (oid : string) : Handler (option Value) := fun a =>
  Some (Get (env, agStats a) oid (agMib a), a).

(** [MIB.GetNext]: the end of the table is [("", nil)]. *)
Definition mibGetNext (env : E) (oid : string) : Handler (string * option Value) := fun a =>
  match GetNext (env, agStats a) oid (agMib a) with
  | (EndOfMIB, m) => Some ((""%string, None), a <| agMib := m |>)
  | (NextOID next value, m) => Some ((next, value), a <| agMib := m |>)
  | (Panic, _) => None
  end.

(** [nextOID == "" || value == nil] has failed. *)
Definition present (next : string * option Value) : option (string * Value) :=
  match next with
  | (EmptyString, _) | (_, None) => None
  | (oid, Some value) => Some (oid, value)
  end.

Definition HandleGet (w : World) (oid : string) : Handler (option Value) :=
  syncDeviceStateMIBs w;; mibGet (wEnv w) oid.

Definition HandleGetNext (w : World) (oid : string) : Handler (option (string * Value)) :=
  syncDeviceStateMIBs w;;
  next ← mibGetNext (wEnv w) oid;
  mret (present next).

Definition estimateVarbindSize (oid : string) (value : Value) : Z :=
  Z.of_nat (String.length oid) + 8 +
  match value.2 with
  | Some (PString s) => Z.of_nat (String.length s)
  | Some (PBytes b) => Z.of_nat (length b)
  | _ => 16
  end.

Fixpoint bulkResults (env : E) (turns : nat) (currentOID : string) (results : list (string * Value)) (budget : Z)
    : Handler (list (string * Value)) :=
  match turns with
  | O => mret results
  | S turns =>
      next ← mibGetNext env currentOID;
      match present next with
      | None => mret results
      | Some (nextOID, value) =>
          let size := estimateVarbindSize nextOID value in
          if negb (bool_decide (length results = O)) && (budget <? size) then mret results
          else bulkResults env turns nextOID (results ++ [(nextOID, value)]) (budget - size)
      end
  end.

Definition HandleGetBulk (w : World) (oid : string) (maxRepetitions : Z) : Handler (list (string * Value)) :=
  syncDeviceStateMIBs w;; bulkResults (wEnv w) (Z.to_nat maxRepetitions) oid [] MaxBulkResponseBytes.

(** ** Writing *)

Definition snmpInteger (value : option Payload) : option Z :=
  match value with
  | Some (PInt n) | Some (PInt32 n) | Some (PInt64 n) => Some n
  | _ => None
  end.

Inductive WriteErr := ErrInvalidValue | ErrNotWritable.

#[export] Instance WriteErr_eq_dec : EqDecision WriteErr.
Proof. solve_decision. Defined.

Definition setEnableAuthenTraps (value : Value) : Handler (option WriteErr) := fun a =>
  match snmpInteger value.2 with
  | Some enabled =>
      if (enabled =? authenticationTrapsOn) || (enabled =? authenticationTrapsOff) then
        Some (None, a <| agStats := agStats a <| enableAuthenTraps := uint32 enabled |> |>)
      else Some (Some ErrInvalidValue, a)
  | None => Some (Some ErrInvalidValue, a)
  end.

Definition SetOID (oid : string) (value : Value) : Handler (option WriteErr) :=
  let oid := trimDot oid in
  if bool_decide (oid = enableAuthenTrapsOID) then setEnableAuthenTraps value
  else fun a => Some (None, a <| agMib := Set_ oid (mkOIDValue value.1 value.2 None) (agMib a) |>).

Definition writeOID (oid : string) (value : Value) : Handler (option WriteErr) :=
  if negb (bool_decide (trimDot oid = enableAuthenTrapsOID)) then mret (Some ErrNotWritable)
  else setEnableAuthenTraps value.

(** One variable after another, each applied at once. *)
Fixpoint setLoop (i : Z) (vars : list SnmpPDU) (response : list SnmpPDU) (status : SNMPError) (index : Z)
    : Handler (list SnmpPDU * SNMPError * Z) :=
  match vars with
  | [] => mret (response, status, index)
  | variable :: vars =>
      err ← writeOID (pduName variable) (pduType variable, pduValue variable);
      let response := response ++ [variable] in
      match err with
      | Some err =>
          if bool_decide (status = NoError) then
            setLoop (i + 1) vars response
              (if bool_decide (err = ErrNotWritable) then NotWritable else BadValue) (uint8 (i + 1))
          else setLoop (i + 1) vars response status index
      | None => setLoop (i + 1) vars response status index
      end
  end.

Definition processSetRequest (vars : list SnmpPDU) : Handler (list SnmpPDU * SNMPError * Z) :=
  setLoop 0 vars [] NoError 0.

Definition setErrorForVersion (status : SNMPError) (version : Z) : SNMPError :=
  if bool_decide (status = NotWritable) && (version =? Version1) then NoSuchName else status.

(** ** Reading *)

Fixpoint processGetRequest (world : nat -> World) (i : nat) (vars : list SnmpPDU) : Handler (list SnmpPDU) :=
  match vars with
  | [] => mret []
  | snmpVar :: vars =>
      value ← HandleGet (world i) (pduName snmpVar);
      rest ← processGetRequest world (S i) vars;
      mret (match value with
            | None => mkPDU (pduName snmpVar) NoSuchObject None
            | Some (type, value) => mkPDU (pduName snmpVar) type value
            end :: rest)
  end.

Fixpoint processGetNextRequest (world : nat -> World) (i : nat) (vars : list SnmpPDU) : Handler (list SnmpPDU) :=
  match vars with
  | [] => mret []
  | snmpVar :: vars =>
      next ← HandleGetNext (world i) (pduName snmpVar);
      rest ← processGetNextRequest world (S i) vars;
      mret (match next with
            | None => mkPDU (pduName snmpVar) EndOfMibView None
            | Some (nextOID, (type, value)) => mkPDU nextOID type value
            end :: rest)
  end.

Definition bulkBinding (requestedOID : string) (next : string * option Value) : SnmpPDU :=
  match present next with
  | None => mkPDU requestedOID EndOfMibView None
  | Some (nextOID, (type, value)) => mkPDU nextOID type value
  end.

Fixpoint nonRepeatersLoop (env : E) (vars response : list SnmpPDU) (budget : Z) : Handler (list SnmpPDU * Z) :=
  match vars with
  | [] => mret (response, budget)
  | v :: vars =>
      next ← mibGetNext env (pduName v);
      nonRepeatersLoop env vars (response ++ [bulkBinding (pduName v) next])
        (match next.2 with Some value => budget - estimateVarbindSize next.1 value | None => budget end)
  end.

Record Repeater := mkRepeater { rpCursor : string; rpExhausted : bool }.

(** One repetition leaves the response full, or goes on to the next. *)
Inductive Row :=
| RowFull (response : list SnmpPDU)
| RowDone (response : list SnmpPDU) (budget : Z) (repeaters : list Repeater) (progressed : bool).

Fixpoint rowLoop (env : E) (todo seen : list Repeater) (response : list SnmpPDU) (budget : Z) (progressed : bool)
    : Handler Row :=
  match todo with
  | [] => mret (RowDone response budget seen progressed)
  | r :: todo =>
      if rpExhausted r then rowLoop env todo (seen ++ [r]) response budget progressed
      else
        next ← mibGetNext env (rpCursor r);
        match present next with
        | None =>
            rowLoop env todo (seen ++ [mkRepeater (rpCursor r) true])
              (response ++ [mkPDU (rpCursor r) EndOfMibView None]) budget progressed
        | Some (nextOID, value) =>
            let size := estimateVarbindSize nextOID value in
            if negb (bool_decide (length response = O)) && (budget <? size) then mret (RowFull response)
            else rowLoop env todo (seen ++ [mkRepeater nextOID false])
                   (response ++ [bulkBinding (rpCursor r) next]) (budget - size) true
        end
  end.

Fixpoint rowsLoop (env : E) (maxRepetitions : nat) (repeaters : list Repeater) (response : list SnmpPDU) (budget : Z)
    : Handler (list SnmpPDU) :=
  match maxRepetitions with
  | O => mret response
  | S maxRepetitions =>
      row ← rowLoop env repeaters [] response budget false;
      match row with
      | RowFull response => mret response
      | RowDone response budget repeaters progressed =>
          if progressed then rowsLoop env maxRepetitions repeaters response budget else mret response
      end
  end.

Definition processGetBulk (w : World) (vars : list SnmpPDU) (nonRepeaters maxRepetitions : Z) : Handler (list SnmpPDU) :=
  syncDeviceStateMIBs w;;
  let nonRepeaters := Z.to_nat (Z.max 0 (Z.min nonRepeaters (Z.of_nat (length vars)))) in
  first ← nonRepeatersLoop (wEnv w) (take nonRepeaters vars) [] MaxBulkResponseBytes;
  rowsLoop (wEnv w) (Z.to_nat maxRepetitions)
    (map (fun v => mkRepeater (pduName v) false) (drop nonRepeaters vars)) first.1 first.2.

(** ** Requests *)

Definition unsupported (vars : list SnmpPDU) : list SnmpPDU :=
  [mkPDU (match vars with [] => ""%string | v :: _ => pduName v end) NoSuchObject None].

(** [maxRepetitions] is a [uint32]. *)
Definition ProcessPDU (world : nat -> World) (pduType : PDUType) (vars : list SnmpPDU)
    (nonRepeaters maxRepetitions : Z) : Handler (list SnmpPDU) :=
  updateStats (recordInboundPDU pduType (Z.of_nat (length vars)));;
  match pduType with
  | GetRequest => processGetRequest world 0 vars
  | GetNextRequest => processGetNextRequest world 0 vars
  | GetBulkRequest =>
      let reps := if maxRepetitions <=? 0 then SNMPRetryCount else maxRepetitions in
      processGetBulk (world O) vars nonRepeaters (Z.min reps MaxOIDResultSize)
  | SetRequest => '(response, _, _) ← processSetRequest vars; mret response
  | _ => mret (unsupported vars)
  end.

(** The first variable a version 1 manager is told does not exist. *)
Fixpoint firstMissing (i : Z) (variables : list SnmpPDU) : option Z :=
  match variables with
  | [] => None
  | v :: variables =>
      if (pduType v =? NoSuchObject) || (pduType v =? EndOfMibView) then Some i else firstMissing (i + 1) variables
  end.

Definition ProcessRequest (world : nat -> World) (request : SnmpRequest) : Handler (list SnmpPDU * SNMPError * Z) :=
  match srType request with
  | SetRequest =>
      updateStats (recordInboundPDU (srType request) (Z.of_nat (length (srVariables request))));;
      '(variables, status, index) ← processSetRequest (srVariables request);
      mret (variables, setErrorForVersion status (srVersion request), index)
  | _ =>
      variables ← ProcessPDU world (srType request) (srVariables request) (srNonRepeaters request) (srMaxRepetitions request);
      match (if srVersion request =? Version1 then firstMissing 0 variables else None) with
      | Some i => mret (srVariables request, NoSuchName, uint8 (i + 1))
      | None => mret (variables, NoError, 0)
      end
  end.

End agent.
Arguments Agent : clear implicits.
Arguments World : clear implicits.
Arguments Handler : clear implicits.
