(* ===== verification/AgentTheorems.v ===== *)
(** * The SNMP agent: walks, bulk responses and writes

    A request is answered from a table that no call changes while it runs, as
    the agent's lock ensures. *)

From S2P Require Import Prelude.
From S2P Require Import Oid.
From S2P Require Import Mib.
From S2P Require Import Safeconv.
From S2P Require Import Agent.

#[export] Instance oidLt_dec : RelDecision oidLt.
Proof. intros x y. unfold oidLt. destruct (compareOIDs x y); [right|left|right]; congruence. Defined.

Section agent.
Context {E : Type}.
Implicit Types (a : Agent E) (env : E).

(** ** A settled table *)

(** The agent once its index is built. *)
Definition settle a : Agent E := a <| agMib := Reindex (agMib a) |>.

(** The next entry as the settled agent answers it. *)
Definition nextOf env a (oid : string) : string * option (Z * option Payload) :=
  match nextIn (env, agStats a) oid (agMib a) with NextOID next value => (next, value) | _ => (""%string, None) end.

Lemma settle_settle a : mibOk (agMib a) -> settle (settle a) = settle a.
Proof.
  intros H. destruct (Reindex_clean _ H) as (_ & Hd & _). unfold settle. cbn. unfold Reindex at 1. by rewrite Hd.
Qed.

Lemma next_cases env oid (m : MIB Payload (E * snmpStats)) stats :
  mibOk m -> mbDirty m = false ->
  exists before after, mbSorted m = before ++ after /\ Forall (fun k => oidLe k oid) before /\ Forall (oidLt oid) after /\
  match after with
  | [] => nextIn (env, stats) oid m = EndOfMIB
  | k :: _ => exists value, mbEntries m !! k = Some value /\ nextIn (env, stats) oid m = NextOID k (readValue (env, stats) value)
  end.
Proof.
  intros Hok Hd. destruct (Hok Hd) as [Hp Hs]. destruct (sorted_cut oid _ Hs) as (before & after & El & Hb & Ha).
  exists before, after. split_and!; [done..|].
  assert (Forall (fun k => oidLe k (trimDot oid)) before) as Hb'.
  { eapply Forall_impl; [exact Hb|]. intros k. by rewrite oidLe_trimDot. }
  destruct after as [|k after].
  - apply nextIn_end. by rewrite El, app_nil_r.
  - rewrite (nextIn_split _ oid m before k after El Hb').
    2: { eapply Forall_impl; [exact Ha|]. intros x. by rewrite oidLt_trimDot. }
    assert (k ∈ keys m) as [v Hv]%elem_of_keys by (rewrite <- Hp, El; set_solver).
    exists v. by rewrite Hv.
Qed.

(** On such a table a lookup never panics and changes nothing but the index. *)
Lemma mibGetNext_settle env oid a :
  mibOk (agMib a) -> mibGetNext env oid a = Some (nextOf env (settle a) oid, settle a).
Proof.
  intros H. destruct (Reindex_clean _ H) as (_ & Hd & _).
  destruct (next_cases env oid (Reindex (agMib a)) (agStats a) (mibOk_Reindex _ H) Hd) as (before & after & _ & _ & _ & Hn).
  unfold mibGetNext, GetNext, nextOf, settle. cbn. destruct after as [|k after].
  - by rewrite Hn.
  - destruct Hn as (v & _ & ->). done.
Qed.

(** The OIDs after one, and what the table holds for each. *)
Definition rest a (oid : string) : list string := filter (oidLt oid) (mbSorted (agMib a)).
Definition valueOf env a (k : string) : Z * option Payload :=
  default (0, None) (mbEntries (agMib a) !! k ≫= readValue (env, agStats a)).

(** A table whose OIDs have distinct, nonempty arcs and whose dynamic values
    always exist. *)
Record servable env a : Prop := mkServable {
  sv_ok : mibOk (agMib a);
  sv_distinct : forall k k', k ∈ keys (agMib a) -> k' ∈ keys (agMib a) -> parseOIDParts k = parseOIDParts k' -> k = k';
  sv_arcs : forall k, k ∈ keys (agMib a) -> parseOIDParts k <> [];
  sv_value : forall k v, mbEntries (agMib a) !! k = Some v -> readValue (env, agStats a) v <> None
}.

Lemma keys_settle a : mibOk (agMib a) -> keys (agMib (settle a)) = keys (agMib a).
Proof. intros H. unfold keys, settle. cbn. by destruct (Reindex_clean _ H) as (-> & _). Qed.

Lemma servable_settle env a : servable env a -> servable env (settle a).
Proof.
  intros [H1 H2 H3 H4]. constructor.
  - by apply mibOk_Reindex.
  - rewrite !keys_settle by done. done.
  - rewrite !keys_settle by done. done.
  - destruct (Reindex_clean _ H1) as (E1 & _). unfold settle in *. cbn in *. by rewrite E1.
Qed.

Lemma servable_unsettle env a : servable env (settle a) -> servable env a.
Proof.
  intros H. destruct (mbDirty (agMib a)) eqn:Hd.
  - destruct H as [_ H2 H3 H4]. unfold settle, Reindex, keys in *. cbn in *. rewrite Hd in *. constructor; [by intros Hf; rewrite Hd in Hf|done..].
  - assert (settle a = a) as <-; [|done]. unfold settle, Reindex. rewrite Hd. by destruct a.
Qed.

Lemma sorted_strictly env a :
  servable env a -> mbDirty (agMib a) = false -> StronglySorted oidLt (mbSorted (agMib a)).
Proof.
  intros [Hok Hinj _ _] Hd. destruct (Hok Hd) as [Hp Hs].
  assert (NoDup (mbSorted (agMib a))) as Hnd by (rewrite Hp; apply NoDup_fst_map_to_list).
  assert (forall k, k ∈ mbSorted (agMib a) -> k ∈ keys (agMib a)) as Hin by (intros k; by rewrite Hp).
  revert Hs Hnd Hin. generalize (mbSorted (agMib a)) as l. intros l Hs Hnd Hin.
  induction Hs as [|k l Hs IH Hk]; constructor.
  - apply IH; [by apply NoDup_cons in Hnd as [_ ?]|]. intros k' Hk'. apply Hin. by right.
  - apply NoDup_cons in Hnd as [Hk' _]. rewrite Forall_forall in Hk |- *. intros y Hy.
    specialize (Hk _ Hy). apply oidLt_not_le. intros Hle. destruct Hk'.
    rewrite (Hinj k y); [done|apply Hin; by left|apply Hin; by right|]. by apply (anti_symm arcsLe).
Qed.

Lemma filter_cut oid before after :
  Forall (fun k => oidLe k oid) before -> Forall (oidLt oid) after -> filter (oidLt oid) (before ++ after) = after.
Proof.
  intros Hb Ha. rewrite filter_app, filter_none, filter_id; [done|done|].
  eapply Forall_impl; [exact Hb|]. intros k Hk Hlt. by apply oidLt_not_le in Hlt.
Qed.

(** The next entry is the first of the rest, and the rest after it follows. *)
Lemma next_rest env a oid :
  servable env a -> mbDirty (agMib a) = false ->
  present (nextOf env a oid) =
    match rest a oid with [] => None | k :: _ => Some (k, valueOf env a k) end /\
  (forall k, present (nextOf env a oid) = Some (k, valueOf env a k) -> nextOf env a oid = (k, Some (valueOf env a k))) /\
  match rest a oid with [] => True | k :: l => rest a k = l end.
Proof.
  intros Hs Hd. pose proof (sorted_strictly _ _ Hs Hd) as Hlt. destruct Hs as [Hok _ Hne Hv].
  destruct (next_cases env oid (agMib a) (agStats a) Hok Hd) as (before & after & El & Hb & Ha & Hn).
  assert (rest a oid = after) as Er by (unfold rest; rewrite El; by apply filter_cut).
  rewrite Er. unfold nextOf. destruct after as [|k after].
  - rewrite Hn. split_and!; [done|intros k; done|done].
  - destruct Hn as (v & Hk & Hn). rewrite Hn.
    assert (k <> ""%string) as Hk0.
    { intros ->. apply (Hne ""%string); [|done]. apply elem_of_keys. by exists v. }
    assert (readValue (env, agStats a) v = Some (valueOf env a k)) as Hval.
    { unfold valueOf. rewrite Hk. cbn. specialize (Hv k v Hk). by destruct (readValue _ v). }
    rewrite Hval. split_and!.
    + by destruct k.
    + intros k'. destruct k; [done|]. by intros [= ->].
    + unfold rest. rewrite El in Hlt |- *.
      replace (before ++ k :: after) with ((before ++ [k]) ++ after) by (by rewrite <- app_assoc).
      assert (Forall (oidLt k) after) as Hka.
      { apply StronglySorted_app_1_r in Hlt. by apply StronglySorted_cons in Hlt as [? _]. }
      apply filter_cut; [|done]. apply Forall_app. split.
      * eapply Forall_impl; [exact Hb|]. intros x Hx. etrans; [exact Hx|].
        apply Forall_cons in Ha as [Hok' _]. by apply oidLt_le.
      * constructor; [|constructor]. apply (reflexivity (R := arcsLe)).
Qed.

(** ** The reference for GET-BULK

    Each repeater is a column: the entries after its cursor, ended by one end
    marker.  The columns are read row by row, and the datagram takes the cells
    until one no longer fits; the first always does, and a marker is free. *)

Abbreviation cell := (SnmpPDU * option Z)%type.

Definition binding env a (k : string) : SnmpPDU := mkPDU k (valueOf env a k).1 (valueOf env a k).2.
Definition bindingCell env a (k : string) : cell := (binding env a k, Some (estimateVarbindSize k (valueOf env a k))).
Definition endCell (cursor : string) : cell := (mkPDU cursor EndOfMibView None, None).

Definition column env a (n : nat) (cursor : string) : list cell :=
  let l := rest a cursor in
  map (bindingCell env a) (take n l) ++
  (if decide (length l < n)%nat then [endCell (default cursor (last (take n l)))] else []).

Definition rowMajor {A} (n : nat) (columns : list (list A)) : list A :=
  concat (map (fun r => omap (fun c => c !! r) columns) (seq 0 n)).

(** What is taken, and the budget left unless a cell did not fit. *)
Fixpoint fillFrom (started : bool) (budget : Z) (cells : list cell) : list SnmpPDU * option Z :=
  match cells with
  | [] => ([], Some budget)
  | (p, None) :: cells => let '(out, spare) := fillFrom true budget cells in (p :: out, spare)
  | (p, Some size) :: cells =>
      if started && (budget <? size) then ([], None)
      else let '(out, spare) := fillFrom true (budget - size) cells in (p :: out, spare)
  end.

Definition fill (started : bool) (budget : Z) (cells : list cell) : list SnmpPDU := (fillFrom started budget cells).1.

Lemma fillFrom_app started budget c1 c2 :
  fillFrom started budget (c1 ++ c2) =
  match fillFrom started budget c1 with
  | (out, None) => (out, None)
  | (out, Some budget) =>
      let '(out', spare) := fillFrom (started || negb (bool_decide (out = []))) budget c2 in (out ++ out', spare)
  end.
Proof.
  revert started budget. induction c1 as [|[p size] c1 IH]; intros started budget.
  - cbn. rewrite orb_false_r. by destruct (fillFrom started budget c2).
  - destruct size as [size|]; cbn [app fillFrom].
    + destruct (started && (budget <? size)); [done|]. rewrite IH.
      destruct (fillFrom true (budget - size) c1) as [out [spare|]]; [|done]. cbn [orb].
      rewrite bool_decide_false by done. rewrite orb_true_r. by destruct (fillFrom true spare c2).
    + rewrite IH. destruct (fillFrom true budget c1) as [out [spare|]]; [|done]. cbn [orb].
      rewrite bool_decide_false by done. rewrite orb_true_r. by destruct (fillFrom true spare c2).
Qed.

Lemma rowMajor_S {A} n (columns : list (list A)) :
  rowMajor (S n) columns = omap head columns ++ rowMajor n (map tail columns).
Proof.
  unfold rowMajor. cbn [seq map concat]. f_equal.
  - induction columns as [|col columns IH]; [done|]. cbn. rewrite IH. by destruct col.
  - rewrite <- seq_shift, map_map. f_equal. apply map_ext. intros r.
    induction columns as [|col columns IH]; [done|]. cbn. rewrite IH. by destruct col as [|x col]; cbn.
Qed.

Lemma rowMajor_empty {A} n (columns : list (list A)) : Forall (fun c => c = []) columns -> rowMajor n columns = [].
Proof.
  intros H. revert columns H. induction n as [|n IH]; intros columns H; [done|]. rewrite rowMajor_S, IH.
  - rewrite app_nil_r. induction H as [|c columns -> _ IHc]; [done|]. cbn. done.
  - apply Forall_map. eapply Forall_impl; [exact H|]. by intros c ->.
Qed.

(** A repeater's next cell, what the repeater becomes, and whether it moved. *)
Definition headCell env a (r : Repeater) : option cell :=
  if rpExhausted r then None
  else match rest a (rpCursor r) with [] => Some (endCell (rpCursor r)) | k :: _ => Some (bindingCell env a k) end.

Definition advance a (r : Repeater) : Repeater :=
  if rpExhausted r then r
  else match rest a (rpCursor r) with [] => mkRepeater (rpCursor r) true | k :: _ => mkRepeater k false end.

Definition moves a (r : Repeater) : bool :=
  negb (rpExhausted r) && match rest a (rpCursor r) with [] => false | _ => true end.

Definition columnOf env a (n : nat) (r : Repeater) : list cell :=
  if rpExhausted r then [] else column env a n (rpCursor r).

Lemma columnOf_head env a n r : head (columnOf env a (S n) r) = headCell env a r.
Proof.
  unfold columnOf, headCell, column. destruct (rpExhausted r); [done|]. destruct (rest a (rpCursor r)); [|done].
  cbn. by rewrite decide_True by lia.
Qed.

Lemma columnOf_tail env a n r :
  servable env a -> mbDirty (agMib a) = false -> tail (columnOf env a (S n) r) = columnOf env a n (advance a r).
Proof.
  intros Hs Hd. unfold columnOf, advance. destruct (rpExhausted r) eqn:Er; [by rewrite Er|].
  pose proof (next_rest env a (rpCursor r) Hs Hd) as (_ & _ & Hr). unfold column at 1.
  destruct (rest a (rpCursor r)) as [|k l] eqn:El; cbn [rpExhausted rpCursor].
  - cbn. by rewrite decide_True by lia.
  - unfold column. rewrite Hr. cbn [take map app tail length]. f_equal.
    destruct (decide (length l < n)%nat), (decide (S (length l) < S n)%nat); try lia; [|done].
    rewrite last_cons. by destruct (last (take n l)).
Qed.

Lemma ended_repeater env a r :
  rpExhausted r = true -> headCell env a r = None /\ advance a r = r /\ moves a r = false.
Proof. intros H. unfold headCell, advance, moves. by rewrite H. Qed.

Lemma live_repeater env a r :
  rpExhausted r = false ->
  match rest a (rpCursor r) with
  | [] => headCell env a r = Some (endCell (rpCursor r)) /\ advance a r = mkRepeater (rpCursor r) true /\ moves a r = false
  | k :: _ => headCell env a r = Some (bindingCell env a k) /\ advance a r = mkRepeater k false /\ moves a r = true
  end.
Proof. intros H. unfold headCell, advance, moves. rewrite H. by destruct (rest a (rpCursor r)). Qed.

Lemma started_snoc {A} (l : list A) x : negb (bool_decide (length (l ++ [x]) = O)) = true.
Proof. rewrite bool_decide_false; [done|]. rewrite length_app. cbn. lia. Qed.

(** One row, whatever was put in the response before it. *)
Lemma rowLoop_spec env a todo seen response budget progressed :
  servable env a -> mbDirty (agMib a) = false ->
  rowLoop env todo seen response budget progressed a =
  let '(out, spare) := fillFrom (negb (bool_decide (length response = O))) budget (omap (headCell env a) todo) in
  Some (match spare with
        | None => RowFull (response ++ out)
        | Some budget => RowDone (response ++ out) budget (seen ++ map (advance a) todo) (progressed || existsb (moves a) todo)
        end, a).
Proof.
  intros Hs Hd. assert (settle a = a) as Ea by (unfold settle, Reindex; rewrite Hd; by destruct a).
  revert seen response budget progressed. induction todo as [|r todo IH]; intros seen response budget progressed.
  { cbn. by rewrite !app_nil_r, orb_false_r. }
  pose proof (next_rest env a (rpCursor r) Hs Hd) as (Hn & Hb & _).
  cbn [rowLoop omap list_omap map existsb]. destruct (rpExhausted r) eqn:Er.
  { destruct (ended_repeater env a r Er) as (-> & -> & ->). rewrite IH, <- app_assoc. cbn [app orb].
    by destruct (fillFrom _ _ _) as [out spare]. }
  pose proof (live_repeater env a r Er) as Hl.
  unfold mbind, Handler_bind. rewrite mibGetNext_settle by apply Hs. rewrite Ea, Hn.
  destruct (rest a (rpCursor r)) as [|k l] eqn:Erest; destruct Hl as (-> & -> & ->).
  - rewrite IH, started_snoc. cbn [endCell fillFrom orb].
    destruct (fillFrom true budget (omap (headCell env a) todo)) as [out spare].
    rewrite <- !app_assoc. cbn [app]. by destruct spare.
  - rewrite (Hb k) by done. cbn [bindingCell fillFrom].
    destruct (negb (bool_decide (length response = O)) && (budget <? estimateVarbindSize k (valueOf env a k))).
    { by rewrite app_nil_r. }
    rewrite IH, started_snoc.
    destruct (fillFrom true _ (omap (headCell env a) todo)) as [out spare].
    assert (bulkBinding (rpCursor r) (k, Some (valueOf env a k)) = binding env a k) as ->.
    { unfold bulkBinding. rewrite <- (Hb k) by done. rewrite Hn. unfold binding. by destruct (valueOf env a k). }
    rewrite <- !app_assoc. cbn [app]. destruct spare as [b|]; [|done]. by rewrite orb_true_r.
Qed.

Lemma columns_step env a n reps :
  servable env a -> mbDirty (agMib a) = false ->
  rowMajor (S n) (map (columnOf env a (S n)) reps) =
  omap (headCell env a) reps ++ rowMajor n (map (columnOf env a n) (map (advance a) reps)).
Proof.
  intros Hs Hd. rewrite rowMajor_S. f_equal; [|f_equal].
  - induction reps as [|r reps IH]; [done|]. cbn. rewrite IH. rewrite <- (columnOf_head env a n r).
    by destruct (head (columnOf env a (S n) r)).
  - rewrite !map_map. apply map_ext. intros r. by apply columnOf_tail.
Qed.

Lemma rowsLoop_spec env a n reps response budget :
  servable env a -> mbDirty (agMib a) = false ->
  rowsLoop env n reps response budget a =
  Some (response ++ fill (negb (bool_decide (length response = O))) budget (rowMajor n (map (columnOf env a n) reps)), a).
Proof.
  intros Hs Hd. revert reps response budget. induction n as [|n IH]; intros reps response budget.
  { cbn. by rewrite app_nil_r. }
  cbn [rowsLoop]. unfold mbind, Handler_bind. rewrite rowLoop_spec by done.
  unfold fill. rewrite columns_step by done. rewrite fillFrom_app.
  destruct (fillFrom _ budget (omap (headCell env a) reps)) as [out [spare|]] eqn:Eout; [|done]. cbn [app orb].
  destruct (existsb (moves a) reps) eqn:Em.
  - rewrite IH. unfold fill. rewrite <- app_assoc. repeat f_equal.
    assert (negb (bool_decide (length (response ++ out) = O)) =
            negb (bool_decide (length response = O)) || negb (bool_decide (out = []))) as ->.
    { destruct response, out; done. }
    by destruct (fillFrom _ spare _).
  - rewrite rowMajor_empty; [cbn; by rewrite app_nil_r|]. rewrite !Forall_map. apply Forall_forall. intros r Hr.
    assert (moves a r = false) as Hm.
    { apply not_true_is_false. intros Ht. rewrite <- not_true_iff_false in Em. apply Em, existsb_exists.
      exists r. split; [by apply list_elem_of_In|done]. }
    unfold moves, advance, columnOf in *. destruct (rpExhausted r) eqn:Er; [by rewrite Er|].
    by destruct (rest a (rpCursor r)).
Qed.

(** What a loop does does not depend on whether the index was built before. *)
Definition settles {A} (h : Handler E A) : Prop :=
  forall a, mibOk (agMib a) -> h a = h (settle a) \/ exists x, h a = Some (x, a) /\ h (settle a) = Some (x, settle a).

Lemma settles_next {A} env oid (k : string * option (Z * option Payload) -> Handler E A) :
  settles (next ← mibGetNext env oid; k next).
Proof.
  intros a H. left. unfold mbind, Handler_bind. rewrite !mibGetNext_settle; [by rewrite settle_settle|by apply mibOk_Reindex|done].
Qed.

Lemma settles_bind {A B} (h : Handler E A) (k : A -> Handler E B) :
  settles h -> (forall x, settles (k x)) -> settles (x ← h; k x).
Proof.
  intros Hh Hk a Ha. unfold mbind, Handler_bind. destruct (Hh a Ha) as [->|(x & -> & ->)]; [by left|]. by apply Hk.
Qed.

Lemma settles_ret {A} (x : A) : settles (mret x).
Proof. intros a _. right. by exists x. Qed.

Lemma rowLoop_settles env todo seen response budget progressed : settles (rowLoop env todo seen response budget progressed).
Proof.
  revert seen response budget progressed. induction todo as [|r todo IH]; intros; cbn [rowLoop]; [apply settles_ret|].
  destruct (rpExhausted r); [apply IH|apply settles_next].
Qed.

Lemma rowsLoop_settles env n reps response budget : settles (rowsLoop env n reps response budget).
Proof.
  revert reps response budget. induction n as [|n IH]; intros; cbn [rowsLoop]; [apply settles_ret|].
  apply settles_bind; [apply rowLoop_settles|]. intros [r|r b rs []]; [apply settles_ret|apply IH|apply settles_ret].
Qed.

(** ** The answer to a GET-BULK *)

(** The size of a datagram's values: end markers carry none. *)
Definition bindingSize (p : SnmpPDU) : Z :=
  if pduType p =? EndOfMibView then 0 else estimateVarbindSize (pduName p) (pduType p, pduValue p).
Definition totalSize (l : list SnmpPDU) : Z := foldr (fun p n => bindingSize p + n) 0 l.

(** The variable asked once. *)
Definition nextBinding env a (v : SnmpPDU) : SnmpPDU := bulkBinding (pduName v) (nextOf env a (pduName v)).
Definition nextSize env a (v : SnmpPDU) : Z :=
  match nextOf env a (pduName v) with (oid, Some value) => estimateVarbindSize oid value | _ => 0 end.

Lemma nonRepeatersLoop_spec env a vars response budget :
  servable env a -> mbDirty (agMib a) = false ->
  nonRepeatersLoop env vars response budget a =
  Some ((response ++ map (nextBinding env a) vars, budget - foldr (fun v n => nextSize env a v + n) 0 vars), a).
Proof.
  intros Hs Hd. assert (settle a = a) as Ea by (unfold settle, Reindex; rewrite Hd; by destruct a).
  revert response budget. induction vars as [|v vars IH]; intros response budget; cbn [nonRepeatersLoop map foldr].
  { by rewrite app_nil_r, Z.sub_0_r. }
  unfold mbind, Handler_bind. rewrite mibGetNext_settle by apply Hs. rewrite Ea, IH, <- app_assoc. cbn [app].
  destruct (nextOf env a (pduName v)) as [oid o] eqn:En.
  assert (nextBinding env a v = bulkBinding (pduName v) (oid, o)) as -> by (unfold nextBinding; by rewrite En).
  assert (nextSize env a v = match o with Some value => estimateVarbindSize oid value | None => 0 end) as ->
    by (unfold nextSize; by rewrite En).
  destruct o as [value|]; cbn [fst snd]; [by rewrite Z.sub_add_distr|done].
Qed.

Lemma nonRepeatersLoop_settles env vars response budget : settles (nonRepeatersLoop env vars response budget).
Proof. destruct vars; [apply settles_ret|apply settles_next]. Qed.

(** The agent after the refresh from the device state. *)
Definition synced (w : World E) a : Agent E := a <| agMib := foldl mibStep (agMib a) (wSync w) |>.

Lemma bulk_spec w vars nonRepeaters maxRepetitions a :
  servable (wEnv w) (synced w a) ->
  let b := settle (synced w a) in
  let k := Z.to_nat (Z.max 0 (Z.min nonRepeaters (Z.of_nat (length vars)))) in
  let n := Z.to_nat maxRepetitions in
  let first := map (nextBinding (wEnv w) b) (take k vars) in
  let budget := MaxBulkResponseBytes - foldr (fun v n => nextSize (wEnv w) b v + n) 0 (take k vars) in
  exists a', settle a' = b /\
  processGetBulk w vars nonRepeaters maxRepetitions a =
  Some (first ++ fill (negb (bool_decide (length first = O))) budget
          (rowMajor n (map (fun v => column (wEnv w) b n (pduName v)) (drop k vars))), a').
Proof.
  intros Hs b k n first budget. pose proof (servable_settle _ _ Hs) as Hb. fold b in Hb.
  assert (mbDirty (agMib b) = false) as Hd by apply (Reindex_clean _ (sv_ok _ _ Hs)).
  set (h := first0 ← nonRepeatersLoop (wEnv w) (take k vars) [] MaxBulkResponseBytes;
    rowsLoop (wEnv w) n (map (fun v => mkRepeater (pduName v) false) (drop k vars)) first0.1 first0.2).
  assert (settles h) as Hset.
  { apply settles_bind; [apply nonRepeatersLoop_settles|]. intros x. apply rowsLoop_settles. }
  assert (h b = Some (first ++ fill (negb (bool_decide (length first = O))) budget
          (rowMajor n (map (fun v => column (wEnv w) b n (pduName v)) (drop k vars))), b)) as Hh.
  { unfold h, mbind, Handler_bind. rewrite nonRepeatersLoop_spec by done. cbn [app fst snd].
    rewrite rowsLoop_spec by done. by rewrite map_map. }
  change (processGetBulk w vars nonRepeaters maxRepetitions a) with (h (synced w a)).
  destruct (Hset _ (sv_ok _ _ Hs)) as [->|(x & Hx & Hx')]; [exists b; split; [|exact Hh]|].
  - apply settle_settle, (sv_ok _ _ Hs).
  - exists (synced w a). split; [done|]. fold b in Hx'. rewrite Hh in Hx'. by injection Hx' as <-.
Qed.

Lemma totalSize_app l1 l2 : totalSize (l1 ++ l2) = totalSize l1 + totalSize l2.
Proof. unfold totalSize. induction l1 as [|p l1 IH]; cbn; [done|]. unfold totalSize in IH. lia. Qed.

(** Cells whose cost is what they carry. *)
Definition honest (c : cell) : Prop := match c with (p, None) => pduType p = EndOfMibView | (p, Some size) => bindingSize p <= size /\ 0 <= size end.

Lemma fill_size started budget cells :
  Forall honest cells -> totalSize (fill started budget cells) <=
    Z.max (if started then Z.max 0 budget else budget) (match cells with (_, Some size) :: _ => if started then 0 else size | _ => Z.max 0 budget end).
Proof.
  assert (forall budget cells, Forall honest cells -> totalSize (fill true budget cells) <= Z.max 0 budget) as Hstarted.
  { clear. intros budget cells H. revert budget. induction H as [|[p [size|]] cells Hp _ IH]; intros budget; unfold fill in *; cbn.
    - lia.
    - destruct (Z.ltb_spec budget size); [cbn; lia|]. specialize (IH (budget - size)). cbn in Hp.
      destruct (fillFrom true (budget - size) cells). cbn in *. unfold totalSize in *. cbn. lia.
    - specialize (IH budget). cbn in Hp. destruct (fillFrom true budget cells). cbn in *. unfold totalSize in *. cbn.
      unfold bindingSize at 1. rewrite Hp. cbn. lia. }
  intros H. destruct started.
  { pose proof (Hstarted budget cells H). destruct cells as [|[p [size|]] cells]; lia. }
  destruct H as [|[p [size|]] cells Hp Hc]; unfold fill in *; cbn; [lia| |].
  - specialize (Hstarted (budget - size) cells Hc). cbn in Hp. destruct (fillFrom true (budget - size) cells).
    cbn in *. unfold totalSize in *. cbn. lia.
  - specialize (Hstarted budget cells Hc). cbn in Hp. destruct (fillFrom true budget cells). cbn in *. unfold totalSize in *. cbn.
    unfold bindingSize at 1. rewrite Hp. cbn. lia.
Qed.

Lemma estimate_pos oid value : 0 < estimateVarbindSize oid value.
Proof. unfold estimateVarbindSize. destruct value.2 as [[]|]; lia. Qed.

Lemma column_honest env a n cursor : Forall honest (column env a n cursor).
Proof.
  unfold column. apply Forall_app. split.
  - apply Forall_map, Forall_forall. intros k _. cbn. unfold bindingSize, binding. cbn [pduType pduName pduValue].
    rewrite <- surjective_pairing. pose proof (estimate_pos k (valueOf env a k)). destruct (_ =? _); lia.
  - destruct (decide _); repeat constructor.
Qed.

Lemma rowMajor_Forall {A} (P : A -> Prop) n (columns : list (list A)) :
  Forall (Forall P) columns -> Forall P (rowMajor n columns).
Proof.
  intros H. unfold rowMajor. apply Forall_concat, Forall_map, Forall_forall. intros r _.
  induction H as [|c columns Hc _ IH]; cbn; [constructor|]. destruct (c !! r) eqn:Er; [|done].
  constructor; [|done]. rewrite Forall_lookup in Hc. by eapply Hc.
Qed.

(** A GET-BULK is answered as the reference says: the variables asked once,
    then the repeaters' columns read row by row, as many cells as fit.  Without
    variables asked once the datagram's values stay within the 1400 bytes, unless
    the first alone is larger. *)
Theorem bulk_reference w vars nonRepeaters maxRepetitions a :
  servable (wEnv w) (synced w a) ->
  let b := settle (synced w a) in
  let k := Z.to_nat (Z.max 0 (Z.min nonRepeaters (Z.of_nat (length vars)))) in
  let n := Z.to_nat maxRepetitions in
  let first := map (nextBinding (wEnv w) b) (take k vars) in
  let budget := MaxBulkResponseBytes - foldr (fun v n => nextSize (wEnv w) b v + n) 0 (take k vars) in
  let cells := rowMajor n (map (fun v => column (wEnv w) b n (pduName v)) (drop k vars)) in
  exists response a', processGetBulk w vars nonRepeaters maxRepetitions a = Some (response, a') /\ settle a' = b /\
  response = first ++ fill (negb (bool_decide (length first = O))) budget cells /\
  (k = O -> totalSize response <= MaxBulkResponseBytes \/
    exists p size, head cells = Some (p, Some size) /\ MaxBulkResponseBytes < size /\ totalSize response <= size).
Proof.
  intros Hs b k n first budget cells. destruct (bulk_spec w vars nonRepeaters maxRepetitions a Hs) as (a' & Ha & E1).
  eexists _, a'. split; [exact E1|]. split; [exact Ha|]. split; [done|]. intros Hk.
  subst first budget cells. fold b k n. rewrite Hk, take_0, drop_0. cbn [map app foldr length]. rewrite Z.sub_0_r.
  set (cs := rowMajor n _). assert (Forall honest cs) as Hh.
  { apply rowMajor_Forall, Forall_map, Forall_forall. intros v _. apply column_honest. }
  pose proof (fill_size false MaxBulkResponseBytes cs Hh) as Hf.
  change (negb (bool_decide (0%nat = 0%nat))) with false. unfold MaxBulkResponseBytes in *.
  destruct cs as [|[p [size|]] cs]; [left; cbn; lia| |left; lia].
  destruct (Z.le_gt_cases size 1400); [left; lia|]. right. exists p, size. split_and!; [done|lia|lia].
Qed.

(** ** Positions *)

Lemma rowMajor_lookup {A} n (columns : list (list A)) r i :
  (forall c, c ∈ columns -> (n <= length c)%nat) -> (r < n)%nat -> (i < length columns)%nat ->
  rowMajor n columns !! (r * length columns + i)%nat = columns !! i ≫= (fun c => c !! r).
Proof.
  revert r columns. induction n as [|n IH]; intros r columns Hc Hr Hi; [lia|]. rewrite rowMajor_S.
  assert (forall cols : list (list A), (forall c, c ∈ cols -> (S n <= length c)%nat) -> 
    length (omap head cols) = length cols /\ forall i, omap head cols !! i = cols !! i ≫= head) as Hhead.
  { clear. induction cols as [|c cols IH]; intros H; [done|]. destruct IH as [IH1 IH2]; [intros c' Hc'; apply H; by right|].
    specialize (H c ltac:(by left)). destruct c as [|x c]; [cbn in H; lia|]. cbn. split; [by rewrite IH1|].
    intros [|i]; [done|]. cbn. apply IH2. }
  destruct (Hhead columns Hc) as [Hl Hh]. destruct r as [|r].
  - rewrite Nat.mul_0_l, Nat.add_0_l, lookup_app_l by lia. rewrite Hh. destruct (columns !! i) as [c|]; [|done]. cbn. by destruct c.
  - rewrite lookup_app_r by lia. rewrite Hl. replace (S r * length columns + i - length columns)%nat with (r * length columns + i)%nat by lia.
    specialize (IH r (map tail columns)). rewrite length_map in IH. rewrite IH; [|..|lia|done].
    + rewrite list_lookup_fmap. destruct (columns !! i) as [c|]; [|done]. cbn. by destruct c.
    + intros c (c' & -> & Hc')%list_elem_of_fmap. specialize (Hc c' Hc'). destruct c'; cbn in *; lia.
Qed.

Lemma fill_prefix started budget cells : exists j, fill started budget cells = take j (map fst cells).
Proof.
  revert started budget. induction cells as [|[p [size|]] cells IH]; intros started budget; unfold fill in *; cbn.
  - by exists O.
  - destruct (started && _); [by exists O|]. destruct (IH true (budget - size)) as [j Hj].
    destruct (fillFrom true (budget - size) cells). exists (S j). cbn in *. by rewrite Hj.
  - destruct (IH true budget) as [j Hj]. destruct (fillFrom true budget cells). exists (S j). cbn in *. by rewrite Hj.
Qed.

(** The answer is row-major: as long as every variable still has entries
    after it, binding r * columns + i is the r-th entry after variable i, so a
    manager can rebuild the table by position. *)
Theorem bulk_rows w vars maxRepetitions a response a' r i :
  servable (wEnv w) (synced w a) ->
  processGetBulk w vars 0 maxRepetitions a = Some (response, a') ->
  (forall v, v ∈ vars -> (Z.to_nat maxRepetitions <= length (rest (settle (synced w a)) (pduName v)))%nat) ->
  (r < Z.to_nat maxRepetitions)%nat -> (i < length vars)%nat -> (r * length vars + i < length response)%nat ->
  exists v k, vars !! i = Some v /\ rest (settle (synced w a)) (pduName v) !! r = Some k /\
    response !! (r * length vars + i)%nat = Some (binding (wEnv w) (settle (synced w a)) k).
Proof.
  intros Hs Hp Hrest Hr Hi Hlen. destruct (bulk_spec w vars 0 maxRepetitions a Hs) as (b & _ & E1).
  rewrite Hp in E1. injection E1 as E1 _. rewrite Z.max_l in E1 by lia. change (Z.to_nat 0) with O in E1.
  rewrite take_0, drop_0 in E1. cbn [map app length] in E1.
  destruct (fill_prefix (negb (bool_decide (0%nat = 0%nat))) MaxBulkResponseBytes
    (rowMajor (Z.to_nat maxRepetitions) (map (fun v => column (wEnv w) (settle (synced w a)) (Z.to_nat maxRepetitions) (pduName v)) vars))) as [j Hj].
  cbn [foldr] in E1. rewrite Z.sub_0_r, Hj in E1. subst response. rewrite length_take in Hlen.
  apply lookup_lt_is_Some_2 in Hi as [v Hv]. assert (v ∈ vars) as Hin by (by eapply list_elem_of_lookup_2).
  pose proof (Hrest v Hin) as Hv'. destruct (lookup_lt_is_Some_2 (rest (settle (synced w a)) (pduName v)) r) as [k Hk]; [lia|].
  exists v, k. split_and!; [done|done|]. rewrite lookup_take_lt by lia.
  pose proof (rowMajor_lookup (Z.to_nat maxRepetitions)
    (map (fun v => column (wEnv w) (settle (synced w a)) (Z.to_nat maxRepetitions) (pduName v)) vars) r i) as HL.
  rewrite !length_map in HL.
  assert (forall l : list cell, (fst <$> l) !! (r * length vars + i)%nat = fst <$> l !! (r * length vars + i)%nat) as Hf
    by (intros l; apply list_lookup_fmap).
  etrans; [apply Hf|]. rewrite HL; [| |done|by eapply lookup_lt_Some].
  - rewrite list_lookup_fmap, Hv. cbn. unfold column. rewrite lookup_app_l by (rewrite length_map, length_take; lia).
    rewrite list_lookup_fmap, lookup_take_lt, Hk by lia. done.
  - intros c (v' & -> & Hv'')%list_elem_of_fmap. unfold column. rewrite length_app, length_map, length_take. specialize (Hrest v' Hv''). lia.
Qed.

(** ** Walking with GET-BULK *)

(** A manager asks for what follows the last OID it got until it gets an end
    marker; [reps] is what it asks for in each turn. *)
Fixpoint bulkWalk (turns : nat) env (reps : nat -> Z) (oid : string) a : list SnmpPDU :=
  match turns with
  | O => []
  | S turns =>
      match processGetBulk (mkWorld env []) [mkPDU oid 0 None] 0 (reps turns) a with
      | None => []
      | Some (response, a) =>
          let got := filter (fun p => pduType p <> EndOfMibView) response in
          match last response with
          | Some p => if pduType p =? EndOfMibView then got else got ++ bulkWalk turns env reps (pduName p) a
          | None => []
          end
      end
  end.

Lemma rest_drop env a oid j k :
  servable env a -> mbDirty (agMib a) = false -> rest a oid !! j = Some k -> rest a k = drop (S j) (rest a oid).
Proof.
  intros Hs Hd. revert oid. induction j as [|j IH]; intros oid Hk;
    pose proof (next_rest env a oid Hs Hd) as (_ & _ & Hr); destruct (rest a oid) as [|x l]; try done.
  - injection Hk as ->. rewrite Hr. cbn. by rewrite drop_0.
  - cbn in Hk. rewrite <- Hr in Hk. rewrite (IH x Hk), Hr. done.
Qed.

Lemma rowMajor_one {A} n (c : list A) : (length c <= n)%nat -> rowMajor n [c] = c.
Proof.
  revert c. induction n as [|n IH]; intros c Hc; [destruct c; [done|cbn in Hc; lia]|]. rewrite rowMajor_S. destruct c as [|x c]; cbn.
  - apply rowMajor_empty. by repeat constructor.
  - rewrite IH; [done|cbn in Hc; lia].
Qed.

Lemma column_length env a n oid : (length (column env a n oid) <= n)%nat.
Proof.
  unfold column. rewrite length_app, length_map, length_take. destruct (decide _); cbn; lia.
Qed.

(** Cutting a column leaves some of its entries, or all of them and the marker. *)
Lemma fill_column env a n oid started budget :
  let l := rest a oid in
  (exists j, (j <= length l)%nat /\ (started = false -> l <> [] -> (0 < n)%nat -> (0 < j)%nat) /\ (l = [] -> n = O) /\
    fill started budget (column env a n oid) = map (binding env a) (take j l)) \/
  (length l < n)%nat /\ exists p, pduType p = EndOfMibView /\ fill started budget (column env a n oid) = map (binding env a) l ++ [p].
Proof.
  intros l. unfold column. fold l. destruct (decide (length l < n)%nat) as [Hn|Hn].
  - rewrite take_ge by lia.
    assert (forall started budget q,
      (exists j, (j <= length l)%nat /\ (started = false -> l <> [] -> (0 < j)%nat) /\ (l <> []) /\
        fill started budget (map (bindingCell env a) l ++ [endCell q]) = map (binding env a) (take j l)) \/
      fill started budget (map (bindingCell env a) l ++ [endCell q]) = map (binding env a) l ++ [mkPDU q EndOfMibView None]) as H.
    { clear. induction l as [|k l IH]; intros started budget q; [by right|]. unfold fill in *. cbn [map app].
      set (size := estimateVarbindSize k (valueOf env a k)).
      change (bindingCell env a k) with (binding env a k, Some size). cbn [fillFrom].
      destruct started eqn:Est; cbn [andb].
      1: destruct (budget <? size); [left; exists O; split_and!; [lia|done|done|done]|].
      all: destruct (IH true (budget - size) q) as [(j & Hj & _ & _ & E1)|E1]; destruct (fillFrom true (budget - size) _); cbn in *.
      1,3: left; exists (S j); cbn; split_and!; [lia|lia|done|by rewrite E1].
      all: right; by rewrite E1. }
    destruct (H started budget (default oid (last l))) as [(j & H1 & H2 & H3 & H4)|H4].
    + left. exists j. split_and!; [done|intros; by apply H2|done|done].
    + right. split; [done|]. eexists. by split; [|exact H4].
  - left. rewrite app_nil_r.
    assert (forall started budget m, exists j, (j <= length m)%nat /\ (started = false -> m <> [] -> (0 < j)%nat) /\
      fill started budget (map (bindingCell env a) m) = map (binding env a) (take j m)) as H.
    { clear. intros started budget m. revert started budget. induction m as [|k m IH]; intros started budget; [by exists O|].
      unfold fill in *. cbn [map].
      set (size := estimateVarbindSize k (valueOf env a k)).
      change (bindingCell env a k) with (binding env a k, Some size). cbn [fillFrom]. destruct started eqn:Est; cbn [andb].
      1: destruct (budget <? size); [exists O; split_and!; [lia|done|done]|].
      all: destruct (IH true (budget - size)) as (j & Hj & _ & E1); destruct (fillFrom true (budget - size) _); cbn in *.
      all: exists (S j); cbn; split_and!; [lia|lia|by rewrite E1]. }
    destruct (H started budget (take n l)) as (j & H1 & H2 & H3). rewrite length_take in H1. exists j. split_and!.
    + lia.
    + intros Hst Hl Hn0. apply H2; [done|]. destruct l, n; try done. lia.
    + intros Hl. rewrite Hl in Hn. cbn in Hn. lia.
    + rewrite H3, take_take. f_equal. f_equal. lia.
Qed.

Lemma bulk_one env reps oid a :
  servable env a -> 1 <= reps ->
  exists a', settle a' = settle a /\
  processGetBulk (mkWorld env []) [mkPDU oid 0 None] 0 reps a =
    Some (fill false MaxBulkResponseBytes (column env (settle a) (Z.to_nat reps) oid), a').
Proof.
  intros Hs Hr. assert (synced (mkWorld env []) a = a) as Ea by (by destruct a).
  destruct (bulk_spec (mkWorld env []) [mkPDU oid 0 None] 0 reps a) as (a' & Ha & E1); [by rewrite Ea|].
  rewrite Ea in *. exists a'. split; [done|]. rewrite E1.
  change (Z.to_nat (Z.max 0 (Z.min 0 (Z.of_nat (length [mkPDU oid 0 None]))))) with O.
  rewrite take_0, drop_0. cbn [map app length foldr pduName wEnv]. rewrite Z.sub_0_r.
  by rewrite rowMajor_one by apply column_length.
Qed.

(** The table serves no value of the type that marks its end. *)
Definition unmarked env a : Prop := forall k, (valueOf env a k).1 <> EndOfMibView.

Lemma filter_bindings env a l :
  unmarked env a -> filter (fun p => pduType p <> EndOfMibView) (map (binding env a) l) = map (binding env a) l.
Proof. intros Hu. apply filter_id, Forall_map, Forall_forall. intros k _. apply Hu. Qed.

Lemma bulkWalk_rest turns env reps oid a :
  servable env a -> unmarked env (settle a) -> (forall t, 1 <= reps t) -> (length (rest (settle a) oid) < turns)%nat ->
  bulkWalk turns env reps oid a = map (binding env (settle a)) (rest (settle a) oid).
Proof.
  intros Hs Hu Hr. pose proof (servable_settle _ _ Hs) as Hb.
  assert (mbDirty (agMib (settle a)) = false) as Hd by apply (Reindex_clean _ (sv_ok _ _ Hs)).
  assert (forall k, (pduType (binding env (settle a) k) =? EndOfMibView) = false) as Hk by (intros k; by apply Z.eqb_neq, Hu).
  revert a oid Hs Hu Hb Hd Hk. induction turns as [|turns IH]; intros a oid Hs Hu Hb Hd Hk Hl; [lia|]. cbn [bulkWalk].
  destruct (bulk_one env (reps turns) oid a Hs (Hr turns)) as (a' & Ha & ->). specialize (Hr turns) as Hr1.
  destruct (fill_column env (settle a) (Z.to_nat (reps turns)) oid false MaxBulkResponseBytes)
    as [(j & Hj & Hj0 & Hn & ->)|(Hn & p & Hp & ->)].
  - rewrite filter_bindings by done. destruct (rest (settle a) oid) as [|x l] eqn:El; [specialize (Hn eq_refl); lia|].
    specialize (Hj0 eq_refl ltac:(done) ltac:(lia)). destruct j as [|j]; [lia|]. rewrite <- El in *.
    destruct (lookup_lt_is_Some_2 (rest (settle a) oid) j) as [k Hkj]; [lia|].
    rewrite (take_S_r _ _ k) by done. rewrite map_app. cbn [map]. rewrite last_snoc, Hk.
    assert (servable env a') as Hs' by (by apply (servable_unsettle env a'); rewrite Ha).
    rewrite IH; [|..]; rewrite ?Ha; try done.
    + cbn [binding pduName]. rewrite (rest_drop env (settle a) oid j k) by done.
      change [binding env (settle a) k] with (map (binding env (settle a)) [k]). rewrite <- !map_app, <- (take_S_r _ _ k) by done. by rewrite take_drop.
    + cbn [binding pduName]. rewrite (rest_drop env (settle a) oid j k) by done. rewrite length_drop. lia.
  - rewrite filter_app, filter_bindings, last_snoc by done. rewrite Hp, Z.eqb_refl, filter_cons, decide_False by (by intros []).
    by rewrite app_nil_r.
Qed.

(** Walking a table with GET-BULK is complete, whatever each turn asks for
    and wherever a datagram is cut: the manager gets every entry once, in arc
    order, with its value, and then the end. *)
Theorem bulk_walk_complete turns env reps a :
  servable env a -> unmarked env (settle a) -> (forall t, 1 <= reps t) -> (size (mbEntries (agMib a)) < turns)%nat ->
  let got := bulkWalk turns env reps "" a in
  map pduName got ≡ₚ keys (agMib a) /\ StronglySorted oidLt (map pduName got) /\
  forall p, p ∈ got -> exists entry, mbEntries (agMib a) !! pduName p = Some entry /\
    readValue (env, agStats a) entry = Some (pduType p, pduValue p).
Proof.
  intros Hs Hu Hr Ht got. pose proof (servable_settle _ _ Hs) as Hb.
  destruct (Reindex_clean _ (sv_ok _ _ Hs)) as (E1 & Hd & Hp & _).
  assert (rest (settle a) "" = mbSorted (agMib (settle a))) as Er.
  { unfold rest. apply filter_id, Forall_forall. intros k Hk. cbn in Hk. rewrite Hp in Hk.
    pose proof (sv_arcs _ _ Hs k Hk) as Hne. unfold oidLt, compareOIDs. change (parseOIDParts "") with (@nil Z).
    by destruct (parseOIDParts k). }
  assert (got = map (binding env (settle a)) (mbSorted (agMib (settle a)))) as ->.
  { rewrite <- Er. apply bulkWalk_rest; [done..|]. rewrite Er. cbn. rewrite Hp. unfold keys.
    by rewrite length_fmap, length_map_to_list. }
  rewrite map_map. cbn [binding pduName]. rewrite map_id. cbn. split_and!.
  - exact Hp.
  - by apply (sorted_strictly env (settle a)).
  - intros p (k & -> & Hk)%list_elem_of_fmap. cbn in Hk. rewrite Hp in Hk. apply elem_of_keys in Hk as [entry He].
    exists entry. cbn [binding pduName pduType pduValue]. split; [done|]. pose proof (sv_value _ _ Hs k entry He) as Hv.
    unfold valueOf, settle. cbn. rewrite E1, He. cbn. destruct (readValue (env, agStats a) entry) as [[t v]|]; done.
Qed.

(** A column that has ended leaves later rows short: with two variables of which
    the first has nothing after it, the third binding, where position says the
    first column's second row is, belongs to the second column. *)
Theorem bulk_row_shifts w v1 v2 maxRepetitions a k1 k2 l :
  servable (wEnv w) (synced w a) -> 2 <= maxRepetitions ->
  let b := settle (synced w a) in
  rest b (pduName v1) = [] -> rest b (pduName v2) = k1 :: k2 :: l ->
  estimateVarbindSize k1 (valueOf (wEnv w) b k1) + estimateVarbindSize k2 (valueOf (wEnv w) b k2) <= MaxBulkResponseBytes ->
  exists response a', processGetBulk w [v1; v2] 0 maxRepetitions a = Some (response, a') /\
    take 3 response = [mkPDU (pduName v1) EndOfMibView None; binding (wEnv w) b k1; binding (wEnv w) b k2].
Proof.
  intros Hs Hm b H1 H2 Hsize. destruct (bulk_spec w [v1; v2] 0 maxRepetitions a Hs) as (a' & _ & E1).
  eexists _, a'. split; [exact E1|]. fold b.
  change (Z.to_nat (Z.max 0 (Z.min 0 (Z.of_nat (length [v1; v2]))))) with O.
  rewrite take_0, drop_0. cbn [map app length foldr]. rewrite Z.sub_0_r.
  destruct (Z.to_nat maxRepetitions) as [|[|n]] eqn:En; [lia|lia|].
  unfold column. rewrite H1, H2. cbn [take map app length]. rewrite decide_True by lia.
  pose proof (estimate_pos k1 (valueOf (wEnv w) b k1)). pose proof (estimate_pos k2 (valueOf (wEnv w) b k2)).
  rewrite 2!rowMajor_S. cbn [omap list_omap head map tail app last default from_option].
  unfold fill, MaxBulkResponseBytes in *. cbn [fillFrom endCell bindingCell andb].
  change (negb (bool_decide (0%nat = 0%nat))) with false. cbn [fillFrom endCell bindingCell andb].
  destruct (Z.ltb_spec 1400 (estimateVarbindSize k1 (valueOf (wEnv w) b k1))); [lia|].
  destruct (Z.ltb_spec (1400 - estimateVarbindSize k1 (valueOf (wEnv w) b k1)) (estimateVarbindSize k2 (valueOf (wEnv w) b k2))); [lia|].
  by destruct (fillFrom true _ _).
Qed.

(** ** Writing *)

(** What one variable of a SET asks for: the new value of the one writable
    object, or the error it gets. *)
Definition writeOf (v : SnmpPDU) : Z + WriteErr :=
  if bool_decide (trimDot (pduName v) = enableAuthenTrapsOID) then
    match snmpInteger (pduValue v) with
    | Some n => if (n =? authenticationTrapsOn) || (n =? authenticationTrapsOff) then inl n else inr ErrInvalidValue
    | None => inr ErrInvalidValue
    end
  else inr ErrNotWritable.

Definition accepted (vars : list SnmpPDU) : list Z :=
  omap (fun v => match writeOf v with inl n => Some n | inr _ => None end) vars.

(** The status of the first variable that fails, and its number. *)
Fixpoint firstRefused (i : Z) (vars : list SnmpPDU) : SNMPError * Z :=
  match vars with
  | [] => (NoError, 0)
  | v :: vars =>
      match writeOf v with
      | inl _ => firstRefused (i + 1) vars
      | inr err => (if bool_decide (err = ErrNotWritable) then NotWritable else BadValue, uint8 (i + 1))
      end
  end.

Definition written (vars : list SnmpPDU) (traps : Z) : Z := default traps (last (accepted vars)).

Lemma writeOID_spec v a :
  writeOID (pduName v) (pduType v, pduValue v) a =
  match writeOf v with
  | inl n => Some (None, a <| agStats := agStats a <| enableAuthenTraps := n |> |>)
  | inr err => Some (Some err, a)
  end.
Proof.
  unfold writeOID, writeOf. destruct (bool_decide (trimDot (pduName v) = enableAuthenTrapsOID)); [|done]. cbn [negb].
  unfold setEnableAuthenTraps. cbn [snd]. destruct (snmpInteger (pduValue v)) as [n|]; [|done].
  destruct (Z.eqb_spec n authenticationTrapsOn) as [->|]; [done|].
  destruct (Z.eqb_spec n authenticationTrapsOff) as [->|]; done.
Qed.

Lemma setLoop_spec i vars response status index a :
  setLoop i vars response status index a =
  Some ((response ++ vars, if bool_decide (status = NoError) then (firstRefused i vars).1 else status,
         if bool_decide (status = NoError) then
           (if bool_decide ((firstRefused i vars).1 = NoError) then index else (firstRefused i vars).2) else index),
        a <| agStats := agStats a <| enableAuthenTraps := written vars (enableAuthenTraps (agStats a)) |> |>).
Proof.
  revert i response status index a. induction vars as [|v vars IH]; intros i response status index a.
  { cbn. rewrite app_nil_r. destruct (bool_decide_reflect (status = NoError)) as [->|]; by destruct a as [? ? []]. }
  cbn [setLoop firstRefused]. unfold mbind, Handler_bind. rewrite writeOID_spec. unfold written, accepted. cbn [omap list_omap].
  destruct (writeOf v) as [n|err].
  - rewrite IH, <- app_assoc. cbn [app]. unfold written, accepted. rewrite last_cons. cbn.
    destruct (last (omap _ vars)); done.
  - destruct (bool_decide_reflect (status = NoError)) as [->|Hst].
    + rewrite IH, <- app_assoc. cbn [app]. cbn [fst snd]. rewrite (bool_decide_false ((if bool_decide (err = ErrNotWritable) then NotWritable else BadValue) = NoError)) by (by case_bool_decide).
      done.
    + rewrite IH, <- app_assoc. cbn [app]. by rewrite bool_decide_false by done.
Qed.

Lemma firstRefused_none i vars : (firstRefused i vars).1 = NoError -> (firstRefused i vars).2 = 0.
Proof.
  revert i. induction vars as [|v vars IH]; intros i; cbn; [done|].
  destruct (writeOf v) as [n|[]]; [apply IH|done|done].
Qed.

(** A SET is answered with the request's variables and the error of its
    first refused variable, numbered modulo 256; nothing but the one writable
    object can change.  It is not atomic: the object takes the last acceptable
    value of the request, refused or not. *)
Theorem set_outcome world request a :
  srType request = SetRequest ->
  let vars := srVariables request in
  let '(status, index) := firstRefused 0 vars in
  let stats := recordInboundPDU SetRequest (Z.of_nat (length vars)) (agStats a) in
  ProcessRequest world request a =
    Some ((vars, setErrorForVersion status (srVersion request), index),
          a <| agStats := stats <| enableAuthenTraps := written vars (enableAuthenTraps (agStats a)) |> |>) /\
  (status = NoError <-> Forall (fun v => exists n, writeOf v = inl n) vars).
Proof.
  intros Ht vars. destruct (firstRefused 0 vars) as [status index] eqn:Ef. intros stats. split.
  - unfold ProcessRequest. rewrite Ht. unfold mbind, Handler_bind, updateStats, processSetRequest. fold vars. rewrite setLoop_spec.
    rewrite Ef. cbn [fst snd app]. rewrite bool_decide_true by done. unfold mret, Handler_ret.
    assert ((if bool_decide (status = NoError) then 0 else index) = index) as ->.
    { case_bool_decide as H; [|done]. pose proof (firstRefused_none 0 vars) as Hn. rewrite Ef in Hn. symmetry. by apply Hn. }
    done.
  - clear -Ef. revert Ef. generalize 0 as i. induction vars as [|v vars IH]; intros i Ef; cbn in Ef.
    + injection Ef as <- <-. split; [by constructor|done].
    + rewrite Forall_cons. destruct (writeOf v) as [n|err] eqn:Ew.
      * rewrite (IH _ Ef). split; [intros H; split; [by exists n|done]|by intros [_ ?]].
      * injection Ef as <- <-. split; [by case_bool_decide|]. by intros [[n ?] _].
Qed.
End agent.

(** ** An agent with a table of two columns *)

Definition agentOps : list (@mibOp Payload (unit * snmpStats)) :=
  [MibSet "1.3.6.1.2.1.2.2.1.2.1" (mkOIDValue OctetString (Some (PString "ge-0")) None);
   MibSet "1.3.6.1.2.1.2.2.1.2.2" (mkOIDValue OctetString (Some (PString "ge-1")) None);
   MibSet "1.3.6.1.2.1.2.2.1.8.1" (mkOIDValue Integer (Some (PInt 1)) None);
   MibSetDynamic "1.3.6.1.2.1.2.2.1.8.2" (fun _ => Some (Integer, Some (PInt 2)))].

Definition testAgent : Agent unit := mkAgent (foldl mibStep NewMIB agentOps) "public" zeroStats.
Definition testWorld : World unit := mkWorld tt [].

Lemma testAgent_keys :
  keys (agMib testAgent) ≡ₚ
  ["1.3.6.1.2.1.2.2.1.2.1"; "1.3.6.1.2.1.2.2.1.2.2"; "1.3.6.1.2.1.2.2.1.8.1"; "1.3.6.1.2.1.2.2.1.8.2"]%string.
Proof. apply (bool_decide_unpack _). vm_compute. exact I. Qed.

Lemma testAgent_value k v : mbEntries (agMib testAgent) !! k = Some v -> exists n, readValue (tt, agStats testAgent) v = Some n /\ n.1 <> EndOfMibView.
Proof.
  assert (k ∈ keys (agMib testAgent) -> mbEntries (agMib testAgent) !! k = Some v ->
    exists n, readValue (tt, agStats testAgent) v = Some n /\ n.1 <> EndOfMibView) as H.
  { intros Hk. rewrite testAgent_keys, !elem_of_cons in Hk.
    destruct Hk as [->|[->|[->|[->|[]%elem_of_nil]]]]; intros Hv; vm_compute in Hv; injection Hv as <-;
      eexists; (split; [reflexivity|]); discriminate. }
  intros Hv. apply H; [|done]. apply elem_of_keys. by exists v.
Qed.

Lemma testAgent_servable : servable tt testAgent.
Proof.
  constructor.
  - apply mib_reachable.
  - intros k k' Hk Hk'. rewrite testAgent_keys in Hk, Hk'. rewrite !elem_of_cons in Hk, Hk'.
    destruct Hk as [->|[->|[->|[->|[]%elem_of_nil]]]], Hk' as [->|[->|[->|[->|[]%elem_of_nil]]]];
      first [reflexivity|intros H; vm_compute in H; discriminate H].
  - intros k Hk. rewrite testAgent_keys, !elem_of_cons in Hk.
    destruct Hk as [->|[->|[->|[->|[]%elem_of_nil]]]]; intros H; vm_compute in H; discriminate H.
  - intros k v Hv. destruct (testAgent_value k v Hv) as (n & -> & _). done.
Qed.

Lemma testAgent_synced : synced testWorld testAgent = testAgent.
Proof. reflexivity. Qed.

Lemma bulk_reference_witness :
  servable tt (synced testWorld testAgent) /\
  exists response a', processGetBulk testWorld [mkPDU "1.3.6.1.2.1.2.2.1.2" 0 None; mkPDU "1.3.6.1.2.1.2.2.1.8" 0 None] 0 2 testAgent
    = Some (response, a') /\ totalSize response <= MaxBulkResponseBytes.
Proof.
  assert (servable (wEnv testWorld) (synced testWorld testAgent)) as H by exact testAgent_servable. split; [exact H|].
  destruct (bulk_reference testWorld [mkPDU "1.3.6.1.2.1.2.2.1.2" 0 None; mkPDU "1.3.6.1.2.1.2.2.1.8" 0 None] 0 2 testAgent H)
    as (response & a' & H1 & _ & _ & H2).
  exists response, a'. split; [exact H1|]. destruct (H2 eq_refl) as [H3|(p & size & H3 & H4 & _)]; [exact H3|].
  vm_compute in H3. injection H3 as _ <-. vm_compute in H4. discriminate H4.
Defined.

Lemma bulk_rows_witness :
  exists v k, [mkPDU "1.3.6.1.2.1.2.2.1.2" 0 None; mkPDU "1.3.6.1.2.1.2.2.1.8" 0 None] !! 1%nat = Some v /\
    rest (settle (synced testWorld testAgent)) (pduName v) !! 1%nat = Some k /\
    k = "1.3.6.1.2.1.2.2.1.8.2"%string.
Proof.
  assert (servable (wEnv testWorld) (synced testWorld testAgent)) as H by exact testAgent_servable.
  destruct (processGetBulk testWorld [mkPDU "1.3.6.1.2.1.2.2.1.2" 0 None; mkPDU "1.3.6.1.2.1.2.2.1.8" 0 None] 0 2 testAgent)
    as [[response a']|] eqn:E1; [|vm_compute in E1; discriminate E1].
  assert (length response = 4%nat) as Hl by (vm_compute in E1; injection E1 as <- _; reflexivity).
  destruct (bulk_rows testWorld _ 2 testAgent response a' 1 1 H E1) as (v & k & Hv & Hk & _).
  - intros v. rewrite !elem_of_cons, elem_of_nil. intros [->|[->|[]]]; vm_compute; lia.
  - vm_compute; lia.
  - vm_compute; lia.
  - rewrite Hl. vm_compute; lia.
  - exists v, k. split; [exact Hv|]. split; [exact Hk|]. cbn in Hv. injection Hv as <-. vm_compute in Hk. by injection Hk as <-.
Defined.

Lemma bulk_walk_complete_witness :
  map pduName (bulkWalk 5 tt (fun _ => 3) "" testAgent) ≡ₚ keys (agMib testAgent).
Proof.
  apply (bulk_walk_complete 5 tt (fun _ => 3) testAgent).
  - exact testAgent_servable.
  - intros k.
    assert (valueOf tt (settle testAgent) k =
      default (0, None) (mbEntries (agMib testAgent) !! k ≫= readValue (tt, agStats testAgent))) as -> by reflexivity.
    destruct (mbEntries (agMib testAgent) !! k) as [v|] eqn:E1; [|intros H; vm_compute in H; discriminate H].
    destruct (testAgent_value k v E1) as (n & Hn & Hne). cbv [mbind option_bind]. rewrite Hn. exact Hne.
  - lia.
  - vm_compute. lia.
Defined.

(** A SET of the writable object, of a name and of the object again. *)
Definition testSet : SnmpRequest :=
  mkSnmpRequest Version2c "public" SetRequest NoError 0 0
    [mkPDU ".1.3.6.1.2.1.11.30.0" Integer (Some (PInt 1)); mkPDU "1.3.6.1.2.1.1.5.0" OctetString (Some (PString "x"))].

Lemma set_outcome_witness :
  srType testSet = SetRequest /\
  exists a', ProcessRequest (fun _ => testWorld) testSet testAgent = Some ((srVariables testSet, NotWritable, 2), a') /\
    enableAuthenTraps (agStats a') = 1 /\ enableAuthenTraps (agStats testAgent) = 0.
Proof.
  assert (srType testSet = SetRequest) as H by reflexivity. split; [exact H|].
  destruct (set_outcome (fun _ => testWorld) testSet testAgent H) as [H1 _].
  eexists. split; [exact H1|]. split; reflexivity.
Defined.
