(* ===== verification/V3.v ===== *)
(** * The SNMPv3 engine

    [protocols/snmp/v3.go] and [protocols/snmp/v3_message.go]: the header of a
    v3 datagram, the checks of the user-based security model in their order, and
    the answers.  What gosnmp and the hash functions do is a parameter: the key a
    passphrase localizes to, the keyed digest, reading the scoped PDU and
    encoding an answer. *)

From S2P Require Import Prelude.
From S2P Require Import Bytes.
From S2P Require Import Oid.
From S2P Require Import DeviceTypes.
From S2P Require Import Mib.
From S2P Require Import Agent.
From S2P Require Import AgentTheorems.

(** ** BER *)

Definition berLongFormFlag : Z := 0x80.
Definition berMaxLenOctets : Z := 4.

(** A run of elements: where it starts in the datagram, its bytes, and whether
    reading it failed. *)
Record berReader := mkBer { brStart : nat; brBytes : list Z; brErr : bool }.

Definition berFailed : berReader := mkBer 0 [] true.
Definition berFail (r : berReader) : berReader * berReader := (berFailed, mkBer (brStart r) (brBytes r) true).

(** Big-endian octets, as Go shifts them into an [int]. *)
Definition beInt (octets : list Z) : Z := foldl (fun n o => Z.lor (Z.shiftl n 8) o) 0 octets.

(** [next]: the value's reader, and the reader after it. *)
Definition berNext (tag : Z) (r : berReader) : berReader * berReader :=
  if brErr r then (berFailed, r)
  else
    match brBytes r with
    | t :: l :: rest =>
        if negb (tag =? 0) && negb (t =? tag) then berFail r
        else
          let octets := Z.land l 0x7f in
          let long := negb (Z.land l berLongFormFlag =? 0) in
          if long && ((octets =? 0) || (berMaxLenOctets <? octets) || (Z.of_nat (length rest) <? octets)) then berFail r
          else
            let lenOctets := if long then Z.to_nat octets else O in
            let length_ := if long then beInt (take lenOctets rest) else l in
            let body := drop lenOctets rest in
            if Z.of_nat (length body) <? length_ then berFail r
            else
              let n := Z.to_nat length_ in
              let start := (brStart r + 2 + lenOctets)%nat in
              (mkBer start (take n body) false, mkBer (start + n) (drop n body) false)
    | _ => berFail r
    end.

Definition berUint32 (r : berReader) : Z * berReader :=
  let '(v, r) := berNext Integer r in
  let r := if negb (brErr v) && ((length (brBytes v) =? 0)%nat || (5 <? length (brBytes v))%nat)
           then mkBer (brStart r) (brBytes r) true else r in
  if brErr r then (0, r)
  else (foldl (fun n o => Z.lor (uint32 (Z.shiftl n 8)) o) 0 (brBytes v), r).

(** ** The cleartext of a datagram *)

Definition NoAuthNoPriv : Z := 0.
Definition AuthNoPriv : Z := 1.
Definition AuthPriv : Z := 3.
Definition Reportable : Z := 4.
Definition UserSecurityModel : Z := 3.
Definition sequenceTag : Z := 0x30.

(** The authentication parameters are a slice of [raw]. *)
Record v3Message := mkV3Message {
  vmMsgID : Z; vmMaxSize : Z; vmFlags : Z; vmEngineID : list Z; vmUserName : list Z;
  vmAuthStart : nat; vmAuthParams : list Z; vmContextName : list Z; vmRequestID : Z; vmRaw : list Z
}.

(** The scoped PDU of a plaintext message: its context name and request id. *)
Definition parseScoped (msg : berReader) : list Z * Z :=
  let '(scoped, msg) := berNext sequenceTag msg in
  let '(_, scoped) := berNext OctetString scoped in
  let '(contextName, scoped) := berNext OctetString scoped in
  let '(pdu, scoped) := berNext 0 scoped in
  let '(requestID, pdu) := berUint32 pdu in
  if negb (brErr pdu) && negb (brErr scoped) && negb (brErr msg) && negb (brErr contextName)
  then (brBytes contextName, requestID) else ([], 0).

Definition parseV3Message (req : list Z) : option v3Message :=
  let '(msg, outer) := berNext sequenceTag (mkBer 0 req false) in
  let '(_, msg) := berNext Integer msg in
  let '(hdr, msg) := berNext sequenceTag msg in
  let '(msgID, hdr) := berUint32 hdr in
  let '(maxSize, hdr) := berUint32 hdr in
  let '(flags, hdr) := berNext OctetString hdr in
  let '(model, hdr) := berUint32 hdr in
  let '(sec, msg) := berNext OctetString msg in
  let '(usm, sec) := berNext sequenceTag sec in
  let '(engineID, usm) := berNext OctetString usm in
  let '(_, usm) := berNext Integer usm in
  let '(_, usm) := berNext Integer usm in
  let '(userName, usm) := berNext OctetString usm in
  let '(authParams, usm) := berNext OctetString usm in
  if brErr outer || brErr msg || brErr hdr || brErr sec || brErr usm then None
  else
    match brBytes flags with
    | [f] =>
        if negb (model =? UserSecurityModel) then None
        else
          let '(contextName, requestID) :=
            if negb (Z.land f AuthPriv =? AuthPriv) then parseScoped msg else ([], 0) in
          Some (mkV3Message msgID maxSize f (brBytes engineID) (brBytes userName)
                  (brStart authParams) (brBytes authParams) contextName requestID req)
    | _ => None
    end.

(** ** Users and the engine *)

Inductive AuthProtocol := NoAuth | MD5 | SHA | SHA224 | SHA256 | SHA384 | SHA512.
Inductive PrivProtocol := NoPriv | DES | AES | AES192 | AES256.

#[export] Instance AuthProtocol_eq_dec : EqDecision AuthProtocol.
Proof. solve_decision. Defined.
#[export] Instance PrivProtocol_eq_dec : EqDecision PrivProtocol.
Proof. solve_decision. Defined.

Definition macLen (proto : AuthProtocol) : nat :=
  match proto with
  | NoAuth => 0 | MD5 | SHA => 12 | SHA224 => 16 | SHA256 => 24 | SHA384 => 32 | SHA512 => 48
  end.

(** [config.SNMPv3User], its protocol names already lowered and trimmed. *)
Record SNMPv3User := mkSNMPv3User {
  snUsername : list Z; snAuthProtocol : string; snAuthPassword : list Z; snPrivProtocol : string; snPrivPassword : list Z
}.

Record v3User := mkV3User {
  vuName : list Z; vuAuthProto : AuthProtocol; vuAuthPass : list Z; vuPrivProto : PrivProtocol; vuPrivPass : list Z;
  vuMsgFlags : Z; vuAuthKey : option (list Z)
}.
#[export] Instance v3User_rebuild : Rebuild v3User := fun u =>
  mkV3User (vuName u) (vuAuthProto u) (vuAuthPass u) (vuPrivProto u) (vuPrivPass u) (vuMsgFlags u) (vuAuthKey u).

Definition mapAuthProtocol (name : string) : option AuthProtocol :=
  if bool_decide (name = "") || bool_decide (name = "none") then Some NoAuth
  else if bool_decide (name = "md5") then Some MD5
  else if bool_decide (name = "sha") || bool_decide (name = "sha1") then Some SHA
  else if bool_decide (name = "sha224") then Some SHA224
  else if bool_decide (name = "sha256") then Some SHA256
  else if bool_decide (name = "sha384") then Some SHA384
  else if bool_decide (name = "sha512") then Some SHA512
  else None.

Definition mapPrivProtocol (name : string) : option PrivProtocol :=
  if bool_decide (name = "") || bool_decide (name = "none") then Some NoPriv
  else if bool_decide (name = "des") then Some DES
  else if bool_decide (name = "aes") || bool_decide (name = "aes128") then Some AES
  else if bool_decide (name = "aes192") then Some AES192
  else if bool_decide (name = "aes256") then Some AES256
  else None.

Definition resolveUser (u : SNMPv3User) : option v3User :=
  match mapAuthProtocol (snAuthProtocol u), mapPrivProtocol (snPrivProtocol u) with
  | Some authProto, Some privProto =>
      let auth := negb (bool_decide (authProto = NoAuth)) in
      let priv := negb (bool_decide (privProto = NoPriv)) in
      let flags := if auth && priv then AuthPriv else if auth then AuthNoPriv else NoAuthNoPriv in
      if priv && negb auth then None
      else Some (mkV3User (snUsername u) authProto (snAuthPassword u) privProto (snPrivPassword u) flags None)
  | _, _ => None
  end.

(** The six refusals that are counted and reported. *)
Inductive UsmStat :=
| UnsupportedSecLevels | NotInTimeWindows | UnknownUserNames | UnknownEngineIDs | WrongDigests | DecryptionErrors.

#[export] Instance UsmStat_eq_dec : EqDecision UsmStat.
Proof. solve_decision. Defined.

Definition statOID (stat : UsmStat) : string :=
  match stat with
  | UnsupportedSecLevels => ".1.3.6.1.6.3.15.1.1.1.0"
  | NotInTimeWindows => ".1.3.6.1.6.3.15.1.1.2.0"
  | UnknownUserNames => ".1.3.6.1.6.3.15.1.1.3.0"
  | UnknownEngineIDs => ".1.3.6.1.6.3.15.1.1.4.0"
  | WrongDigests => ".1.3.6.1.6.3.15.1.1.5.0"
  | DecryptionErrors => ".1.3.6.1.6.3.15.1.1.6.0"
  end.

Record V3Engine := mkV3Engine {
  veEngineID : list Z; veBoots : Z; veBootTime : Time; veUsers : gmap (list Z) v3User; veCounter : UsmStat -> Z
}.

Definition engineTimeWrap : Z := 2147483648.
Definition timeWindowSecs : Z := 150.
Definition engineIDMinLen : nat := 5.
Definition niacEngineFormatMAC : Z := 0x03.
Definition snmpMACLen : nat := 6.

(** [hex.DecodeString] of the configured ID has been applied; none configured
    derives the ID from the device's MAC address. *)
Definition resolveEngineID (configured : option (list Z)) (mac : list Z) : option (list Z) :=
  match configured with
  | Some raw => if bool_decide (length raw < engineIDMinLen)%nat then None else Some raw
  | None =>
      Some ([0x80; 0x00; 0x4e; 0x1a; niacEngineFormatMAC] ++
            (if bool_decide (length mac = snmpMACLen) then mac else [0; 0; 0; 0; 0; 0]))
  end.

(** ** Requests *)

(** What gosnmp reads from a datagram, and what it encodes in an answer. *)
Record V3Packet := mkV3Packet {
  vpType : PDUType; vpVariables : list SnmpPDU; vpNonRepeaters : Z; vpMaxRepetitions : Z;
  vpMsgID : Z; vpRequestID : Z; vpMaxSize : Z; vpContextName : list Z; vpUsm : option (Z * Z)
}.

Record V3Reply := mkV3Reply {
  vrType : PDUType; vrFlags : Z; vrUser : option v3User; vrMsgID : Z; vrRequestID : Z; vrMaxSize : Z;
  vrContextName : list Z; vrError : SNMPError; vrEngineID : list Z; vrBoots : Z; vrTime : Z; vrVariables : list SnmpPDU
}.

Section v3.
Context {E : Type}.

(** Keys, digests and the codec. *)
Variable localize : AuthProtocol -> list Z -> list Z -> option (list Z).
Variable hmac : AuthProtocol -> list Z -> list Z -> list Z.
Variable decode : V3Engine -> list Z -> option V3Packet.

Definition engineTime (now : Time) (e : V3Engine) : Z := Z.quot (now - veBootTime e) (10 ^ 9) mod engineTimeWrap.

Fixpoint resolveUsers (engineID : list Z) (users : list SNMPv3User) (known : gmap (list Z) v3User)
    : option (gmap (list Z) v3User) :=
  match users with
  | [] => Some known
  | u :: users =>
      match resolveUser u with
      | None => None
      | Some u =>
          if negb (bool_decide (vuAuthProto u = NoAuth)) then
            match localize (vuAuthProto u) (vuAuthPass u) engineID with
            | None => None
            | Some key => resolveUsers engineID users (<[vuName u := u <| vuAuthKey := Some key |>]> known)
            end
          else resolveUsers engineID users (<[vuName u := u]> known)
      end
  end.

(** An enabled configuration with users. *)
Definition NewV3Engine (configured : option (list Z)) (mac : list Z) (users : list SNMPv3User) (now : Time)
    : option V3Engine :=
  match resolveEngineID configured mac with
  | None => None
  | Some engineID =>
      match resolveUsers engineID users ∅ with
      | None => None
      | Some known => Some (mkV3Engine engineID 1 now known (fun _ => 0))
      end
  end.

(** The digest of the message with its own field zeroed. *)
Definition zeroedRaw (msg : v3Message) : list Z :=
  overwrite (vmRaw msg) (vmAuthStart msg) (replicate (length (vmAuthParams msg)) 0).

Definition authentic (msg : v3Message) (user : v3User) (key : list Z) : bool :=
  bool_decide (length (vmAuthParams msg) = macLen (vuAuthProto user)) &&
  bool_decide (take (length (vmAuthParams msg)) (hmac (vuAuthProto user) key (zeroedRaw msg)) = vmAuthParams msg).

Definition inTimeWindow (now : Time) (e : V3Engine) (usm : Z * Z) : bool :=
  if negb (usm.1 =? veBoots e) then false
  else Z.abs (engineTime now e - usm.2) <=? timeWindowSecs.

Definition marshalPacket (now : Time) (e : V3Engine) (req : V3Packet) (user : option v3User) (pduType : PDUType) (level : Z)
    (vars : list SnmpPDU) : V3Reply :=
  mkV3Reply pduType (Z.land level (Z.lnot Reportable))
    (match user with Some u => if level =? NoAuthNoPriv then None else Some u | None => None end)
    (vpMsgID req) (vpRequestID req) (vpMaxSize req) (vpContextName req) NoError
    (veEngineID e) (veBoots e) (engineTime now e) vars.

Definition buildReport (now : Time) (e : V3Engine) (req : V3Packet) (stat : UsmStat) (count level : Z) (user : option v3User)
    : V3Reply :=
  marshalPacket now e req (if level =? NoAuthNoPriv then None else user) Report level
    [mkPDU (statOID stat) Counter32 (Some (PUint32 count))].

(** What a report about a message answers. *)
Definition reportTo (m : v3Message) : V3Packet :=
  mkV3Packet Report [] 0 0 (vmMsgID m) (vmRequestID m) (vmMaxSize m) (vmContextName m) None.

Definition countStat (stat : UsmStat) (e : V3Engine) : Z * V3Engine :=
  let count := addTo (veCounter e stat) 1 in
  (count, mkV3Engine (veEngineID e) (veBoots e) (veBootTime e) (veUsers e)
            (fun s => if bool_decide (s = stat) then count else veCounter e s)).

Definition report (now : Time) (e : V3Engine) (msg : v3Message) (stat : UsmStat) : option V3Reply * V3Engine :=
  let '(count, e) := countStat stat e in
  if Z.land (vmFlags msg) Reportable =? 0 then (None, e)
  else (Some (buildReport now e (reportTo msg) stat count NoAuthNoPriv None), e).

(** A request's answer, by the PDU handler of an agent. *)
Definition ProcessFunc : Type := PDUType -> list SnmpPDU -> Z -> Z -> Handler E (list SnmpPDU).

Definition respondToRequest (now : Time) (e : V3Engine) (req : V3Packet) (user : v3User) (process : ProcessFunc)
    : Handler E (option V3Reply * V3Engine) :=
  let answer :=
    respVars ← process (vpType req) (vpVariables req) (vpNonRepeaters req) (vpMaxRepetitions req);
    mret (Some (marshalPacket now e req (Some user) GetResponse (vuMsgFlags user) respVars), e) in
  if 0 <? Z.land (vuMsgFlags user) AuthNoPriv then
    match vpUsm req with
    | None => fun _ => None
    | Some usm =>
        if negb (inTimeWindow now e usm) then
          let '(count, e) := countStat NotInTimeWindows e in
          mret (Some (buildReport now e req NotInTimeWindows count (vuMsgFlags user) (Some user)), e)
        else answer
    end
  else answer.

(** No reply is a drop. *)
Definition Respond (now : Time) (req : list Z) (process : ProcessFunc) (e : V3Engine) : Handler E (option V3Reply * V3Engine) :=
  match parseV3Message req with
  | None => mret (None, e)
  | Some msg =>
      if bool_decide (vmEngineID msg = []) || bool_decide (vmUserName msg = []) ||
         negb (bool_decide (vmEngineID msg = veEngineID e)) then mret (report now e msg UnknownEngineIDs)
      else
        match veUsers e !! vmUserName msg with
        | None => mret (report now e msg UnknownUserNames)
        | Some user =>
            if negb (Z.land (vmFlags msg) AuthPriv =? vuMsgFlags user) then mret (report now e msg UnsupportedSecLevels)
            else if match vuAuthKey user with Some key => negb (authentic msg user key) | None => false end
                 then mret (report now e msg WrongDigests)
            else
              match decode e req with
              | None =>
                  if negb (bool_decide (vuPrivProto user = NoPriv)) then mret (report now e msg DecryptionErrors)
                  else mret (None, e)
              | Some decoded => respondToRequest now e decoded user process
              end
        end
  end.

End v3.

Section v3.
Context {E : Type}.
Variable localize : AuthProtocol -> list Z -> list Z -> option (list Z).
Variable hmac : AuthProtocol -> list Z -> list Z -> list Z.
Variable decode : V3Engine -> list Z -> option V3Packet.
Implicit Types (e : V3Engine) (a : Agent E) (process : @ProcessFunc E).

(** ** Users *)

(** A resolved user: a key exactly if it authenticates, localized to the engine,
    and the level its protocols say. *)
Definition userOk (engineID : list Z) (u : v3User) : Prop :=
  (vuAuthProto u = NoAuth -> vuAuthKey u = None /\ vuPrivProto u = NoPriv /\ vuMsgFlags u = NoAuthNoPriv) /\
  (vuAuthProto u <> NoAuth ->
    vuMsgFlags u = (if decide (vuPrivProto u = NoPriv) then AuthNoPriv else AuthPriv) /\
    exists key, vuAuthKey u = Some key /\ localize (vuAuthProto u) (vuAuthPass u) engineID = Some key).

Definition usersOk e : Prop := map_Forall (fun name u => vuName u = name /\ userOk (veEngineID e) u) (veUsers e).

Lemma resolveUser_level u v :
  resolveUser u = Some v -> vuAuthKey v = None /\ (vuAuthProto v = NoAuth -> vuPrivProto v = NoPriv) /\
  vuMsgFlags v = (if decide (vuAuthProto v = NoAuth) then NoAuthNoPriv
                  else if decide (vuPrivProto v = NoPriv) then AuthNoPriv else AuthPriv).
Proof.
  unfold resolveUser. destruct (mapAuthProtocol (snAuthProtocol u)) as [ap|]; [|done].
  destruct (mapPrivProtocol (snPrivProtocol u)) as [pp|]; [|done].
  destruct (bool_decide_reflect (ap = NoAuth)) as [->|Ha], (bool_decide_reflect (pp = NoPriv)) as [->|Hp]; cbn; try done;
    intros [= <-]; cbn; repeat case_decide; split_and!; done.
Qed.

Lemma resolveUsers_ok engineID users known all :
  map_Forall (fun name u => vuName u = name /\ userOk engineID u) known ->
  resolveUsers localize engineID users known = Some all ->
  map_Forall (fun name u => vuName u = name /\ userOk engineID u) all.
Proof.
  revert known. induction users as [|u users IH]; intros known Hk Hr; cbn in Hr; [by injection Hr as <-|].
  destruct (resolveUser u) as [v|] eqn:Ev; [|done]. destruct (resolveUser_level u v Ev) as (H1 & H2 & H3).
  destruct (bool_decide_reflect (vuAuthProto v = NoAuth)) as [Hn|Hn]; cbn [negb] in Hr.
  - eapply IH, Hr. apply map_Forall_insert_2; [|done]. split; [done|]. split; [|done]. intros _.
    split_and!; [done|by apply H2|]. by rewrite H3, decide_True.
  - destruct (localize _ _ _) as [key|] eqn:El; [|done]. eapply IH, Hr. apply map_Forall_insert_2; [|done].
    split; [done|]. split; [done|]. intros _. cbn. rewrite H3, decide_False by done. split; [done|]. by exists key.
Qed.

Lemma NewV3Engine_ok configured mac users now e :
  NewV3Engine localize configured mac users now = Some e -> usersOk e.
Proof.
  unfold NewV3Engine. destruct (resolveEngineID configured mac) as [engineID|]; [|done].
  destruct (resolveUsers localize engineID users ∅) as [known|] eqn:Ek; [|done]. intros [= <-].
  unfold usersOk. cbn. eapply resolveUsers_ok, Ek. apply map_Forall_empty.
Qed.

(** The engine apart from its counters. *)
Definition sameEngine e e0 : Prop :=
  veEngineID e = veEngineID e0 /\ veBoots e = veBoots e0 /\ veBootTime e = veBootTime e0 /\ veUsers e = veUsers e0.

Lemma countStat_same stat e : sameEngine (countStat stat e).2 e.
Proof. done. Qed.

(** ** Which requests reach the agent *)

(** A request the agent may answer. *)
Record accepted (now : Time) e (req : list Z) (msg : v3Message) (user : v3User) (decoded : V3Packet) : Prop := mkAccepted {
  ac_parse : parseV3Message req = Some msg;
  ac_engine : vmEngineID msg = veEngineID e;
  ac_named : vmEngineID msg <> [] /\ vmUserName msg <> [];
  ac_user : veUsers e !! vmUserName msg = Some user;
  ac_level : Z.land (vmFlags msg) AuthPriv = vuMsgFlags user;
  ac_digest : vuAuthProto user <> NoAuth -> exists key,
    localize (vuAuthProto user) (vuAuthPass user) (veEngineID e) = Some key /\
    length (vmAuthParams msg) = macLen (vuAuthProto user) /\
    take (macLen (vuAuthProto user)) (hmac (vuAuthProto user) key (zeroedRaw msg)) = vmAuthParams msg;
  ac_decode : decode e req = Some decoded;
  ac_time : vuAuthProto user <> NoAuth -> exists boots time, vpUsm decoded = Some (boots, time) /\ boots = veBoots e /\
    Z.abs (engineTime now e - time) <= timeWindowSecs
}.

(** What a refusal does: at most one counter goes up by one, and there is an
    answer only to a message that asked for reports or proved who it is from. *)
Definition refused e e' (req : list Z) (reply : option V3Reply) : Prop :=
  sameEngine e' e /\
  (reply = None \/ exists r stat, reply = Some r /\ vrType r = Report /\ vrError r = NoError /\
     vrVariables r = [mkPDU (statOID stat) Counter32 (Some (PUint32 (addTo (veCounter e stat) 1)))] /\
     veCounter e' stat = addTo (veCounter e stat) 1 /\
     exists msg, parseV3Message req = Some msg /\ (stat = NotInTimeWindows \/ Z.land (vmFlags msg) Reportable <> 0)) /\
  exists stat, forall s, s <> stat -> veCounter e' s = veCounter e s.

Lemma report_refused now e req msg stat :
  parseV3Message req = Some msg -> refused e (report now e msg stat).2 req (report now e msg stat).1.
Proof.
  intros Hp. unfold report. cbn. destruct (Z.eqb_spec (Z.land (vmFlags msg) Reportable) 0) as [Hr|Hr]; cbn.
  all: split; [done|]; split.
  - by left.
  - exists stat. intros s Hs. cbn. by rewrite bool_decide_false.
  - right. eexists _, stat. split; [done|]. split; [done|]. split; [done|]. split; [done|]. split.
    + cbn. by rewrite bool_decide_true.
    + exists msg. split; [done|by right].
  - exists stat. intros s Hs. cbn. by rewrite bool_decide_false.
Qed.

Lemma drop_refused e req : refused e e req None.
Proof. split; [done|]. split; [by left|by exists WrongDigests]. Qed.

Ltac report_case stat :=
  match goal with
  | H : parseV3Message ?req = Some ?msg |- context [report ?now ?e ?msg stat] =>
      let R := fresh in pose proof (report_refused now e req msg stat H) as R;
      unfold mret, Handler_ret; destruct (report now e msg stat) as [? ?]; left; split; [reflexivity|exact R]
  end.

(** C18.  The engine's answers: the agent sees a request only if its engine ID is
    ours, its user known, its level the user's own and, for a user that
    authenticates, its digest verifies over the message with the digest zeroed
    under the user's localized key and its time is within 150 seconds of the
    engine's; every other datagram leaves the agent as it was. *)
Theorem v3_gate configured mac users boot e0 e now req process a :
  NewV3Engine localize configured mac users boot = Some e0 -> sameEngine e e0 ->
  match Respond hmac decode now req process e a with
  | None =>
      exists msg user decoded, parseV3Message req = Some msg /\ decode e req = Some decoded /\ veUsers e !! vmUserName msg = Some user /\
        (vuAuthProto user <> NoAuth /\ vpUsm decoded = None \/
         accepted now e req msg user decoded /\
         process (vpType decoded) (vpVariables decoded) (vpNonRepeaters decoded) (vpMaxRepetitions decoded) a = None)
  | Some ((reply, e'), a') =>
      (a' = a /\ refused e e' req reply) \/
      exists msg user decoded vars, accepted now e req msg user decoded /\ e' = e /\
        process (vpType decoded) (vpVariables decoded) (vpNonRepeaters decoded) (vpMaxRepetitions decoded) a = Some (vars, a') /\
        reply = Some (marshalPacket now e decoded (Some user) GetResponse (vuMsgFlags user) vars)
  end.
Proof.
  intros Hnew (Hid & Hb & Ht & Hu). pose proof (NewV3Engine_ok _ _ _ _ _ Hnew) as Hok. unfold usersOk in Hok. rewrite <- Hu, <- Hid in Hok.
  clear Hnew Hid Hb Ht Hu. unfold Respond. destruct (parseV3Message req) as [msg|] eqn:Ep; [|left; split; [done|apply drop_refused]].
  destruct (bool_decide (vmEngineID msg = []) || bool_decide (vmUserName msg = []) || negb (bool_decide (vmEngineID msg = veEngineID e))) eqn:E1.
  { report_case UnknownEngineIDs. }
  apply orb_false_iff in E1 as [[N1%bool_decide_eq_false N2%bool_decide_eq_false]%orb_false_iff E1].
  apply negb_false_iff, bool_decide_eq_true in E1.
  destruct (veUsers e !! vmUserName msg) as [user|] eqn:Eu.
  2: { report_case UnknownUserNames. }
  destruct (Hok _ _ Eu) as (_ & Hna & Ha).
  destruct (Z.eqb_spec (Z.land (vmFlags msg) AuthPriv) (vuMsgFlags user)) as [El|El]; cbn [negb].
  2: { report_case UnsupportedSecLevels. }
  destruct (match vuAuthKey user with Some key => negb (authentic hmac msg user key) | None => false end) eqn:Ed.
  { report_case WrongDigests. }
  assert (vuAuthProto user <> NoAuth -> exists key, localize (vuAuthProto user) (vuAuthPass user) (veEngineID e) = Some key /\
    length (vmAuthParams msg) = macLen (vuAuthProto user) /\
    take (macLen (vuAuthProto user)) (hmac (vuAuthProto user) key (zeroedRaw msg)) = vmAuthParams msg) as Hdig.
  { intros Hn. destruct (Ha Hn) as (_ & key & Hk & Hl). exists key. split; [done|]. rewrite Hk in Ed.
    apply negb_false_iff in Ed. unfold authentic in Ed. apply andb_true_iff in Ed as [D1%bool_decide_eq_true D2%bool_decide_eq_true].
    by rewrite D1 in D2. }
  destruct (decode e req) as [decoded|] eqn:Edec.
  2: { destruct (negb (bool_decide (vuPrivProto user = NoPriv))); [|left; split; [done|apply drop_refused]].
       report_case DecryptionErrors. }
  assert ((0 <? Z.land (vuMsgFlags user) AuthNoPriv) = negb (bool_decide (vuAuthProto user = NoAuth))) as Hflag.
  { destruct (bool_decide_reflect (vuAuthProto user = NoAuth)) as [Hn|Hn].
    - by destruct (Hna Hn) as (_ & _ & ->).
    - destruct (Ha Hn) as (-> & _). by destruct (decide (vuPrivProto user = NoPriv)). }
  unfold respondToRequest. rewrite Hflag.
  destruct (bool_decide_reflect (vuAuthProto user = NoAuth)) as [Hn|Hn]; cbn [negb].
  - unfold mbind, Handler_bind. destruct (process _ _ _ _ a) as [[vars a']|] eqn:Epr; cbn.
    + right. exists msg, user, decoded, vars. split_and!; try done.
    + exists msg, user, decoded. split_and!; try done. right. split; [|done]. constructor; try done.
  - destruct (vpUsm decoded) as [[boots time]|] eqn:Eusm.
    2: { exists msg, user, decoded. split_and!; try done. by left. }
    destruct (inTimeWindow now e (boots, time)) eqn:Etime; cbn [negb].
    + unfold inTimeWindow in Etime. cbn [fst snd] in Etime. destruct (Z.eqb_spec boots (veBoots e)) as [Hboots|]; [|done].
      apply Z.leb_le in Etime.
      unfold mbind, Handler_bind. destruct (process _ _ _ _ a) as [[vars a']|] eqn:Epr; cbn.
      * right. exists msg, user, decoded, vars. split_and!; try done. constructor; try done. intros _. by exists boots, time.
      * exists msg, user, decoded. split_and!; try done. right. split; [|done]. constructor; try done. intros _. by exists boots, time.
    + cbn. left. split; [done|]. split; [done|]. split.
      * right. eexists _, NotInTimeWindows. split; [done|]. split; [done|]. split; [done|]. split; [done|].
        split; [done|]. exists msg. split; [done|by left].
      * exists NotInTimeWindows. intros s Hs. cbn. by rewrite bool_decide_false.
Qed.

(** Every accepted request is answered. *)
Lemma respond_accepted e now req msg user decoded process a :
  usersOk e -> accepted now e req msg user decoded ->
  Respond hmac decode now req process e a =
  (respVars ← process (vpType decoded) (vpVariables decoded) (vpNonRepeaters decoded) (vpMaxRepetitions decoded);
   mret (Some (marshalPacket now e decoded (Some user) GetResponse (vuMsgFlags user) respVars), e)) a.
Proof.
  intros Hok [H1 H2 [N1 N2] H3 H4 H5 H6 H7]. destruct (Hok _ _ H3) as (_ & Hna & Ha). unfold Respond. rewrite H1.
  rewrite (bool_decide_false (vmEngineID msg = [])), (bool_decide_false (vmUserName msg = [])), bool_decide_true by done.
  cbn [orb negb]. rewrite H3, H4, Z.eqb_refl. cbn [negb]. unfold respondToRequest.
  destruct (decide (vuAuthProto user = NoAuth)) as [Hn|Hn].
  - destruct (Hna Hn) as (-> & _ & ->). by rewrite H6.
  - destruct (Ha Hn) as (Hf & key & Hk & Hl). rewrite Hk. destruct (H5 Hn) as (key' & Hl' & D1 & D2).
    assert (key' = key) as -> by congruence.
    assert (authentic hmac msg user key = true) as ->.
    { unfold authentic. rewrite D1, D2. by rewrite !bool_decide_true. }
    cbn [negb]. rewrite H6. destruct (H7 Hn) as (boots & time & -> & -> & Hw).
    assert ((0 <? Z.land (vuMsgFlags user) AuthNoPriv) = true) as -> by (rewrite Hf; by destruct (decide _)).
    unfold inTimeWindow. cbn [fst snd]. rewrite Z.eqb_refl. cbn [negb]. by apply Z.leb_le in Hw as ->.
Qed.

(** A version 3 manager never learns that its SET was refused: the answer
    carries no error and the variables as they were sent, whatever the agent
    did with them. *)
Theorem v3_set_hides_refusal configured mac users boot e0 e now req msg user decoded world a :
  NewV3Engine localize configured mac users boot = Some e0 -> sameEngine e e0 ->
  accepted now e req msg user decoded -> vpType decoded = SetRequest ->
  exists reply a', Respond hmac decode now req (ProcessPDU world) e a = Some ((Some reply, e), a') /\
    vrType reply = GetResponse /\ vrError reply = NoError /\ vrVariables reply = vpVariables decoded /\
    agMib a' = agMib a /\
    enableAuthenTraps (agStats a') = written (vpVariables decoded) (enableAuthenTraps (agStats a)).
Proof.
  intros Hnew (Hid & Hb & Ht & Hu) Hacc Htype. pose proof (NewV3Engine_ok _ _ _ _ _ Hnew) as Hok. unfold usersOk in Hok.
  rewrite <- Hu, <- Hid in Hok. rewrite (respond_accepted e now req msg user decoded (ProcessPDU world) a Hok Hacc), Htype.
  unfold ProcessPDU, processSetRequest, updateStats, mbind, Handler_bind. rewrite setLoop_spec. cbn.
  eexists _, _. split; [reflexivity|]. split_and!; done.
Qed.
End v3.

(** ** Reading a header back *)

(** Elements as gosnmp writes them: definite lengths in the fewest octets. *)
Definition berLen (n : Z) : list Z :=
  if n <? 128 then [n] else if n <? 256 then [0x81; n] else [0x82; n / 2 ^ 8; n mod 2 ^ 8].
Definition tlvHead (tag : Z) (v : list Z) : list Z := tag :: berLen (Z.of_nat (length v)).
Definition tlv (tag : Z) (v : list Z) : list Z := tlvHead tag v ++ v.

Lemma short_length n : 0 <= n < 128 -> Z.land n berLongFormFlag = 0.
Proof.
  intros H. assert (Forall (fun k => Z.land k berLongFormFlag = 0) (seqZ 0 128)) as Hf.
  { apply (bool_decide_unpack _). vm_compute. exact I. }
  rewrite Forall_forall in Hf. apply Hf, elem_of_seqZ. lia.
Qed.

Lemma lor_octets hi lo : 0 <= lo < 2 ^ 8 -> Z.lor (Z.shiftl hi 8) lo = hi * 2 ^ 8 + lo.
Proof. by apply lor_shift. Qed.

Lemma berNext_tlv want tag start v rest :
  want = 0 \/ want = tag -> Z.of_nat (length v) < 2 ^ 16 ->
  berNext want (mkBer start (tlv tag v ++ rest) false) =
  (mkBer (start + length (tlvHead tag v)) v false, mkBer (start + length (tlv tag v)) rest false).
Proof.
  intros Hw Hv. unfold berNext, tlv, tlvHead. cbn [brErr brBytes brStart].
  assert (negb (want =? 0) && negb (tag =? want) = false) as Ht.
  { destruct Hw as [->| ->]; [done|]. rewrite Z.eqb_refl. apply andb_false_r. }
  unfold berLen. destruct (Z.ltb_spec (Z.of_nat (length v)) 128) as [H1|H1].
  - cbn [app]. rewrite Ht, short_length by lia. cbn [negb andb Z.eqb]. rewrite drop_0.
    destruct (Z.ltb_spec (Z.of_nat (length (v ++ rest))) (Z.of_nat (length v))); [rewrite length_app in *; lia|].
    rewrite Nat2Z.id, take_app_length, drop_app_length. cbn [length app]. do 2 f_equal; lia.
  - destruct (Z.ltb_spec (Z.of_nat (length v)) 256) as [H2|H2]; cbn [app]; rewrite Ht.
    + change (Z.land 129 127) with 1. change (Z.land 129 berLongFormFlag) with 128. cbn [negb Z.eqb andb orb].
      unfold berMaxLenOctets. cbn [length Z.ltb]. 
      destruct (Z.ltb_spec (Z.of_nat (S (length (v ++ rest)))) 1); [lia|]. cbn [Z.ltb Z.compare orb].
      change (Z.to_nat 1) with 1%nat. cbn [take drop]. rewrite take_0, drop_0. unfold beInt. cbn [foldl].
      rewrite Z.shiftl_0_l, Z.lor_0_l.
      destruct (Z.ltb_spec (Z.of_nat (length (v ++ rest))) (Z.of_nat (length v))); [rewrite length_app in *; lia|].
      rewrite Nat2Z.id, take_app_length, drop_app_length. cbn [length app]. do 2 f_equal; lia.
    + change (Z.land 130 127) with 2. change (Z.land 130 berLongFormFlag) with 128. cbn [negb Z.eqb andb orb].
      unfold berMaxLenOctets. cbn [length].
      destruct (Z.ltb_spec (Z.of_nat (S (S (length (v ++ rest))))) 2); [lia|]. cbn [Z.ltb Z.compare orb].
      change (Z.to_nat 2) with 2%nat. cbn [take drop]. rewrite take_0, drop_0. unfold beInt. cbn [foldl].
      rewrite Z.shiftl_0_l, Z.lor_0_l, lor_octets by (apply Z.mod_pos_bound; lia).
      replace (Z.of_nat (length v) / 2 ^ 8 * 2 ^ 8 + Z.of_nat (length v) mod 2 ^ 8) with (Z.of_nat (length v))
        by (pose proof (Z.div_mod (Z.of_nat (length v)) (2 ^ 8)); lia).
      destruct (Z.ltb_spec (Z.of_nat (length (v ++ rest))) (Z.of_nat (length v))); [rewrite length_app in *; lia|].
      rewrite Nat2Z.id, take_app_length, drop_app_length. cbn [length app]. do 2 f_equal; lia.
Qed.

(** An INTEGER's octets, one to five, and the value read. *)
Definition octets (v : list Z) : Prop := (1 <= length v <= 5)%nat.
Definition uintOf (v : list Z) : Z := foldl (fun n o => Z.lor (uint32 (Z.shiftl n 8)) o) 0 v.

Lemma berUint32_tlv start v rest :
  octets v -> berUint32 (mkBer start (tlv Integer v ++ rest) false) = (uintOf v, mkBer (start + length (tlv Integer v)) rest false).
Proof.
  intros H. unfold octets in H. unfold berUint32. rewrite berNext_tlv by (first [by right|lia]). cbn [brErr brBytes brStart negb andb].
  destruct (Nat.eqb_spec (length v) 0); [lia|]. destruct (Nat.ltb_spec 5 (length v)); [lia|]. done.
Qed.

(** The fields of a header, integers as their octets. *)
Record header := mkHeader {
  hdVersion : list Z; hdMsgID : list Z; hdMaxSize : list Z; hdFlags : Z; hdEngineID : list Z; hdBoots : list Z; hdTime : list Z;
  hdUserName : list Z; hdAuth : list Z; hdPriv : list Z; hdScoped : list Z
}.
#[local] Instance header_rebuild : Rebuild header := fun h =>
  mkHeader (hdVersion h) (hdMsgID h) (hdMaxSize h) (hdFlags h) (hdEngineID h) (hdBoots h) (hdTime h) (hdUserName h)
    (hdAuth h) (hdPriv h) (hdScoped h).

Definition globalData (h : header) : list Z :=
  tlv Integer (hdMsgID h) ++ tlv Integer (hdMaxSize h) ++ tlv OctetString [hdFlags h] ++ tlv Integer [UserSecurityModel].
Definition usmBefore (h : header) : list Z :=
  tlv OctetString (hdEngineID h) ++ tlv Integer (hdBoots h) ++ tlv Integer (hdTime h) ++ tlv OctetString (hdUserName h).
Definition usmFields (h : header) : list Z :=
  tlv OctetString (hdEngineID h) ++ tlv Integer (hdBoots h) ++ tlv Integer (hdTime h) ++ tlv OctetString (hdUserName h) ++
  tlv OctetString (hdAuth h) ++ tlv OctetString (hdPriv h).
Definition messageFields (h : header) : list Z :=
  tlv Integer (hdVersion h) ++ tlv sequenceTag (globalData h) ++ tlv OctetString (tlv sequenceTag (usmFields h)) ++ hdScoped h.
Definition encodeMessage (h : header) : list Z := tlv sequenceTag (messageFields h).

(** A datagram of at most 64 KiB with integers of at most five octets. *)
Definition wellSized (h : header) : Prop :=
  octets (hdMsgID h) /\ octets (hdMaxSize h) /\ Z.of_nat (length (messageFields h)) < 2 ^ 16.

(** What comes before the digest, and after it. *)
Definition digestBefore (h : header) : list Z :=
  tlvHead sequenceTag (messageFields h) ++ tlv Integer (hdVersion h) ++ tlv sequenceTag (globalData h) ++
  tlvHead OctetString (tlv sequenceTag (usmFields h)) ++ tlvHead sequenceTag (usmFields h) ++ usmBefore h ++
  tlvHead OctetString (hdAuth h).

Lemma encode_split h : encodeMessage h = digestBefore h ++ hdAuth h ++ tlv OctetString (hdPriv h) ++ hdScoped h.
Proof.
  change (encodeMessage h) with (tlvHead sequenceTag (messageFields h) ++ messageFields h). unfold digestBefore.
  set (x := tlvHead sequenceTag (messageFields h)). clearbody x.
  assert (messageFields h = tlv Integer (hdVersion h) ++ tlv sequenceTag (globalData h) ++
    (tlvHead OctetString (tlv sequenceTag (usmFields h)) ++ (tlvHead sequenceTag (usmFields h) ++ (usmBefore h ++
    (tlvHead OctetString (hdAuth h) ++ hdAuth h) ++ tlv OctetString (hdPriv h)))) ++ hdScoped h) as ->.
  { unfold messageFields. do 3 f_equal. unfold tlv at 1. f_equal. unfold tlv at 1. f_equal.
    unfold usmFields, usmBefore.
    change (tlv OctetString (hdAuth h)) with (tlvHead OctetString (hdAuth h) ++ hdAuth h). by rewrite <- !app_assoc. }
  by rewrite <- !app_assoc.
Qed.

Lemma tlv_length tag v : length (tlv tag v) = (length (tlvHead tag v) + length v)%nat.
Proof. unfold tlv. by rewrite length_app. Qed.

Lemma tlvHead_length tag v w : length v = length w -> tlvHead tag v = tlvHead tag w.
Proof. unfold tlvHead. by intros ->. Qed.

Lemma message_sizes h :
  (length (globalData h) <= length (messageFields h))%nat /\ (length (tlv sequenceTag (usmFields h)) <= length (messageFields h))%nat /\
  (length (usmFields h) <= length (messageFields h))%nat /\
  (length (hdVersion h) <= length (messageFields h))%nat /\
  Forall (fun v => (length v <= length (messageFields h))%nat) [hdEngineID h; hdBoots h; hdTime h; hdUserName h; hdAuth h; hdPriv h].
Proof.
  assert (length (usmFields h) <= length (tlv sequenceTag (usmFields h)))%nat as H1 by (rewrite tlv_length; lia).
  assert (Forall (fun v => (length v <= length (usmFields h))%nat) [hdEngineID h; hdBoots h; hdTime h; hdUserName h; hdAuth h; hdPriv h]) as H2.
  { unfold usmFields. repeat (apply Forall_cons_2; [rewrite !length_app, !tlv_length; lia|]). apply Forall_nil_2. }
  assert (length (tlv sequenceTag (usmFields h)) <= length (messageFields h))%nat as H3.
  { unfold messageFields. rewrite !length_app, (tlv_length OctetString). lia. }
  split_and!; try lia.
  - unfold messageFields. rewrite !length_app, !tlv_length. lia.
  - unfold messageFields. rewrite !length_app, !tlv_length. lia.
  - eapply Forall_impl; [exact H2|]. intros v Hv. cbn beta in *. etrans; [exact Hv|]. etrans; [exact H1|exact H3].
Qed.

(** Zeroes in place of the digest leave everything before it as it was. *)
Lemma before_zeroed h : digestBefore (h <| hdAuth := replicate (length (hdAuth h)) 0 |>) = digestBefore h.
Proof.
  set (h0 := h <| hdAuth := replicate (length (hdAuth h)) 0 |>).
  assert (length (hdAuth h0) = length (hdAuth h)) as H0 by (cbn; by rewrite length_replicate).
  assert (tlvHead OctetString (hdAuth h0) = tlvHead OctetString (hdAuth h)) as Hh by (by apply tlvHead_length).
  assert (length (usmFields h0) = length (usmFields h)) as H1.
  { unfold usmFields. rewrite !length_app, !tlv_length, Hh, H0. done. }
  assert (length (tlv sequenceTag (usmFields h0)) = length (tlv sequenceTag (usmFields h))) as H2.
  { rewrite !tlv_length, H1, (tlvHead_length _ (usmFields h0) (usmFields h)) by done. done. }
  assert (length (messageFields h0) = length (messageFields h)) as H3.
  { unfold messageFields. rewrite !length_app, !(tlv_length OctetString), H2.
    rewrite (tlvHead_length _ (tlv sequenceTag (usmFields h0)) (tlv sequenceTag (usmFields h))) by done. done. }
  unfold digestBefore. rewrite Hh.
  rewrite (tlvHead_length _ (messageFields h0) (messageFields h)) by done.
  rewrite (tlvHead_length _ (tlv sequenceTag (usmFields h0)) (tlv sequenceTag (usmFields h))) by done.
  by rewrite (tlvHead_length _ (usmFields h0) (usmFields h)) by done.
Qed.

(** The engine reads back the header of every well-formed datagram, and the
    bytes it computes the digest over are the same datagram with the digest
    field zeroed. *)
Theorem v3_header_roundtrip h :
  wellSized h ->
  exists msg, parseV3Message (encodeMessage h) = Some msg /\
    vmFlags msg = hdFlags h /\ vmEngineID msg = hdEngineID h /\ vmUserName msg = hdUserName h /\
    vmAuthParams msg = hdAuth h /\ vmMsgID msg = uintOf (hdMsgID h) /\ vmMaxSize msg = uintOf (hdMaxSize h) /\
    zeroedRaw msg = encodeMessage (h <| hdAuth := replicate (length (hdAuth h)) 0 |>).
Proof.
  intros (O1 & O2 & Hsize). destruct (message_sizes h) as (S1 & S2 & S3 & S4 & S5).
  rewrite !Forall_cons in S5. destruct S5 as (S51 & S52 & S53 & S54 & S55 & S56 & _).
  assert (encodeMessage h = tlv sequenceTag (messageFields h) ++ []) as Ee by (by rewrite app_nil_r).
  assert (forall s, mkBer s (messageFields h) false = mkBer s (tlv Integer (hdVersion h) ++ tlv sequenceTag (globalData h) ++
    tlv OctetString (tlv sequenceTag (usmFields h)) ++ hdScoped h) false) as Em by done.
  assert (forall s, mkBer s (globalData h) false = mkBer s (tlv Integer (hdMsgID h) ++ tlv Integer (hdMaxSize h) ++
    tlv OctetString [hdFlags h] ++ tlv Integer [UserSecurityModel] ++ []) false) as Eg by (by rewrite app_nil_r).
  assert (forall s, mkBer s (tlv sequenceTag (usmFields h)) false = mkBer s (tlv sequenceTag (usmFields h) ++ []) false) as Es
    by (by rewrite app_nil_r).
  assert (forall s, mkBer s (usmFields h) false = mkBer s (tlv OctetString (hdEngineID h) ++ tlv Integer (hdBoots h) ++
    tlv Integer (hdTime h) ++ tlv OctetString (hdUserName h) ++ tlv OctetString (hdAuth h) ++ tlv OctetString (hdPriv h)) false)
    as Eu by done.
  unfold parseV3Message. rewrite Ee, berNext_tlv by (first [by right|lia]). rewrite Em.
  rewrite berNext_tlv by (first [by right|lia]). rewrite berNext_tlv by (first [by right|lia]). rewrite Eg.
  rewrite !berUint32_tlv by done. rewrite berNext_tlv by (first [by right|done]).
  rewrite berUint32_tlv by (unfold octets; cbn; lia).
  rewrite berNext_tlv by (first [by right|lia]). rewrite Es, berNext_tlv by (first [by right|lia]). rewrite Eu.
  rewrite !berNext_tlv by (first [by right|lia]). cbn [brErr brBytes brStart orb].
  change (uintOf [UserSecurityModel]) with 3. change (3 =? UserSecurityModel) with true. cbn [negb].
  destruct (if negb (Z.land (hdFlags h) AuthPriv =? AuthPriv) then parseScoped _ else ([], 0)) as [contextName requestID].
  eexists. split; [reflexivity|]. do 6 (split; [reflexivity|]).
  unfold zeroedRaw. cbn [vmRaw vmAuthStart vmAuthParams]. rewrite app_nil_r.
  change (tlv sequenceTag (messageFields h)) with (encodeMessage h).
  rewrite (encode_split h), (encode_split (h <| hdAuth := _ |>)), before_zeroed. cbn [hdAuth hdPriv hdScoped setf].
  match goal with |- overwrite _ ?n _ = _ => replace n with (length (digestBefore h)) end.
  { rewrite overwrite_middle by (by rewrite length_replicate). done. }
  unfold digestBefore, usmBefore. rewrite !length_app. lia.
Qed.

(** ** A user that authenticates *)

(** A key and a digest simple enough to compute. *)
Definition testLocalize (proto : AuthProtocol) (pass engineID : list Z) : option (list Z) := Some (pass ++ engineID).
Definition testHmac (proto : AuthProtocol) (key message : list Z) : list Z :=
  map (fun i => (foldr Z.add i (key ++ message)) mod 2 ^ 8) (seqZ 0 64).
Definition testPacket : V3Packet :=
  mkV3Packet SetRequest [mkPDU "1.3.6.1.2.1.1.5.0" OctetString (Some (PString "x"))] 0 0 7 9 1500 [] (Some (1, 20)).
Definition testDecode (e : V3Engine) (req : list Z) : option V3Packet := Some testPacket.
Definition testUsers : list SNMPv3User := [mkSNMPv3User (bytesOf "ops") "sha" (bytesOf "secret") "none" []].
Definition testMac : list Z := [2; 0; 0; 0; 0; 1].

Definition testEngine : V3Engine :=
  default (mkV3Engine [] 0 0 ∅ (fun _ => 0)) (NewV3Engine testLocalize None testMac testUsers 0).

Definition testHeader0 : header :=
  mkHeader [3] [7] [5; 220] 5 (veEngineID testEngine) [1] [20] (bytesOf "ops") (replicate 12 0) [] [].
Definition testHeader : header :=
  mkHeader [3] [7] [5; 220] 5 (veEngineID testEngine) [1] [20] (bytesOf "ops")
    (take 12 (testHmac SHA (bytesOf "secret" ++ veEngineID testEngine) (encodeMessage testHeader0))) [] [].

Lemma testEngine_new : NewV3Engine testLocalize None testMac testUsers 0 = Some testEngine.
Proof. reflexivity. Qed.

Lemma v3_header_roundtrip_witness :
  wellSized testHeader /\ exists msg, parseV3Message (encodeMessage testHeader) = Some msg /\ zeroedRaw msg = encodeMessage testHeader0.
Proof.
  assert (wellSized testHeader) as H by (unfold wellSized, octets; vm_compute; repeat split; lia). split; [exact H|].
  destruct (v3_header_roundtrip testHeader H) as (msg & H1 & _ & _ & _ & _ & _ & _ & H2). exists msg. split; [exact H1|].
  rewrite H2. vm_compute. reflexivity.
Defined.

Definition testMessage : v3Message :=
  default (mkV3Message 0 0 0 [] [] 0 [] [] 0 []) (parseV3Message (encodeMessage testHeader)).
Definition testUser : v3User :=
  mkV3User (bytesOf "ops") SHA (bytesOf "secret") NoPriv [] AuthNoPriv (Some (bytesOf "secret" ++ veEngineID testEngine)).

Lemma test_accepted :
  accepted testLocalize testHmac testDecode (100 * 10 ^ 9) testEngine (encodeMessage testHeader) testMessage testUser testPacket.
Proof.
  constructor; try (vm_compute; reflexivity).
  - split; vm_compute; discriminate.
  - intros _. exists (bytesOf "secret" ++ veEngineID testEngine). split; [vm_compute; reflexivity|]. split; vm_compute; reflexivity.
  - intros _. exists 1, 20. split; [reflexivity|]. split; [reflexivity|]. vm_compute. discriminate.
Qed.

Lemma v3_set_hides_refusal_witness :
  writeOf (mkPDU "1.3.6.1.2.1.1.5.0" OctetString (Some (PString "x"))) = inr ErrNotWritable /\
  exists reply a', Respond testHmac testDecode (100 * 10 ^ 9) (encodeMessage testHeader) (ProcessPDU (fun _ => testWorld)) testEngine testAgent
    = Some ((Some reply, testEngine), a') /\ vrError reply = NoError.
Proof.
  split; [vm_compute; reflexivity|].
  destruct (v3_set_hides_refusal testLocalize testHmac testDecode None testMac testUsers 0 testEngine testEngine (100 * 10 ^ 9)
    (encodeMessage testHeader) testMessage testUser testPacket (fun _ => testWorld) testAgent testEngine_new
    (conj eq_refl (conj eq_refl (conj eq_refl eq_refl))) test_accepted eq_refl) as (reply & a' & H1 & _ & H2 & _).
  exists reply, a'. split; [exact H1|exact H2].
Defined.

(** The same message with another digest is refused. *)
Lemma v3_gate_witness :
  NewV3Engine testLocalize None testMac testUsers 0 = Some testEngine /\
  match Respond testHmac testDecode 0 (encodeMessage testHeader0) (ProcessPDU (fun _ => testWorld)) testEngine testAgent with
  | Some ((Some r, _), a') => a' = testAgent /\ vrType r = Report
  | _ => False
  end.
Proof.
  split; [exact testEngine_new|].
  pose proof (v3_gate testLocalize testHmac testDecode None testMac testUsers 0 testEngine testEngine 0 (encodeMessage testHeader0)
    (ProcessPDU (fun _ => testWorld)) testAgent testEngine_new (conj eq_refl (conj eq_refl (conj eq_refl eq_refl)))) as H.
  destruct (Respond testHmac testDecode 0 (encodeMessage testHeader0) (ProcessPDU (fun _ => testWorld)) testEngine testAgent)
    as [[[reply e'] a']|] eqn:E1; [|vm_compute in E1; discriminate E1].
  assert (match reply with Some r => vrType r = Report | None => False end) as Ht.
  { apply (f_equal (fun x => match x with Some ((r, _), _) => match r with Some r => match vrType r with Report => 1 | _ => 0 end | None => 0 end | None => 0 end)) in E1.
    vm_compute in E1. destruct reply as [r|]; [|discriminate E1]. destruct r as [t ? ? ? ? ? ? ? ? ? ? ?]. cbn in *. destruct t; first [reflexivity|discriminate E1]. }
  destruct reply as [r|]; [|destruct Ht]. destruct H as [[H _]|(msg & user & decoded & vars & _ & _ & _ & H)].
  - split; [exact H|exact Ht].
  - injection H as ->. discriminate Ht.
Defined.
