(* ===== verification/Draft.v ===== *)
(** * Edits of a draft topology

    [drafttopology/mutation.go]: the edits of the visual editor, applied to a
    configuration in place.  Of a configuration the model keeps what the edits
    read or write.  A pointer to a device is its place, a pointer to one of its
    interfaces a position; both stay valid because nothing is removed from
    these lists.  A nil map is [None], a nil [net.IP] or slice the empty list.
    An error is its class; its text is left out.  A coordinate is a float of 64
    bits, [formatFloat] is [strconv.FormatFloat] with format f and the shortest
    precision, [unmarshal] the YAML library reading the [config] fields of the
    segments of a source. *)

From Stdlib Require Import SpecFloat.
From S2P Require Import Prelude.
From S2P Require Import Netip.
From S2P Require Import NetipParse.
From S2P Require Import Bytes.
From S2P Require Import Text.

Definition maxCoordinate : Z := 1000000.
Definition maxMACSuffix : Z := 0xFFFFFF.

Inductive errClass := errInvalid | errNotFound | errConflict.
#[export] Instance errClass_eq_dec : EqDecision errClass.
Proof. solve_decision. Defined.

(** ** The configuration *)

Module config.

Record Interface := mkInterface {
  ifName : string; ifType : string; ifNetwork : string; ifAddress : string; ifMTU : Z; ifSpeed : Z; ifDuplex : string;
  ifAdminStatus : string; ifOperStatus : string; ifDescription : string; ifInUtilization : spec_float;
  ifOutUtilization : spec_float; ifVLANs : list Z
}.
#[export] Instance Interface_rebuild : Rebuild Interface := fun i =>
  mkInterface (ifName i) (ifType i) (ifNetwork i) (ifAddress i) (ifMTU i) (ifSpeed i) (ifDuplex i) (ifAdminStatus i)
    (ifOperStatus i) (ifDescription i) (ifInUtilization i) (ifOutUtilization i) (ifVLANs i).

Record TrunkPort := mkTrunkPort {
  tpInterface : string; tpVLANs : list Z; tpNativeVLAN : Z; tpRemoteDevice : string; tpRemoteInterface : string; tpFDBOnly : bool
}.
#[export] Instance TrunkPort_rebuild : Rebuild TrunkPort := fun t =>
  mkTrunkPort (tpInterface t) (tpVLANs t) (tpNativeVLAN t) (tpRemoteDevice t) (tpRemoteInterface t) (tpFDBOnly t).

Record SNMPConfig := mkSNMPConfig { scEnabled : option bool; scCommunity : string; scSysName : string; scWalkFile : string }.

Record Device := mkDevice {
  dvName : string; dvType : string; dvMACAddress : list Z; dvMACVendor : string; dvMACSuffix : Z; dvIPAddresses : list (list Z);
  dvVLAN : Z; dvInterfaces : list Interface; dvSNMPConfig : SNMPConfig; dvTrunkPorts : list TrunkPort;
  dvProperties : option (gmap string string)
}.
#[export] Instance Device_rebuild : Rebuild Device := fun d =>
  mkDevice (dvName d) (dvType d) (dvMACAddress d) (dvMACVendor d) (dvMACSuffix d) (dvIPAddresses d) (dvVLAN d)
    (dvInterfaces d) (dvSNMPConfig d) (dvTrunkPorts d) (dvProperties d).

Record Segment := mkSegment { sgTag : Z; sgDevices : list Device }.
#[export] Instance Segment_rebuild : Rebuild Segment := fun s => mkSegment (sgTag s) (sgDevices s).

Record Config := mkConfig { cfDevices : list Device; cfSegments : list Segment }.
#[export] Instance Config_rebuild : Rebuild Config := fun c => mkConfig (cfDevices c) (cfSegments c).

Definition UntaggedTag : Z := 0.

Definition NormalizedSegments (c : Config) : list Segment :=
  if bool_decide (cfSegments c = []) then [mkSegment UntaggedTag (cfDevices c)] else cfSegments c.

End config.
Import config.

(** ** Edits *)

Definition AddDevice : string := "add_device".
Definition Connect : string := "connect".
Definition Disconnect : string := "disconnect".
Definition MoveDevice : string := "move_device".
Definition UpdateLink : string := "update_link".

(** [Network] to [VLANs] are those of [config.Interface]. *)
Record DraftInterface := mkDraftInterface {
  diName : string; diType : string; diNetwork : string; diAddress : string; diMTU : Z; diSpeed : Z; diDuplex : string;
  diAdminStatus : string; diOperStatus : string; diDescription : string; diInUtilization : spec_float;
  diOutUtilization : spec_float; diVLANs : list Z
}.

Record DeviceMutation := mkDeviceMutation {
  dmName : string; dmType : string; dmVendor : string; dmMAC : string; dmMACSuffix : Z; dmSysObjectID : string;
  dmIPs : list string; dmVLAN : Z; dmInterfaces : list DraftInterface; dmProperties : option (gmap string string); dmWalkFile : string
}.

Record Endpoint := mkEndpoint { epDevice : string; epInterface : string }.
#[export] Instance Endpoint_eq_dec : EqDecision Endpoint.
Proof. solve_decision. Defined.

Record LinkEndpoints := mkLinkEndpoints { leSource : Endpoint; leTarget : Endpoint }.

Record LinkProperties := mkLinkProperties { lpVLANs : list Z; lpNativeVLAN : Z; lpFDBOnly : bool }.

Record LinkMutation := mkLinkMutation { lmEndpoints : LinkEndpoints; lmProperties : LinkProperties }.

Record PositionMutation := mkPositionMutation { pmDevice : string; pmX : spec_float; pmY : spec_float }.

Record Mutation := mkMutation {
  muOperation : string; muDevice : option DeviceMutation; muLink : option LinkMutation; muPosition : option PositionMutation
}.

(** ** Devices by name *)

Inductive devicePlace := InDevices (index : nat) | InSegment (segment index : nat).
#[export] Instance devicePlace_eq_dec : EqDecision devicePlace.
Proof. solve_decision. Defined.

Fixpoint indexNamed (name : string) (devices : list Device) : option nat :=
  match devices with
  | [] => None
  | d :: devices => if bool_decide (dvName d = name) then Some O else S <$> indexNamed name devices
  end.

Fixpoint segmentNamed (name : string) (segments : list Segment) : option (nat * nat) :=
  match segments with
  | [] => None
  | s :: segments =>
      match indexNamed name (sgDevices s) with
      | Some i => Some (O, i)
      | None => (fun '(s, i) => (S s, i)) <$> segmentNamed name segments
      end
  end.

Definition findDevice (cfg : Config) (name : string) : option devicePlace :=
  match indexNamed name (cfDevices cfg) with
  | Some i => Some (InDevices i)
  | None => (fun '(s, i) => InSegment s i) <$> segmentNamed name (cfSegments cfg)
  end.

(** Reading and assigning through the pointer. *)
Definition deviceAt (cfg : Config) (p : devicePlace) : option Device :=
  match p with
  | InDevices i => cfDevices cfg !! i
  | InSegment s i => segment ← cfSegments cfg !! s; sgDevices segment !! i
  end.

Definition onDevice (p : devicePlace) (f : Device -> Device) (cfg : Config) : Config :=
  match p with
  | InDevices i => cfg <| cfDevices := alter f i (cfDevices cfg) |>
  | InSegment s i => cfg <| cfSegments := alter (fun seg => seg <| sgDevices := alter f i (sgDevices seg) |>) s (cfSegments cfg) |>
  end.

Definition deviceSegment (cfg : Config) (name : string) : Z :=
  if bool_decide (cfSegments cfg = []) then 0
  else match segmentNamed name (cfSegments cfg) with Some (s, _) => Z.of_nat s | None => -1 end.

(** ** Endpoints *)

Record resolvedEndpoint := mkResolved { rsEndpoint : Endpoint; rsDevice : devicePlace; rsInterface : nat }.

Fixpoint interfaceNamed (name : string) (interfaces : list Interface) : option (nat * Interface) :=
  match interfaces with
  | [] => None
  | i :: interfaces =>
      if bool_decide (ifName i = name) then Some (O, i) else (fun '(n, i) => (S n, i)) <$> interfaceNamed name interfaces
  end.

Definition physicalType (type : string) : bool :=
  bool_decide (type = ""%string) || bool_decide (type = "ethernet"%string) || bool_decide (type = "other"%string).

Definition resolveEndpoint (cfg : Config) (endpoint : Endpoint) : resolvedEndpoint + errClass :=
  match findDevice cfg (epDevice endpoint) with
  | None => inr errNotFound
  | Some p =>
      match interfaceNamed (epInterface endpoint) (default [] (dvInterfaces <$> deviceAt cfg p)) with
      | None => inr errNotFound
      | Some (i, iface) => if physicalType (ifType iface) then inl (mkResolved endpoint p i) else inr errInvalid
      end
  end.

Definition linkDevicesAndInterfaces (cfg : Config) (endpoints : LinkEndpoints) : resolvedEndpoint * resolvedEndpoint + errClass :=
  if bool_decide (epDevice (leSource endpoints) = epDevice (leTarget endpoints)) then inr errInvalid
  else
    match resolveEndpoint cfg (leSource endpoints) with
    | inr err => inr err
    | inl near =>
        match resolveEndpoint cfg (leTarget endpoints) with
        | inr err => inr err
        | inl far => inl (near, far)
        end
    end.

(** ** Links *)

Fixpoint vlansLoop (seen : gset Z) (vlans : list Z) : gset Z + errClass :=
  match vlans with
  | [] => inl seen
  | vlan :: vlans =>
      if (vlan <? 1) || (4094 <? vlan) then inr errInvalid
      else if bool_decide (vlan ∈ seen) then inr errInvalid
      else vlansLoop ({[vlan]} ∪ seen) vlans
  end.

Definition validateLinkProperties (properties : LinkProperties) : option errClass :=
  match vlansLoop ∅ (lpVLANs properties) with
  | inr err => Some err
  | inl seen =>
      if negb (lpNativeVLAN properties =? 0) && negb (bool_decide (lpNativeVLAN properties ∈ seen)) then Some errInvalid else None
  end.

Definition setTrunkProperties (properties : LinkProperties) (trunk : TrunkPort) : TrunkPort :=
  trunk <| tpVLANs := lpVLANs properties |> <| tpNativeVLAN := lpNativeVLAN properties |> <| tpFDBOnly := lpFDBOnly properties |>.

Definition linkDescription (remote : Endpoint) : string := "to " ++ epDevice remote ++ " " ++ epInterface remote.

Definition onInterface (i : nat) (f : Interface -> Interface) (d : Device) : Device := d <| dvInterfaces := alter f i (dvInterfaces d) |>.

Definition appendTrunk (local remote : resolvedEndpoint) (properties : LinkProperties) (cfg : Config) : Config :=
  onDevice (rsDevice local)
    (fun d =>
       let trunk := mkTrunkPort (epInterface (rsEndpoint local)) [] 0 (epDevice (rsEndpoint remote)) (epInterface (rsEndpoint remote)) false in
       let d := d <| dvTrunkPorts := dvTrunkPorts d ++ [setTrunkProperties properties trunk] |> in
       onInterface (rsInterface local)
         (fun i => i <| ifDescription := linkDescription (rsEndpoint remote) |> <| ifVLANs := lpVLANs properties |>) d)
    cfg.

Definition endpointOccupied (cfg : Config) (endpoint : Endpoint) : bool :=
  existsb (fun segment =>
    existsb (fun device =>
      existsb (fun trunk =>
          (bool_decide (dvName device = epDevice endpoint) && bool_decide (tpInterface trunk = epInterface endpoint))
          || (bool_decide (tpRemoteDevice trunk = epDevice endpoint) && bool_decide (tpRemoteInterface trunk = epInterface endpoint)))
        (dvTrunkPorts device)) (sgDevices segment)) (NormalizedSegments cfg).

Definition exactTrunkIndex (trunks : list TrunkPort) (iface : string) (remote : Endpoint) : option nat :=
  fst <$> list_find (fun trunk => tpInterface trunk = iface /\ tpRemoteDevice trunk = epDevice remote /\
                                  tpRemoteInterface trunk = epInterface remote) trunks.

Definition trunksAt (cfg : Config) (p : devicePlace) : list TrunkPort := default [] (dvTrunkPorts <$> deviceAt cfg p).

Definition reciprocalIndices (cfg : Config) (near far : resolvedEndpoint) : option nat * option nat :=
  (exactTrunkIndex (trunksAt cfg (rsDevice near)) (epInterface (rsEndpoint near)) (rsEndpoint far),
   exactTrunkIndex (trunksAt cfg (rsDevice far)) (epInterface (rsEndpoint far)) (rsEndpoint near)).

Definition sameTrunkProperties (near far : TrunkPort) : bool :=
  bool_decide (sortBy id (tpVLANs near) = sortBy id (tpVLANs far)) && (tpNativeVLAN near =? tpNativeVLAN far)
  && Bool.eqb (tpFDBOnly near) (tpFDBOnly far).

Definition clearInterfaceLink (remote : Endpoint) (iface : Interface) : Interface :=
  let iface := if bool_decide (ifDescription iface = linkDescription remote) then iface <| ifDescription := "" |> else iface in
  iface <| ifVLANs := [] |>.

(** [slices.Delete(s, i, i+1)] *)
Definition deleteAt {A} (i : nat) (s : list A) : list A := take i s ++ drop (S i) s.

Definition connect (cfg : Config) (link : LinkMutation) : Config * option errClass :=
  match linkDevicesAndInterfaces cfg (lmEndpoints link) with
  | inr err => (cfg, Some err)
  | inl (near, far) =>
      if negb (deviceSegment cfg (epDevice (rsEndpoint near)) =? deviceSegment cfg (epDevice (rsEndpoint far)))
      then (cfg, Some errInvalid)
      else if endpointOccupied cfg (rsEndpoint near) || endpointOccupied cfg (rsEndpoint far) then (cfg, Some errConflict)
      else
        match validateLinkProperties (lmProperties link) with
        | Some err => (cfg, Some err)
        | None => (appendTrunk far near (lmProperties link) (appendTrunk near far (lmProperties link) cfg), None)
        end
  end.

Definition disconnect (cfg : Config) (endpoints : LinkEndpoints) : Config * option errClass :=
  match linkDevicesAndInterfaces cfg endpoints with
  | inr err => (cfg, Some err)
  | inl (near, far) =>
      match reciprocalIndices cfg near far with
      | (Some nearIndex, Some farIndex) =>
          let cfg := onDevice (rsDevice near) (fun d => d <| dvTrunkPorts := deleteAt nearIndex (dvTrunkPorts d) |>) cfg in
          let cfg := onDevice (rsDevice far) (fun d => d <| dvTrunkPorts := deleteAt farIndex (dvTrunkPorts d) |>) cfg in
          let cfg := onDevice (rsDevice near) (onInterface (rsInterface near) (clearInterfaceLink (rsEndpoint far))) cfg in
          (onDevice (rsDevice far) (onInterface (rsInterface far) (clearInterfaceLink (rsEndpoint near))) cfg, None)
      | _ => (cfg, Some errConflict)
      end
  end.

Definition updateLink (cfg : Config) (link : LinkMutation) : Config * option errClass :=
  match linkDevicesAndInterfaces cfg (lmEndpoints link) with
  | inr err => (cfg, Some err)
  | inl (near, far) =>
      match reciprocalIndices cfg near far with
      | (Some nearIndex, Some farIndex) =>
          match trunksAt cfg (rsDevice near) !! nearIndex, trunksAt cfg (rsDevice far) !! farIndex with
          | Some nearTrunk, Some farTrunk =>
              if negb (sameTrunkProperties nearTrunk farTrunk) then (cfg, Some errConflict)
              else
                match validateLinkProperties (lmProperties link) with
                | Some err => (cfg, Some err)
                | None =>
                    let set index d := d <| dvTrunkPorts := alter (setTrunkProperties (lmProperties link)) index (dvTrunkPorts d) |> in
                    let vlans iface := iface <| ifVLANs := lpVLANs (lmProperties link) |> in
                    let cfg := onDevice (rsDevice near) (set nearIndex) cfg in
                    let cfg := onDevice (rsDevice far) (set farIndex) cfg in
                    let cfg := onDevice (rsDevice near) (onInterface (rsInterface near) vlans) cfg in
                    (onDevice (rsDevice far) (onInterface (rsInterface far) vlans) cfg, None)
                end
          | _, _ => (cfg, None)
          end
      | _ => (cfg, Some errConflict)
      end
  end.

(** ** Devices *)

(** [net.ParseIP]: sixteen bytes. *)
Definition parseIP (s : string) : option (list Z) :=
  match ParseAddr s with
  | Some (Addr4 bits) => Some (replicate 10 0 ++ [0xff; 0xff] ++ big32 bits)
  | Some (Addr6 bits zone) =>
      if bool_decide (zone = ""%string) then Some ((fun k => Z.shiftr bits (120 - 8 * Z.of_nat k) mod 256) <$> seq 0 16) else None
  | _ => None
  end.

Definition capturedSNMPConfig (input : DeviceMutation) : SNMPConfig :=
  if bool_decide (dmWalkFile input = ""%string) then mkSNMPConfig None "" "" ""
  else mkSNMPConfig (Some true) "public" (dmName input) (dmWalkFile input).

Definition authoredInterface (i : DraftInterface) : Interface :=
  mkInterface (diName i) (diType i) (diNetwork i) (diAddress i) (diMTU i) (diSpeed i) (diDuplex i) (diAdminStatus i)
    (diOperStatus i) (diDescription i) (diInUtilization i) (diOutUtilization i) (diVLANs i).

Definition isEmpty (s : string) : bool := bool_decide (s = ""%string).

(** The checks before the device is built. *)
Definition deviceRefused (cfg : Config) (input : DeviceMutation) : option errClass :=
  if negb (bool_decide (cfSegments cfg = [])) then Some errInvalid
  else if isEmpty (TrimSpace (dmName input)) || negb (bool_decide (dmName input = TrimSpace (dmName input))) then Some errInvalid
  else if isEmpty (TrimSpace (dmType input)) then Some errInvalid
  else if negb (isEmpty (dmMAC input)) && negb (isEmpty (dmVendor input)) then Some errInvalid
  else if isEmpty (dmMAC input) && isEmpty (dmVendor input) then Some errInvalid
  else if maxMACSuffix <? dmMACSuffix input then Some errInvalid
  else if bool_decide (is_Some (findDevice cfg (dmName input))) then Some errConflict
  else None.

Definition addDevice (cfg : Config) (input : DeviceMutation) : Config * option errClass :=
  match deviceRefused cfg input with
  | Some err => (cfg, Some err)
  | None =>
      match (if isEmpty (dmMAC input) then Some [] else ParseMAC (dmMAC input)), mapM parseIP (dmIPs input) with
      | Some mac, Some ips =>
          let properties := if isEmpty (dmSysObjectID input) then dmProperties input
            else Some (<["sysObjectID"%string := dmSysObjectID input]> (default ∅ (dmProperties input))) in
          let device := mkDevice (dmName input) (dmType input) mac (dmVendor input) (dmMACSuffix input) ips (dmVLAN input)
            (authoredInterface <$> dmInterfaces input) (capturedSNMPConfig input) [] properties in
          (cfg <| cfDevices := cfDevices cfg ++ [device] |>, None)
      | _, _ => (cfg, Some errInvalid)
      end
  end.

(** NaN, infinite, or beyond the bound on either side. *)
Definition outOfBounds (x : spec_float) : bool :=
  match x with
  | S754_nan | S754_infinity _ => true
  | S754_zero _ => false
  | S754_finite _ m e => if 0 <=? e then maxCoordinate <? Z.pos m * 2 ^ e else maxCoordinate * 2 ^ (- e) <? Z.pos m
  end.

Section apply.
Context (formatFloat : spec_float -> string).

Definition moveDevice (cfg : Config) (position : PositionMutation) : Config * option errClass :=
  if outOfBounds (pmX position) || outOfBounds (pmY position) then (cfg, Some errInvalid)
  else
    match findDevice cfg (pmDevice position) with
    | None => (cfg, Some errNotFound)
    | Some p =>
        (onDevice p (fun d => d <| dvProperties := Some (<["topology_y"%string := formatFloat (pmY position)]>
           (<["topology_x"%string := formatFloat (pmX position)]> (default ∅ (dvProperties d)))) |>) cfg, None)
    end.

Definition validatePayload (m : Mutation) : option errClass :=
  let device := bool_decide (is_Some (muDevice m)) in
  let link := bool_decide (is_Some (muLink m)) in
  let position := bool_decide (is_Some (muPosition m)) in
  let op := muOperation m in
  if bool_decide (op = AddDevice) then if negb device || link || position then Some errInvalid else None
  else if bool_decide (op = Connect) || bool_decide (op = Disconnect) || bool_decide (op = UpdateLink)
  then if device || negb link || position then Some errInvalid else None
  else if bool_decide (op = MoveDevice) then if device || link || negb position then Some errInvalid else None
  else Some errInvalid.

(** A nil configuration is refused before anything is read. *)
Definition Apply (cfg : Config) (m : Mutation) : Config * option errClass :=
  match validatePayload m with
  | Some err => (cfg, Some err)
  | None =>
      let op := muOperation m in
      match muDevice m, muLink m, muPosition m with
      | Some device, None, None => if bool_decide (op = AddDevice) then addDevice cfg device else (cfg, Some errInvalid)
      | None, Some link, None =>
          if bool_decide (op = Connect) then connect cfg link
          else if bool_decide (op = Disconnect) then disconnect cfg (lmEndpoints link)
          else if bool_decide (op = UpdateLink) then updateLink cfg link
          else (cfg, Some errInvalid)
      | None, None, Some position => if bool_decide (op = MoveDevice) then moveDevice cfg position else (cfg, Some errInvalid)
      | _, _, _ => (cfg, Some errInvalid)
      end
  end.
End apply.

Definition ValidateSource (unmarshal : string -> option (list string)) (content : string) : option errClass :=
  match unmarshal content with
  | None => Some errInvalid
  | Some configs => if existsb (fun config => negb (isEmpty (TrimSpace config))) configs then Some errInvalid else None
  end.
