(* ===== verification/DraftTheorems.v ===== *)
(** * Draft edits: the cables behind the trunk ports

    A draft keeps a link twice, as a trunk port on the device at either end.
    The specification is the cables themselves: every edit that is accepted is
    an edit of the cables, every edit that is refused changes nothing, and
    disconnecting what was connected gives the draft back. *)

From Stdlib Require Import SpecFloat.
From S2P Require Import Prelude.
From S2P Require Import Netip.
From S2P Require Import NetipParse.
From S2P Require Import Bytes.
From S2P Require Import Text.
From S2P Require Import Draft.
Import config.

(** ** Devices and their places *)

Definition allDevices (cfg : Config) : list Device := cfDevices cfg ++ flat_map sgDevices (cfSegments cfg).

Lemma alter_middle {A} (f : A -> A) (l1 l2 : list A) x i : length l1 = i -> alter f i (l1 ++ x :: l2) = l1 ++ f x :: l2.
Proof. intros <-. induction l1 as [|y l1 IH]; [done|]. simpl. f_equal. exact IH. Qed.

Lemma alter_split {A} (f : A -> A) (l : list A) i x :
  l !! i = Some x -> exists l1 l2, l = l1 ++ x :: l2 /\ length l1 = i /\ alter f i l = l1 ++ f x :: l2.
Proof.
  intros H. exists (take i l), (drop (S i) l). pose proof (lookup_lt_Some _ _ _ H). split_and!.
  - by rewrite take_drop_middle.
  - rewrite length_take. lia.
  - rewrite <- (take_drop_middle _ _ _ H) at 1. rewrite alter_middle by (rewrite length_take; lia). done.
Qed.

(** A device is somewhere among all devices, and assigning it touches no other. *)
Lemma place_split cfg p d :
  deviceAt cfg p = Some d ->
  exists l1 l2, allDevices cfg = l1 ++ d :: l2 /\ forall f, allDevices (onDevice p f cfg) = l1 ++ f d :: l2.
Proof.
  unfold allDevices. destruct p as [i|s i]; simpl.
  - intros H. exists (take i (cfDevices cfg)), (drop (S i) (cfDevices cfg) ++ flat_map sgDevices (cfSegments cfg)). split.
    + by rewrite <- (take_drop_middle _ _ _ H) at 1; rewrite <- app_assoc.
    + intros f. destruct (alter_split f _ _ _ H) as (l1 & l2 & E & <- & ->).
      by rewrite E, take_app_length, <- (app_assoc l1), <- app_comm_cons, drop_app_ge, Nat.sub_succ_l, Nat.sub_diag by lia.
  - intros (seg & Hs & Hi)%bind_Some.
    destruct (alter_split (fun x => x) _ _ _ Hs) as (s1 & s2 & Es & Els & _).
    destruct (alter_split (fun x => x) _ _ _ Hi) as (d1 & d2 & Ed & Eld & _).
    exists (cfDevices cfg ++ flat_map sgDevices s1 ++ d1), (d2 ++ flat_map sgDevices s2). split.
    + rewrite Es, flat_map_app. simpl. rewrite Ed. by rewrite <- !app_assoc.
    + intros f. rewrite Es, <- Els, alter_middle by done. rewrite flat_map_app. simpl.
      rewrite Ed, <- Eld, alter_middle by done. by rewrite <- !app_assoc.
Qed.

Lemma deviceAt_same cfg p f : deviceAt (onDevice p f cfg) p = f <$> deviceAt cfg p.
Proof.
  destruct p as [i|s i]; simpl; [by rewrite list_lookup_alter_eq|]. rewrite list_lookup_alter_eq.
  destruct (cfSegments cfg !! s) as [seg|]; simpl; [|done]. by rewrite list_lookup_alter_eq.
Qed.

Lemma deviceAt_other cfg p q f : p <> q -> deviceAt (onDevice p f cfg) q = deviceAt cfg q.
Proof.
  destruct p as [i|s i], q as [j|t j]; simpl; try done.
  - intros Hne. rewrite list_lookup_alter_ne; [done|]. by intros ->.
  - intros Hne. destruct (decide (s = t)) as [<-|Hs]; [|by rewrite list_lookup_alter_ne].
    rewrite list_lookup_alter_eq. destruct (cfSegments cfg !! s) as [seg|]; simpl; [|done].
    rewrite list_lookup_alter_ne; [done|]. by intros ->.
Qed.

Lemma indexNamed_spec name devices i :
  indexNamed name devices = Some i -> exists d, devices !! i = Some d /\ dvName d = name.
Proof.
  revert i. induction devices as [|d devices IH]; intros i; simpl; [done|]. case_bool_decide as E; [intros [= <-]; by exists d|].
  intros (j & Hj & ->)%fmap_Some. by apply IH.
Qed.

Lemma indexNamed_none name devices : indexNamed name devices = None <-> Forall (fun d => dvName d <> name) devices.
Proof.
  induction devices as [|d devices IH]; simpl; [done|]. rewrite Forall_cons, <- IH. case_bool_decide as E; [naive_solver|].
  rewrite fmap_None. naive_solver.
Qed.

Lemma segmentNamed_spec name segments s i :
  segmentNamed name segments = Some (s, i) ->
  exists seg d, segments !! s = Some seg /\ sgDevices seg !! i = Some d /\ dvName d = name.
Proof.
  revert s i. induction segments as [|seg segments IH]; intros s i; simpl; [done|].
  destruct (indexNamed name (sgDevices seg)) as [j|] eqn:E.
  - intros [= <- <-]. apply indexNamed_spec in E as (d & ? & ?). by exists seg, d.
  - intros ([s' i'] & H & [= -> ->])%fmap_Some. by apply IH in H.
Qed.

Lemma findDevice_spec cfg name p :
  findDevice cfg name = Some p -> exists d, deviceAt cfg p = Some d /\ dvName d = name.
Proof.
  unfold findDevice. destruct (indexNamed _ _) as [i|] eqn:E.
  - intros [= <-]. by apply indexNamed_spec in E.
  - intros ([s i] & H & ->)%fmap_Some. apply segmentNamed_spec in H as (seg & d & Hs & Hi & Hd). exists d. simpl. by rewrite Hs.
Qed.

(** ** Trunk ports *)

Definition portsOf (d : Device) : list (string * TrunkPort) := (fun t => (dvName d, t)) <$> dvTrunkPorts d.

Definition ports (cfg : Config) : list (string * TrunkPort) := flat_map portsOf (allDevices cfg).

Lemma ports_edit cfg p d :
  deviceAt cfg p = Some d ->
  exists rest, ports cfg ≡ₚ portsOf d ++ rest /\ forall f, ports (onDevice p f cfg) ≡ₚ portsOf (f d) ++ rest.
Proof.
  intros (l1 & l2 & E & H)%place_split. exists (flat_map portsOf l1 ++ flat_map portsOf l2). unfold ports. split.
  - rewrite E, flat_map_app. simpl. solve_Permutation.
  - intros f. rewrite H, flat_map_app. simpl. solve_Permutation.
Qed.

Lemma port_at cfg p d i t :
  deviceAt cfg p = Some d -> dvTrunkPorts d !! i = Some t -> (dvName d, t) ∈ ports cfg.
Proof.
  intros (rest & -> & _)%ports_edit Ht. apply elem_of_app. left. apply list_elem_of_fmap_2. by eapply list_elem_of_lookup_2.
Qed.

(** What the edits do to the ports of one device. *)
Lemma ports_same cfg p d f :
  deviceAt cfg p = Some d -> dvName (f d) = dvName d -> dvTrunkPorts (f d) = dvTrunkPorts d -> ports (onDevice p f cfg) ≡ₚ ports cfg.
Proof. intros (rest & E & H)%ports_edit Hn Ht. rewrite E, H. unfold portsOf. by rewrite Hn, Ht. Qed.

Lemma ports_appended cfg p d f t :
  deviceAt cfg p = Some d -> dvName (f d) = dvName d -> dvTrunkPorts (f d) = dvTrunkPorts d ++ [t] ->
  ports (onDevice p f cfg) ≡ₚ (dvName d, t) :: ports cfg.
Proof.
  intros (rest & E & H)%ports_edit Hn Ht. rewrite E, H. unfold portsOf. rewrite Hn, Ht, fmap_app. simpl. solve_Permutation.
Qed.

Lemma deleteAt_perm {A} (l : list A) i x : l !! i = Some x -> l ≡ₚ x :: deleteAt i l.
Proof. intros H. unfold deleteAt. rewrite <- (take_drop_middle _ _ _ H) at 1. by rewrite Permutation_middle. Qed.

Definition deletePort (i : nat) (d : Device) : Device := d <| dvTrunkPorts := deleteAt i (dvTrunkPorts d) |>.
Definition alterPort (g : TrunkPort -> TrunkPort) (i : nat) (d : Device) : Device := d <| dvTrunkPorts := alter g i (dvTrunkPorts d) |>.

Lemma ports_deleted cfg p d i t :
  deviceAt cfg p = Some d -> dvTrunkPorts d !! i = Some t -> ports cfg ≡ₚ (dvName d, t) :: ports (onDevice p (deletePort i) cfg).
Proof.
  intros (rest & E & H)%ports_edit Hi. rewrite E, H. unfold portsOf. simpl. by rewrite (deleteAt_perm _ _ _ Hi) at 1.
Qed.

Lemma ports_altered cfg p d i t g :
  deviceAt cfg p = Some d -> dvTrunkPorts d !! i = Some t ->
  exists rest, ports cfg ≡ₚ (dvName d, t) :: rest /\ ports (onDevice p (alterPort g i) cfg) ≡ₚ (dvName d, g t) :: rest.
Proof.
  intros (rest & E & H)%ports_edit Hi. destruct (alter_split g _ _ _ Hi) as (l1 & l2 & El & _ & Ea).
  exists (((fun t => (dvName d, t)) <$> l1 ++ l2) ++ rest). rewrite E, H. unfold portsOf. simpl. rewrite Ea, El, !fmap_app, !fmap_cons.
  split; solve_Permutation.
Qed.

(** ** Segments *)

Definition unmixed (cfg : Config) : Prop := cfDevices cfg = [] \/ cfSegments cfg = [].

Lemma unmixed_devices cfg : unmixed cfg -> flat_map sgDevices (NormalizedSegments cfg) = allDevices cfg.
Proof.
  unfold NormalizedSegments, allDevices. intros [E|E].
  - case_bool_decide as Es; simpl; rewrite E; [by rewrite Es|done].
  - rewrite E. simpl. by rewrite app_nil_r.
Qed.

Lemma unmixed_edit cfg p f : unmixed cfg -> unmixed (onDevice p f cfg).
Proof.
  unfold unmixed. destruct p as [i|s i]; intros [E|E]; [left|right|left|right]; simpl; rewrite ?E; done.
Qed.

Lemma indexNamed_edit name devices i f :
  (forall d, dvName (f d) = dvName d) -> indexNamed name (alter f i devices) = indexNamed name devices.
Proof.
  intros Hf. revert i. induction devices as [|d devices IH]; intros [|i]; simpl; [done|done|by rewrite Hf|].
  change (list_alter f i devices) with (alter f i devices). by rewrite IH.
Qed.

Lemma segmentNamed_edit name segments s i f :
  (forall d, dvName (f d) = dvName d) ->
  segmentNamed name (alter (fun seg => seg <| sgDevices := alter f i (sgDevices seg) |>) s segments) = segmentNamed name segments.
Proof.
  intros Hf. revert s. induction segments as [|seg segments IH]; intros [|s]; simpl; [done|done| |].
  - by rewrite indexNamed_edit.
  - change (list_alter ?g s segments) with (alter g s segments). by rewrite IH.
Qed.

Definition keepsName (f : Device -> Device) : Prop := forall d, dvName (f d) = dvName d.

Lemma segment_edit cfg p f name : keepsName f -> deviceSegment (onDevice p f cfg) name = deviceSegment cfg name.
Proof.
  intros Hf. unfold deviceSegment. destruct p as [i|s i]; [done|].
  pose proof (segmentNamed_edit name (cfSegments cfg) s i f Hf) as H. simpl in *. rewrite H.
  by destruct (cfSegments cfg), s.
Qed.

Lemma findDevice_edit cfg p f name : keepsName f -> findDevice (onDevice p f cfg) name = findDevice cfg name.
Proof.
  intros Hf. unfold findDevice. destruct p as [i|s i]; simpl; [by rewrite indexNamed_edit|].
  pose proof (segmentNamed_edit name (cfSegments cfg) s i f Hf) as H. simpl in *. by rewrite H.
Qed.

(** ** Cables *)

Record cable := mkCable { cbNear : Endpoint; cbFar : Endpoint; cbProperties : LinkProperties }.

(** The port a cable makes of its end at [near]. *)
Definition portFor (near far : Endpoint) (p : LinkProperties) : string * TrunkPort :=
  (epDevice near, mkTrunkPort (epInterface near) (lpVLANs p) (lpNativeVLAN p) (epDevice far) (epInterface far) (lpFDBOnly p)).

Definition ends (c : cable) : list (string * TrunkPort) :=
  [portFor (cbNear c) (cbFar c) (cbProperties c); portFor (cbFar c) (cbNear c) (cbProperties c)].

Definition plugs (c : cable) : list Endpoint := [cbNear c; cbFar c].

(** The draft shows the cables: each at both its ends with the same
    properties and nothing else, an interface takes one cable, and no cable
    leaves its segment. *)
Definition wired (cfg : Config) (cables : list cable) : Prop :=
  unmixed cfg /\ ports cfg ≡ₚ flat_map ends cables /\ NoDup (flat_map plugs cables) /\
  Forall (fun c => deviceSegment cfg (epDevice (cbNear c)) = deviceSegment cfg (epDevice (cbFar c))) cables.

Lemma portFor_inj a b p a' b' p' : portFor a b p = portFor a' b' p' -> a = a' /\ b = b' /\ p = p'.
Proof. destruct a, b, p, a', b', p'. unfold portFor. simpl. intros [= -> -> -> -> -> -> ->]. done. Qed.

(** A port says which cable it belongs to. *)
Lemma port_cable cfg cables name t :
  wired cfg cables -> (name, t) ∈ ports cfg ->
  exists c, c ∈ cables /\ let near := mkEndpoint name (tpInterface t) in let far := mkEndpoint (tpRemoteDevice t) (tpRemoteInterface t) in
    (name, t) = portFor near far (cbProperties c) /\ (c = mkCable near far (cbProperties c) \/ c = mkCable far near (cbProperties c)).
Proof.
  intros (_ & Hp & _) Hin. rewrite Hp in Hin. apply list_elem_of_In, in_flat_map in Hin as (c & Hc & Hin).
  exists c. split; [by apply list_elem_of_In|]. destruct c as [[na ia] [nb ib] [vl nv fdb]].
  destruct Hin as [E|[E|[]]]; injection E as <- <-; simpl; auto.
Qed.

(** Ports of one cable at most are at an interface. *)
Lemma plug_unique cables c c' e :
  NoDup (flat_map plugs cables) -> c ∈ cables -> c' ∈ cables -> e ∈ plugs c -> e ∈ plugs c' -> c = c'.
Proof.
  intros Hn Hc Hc' He He'. induction cables as [|x cables IH]; [by apply not_elem_of_nil in Hc|].
  cbn [flat_map] in Hn. apply NoDup_app in Hn as (_ & Hd & Hn).
  assert (forall y, y ∈ cables -> e ∈ plugs y -> e ∈ flat_map plugs cables) as Hin.
  { intros y Hy Hey. apply list_elem_of_In, in_flat_map. exists y. by split; apply list_elem_of_In. }
  apply elem_of_cons in Hc as [->|Hc], Hc' as [->|Hc']; [done| | |by apply IH].
  - destruct (Hd e He). by eapply Hin.
  - destruct (Hd e He'). by eapply Hin.
Qed.

Lemma occupied_plugs cfg cables e :
  wired cfg cables -> endpointOccupied cfg e = bool_decide (e ∈ flat_map plugs cables).
Proof.
  intros Hw. apply eq_bool_prop_intro. rewrite bool_decide_spec. unfold endpointOccupied.
  assert (forall e, e ∈ flat_map plugs cables <-> exists c, c ∈ cables /\ e ∈ plugs c) as Hplug.
  { intros x. rewrite list_elem_of_In, in_flat_map. setoid_rewrite list_elem_of_In. done. }
  rewrite Hplug. split.
  - rewrite Is_true_true, existsb_exists. intros (seg & Hseg & H). rewrite existsb_exists in H. destruct H as (d & Hd & H).
    rewrite existsb_exists in H. destruct H as (t & Ht & H).
    assert ((dvName d, t) ∈ ports cfg) as Hin.
    { unfold ports. apply list_elem_of_In, in_flat_map. exists d. split; [|by apply list_elem_of_In, list_elem_of_fmap_2, list_elem_of_In].
      rewrite <- unmixed_devices by apply Hw. apply in_flat_map. by exists seg. }
    destruct (port_cable _ _ _ _ Hw Hin) as (c & Hc & _ & Hends). exists c. split; [done|].
    apply orb_true_iff in H as [H|H]; apply andb_true_iff in H as [H1%bool_decide_eq_true H2%bool_decide_eq_true];
      destruct e as [n i]; simpl in *; subst n i; destruct Hends as [->| ->]; set_solver.
  - intros (c & Hc & He). destruct Hw as (Hu & Hp & _). rewrite Is_true_true, existsb_exists.
    assert (exists t, portFor (cbNear c) (cbFar c) (cbProperties c) = (epDevice (cbNear c), t) /\
      (epDevice (cbNear c), t) ∈ ports cfg /\ tpInterface t = epInterface (cbNear c) /\
      tpRemoteDevice t = epDevice (cbFar c) /\ tpRemoteInterface t = epInterface (cbFar c)) as (t & _ & Hin & Hi & Hrd & Hri).
    { eexists. split; [reflexivity|]. split; [|done]. rewrite Hp. apply list_elem_of_In, in_flat_map. exists c.
      split; [by apply list_elem_of_In|by left]. }
    unfold ports in Hin. apply list_elem_of_In, in_flat_map in Hin as (d & Hd & Hin).
    rewrite <- unmixed_devices in Hd by done. apply in_flat_map in Hd as (seg & Hseg & Hd). exists seg. split; [done|].
    apply existsb_exists. exists d. split; [done|]. apply existsb_exists.
    apply list_elem_of_In, list_elem_of_fmap in Hin as (t' & [= En <-] & Ht). exists t. split; [by apply list_elem_of_In|].
    apply orb_true_iff. apply elem_of_cons in He as [->|He%list_elem_of_singleton]; [left|right; subst e];
      apply andb_true_iff; rewrite !bool_decide_eq_true; by split.
Qed.

(** ** Resolved ends *)

Definition resolvedAs (cfg : Config) (r : resolvedEndpoint) (d : Device) : Prop :=
  deviceAt cfg (rsDevice r) = Some d /\ dvName d = epDevice (rsEndpoint r).

Lemma resolve_spec cfg e r : resolveEndpoint cfg e = inl r -> rsEndpoint r = e /\ exists d, resolvedAs cfg r d.
Proof.
  unfold resolveEndpoint. destruct (findDevice cfg (epDevice e)) as [p|] eqn:E; [|done]. apply findDevice_spec in E as (d & Hd & Hn).
  destruct (interfaceNamed _ _) as [[i iface]|]; [|done]. destruct (physicalType _); [|done]. intros [= <-]. split; [done|]. by exists d.
Qed.

Lemma link_spec cfg link a b :
  linkDevicesAndInterfaces cfg link = inl (a, b) ->
  rsEndpoint a = leSource link /\ rsEndpoint b = leTarget link /\ rsDevice a <> rsDevice b /\
  epDevice (leSource link) <> epDevice (leTarget link) /\ exists da db, resolvedAs cfg a da /\ resolvedAs cfg b db.
Proof.
  unfold linkDevicesAndInterfaces. case_bool_decide as Hne; [done|]. destruct (resolveEndpoint cfg (leSource link)) as [x|] eqn:Ea; [|done].
  destruct (resolveEndpoint cfg (leTarget link)) as [y|] eqn:Eb; [|done]. intros [= -> ->].
  apply resolve_spec in Ea as (Ea & da & Ha & Na), Eb as (Eb & db & Hb & Nb). split_and!; [done..| |done|].
  - intros E. apply Hne. rewrite <- Ea, <- Eb. congruence.
  - exists da, db. by repeat split.
Qed.

Lemma resolved_edit cfg r d p f : keepsName f ->
  resolvedAs cfg r d -> exists d', resolvedAs (onDevice p f cfg) r d' /\ (p <> rsDevice r -> d' = d) /\ (p = rsDevice r -> d' = f d).
Proof.
  intros Hf [Hd Hn]. destruct (decide (p = rsDevice r)) as [E|Hne].
  - exists (f d). split; [|done]. split; [by rewrite E, deviceAt_same, Hd|by rewrite Hf].
  - exists d. split; [|done]. split; [by rewrite deviceAt_other|done].
Qed.

Lemma keepsName_interface i g : keepsName (onInterface i g).
Proof. done. Qed.

(** An edit of interfaces is none of cables. *)
Lemma ports_interface cfg r d i g : resolvedAs cfg r d -> ports (onDevice (rsDevice r) (onInterface i g) cfg) ≡ₚ ports cfg.
Proof. intros [Hd _]. by eapply ports_same. Qed.

Lemma wired_ports cfg cfg' cables :
  unmixed cfg' -> (forall name, deviceSegment cfg' name = deviceSegment cfg name) -> ports cfg' ≡ₚ ports cfg ->
  wired cfg cables -> wired cfg' cables.
Proof.
  intros Hu Hs Hp (_ & E & Hn & Hsg). split; [done|]. split; [by rewrite Hp|]. split; [done|].
  eapply Forall_impl; [exact Hsg|]. intros c H. by rewrite !Hs.
Qed.

(** ** Connecting *)

Lemma appended cfg local remote p d :
  resolvedAs cfg local d ->
  ports (appendTrunk local remote p cfg) ≡ₚ portFor (rsEndpoint local) (rsEndpoint remote) p :: ports cfg.
Proof.
  intros [Hd Hn]. unfold appendTrunk. erewrite (ports_appended cfg _ d); [|done|done|reflexivity].
  unfold portFor, setTrunkProperties. simpl. by rewrite Hn.
Qed.

Lemma keepsName_append local remote p :
  keepsName (fun d => onInterface (rsInterface local)
    (fun i => i <| ifDescription := linkDescription (rsEndpoint remote) |> <| ifVLANs := lpVLANs p |>)
    (d <| dvTrunkPorts := dvTrunkPorts d ++ [setTrunkProperties p (mkTrunkPort (epInterface (rsEndpoint local)) [] 0
      (epDevice (rsEndpoint remote)) (epInterface (rsEndpoint remote)) false)] |>)).
Proof. done. Qed.

Lemma connect_wires cfg link cables cfg' :
  wired cfg cables -> connect cfg link = (cfg', None) ->
  let a := leSource (lmEndpoints link) in let b := leTarget (lmEndpoints link) in
  a ∉ flat_map plugs cables /\ b ∉ flat_map plugs cables /\ wired cfg' (mkCable a b (lmProperties link) :: cables).
Proof.
  intros Hw. unfold connect. destruct (linkDevicesAndInterfaces _ _) as [[ra rb]|] eqn:El; [|done].
  apply link_spec in El as (<- & <- & Hp & Hne & da & db & Ha & Hb).
  destruct (Z.eqb_spec (deviceSegment cfg (epDevice (rsEndpoint ra))) (deviceSegment cfg (epDevice (rsEndpoint rb)))) as [Es|]; [|done]. simpl.
  rewrite !(occupied_plugs cfg cables) by done. destruct (bool_decide_reflect (rsEndpoint ra ∈ flat_map plugs cables)) as [|Hna]; [done|].
  destruct (bool_decide_reflect (rsEndpoint rb ∈ flat_map plugs cables)) as [|Hnb]; [done|]. simpl.
  destruct (validateLinkProperties _); [done|]. intros [= <-]. split; [done|]. split; [done|].
  destruct (resolved_edit cfg rb db (rsDevice ra) _ (keepsName_append ra rb (lmProperties link)) Hb) as (db' & Hb' & _).
  destruct Hw as (Hu & E & Hn & Hsg). split_and!.
  - by do 2 apply unmixed_edit.
  - rewrite (appended _ _ _ _ db') by exact Hb'. rewrite (appended _ _ _ _ da) by exact Ha. rewrite E. cbn [flat_map ends app cbNear cbFar cbProperties].
    apply Permutation_swap.
  - cbn [flat_map plugs app cbNear cbFar]. apply NoDup_cons. split; [|by apply NoDup_cons].
    intros [Eab|Hin]%elem_of_cons; [|done]. apply Hne. by rewrite Eab.
  - assert (forall name, deviceSegment (appendTrunk rb ra (lmProperties link) (appendTrunk ra rb (lmProperties link) cfg)) name = deviceSegment cfg name) as Hseg
      by (intros name; unfold appendTrunk; by rewrite !segment_edit).
    constructor; [cbn [cbNear cbFar]; by rewrite !Hseg|]. eapply Forall_impl; [exact Hsg|]. intros c H. by rewrite !Hseg.
Qed.

(** ** Finding a cable *)

Lemma exactTrunkIndex_spec trunks iface remote i :
  exactTrunkIndex trunks iface remote = Some i ->
  exists t, trunks !! i = Some t /\ tpInterface t = iface /\ mkEndpoint (tpRemoteDevice t) (tpRemoteInterface t) = remote.
Proof.
  unfold exactTrunkIndex. intros ([j t] & (Hi & (H1 & H2 & H3) & _)%list_find_Some & [= <-])%fmap_Some. exists t.
  split_and!; [done|done|]. destruct remote. simpl in *. by rewrite H2, H3.
Qed.

Lemma trunksAt_resolved cfg r d : resolvedAs cfg r d -> trunksAt cfg (rsDevice r) = dvTrunkPorts d.
Proof. intros [Hd _]. unfold trunksAt. by rewrite Hd. Qed.

(** The two ports that name each other are the two ends of one cable. *)
Lemma cable_found cfg cables ra rb da db ia ib :
  wired cfg cables -> resolvedAs cfg ra da -> resolvedAs cfg rb db -> reciprocalIndices cfg ra rb = (Some ia, Some ib) ->
  exists c rest ta tb, cables ≡ₚ c :: rest /\ plugs c ≡ₚ [rsEndpoint ra; rsEndpoint rb] /\
    dvTrunkPorts da !! ia = Some ta /\ dvTrunkPorts db !! ib = Some tb /\
    (dvName da, ta) = portFor (rsEndpoint ra) (rsEndpoint rb) (cbProperties c) /\
    (dvName db, tb) = portFor (rsEndpoint rb) (rsEndpoint ra) (cbProperties c).
Proof.
  intros Hw Ha Hb [= Ea Eb]. rewrite (trunksAt_resolved _ _ _ Ha) in Ea. rewrite (trunksAt_resolved _ _ _ Hb) in Eb.
  apply exactTrunkIndex_spec in Ea as (ta & Hta & Ia & Ra), Eb as (tb & Htb & Ib & Rb).
  destruct (port_cable _ _ _ _ Hw (port_at _ _ _ _ _ (proj1 Ha) Hta)) as (c & Hc & Pa & Ca).
  destruct (port_cable _ _ _ _ Hw (port_at _ _ _ _ _ (proj1 Hb) Htb)) as (c' & Hc' & Pb & Cb).
  rewrite Ra, Ia in *. rewrite Rb, Ib in *.
  assert (mkEndpoint (dvName da) (epInterface (rsEndpoint ra)) = rsEndpoint ra) as Ea by (destruct Ha as [_ ->]; by destruct (rsEndpoint ra)).
  assert (mkEndpoint (dvName db) (epInterface (rsEndpoint rb)) = rsEndpoint rb) as Eb by (destruct Hb as [_ ->]; by destruct (rsEndpoint rb)).
  rewrite Ea in *. rewrite Eb in *.
  assert (c = c') as <-.
  { apply (plug_unique cables c c' (rsEndpoint ra)); [apply Hw|done|done|destruct Ca as [->| ->]; set_solver|destruct Cb as [->| ->]; set_solver]. }
  apply list_elem_of_In, in_split in Hc as (l1 & l2 & El). exists c, (l1 ++ l2), ta, tb. split_and!; try done.
  - rewrite El. by rewrite Permutation_middle.
  - destruct Ca as [->| ->]; unfold plugs; simpl; [done|]. apply Permutation_swap.
Qed.

Lemma ends_found c a b p : plugs c ≡ₚ [a; b] -> p = cbProperties c -> ends c ≡ₚ [portFor a b p; portFor b a p].
Proof.
  intros Hp ->. destruct c as [x y p]. unfold plugs, ends in *. simpl in *.
  apply Permutation_length_2_inv in Hp as [[= -> ->]|[= -> ->]]; [done|]. apply Permutation_swap.
Qed.

Lemma wired_perm cfg cables cables' : cables ≡ₚ cables' -> wired cfg cables -> wired cfg cables'.
Proof.
  intros E (Hu & Hp & Hn & Hs). split; [done|]. split; [by rewrite <- E|]. split; [by rewrite <- E|]. by rewrite <- E.
Qed.

#[export] Instance wired_proper cfg : Proper ((≡ₚ) ==> iff) (wired cfg).
Proof. intros l l' E. split; by apply wired_perm. Qed.

(** ** Disconnecting *)

Lemma keepsName_delete i : keepsName (deletePort i).
Proof. done. Qed.

Lemma keepsName_set g i : keepsName (alterPort g i).
Proof. done. Qed.

(** The four assignments of a disconnect and of an update: one to the ports
    of each device, then one to an interface of each. *)
Section four.
Context (cfg : Config) (ra rb : resolvedEndpoint) (da db : Device) (f g : Device -> Device) (ga gb : Interface -> Interface).
Hypothesis (Ha : resolvedAs cfg ra da) (Hb : resolvedAs cfg rb db) (Hne : rsDevice ra <> rsDevice rb).
Hypothesis (Hf : keepsName f) (Hg : keepsName g).

Let cfg1 := onDevice (rsDevice ra) f cfg.
Let cfg2 := onDevice (rsDevice rb) g cfg1.
Let cfg4 := onDevice (rsDevice rb) (onInterface (rsInterface rb) gb) (onDevice (rsDevice ra) (onInterface (rsInterface ra) ga) cfg2).

Lemma second_resolved : resolvedAs cfg1 rb db.
Proof. destruct (resolved_edit cfg rb db (rsDevice ra) f Hf Hb) as (d & Hd & Hsame & _). by rewrite <- Hsame. Qed.

Lemma four_ports : ports cfg4 ≡ₚ ports cfg2.
Proof.
  destruct (resolved_edit cfg ra da (rsDevice ra) f Hf Ha) as (da1 & Ha1 & _).
  destruct (resolved_edit cfg1 ra da1 (rsDevice rb) g Hg Ha1) as (da2 & Ha2 & _).
  destruct (resolved_edit cfg1 rb db (rsDevice rb) g Hg second_resolved) as (db2 & Hb2 & _).
  destruct (resolved_edit cfg2 rb db2 (rsDevice ra) _ (keepsName_interface (rsInterface ra) ga) Hb2) as (db3 & Hb3 & _).
  unfold cfg4. rewrite (ports_interface _ rb db3) by exact Hb3. by rewrite (ports_interface _ ra da2).
Qed.

Lemma four_unmixed : unmixed cfg -> unmixed cfg4.
Proof. intros H. by do 4 apply unmixed_edit. Qed.

Lemma four_segment name : deviceSegment cfg4 name = deviceSegment cfg name.
Proof. unfold cfg4, cfg2, cfg1. by rewrite !segment_edit. Qed.
End four.

Lemma disconnect_unwires cfg endpoints cables cfg' :
  wired cfg cables -> disconnect cfg endpoints = (cfg', None) ->
  exists c rest, cables ≡ₚ c :: rest /\ plugs c ≡ₚ [leSource endpoints; leTarget endpoints] /\ wired cfg' rest.
Proof.
  intros Hw. unfold disconnect. destruct (linkDevicesAndInterfaces _ _) as [[ra rb]|] eqn:El; [|done].
  apply link_spec in El as (<- & <- & Hp & Hne & da & db & Ha & Hb).
  destruct (reciprocalIndices cfg ra rb) as [[ia|] [ib|]] eqn:Ei; try done. intros [= <-].
  destruct (cable_found _ _ _ _ _ _ _ _ Hw Ha Hb Ei) as (c & rest & ta & tb & Ec & Hplug & Hta & Htb & Pa & Pb).
  exists c, rest. split; [done|]. split; [done|]. rewrite Ec in Hw. destruct Hw as (Hu & E & Hn & Hsg).
  pose proof (second_resolved cfg ra rb db _ Hb Hp (keepsName_delete ia)) as Hb1.
  split; [by apply (four_unmixed cfg ra rb (deletePort ia) (deletePort ib))|]. split; [|split].
  - pose proof (four_ports cfg ra rb da db (deletePort ia) (deletePort ib) (clearInterfaceLink (rsEndpoint rb)) (clearInterfaceLink (rsEndpoint ra))
      Ha Hb Hp (keepsName_delete ia) (keepsName_delete ib)) as E4. etrans; [exact E4|].
    pose proof (ports_deleted cfg _ da ia ta (proj1 Ha) Hta) as E1.
    pose proof (ports_deleted _ _ db ib tb (proj1 Hb1) Htb) as E2.
    rewrite E2, Pa, Pb in E1. rewrite E in E1. cbn [flat_map] in E1. rewrite (ends_found c _ _ _ Hplug eq_refl) in E1.
    symmetry. by do 2 apply Permutation_cons_inv in E1.
  - cbn [flat_map] in Hn. by apply NoDup_app in Hn as (_ & _ & Hn).
  - apply Forall_cons in Hsg as [_ Hsg]. eapply Forall_impl; [exact Hsg|]. intros x Hx.
    rewrite !(four_segment cfg ra rb (deletePort ia) (deletePort ib)); done.
Qed.

Lemma set_portFor a b q p n t : (n, t) = portFor a b q -> (n, setTrunkProperties p t) = portFor a b p.
Proof. by intros [= -> ->]. Qed.

Lemma update_rewires cfg link cables cfg' :
  wired cfg cables -> updateLink cfg link = (cfg', None) ->
  let a := leSource (lmEndpoints link) in let b := leTarget (lmEndpoints link) in
  exists c rest, cables ≡ₚ c :: rest /\ plugs c ≡ₚ [a; b] /\ wired cfg' (mkCable a b (lmProperties link) :: rest).
Proof.
  intros Hw. unfold updateLink. destruct (linkDevicesAndInterfaces _ _) as [[ra rb]|] eqn:El; [|done].
  apply link_spec in El as (<- & <- & Hp & Hne & da & db & Ha & Hb).
  destruct (reciprocalIndices cfg ra rb) as [[ia|] [ib|]] eqn:Ei; try done.
  destruct (cable_found _ _ _ _ _ _ _ _ Hw Ha Hb Ei) as (c & rest & ta & tb & Ec & Hplug & Hta & Htb & Pa & Pb).
  rewrite (trunksAt_resolved _ _ _ Ha), (trunksAt_resolved _ _ _ Hb), Hta, Htb. destruct (sameTrunkProperties ta tb); [|done]. simpl negb.
  cbv iota. destruct (validateLinkProperties _); [done|]. set (p := lmProperties link). set (g := setTrunkProperties p). intros [= <-].
  exists c, rest. split; [done|]. split; [done|]. rewrite Ec in Hw. destruct Hw as (Hu & E & Hn & Hsg).
  pose proof (second_resolved cfg ra rb db _ Hb Hp (keepsName_set g ia)) as Hb1.
  split; [by apply (four_unmixed cfg ra rb (alterPort g ia) (alterPort g ib))|]. split; [|split].
  - pose proof (four_ports cfg ra rb da db (alterPort g ia) (alterPort g ib) (fun i => i <| ifVLANs := lpVLANs p |>) (fun i => i <| ifVLANs := lpVLANs p |>)
      Ha Hb Hp (keepsName_set g ia) (keepsName_set g ib)) as E4. etrans; [exact E4|].
    destruct (ports_altered cfg _ da ia ta g (proj1 Ha) Hta) as (r1 & E1 & E1').
    destruct (ports_altered _ _ db ib tb g (proj1 Hb1) Htb) as (r2 & E2 & E2').
    rewrite E2'. unfold g in *. rewrite (set_portFor _ _ _ p _ _ Pa) in E1'. rewrite (set_portFor _ _ _ p _ _ Pb). rewrite E1, Pa in E.
    rewrite E1', Pb in E2. cbn [flat_map] in *. rewrite (ends_found c _ _ _ Hplug eq_refl) in E.
    apply Permutation_cons_inv in E. cbn [app] in E. rewrite E, Permutation_swap in E2. apply Permutation_cons_inv in E2.
    rewrite <- E2. apply Permutation_swap.
  - cbn [flat_map] in *. rewrite Hplug in Hn. exact Hn.
  - assert (forall name, deviceSegment (onDevice (rsDevice rb) (onInterface (rsInterface rb) (fun i => i <| ifVLANs := lpVLANs p |>))
      (onDevice (rsDevice ra) (onInterface (rsInterface ra) (fun i => i <| ifVLANs := lpVLANs p |>))
        (onDevice (rsDevice rb) (alterPort g ib) (onDevice (rsDevice ra) (alterPort g ia) cfg)))) name = deviceSegment cfg name) as Hseg
      by (intros name; by apply four_segment).
    apply Forall_cons in Hsg as [Hc Hsg]. constructor.
    + cbn [cbNear cbFar]. rewrite !Hseg. destruct c as [x y q]. unfold plugs in Hplug. simpl in *.
      by apply Permutation_length_2_inv in Hplug as [[= -> ->]|[= -> ->]].
    + eapply Forall_impl; [exact Hsg|]. intros x Hx. by rewrite !Hseg.
Qed.

(** ** Every edit *)

(** What an accepted edit does to the cables. *)
Definition rewired (m : Mutation) (cables cables' : list cable) : Prop :=
  match muLink m with
  | None => cables' = cables
  | Some link =>
      let a := leSource (lmEndpoints link) in let b := leTarget (lmEndpoints link) in
      let new := mkCable a b (lmProperties link) in
      if bool_decide (muOperation m = Connect) then a ∉ flat_map plugs cables /\ b ∉ flat_map plugs cables /\ cables' = new :: cables
      else exists c rest, cables ≡ₚ c :: rest /\ plugs c ≡ₚ [a; b] /\
             cables' = if bool_decide (muOperation m = Disconnect) then rest else new :: rest
  end.

Lemma addDevice_wires cfg input cables cfg' :
  wired cfg cables -> addDevice cfg input = (cfg', None) -> wired cfg' cables.
Proof.
  intros Hw. unfold addDevice, deviceRefused. destruct (bool_decide_reflect (cfSegments cfg = [])) as [Es|]; [|done]. simpl.
  destruct (_ || _); [done|]. destruct (isEmpty _); [done|]. destruct (_ && _); [done|]. destruct (_ && _); [done|].
  destruct (_ <? _); [done|]. destruct (bool_decide _); [done|]. destruct (if isEmpty (dmMAC input) then _ else _); [|done].
  destruct (mapM _ _); [|done]. intros [= <-]. eapply wired_ports; [| | |exact Hw].
  - by right.
  - intros name. unfold deviceSegment. simpl. by rewrite Es.
  - unfold ports, allDevices. simpl. by rewrite Es, !flat_map_app, !app_nil_r.
Qed.

Lemma moveDevice_wires formatFloat cfg position cables cfg' :
  wired cfg cables -> moveDevice formatFloat cfg position = (cfg', None) -> wired cfg' cables.
Proof.
  intros Hw. unfold moveDevice. destruct (_ || _); [done|]. destruct (findDevice _ _) as [p|] eqn:E; [|done]. intros [= <-].
  apply findDevice_spec in E as (d & Hd & _). eapply wired_ports; [| | |exact Hw].
  - apply unmixed_edit, Hw.
  - intros name. by apply segment_edit.
  - by eapply ports_same.
Qed.

(** The state an edit that fails leaves behind. *)
Lemma refused_same formatFloat cfg m err : (Apply formatFloat cfg m).2 = Some err -> (Apply formatFloat cfg m).1 = cfg.
Proof.
  unfold Apply. destruct (validatePayload m); [done|].
  assert (forall r : Config * option errClass, (r.2 = None \/ r.1 = cfg) -> r.2 = Some err -> r.1 = cfg) as H by (intros r [->|]; done).
  destruct (muDevice m) as [input|], (muLink m) as [link|], (muPosition m) as [position|]; try done; repeat (case_bool_decide; [|try done]);
    apply H; try by right.
  - unfold addDevice. destruct (deviceRefused _ _); [by right|]. destruct (if isEmpty (dmMAC input) then _ else _), (mapM parseIP (dmIPs input)); auto.
  - unfold connect. destruct (linkDevicesAndInterfaces _ _) as [[? ?]|]; [|by right]. destruct (negb _); [by right|].
    destruct (_ || _); [by right|]. destruct (validateLinkProperties _); auto.
  - unfold disconnect. destruct (linkDevicesAndInterfaces _ _) as [[? ?]|]; [|by right].
    destruct (reciprocalIndices _ _ _) as [[?|] [?|]]; auto.
  - unfold updateLink. destruct (linkDevicesAndInterfaces _ _) as [[? ?]|]; [|by right].
    destruct (reciprocalIndices _ _ _) as [[?|] [?|]]; auto. repeat case_match; auto.
  - unfold moveDevice. destruct (_ || _); [by right|]. destruct (findDevice _ _); auto.
Qed.

Lemma apply_wires formatFloat cfg m cables :
  wired cfg cables -> (Apply formatFloat cfg m).2 = None ->
  exists cables', rewired m cables cables' /\ wired (Apply formatFloat cfg m).1 cables'.
Proof.
  intros Hw. unfold Apply, rewired. destruct (validatePayload m); [done|].
  destruct (muDevice m) as [input|], (muLink m) as [link|], (muPosition m) as [position|]; try done.
  - case_bool_decide; [|done]. destruct (addDevice cfg input) as [cfg' [|]] eqn:E; [done|]. intros _. exists cables.
    split; [done|]. by eapply addDevice_wires.
  - case_bool_decide as E1.
    { destruct (connect cfg link) as [cfg' [|]] eqn:E; [done|]. intros _. destruct (connect_wires _ _ _ _ Hw E) as (? & ? & ?).
      eexists. split; [by split_and!|done]. }
    case_bool_decide as E2.
    { destruct (disconnect cfg _) as [cfg' [|]] eqn:E; [done|]. intros _. destruct (disconnect_unwires _ _ _ _ Hw E) as (c & rest & ? & ? & ?).
      exists rest. split; [by exists c, rest|done]. }
    case_bool_decide; [|done]. destruct (updateLink cfg link) as [cfg' [|]] eqn:E; [done|]. intros _.
    destruct (update_rewires _ _ _ _ Hw E) as (c & rest & ? & ? & ?). eexists. split; [by exists c, rest|done].
  - case_bool_decide; [|done]. destruct (moveDevice _ cfg position) as [cfg' [|]] eqn:E; [done|]. intros _. exists cables.
    split; [done|]. by eapply moveDevice_wires.
Qed.

(** A history of edits, accepted or not, and what it makes of the cables. *)
Inductive rewirings : list (Mutation * bool) -> list cable -> list cable -> Prop :=
| rewirings_nil cables : rewirings [] cables cables
| rewirings_refused m ms cables cables' : rewirings ms cables cables' -> rewirings ((m, false) :: ms) cables cables'
| rewirings_accepted m ms cables cables1 cables' :
    rewired m cables cables1 -> rewirings ms cables1 cables' -> rewirings ((m, true) :: ms) cables cables'.

Definition accepted (err : option errClass) : bool := bool_decide (err = None).

Fixpoint edit (formatFloat : spec_float -> string) (cfg : Config) (ms : list Mutation) : Config * list (Mutation * bool) :=
  match ms with
  | [] => (cfg, [])
  | m :: ms =>
      let '(cfg, err) := Apply formatFloat cfg m in
      let '(cfg, outcomes) := edit formatFloat cfg ms in
      (cfg, (m, accepted err) :: outcomes)
  end.

(** C31. A draft that shows a set of cables shows one after any history of edits,
    the one that the accepted edits make of it: a connect adds a cable between
    two interfaces that had none, a disconnect removes the cable between its
    two interfaces, an update changes the properties of that cable at both
    ends, and every other edit and every edit that fails leaves the cables
    alone. *)
Theorem drafts_show_cables formatFloat ms cfg cables :
  wired cfg cables ->
  let '(cfg', outcomes) := edit formatFloat cfg ms in
  exists cables', rewirings outcomes cables cables' /\ wired cfg' cables'.
Proof.
  revert cfg cables. induction ms as [|m ms IH]; intros cfg cables Hw; cbn [edit]; [exists cables; split; [constructor|done]|].
  pose proof (refused_same formatFloat cfg m) as Hr. pose proof (apply_wires formatFloat cfg m cables Hw) as Ha.
  destruct (Apply formatFloat cfg m) as [cfg1 [err|]]; simpl in *.
  - rewrite (Hr err eq_refl). specialize (IH cfg cables Hw). destruct (edit formatFloat cfg ms) as [cfg' outcomes].
    destruct IH as (cables' & ? & ?). exists cables'. split; [by constructor|done].
  - destruct (Ha eq_refl) as (cables1 & ? & Hw1). specialize (IH cfg1 cables1 Hw1). destruct (edit formatFloat cfg1 ms) as [cfg' outcomes].
    destruct IH as (cables' & ? & ?). exists cables'. split; [by econstructor|done].
Qed.

(** ** There and back *)

Lemma onDevice_twice p f g cfg : onDevice p f (onDevice p g cfg) = onDevice p (fun d => f (g d)) cfg.
Proof.
  destruct p as [i|s i]; unfold onDevice; simpl; f_equal.
  - by rewrite list_alter_alter_eq.
  - rewrite list_alter_alter_eq. apply list_alter_ext; [|done]. intros seg _. simpl. f_equal. by rewrite list_alter_alter_eq.
Qed.

Lemma onDevice_commute p q f g cfg : p <> q -> onDevice p f (onDevice q g cfg) = onDevice q g (onDevice p f cfg).
Proof.
  destruct p as [i|s i], q as [j|t j]; unfold onDevice; simpl; intros Hne; f_equal.
  - apply list_alter_alter_ne. by intros ->.
  - destruct (decide (s = t)) as [<-|Hs]; [|by apply list_alter_alter_ne].
    rewrite !list_alter_alter_eq. apply list_alter_ext; [|done]. intros seg _. simpl. f_equal. apply list_alter_alter_ne. by intros ->.
Qed.

Lemma onDevice_ext p f g cfg d : deviceAt cfg p = Some d -> f d = g d -> onDevice p f cfg = onDevice p g cfg.
Proof.
  intros Hd E. destruct p as [i|s i]; simpl in *; f_equal.
  - apply list_alter_ext; [|done]. intros x Hx. congruence.
  - apply list_alter_ext; [|done]. intros seg Hs. f_equal. apply list_alter_ext; [|done]. intros x Hx.
    rewrite Hs in Hd. simpl in Hd. congruence.
Qed.

Lemma interfaceNamed_lookup name l i x : interfaceNamed name l = Some (i, x) -> l !! i = Some x.
Proof.
  revert i. induction l as [|y l IH]; intros i; simpl; [done|]. case_bool_decide; [by intros [= <- <-]|].
  intros ([j z] & Hj & [= -> ->])%fmap_Some. by apply IH.
Qed.

Lemma interfaceNamed_edit name l i x f :
  (forall y, ifName (f y) = ifName y) -> interfaceNamed name l = Some (i, x) -> interfaceNamed name (alter f i l) = Some (i, f x).
Proof.
  intros Hf. revert i. induction l as [|y l IH]; intros i; simpl; [done|]. case_bool_decide as E.
  - intros [= <- ->]. simpl. rewrite Hf. by rewrite bool_decide_eq_true_2.
  - intros ([j z] & Hj & [= -> ->])%fmap_Some. simpl. change (list_alter f j l) with (alter f j l).
    rewrite bool_decide_eq_false_2 by done. by rewrite (IH j Hj).
Qed.

(** The edit of one end of a connect. *)
Definition plugIn (i : nat) (local remote : Endpoint) (p : LinkProperties) (d : Device) : Device :=
  onInterface i (fun x => x <| ifDescription := linkDescription remote |> <| ifVLANs := lpVLANs p |>)
    (d <| dvTrunkPorts := dvTrunkPorts d ++ [(portFor local remote p).2] |>).

Lemma plugIn_ports i local remote p d : dvTrunkPorts (plugIn i local remote p d) = dvTrunkPorts d ++ [(portFor local remote p).2].
Proof. done. Qed.

Definition unplugged (x : Interface) : Interface := x <| ifDescription := "" |> <| ifVLANs := [] |>.

Lemma appendTrunk_plugs local remote p cfg :
  appendTrunk local remote p cfg = onDevice (rsDevice local) (plugIn (rsInterface local) (rsEndpoint local) (rsEndpoint remote) p) cfg.
Proof. done. Qed.

Lemma resolve_plugged cfg e r p f remote q :
  resolveEndpoint cfg e = inl r -> f = plugIn (rsInterface r) e remote q \/ p <> rsDevice r -> keepsName f ->
  resolveEndpoint (onDevice p f cfg) e = inl r.
Proof.
  intros Hr Hp Hf. unfold resolveEndpoint in *. rewrite findDevice_edit by done.
  destruct (findDevice cfg (epDevice e)) as [pl|] eqn:Ef; [|done].
  destruct (findDevice_spec _ _ _ Ef) as (d & Hd & _). rewrite Hd in Hr. simpl in Hr.
  destruct (interfaceNamed _ (dvInterfaces d)) as [[i x]|] eqn:Ei; [|done].
  destruct (physicalType (ifType x)) eqn:Et; [|done]. injection Hr as <-. simpl in *.
  destruct (decide (p = pl)) as [->|Hne]; [|by rewrite deviceAt_other, Hd; simpl; rewrite ?Ei, ?Et].
  destruct Hp as [->|]; [|done]. rewrite deviceAt_same, Hd. simpl.
  rewrite (interfaceNamed_edit _ _ _ x); [simpl; by rewrite Et|done|exact Ei].
Qed.

(** No port of the device is at the interface. *)
Lemma free_port cfg r d t :
  unmixed cfg -> resolvedAs cfg r d -> endpointOccupied cfg (rsEndpoint r) = false -> t ∈ dvTrunkPorts d ->
  tpInterface t <> epInterface (rsEndpoint r).
Proof.
  intros Hu [Hd Hn] Ho Ht E. apply not_true_iff_false in Ho. apply Ho. unfold endpointOccupied.
  destruct (place_split _ _ _ Hd) as (l1 & l2 & El & _). assert (d ∈ allDevices cfg) as Hin by (rewrite El; set_solver).
  rewrite <- unmixed_devices in Hin by done. apply list_elem_of_In, in_flat_map in Hin as (seg & Hseg & Hin).
  apply existsb_exists. exists seg. split; [done|]. apply existsb_exists. exists d. split; [done|]. apply existsb_exists. exists t.
  split; [by apply list_elem_of_In|]. apply orb_true_iff. left. by rewrite andb_true_iff, !bool_decide_eq_true.
Qed.

Lemma new_port_found trunks local remote p :
  (forall t, t ∈ trunks -> tpInterface t <> epInterface local) ->
  exactTrunkIndex (trunks ++ [(portFor local remote p).2]) (epInterface local) remote = Some (length trunks).
Proof.
  intros Hfree. unfold exactTrunkIndex.
  rewrite list_find_app_r; [|apply list_find_None, Forall_forall; intros t Ht [E _]; by destruct (Hfree t Ht)]. simpl.
  by rewrite decide_True.
Qed.

Lemma deleteAt_snoc {A} (l : list A) x : deleteAt (length l) (l ++ [x]) = l.
Proof. unfold deleteAt. rewrite take_app_length, drop_ge, app_nil_r; [done|]. rewrite length_app. simpl. lia. Qed.

(** Deleting the new port and clearing the interface leaves the interface
    unplugged and the rest of the device as it was. *)
Lemma plugged_unplugged i local remote p d :
  onInterface i (clearInterfaceLink remote) (deletePort (length (dvTrunkPorts d)) (plugIn i local remote p d)) = onInterface i unplugged d.
Proof.
  unfold onInterface, deletePort, plugIn. simpl. rewrite deleteAt_snoc. f_equal.
  rewrite list_alter_alter_eq. apply list_alter_ext; [|done]. intros x _. unfold clearInterfaceLink, unplugged. simpl.
  by rewrite bool_decide_eq_true_2.
Qed.

(** Disconnecting undoes connecting: once a connect was accepted, the
    disconnect of the same link is accepted and gives the draft back, trunk
    ports in their order included, except that the two interfaces keep neither
    a description nor VLANs. *)
Theorem disconnect_undoes_connect cfg link cfg1 :
  unmixed cfg -> connect cfg link = (cfg1, None) ->
  exists ra rb, linkDevicesAndInterfaces cfg (lmEndpoints link) = inl (ra, rb) /\
    disconnect cfg1 (lmEndpoints link) =
      (onDevice (rsDevice rb) (onInterface (rsInterface rb) unplugged) (onDevice (rsDevice ra) (onInterface (rsInterface ra) unplugged) cfg), None).
Proof.
  intros Hu. unfold connect. destruct (linkDevicesAndInterfaces _ _) as [[ra rb]|] eqn:El; [|done].
  pose proof (link_spec _ _ _ _ El) as (Ea & Eb & Hp & Hne & da & db & Ha & Hb).
  destruct (negb _); [done|]. destruct (endpointOccupied cfg (rsEndpoint ra)) eqn:Oa; [done|].
  destruct (endpointOccupied cfg (rsEndpoint rb)) eqn:Ob; [done|]. simpl orb. cbv iota.
  destruct (validateLinkProperties _); [done|]. set (p := lmProperties link). rewrite !appendTrunk_plugs.
  set (fa := plugIn (rsInterface ra) _ _ _). set (fb := plugIn (rsInterface rb) _ _ _). intros [= <-]. exists ra, rb. split; [done|].
  assert (linkDevicesAndInterfaces (onDevice (rsDevice rb) fb (onDevice (rsDevice ra) fa cfg)) (lmEndpoints link) = inl (ra, rb)) as El1.
  { unfold linkDevicesAndInterfaces in *. case_bool_decide; [done|]. destruct (resolveEndpoint cfg (leSource _)) as [xa|] eqn:Xa; [|done].
    destruct (resolveEndpoint cfg (leTarget _)) as [xb|] eqn:Xb; [|done]. injection El as -> ->.
    rewrite (resolve_plugged _ _ ra (rsDevice rb) fb (leTarget (lmEndpoints link)) p); [|eapply resolve_plugged; [exact Xa|left; unfold fa; by rewrite Ea|done]|by right|done].
    rewrite (resolve_plugged _ _ rb (rsDevice rb) fb (leSource (lmEndpoints link)) p); [done| |left; unfold fb; by rewrite Ea, Eb|done].
    eapply (resolve_plugged _ _ rb _ _ (leTarget (lmEndpoints link)) p); [exact Xb|by right|done]. }
  unfold disconnect. rewrite El1. unfold reciprocalIndices.
  assert (trunksAt (onDevice (rsDevice rb) fb (onDevice (rsDevice ra) fa cfg)) (rsDevice ra) = dvTrunkPorts (fa da)) as ->
    by (unfold trunksAt; rewrite deviceAt_other, deviceAt_same, (proj1 Ha) by done; done).
  assert (trunksAt (onDevice (rsDevice rb) fb (onDevice (rsDevice ra) fa cfg)) (rsDevice rb) = dvTrunkPorts (fb db)) as ->
    by (unfold trunksAt; rewrite deviceAt_same, deviceAt_other, (proj1 Hb) by done; done).
  unfold fa, fb. rewrite !plugIn_ports, !new_port_found by (intros t; by apply (free_port cfg)). f_equal.
  fold (deletePort (length (dvTrunkPorts da))). fold (deletePort (length (dvTrunkPorts db))). fold fa fb.
  rewrite (onDevice_commute (rsDevice ra) (rsDevice rb) (deletePort _) fb) by done. rewrite !onDevice_twice.
  rewrite (onDevice_commute (rsDevice ra) (rsDevice rb)) by done. rewrite !onDevice_twice.
  rewrite (onDevice_ext (rsDevice ra) _ (onInterface (rsInterface ra) unplugged) cfg da); [|apply Ha|by apply plugged_unplugged].
  apply (onDevice_ext _ _ _ _ db); [by rewrite deviceAt_other; [apply Hb|]|by apply plugged_unplugged].
Qed.

(** ** Which connects are accepted *)

Lemma vlansLoop_spec seen vlans result :
  vlansLoop seen vlans = inl result <->
  Forall (fun vlan => 1 <= vlan <= 4094) vlans /\ NoDup vlans /\ (forall vlan, vlan ∈ vlans -> vlan ∉ seen) /\
  result = foldl (fun seen vlan => {[vlan]} ∪ seen) seen vlans.
Proof.
  revert seen. induction vlans as [|v vlans IH]; intros seen; simpl.
  { split; [intros [= ->]; split_and!; try done; [constructor|set_solver]|naive_solver]. }
  rewrite Forall_cons, NoDup_cons. destruct (Z.ltb_spec v 1); simpl; [split; [done|lia]|].
  destruct (Z.ltb_spec 4094 v); simpl; [split; [done|lia]|]. destruct (bool_decide_reflect (v ∈ seen)) as [Hin|Hin].
  { split; [done|]. intros (_ & _ & H1 & _). destruct (H1 v); [set_solver|done]. }
  rewrite IH. split; intros (H1 & H2 & H3 & ->); split_and!; try done; try lia; try set_solver.
Qed.

Lemma seen_vlans vlans seen vlan :
  vlan ∈ (foldl (fun seen vlan => {[vlan]} ∪ seen) seen vlans : gset Z) <-> vlan ∈ vlans \/ vlan ∈ seen.
Proof. revert seen. induction vlans as [|v vlans IH]; intros seen; simpl; [set_solver|]. rewrite IH. set_solver. Qed.

Definition validProperties (p : LinkProperties) : Prop :=
  Forall (fun vlan => 1 <= vlan <= 4094) (lpVLANs p) /\ NoDup (lpVLANs p) /\ (lpNativeVLAN p = 0 \/ lpNativeVLAN p ∈ lpVLANs p).

Lemma validateLinkProperties_spec p : validateLinkProperties p = None <-> validProperties p.
Proof.
  unfold validateLinkProperties, validProperties. destruct (vlansLoop ∅ (lpVLANs p)) as [seen|err] eqn:E.
  - apply vlansLoop_spec in E as (H1 & H2 & _ & ->). destruct (Z.eqb_spec (lpNativeVLAN p) 0) as [E0|E0]; simpl.
    { split; [intros _; by split_and!; [| |left]|done]. }
    case_bool_decide as Hin; rewrite seen_vlans in Hin; simpl; (split; [intros H|intros (_ & _ & H)]); try done.
    + split_and!; [done|done|right]. set_solver.
    + destruct H; [done|]. set_solver.
  - split; [done|]. intros (H1 & H2 & _). assert (vlansLoop ∅ (lpVLANs p) = inl (foldl (fun seen vlan => {[vlan]} ∪ seen) ∅ (lpVLANs p))) as H
      by (apply vlansLoop_spec; split_and!; [done|done|set_solver|done]). congruence.
Qed.

(** The two interfaces exist on different devices of one segment and may carry
    a link, neither has a cable, and the VLANs are VLANs, each once, with the
    native one among them. *)
Theorem connect_exact cfg link cables :
  wired cfg cables ->
  let a := leSource (lmEndpoints link) in let b := leTarget (lmEndpoints link) in
  (connect cfg link).2 = None <->
    epDevice a <> epDevice b /\ (exists ra rb, resolveEndpoint cfg a = inl ra /\ resolveEndpoint cfg b = inl rb) /\
    deviceSegment cfg (epDevice a) = deviceSegment cfg (epDevice b) /\
    a ∉ flat_map plugs cables /\ b ∉ flat_map plugs cables /\ validProperties (lmProperties link).
Proof.
  intros Hw a b. unfold connect. destruct (linkDevicesAndInterfaces cfg (lmEndpoints link)) as [[ra rb]|err] eqn:El.
  - destruct (link_spec _ _ _ _ El) as (Ea & Eb & _ & Hne & _). rewrite Ea, Eb. fold a b. rewrite !(occupied_plugs cfg cables) by done.
    rewrite <- validateLinkProperties_spec. unfold linkDevicesAndInterfaces in El. fold a b in El. case_bool_decide; [done|].
    destruct (resolveEndpoint cfg a) as [xa|]; [|done]. destruct (resolveEndpoint cfg b) as [xb|]; [|done].
    destruct (Z.eqb_spec (deviceSegment cfg (epDevice a)) (deviceSegment cfg (epDevice b))) as [Es|Es]; simpl; [|naive_solver].
    case_bool_decide; simpl; [naive_solver|]. case_bool_decide; simpl; [naive_solver|].
    destruct (validateLinkProperties _); simpl; [naive_solver|]. split; [|done]. intros _. split_and!; try done. by exists xa, xb.
  - split; [done|]. intros (Hne & (ra & rb & Ha & Hb) & _). unfold linkDevicesAndInterfaces in El. fold a b in El.
    rewrite bool_decide_eq_false_2, Ha, Hb in El by done. done.
Qed.

(** ** An example draft *)

Definition port6 (name : string) : Interface :=
  mkInterface name "ethernet" "" "" 0 0 "" "" "" "" (S754_zero false) (S754_zero false) [].

Definition switch6 (name iface : string) : Device :=
  mkDevice name "switch" [] "" 0 [] 0 [port6 iface] (mkSNMPConfig None "" "" "") [] None.

Definition twoSwitches : Config := mkConfig [switch6 "core-1" "Ethernet1/1"; switch6 "dist-1" "Ethernet1/49"] [].

Definition theLink (vlans : list Z) (native : Z) : LinkMutation :=
  mkLinkMutation (mkLinkEndpoints (mkEndpoint "core-1" "Ethernet1/1") (mkEndpoint "dist-1" "Ethernet1/49")) (mkLinkProperties vlans native false).

Definition linkEdit (op : string) (link : LinkMutation) : Mutation := mkMutation op None (Some link) None.

Lemma twoSwitches_wired : wired twoSwitches [].
Proof. split_and!; [by right|done|constructor|constructor]. Qed.

Example edits_run :
  snd <$> (edit (fun _ => "") twoSwitches
    [linkEdit Connect (theLink [200; 210] 200); linkEdit Connect (theLink [200] 0); linkEdit UpdateLink (theLink [220] 220);
     linkEdit Disconnect (theLink [] 0); linkEdit Disconnect (theLink [] 0)]).2 = [true; false; true; true; false].
Proof. by vm_compute. Qed.

Lemma drafts_show_cables_witness :
  exists cables', rewirings
    [(linkEdit Connect (theLink [200; 210] 200), true); (linkEdit Connect (theLink [200] 0), false); (linkEdit UpdateLink (theLink [220] 220), true)]
    [] cables' /\
    wired (edit (fun _ => "") twoSwitches
      [linkEdit Connect (theLink [200; 210] 200); linkEdit Connect (theLink [200] 0); linkEdit UpdateLink (theLink [220] 220)]).1 cables'.
Proof.
  pose proof (drafts_show_cables (fun _ => "")
    [linkEdit Connect (theLink [200; 210] 200); linkEdit Connect (theLink [200] 0); linkEdit UpdateLink (theLink [220] 220)] twoSwitches []
    twoSwitches_wired) as H.
  destruct (edit _ _ _) as [cfg' outcomes] eqn:E. vm_compute in E. injection E as <- <-. exact H.
Defined.

Lemma disconnect_undoes_connect_witness :
  exists ra rb, linkDevicesAndInterfaces twoSwitches (lmEndpoints (theLink [200; 210] 200)) = inl (ra, rb) /\
    disconnect (connect twoSwitches (theLink [200; 210] 200)).1 (lmEndpoints (theLink [200; 210] 200)) =
      (onDevice (rsDevice rb) (onInterface (rsInterface rb) unplugged)
         (onDevice (rsDevice ra) (onInterface (rsInterface ra) unplugged) twoSwitches), None).
Proof.
  apply (disconnect_undoes_connect twoSwitches (theLink [200; 210] 200)); [by right|].
  vm_compute. reflexivity.
Defined.
