(* ===== verification/StringOps.v ===== *)
(** * Strings: what the code uses of package [strings]

    Prefixes, suffixes, cuts and joins of byte strings, and how splitting at
    dots and joining undo each other. *)

From Stdlib Require Import Ascii.
From S2P Require Import Prelude.
From S2P Require Import Oid.
From S2P Require Import Decimal.

(** [s[i:]] and [s[:i]] *)
Fixpoint dropString (n : nat) (s : string) : string :=
  match n, s with
  | S n, String _ s => dropString n s
  | _, _ => s
  end.

Fixpoint takeString (n : nat) (s : string) : string :=
  match n, s with
  | S n, String c s => String c (takeString n s)
  | _, _ => EmptyString
  end.

(** [strings.HasPrefix], [CutPrefix], [HasSuffix], [TrimSuffix], [Contains] and
    [Cut] *)
Definition HasPrefix (s prefix : string) : bool := String.prefix prefix s.

Definition cutPrefix (s prefix : string) : option string :=
  if HasPrefix s prefix then Some (dropString (String.length prefix) s) else None.

Definition HasSuffix (s suffix : string) : bool :=
  bool_decide (String.length suffix <= String.length s)%nat &&
  bool_decide (dropString (String.length s - String.length suffix) s = suffix).

Definition TrimSuffix (s suffix : string) : string :=
  if HasSuffix s suffix then takeString (String.length s - String.length suffix) s else s.

Definition indexOf (s sub : string) : option nat := String.index 0 sub s.

Definition ContainsString (s sub : string) : bool := match indexOf s sub with Some _ => true | None => false end.

Definition CutString (s sep : string) : option (string * string) :=
  i ← indexOf s sep; Some (takeString i s, dropString (i + String.length sep) s).

Definition joinDot (parts : list string) : string := String.concat "." parts.

Definition Itoa (n : Z) : string := pretty n.

Definition isDigit (c : ascii) : bool := match digitValue c with Some _ => true | None => false end.

(** The longest prefix of characters that satisfy [p], and the rest. *)
Fixpoint spanChars (p : ascii -> bool) (s : string) : string * string :=
  match s with
  | String c s' => if p c then let '(run, rest) := spanChars p s' in (String c run, rest) else (EmptyString, s)
  | EmptyString => (EmptyString, EmptyString)
  end.

(** [strings.Trim(s, ".")] *)
Fixpoint trimDotsLeft (s : list ascii) : list ascii :=
  match s with "."%char :: s => trimDotsLeft s | _ => s end.

Definition trimDots (s : string) : string :=
  String.string_of_list_ascii (rev (trimDotsLeft (rev (trimDotsLeft (String.list_ascii_of_string s))))).

(** ** Lemmas *)

Lemma string_app_chars s t : String.list_ascii_of_string (s +:+ t) = String.list_ascii_of_string s ++ String.list_ascii_of_string t.
Proof. induction s as [|c s IH]; [done|]. exact (f_equal (cons c) IH). Qed.

Lemma string_app_assoc (s t u : string) : (s +:+ t) +:+ u = s +:+ t +:+ u.
Proof. induction s as [|c s IH]; [done|]. exact (f_equal (String c) IH). Qed.

Lemma string_app_nil (s : string) : s +:+ EmptyString = s.
Proof. induction s as [|c s IH]; [done|]. exact (f_equal (String c) IH). Qed.

Lemma string_app_length (s t : string) : String.length (s +:+ t) = (String.length s + String.length t)%nat.
Proof. induction s as [|c s IH]; [done|]. exact (f_equal S IH). Qed.

Lemma take_drop_string n s : takeString n s +:+ dropString n s = s.
Proof. revert n. induction s as [|c s IH]; intros [|n]; [done..|]. exact (f_equal (String c) (IH n)). Qed.

Lemma dropString_app s t : dropString (String.length s) (s +:+ t) = t.
Proof. induction s as [|c s IH]; [by destruct t|done]. Qed.

Lemma takeString_app s t : takeString (String.length s) (s +:+ t) = s.
Proof. induction s as [|c s IH]; [by destruct t|]. exact (f_equal (String c) IH). Qed.

Lemma HasSuffix_app s t : HasSuffix (s +:+ t) t = true.
Proof.
  unfold HasSuffix. rewrite string_app_length. replace (String.length s + String.length t - String.length t)%nat with (String.length s) by lia.
  rewrite dropString_app, !bool_decide_eq_true_2 by (done || lia). done.
Qed.

Lemma TrimSuffix_app s t : TrimSuffix (s +:+ t) t = s.
Proof.
  unfold TrimSuffix. rewrite HasSuffix_app, string_app_length.
  replace (String.length s + String.length t - String.length t)%nat with (String.length s) by lia. apply takeString_app.
Qed.

Lemma Itoa_inj a b : Itoa a = Itoa b -> a = b.
Proof. apply (inj pretty). Qed.

(** Text without a dot. *)
Fixpoint noDot (s : string) : Prop :=
  match s with EmptyString => True | String c s => c <> "."%char /\ noDot s end.

Lemma allDigits_noDot s : allDigits s -> noDot s.
Proof. induction s as [|c s IH]; [done|]. intros [Hc Hs]. split; [by intros ->|by apply IH]. Qed.

Lemma splitDot_parts s : Forall noDot (splitDot s) /\ splitDot s <> [].
Proof.
  induction s as [|c s [IH Hne]]; cbn [splitDot]; [by repeat constructor|]. destruct (Ascii.eqb_spec c "."%char) as [->|Hc].
  - split; [by constructor|done].
  - destruct (splitDot s) as [|part rest]; [done|]. apply Forall_cons in IH as [Hp Hr]. split; [by repeat constructor|done].
Qed.

Lemma splitDot_part s t : noDot s -> splitDot (s +:+ "." +:+ t) = s :: splitDot t.
Proof.
  induction s as [|c s IH]; [done|]. intros [Hc Hs]. change (splitDot (String c (s +:+ "." +:+ t)) = String c s :: splitDot t).
  cbn [splitDot]. rewrite (proj2 (Ascii.eqb_neq c ".")) by done. by rewrite IH.
Qed.

Lemma splitDot_one s : noDot s -> splitDot s = [s].
Proof.
  induction s as [|c s IH]; [done|]. intros [Hc Hs]. cbn [splitDot]. rewrite (proj2 (Ascii.eqb_neq c ".")) by done. by rewrite IH.
Qed.

Lemma split_join l : Forall noDot l -> l <> [] -> splitDot (joinDot l) = l.
Proof.
  induction 1 as [|x l Hx Hl IH]; [done|]. intros _. destruct l as [|y l]; [by apply splitDot_one|].
  change (joinDot (x :: y :: l)) with (x +:+ "." +:+ joinDot (y :: l)). by rewrite splitDot_part, IH.
Qed.

Lemma join_split s : joinDot (splitDot s) = s.
Proof.
  induction s as [|c s IH]; [done|]. cbn [splitDot]. pose proof (proj2 (splitDot_parts s)) as Hne. destruct (Ascii.eqb_spec c "."%char) as [->|Hc].
  - destruct (splitDot s) as [|part rest]; [done|]. change (joinDot (EmptyString :: part :: rest)) with ("." +:+ joinDot (part :: rest)). by rewrite IH.
  - destruct (splitDot s) as [|part rest]; [done|]. rewrite <- IH. by destruct rest.
Qed.
