(* ===== verification/NetipPrint.v ===== *)
(** * Addresses as text

    What is printed reads back: the dotted text of an IPv4 address and the
    groups of an IPv6 address, the longest run of zeros left out. *)

From Stdlib Require Import Ascii.
From S2P Require Import Prelude.
From S2P Require Import Netip.
From S2P Require Import NetipParse.
From S2P Require Import Bytes.
From S2P Require Import Oid.
From S2P Require Import Decimal.
From S2P Require Import StringOps.

(** [net.ParseIP]: an address with a zone is none. *)
Definition ParseIP (s : string) : option Addr :=
  match ParseAddr s with
  | Some (Addr6 b zone) => if bool_decide (zone = ""%string) then Some (Addr6 b zone) else None
  | parsed => parsed
  end.

(** [net.IP.To4] *)
Definition ipTo4 (a : Addr) : option Z := match Unmap a with Addr4 b => Some b | _ => None end.

(** ** IPv4 *)

(** The digits of a byte. *)
Definition digitChar (d : Z) : ascii := ascii_of_N (Z.to_N (48 + d)).

Definition octetDigits (n : Z) : list Z :=
  if n <? 10 then [n] else if n <? 100 then [n / 10; n mod 10] else [n / 100; n / 10 mod 10; n mod 10].

Lemma Itoa_octet n : 0 <= n < 256 -> String.list_ascii_of_string (Itoa n) = digitChar <$> octetDigits n.
Proof.
  intros H. assert (forallb (fun n => bool_decide (String.list_ascii_of_string (Itoa n) = digitChar <$> octetDigits n)) (seqZ 0 256) = true) as Hall
    by by vm_compute.
  rewrite forallb_forall in Hall. specialize (Hall n). rewrite <- list_elem_of_In, elem_of_seqZ in Hall.
  by apply bool_decide_eq_true in Hall; [|lia].
Qed.

Lemma digitValue_digit d : 0 <= d < 10 -> digitValue (digitChar d) = Some d.
Proof.
  intros H. assert (d ∈ seqZ 0 10) as Hin by (apply elem_of_seqZ; lia).
  rewrite <- (Z2Nat.id d) by lia. set (k := Z.to_nat d). assert (k < 10)%nat as Hk by lia. clearbody k.
  do 10 (destruct k as [|k]; [reflexivity|]). lia.
Qed.

Lemma parse_digits fields n rest :
  0 <= n < 256 -> exists len, 0 < len /\ parseIPv4Fields fields 0 0 ((digitChar <$> octetDigits n) ++ rest) = parseIPv4Fields fields n len rest.
Proof.
  intros H. unfold octetDigits.
  pose proof (Z.div_mod n 10) as D1. pose proof (Z.mod_pos_bound n 10) as M1. pose proof (Z.div_mod n 100) as D2. pose proof (Z.mod_pos_bound n 100) as M2.
  pose proof (Z.div_mod (n / 10) 10) as D3. pose proof (Z.mod_pos_bound (n / 10) 10) as M3.
  assert (n / 100 = n / 10 / 10) as D4 by by rewrite Z.div_div.
  destruct (Z.ltb_spec n 10); [|destruct (Z.ltb_spec n 100)]; [exists 1|exists 2|exists 3]; (split; [lia|]); cbn [fmap list_fmap app parseIPv4Fields];
    rewrite !digitValue_digit by lia; cbn [andb Z.eqb]; rewrite ?Z.mul_0_r, ?Z.add_0_l.
  - rewrite (proj2 (Z.ltb_ge 255 n)) by lia. done.
  - rewrite (proj2 (Z.ltb_ge 255 (n / 10))) by lia. rewrite (proj2 (Z.eqb_neq (n / 10) 0)) by lia. simpl.
    replace (10 * (n / 10) + n mod 10) with n by lia. rewrite (proj2 (Z.ltb_ge 255 n)) by lia. done.
  - rewrite (proj2 (Z.ltb_ge 255 (n / 100))) by lia. rewrite (proj2 (Z.eqb_neq (n / 100) 0)) by lia. simpl.
    replace (10 * (n / 100) + (n / 10) mod 10) with (n / 10) by lia. rewrite (proj2 (Z.ltb_ge 255 (n / 10))) by lia.
    replace (10 * (n / 10) + n mod 10) with n by lia. rewrite (proj2 (Z.ltb_ge 255 n)) by lia. done.
Qed.

Lemma parse_field fields n rest :
  0 <= n < 256 -> (length fields < 3)%nat -> rest <> [] ->
  parseIPv4Fields fields 0 0 ((digitChar <$> octetDigits n) ++ "."%char :: rest) = parseIPv4Fields (fields ++ [n]) 0 0 rest.
Proof.
  intros Hn Hl Hr. destruct (parse_digits fields n ("."%char :: rest) Hn) as (len & Hlen & ->). cbn [parseIPv4Fields].
  change (digitValue ".") with (@None Z). cbn iota. change (Ascii.eqb "." ".") with true. cbn iota.
  rewrite (proj2 (Z.eqb_neq len 0)), (bool_decide_eq_false_2 (rest = [])) by (done || lia). cbn [orb].
  by rewrite bool_decide_eq_false_2 by lia.
Qed.

Lemma parse_last fields n : 0 <= n < 256 -> length fields = 3%nat -> parseIPv4Fields fields 0 0 (digitChar <$> octetDigits n) = Some (fields ++ [n]).
Proof.
  intros Hn Hl. rewrite <- (app_nil_r (_ <$> _)). destruct (parse_digits fields n [] Hn) as (len & _ & ->). cbn [parseIPv4Fields].
  by rewrite bool_decide_eq_false_2 by lia.
Qed.

Lemma octetDigits_range n : 0 <= n < 256 -> Forall (fun d => 0 <= d < 10) (octetDigits n) /\ octetDigits n <> [].
Proof.
  intros H. unfold octetDigits.
  pose proof (Z.div_mod n 10) as D1. pose proof (Z.mod_pos_bound n 10) as M1. pose proof (Z.div_mod n 100) as D2. pose proof (Z.mod_pos_bound n 100) as M2.
  pose proof (Z.mod_pos_bound (n / 10) 10) as M3.
  destruct (Z.ltb_spec n 10); [|destruct (Z.ltb_spec n 100)]; (split; [|done]); repeat (apply Forall_cons; split; [lia|]); by apply Forall_nil.
Qed.

(** The first separator of four decimals is a dot. *)
Lemma parseAs_digits whole ds rest : Forall (fun d => 0 <= d < 10) ds -> parseAs whole ((digitChar <$> ds) ++ rest) = parseAs whole rest.
Proof.
  induction 1 as [|d ds Hd _ IH]; [done|]. cbn [fmap list_fmap app]. rewrite <- IH. 
  assert (d ∈ seqZ 0 10) as Hin by (apply elem_of_seqZ; lia). cbn in Hin.
  repeat (apply elem_of_cons in Hin as [->|Hin]; [reflexivity|]). by apply elem_of_nil in Hin.
Qed.

Definition joined (a b c d : Z) : Z := a * 2 ^ 24 + b * 2 ^ 16 + c * 2 ^ 8 + d.

Definition isOctet (n : Z) : Prop := 0 <= n < 256.

Lemma parse_dotted4 a b c d :
  isOctet a -> isOctet b -> isOctet c -> isOctet d ->
  ParseAddr (Itoa a +:+ "." +:+ Itoa b +:+ "." +:+ Itoa c +:+ "." +:+ Itoa d) = Some (Addr4 (joined a b c d)).
Proof.
  intros Ha Hb Hc Hd. unfold ParseAddr. rewrite !string_app_chars, !Itoa_octet by done.
  change (String.list_ascii_of_string ".") with ["."%char]. cbn [app].
  rewrite parseAs_digits by by apply octetDigits_range. cbn [parseAs]. unfold parseIPv4.
  assert (forall n (l : list ascii), isOctet n -> (digitChar <$> octetDigits n) ++ l <> []) as Hne.
  { intros n l Hn. destruct (octetDigits_range n Hn) as [_ H]. by destruct (octetDigits n). }
  rewrite parse_field by (done || (cbn; lia) || by apply Hne). rewrite parse_field by (done || (cbn; lia) || by apply Hne).
  rewrite parse_field; [|done|cbn; lia|]. 2: { rewrite <- (app_nil_r (_ <$> _)). by apply Hne. }
  rewrite parse_last by done. cbn [app mbind option_bind]. unfold AddrFromSlice. cbn [length foldl]. rewrite bool_decide_eq_true_2 by done.
  unfold joined. do 2 f_equal. lia.
Qed.

(** The dotted text of any IPv4 value. *)
Lemma octet_bound b i : isOctet (Z.land (Z.shiftr b i) 255).
Proof. unfold isOctet. change 255 with (Z.ones 8). rewrite Z.land_ones by lia. apply Z.mod_pos_bound. lia. Qed.

Lemma joined_octets b :
  0 <= b < 2 ^ 32 -> joined (Z.land (Z.shiftr b 24) 255) (Z.land (Z.shiftr b 16) 255) (Z.land (Z.shiftr b 8) 255) (Z.land b 255) = b.
Proof.
  intros Hb. unfold joined. change 255 with (Z.ones 8). rewrite !Z.land_ones, !Z.shiftr_div_pow2 by lia.
  pose proof (Z.div_mod b (2 ^ 8)). pose proof (Z.div_mod (b / 2 ^ 8) (2 ^ 8)). pose proof (Z.div_mod (b / 2 ^ 16) (2 ^ 8)).
  assert (b / 2 ^ 16 = b / 2 ^ 8 / 2 ^ 8) as E1 by (rewrite Z.div_div by lia; done).
  assert (b / 2 ^ 24 = b / 2 ^ 16 / 2 ^ 8) as E2 by (rewrite Z.div_div by lia; done).
  rewrite (Z.mod_small (b / 2 ^ 24)); [rewrite E1, E2 in *; lia|].
  split; [apply Z.div_pos; lia|apply Z.div_lt_upper_bound; lia].
Qed.

Lemma dotted_reads b : 0 <= b < 2 ^ 32 -> ParseAddr (dotted b) = Some (Addr4 b).
Proof.
  intros Hb. rewrite <- (joined_octets b Hb) at 2. apply parse_dotted4; try apply octet_bound. apply (octet_bound b 0).
Qed.

(** ** IPv6 *)

(** A group has one to four digits. *)
Definition hexDigits (g : Z) : list Z :=
  (if 0x1000 <=? g then [Z.land (Z.shiftr g 12) 15] else []) ++ (if 0x100 <=? g then [Z.land (Z.shiftr g 8) 15] else []) ++
  (if 0x10 <=? g then [Z.land (Z.shiftr g 4) 15] else []) ++ [Z.land g 15].

Definition hexChars (g : Z) : list ascii := hexDigit <$> hexDigits g.

Lemma hex16_chars g : String.list_ascii_of_string (hex16 g) = hexChars g.
Proof.
  unfold hex16, hexChars, hexDigits. rewrite !string_app_chars.
  destruct (0x1000 <=? g), (0x100 <=? g), (0x10 <=? g); reflexivity.
Qed.

Definition isGroup (g : Z) : Prop := 0 <= g < 2 ^ 16.

Lemma nibble_range g i : 0 <= Z.land (Z.shiftr g i) 15 < 16.
Proof. change 15 with (Z.ones 4). rewrite Z.land_ones by lia. apply Z.mod_pos_bound. lia. Qed.

Lemma hexDigits_range g : Forall (fun d => 0 <= d < 16) (hexDigits g).
Proof.
  unfold hexDigits. rewrite !Forall_app. repeat split; try (destruct (_ <=? _); [apply Forall_singleton, nibble_range|apply Forall_nil_2]).
  apply Forall_singleton, (nibble_range g 0).
Qed.

Lemma hexDigit_spec d : 0 <= d < 16 -> hexValue (hexDigit d) = Some d /\ hexDigit d <> ":"%char /\ hexDigit d <> "."%char /\ hexDigit d <> "%"%char.
Proof.
  intros H. assert (d ∈ seqZ 0 16) as Hin by (apply elem_of_seqZ; lia). cbn in Hin.
  repeat (apply elem_of_cons in Hin as [->|Hin]; [by split_and!|]). by apply elem_of_nil in Hin.
Qed.

Lemma hexGroup_digit off acc d s : 0 <= d < 16 -> (off <= 3)%nat -> hexGroup off acc (hexDigit d :: s) = hexGroup (S off) (16 * acc + d) s.
Proof. intros Hd Ho. cbn [hexGroup]. rewrite (proj1 (hexDigit_spec d Hd)). by rewrite bool_decide_eq_false_2 by lia. Qed.

Lemma hexGroup_stop off acc s : (match s with c :: _ => hexValue c = None | [] => True end) -> hexGroup off acc s = Some (acc, off, s).
Proof. destruct s as [|c s]; [done|]. cbn [hexGroup]. by intros ->. Qed.

Lemma hexGroup_chars g s :
  isGroup g -> (match s with c :: _ => hexValue c = None | [] => True end) ->
  exists len, (0 < len)%nat /\ hexGroup 0 0 (hexChars g ++ s) = Some (g, len, s).
Proof.
  unfold isGroup, hexChars, hexDigits. intros Hg Hs.
  pose proof (nibble_range g 12). pose proof (nibble_range g 8). pose proof (nibble_range g 4). pose proof (nibble_range g 0) as HN0.
  rewrite Z.shiftr_0_r in HN0.
  assert (forall i, 0 <= i -> Z.land (Z.shiftr g i) 15 = g / 2 ^ i mod 16) as E.
  { intros i Hi. change 15 with (Z.ones 4). by rewrite Z.land_ones, Z.shiftr_div_pow2 by lia. }
  assert (Z.land g 15 = g mod 16) as E0 by (change 15 with (Z.ones 4); by rewrite Z.land_ones by lia).
  pose proof (Z.div_mod g 16). pose proof (Z.div_mod (g / 2 ^ 4) 16). pose proof (Z.div_mod (g / 2 ^ 8) 16). pose proof (Z.div_mod (g / 2 ^ 12) 16).
  pose proof (Z.mod_pos_bound g 16). pose proof (Z.mod_pos_bound (g / 2 ^ 4) 16). pose proof (Z.mod_pos_bound (g / 2 ^ 8) 16). pose proof (Z.mod_pos_bound (g / 2 ^ 12) 16).
  assert (g / 2 ^ 8 = g / 2 ^ 4 / 16) as D8 by (rewrite Z.div_div by lia; done).
  assert (g / 2 ^ 12 = g / 2 ^ 8 / 16) as D12 by (rewrite Z.div_div by lia; done).
  assert (g / 2 ^ 12 / 16 = 0) as D16 by (rewrite Z.div_div by lia; apply Z.div_small; lia).
  assert (g / 2 ^ 4 = g / 16) as D4 by done. rewrite <- D8 in *. rewrite <- D12 in *. rewrite <- D4 in *.
  set (a := g / 2 ^ 4) in *. set (b := g / 2 ^ 8) in *. set (c := g / 2 ^ 12) in *.
  destruct (Z.leb_spec 0x1000 g); [|destruct (Z.leb_spec 0x100 g); [|destruct (Z.leb_spec 0x10 g)]];
    [exists 4%nat|exists 3%nat|exists 2%nat|exists 1%nat]; (split; [lia|]);
    repeat match goal with |- context [?x <=? g] => rewrite (proj2 (Z.leb_le x g)) by lia end;
    repeat match goal with |- context [?x <=? g] => rewrite (proj2 (Z.leb_gt x g)) by lia end;
    cbn [app fmap list_fmap]; rewrite !hexGroup_digit by lia; rewrite hexGroup_stop by done; rewrite ?E, ?E0 by lia; fold a b c; do 3 f_equal; lia.
Qed.

Definition groupBytes (g : Z) : list Z := [g / 2 ^ 8; g mod 2 ^ 8].

Definition colon : ascii := ":"%char.

(** Groups between colons. *)
Fixpoint joinGroups (gs : list Z) : list ascii :=
  match gs with
  | [] => []
  | [g] => hexChars g
  | g :: gs => hexChars g ++ colon :: joinGroups gs
  end.

Lemma hexChars_cons g : exists d l, 0 <= d < 16 /\ hexChars g = hexDigit d :: l.
Proof.
  unfold hexChars. pose proof (hexDigits_range g) as H. destruct (hexDigits g) as [|d l] eqn:E.
  - unfold hexDigits in E. apply (f_equal length) in E. rewrite !length_app in E. simpl in E. lia.
  - apply Forall_cons in H as [Hd _]. by exists d, (hexDigit <$> l).
Qed.

Lemma joinGroups_cons g gs : exists d l, 0 <= d < 16 /\ joinGroups (g :: gs) = hexDigit d :: l.
Proof.
  destruct (hexChars_cons g) as (d & l & Hd & E). destruct gs as [|g' gs]; cbn [joinGroups]; rewrite E; [by exists d, l|].
  exists d. by eexists.
Qed.

Lemma parse_last_group fuel ip ellipsis g :
  isGroup g -> parseIPv6Groups (S fuel) ip ellipsis (hexChars g) = Some (ip ++ groupBytes g, ellipsis, []).
Proof.
  intros Hg. rewrite <- (app_nil_r (hexChars g)). cbn [parseIPv6Groups]. destruct (hexGroup_chars g [] Hg I) as (len & Hl & ->).
  cbn [mbind option_bind]. by rewrite bool_decide_eq_false_2 by lia.
Qed.

Lemma parse_one_group fuel ip ellipsis g d s :
  isGroup g -> 0 <= d < 16 ->
  parseIPv6Groups (S fuel) ip ellipsis (hexChars g ++ colon :: hexDigit d :: s) = parseIPv6Groups fuel (ip ++ groupBytes g) ellipsis (hexDigit d :: s).
Proof.
  intros Hg Hd. cbn [parseIPv6Groups]. destruct (hexGroup_chars g (colon :: hexDigit d :: s) Hg eq_refl) as (len & Hl & ->).
  cbn [mbind option_bind]. rewrite bool_decide_eq_false_2 by lia. change colon with ":"%char. cbn iota. destruct (hexDigit_spec d Hd) as (_ & Hc & _).
  destruct (hexDigit d) as [[] [] [] [] [] [] [] []]; done.
Qed.

Lemma parse_groups gs fuel ip ellipsis :
  Forall isGroup gs -> gs <> [] -> (length gs <= fuel)%nat ->
  parseIPv6Groups fuel ip ellipsis (joinGroups gs) = Some (ip ++ flat_map groupBytes gs, ellipsis, []).
Proof.
  intros Hg. revert fuel ip. induction Hg as [|g gs Hg Hgs IH]; [done|]. intros [|fuel] ip _ Hf; [simpl in Hf; lia|].
  destruct gs as [|g' gs]; [by apply parse_last_group|]. change (joinGroups (g :: g' :: gs)) with (hexChars g ++ colon :: joinGroups (g' :: gs)).
  destruct (joinGroups_cons g' gs) as (d & l & Hd & E). rewrite E, parse_one_group, <- E by done. rewrite IH by (done || simpl in *; lia).
  cbn [flat_map]. by rewrite !app_assoc.
Qed.

(** The groups on both sides of the zeros left out. *)
Lemma parse_ellipsis gs1 gs2 fuel ip :
  Forall isGroup gs1 -> gs1 <> [] -> Forall isGroup gs2 -> (length gs1 + length gs2 <= fuel)%nat ->
  parseIPv6Groups fuel ip None (joinGroups gs1 ++ [colon; colon] ++ joinGroups gs2) =
    Some (ip ++ flat_map groupBytes (gs1 ++ gs2), Some (length (ip ++ flat_map groupBytes gs1)), []).
Proof.
  intros Hg. revert fuel ip. induction Hg as [|g gs Hg Hgs IH]; [done|]. intros [|fuel] ip _ Hg2 Hf; [simpl in Hf; lia|].
  destruct gs as [|g' gs].
  - cbn [joinGroups app length] in *. cbn [parseIPv6Groups].
    destruct (hexGroup_chars g (colon :: colon :: joinGroups gs2) Hg eq_refl) as (len & Hl & ->). cbn [mbind option_bind].
    rewrite bool_decide_eq_false_2 by lia. change colon with ":"%char. cbn iota. destruct gs2 as [|g2 gs2]; [done|].
    destruct (joinGroups_cons g2 gs2) as (d & l & Hd & E). rewrite E, <- E. cbn iota.
    rewrite parse_groups by (done || simpl in *; lia). cbn [flat_map app]. rewrite <- !app_assoc. done.
  - change (joinGroups (g :: g' :: gs)) with (hexChars g ++ colon :: joinGroups (g' :: gs)).
    destruct (joinGroups_cons g' gs) as (d & l & Hd & E). rewrite <- app_assoc, <- app_comm_cons, E, <- app_comm_cons, parse_one_group by done.
    rewrite app_comm_cons, <- E, IH by (done || simpl in *; lia). cbn [flat_map app]. by rewrite <- !app_assoc.
Qed.

Definition compressed (z : nat * nat) (gs : list Z) : list ascii :=
  if bool_decide (z.1 < 8)%nat then joinGroups (take z.1 gs) ++ [colon; colon] ++ joinGroups (drop z.2 gs) else joinGroups gs.

(** The run that is left out. *)
Definition zerosAt (z : nat * nat) (gs : list Z) : Prop :=
  z = (255, 255)%nat \/ ((z.1 < z.2 <= 8)%nat /\ forall i, (z.1 <= i < z.2)%nat -> gs !! i = Some 0).

Lemma print_compressed z gs :
  length gs = 8%nat -> zerosAt z gs -> String.list_ascii_of_string (printGroups 8 0 z gs) = compressed z gs.
Proof.
  destruct gs as [|g0 [|g1 [|g2 [|g3 [|g4 [|g5 [|g6 [|g7 []]]]]]]]]; try done. intros _ [->|[Hz _]].
  - cbv -[hex16 hexChars String.append String.list_ascii_of_string app]. rewrite !string_app_chars, !hex16_chars. cbn [String.list_ascii_of_string app]. by rewrite ?app_nil_r.
  - destruct z as [z1 z2]. cbn [fst snd] in Hz. unfold compressed. cbn [fst snd]. rewrite bool_decide_eq_true_2 by lia.
    assert (z2 < 9)%nat as H9 by lia. destruct Hz as [Hz _].
    do 9 (destruct z2 as [|z2]; [do 8 (destruct z1 as [|z1]; [lia || (cbv -[hex16 hexChars String.append String.list_ascii_of_string app];
      rewrite !string_app_chars, ?hex16_chars; cbn [String.list_ascii_of_string app]; repeat (rewrite <- app_assoc || rewrite <- app_comm_cons); rewrite ?app_nil_r; reflexivity)|]); lia|]). lia.
Qed.

Lemma groupBytes_length gs : length (flat_map groupBytes gs) = (2 * length gs)%nat.
Proof. induction gs as [|g gs IH]; [done|]. cbn [flat_map groupBytes app length]. lia. Qed.

Lemma zero_groups (gs : list Z) a b :
  (a <= b <= length gs)%nat -> (forall i, (a <= i < b)%nat -> gs !! i = Some 0) -> gs = take a gs ++ replicate (b - a) 0 ++ drop b gs.
Proof.
  intros Hab Hz. rewrite <- (take_drop a gs) at 1. f_equal. rewrite <- (take_drop (b - a) (drop a gs)). rewrite drop_drop.
  replace (a + (b - a))%nat with b by lia. f_equal. apply list_eq. intros i. destruct (decide (i < b - a)%nat).
  - rewrite lookup_take_lt, lookup_drop, lookup_replicate_2 by lia. apply Hz. lia.
  - rewrite !lookup_ge_None_2; [done|rewrite length_replicate; lia|rewrite length_take; lia].
Qed.

Lemma parse_compressed z gs :
  length gs = 8%nat -> Forall isGroup gs -> zerosAt z gs -> parseIPv6Bytes (compressed z gs) = Some (flat_map groupBytes gs).
Proof.
  intros Hl Hg Hz. destruct Hz as [->|[Hz H0]].
  - unfold compressed. cbn [fst]. rewrite bool_decide_eq_false_2 by lia. destruct gs as [|g gs]; [done|].
    destruct (joinGroups_cons g gs) as (d & l & Hd & E). destruct (hexDigit_spec d Hd) as (_ & Hc & _).
    unfold parseIPv6Bytes. rewrite E. assert (forall A (x y : A), match hexDigit d :: l with ":"%char :: ":"%char :: s => x | _ => y end = y) as Hm.
    { intros A x y. by destruct (hexDigit d) as [[] [] [] [] [] [] [] []]. }
    destruct (hexDigit d) as [[] [] [] [] [] [] [] []] eqn:Ed; try done; rewrite <- E;
      rewrite parse_groups by (done || simpl in *; lia); cbn [mbind option_bind app]; rewrite groupBytes_length, Hl; done.
  - unfold compressed. rewrite bool_decide_eq_true_2 by lia.
    assert (flat_map groupBytes gs = flat_map groupBytes (take z.1 gs) ++ replicate (2 * (z.2 - z.1)) 0 ++ flat_map groupBytes (drop z.2 gs)) as ->.
    { rewrite (zero_groups gs z.1 z.2) at 1 by (lia || done). rewrite !flat_map_app. f_equal. f_equal.
      generalize (z.2 - z.1)%nat. intros n. induction n as [|n IH]; [done|]. cbn [replicate flat_map]. rewrite IH.
      by replace (2 * S n)%nat with (S (S (2 * n))) by lia. }
    assert (length (take z.1 gs) + length (drop z.2 gs) <= 8)%nat as Hfuel by (rewrite length_take, length_drop; lia).
    assert (Forall isGroup (take z.1 gs) /\ Forall isGroup (drop z.2 gs)) as [Hg1 Hg2] by (split; [by apply Forall_take|by apply Forall_drop]).
    assert (length (take z.1 gs) + (z.2 - z.1) + length (drop z.2 gs) = 8)%nat as Htot by (rewrite length_take, length_drop; lia).
    revert Hfuel Hg1 Hg2 Htot. generalize (take z.1 gs) as gs1, (drop z.2 gs) as gs2. intros gs1 gs2 Hfuel Hg1 Hg2 Htot.
    assert (16 - length (flat_map groupBytes (gs1 ++ gs2)) = 2 * (z.2 - z.1))%nat as Hrep by (rewrite groupBytes_length, length_app; lia).
    assert (length (flat_map groupBytes (gs1 ++ gs2)) < 16)%nat as Hlt by (rewrite groupBytes_length, length_app; lia).
    destruct gs1 as [|g gs1].
    + cbn [joinGroups app] in *. unfold parseIPv6Bytes. change colon with ":"%char. cbn iota. destruct gs2 as [|g gs2].
      * simpl in *. replace (z.2 - z.1)%nat with 8%nat by lia. done.
      * destruct (joinGroups_cons g gs2) as (d & l & Hd & E). rewrite (bool_decide_eq_false_2 (joinGroups _ = [])) by by rewrite E.
        rewrite andb_false_r, parse_groups by (done || simpl in *; lia). cbn [mbind option_bind app].
        rewrite (bool_decide_eq_true_2 (_ < 16)%nat) by done. cbn [negb bool_decide mbind option_bind]. rewrite Hrep. done.
    + destruct (joinGroups_cons g gs1) as (d & l & Hd & E). destruct (hexDigit_spec d Hd) as (_ & Hc & _).
      unfold parseIPv6Bytes. rewrite E, <- app_comm_cons.
      destruct (hexDigit d) as [[] [] [] [] [] [] [] []] eqn:Ed; try done; rewrite app_comm_cons, <- E;
        (rewrite parse_ellipsis by (done || simpl in *; lia)); cbn [mbind option_bind]; change ([] ++ ?l) with l;
        rewrite (bool_decide_eq_true_2 (_ < 16)%nat) by done; cbn [negb bool_decide mbind option_bind];
        rewrite flat_map_app, take_app_length, drop_app_length, <- flat_map_app, Hrep; done.
Qed.

Lemma zeroRun_spec l i : (i < zeroRun l)%nat -> l !! i = Some 0.
Proof.
  revert i. induction l as [|[|p|p] l IH]; intros i; simpl; [lia| |lia|lia]. destruct i as [|i]; [done|]. intros Hi. apply IH. lia.
Qed.

Lemma zeroRun_length l : (zeroRun l <= length l)%nat.
Proof. induction l as [|[|p|p] l IH]; simpl; lia. Qed.

Lemma longest_zeros gs : length gs = 8%nat -> zerosAt (longestZeroRun gs) gs.
Proof.
  intros Hl. unfold longestZeroRun.
  assert (forall idx best, Forall (fun i => (i < 8)%nat) idx -> zerosAt best gs -> zerosAt (foldl (fun best i =>
    let len := zeroRun (drop i gs) in
    if bool_decide (2 <= len)%nat && bool_decide (best.2 - best.1 < len)%nat then (i, i + len)%nat else best) best idx) gs) as H.
  { intros idx best His. revert best. induction His as [|i idx Hi _ IH]; intros best Hb; [done|]. cbn [foldl]. apply IH. cbv zeta.
    destruct (bool_decide (2 <= _)%nat) eqn:E2; [|done]. destruct (bool_decide (_ < _)%nat); [|done]. apply bool_decide_eq_true in E2.
    right. cbn [fst snd andb]. pose proof (zeroRun_length (drop i gs)) as Hz. rewrite length_drop, Hl in Hz. split; [lia|]. intros j Hj.
    pose proof (zeroRun_spec (drop i gs) (j - i) ltac:(lia)) as E. rewrite lookup_drop in E. by replace (i + (j - i))%nat with j in E by lia. }
  apply H; [|by left]. apply Forall_forall. intros i Hi. apply elem_of_seq in Hi. lia.
Qed.

(** The groups of a value are its digits in base 2^16. *)
Lemma foldl_groups gs acc : Forall isGroup gs ->
  foldl (fun acc x => acc * 2 ^ 8 + x) acc (flat_map groupBytes gs) = foldl (fun acc g => acc * 2 ^ 16 + g) acc gs.
Proof.
  intros H. revert acc. induction H as [|g gs Hg _ IH]; intros acc; [done|]. cbn [flat_map groupBytes app foldl].
  fold (flat_map groupBytes gs). rewrite IH. f_equal. pose proof (Z.div_mod g (2 ^ 8)). lia.
Qed.

Lemma groups_range b : Forall isGroup (groups6 b).
Proof.
  unfold groups6. apply Forall_fmap, Forall_forall. intros i _. unfold compose, isGroup. change 0xffff with (Z.ones 16).
  rewrite Z.land_ones by lia. apply Z.mod_pos_bound. lia.
Qed.

Lemma groups_value b : 0 <= b < 2 ^ 128 -> foldl (fun acc g => acc * 2 ^ 16 + g) 0 (groups6 b) = b.
Proof.
  intros Hb. assert (forall k, (k <= 8)%nat -> foldl (fun acc g => acc * 2 ^ 16 + g) 0 (take k (groups6 b)) = Z.shiftr b (16 * (8 - Z.of_nat k))) as H.
  { induction k as [|k IH]; intros Hk.
    - cbn [take foldl]. rewrite Z.shiftr_div_pow2 by lia. symmetry. apply Z.div_small. by replace (16 * (8 - Z.of_nat 0)) with 128 by lia.
    - assert (groups6 b !! k = Some (Z.land (Z.shiftr b (16 * (7 - Z.of_nat k))) 0xffff)) as Ek.
      { unfold groups6. by rewrite list_lookup_fmap, lookup_seq_lt by lia. }
      rewrite (take_S_r _ _ _ Ek), foldl_app, IH by lia. cbn [foldl]. change 0xffff with (Z.ones 16). rewrite Z.land_ones by lia.
      replace (16 * (8 - Z.of_nat k)) with (16 * (7 - Z.of_nat k) + 16) by lia. rewrite <- Z.shiftr_shiftr by lia.
      rewrite (Z.shiftr_div_pow2 _ 16) by lia. replace (16 * (8 - Z.of_nat (S k))) with (16 * (7 - Z.of_nat k)) by lia.
      pose proof (Z.div_mod (Z.shiftr b (16 * (7 - Z.of_nat k))) (2 ^ 16)). lia. }
  specialize (H 8%nat (le_n _)). rewrite take_ge in H by done. by rewrite H, Z.shiftr_0_r.
Qed.

(** The first of a dot, a colon and a percent sign is a colon, and there is no zone. *)
Lemma hexChars_safe g s whole : parseAs whole (hexChars g ++ s) = parseAs whole s /\ (cutZone s = (s, None) -> cutZone (hexChars g ++ s) = (hexChars g ++ s, None)).
Proof.
  unfold hexChars. induction (hexDigits_range g) as [|d l Hd _ [IH1 IH2]]; [by split|]. cbn [fmap list_fmap app parseAs cutZone].
  destruct (hexDigit_spec d Hd) as (_ & Hc & Hdot & Hp). split.
  - rewrite <- IH1. by destruct (hexDigit d) as [[] [] [] [] [] [] [] []].
  - intros Hs. rewrite (proj2 (Ascii.eqb_neq _ _)) by done. change (list_fmap Z ascii hexDigit l) with (hexDigit <$> l). by rewrite (IH2 Hs).
Qed.

Lemma joinGroups_zone gs s : cutZone s = (s, None) -> cutZone (joinGroups gs ++ s) = (joinGroups gs ++ s, None).
Proof.
  intros Hs. induction gs as [|g gs IH]; [done|]. destruct gs as [|g' gs]; [by apply hexChars_safe|].
  change (joinGroups (g :: g' :: gs)) with (hexChars g ++ colon :: joinGroups (g' :: gs)). rewrite <- app_assoc, <- app_comm_cons.
  apply (hexChars_safe g _ []). change colon with ":"%char. cbn [cutZone]. change (Ascii.eqb ":" "%") with false. cbn iota. by rewrite IH.
Qed.

Lemma compressed_safe z gs :
  length gs = 8%nat -> parseAs (compressed z gs) (compressed z gs) = parseIPv6 (compressed z gs) /\ cutZone (compressed z gs) = (compressed z gs, None).
Proof.
  intros Hl. unfold compressed. destruct (bool_decide (z.1 < 8)%nat).
  - split.
    + destruct (take z.1 gs) as [|g [|g' gs']]; cbn [joinGroups]; [done|by rewrite (proj1 (hexChars_safe g _ _))|].
      rewrite <- app_assoc. by rewrite (proj1 (hexChars_safe g _ _)).
    + apply joinGroups_zone. change colon with ":"%char. cbn [app cutZone]. change (Ascii.eqb ":" "%") with false. cbn iota.
      pose proof (joinGroups_zone (drop z.2 gs) [] eq_refl) as E. rewrite app_nil_r in E. by rewrite E.
  - split.
    + destruct gs as [|g [|g' gs]]; [done|done|]. cbn [joinGroups]. by rewrite (proj1 (hexChars_safe g _ _)).
    + pose proof (joinGroups_zone gs [] eq_refl) as E. by rewrite app_nil_r in E.
Qed.

(** An IPv6 address without a zone reads back, unless it maps an IPv4 address,
    whose text has dots. *)
Lemma groups_read b :
  0 <= b < 2 ^ 128 -> Is4In6 (Addr6 b "") = false -> ParseAddr (addrString (Addr6 b "")) = Some (Addr6 b "").
Proof.
  intros Hb H4. unfold addrString. rewrite H4. rewrite bool_decide_eq_true_2, string_app_nil by done. unfold ParseAddr.
  assert (length (groups6 b) = 8%nat) as Hl by done.
  rewrite print_compressed by (done || by apply longest_zeros). set (z := longestZeroRun _).
  destruct (compressed_safe z _ Hl) as [-> Hz]. unfold parseIPv6. rewrite Hz.
  rewrite parse_compressed by (done || apply groups_range || by apply longest_zeros). cbn [mbind option_bind].
  unfold AddrFromSlice. rewrite groupBytes_length, Hl, foldl_groups, groups_value by (done || apply groups_range).
  rewrite bool_decide_eq_false_2, bool_decide_eq_true_2 by done. done.
Qed.
