(* ===== verification/Sanitize.v ===== *)
(** * The sanitizer of recorded walks

    [sanitize/ip.go], [sanitize/identity.go], and of [sanitize/sanitize.go] and
    [sanitize/check.go] the mapping and the checks of addresses and identities.
    A mapping is read and extended under one lock, so an operation is one step
    on it; [None] is a panic.  [sha256] is the digest of [crypto/sha256]: only
    that it is a function is used, and where it matters that its result is
    bytes.  Regular expressions are written out as the matchers they are. *)

From Stdlib Require Import Ascii.
From S2P Require Import Prelude.
From S2P Require Import Netip.
From S2P Require Import NetipParse.
From S2P Require Import Bytes.
From S2P Require Import Text.
From S2P Require Import Oid.
From S2P Require Import StringOps.
From S2P Require Import NetipPrint.

(** ** The mapping *)

Record MappingStatistics := mkMappingStatistics {
  msFilesProcessed : Z; msIPsTransformed : Z; msHostnamesTransformed : Z
}.

Record Stats := mkStats { stIPsTransformed : Z; stHostnamesTransformed : Z }.

(** [hostnameSlots] is nil in a mapping read from a file. *)
Record Mapping := mkMapping {
  mpIPMappings : gmap string string; mpPrefixes : gmap string string; mpHostnames : gmap string string;
  mpHostnameSlots : option (gset string); mpStatistics : MappingStatistics
}.
#[export] Instance Mapping_rebuild : Rebuild Mapping := fun m =>
  mkMapping (mpIPMappings m) (mpPrefixes m) (mpHostnames m) (mpHostnameSlots m) (mpStatistics m).

Definition NewMapping : Mapping := mkMapping ∅ ∅ ∅ (Some ∅) (mkMappingStatistics 0 0 0).

Definition counts (m : Mapping) : Z * Z := (Z.of_nat (size (mpIPMappings m)), Z.of_nat (size (mpHostnames m))).

Definition recordDelta (initialIPs initialHostnames : Z) (m : Mapping) : Stats * Mapping :=
  let delta := mkStats (Z.of_nat (size (mpIPMappings m)) - initialIPs) (Z.of_nat (size (mpHostnames m)) - initialHostnames) in
  let stats := mpStatistics m in
  (delta, m <| mpStatistics := mkMappingStatistics (msFilesProcessed stats) (msIPsTransformed stats + stIPsTransformed delta)
                                 (msHostnamesTransformed stats + stHostnamesTransformed delta) |>).

(** ** Addresses *)

Definition managementSubnetOctet : Z := 100.
Definition corporateClassOctet : Z := 2.
Definition remoteClassOctet : Z := 3.
Definition prefixSlotsPerClass : Z := 256.
Definition overflowClassOctet : Z := 200.
Definition maxOctet : Z := 256.
Definition ipv4OctetCount : nat := 4.

Definition octet (b : Z) (i : Z) : Z := Z.land (Z.shiftr b (8 * (3 - i))) 255.

Definition classOctet (firstOctet : Z) : Z :=
  if firstOctet =? 10 then 0
  else if firstOctet =? 172 then 1
  else if firstOctet =? 192 then corporateClassOctet
  else if (firstOctet =? 63) || (firstOctet <? 10) then managementSubnetOctet
  else remoteClassOctet.

Definition isNetmask (b : Z) : bool :=
  if negb (octet b 0 =? 255) then false
  else let inverted := uint32 (Z.lnot b) in Z.land inverted (uint32 (inverted + 1)) =? 0.

Definition specialIPs : list string :=
  ["0.0.0.0"; "255.255.255.255"; "127.0.0.1"; "127.0.0.0"; "224.0.0."; "239.255.255.250"].

Definition isSpecialIP (ip : string) : bool :=
  existsb (fun special => HasPrefix ip special || bool_decide (ip = special)) specialIPs.

(** [fmt.Sprintf("%d.%d.%d", ...)] *)
Definition dotted3 (a b c : Z) : string := Itoa a +:+ "." +:+ Itoa b +:+ "." +:+ Itoa c.

Section sanitize.
Context (sha256 : string -> list Z).

Definition hashStart (s : string) : Z := bigUint32 (take 4 (sha256 s)).

(** The slots of a class from the hash on, and those of the overflow range. *)
Definition classCandidates (start class : Z) : list string :=
  (fun attempt => dotted3 10 class (uint32 (start + Z.of_nat attempt) mod prefixSlotsPerClass)) <$> seq 0 (Z.to_nat prefixSlotsPerClass).

Definition overflowCandidates : list string :=
  flat_map (fun octet2 => (fun octet3 => dotted3 10 octet2 octet3) <$> seqZ 0 prefixSlotsPerClass)
    (seqZ overflowClassOctet (maxOctet - overflowClassOctet)).

Definition mapPrefix (b : Z) (m : Mapping) : option (string * Mapping) :=
  let prefix := dotted3 (octet b 0) (octet b 1) (octet b 2) in
  match mpPrefixes m !! prefix with
  | Some mapped => Some (mapped, m)
  | None =>
      let taken : gset string := list_to_set (snd <$> map_to_list (mpPrefixes m)) in
      let candidates := classCandidates (hashStart prefix) (classOctet (octet b 0)) ++ overflowCandidates in
      candidate ← List.find (fun candidate => negb (bool_decide (candidate ∈ taken))) candidates;
      Some (candidate, m <| mpPrefixes := <[prefix := candidate]> (mpPrefixes m) |>)
  end.

(** ** IPv6 *)

Definition documentationPrefix : Prefix := mkPrefix (Addr6 0x20010db8000000000000000000000000 "") 32.

Definition ipv6Kept (a : Addr) : bool :=
  match a with
  | Addr6 b _ => (b =? 1) || (b =? 0) || IsMulticast a || (Z.shiftr b 118 =? 0x3fa) || Contains documentationPrefix a
  | _ => false
  end.

(** [fmt.Sprintf("%x", sixteen[:8])] *)
Definition networkHex (b : Z) : string :=
  String.string_of_list_ascii ((fun i => hexDigit (Z.land (Z.shiftr b (124 - 4 * Z.of_nat i)) 15)) <$> seq 0 16).

Definition mappedIPv6 (b : Z) : Addr :=
  let hash := sha256 (networkHex b) in
  Addr6 (0x20010db8 * 2 ^ 96 + byteAt hash 0 * 2 ^ 72 + byteAt hash 1 * 2 ^ 64 + Z.land b (2 ^ 64 - 1)) "".

Definition remember (ip sanitized : string) (m : Mapping) : string * Mapping :=
  (sanitized, m <| mpIPMappings := <[ip := sanitized]> (mpIPMappings m) |>).

Definition sanitizeIPv6 (original : string) (parsed : Addr) (b : Z) (m : Mapping) : string * Mapping :=
  if ipv6Kept parsed then (original, m)
  else
    match mpIPMappings m !! original with
    | Some sanitized => (sanitized, m)
    | None => remember original (addrString (mappedIPv6 b)) m
    end.

Definition sanitizeIP (ip : string) (m : Mapping) : option (string * Mapping) :=
  match ParseIP ip with
  | None => Some (ip, m)
  | Some parsed =>
      match ipTo4 parsed with
      | None => match parsed with Addr6 b _ => Some (sanitizeIPv6 ip parsed b m) | _ => Some (ip, m) end
      | Some b =>
          if isSpecialIP ip || isNetmask b then Some (ip, m)
          else
            match mpIPMappings m !! ip with
            | Some sanitized => Some (sanitized, m)
            | None =>
                '(prefix, m) ← mapPrefix b m;
                Some (remember ip (prefix +:+ "." +:+ Itoa (octet b 3)) m)
            end
      end
  end.

(** ** Addresses inside a line *)

Definition looksLikeIPOctet (s : string) : bool :=
  let n := String.length s in
  if bool_decide (n < 1)%nat || bool_decide (3 < n)%nat then false
  else if negb (forallb isDigit (String.list_ascii_of_string s)) then false
  else match Atoi s with Some v => (0 <=? v) && (v <=? 255) | None => false end.

Definition hasIPIndexedPrefix (oid : string) : bool :=
  existsb (HasPrefix oid) [".1.3.6.1.2.1.4.20.1."; ".1.3.6.1.2.1.4.21.1."; ".1.3.6.1.2.1.4.22.1."; ".1.3.6.1.2.1.3.1.1."].

Definition isPrivateOutsideMappedRange (quad : string) : bool :=
  match ParseIP quad with
  | None => false
  | Some parsed =>
      match ipTo4 parsed with
      | None => false
      | Some b => (Z.shiftr b 20 =? 0xac1) || (Z.shiftr b 16 =? 0xc0a8)
      end
  end.

(** The four arcs of [arcs] at [i], replaced by those of the sanitized address. *)
Definition replaceArcs (i : nat) (arcs : list string) (m : Mapping) : option (list string * Mapping) :=
  '(sanitized, m) ← sanitizeIP (joinDot (take ipv4OctetCount (drop i arcs))) m;
  let parts := take ipv4OctetCount (splitDot sanitized) in
  Some (take i arcs ++ parts ++ drop (i + length parts) arcs, m).

Definition rewriteOIDIndexIP (line : string) (m : Mapping) : option (string * Mapping) :=
  match indexOf line " = " with
  | None => Some (line, m)
  | Some sep =>
      let oid := takeString sep line in
      if negb (hasIPIndexedPrefix oid) then Some (line, m)
      else
        let arcs := splitDot oid in
        if bool_decide (length arcs < ipv4OctetCount)%nat then Some (line, m)
        else
          let at_ := (length arcs - ipv4OctetCount)%nat in
          if negb (forallb looksLikeIPOctet (drop at_ arcs)) then Some (line, m)
          else if isSpecialIP (joinDot (drop at_ arcs)) then Some (line, m)
          else
            '(arcs, m) ← replaceArcs at_ arcs m;
            Some (joinDot arcs +:+ dropString sep line, m)
  end.

(** The window slides one arc, or past an address that was replaced; each
    round moves it, so the number of arcs is fuel enough. *)
Fixpoint embeddedLoop (fuel i : nat) (arcs : list string) (changed : bool) (m : Mapping) : option (list string * bool * Mapping) :=
  match fuel with
  | O => Some (arcs, changed, m)
  | S fuel =>
      if bool_decide (length arcs < i + ipv4OctetCount)%nat then Some (arcs, changed, m)
      else if negb (isPrivateOutsideMappedRange (joinDot (take ipv4OctetCount (drop i arcs)))) then embeddedLoop fuel (S i) arcs changed m
      else
        '(arcs, m) ← replaceArcs i arcs m;
        embeddedLoop fuel (i + ipv4OctetCount) arcs true m
  end.

Definition rewriteEmbeddedPrivateIPs (line : string) (m : Mapping) : option (string * Mapping) :=
  match indexOf line " = " with
  | None => Some (line, m)
  | Some sep =>
      let arcs := splitDot (takeString sep line) in
      '(arcs, changed, m) ← embeddedLoop (length arcs) 0 arcs false m;
      if (changed : bool) then Some (joinDot arcs +:+ dropString sep line, m) else Some (line, m)
  end.

(** [[0-9][0-9.]*[0-9]]: a maximal run of digits and dots without the dots
    around it, unless a single digit is left. *)
Definition runChar (c : ascii) : bool := isDigit c || Ascii.eqb c "."%char.

(** The text before the match, the match and the text after it, of a run. *)
Definition runMatch (run : string) : string * option string * string :=
  let chars := String.list_ascii_of_string run in
  let body := trimDotsLeft chars in
  let core := rev (trimDotsLeft (rev body)) in
  let text := String.string_of_list_ascii in
  if bool_decide (length core < 2)%nat then (run, None, EmptyString)
  else (text (take (length chars - length body) chars), Some (text core), text (drop (length core) body)).

Fixpoint valueLoop (fuel : nat) (value : string) (m : Mapping) : option (string * Mapping) :=
  match fuel, value with
  | S fuel, String c rest =>
      if runChar c then
        let '(run, rest) := spanChars runChar value in
        let '(before, quad, after) := runMatch run in
        '(text, m) ← match quad with
                     | Some quad => if isPrivateOutsideMappedRange quad then sanitizeIP quad m else Some (quad, m)
                     | None => Some (EmptyString, m)
                     end;
        '(tail, m) ← valueLoop fuel rest m;
        Some (before +:+ text +:+ after +:+ tail, m)
      else '(tail, m) ← valueLoop fuel rest m; Some (String c tail, m)
  | _, _ => Some (value, m)
  end.

Definition rewriteValuePrivateIPs (line : string) (m : Mapping) : option (string * Mapping) :=
  match indexOf line " = " with
  | None => Some (line, m)
  | Some sep =>
      let value := dropString sep line in
      '(value, m) ← valueLoop (String.length value) value m;
      Some (takeString sep line +:+ value, m)
  end.

(** ** Host names *)

Definition defaultDeviceType : string := "dev".
Definition sysGroupPrefix : string := ".1.3.6.1.2.1.1.".
Definition minIdentityScrubLen : nat := 5.
Definition hostnameSlotCount : Z := 1000.
Definition digitCount : Z := 10.
Definition letterCount : Z := 26.

(** [^niac-core-(?:sw|rtr|ap|srv|fw|dev)-\d{2,}$] *)
Definition sanitizedHostname (hostname : string) : bool :=
  existsb (fun type =>
    match cutPrefix hostname ("niac-core-" +:+ type +:+ "-") with
    | Some digits => forallb isDigit (String.list_ascii_of_string digits) && bool_decide (2 <= String.length digits)%nat
    | None => false
    end) ["sw"; "rtr"; "ap"; "srv"; "fw"; "dev"].

(** [fmt.Sprintf("niac-core-%s-%02d", ...)] *)
Definition hostnameCandidate (deviceType : string) (number : Z) : string :=
  "niac-core-" +:+ deviceType +:+ "-" +:+ (if number <? 10 then "0" else "") +:+ Itoa number.

Definition sanitizeHostnameAs (hostname deviceType : string) (m : Mapping) : option (string * Mapping) :=
  if sanitizedHostname hostname then Some (hostname, m)
  else
    match mpHostnames m !! hostname with
    | Some sanitized => Some (sanitized, m)
    | None =>
        let slots := match mpHostnameSlots m with
                     | Some slots => slots
                     | None => list_to_set (snd <$> map_to_list (mpHostnames m))
                     end in
        let start := hashStart hostname in
        let candidates := (fun attempt => hostnameCandidate deviceType ((start + attempt) mod hostnameSlotCount)) <$> seqZ 0 hostnameSlotCount in
        candidate ← List.find (fun candidate => negb (bool_decide (candidate ∈ slots))) candidates;
        Some (candidate, m <| mpHostnameSlots := Some ({[candidate]} ∪ slots) |> <| mpHostnames := <[hostname := candidate]> (mpHostnames m) |>)
    end.

Definition sanitizeHostname (hostname : string) (m : Mapping) : option (string * Mapping) :=
  sanitizeHostnameAs hostname defaultDeviceType m.

(** ** Serial numbers *)

Definition inRange (c lo hi : ascii) : bool := (N_of_ascii lo <=? N_of_ascii c)%N && (N_of_ascii c <=? N_of_ascii hi)%N.

Definition fromBase (base : ascii) (offset : Z) : ascii := ascii_of_N (N_of_ascii base + Z.to_N offset).

Definition fakeChar (c : ascii) (b : Z) : ascii :=
  if inRange c "0" "9" then fromBase "0" (b mod digitCount)
  else if inRange c "A" "Z" then fromBase "A" (b mod letterCount)
  else if inRange c "a" "z" then fromBase "a" (b mod letterCount)
  else c.

Definition fakeSerial (serial : string) : string :=
  let hash := sha256 serial in
  String.string_of_list_ascii (imap (fun i c => fakeChar c (byteAt hash (i mod length hash))) (String.list_ascii_of_string serial)).
End sanitize.

(** ** Identity scalars *)

Definition isSystemScalar (line arc symbolic : string) : bool :=
  HasPrefix line (sysGroupPrefix +:+ arc +:+ ".0 ") || ContainsString line symbolic.

Definition isIdentityScalar (line : string) : bool :=
  isSystemScalar line "4" "sysContact" || isSystemScalar line "5" "sysName" || isSystemScalar line "6" "sysLocation".

(** [= STRING: (.+)]: what follows the first occurrence that something follows. *)
Fixpoint stringCapture (s : string) : option string :=
  match cutPrefix s "= STRING: " with
  | Some (String c rest) => Some (String c rest)
  | _ => match s with String _ s => stringCapture s | EmptyString => None end
  end.

Definition quote : string := String "034" EmptyString.

Definition trimQuotes (value : string) : string :=
  let value := match cutPrefix value quote with Some v => v | None => value end in
  let n := String.length value in
  if bool_decide (dropString (n - 1) value = quote) then takeString (n - 1) value else value.

Definition scalarStringValue (line : string) : option string :=
  captured ← stringCapture line;
  let value := trimQuotes (TrimSpace captured) in
  if bool_decide (value = EmptyString) then None else Some value.

Definition isDistinctiveIdentifier (s : string) : bool :=
  if bool_decide (String.length s < minIdentityScrubLen)%nat then false
  else existsb (fun c => isDigit c || bool_decide (c ∈ [".";"-";"_";"@"]%char)) (String.list_ascii_of_string s).

(** Longest first, those of one length in their order. *)
Fixpoint insertByLength {A} (text : A -> string) (x : A) (l : list A) : list A :=
  match l with
  | [] => [x]
  | y :: l' => if bool_decide (String.length (text x) <= String.length (text y))%nat then y :: insertByLength text x l' else x :: l
  end.

Definition longestFirst {A} (text : A -> string) (l : list A) : list A := foldl (fun sorted x => insertByLength text x sorted) [] l.

Record identitySub := mkIdentitySub { isFrom : string; isTo : string }.

Definition addSub (subs : list identitySub) (orig repl : string) : list identitySub :=
  if negb (isDistinctiveIdentifier orig) || bool_decide (orig = repl) then subs
  else if existsb (fun sub => bool_decide (isFrom sub = orig)) subs then subs
  else subs ++ [mkIdentitySub orig repl].

Fixpoint subsLoop (sha256 : string -> list Z) (contact deviceType : string) (lines : list string) (subs : list identitySub) (m : Mapping)
    : option (list identitySub * Mapping) :=
  match lines with
  | [] => Some (subs, m)
  | line :: lines =>
      if isSystemScalar line "5" "sysName" then
        match scalarStringValue line with
        | Some v =>
            '(sanitized, m) ← sanitizeHostnameAs sha256 v deviceType m;
            subsLoop sha256 contact deviceType lines (addSub subs v sanitized) m
        | None => subsLoop sha256 contact deviceType lines subs m
        end
      else if isSystemScalar line "4" "sysContact" then
        match scalarStringValue line with
        | Some v => subsLoop sha256 contact deviceType lines (addSub subs v contact) m
        | None => subsLoop sha256 contact deviceType lines subs m
        end
      else subsLoop sha256 contact deviceType lines subs m
  end.

Definition collectIdentitySubs (sha256 : string -> list Z) (lines : list string) (contact deviceType : string) (m : Mapping)
    : option (list identitySub * Mapping) :=
  '(subs, m) ← subsLoop sha256 contact deviceType lines [] m;
  Some (longestFirst isFrom subs, m).

(** [strings.ReplaceAll] of a text that is not empty; each round takes a
    character at least. *)
Fixpoint replaceLoop (fuel : nat) (s old new : string) : string :=
  match fuel with
  | O => s
  | S fuel =>
      match cutPrefix s old with
      | Some rest => new +:+ replaceLoop fuel rest old new
      | None => match s with String c s => String c (replaceLoop fuel s old new) | EmptyString => EmptyString end
      end
  end.

Definition ReplaceAll (s old new : string) : string := replaceLoop (S (String.length s)) s old new.

Definition applyIdentitySubs (line : string) (subs : list identitySub) : string :=
  foldl (fun line sub => if ContainsString line (isFrom sub) then ReplaceAll line (isFrom sub) (isTo sub) else line) line subs.

(** ** The type of the device *)

(** The first of [strings.Fields]. *)
Fixpoint fieldLoop (fuel : nat) (s : list Z) : list Z :=
  match fuel, s with
  | S fuel, b :: rest => match List.find (startsWith s) spaces with Some _ => [] | None => b :: fieldLoop fuel rest end
  | _, _ => []
  end.

(** Every field of a text; a field takes a byte at least. *)
Fixpoint fieldsLoop (fuel : nat) (s : list Z) : list string :=
  match fuel with
  | O => []
  | S fuel =>
      match trimRunes (length s) spaces s with
      | [] => []
      | s => let field := fieldLoop (length s) s in stringOf field :: fieldsLoop fuel (drop (length field) s)
      end
  end.

Definition Fields (s : string) : list string := fieldsLoop (String.length s) (bytesOf s).

(** A value without a field panics. *)
Definition integerValue (line : string) : option Z :=
  match CutString line " = " with
  | None => Some (-1)
  | Some (_, value) =>
      let trimmed := TrimSpace value in
      let value := TrimSpace (default trimmed (cutPrefix trimmed "INTEGER:")) in
      field ← Fields (value +:+ " ") !! 0%nat;
      Some (default (-1) (Atoi field))
  end.

Definition descriptionKeywords : list (string * string) :=
  [("access point", "ap"); ("wireless lan controller", "ap"); ("aironet", "ap"); ("firewall", "fw");
   ("security appliance", "fw"); ("router", "rtr"); ("switch", "sw"); ("server", "srv")].

Definition typeFromDescription (descr : string) : string :=
  match List.find (fun candidate => ContainsString descr candidate.1) descriptionKeywords with
  | Some candidate => candidate.2
  | None => ""
  end.

Definition serviceDatalink : Z := 0x02.
Definition serviceInternet : Z := 0x04.
Definition serviceApplication : Z := 0x40.

Definition typeFromServices (services : Z) : string :=
  if services <? 0 then ""
  else if negb (Z.land services serviceApplication =? 0) && (Z.land services serviceInternet =? 0) then "srv"
  else if negb (Z.land services serviceInternet =? 0) then "rtr"
  else if negb (Z.land services serviceDatalink =? 0) then "sw"
  else "".

Fixpoint typeLoop (lines : list string) (descr : string) (services : Z) : option (string * Z) :=
  match lines with
  | [] => Some (descr, services)
  | line :: lines =>
      if isSystemScalar line "1" "sysDescr" then
        typeLoop lines (match scalarStringValue line with Some v => ToLower v | None => descr end) services
      else if isSystemScalar line "7" "sysServices" then
        services ← integerValue line; typeLoop lines descr services
      else typeLoop lines descr services
  end.

Definition deviceTypeFromWalk (lines : list string) : option string :=
  '(descr, services) ← typeLoop lines "" (-1);
  Some (if negb (bool_decide (typeFromDescription descr = "")) then typeFromDescription descr
        else if negb (bool_decide (typeFromServices services = "")) then typeFromServices services
        else defaultDeviceType).

(** ** Domains *)

Definition identityDomainsOnLine (line : string) : list string :=
  if isSystemScalar line "5" "sysName" then
    match scalarStringValue line with
    | Some value => match CutString value "." with Some (_, domain) => [domain] | None => [] end
    | None => []
    end
  else if isSystemScalar line "4" "sysContact" then
    match scalarStringValue line with
    | Some value => omap (fun field => snd <$> CutString field "@") (Fields value)
    | None => []
    end
  else [].

(** [strings.Trim(s, ". ")] *)
Fixpoint trimCut (s : list ascii) : list ascii :=
  match s with
  | c :: s' => if Ascii.eqb c "." || Ascii.eqb c " " then trimCut s' else s
  | [] => []
  end.

Definition trimDomain (s : string) : string :=
  String.string_of_list_ascii (rev (trimCut (rev (trimCut (String.list_ascii_of_string s))))).

Definition collectIdentityDomains (lines : list string) (replacement : string) : list string :=
  let add domains domain :=
    let domain := ToLower (trimDomain domain) in
    if bool_decide (domain = "") || bool_decide (domain = replacement) || negb (ContainsString domain ".") then domains
    else if bool_decide (domain ∈ domains) then domains
    else domains ++ [domain] in
  longestFirst id (foldl add [] (flat_map identityDomainsOnLine lines)).

Definition rewriteIdentityDomains (line : string) (domains : list string) (replacement : string) : string :=
  foldl (fun line domain =>
    match indexOf (ToLower line) domain with
    | Some idx => takeString idx line +:+ replacement +:+ dropString (idx + String.length domain) line
    | None => line
    end) line domains.

(** ** Checking *)

Definition isPlaceholderIdentity (value : string) : bool :=
  bool_decide (value ∈ [""; "netadmin@niac-go.com"; "Network Administrator"; "NiAC-Go Simulated Device";
                        "NiAC-Go - DC-WEST - Network Operations"]).

Definition isContiguousMask (value : Z) : bool :=
  let inverted := uint32 (Z.lnot value) in Z.land inverted (uint32 (inverted + 1)) =? 0.

Definition maskColumns : list string := [".1.3.6.1.2.1.4.20.1.3"; ".1.3.6.1.2.1.4.21.1.11"].

Definition isMaskColumn (oid : string) : bool :=
  existsb (fun prefix => HasPrefix oid (prefix +:+ ".")) maskColumns || ContainsString oid "NetMask" || ContainsString oid "RouteMask".

Record Finding := mkFinding { fdLine : Z; fdReason : string; fdDetail : string }.

Definition checkMask (line : string) (number : Z) : list Finding :=
  match CutString line " = " with
  | None => []
  | Some (oid, value) =>
      if negb (isMaskColumn oid) then []
      else
        match cutPrefix (TrimSpace value) "IpAddress: " with
        | None => []
        | Some address =>
            let address := TrimSpace address in
            match ParseAddr address with
            | Some (Addr4 b) => if isContiguousMask b then [] else [mkFinding number "subnet mask column does not hold a mask" address]
            | _ => []
            end
        end
  end.

(** An address in text is not one that maps a version 4 address. *)
Definition isPrivateOutsideMapped (candidate : string) : bool :=
  match ParseAddr candidate with
  | Some (Addr4 b) => (Z.shiftr b 20 =? 0xac1) || (Z.shiftr b 16 =? 0xc0a8)
  | _ => false
  end.

Fixpoint arcsOutside (fuel i : nat) (arcs : list string) : list string :=
  match fuel with
  | O => []
  | S fuel =>
      if bool_decide (length arcs < i + 4)%nat then []
      else
        let quad := joinDot (take 4 (drop i arcs)) in
        if isPrivateOutsideMapped quad then quad :: arcsOutside fuel (i + 4) arcs else arcsOutside fuel (S i) arcs
  end.

Fixpoint runsOf (fuel : nat) (value : string) : list string :=
  match fuel, value with
  | S fuel, String c rest =>
      if runChar c then
        let '(run, rest) := spanChars runChar value in
        match (runMatch run).1.2 with Some quad => quad :: runsOf fuel rest | None => runsOf fuel rest end
      else runsOf fuel rest
  | _, _ => []
  end.

Definition privateAddressesOutsideMappedRange (line : string) : list string :=
  let '(oid, value) := default (line, EmptyString) (CutString line " = ") in
  let arcs := splitDot oid in
  arcsOutside (length arcs) 0 arcs ++ filter (fun run => isPrivateOutsideMapped run = true) (runsOf (String.length value) value).

Definition checkAddresses (line : string) (number : Z) : list Finding :=
  mkFinding number "private address outside the sanitized range" <$> privateAddressesOutsideMappedRange line.

Definition recordSysName (line : string) (number : Z) (names : gmap string Z) : list Finding * gmap string Z :=
  if negb (isSystemScalar line "5" "sysName") then ([], names)
  else
    match scalarStringValue line with
    | None => ([], names)
    | Some value =>
        match names !! value with
        | Some first => ([mkFinding number "sysName is already used by another device in this file"
                            (value +:+ ", first seen on line " +:+ Itoa first)], names)
        | None => ([], <[value := number]> names)
        end
    end.
