(* ===== verification/SanitizeTheorems.v ===== *)
(** * The sanitizer: what a mapping keeps apart and together

    Addresses of one network stay together and those of two networks apart
    ([subnets_kept]); a class of addresses has room for as many networks as its
    slots and those of the overflow range ([prefix_room]); names stay apart
    ([hostnames_apart]).  Where the code falls short of its comments, a run
    shows it. *)

From Stdlib Require Import Ascii.
From S2P Require Import Prelude.
From S2P Require Import Netip.
From S2P Require Import NetipParse.
From S2P Require Import Bytes.
From S2P Require Import Text.
From S2P Require Import Oid.
From S2P Require Import Decimal.
From S2P Require Import StringOps.
From S2P Require Import NetipPrint.
From S2P Require Import Sanitize.

(** ** Dotted text *)

Lemma split_dotted3 a b c t : 0 <= a -> 0 <= b -> 0 <= c -> splitDot (dotted3 a b c +:+ "." +:+ t) = Itoa a :: Itoa b :: Itoa c :: splitDot t.
Proof.
  intros Ha Hb Hc. unfold dotted3, Itoa. rewrite !string_app_assoc.
  rewrite !splitDot_part by by apply allDigits_noDot, pretty_digits. done.
Qed.

Lemma dotted3_inj a b c a' b' c' :
  0 <= a -> 0 <= b -> 0 <= c -> 0 <= a' -> 0 <= b' -> 0 <= c' -> dotted3 a b c = dotted3 a' b' c' -> a = a' /\ b = b' /\ c = c'.
Proof.
  intros ? ? ? ? ? ? E0. assert (splitDot (dotted3 a b c +:+ "." +:+ "") = splitDot (dotted3 a' b' c' +:+ "." +:+ "")) as E by by rewrite E0.
  rewrite !split_dotted3 in E by done. injection E as Ea Eb Ec. split_and!; by apply Itoa_inj.
Qed.

Lemma ParseIP_dotted a b c d :
  isOctet a -> isOctet b -> isOctet c -> isOctet d -> ParseIP (dotted3 a b c +:+ "." +:+ Itoa d) = Some (Addr4 (joined a b c d)).
Proof.
  intros Ha Hb Hc Hd. unfold ParseIP, dotted3. rewrite !string_app_assoc. by rewrite parse_dotted4.
Qed.

Lemma octet_range b i : isOctet (octet b i).
Proof.
  unfold isOctet, octet. change 255 with (Z.ones 8). rewrite Z.land_ones by lia. apply Z.mod_pos_bound. lia.
Qed.

Lemma octet_joined a b c d :
  isOctet a -> isOctet b -> isOctet c -> isOctet d ->
  octet (joined a b c d) 0 = a /\ octet (joined a b c d) 1 = b /\ octet (joined a b c d) 2 = c /\ octet (joined a b c d) 3 = d.
Proof.
  unfold isOctet, octet, joined. intros Ha Hb Hc Hd. change 255 with (Z.ones 8).
  rewrite !Z.land_ones, !Z.shiftr_div_pow2 by lia. change (8 * (3 - 0)) with 24. change (8 * (3 - 1)) with 16. change (8 * (3 - 2)) with 8.
  change (8 * (3 - 3)) with 0. rewrite Z.pow_0_r, Z.div_1_r.
  assert ((a * 2 ^ 24 + b * 2 ^ 16 + c * 2 ^ 8 + d) / 2 ^ 24 = a) as -> by (symmetry; apply (Z.div_unique_pos _ _ _ (b * 2 ^ 16 + c * 2 ^ 8 + d)); lia).
  assert ((a * 2 ^ 24 + b * 2 ^ 16 + c * 2 ^ 8 + d) / 2 ^ 16 = a * 2 ^ 8 + b) as -> by (symmetry; apply (Z.div_unique_pos _ _ _ (c * 2 ^ 8 + d)); lia).
  assert ((a * 2 ^ 24 + b * 2 ^ 16 + c * 2 ^ 8 + d) / 2 ^ 8 = a * 2 ^ 16 + b * 2 ^ 8 + c) as -> by (symmetry; apply (Z.div_unique_pos _ _ _ d); lia).
  split_and!; symmetry; [apply (Z.mod_unique_pos _ _ 0)|apply (Z.mod_unique_pos _ _ a)|apply (Z.mod_unique_pos _ _ (a * 2 ^ 8 + b))
    |apply (Z.mod_unique_pos _ _ (a * 2 ^ 16 + b * 2 ^ 8 + c))]; lia.
Qed.

#[local] Opaque Itoa.

(** ** Prefixes *)

Definition prefixText (b : Z) : string := dotted3 (octet b 0) (octet b 1) (octet b 2).

(** The two addresses are on one /24. *)
Definition sameNetwork (a b : Z) : Prop := octet a 0 = octet b 0 /\ octet a 1 = octet b 1 /\ octet a 2 = octet b 2.

Lemma prefixText_same a b : prefixText a = prefixText b <-> sameNetwork a b.
Proof.
  pose proof (octet_range a) as Ha. pose proof (octet_range b) as Hb. unfold prefixText, sameNetwork, isOctet in *. split.
  - intros E. apply dotted3_inj in E; [done|apply Ha..|apply Hb|apply Hb|apply Hb].
  - by intros (-> & -> & ->).
Qed.

(** A text that stands for an IPv4 address. *)
Definition ip4 (ip : string) : option Z := ParseIP ip ≫= ipTo4.

Definition ordinary (ip : string) (b : Z) : Prop := ip4 ip = Some b /\ isSpecialIP ip = false /\ isNetmask b = false.

Definition sanitizedPrefix (x : string) : Prop := exists y z, isOctet y /\ isOctet z /\ x = dotted3 10 y z.

Definition withHost (prefix : string) (b : Z) : string := prefix +:+ "." +:+ Itoa (octet b 3).

Record consistent (m : Mapping) : Prop := {
  prefixes_apart p q x : mpPrefixes m !! p = Some x -> mpPrefixes m !! q = Some x -> p = q;
  prefixes_sanitized p x : mpPrefixes m !! p = Some x -> sanitizedPrefix x;
  addresses_prefixed ip s b : mpIPMappings m !! ip = Some s -> ip4 ip = Some b ->
    exists x, mpPrefixes m !! prefixText b = Some x /\ s = withHost x b
}.

Lemma new_consistent : consistent NewMapping.
Proof.
  assert (forall (k x : string), (∅ : gmap string string) !! k <> Some x) as H by by (intros k x; rewrite lookup_empty).
  split; [intros p q x E|intros p x E|intros ip s b E]; by destruct (H _ _ E).
Qed.

Section sanitizing.
Context (sha256 : string -> list Z).

Lemma classOctet_range a : isOctet (classOctet a).
Proof. unfold classOctet, isOctet. repeat (destruct (_ || _) || destruct (_ =? _)); done. Qed.

Lemma candidates_sanitized start class x : isOctet class -> x ∈ classCandidates start class ++ overflowCandidates -> sanitizedPrefix x.
Proof.
  intros Hc [Hx|Hx]%elem_of_app.
  - apply list_elem_of_fmap in Hx as (k & -> & _). exists class, (uint32 (start + Z.of_nat k) mod prefixSlotsPerClass). split; [done|]. split; [|done].
    apply Z.mod_pos_bound. done.
  - apply list_elem_of_In, in_flat_map in Hx as (y & Hy & Hx). apply list_elem_of_In, elem_of_seqZ in Hy.
    apply list_elem_of_In, list_elem_of_fmap in Hx as (z & -> & Hz%elem_of_seqZ). exists y, z. unfold isOctet, overflowClassOctet, maxOctet, prefixSlotsPerClass in *.
    split_and!; lia || done.
Qed.

Lemma taken_values (m : gmap string string) x : x ∈ (list_to_set (snd <$> map_to_list m) : gset string) <-> exists p, m !! p = Some x.
Proof.
  rewrite elem_of_list_to_set, list_elem_of_fmap. split.
  - intros ([p y] & -> & Hin). apply elem_of_map_to_list in Hin. by exists p.
  - intros [p Hp]. exists (p, x). split; [done|]. by apply elem_of_map_to_list.
Qed.

Lemma mapPrefix_spec b m x m' :
  consistent m -> mapPrefix sha256 b m = Some (x, m') ->
  consistent m' /\ mpPrefixes m ⊆ mpPrefixes m' /\ mpPrefixes m' !! prefixText b = Some x /\ mpIPMappings m' = mpIPMappings m.
Proof.
  intros Hm. unfold mapPrefix. fold (prefixText b).
  pose proof (fun y => candidates_sanitized (hashStart sha256 (prefixText b)) _ y (classOctet_range (octet b 0))) as Hcs.
  generalize dependent (classCandidates (hashStart sha256 (prefixText b)) (classOctet (octet b 0)) ++ overflowCandidates). intros cs Hcs.
  destruct (mpPrefixes m !! prefixText b) as [mapped|] eqn:Ep; [intros E; by injection E as <- <-|].
  destruct (List.find _ _) as [candidate|] eqn:Ef; [|discriminate]. intros E. injection E as <- <-. apply find_some in Ef as [Hin Hfree].
  apply negb_true_iff, bool_decide_eq_false in Hfree. rewrite taken_values in Hfree.
  apply list_elem_of_In, Hcs in Hin. simpl.
  split; [|split; [by apply insert_subseteq|split; [apply lookup_insert_eq|done]]]. split; simpl.
  - intros p q y. rewrite !lookup_insert_Some. intros [[<- <-]|[Hp Hpy]] [[<- E]|[Hq Hqy]]; try done.
    + destruct Hfree. by exists q.
    + subst y. destruct Hfree. by exists p.
    + by eapply prefixes_apart.
  - intros p y [[<- <-]|[_ Hp]]%lookup_insert_Some; [done|]. by eapply prefixes_sanitized.
  - intros ip s c Hip Hc. destruct (addresses_prefixed _ Hm ip s c Hip Hc) as (y & Hy & ->). exists y. split; [|done].
    rewrite lookup_insert_ne; [done|]. intros E. by rewrite E, Hy in Ep.
Qed.

Lemma remember_consistent ip s m :
  consistent m -> (forall b, ip4 ip = Some b -> exists x, mpPrefixes m !! prefixText b = Some x /\ s = withHost x b) ->
  consistent (remember ip s m).2.
Proof.
  intros Hm Hs. split; simpl; [apply (prefixes_apart _ Hm)|apply (prefixes_sanitized _ Hm)|].
  intros ip' s' b [[<- <-]|[_ H]]%lookup_insert_Some Hb; [by apply Hs|]. by apply (addresses_prefixed _ Hm ip').
Qed.

Lemma sanitizeIPv6_spec ip parsed v m :
  let r := sanitizeIPv6 sha256 ip parsed v m in r.2 = m \/ exists s, r.2 = (remember ip s m).2.
Proof.
  cbv zeta. unfold sanitizeIPv6. generalize (addrString (mappedIPv6 sha256 v)). intros s.
  destruct (ipv6Kept parsed); [by left|]. destruct (mpIPMappings m !! ip); [by left|]. right. by exists s.
Qed.

(** One address: the mapping stays consistent and only grows, and an ordinary
    address is answered with the prefix of its network and its own host. *)
Lemma sanitizeIP_spec ip m out m' :
  consistent m -> sanitizeIP sha256 ip m = Some (out, m') ->
  consistent m' /\ mpPrefixes m ⊆ mpPrefixes m' /\
  forall b, ordinary ip b -> exists x, mpPrefixes m' !! prefixText b = Some x /\ out = withHost x b.
Proof.
  intros Hm. unfold sanitizeIP, ordinary, ip4. destruct (ParseIP ip) as [parsed|] eqn:Ep; [|by intros [= <- <-]; split_and!; [| |intros b []]].
  simpl. destruct (ipTo4 parsed) as [b|] eqn:E4.
  - destruct (isSpecialIP ip || isNetmask b) eqn:Esp.
    { intros [= <- <-]. split_and!; [done|done|]. intros c ([= <-] & H1 & H2). by rewrite H1, H2 in Esp. }
    destruct (mpIPMappings m !! ip) as [s|] eqn:Es.
    { intros [= <- <-]. split_and!; [done|done|]. intros c ([= <-] & _). apply (addresses_prefixed _ Hm ip); [done|]. unfold ip4. by rewrite Ep. }
    destruct (mapPrefix sha256 b m) as [[x m1]|] eqn:Ex; [|done]. intros [= <- <-].
    destruct (mapPrefix_spec _ _ _ _ Hm Ex) as (Hm1 & Hsub & Hx & _). split; [|split; [done|]].
    + apply (remember_consistent ip (withHost x b)); [done|]. unfold ip4. rewrite Ep. simpl. rewrite E4. intros c [= <-]. by exists x.
    + intros c ([= <-] & _). by exists x.
  - assert (sanitizeIP6 : forall r : string * Mapping, r = (out, m') -> (r.2 = m \/ exists s, r.2 = (remember ip s m).2) ->
      consistent m' /\ mpPrefixes m ⊆ mpPrefixes m' /\ forall b, None = Some b /\ isSpecialIP ip = false /\ isNetmask b = false ->
        exists x, mpPrefixes m' !! prefixText b = Some x /\ out = withHost x b).
    { intros r -> [E|[s Es]]; cbn [snd] in *; subst m'; [split_and!; [exact Hm|reflexivity|intros c [? _]; discriminate]|].
      split_and!; [|reflexivity|intros c [? _]; discriminate]. apply (remember_consistent ip s m Hm). unfold ip4. rewrite Ep. simpl. rewrite E4. discriminate. }
    destruct parsed as [|v|v z]; [intros E; injection E as <- <-; apply (sanitizeIP6 (ip, m)); [reflexivity|by left]..|].
    intros E. apply (sanitizeIP6 (sanitizeIPv6 sha256 ip (Addr6 v z) v m)); [by apply (f_equal (default (out, m'))) in E|].
    apply sanitizeIPv6_spec.
Qed.
End sanitizing.

(** ** A batch of addresses *)

Fixpoint sanitizeAll (sha256 : string -> list Z) (ips : list string) (m : Mapping) : option (list string * Mapping) :=
  match ips with
  | [] => Some ([], m)
  | ip :: ips =>
      '(out, m) ← sanitizeIP sha256 ip m;
      '(outs, m) ← sanitizeAll sha256 ips m;
      Some (out :: outs, m)
  end.

Lemma sanitizeAll_spec sha256 ips m outs m' :
  consistent m -> sanitizeAll sha256 ips m = Some (outs, m') ->
  consistent m' /\ mpPrefixes m ⊆ mpPrefixes m' /\ length outs = length ips /\
  forall i ip b, ips !! i = Some ip -> ordinary ip b ->
    exists x, mpPrefixes m' !! prefixText b = Some x /\ outs !! i = Some (withHost x b).
Proof.
  revert m outs. induction ips as [|ip ips IH]; intros m outs Hm; cbn [sanitizeAll].
  - intros [= <- <-]. split_and!; [done|done|done|]. intros i ip b E. by rewrite lookup_nil in E.
  - destruct (sanitizeIP sha256 ip m) as [[out m1]|] eqn:E1; [|discriminate]. cbn [mbind option_bind].
    destruct (sanitizeAll sha256 ips m1) as [[outs1 m2]|] eqn:E2; [|discriminate]. cbn [mbind option_bind]. intros E. injection E as <- <-.
    destruct (sanitizeIP_spec _ _ _ _ _ Hm E1) as (Hm1 & Hs1 & H1). destruct (IH m1 outs1 Hm1 E2) as (Hm2 & Hs2 & Hl & H2).
    split_and!; [done|by etrans|simpl; by rewrite Hl|]. intros [|i] ip' b Hip Hb; [|by apply (H2 i ip')].
    injection Hip as ->. destruct (H1 b Hb) as (x & Hx & ->). exists x. split; [|done]. by eapply lookup_weaken.
Qed.

Lemma withHost_read x b : sanitizedPrefix x ->
  exists c, ip4 (withHost x b) = Some c /\ octet c 0 = 10 /\ octet c 3 = octet b 3 /\ prefixText c = x.
Proof.
  intros (y & z & Hy & Hz & ->). exists (joined 10 y z (octet b 3)). pose proof (octet_range b 3) as Hh.
  assert (isOctet 10) as Hten by done. destruct (octet_joined 10 y z (octet b 3) Hten Hy Hz Hh) as (E0 & E1 & E2 & E3).
  unfold ip4, withHost. rewrite ParseIP_dotted by done. split_and!; try done. unfold prefixText. by rewrite E0, E1, E2.
Qed.

(** C32. Whatever batch of texts goes through one mapping, each ordinary IPv4
    address comes out as an address of 10.0.0.0/8 with its own host octet, and
    two of them come out on one /24 exactly when they came from one: networks
    are neither torn apart nor merged.  The mapping stays one of which this
    can be said of the next batch. *)
Theorem subnets_kept sha256 ips m outs m' :
  consistent m -> sanitizeAll sha256 ips m = Some (outs, m') ->
  consistent m' /\
  forall i ip b, ips !! i = Some ip -> ordinary ip b ->
    exists out c, outs !! i = Some out /\ ip4 out = Some c /\ octet c 0 = 10 /\ octet c 3 = octet b 3 /\
      forall j ip' b' out' c', ips !! j = Some ip' -> ordinary ip' b' -> outs !! j = Some out' -> ip4 out' = Some c' ->
        (sameNetwork c c' <-> sameNetwork b b').
Proof.
  intros Hm E. destruct (sanitizeAll_spec _ _ _ _ _ Hm E) as (Hm' & _ & _ & H). split; [done|]. intros i ip b Hi Hb.
  destruct (H i ip b Hi Hb) as (x & Hx & Ho). destruct (withHost_read x b (prefixes_sanitized _ Hm' _ _ Hx)) as (c & Hc & H0 & H3 & Hp).
  exists (withHost x b), c. split_and!; [done..|]. intros j ip' b' out' c' Hj Hb' Ho' Hc'.
  destruct (H j ip' b' Hj Hb') as (x' & Hx' & Ho2). rewrite Ho2 in Ho'. injection Ho' as <-.
  destruct (withHost_read x' b' (prefixes_sanitized _ Hm' _ _ Hx')) as (d & Hd & _ & _ & Hp'). rewrite Hd in Hc'. injection Hc' as <-.
  rewrite <- !prefixText_same, Hp, Hp'. split; [intros ->|intros Ep].
  - by apply (prefixes_apart _ Hm' _ _ x').
  - rewrite Ep, Hx' in Hx. by injection Hx as ->.
Qed.

(** ** Room *)

Lemma NoDup_class start class : isOctet class -> NoDup (classCandidates start class).
Proof.
  intros Hc. unfold classCandidates. apply NoDup_fmap_2_strong; [|apply NoDup_seq]. intros i j Hi%elem_of_seq Hj%elem_of_seq E.
  pose proof (fun k => Z.mod_pos_bound (uint32 (start + Z.of_nat k)) prefixSlotsPerClass eq_refl) as Hr.
  assert (0 <= class) as Hc0 by apply Hc. apply dotted3_inj in E as (_ & _ & E); try done; try apply Hr.
  unfold prefixSlotsPerClass, uint32 in *. rewrite !Z.mod_mod_divide in E by (exists (2 ^ 24); reflexivity).
  pose proof (Z.div_mod (start + Z.of_nat i) 256). pose proof (Z.div_mod (start + Z.of_nat j) 256). lia.
Qed.

Lemma overflow_elem x : x ∈ overflowCandidates <-> exists y z, 200 <= y < 256 /\ isOctet z /\ x = dotted3 10 y z.
Proof.
  unfold overflowCandidates. rewrite list_elem_of_In, in_flat_map. split.
  - intros (y & Hy & Hx). apply list_elem_of_In, elem_of_seqZ in Hy. apply list_elem_of_In, list_elem_of_fmap in Hx as (z & -> & Hz%elem_of_seqZ).
    exists y, z. unfold isOctet, overflowClassOctet, maxOctet, prefixSlotsPerClass in *. split_and!; lia || done.
  - intros (y & z & Hy & Hz & ->). exists y. unfold isOctet in Hz. split.
    + apply list_elem_of_In, elem_of_seqZ. unfold overflowClassOctet, maxOctet. lia.
    + apply list_elem_of_In, list_elem_of_fmap_2, elem_of_seqZ. unfold prefixSlotsPerClass. lia.
Qed.

Lemma NoDup_flat_map {A B} (f : A -> list B) (l : list A) :
  NoDup l -> (forall x, x ∈ l -> NoDup (f x)) -> (forall x y z, x ∈ l -> y ∈ l -> z ∈ f x -> z ∈ f y -> x = y) -> NoDup (flat_map f l).
Proof.
  induction l as [|x l IH]; intros Hn Hf Hd; cbn [flat_map]; [constructor|]. apply NoDup_cons in Hn as [Hx Hn].
  apply NoDup_app. split_and!; [apply Hf; set_solver| |apply IH; [done|set_solver|intros ? ? ? ? ?; apply Hd; set_solver]].
  intros z Hz Hin. apply list_elem_of_In, in_flat_map in Hin as (y & Hy%list_elem_of_In & Hzy%list_elem_of_In). apply Hx.
  rewrite (Hd x y z); [done|set_solver..].
Qed.

Lemma NoDup_overflow : NoDup overflowCandidates.
Proof.
  apply NoDup_flat_map.
  - apply NoDup_seqZ.
  - intros y Hy%elem_of_seqZ. apply NoDup_fmap_2_strong; [|apply NoDup_seqZ]. intros z z' Hz%elem_of_seqZ Hz'%elem_of_seqZ E.
    unfold overflowClassOctet, prefixSlotsPerClass in *. by apply dotted3_inj in E as (_ & _ & E); [|lia..].
  - intros y y' x Hy%elem_of_seqZ Hy'%elem_of_seqZ (z & -> & Hz%elem_of_seqZ)%list_elem_of_fmap (z' & E & Hz'%elem_of_seqZ)%list_elem_of_fmap.
    unfold overflowClassOctet, prefixSlotsPerClass in *. by apply dotted3_inj in E as (_ & E & _); [|lia..].
Qed.

Lemma classOctet_small a : classOctet a < 200.
Proof. unfold classOctet. repeat (destruct (_ || _) || destruct (_ =? _)); done. Qed.

Lemma NoDup_candidates start a : NoDup (classCandidates start (classOctet a) ++ overflowCandidates).
Proof.
  pose proof (classOctet_range a) as Hc. apply NoDup_app. split_and!; [by apply NoDup_class| |apply NoDup_overflow].
  intros x Hx (y & z & Hy & Hz & E)%overflow_elem. apply list_elem_of_fmap in Hx as (k & -> & _). pose proof (classOctet_small a).
  pose proof (Z.mod_pos_bound (uint32 (start + Z.of_nat k)) prefixSlotsPerClass eq_refl). unfold isOctet in *.
  apply dotted3_inj in E as (_ & E & _); lia.
Qed.

(** The slots of a class and of the overflow range, 57 times 256. *)
Definition prefixRoom : nat := 57 * 256.

Lemma candidates_length start a : length (classCandidates start (classOctet a) ++ overflowCandidates) = prefixRoom.
Proof.
  rewrite length_app. unfold classCandidates. rewrite length_fmap, length_seq.
  assert (length overflowCandidates = 56 * 256)%nat as -> by (vm_compute; reflexivity). vm_compute. reflexivity.
Qed.

(** A network gets a prefix of its own as long as the mapping has fewer
    than 57 times 256 of them: the slots of its class, which are all tried
    from the hash on, and then those of the overflow range. *)
Theorem prefix_room sha256 b m :
  (size (mpPrefixes m) < prefixRoom)%nat -> is_Some (mapPrefix sha256 b m).
Proof.
  intros Hroom. unfold mapPrefix. destruct (mpPrefixes m !! _); [by eexists|].
  destruct (List.find _ _) as [candidate|] eqn:Ef; [by eexists|]. exfalso.
  rewrite <- (candidates_length (hashStart sha256 (prefixText b)) (octet b 0)) in Hroom. set (cs := classCandidates _ _ ++ _) in *.
  rewrite <- (length_map_to_list (mpPrefixes m)), <- (length_fmap snd) in Hroom. apply Nat.lt_nge in Hroom. apply Hroom.
  apply submseteq_length, NoDup_submseteq; [apply NoDup_candidates|].
  intros x Hx%list_elem_of_In. apply (find_none _ _ Ef) in Hx. apply negb_false_iff, bool_decide_eq_true in Hx.
  by apply elem_of_list_to_set in Hx.
Qed.

(** ** IPv6 networks are not kept apart *)

Lemma collision {A B} `{EqDecision B} (f : A -> B) (l : list A) :
  NoDup l -> ~ NoDup (f <$> l) -> exists x y, x ∈ l /\ y ∈ l /\ x <> y /\ f x = f y.
Proof.
  induction l as [|x l IH]; intros Hn Hf; [destruct Hf; constructor|]. apply NoDup_cons in Hn as [Hx Hn].
  destruct (decide (f x ∈ f <$> l)) as [Hin|Hout].
  - apply list_elem_of_fmap in Hin as (y & E & Hy). exists x, y. split_and!; [set_solver|set_solver| |done]. by intros ->.
  - destruct IH as (y & z & ? & ? & ? & ?); [done|intros Hl; apply Hf; rewrite fmap_cons; by constructor|]. exists y, z. set_solver.
Qed.

Lemma pigeons (f : Z -> Z) (n : Z) :
  0 <= n -> (forall k, 0 <= k <= n -> 0 <= f k < n) -> exists i j, 0 <= i <= n /\ 0 <= j <= n /\ i <> j /\ f i = f j.
Proof.
  intros Hn Hf. destruct (collision f (seqZ 0 (n + 1))) as (i & j & Hi%elem_of_seqZ & Hj%elem_of_seqZ & Hne & E); [apply NoDup_seqZ| |exists i, j; lia].
  intros Hd. assert (f <$> seqZ 0 (n + 1) ⊆+ seqZ 0 n) as Hs.
  { apply NoDup_submseteq; [done|]. intros x (k & -> & Hk%elem_of_seqZ)%list_elem_of_fmap. apply elem_of_seqZ.
    assert (0 <= k <= n) as Hk' by lia. specialize (Hf k Hk'). lia. }
  apply submseteq_length in Hs. rewrite length_fmap, !length_seqZ in Hs. lia.
Qed.

Lemma mapped_same sha256 b b' :
  byteAt (sha256 (networkHex b)) 0 = byteAt (sha256 (networkHex b')) 0 -> byteAt (sha256 (networkHex b)) 1 = byteAt (sha256 (networkHex b')) 1 ->
  Z.land b (2 ^ 64 - 1) = Z.land b' (2 ^ 64 - 1) -> mappedIPv6 sha256 b = mappedIPv6 sha256 b'.
Proof. unfold mappedIPv6. by intros -> -> ->. Qed.

(** Whatever the digest, two of the networks 2400::/64 to 2400::1:0:0:0:0/64
    are mapped to one: two bytes of it are all that tells them apart. *)
Theorem networks_merge sha256 :
  (forall s, Forall isByte (sha256 s)) ->
  exists b b', Z.shiftr b 64 <> Z.shiftr b' 64 /\ Z.shiftr b 112 = 0x2400 /\ Z.shiftr b' 112 = 0x2400 /\ mappedIPv6 sha256 b = mappedIPv6 sha256 b'.
Proof.
  intros Hb. set (network k := 0x2400 * 2 ^ 112 + k * 2 ^ 64).
  assert (forall s i, 0 <= byteAt (sha256 s) i < 2 ^ 8) as Hr by by (intros s i; apply byteAt_range).
  destruct (pigeons (fun k => byteAt (sha256 (networkHex (network k))) 0 * 2 ^ 8 + byteAt (sha256 (networkHex (network k))) 1) (2 ^ 16))
    as (i & j & Hi & Hj & Hne & E); [lia|intros k _; pose proof (Hr (networkHex (network k)) 0%nat); pose proof (Hr (networkHex (network k)) 1%nat); lia|].
  pose proof (Hr (networkHex (network i)) 0%nat). pose proof (Hr (networkHex (network i)) 1%nat).
  pose proof (Hr (networkHex (network j)) 0%nat). pose proof (Hr (networkHex (network j)) 1%nat).
  assert (forall k, Z.shiftr (network k) 64 = 0x2400 * 2 ^ 48 + k) as Hnet.
  { intros k. unfold network. rewrite Z.shiftr_div_pow2 by lia. symmetry. apply (Z.div_unique_pos _ _ _ 0); lia. }
  assert (forall k, 0 <= k <= 2 ^ 16 -> Z.shiftr (network k) 112 = 0x2400) as Htop.
  { intros k Hk. unfold network. rewrite Z.shiftr_div_pow2 by lia. symmetry. apply (Z.div_unique_pos _ _ _ (k * 2 ^ 64)); lia. }
  assert (forall k, Z.land (network k) (2 ^ 64 - 1) = 0) as Hhost.
  { intros k. change (2 ^ 64 - 1) with (Z.ones 64). rewrite Z.land_ones by lia. unfold network. apply Z.mod_divide; [lia|]. exists (0x2400 * 2 ^ 48 + k). lia. }
  exists (network i), (network j). split_and!; [rewrite !Hnet; lia|by apply Htop|by apply Htop|]. apply mapped_same; [lia|lia|by rewrite !Hhost].
Qed.

(** ** Names *)

Record namesApart (m : Mapping) : Prop := {
  names_unique h1 h2 x : mpHostnames m !! h1 = Some x -> mpHostnames m !! h2 = Some x -> h1 = h2;
  names_taken h x slots : mpHostnames m !! h = Some x -> mpHostnameSlots m = Some slots -> x ∈ slots
}.

Lemma sanitizeHostname_spec sha256 h type m out m' :
  namesApart m -> sanitizedHostname h = false -> sanitizeHostnameAs sha256 h type m = Some (out, m') ->
  namesApart m' /\ mpHostnames m ⊆ mpHostnames m' /\ mpHostnames m' !! h = Some out.
Proof.
  intros Hm Hc. unfold sanitizeHostnameAs. rewrite Hc. destruct (mpHostnames m !! h) as [s|] eqn:Eh; [intros E; by injection E as <- <-|].
  set (slots := match mpHostnameSlots m with Some s => s | None => _ end).
  assert (forall h x, mpHostnames m !! h = Some x -> x ∈ slots) as Hs.
  { intros h' x Hx. unfold slots. destruct (mpHostnameSlots m) as [s|] eqn:Es; [by eapply names_taken|]. apply taken_values. by exists h'. }
  clearbody slots. generalize ((fun attempt => hostnameCandidate type ((hashStart sha256 h + attempt) mod hostnameSlotCount)) <$> seqZ 0 hostnameSlotCount).
  intros cs. destruct (List.find _ cs) as [candidate|] eqn:Ef; [|discriminate]. intros E. injection E as <- <-.
  apply find_some in Ef as [_ Hfree]. apply negb_true_iff, bool_decide_eq_false in Hfree. cbn [setf mpHostnames mpHostnameSlots].
  split; [|split; [by apply insert_subseteq|apply lookup_insert_eq]]. split; cbn [setf mpHostnames mpHostnameSlots].
  - intros h1 h2 x [[<- <-]|[Hn1 H1]]%lookup_insert_Some [[<- E]|[Hn2 H2]]%lookup_insert_Some; [done| | |by eapply names_unique].
    + destruct Hfree. by eapply Hs.
    + subst x. destruct Hfree. by eapply Hs.
  - intros h' x slots' Hx [= <-]. apply lookup_insert_Some in Hx as [[<- <-]|[_ Hx]]; [set_solver|]. apply elem_of_union_r. by eapply Hs.
Qed.

Fixpoint nameAll (sha256 : string -> list Z) (names : list (string * string)) (m : Mapping) : option (list string * Mapping) :=
  match names with
  | [] => Some ([], m)
  | (h, type) :: names =>
      '(out, m) ← sanitizeHostnameAs sha256 h type m;
      '(outs, m) ← nameAll sha256 names m;
      Some (out :: outs, m)
  end.

(** Names that were not sanitized before: two devices get one name exactly
    when they had one. *)
Theorem hostnames_apart sha256 names m outs m' :
  namesApart m -> Forall (fun name => sanitizedHostname name.1 = false) names -> nameAll sha256 names m = Some (outs, m') ->
  namesApart m' /\
  forall i j h1 t1 h2 t2, names !! i = Some (h1, t1) -> names !! j = Some (h2, t2) -> (outs !! i = outs !! j <-> h1 = h2).
Proof.
  intros Hm Hn E. assert (namesApart m' /\ mpHostnames m ⊆ mpHostnames m' /\
    forall i h t, names !! i = Some (h, t) -> exists out, outs !! i = Some out /\ mpHostnames m' !! h = Some out) as (Hm' & _ & H).
  { revert m outs Hm E. induction Hn as [|[h type] names Hh _ IH]; intros m outs Hm; cbn [nameAll]; [intros [= <- <-]; split_and!; [done|done|]|].
    { intros i h t E. by rewrite lookup_nil in E. }
    destruct (sanitizeHostnameAs sha256 h type m) as [[out m1]|] eqn:E1; [|discriminate]. cbn [mbind option_bind].
    destruct (nameAll sha256 names m1) as [[outs1 m2]|] eqn:E2; [|discriminate]. cbn [mbind option_bind]. intros E. injection E as <- <-.
    destruct (sanitizeHostname_spec _ _ _ _ _ _ Hm Hh E1) as (Hm1 & Hs1 & H1). destruct (IH m1 outs1 Hm1 E2) as (Hm2 & Hs2 & H2).
    split_and!; [done|by etrans|]. intros [|i] h' t' Hi; [|by apply (H2 i h' t')]. injection Hi as -> ->. exists out.
    split; [done|]. by eapply lookup_weaken. }
  split; [done|]. intros i j h1 t1 h2 t2 Hi Hj. destruct (H _ _ _ Hi) as (o1 & -> & H1), (H _ _ _ Hj) as (o2 & -> & H2).
  split; [intros [= ->]; by eapply names_unique|intros ->]. by rewrite H2 in H1.
Qed.

(** ** Serial numbers *)

Inductive charKind := Digit | Upper | Lower | Other (c : ascii).

Definition kindOf (c : ascii) : charKind :=
  if inRange c "0" "9" then Digit else if inRange c "A" "Z" then Upper else if inRange c "a" "z" then Lower else Other c.

Lemma fromBase_range base n k : (N_of_ascii base + Z.to_N k < 256)%N -> 0 <= k < n ->
  (N_of_ascii base <= N_of_ascii (fromBase base k) < N_of_ascii base + Z.to_N n)%N.
Proof. intros Hb Hk. unfold fromBase. rewrite N_ascii_embedding by done. lia. Qed.

Lemma fakeChar_kind c b : kindOf (fakeChar c b) = kindOf c.
Proof.
  pose proof (Z.mod_pos_bound b digitCount eq_refl) as H10. pose proof (Z.mod_pos_bound b letterCount eq_refl) as H26.
  unfold kindOf at 2, fakeChar. unfold digitCount, letterCount in *.
  assert (forall base hi n k, (N_of_ascii base + Z.to_N n = N_of_ascii hi + 1)%N -> 0 <= k < n -> inRange (fromBase base k) base hi = true) as Hin.
  { intros base hi n k Hb Hk. pose proof (N_ascii_bounded hi). pose proof (fromBase_range base n k ltac:(lia) Hk).
    unfold inRange. apply andb_true_iff. rewrite !N.leb_le. lia. }
  destruct (inRange c "0" "9") eqn:E0.
  { unfold kindOf. by rewrite (Hin "0"%char "9"%char 10 (b mod 10) eq_refl H10). }
  assert (forall lo hi lo' hi' x, inRange x lo hi = true -> (N_of_ascii hi' < N_of_ascii lo)%N -> inRange x lo' hi' = false) as Hout'.
  { intros lo hi lo' hi' x. unfold inRange. rewrite andb_true_iff, andb_false_iff, !N.leb_le, !N.leb_gt. lia. }
  destruct (inRange c "A" "Z") eqn:E1.
  { pose proof (Hin "A"%char "Z"%char 26 (b mod 26) eq_refl H26) as Hx. unfold kindOf.
    rewrite (Hout' "A"%char "Z"%char "0"%char "9"%char _ Hx eq_refl). by rewrite Hx. }
  destruct (inRange c "a" "z") eqn:E2.
  { pose proof (Hin "a"%char "z"%char 26 (b mod 26) eq_refl H26) as Hx. unfold kindOf.
    rewrite (Hout' "a"%char "z"%char "0"%char "9"%char _ Hx eq_refl), (Hout' "a"%char "z"%char "A"%char "Z"%char _ Hx eq_refl).
    by rewrite Hx. }
  unfold kindOf. by rewrite E0, E1, E2.
Qed.

(** The stand-in of a serial number has its format: the kind of every
    character, and every character that is neither digit nor letter. *)
Theorem serial_format sha256 serial :
  kindOf <$> String.list_ascii_of_string (fakeSerial sha256 serial) = kindOf <$> String.list_ascii_of_string serial.
Proof.
  unfold fakeSerial. rewrite String.list_ascii_of_string_of_list_ascii. generalize (sha256 serial). intros hash.
  generalize (fun i : nat => byteAt hash (i mod length hash)). intros f. generalize (String.list_ascii_of_string serial). intros l.
  rewrite fmap_imap. apply list_eq. intros i. rewrite list_lookup_imap, list_lookup_fmap. destruct (l !! i); simpl; [|done].
  by rewrite fakeChar_kind.
Qed.

(** ** Arcs *)

Lemma isPrivate_ordinary quad : isPrivateOutsideMappedRange quad = true -> exists b, ip4 quad = Some b /\ (octet b 0 = 172 \/ octet b 0 = 192).
Proof.
  unfold isPrivateOutsideMappedRange, ip4. destruct (ParseIP quad) as [parsed|]; [|done]. cbn [mbind option_bind]. destruct (ipTo4 parsed) as [b|]; [|done].
  intros H. exists b. split; [done|]. unfold octet. change 255 with (Z.ones 8). change (8 * (3 - 0)) with (20 + 4). rewrite <- Z.shiftr_shiftr by lia.
  apply orb_true_iff in H as [H%Z.eqb_eq|H%Z.eqb_eq]; [left; by rewrite H|right].
  rewrite Z.shiftr_shiftr by lia. change (20 + 4) with (16 + 8). rewrite <- Z.shiftr_shiftr by lia. by rewrite H.
Qed.

(** What an address is replaced with has four parts. *)
Lemma sanitized_parts sha256 ip b m out m' :
  consistent m -> ip4 ip = Some b -> sanitizeIP sha256 ip m = Some (out, m') ->
  out = ip \/ (length (splitDot out) = 4%nat /\ Forall noDot (splitDot out)).
Proof.
  intros Hm Hb E. destruct (decide (isSpecialIP ip = false /\ isNetmask b = false)) as [[H1 H2]|Hn].
  - right. destruct (sanitizeIP_spec _ _ _ _ _ Hm E) as (Hm' & _ & H). destruct (H b ltac:(by split_and!)) as (x & Hx & ->).
    destruct (prefixes_sanitized _ Hm' _ _ Hx) as (y & z & Hy & Hz & ->). split; [|apply splitDot_parts]. pose proof (octet_range b 3) as Hh.
    unfold withHost. rewrite split_dotted3 by (apply Hy || apply Hz || done).
    by rewrite splitDot_digits by (apply pretty_digits, Hh).
  - left. unfold sanitizeIP in E. unfold ip4 in Hb. destruct (ParseIP ip) as [parsed|]; [|discriminate]. cbn [mbind option_bind] in Hb. rewrite Hb in E.
    assert (isSpecialIP ip || isNetmask b = true) as Hs by (destruct (isSpecialIP ip), (isNetmask b); naive_solver).
    rewrite Hs in E. by injection E as <- <-.
Qed.

Lemma replaceArcs_spec sha256 i arcs m arcs' m' :
  consistent m -> Forall noDot arcs -> (i + ipv4OctetCount <= length arcs)%nat ->
  isPrivateOutsideMappedRange (joinDot (take ipv4OctetCount (drop i arcs))) = true ->
  replaceArcs sha256 i arcs m = Some (arcs', m') ->
  consistent m' /\ Forall noDot arcs' /\ length arcs' = length arcs /\ take i arcs' = take i arcs /\
  drop (i + ipv4OctetCount) arcs' = drop (i + ipv4OctetCount) arcs.
Proof.
  intros Hm Hn Hl Hp. unfold replaceArcs. set (window := take ipv4OctetCount (drop i arcs)) in *.
  assert (length window = ipv4OctetCount) as Hw by (unfold window; rewrite length_take, length_drop; lia).
  assert (Forall noDot window) as Hwn by by apply Forall_take, Forall_drop.
  destruct (isPrivate_ordinary _ Hp) as (b & Hb & _). destruct (sanitizeIP sha256 (joinDot window) m) as [[out m1]|] eqn:E; [|discriminate].
  cbn [mbind option_bind]. destruct (sanitizeIP_spec _ _ _ _ _ Hm E) as (Hm1 & _).
  assert (length (splitDot out) = ipv4OctetCount /\ Forall noDot (splitDot out)) as [Hpl Hpn].
  { destruct (sanitized_parts _ _ _ _ _ _ Hm Hb E) as [->|H]; [|done]. rewrite split_join; [done|done|]. by destruct window. }
  rewrite (take_ge (splitDot out)) by lia. rewrite Hpl. intros E2. injection E2 as <- <-.
  assert (length (take i arcs) = i) as Hti by (rewrite length_take; lia). split_and!; [done| | | |].
  - apply Forall_app. split; [by apply Forall_take|]. apply Forall_app. split; [done|by apply Forall_drop].
  - rewrite !length_app, length_drop, Hti, Hpl. lia.
  - rewrite <- Hti at 1. apply take_app_length.
  - rewrite app_assoc. apply drop_app_length'. by rewrite length_app, Hti, Hpl.
Qed.

(** Arc [k] lies in a window of [arcs] from [from] on that is a private address. *)
Definition inPrivateWindow (arcs : list string) (from k : nat) : Prop :=
  exists i, (from <= i)%nat /\ (i <= k < i + ipv4OctetCount)%nat /\
    isPrivateOutsideMappedRange (joinDot (take ipv4OctetCount (drop i arcs))) = true.

Lemma embeddedLoop_spec sha256 fuel i arcs changed m arcs' changed' m' :
  consistent m -> Forall noDot arcs -> embeddedLoop sha256 fuel i arcs changed m = Some (arcs', changed', m') ->
  consistent m' /\ Forall noDot arcs' /\ length arcs' = length arcs /\ (changed' = false -> arcs' = arcs) /\
  forall k, arcs' !! k = arcs !! k \/ inPrivateWindow arcs i k.
Proof.
  revert i arcs changed m. induction fuel as [|fuel IH]; intros i arcs changed m Hm Hn; cbn [embeddedLoop].
  { intros [= <- <- <-]. split_and!; auto. }
  case_bool_decide as Hl; [intros [= <- <- <-]; split_and!; auto|].
  destruct (isPrivateOutsideMappedRange _) eqn:Ep; cbn [negb].
  - destruct (replaceArcs sha256 i arcs m) as [[arcs1 m1]|] eqn:Er; [|discriminate]. cbn [mbind option_bind]. intros E.
    assert (i + ipv4OctetCount <= length arcs)%nat as Hfit by lia.
    destruct (replaceArcs_spec _ _ _ _ _ _ Hm Hn Hfit Ep Er) as (Hm1 & Hn1 & Hl1 & Ht1 & Hd1).
    destruct (IH _ _ _ _ Hm1 Hn1 E) as (Hm' & Hn' & Hl' & Hc & Hk). split_and!; [done|done|lia| |].
    + intros ->. assert (forall f i a m a' c' m', embeddedLoop sha256 f i a true m = Some (a', c', m') -> c' = true) as Ht.
      { clear. induction f as [|f IH]; intros i a m a' c' m'; cbn [embeddedLoop]; [by intros [= <- <- <-]|]. case_bool_decide; [by intros [= <- <- <-]|].
        destruct (negb _); [apply IH|]. destruct (replaceArcs _ _ _ _) as [[? ?]|]; [|discriminate]. cbn [mbind option_bind]. apply IH. }
      by apply Ht in E.
    + intros k. destruct (Hk k) as [Ek|(j & Hj & Hjk & Hpj)].
      * destruct (decide (i <= k < i + ipv4OctetCount)%nat) as [Hin|Hout]; [right; exists i; split_and!; lia || done|left]. rewrite Ek.
        destruct (decide (k < i)%nat) as [Hlt|Hge].
        -- rewrite <- (lookup_take_lt arcs1 i k), <- (lookup_take_lt arcs i k) by done. by rewrite Ht1.
        -- replace k with (i + ipv4OctetCount + (k - (i + ipv4OctetCount)))%nat by lia. by rewrite <- !lookup_drop, Hd1.
      * right. exists j. split_and!; [lia|lia|lia|]. rewrite <- Hpj. do 3 f_equal.
        replace j with (i + ipv4OctetCount + (j - (i + ipv4OctetCount)))%nat by lia.
        by rewrite <- (drop_drop arcs), <- (drop_drop arcs1), Hd1.
  - intros E. destruct (IH _ _ _ _ Hm Hn E) as (Hm' & Hn' & Hl' & Hc & Hk). split_and!; try done. intros k.
    destruct (Hk k) as [|(j & Hj & ?)]; [by left|right]. exists j. split; [lia|done].
Qed.

(** Rewriting the addresses inside an OID leaves it an OID of as many arcs, and
    leaves every arc that is in no private address; the value is not touched. *)
Theorem arcs_kept sha256 line m line' m' :
  consistent m -> rewriteEmbeddedPrivateIPs sha256 line m = Some (line', m') ->
  consistent m' /\
  match indexOf line " = " with
  | None => line' = line
  | Some sep =>
      let arcs := splitDot (takeString sep line) in
      exists arcs', line' = joinDot arcs' +:+ dropString sep line /\ splitDot (joinDot arcs') = arcs' /\ length arcs' = length arcs /\
        forall k, arcs' !! k = arcs !! k \/ inPrivateWindow arcs 0 k
  end.
Proof.
  intros Hm. unfold rewriteEmbeddedPrivateIPs. destruct (indexOf line " = ") as [sep|]; [|by intros [= <- <-]].
  set (arcs := splitDot (takeString sep line)). destruct (splitDot_parts (takeString sep line)) as [Hn Hne]. fold arcs in Hn, Hne.
  destruct (embeddedLoop sha256 (length arcs) 0 arcs false m) as [[[arcs1 changed] m1]|] eqn:E; [|discriminate]. cbn [mbind option_bind].
  destruct (embeddedLoop_spec _ _ _ _ _ _ _ _ _ Hm Hn E) as (Hm1 & Hn1 & Hl1 & Hc & Hk).
  assert (splitDot (joinDot arcs1) = arcs1) as Hsj by (apply split_join; [done|]; by destruct arcs1, arcs).
  destruct changed; intros [= <- <-]; (split; [done|]); exists arcs1; split_and!; try done.
  rewrite (Hc eq_refl). unfold arcs. by rewrite join_split, take_drop_string.
Qed.

(** ** Runs *)

(** A digest that sends everything to one slot. *)
Definition slot5 (s : string) : list Z := [0; 0; 0; 5].

Definition batch : list string := ["192.168.1.7"; "192.168.1.9"; "192.168.2.7"; "172.16.1.7"; "255.255.255.0"; "192.168.2.255"].

Example batch_run :
  fst <$> sanitizeAll slot5 batch NewMapping =
  Some ["10.2.5.7"; "10.2.5.9"; "10.2.6.7"; "10.1.5.7"; "255.255.255.0"; "10.2.6.255"]%string.
Proof. by vm_compute. Qed.

Lemma subnets_kept_witness :
  exists outs m', sanitizeAll slot5 batch NewMapping = Some (outs, m') /\ consistent m' /\
    exists out c, outs !! 2%nat = Some out /\ ip4 out = Some c /\ octet c 0 = 10 /\ octet c 3 = 7.
Proof.
  destruct (sanitizeAll slot5 batch NewMapping) as [[outs m']|] eqn:E; [|by vm_compute in E]. exists outs, m'. split; [done|].
  destruct (subnets_kept slot5 batch NewMapping outs m' new_consistent E) as [Hm H]. split; [exact Hm|].
  assert (ordinary "192.168.2.7" (joined 192 168 2 7)) as Ho by (split; [|split]; vm_compute; reflexivity).
  destruct (H 2%nat _ _ eq_refl Ho) as (out & c & H1 & H2 & H3 & H4 & _). exists out, c.
  split; [exact H1|]. split; [exact H2|]. split; [exact H3|]. rewrite H4. vm_compute. reflexivity.
Defined.

Lemma prefix_room_witness : is_Some (mapPrefix slot5 (joined 192 168 3 1) NewMapping).
Proof. apply (prefix_room slot5 (joined 192 168 3 1) NewMapping). unfold prefixRoom. vm_compute. lia. Defined.

(** A name that is already sanitized is kept without being taken, so the next
    device can be given it. *)
Example kept_name_taken :
  fst <$> nameAll slot5 [("niac-core-sw-05", "sw"); ("edge-1", "sw")] NewMapping = Some ["niac-core-sw-05"; "niac-core-sw-05"]%string.
Proof. by vm_compute. Qed.

(** Only the first occurrence of a domain on a line is replaced. *)
Example domain_left :
  rewriteIdentityDomains "neighbors a.corp.example, b.corp.example" ["corp.example"] "niac-go.com" =
  "neighbors a.niac-go.com, b.corp.example"%string.
Proof. by vm_compute. Qed.

(** A sysServices line without a value panics. *)
Example no_services : deviceTypeFromWalk [".1.3.6.1.2.1.1.7.0 = INTEGER: "] = None.
Proof. by vm_compute. Qed.

(** The end of a sanitized address and the arcs after it can look like a
    private address to the check. *)
Example check_sees_straddle :
  let line := ".1.3.6.1.2.1.6.13.1.1.192.168.9.192.168.1.1.0.0 = INTEGER: 5"%string in
  (fun '(line, _) => privateAddressesOutsideMappedRange line) <$> rewriteEmbeddedPrivateIPs slot5 line NewMapping = Some ["192.168.1.1"]%string.
Proof. by vm_compute. Qed.
