(* ===== verification/Dns.v ===== *)
(** * The DNS server

    [protocols/dns.go], [dns_resolver.go], [dns_forward.go], [dns_fault.go] and
    the query handlers of [dns_handler.go], with the address ownership of
    [stack.go] they ask.  A device is a number, and so is the record set that
    was loaded for it; a name is a string, an address the byte slice of
    [net.IP].  A handler's lock is held for each operation; what gopacket
    decodes and what a real resolver answers are arguments. *)

From Stdlib Require Import Ascii.
From S2P Require Import Prelude.
From S2P Require Import Netip.
From S2P Require Import DeviceTypes.
From S2P Require Import DeviceStore.
From S2P Require Import DeviceOps.
From S2P Require Import Safeconv.
From S2P Require Import Bytes.
From S2P Require Import Oid.
From S2P Require Import Dhcp.
From S2P Require Import NetipParse.
From S2P Require Import FabricRuntime.
From S2P Require Import StringOps.

(** ** Data *)

Definition dnsDefaultTTL : Z := 300.
Definition dnsTypeNBSTAT : Z := 33.
Definition dnsIPv6NibbleLen : nat := 32.
Definition dnsIPv4Octets : nat := 4.
Definition dnsMaxByteValue : Z := 255.
Definition dnsMaxLabelLen : nat := 63.
Definition dnsMaxNameLen : nat := 255.
Definition dnsUpstreamMaxInFlight : nat := 64.
Definition dnsWildcardName : string := "*".

(** gopacket's numbers of RFC 1035 and RFC 3596. *)
Definition DNSTypeA : Z := 1.
Definition DNSTypePTR : Z := 12.
Definition DNSTypeAAAA : Z := 28.
Definition DNSClassIN : Z := 1.
Definition DNSResponseCodeNoErr : Z := 0.
Definition DNSResponseCodeServFail : Z := 2.
Definition DNSResponseCodeNXDomain : Z := 3.

Record dnsRecord := mkDnsRecord { drIP : IP; drTTL : Z; drRcode : Z }.
Record dnsPTR := mkDnsPTR { dpName : string; dpTTL : Z; dpRcode : Z }.

Record dnsRecordSet := mkRecordSet {
  rsForward : gmap string (list dnsRecord); rsReverse : gmap string dnsPTR; rsForwarders : list IP
}.

Record DNSHandler := mkDNSHandler {
  dnRecords : gmap string (list dnsRecord);
  dnPtrRecords : gmap string dnsPTR;
  dnDeviceRecords : gmap nat dnsRecordSet;
  dnDomain : string;
  dnUpstreamSlots : nat
}.
#[export] Instance DNSHandler_rebuild : Rebuild DNSHandler := fun h =>
  mkDNSHandler (dnRecords h) (dnPtrRecords h) (dnDeviceRecords h) (dnDomain h) (dnUpstreamSlots h).

(** [config.DNSRecord], [config.DNSConfig] and what is read of a device. *)
Record DNSRecord := mkDNSRecord { cdName : string; cdIP : IP; cdTTL : Z; cdRCode : Z }.
Record DNSConfig := mkDNSConfig { cdForwardRecords : list DNSRecord; cdReverseRecords : list DNSRecord; cdForwarders : list IP }.
Record dnsDevice := mkDnsDevice {
  ddName : string; ddSysName : string; ddIPAddresses : list IP; ddMACAddress : list Z; ddDNSConfig : option DNSConfig
}.

(** The parts of gopacket's layer that are read and written. *)
Record DNSQuestion := mkQuestion { dqName : string; dqType : Z; dqClass : Z }.
Record DNSResourceRecord := mkResourceRecord {
  daName : string; daType : Z; daClass : Z; daTTL : Z; daIP : IP; daPTR : string
}.
Record DNSMessage := mkDNSMessage {
  dmID : Z; dmQR : bool; dmOpCode : Z; dmAA : bool; dmRD : bool; dmRA : bool; dmResponseCode : Z;
  dmQuestions : list DNSQuestion; dmAnswers : list DNSResourceRecord
}.
#[export] Instance DNSMessage_rebuild : Rebuild DNSMessage := fun m =>
  mkDNSMessage (dmID m) (dmQR m) (dmOpCode m) (dmAA m) (dmRD m) (dmRA m) (dmResponseCode m) (dmQuestions m) (dmAnswers m).

(** ** Records *)

Definition NewDNSHandler : DNSHandler := mkDNSHandler ∅ ∅ ∅ "local" 0.

(** The slots of exchanges that are under way are kept. *)
Definition resetDNS (h : DNSHandler) : DNSHandler := NewDNSHandler <| dnUpstreamSlots := dnUpstreamSlots h |>.

Definition normalName (name : string) : string := ToLower (TrimSuffix name ".").

(** Another record of a name. *)
Definition appendRecord (name : string) (record : dnsRecord) (records : gmap string (list dnsRecord)) : gmap string (list dnsRecord) :=
  <[name := default [] (records !! name) ++ [record]]> records.

Definition AddRecordWithTTL (hostname : string) (ip : IP) (ttl rcode : Z) (h : DNSHandler) : DNSHandler :=
  let hostname := normalName hostname in
  h <| dnRecords := appendRecord hostname (mkDnsRecord ip ttl rcode) (dnRecords h) |>
    <| dnPtrRecords := <[ipString ip := mkDnsPTR hostname ttl rcode]> (dnPtrRecords h) |>.

Definition AddRecord (hostname : string) (ip : IP) (h : DNSHandler) : DNSHandler :=
  AddRecordWithTTL hostname ip dnsDefaultTTL DNSResponseCodeNoErr h.

Definition AddPTRRecord (ip : IP) (hostname : string) (ttl rcode : Z) (h : DNSHandler) : DNSHandler :=
  h <| dnPtrRecords := <[ipString ip := mkDnsPTR (normalName hostname) ttl rcode]> (dnPtrRecords h) |>.

Definition SetDomain (domain : string) (h : DNSHandler) : DNSHandler := h <| dnDomain := domain |>.

Definition LoadDeviceRecords (devices : list dnsDevice) (h : DNSHandler) : DNSHandler :=
  foldl (fun h device =>
    let hostname := if bool_decide (ddSysName device = EmptyString) then ddName device else ddSysName device in
    foldl (fun h ip => AddRecord hostname ip h) h (ddIPAddresses device)) h devices.

Definition loadRecordSet (cfg : DNSConfig) : dnsRecordSet :=
  mkRecordSet
    (foldl (fun forward rec => appendRecord (normalName (cdName rec)) (mkDnsRecord (cdIP rec) (cdTTL rec) (DNSRCode (cdRCode rec))) forward)
       ∅ (cdForwardRecords cfg))
    (foldl (fun reverse rec => <[ipString (cdIP rec) := mkDnsPTR (normalName (cdName rec)) (cdTTL rec) (DNSRCode (cdRCode rec))]> reverse)
       ∅ (cdReverseRecords cfg))
    (cdForwarders cfg).

Definition LoadDeviceDNSConfig (id : nat) (device : dnsDevice) (h : DNSHandler) : DNSHandler :=
  match ddDNSConfig device with
  | None => h
  | Some cfg => h <| dnDeviceRecords := <[id := loadRecordSet cfg]> (dnDeviceRecords h) |>
  end.

(** ** Names *)

Definition isValidDNSName (name : string) : bool :=
  if bool_decide (dnsMaxNameLen < String.length name)%nat then false
  else forallb (fun label => bool_decide (String.length label <= dnsMaxLabelLen)%nat) (splitDot name).

(** The octets are written last first. *)
Definition parseOctet (part : string) : option Z :=
  val ← Atoi part;
  if (val <? 0) || (dnsMaxByteValue <? val) then None else Some val.

Definition parseIPv4PTRName (name : string) : option IP :=
  let base := TrimSuffix name ".in-addr.arpa" in
  let parts := splitDot (trimDots base) in
  if negb (bool_decide (length parts = dnsIPv4Octets)) then None
  else mapM parseOctet (rev parts).

(** [hex.DecodeString] *)
Fixpoint decodeHex (chars : list ascii) : option (list Z) :=
  match chars with
  | [] => Some []
  | a :: b :: chars => v ← hexByte a b; vs ← decodeHex chars; Some (v :: vs)
  | _ => None
  end.

Definition nibbleChar (nibble : string) : option ascii :=
  match nibble with String c EmptyString => Some c | _ => None end.

Definition parseIPv6PTRName (name : string) : option IP :=
  let base := TrimSuffix name ".ip6.arpa" in
  let nibbles := splitDot (trimDots base) in
  if negb (bool_decide (length nibbles = dnsIPv6NibbleLen)) then None
  else
    chars ← mapM nibbleChar (rev nibbles);
    data ← decodeHex chars;
    if bool_decide (length data = 16%nat) then Some data else None.

(** The address, if there is one, and whether the name is of the IPv6 tree. *)
Definition parsePTRName (name : string) : option IP * bool :=
  let ptrName := normalName name in
  if HasSuffix ptrName ".in-addr.arpa" then (parseIPv4PTRName ptrName, false)
  else if HasSuffix ptrName ".ip6.arpa" then (parseIPv6PTRName ptrName, true)
  else (None, false).

(** ** Lookups *)

(** A single label is also looked up in the default domain, any other name
    under the wildcard. *)
Definition wildcardRecords (forward : gmap string (list dnsRecord)) : list dnsRecord := default [] (forward !! dnsWildcardName).

Definition lookupIn (domain hostname : string) (forward : gmap string (list dnsRecord)) : list dnsRecord :=
  match forward !! hostname with
  | Some recs => recs
  | None =>
      if ContainsString hostname "." then wildcardRecords forward
      else match forward !! (hostname +:+ "." +:+ domain) with
           | Some recs => recs
           | None => wildcardRecords forward
           end
  end.

Definition lookupHost (h : DNSHandler) (hostname : string) (set : option dnsRecordSet) : list dnsRecord :=
  lookupIn (dnDomain h) (normalName hostname) (match set with Some set => rsForward set | None => dnRecords h end).

Definition lookupPTR (h : DNSHandler) (ip : IP) (set : option dnsRecordSet) : option dnsPTR :=
  match set with Some set => rsReverse set !! ipString ip | None => dnPtrRecords h !! ipString ip end.

(** ** Resolution *)

(** The answers so far and the response code. *)
Record dnsResolveContext := mkContext { dcAnswers : list DNSResourceRecord; dcResponseCode : Z }.
#[export] Instance dnsResolveContext_rebuild : Rebuild dnsResolveContext := fun c => mkContext (dcAnswers c) (dcResponseCode c).

Definition answerWith (answer : DNSResourceRecord) (rcode : Z) (c : dnsResolveContext) : dnsResolveContext :=
  mkContext (dcAnswers c ++ [answer]) (if rcode =? DNSResponseCodeNoErr then dcResponseCode c else rcode).

Definition addressRecord (q : DNSQuestion) (type : Z) (rec : dnsRecord) : DNSResourceRecord :=
  mkResourceRecord (dqName q) type DNSClassIN (drTTL rec) (drIP rec) "".

Definition resolveARecord (h : DNSHandler) (q : DNSQuestion) (hostname : string) (set : option dnsRecordSet) (c : dnsResolveContext) : dnsResolveContext :=
  foldl (fun c rec =>
    if bool_decide (To4 (drIP rec) = []) then c else answerWith (addressRecord q DNSTypeA rec) (drRcode rec) c)
    c (lookupHost h hostname set).

(** [To16] is nil for a slice that is neither 4 nor 16 bytes. *)
Definition isIP6 (ip : IP) : bool := bool_decide (To4 ip = []) && bool_decide (length ip = 16%nat).

Definition resolveAAAARecord (h : DNSHandler) (q : DNSQuestion) (hostname : string) (set : option dnsRecordSet) (c : dnsResolveContext) : dnsResolveContext :=
  foldl (fun c rec =>
    if negb (isIP6 (drIP rec)) then c else answerWith (addressRecord q DNSTypeAAAA rec) (drRcode rec) c)
    c (lookupHost h hostname set).

Definition resolvePTRRecord (h : DNSHandler) (q : DNSQuestion) (set : option dnsRecordSet) (c : dnsResolveContext) : dnsResolveContext :=
  match parsePTRName (dqName q) with
  | (None, _) => c
  | (Some ip, isV6) =>
      match lookupPTR h ip set with
      | Some host =>
          if bool_decide (dpName host = EmptyString) then
            if (isV6 : bool) then c <| dcResponseCode := DNSResponseCodeNXDomain |> else c
          else
            answerWith (mkResourceRecord (dqName q) DNSTypePTR DNSClassIN (dpTTL host) [] (TrimSuffix (dpName host) ".")) (dpRcode host) c
      | None => if isV6 then c <| dcResponseCode := DNSResponseCodeNXDomain |> else c
      end
  end.

Definition resolveByType (h : DNSHandler) (q : DNSQuestion) (hostname : string) (set : option dnsRecordSet) (c : dnsResolveContext) : dnsResolveContext :=
  if dqType q =? DNSTypeA then resolveARecord h q hostname set c
  else if dqType q =? DNSTypeAAAA then resolveAAAARecord h q hostname set c
  else if dqType q =? DNSTypePTR then resolvePTRRecord h q set c
  else c.

Definition validateAndResolveQuestion (h : DNSHandler) (q : DNSQuestion) (set : option dnsRecordSet) (c : dnsResolveContext) : dnsResolveContext :=
  if isValidDNSName (dqName q) then resolveByType h q (normalName (dqName q)) set c else c.

Definition resolveQuestions (h : DNSHandler) (questions : list DNSQuestion) (set : option dnsRecordSet) : list DNSResourceRecord * Z :=
  let c := foldl (fun c q => validateAndResolveQuestion h q set c) (mkContext [] DNSResponseCodeNoErr) questions in
  (dcAnswers c,
   if bool_decide (dcAnswers c = []) && (dcResponseCode c =? DNSResponseCodeNoErr) then DNSResponseCodeNXDomain else dcResponseCode c).

(** ** Forwarding *)

Definition dnsUnanswered (response : DNSMessage) : bool :=
  bool_decide (dmAnswers response = []) && (dmResponseCode response =? DNSResponseCodeNXDomain).

Section server.
(** The devices, the address index of the stack (a device without an entry is
    not managed), the fabric, the live state, and the order in which Go ranges
    over the fabric's addresses. *)
Context (device : nat -> dnsDevice) (stateIPv4 : gmap nat (list Addr)) (fabric : option fabricRuntime) (stores : gmap nat Store).
Context (ranged : gmap Addr fabricEndpoint -> list fabricEndpoint).

(** The record set of the simulated server that owns an address: the first
    found in the order in which [deviceRecords] is ranged over. *)
Definition simulatedResolver (h : DNSHandler) (order : list nat) (address : IP) : option (nat * dnsRecordSet) :=
  id ← List.find (fun id => bool_decide (is_Some (dnDeviceRecords h !! id)) && existsb (ipEqual address) (ddIPAddresses (device id))) order;
  set ← dnDeviceRecords h !! id;
  Some (id, set).

Inductive forwarded :=
| Answered (answers : list DNSResourceRecord) (rcode : Z)
| Unresolved (upstreams : list IP).

(** The queue of forwarders; a set is known by its device.  [range n] is the
    order of the map when [n] rounds of fuel are left. *)
Fixpoint forwardLoop (fuel : nat) (h : DNSHandler) (range : nat -> list nat) (questions : list DNSQuestion)
    (visited : gset nat) (pending upstreams : list IP) : option forwarded :=
  match pending with
  | [] => Some (Unresolved upstreams)
  | forwarder :: pending =>
      match fuel with
      | O => None
      | S fuel =>
          match simulatedResolver h (range fuel) forwarder with
          | None => forwardLoop fuel h range questions visited pending (upstreams ++ [forwarder])
          | Some (id, next) =>
              if bool_decide (id ∈ visited) then forwardLoop fuel h range questions visited pending upstreams
              else
                let '(answers, rcode) := resolveQuestions h questions (Some next) in
                if negb (bool_decide (answers = [])) || negb (rcode =? DNSResponseCodeNXDomain) then Some (Answered answers rcode)
                else forwardLoop fuel h range questions ({[id]} ∪ visited) (pending ++ rsForwarders next) upstreams
          end
      end
  end.

(** Every set is entered once, so each of its forwarders is taken once. *)
Definition forwardFuel (h : DNSHandler) (set : dnsRecordSet) : nat :=
  length (rsForwarders set) + list_sum ((fun entry => length (rsForwarders entry.2)) <$> map_to_list (dnDeviceRecords h)).

(** [id] is the device whose set asks. *)
Definition resolveForwarded (h : DNSHandler) (range : nat -> list nat) (questions : list DNSQuestion) (id : nat) (set : dnsRecordSet) : option forwarded :=
  forwardLoop (forwardFuel h set) h range questions {[id]} (rsForwarders set) [].

(** ** Answers *)

Definition deviceFaultActive (id : nat) (faultType : DeviceFaultType) : bool :=
  match stores !! id with Some store => DeviceFaultActive faultType store | None => false end.

Definition dnsQuerySilenced (id : nat) : bool := deviceFaultActive id FaultDNSTimeout.

Definition applyNXDomainFault (response : DNSMessage) (id : nat) : DNSMessage :=
  if negb (deviceFaultActive id FaultDNSNXDomain) then response
  else response <| dmAnswers := [] |> <| dmResponseCode := DNSResponseCodeNXDomain |>.

(** What becomes of a query: a response now, or an exchange with the real
    resolvers. *)
Inductive dnsOutcome :=
| ReplyNow (response : DNSMessage)
| AskUpstream (response : DNSMessage) (upstreams : list IP).

Definition answerQuery (h : DNSHandler) (range : nat -> list nat) (query : DNSMessage) (server : nat) : option dnsOutcome :=
  let set := dnDeviceRecords h !! server in
  let '(answers, rcode) := resolveQuestions h (dmQuestions query) set in
  let response := mkDNSMessage (dmID query) true (dmOpCode query) true (dmRD query) true rcode (dmQuestions query) answers in
  let response := applyNXDomainFault response server in
  match set with
  | None => Some (ReplyNow response)
  | Some set =>
      if negb (dnsUnanswered response) || bool_decide (rsForwarders set = []) || deviceFaultActive server FaultDNSNXDomain
      then Some (ReplyNow response)
      else
        result ← resolveForwarded h range (dmQuestions query) server set;
        Some match result with
             | Answered answers rcode =>
                 ReplyNow (response <| dmAA := bool_decide (answers = []) |> <| dmAnswers := answers |> <| dmResponseCode := rcode |>)
             | Unresolved [] =>
                 ReplyNow (response <| dmAA := true |> <| dmAnswers := [] |> <| dmResponseCode := DNSResponseCodeNXDomain |>)
             | Unresolved upstreams => AskUpstream (response <| dmAA := false |>) upstreams
             end
  end.

(** The exchange takes a slot; without one the query is refused at once. *)
Definition askUpstream (response : DNSMessage) (h : DNSHandler) : option DNSMessage * DNSHandler :=
  if bool_decide (dnUpstreamSlots h < dnsUpstreamMaxInFlight)%nat
  then (None, h <| dnUpstreamSlots := S (dnUpstreamSlots h) |>)
  else (Some (response <| dmResponseCode := DNSResponseCodeServFail |>), h).

(** The resolvers are asked in order within one deadline: [ask n upstream] is
    what the [n]th answers before it. *)
Fixpoint queryUpstreams (ask : nat -> IP -> option DNSMessage) (n : nat) (upstreams : list IP) : option DNSMessage :=
  match upstreams with
  | [] => None
  | upstream :: upstreams =>
      match ask n upstream with Some answer => Some answer | None => queryUpstreams ask (S n) upstreams end
  end.

(** [encodable] is gopacket's serializer, which refuses some records. *)
Definition encodableAnswers (encodable : DNSResourceRecord -> bool) (answers : list DNSResourceRecord) : list DNSResourceRecord :=
  filter (fun answer => encodable answer = true) answers.

Definition finishUpstream (encodable : DNSResourceRecord -> bool) (answer : option DNSMessage) (response : DNSMessage) (h : DNSHandler) : DNSMessage * DNSHandler :=
  (match answer with
   | None => response <| dmResponseCode := DNSResponseCodeServFail |>
   | Some answer => response <| dmAnswers := encodableAnswers encodable (dmAnswers answer) |> <| dmResponseCode := dmResponseCode answer |>
   end, h <| dnUpstreamSlots := pred (dnUpstreamSlots h) |>).

(** ** Queries *)

(** [Stack.deviceOwnsIPv4] and [deviceOwnsIPv6] *)
Definition stackOwnsIPv4 (id : nat) (ip : IP) : bool :=
  let address := Unmap (AddrFromSlice ip) in
  if negb (Is4 address) then false
  else
    match stateIPv4 !! id with
    | Some addresses => bool_decide (address ∈ addresses)
    | None =>
        match fabric with
        | Some r => FabricRuntime.deviceOwnsIPv4 ranged r id ip
        | None => existsb (fun candidate => ipEqual candidate ip) (ddIPAddresses (device id))
        end
    end.

Definition stackOwnsIPv6 (id : nat) (ip : IP) : bool :=
  match fabric with
  | Some r => FabricRuntime.deviceOwnsIPv6 r id ip
  | None => existsb (ipEqual ip) (ddIPAddresses (device id))
  end.

(** The first address of the family; [[]] is nil. *)
Fixpoint pickIPAddressForDNS (ips : list IP) (wantIPv6 : bool) : IP :=
  match ips with
  | [] => []
  | ip :: ips =>
      if wantIPv6 then if isIP6 ip then ip else pickIPAddressForDNS ips wantIPv6
      else if bool_decide (To4 ip = []) then pickIPAddressForDNS ips wantIPv6 else To4 ip
  end.

Definition pickServerIP (id : nat) (wantIPv6 : bool) (targetIP : IP) : IP :=
  if bool_decide (targetIP = []) then pickIPAddressForDNS (ddIPAddresses (device id)) wantIPv6
  else if negb wantIPv6 && stackOwnsIPv4 id targetIP then To4 targetIP
  else if wantIPv6 && stackOwnsIPv6 id targetIP then targetIP
  else pickIPAddressForDNS (ddIPAddresses (device id)) wantIPv6.

Definition deviceHasDNSRecords (h : DNSHandler) (id : nat) : bool :=
  if bool_decide (is_Some (dnDeviceRecords h !! id)) then true
  else if bool_decide (is_Some (ddDNSConfig (device id))) then true
  else negb (bool_decide (dnRecords h = ∅)).

Fixpoint selectServerDevice (h : DNSHandler) (devices : list nat) (wantIPv6 : bool) (targetIP : IP) : option (nat * IP) :=
  match devices with
  | [] => None
  | id :: devices =>
      let ip := pickServerIP id wantIPv6 targetIP in
      if deviceHasDNSRecords h id && negb (bool_decide (ip = [])) && negb (bool_decide (ddMACAddress (device id) = []))
      then Some (id, ip) else selectServerDevice h devices wantIPv6 targetIP
  end.

(** What a decoded query leads to: nothing, a node status reply, or an answer
    from the server and its address. *)
Inductive dnsVerdict :=
| Ignored
| NodeStatus (server : nat) (serverIP : IP) (question : DNSQuestion)
| Resolve (server : nat) (serverIP : IP) (outcome : dnsOutcome).

(** [HandleQuery] and [HandleQueryV6]: [replyTo] says whether the frame gives
    an Ethernet address to reply to. *)
Definition handleDNSQuery (h : DNSHandler) (range : nat -> list nat) (wantIPv6 : bool) (query : option DNSMessage) (targetIP : IP)
    (devices : list nat) (replyTo : nat -> bool) : option dnsVerdict :=
  match query with
  | None => Some Ignored
  | Some query =>
      match selectServerDevice h devices wantIPv6 targetIP with
      | None => Some Ignored
      | Some (server, serverIP) =>
          if dnsQuerySilenced server then Some Ignored
          else
            match List.find (fun q => dqType q =? dnsTypeNBSTAT) (dmQuestions query) with
            | Some q => Some (NodeStatus server serverIP q)
            | None =>
                if negb (replyTo server) then Some Ignored
                else outcome ← answerQuery h range query server; Some (Resolve server serverIP outcome)
            end
      end
  end.
End server.
