(* ===== verification/DnsTheorems.v ===== *)
(** * The DNS server: what its answers promise

    Reverse names read back as the address they were written for
    ([ptr_names_read]); a record that was added resolves both ways
    ([records_resolve]); the simulated forwarders are asked nearest first, each
    once, and the real resolvers are exactly those the chain leads to
    ([forwarding_nearest]); exchanges with real resolvers are bounded and every
    query is answered once ([exchanges_bounded]). *)

From Stdlib Require Import Ascii.
From S2P Require Import Prelude.
From S2P Require Import Netip.
From S2P Require Import NetipParse.
From S2P Require Import DeviceTypes.
From S2P Require Import DeviceStore.
From S2P Require Import DeviceOps.
From S2P Require Import Bytes.
From S2P Require Import Oid.
From S2P Require Import Decimal.
From S2P Require Import StringOps.
From S2P Require Import Dhcp.
From S2P Require Import FabricRuntime.
From S2P Require Import Dns.

(** ** Reverse names *)

Lemma trimDotsLeft_id (l : list ascii) : head l <> Some "."%char -> trimDotsLeft l = l.
Proof. destruct l as [|c l]; [done|]. intros H. destruct c as [[] [] [] [] [] [] [] []]; done. Qed.

Lemma join_ends parts :
  Forall (fun p => noDot p /\ p <> EmptyString) parts -> parts <> [] ->
  (exists c l, String.list_ascii_of_string (joinDot parts) = c :: l /\ c <> "."%char) /\
  (exists c l, String.list_ascii_of_string (joinDot parts) = l ++ [c] /\ c <> "."%char).
Proof.
  assert (forall p, noDot p -> Forall (fun c => c <> "."%char) (String.list_ascii_of_string p)) as Hall.
  { intros p. induction p as [|c p IH]; [constructor|]. intros [Hc Hp]. constructor; [done|by apply IH]. }
  induction 1 as [|p parts [Hp Hne] Hps IH]; [done|]. intros _. specialize (Hall p Hp).
  destruct parts as [|q parts].
  - change (joinDot [p]) with p. split.
    + destruct p as [|c p]; [done|]. apply Forall_cons in Hall as [Hc _]. by exists c, (String.list_ascii_of_string p).
    + destruct (exists_last (l := String.list_ascii_of_string p)) as (l & c & E); [by destruct p|]. exists c, l. split; [done|].
      rewrite E in Hall. apply Forall_app in Hall as [_ [Hc _]%Forall_cons]. done.
  - change (joinDot (p :: q :: parts)) with (p +:+ "." +:+ joinDot (q :: parts)). rewrite !string_app_chars.
    destruct IH as [_ (c & l & E & Hc)]; [done|]. split.
    + destruct p as [|d p]; [done|]. apply Forall_cons in Hall as [Hd _]. by eexists d, _.
    + exists c. rewrite E, !app_assoc. by eexists.
Qed.

Lemma trimDots_join parts :
  Forall (fun p => noDot p /\ p <> EmptyString) parts -> parts <> [] -> trimDots (joinDot parts) = joinDot parts.
Proof.
  intros Hp Hne. destruct (join_ends parts Hp Hne) as [(c & l & Ec & Hc) (d & k & Ed & Hd)].
  unfold trimDots. rewrite (trimDotsLeft_id (String.list_ascii_of_string _)) by (rewrite Ec; simpl; congruence).
  rewrite Ed, rev_unit, trimDotsLeft_id by (simpl; congruence).
  rewrite <- rev_unit, rev_involutive, <- Ed. apply String.string_of_list_ascii_of_string.
Qed.

Lemma split_trimmed parts :
  Forall (fun p => noDot p /\ p <> EmptyString) parts -> parts <> [] -> splitDot (trimDots (joinDot parts)) = parts.
Proof.
  intros Hp Hne. rewrite trimDots_join by done. apply split_join; [|done]. eapply Forall_impl; [exact Hp|]. by intros p [].
Qed.

(** The name RFC 1035 and RFC 3596 give the address of a pointer record. *)
Definition nibbleText (b : Z) : string := String (hexDigit b) EmptyString.

Definition nibbles (ip : IP) : list Z := flat_map (fun b => [b / 16; b mod 16]) ip.

Definition reverseName (ip : IP) : string :=
  if bool_decide (length ip = 4%nat) then joinDot (Itoa <$> rev ip) +:+ ".in-addr.arpa"
  else joinDot (nibbleText <$> rev (nibbles ip)) +:+ ".ip6.arpa".

Lemma octet_part b : isByte b -> noDot (Itoa b) /\ Itoa b <> EmptyString.
Proof.
  unfold isByte. intros Hb. assert (allDigits (Itoa b)) as Hd by (apply pretty_digits; lia). split; [by apply allDigits_noDot|].
  intros E. pose proof (unsigned_pretty b ltac:(lia)) as Hu. unfold Itoa in E. by rewrite E in Hu.
Qed.

Lemma parseOctet_Itoa b : isByte b -> parseOctet (Itoa b) = Some b.
Proof.
  unfold isByte, parseOctet, Itoa, dnsMaxByteValue. intros Hb. rewrite Atoi_pretty by lia. cbn [mbind option_bind].
  by rewrite (proj2 (Z.ltb_ge b 0)), (proj2 (Z.ltb_ge 255 b)) by lia.
Qed.

Lemma parse_reverse4 ip : Forall isByte ip -> length ip = 4%nat -> parseIPv4PTRName (reverseName ip) = Some ip.
Proof.
  intros Hb Hl. unfold parseIPv4PTRName, reverseName. rewrite (bool_decide_eq_true_2 (length ip = 4%nat)), TrimSuffix_app by done.
  assert (Forall (fun p => noDot p /\ p <> EmptyString) (Itoa <$> rev ip)) as Hp.
  { apply Forall_fmap, Forall_rev. eapply Forall_impl; [exact Hb|]. intros b. apply octet_part. }
  rewrite split_trimmed; [|done|intros E; apply (f_equal length) in E; by rewrite length_fmap, length_rev, Hl in E].
  rewrite length_fmap, length_rev, Hl. simpl negb. cbn iota.
  change (Itoa <$> rev ip) with (map Itoa (rev ip)). rewrite map_rev, rev_involutive. apply (mapM_fmap_Forall_Some parseOctet Itoa).
  eapply Forall_impl; [exact Hb|]. intros b. apply parseOctet_Itoa.
Qed.

Lemma nibbles_range ip : Forall isByte ip -> Forall (fun b => 0 <= b < 16) (nibbles ip) /\ length (nibbles ip) = (2 * length ip)%nat.
Proof.
  unfold isByte. induction 1 as [|b ip Hb _ [IH Hl]]; [by split|]. cbn [nibbles flat_map app length] in *. fold (nibbles ip) in *. split; [|lia].
  pose proof (Z.mod_pos_bound b 16). pose proof (Z.div_mod b 16).
  repeat (apply Forall_cons; split); [lia|lia|done].
Qed.

Lemma hex_digits b : 0 <= b < 16 -> hexValue (hexDigit b) = Some b /\ hexDigit b <> "."%char.
Proof.
  intros H. assert (b ∈ seqZ 0 16) as Hin by (apply elem_of_seqZ; lia). cbn in Hin.
  repeat (apply elem_of_cons in Hin as [->|Hin]; [by split|]). by apply elem_of_nil in Hin.
Qed.

Lemma decode_nibbles ip : Forall isByte ip -> decodeHex (hexDigit <$> nibbles ip) = Some ip.
Proof.
  unfold isByte. induction 1 as [|b ip Hb _ IH]; [done|]. cbn [nibbles flat_map app fmap list_fmap decodeHex]. fold (nibbles ip).
  pose proof (Z.mod_pos_bound b 16). pose proof (Z.div_mod b 16). unfold hexByte.
  rewrite (proj1 (hex_digits (b / 16) ltac:(lia))), (proj1 (hex_digits (b mod 16) ltac:(lia))).
  cbn [mbind option_bind]. change (list_fmap Z ascii hexDigit (nibbles ip)) with (hexDigit <$> nibbles ip). rewrite IH.
  cbn [mbind option_bind]. do 2 f_equal. lia.
Qed.

Lemma parse_reverse6 ip : Forall isByte ip -> length ip = 16%nat -> parseIPv6PTRName (reverseName ip) = Some ip.
Proof.
  intros Hb Hl. destruct (nibbles_range ip Hb) as [Hn Hnl]. unfold parseIPv6PTRName, reverseName. rewrite (bool_decide_eq_false_2 (length ip = 4%nat)), TrimSuffix_app by lia. change (nibbleText <$> rev (nibbles ip)) with (map nibbleText (rev (nibbles ip))).
  rewrite split_trimmed; [| |intros E; apply (f_equal length) in E; rewrite length_map, length_rev in E; simpl in E; lia].
  2: { rewrite map_rev. apply Forall_rev, Forall_fmap. eapply Forall_impl; [exact Hn|]. intros b Hbr. split; [|done].
       split; [by apply hex_digits|done]. }
  rewrite length_map, length_rev, Hnl, Hl. simpl negb. cbn iota. rewrite map_rev, rev_involutive.
  assert (mapM nibbleChar (map nibbleText (nibbles ip)) = Some (hexDigit <$> nibbles ip)) as ->.
  { clear. induction (nibbles ip) as [|b l IH]; [done|]. cbn [map mapM nibbleChar nibbleText mbind option_bind]. by rewrite IH. }
  cbn [mbind option_bind]. rewrite decode_nibbles by done. cbn [mbind option_bind]. by rewrite bool_decide_eq_true_2.
Qed.

Lemma arpa_suffixes s : HasSuffix (s +:+ ".ip6.arpa") ".in-addr.arpa" = false.
Proof.
  unfold HasSuffix. rewrite string_app_length. change (String.length ".in-addr.arpa") with 13%nat. change (String.length ".ip6.arpa") with 9%nat.
  destruct (bool_decide (13 <= _)%nat) eqn:E; [|done]. apply bool_decide_eq_true in E. cbn [andb]. apply bool_decide_eq_false.
  intros Hd. apply (f_equal (fun x => dropString 4 x)) in Hd.
  assert (forall n m (x : string), dropString n (dropString m x) = dropString (m + n) x) as Hdd.
  { intros n m x. revert m. induction x as [|c x IH]; intros [|m]; simpl; [done|by destruct n|done|apply IH]. }
  rewrite Hdd in Hd. replace (String.length s + 9 - 13 + 4)%nat with (String.length s) in Hd by lia. rewrite dropString_app in Hd. discriminate.
Qed.

Lemma parsePTR4 ip name :
  Forall isByte ip -> length ip = 4%nat -> normalName name = reverseName ip -> parsePTRName name = (Some ip, false).
Proof.
  intros Hb Hl Hn. unfold parsePTRName. rewrite Hn. unfold reverseName at 1.
  by rewrite bool_decide_eq_true_2, HasSuffix_app, parse_reverse4.
Qed.

Lemma parsePTR16 ip name :
  Forall isByte ip -> length ip = 16%nat -> normalName name = reverseName ip -> parsePTRName name = (Some ip, true).
Proof.
  intros Hb Hl Hn. unfold parsePTRName. rewrite Hn. unfold reverseName at 1 3.
  by rewrite bool_decide_eq_false_2, arpa_suffixes, HasSuffix_app, parse_reverse6 by (done || lia).
Qed.

(** The name that RFC 1035 and RFC 3596 give an address, however it is
    capitalized and with or without its last dot, is read as that address and
    as of its family. *)
Theorem ptr_names_read ip name :
  Forall isByte ip -> (length ip = 4 \/ length ip = 16)%nat -> normalName name = reverseName ip ->
  parsePTRName name = (Some ip, bool_decide (length ip = 16%nat)).
Proof.
  intros Hb [Hl|Hl] Hn.
  - rewrite (parsePTR4 ip) by done. by rewrite bool_decide_eq_false_2 by lia.
  - rewrite (parsePTR16 ip) by done. by rewrite bool_decide_eq_true_2.
Qed.

(** ** Records *)

Lemma lookup_appended domain name rec records :
  exists old, lookupIn domain name (appendRecord name rec records) = old ++ [rec].
Proof. unfold lookupIn, appendRecord. rewrite lookup_insert_eq. by eexists. Qed.

Lemma answers_grow (f : dnsResolveContext -> dnsRecord -> dnsResolveContext) l c :
  (forall c rec, exists more, dcAnswers (f c rec) = dcAnswers c ++ more) -> exists more, dcAnswers (foldl f c l) = dcAnswers c ++ more.
Proof.
  intros Hf. revert c. induction l as [|rec l IH]; intros c; simpl; [exists []; by rewrite app_nil_r|].
  destruct (Hf c rec) as [m1 E1], (IH (f c rec)) as [m2 E2]. exists (m1 ++ m2). by rewrite E2, E1, <- app_assoc.
Qed.

(** A record that is added resolves both ways at once: a question for its
    name, however capitalized, is answered with its address, and a question
    for the reverse name of the address with the name.  (A name that ends in
    two dots does not have its own normal form for a fixed point.) *)
Theorem records_resolve name ip ttl h name' reverse :
  Forall isByte ip -> length ip = 4%nat -> normalName name <> EmptyString ->
  normalName (normalName name) = normalName name ->
  normalName name' = normalName name -> isValidDNSName name' = true ->
  normalName reverse = reverseName ip -> isValidDNSName reverse = true ->
  let h := AddRecordWithTTL name ip ttl DNSResponseCodeNoErr h in
  let q := mkQuestion name' DNSTypeA DNSClassIN in
  (exists answers, (resolveQuestions h [q] None).1 = answers ++ [addressRecord q DNSTypeA (mkDnsRecord ip ttl DNSResponseCodeNoErr)]) /\
  resolveQuestions h [mkQuestion reverse DNSTypePTR DNSClassIN] None =
    ([mkResourceRecord reverse DNSTypePTR DNSClassIN ttl [] (TrimSuffix (normalName name) ".")], DNSResponseCodeNoErr).
Proof.
  intros Hb Hl Hne Hfix Hn' Hv' Hr Hvr h' q. split.
  - unfold resolveQuestions, validateAndResolveQuestion. cbn [foldl dqName fst q]. rewrite Hv'. unfold resolveByType. cbn [dqType].
    rewrite Z.eqb_refl, Hn'. unfold resolveARecord, lookupHost. rewrite Hfix. cbn [h' AddRecordWithTTL dnRecords setf].
    destruct (lookup_appended (dnDomain h) (normalName name) (mkDnsRecord ip ttl DNSResponseCodeNoErr) (dnRecords h)) as [old Eold].
    change (dnDomain h') with (dnDomain h). change (dnRecords h') with (appendRecord (normalName name) (mkDnsRecord ip ttl DNSResponseCodeNoErr) (dnRecords h)).
    rewrite Eold, foldl_app. cbn [foldl]. assert (To4 ip = ip) as Hip by (unfold To4; by rewrite bool_decide_eq_true_2).
    rewrite (bool_decide_eq_false_2 (To4 _ = [])) by (cbn [drIP]; rewrite Hip; by destruct ip). eexists. reflexivity.
  - unfold resolveQuestions, validateAndResolveQuestion. cbn [foldl dqName]. rewrite Hvr. unfold resolveByType. cbn [dqType].
    unfold DNSTypePTR, DNSTypeA, DNSTypeAAAA. cbn [Z.eqb Pos.eqb]. unfold resolvePTRRecord. cbn [dqName].
    rewrite (parsePTR4 ip) by done.
    unfold lookupPTR. change (dnPtrRecords h') with (<[ipString ip := mkDnsPTR (normalName name) ttl DNSResponseCodeNoErr]> (dnPtrRecords h)).
    rewrite lookup_insert_eq. cbn [dpName]. rewrite bool_decide_eq_false_2 by done. reflexivity.
Qed.

(** ** Forwarding *)

Section forwarding.
Context (device : nat -> dnsDevice) (h : DNSHandler) (questions : list DNSQuestion).

(** The simulated server that owns an address. *)
Definition serves (id : nat) (set : dnsRecordSet) (address : IP) : Prop :=
  dnDeviceRecords h !! id = Some set /\ existsb (ipEqual address) (ddIPAddresses (device id)) = true.

Definition oneServer : Prop := forall a id set id' set', serves id set a -> serves id' set' a -> id = id'.

Definition rangesOver (range : nat -> list nat) : Prop := forall n, range n ≡ₚ (map_to_list (dnDeviceRecords h)).*1.

(** The servers that [k] forwardings lead to. *)
Inductive reach (start : nat) : nat -> nat -> Prop :=
| reachNone : reach start 0 start
| reachMore k id set f id' set' :
    reach start k id -> dnDeviceRecords h !! id = Some set -> f ∈ rsForwarders set -> serves id' set' f -> reach start (S k) id'.

Definition unanswered (id : nat) : Prop :=
  forall set, dnDeviceRecords h !! id = Some set -> resolveQuestions h questions (Some set) = ([], DNSResponseCodeNXDomain).

Lemma resolver_spec range n address :
  oneServer -> rangesOver range ->
  match simulatedResolver device h (range n) address with
  | Some (id, set) => serves id set address
  | None => forall id set, ~ serves id set address
  end.
Proof.
  intros Hone Hr. unfold simulatedResolver. destruct (List.find _ (range n)) as [id|] eqn:E; cbn [mbind option_bind].
  - apply find_some in E as [_ [Hs He]%andb_true_iff]. apply bool_decide_eq_true in Hs as [set Hs]. rewrite Hs. cbn [mbind option_bind]. by split.
  - intros id set [Hs He]. assert (id ∈ range n) as Hin.
    { rewrite (Hr n). apply list_elem_of_fmap. exists (id, set). split; [done|]. by apply elem_of_map_to_list. }
    apply list_elem_of_In in Hin. pose proof (find_none _ _ E _ Hin) as Hf. cbv beta in Hf. rewrite He in Hf.
    rewrite bool_decide_eq_true_2 in Hf by by eexists. done.
Qed.

(** The forwarders of the sets that are not visited yet. *)
Definition unvisited (visited : gset nat) : nat :=
  list_sum ((fun entry => length (rsForwarders entry.2)) <$> map_to_list (filter (fun entry => entry.1 ∉ visited) (dnDeviceRecords h))).

Lemma unvisited_insert visited id set :
  dnDeviceRecords h !! id = Some set -> id ∉ visited -> unvisited visited = (length (rsForwarders set) + unvisited ({[id]} ∪ visited))%nat.
Proof.
  intros Hs Hn. unfold unvisited.
  assert (filter (fun entry => entry.1 ∉ visited) (dnDeviceRecords h) =
    <[id := set]> (filter (fun entry => entry.1 ∉ {[id]} ∪ visited) (dnDeviceRecords h))) as ->.
  { apply map_eq. intros j. destruct (decide (j = id)) as [->|Hj].
    - rewrite lookup_insert_eq. by apply map_lookup_filter_Some.
    - rewrite lookup_insert_ne by done. apply option_eq. intros x. rewrite !map_lookup_filter_Some. set_solver. }
  rewrite map_to_list_insert; [done|]. apply map_lookup_filter_None. right. intros x _. set_solver.
Qed.

Lemma unvisited_le visited : (unvisited visited <= list_sum ((fun entry => length (rsForwarders entry.2)) <$> map_to_list (dnDeviceRecords h)))%nat.
Proof.
  unfold unvisited. assert (map_to_list (filter (fun entry => entry.1 ∉ visited) (dnDeviceRecords h)) ⊆+ map_to_list (dnDeviceRecords h)) as Hs
    by apply map_to_list_submseteq, map_filter_subseteq.
  apply submseteq_Permutation in Hs as [more Hs]. rewrite Hs, fmap_app, list_sum_app. lia.
Qed.

(** A forwarder that needs no more work. *)
Definition handled (visited : gset nat) (upstreams : list IP) (f : IP) : Prop :=
  (exists id set, serves id set f /\ id ∈ visited) \/ ((forall id set, ~ serves id set f) /\ f ∈ upstreams).

Lemma handled_mono visited visited' upstreams upstreams' f :
  visited ⊆ visited' -> upstreams ⊆ upstreams' -> handled visited upstreams f -> handled visited' upstreams' f.
Proof. intros Hv Hu [(id & set & Hs & Hin)|[Hn Hin]]; [left; exists id, set; set_solver|right; set_solver]. Qed.

(** The queue holds what is left of the forwarders of the servers at [level]
    hops, and then those found so far of the next level. *)
Record inv (start level : nat) (visited : gset nat) (current next upstreams : list IP) : Prop := {
  near_visited k id : (k <= level)%nat -> reach start k id -> id ∈ visited;
  all_queued id set f : id ∈ visited -> dnDeviceRecords h !! id = Some set -> f ∈ rsForwarders set ->
    f ∈ current \/ f ∈ next \/ handled visited upstreams f;
  near_current k id set f : (k <= level)%nat -> reach start k id -> dnDeviceRecords h !! id = Some set -> f ∈ rsForwarders set ->
    f ∈ current \/ handled visited upstreams f;
  current_from f : f ∈ current -> exists id set, reach start level id /\ dnDeviceRecords h !! id = Some set /\ f ∈ rsForwarders set;
  next_from f : f ∈ next -> exists id set, reach start (S level) id /\ dnDeviceRecords h !! id = Some set /\ f ∈ rsForwarders set;
  visited_unanswered id : id ∈ visited -> id <> start -> unanswered id;
  upstreams_from f : f ∈ upstreams -> (forall id set, ~ serves id set f) /\
    exists k id set, reach start k id /\ dnDeviceRecords h !! id = Some set /\ f ∈ rsForwarders set
}.

Definition forwardedOk (start : nat) (result : forwarded) : Prop :=
  match result with
  | Answered answers rcode =>
      exists k id set, reach start k id /\ id <> start /\ dnDeviceRecords h !! id = Some set /\
        resolveQuestions h questions (Some set) = (answers, rcode) /\ (answers <> [] \/ rcode <> DNSResponseCodeNXDomain) /\
        forall k' id', (k' < k)%nat -> reach start k' id' -> id' <> start -> unanswered id'
  | Unresolved upstreams =>
      (forall k id, reach start k id -> id <> start -> unanswered id) /\
      forall f, f ∈ upstreams <-> (forall id set, ~ serves id set f) /\
        exists k id set, reach start k id /\ dnDeviceRecords h !! id = Some set /\ f ∈ rsForwarders set
  end.

Lemma inv_next start level visited next upstreams :
  oneServer -> inv start level visited [] next upstreams -> inv start (S level) visited next [] upstreams.
Proof.
  intros Hone [Hn Ha Hc Hcf Hnf Hu Hup].
  assert (forall k id, (k <= S level)%nat -> reach start k id -> id ∈ visited) as Hn'.
  { intros k id Hk Hr. destruct (decide (k <= level)%nat) as [Hle|Hgt]; [by eapply Hn|].
    inversion Hr as [|k0 id0 set f id1 set' Hr0 Hs Hf Hserves]; subst; [lia|].
    destruct (Hc k0 id0 set f ltac:(lia) Hr0 Hs Hf) as [Hin|[(id2 & set2 & H2 & Hin)|[Hno _]]]; [by apply elem_of_nil in Hin| |by destruct (Hno id set')].
    by rewrite (Hone _ _ _ _ _ Hserves H2). }
  split; [done| | |done|intros f Hf; by apply elem_of_nil in Hf|done|done].
  - intros id set f Hid Hs Hf. destruct (Ha id set f Hid Hs Hf) as [Hin|[?|?]]; [by apply elem_of_nil in Hin|tauto..].
  - intros k id set f Hk Hr Hs Hf. destruct (Ha id set f (Hn' _ _ Hk Hr) Hs Hf) as [Hin|[?|?]]; [by apply elem_of_nil in Hin|tauto..].
Qed.

(** The first of the queue is an upstream, or leads to a visited server. *)
Lemma inv_skip start level visited f current next upstreams upstreams' :
  inv start level visited (f :: current) next upstreams -> handled visited upstreams' f -> upstreams ⊆ upstreams' ->
  (forall g, g ∈ upstreams' -> g ∈ upstreams \/ (g = f /\ forall id set, ~ serves id set f)) ->
  inv start level visited current next upstreams'.
Proof.
  intros [Hn Ha Hc Hcf Hnf Hu Hup] Hh Hsub Hnew. split; [done| | | |done|done|].
  - intros id set g Hid Hs Hg. destruct (Ha id set g Hid Hs Hg) as [[->|?]%elem_of_cons|[?|?]]; eauto using handled_mono.
  - intros k id set g Hk Hr Hs Hg. destruct (Hc k id set g Hk Hr Hs Hg) as [[->|?]%elem_of_cons|?]; eauto using handled_mono.
  - intros g Hg. apply Hcf. by apply elem_of_cons; right.
  - intros g Hg. destruct (Hnew g Hg) as [Hin|[-> Hno]]; [by apply Hup|]. split; [done|].
    destruct (Hcf f ltac:(set_solver)) as (id & set & Hr & Hs & Hf). by exists level, id, set.
Qed.

(** It leads to a new server that has no answer. *)
Lemma inv_enter start level visited f current next upstreams id set :
  inv start level visited (f :: current) next upstreams -> serves id set f -> id ∉ visited ->
  resolveQuestions h questions (Some set) = ([], DNSResponseCodeNXDomain) ->
  inv start level ({[id]} ∪ visited) current (next ++ rsForwarders set) upstreams.
Proof.
  intros [Hn Ha Hc Hcf Hnf Hu Hup] Hserves Hid Hno.
  assert (handled ({[id]} ∪ visited) upstreams f) as Hf by (left; exists id, set; set_solver).
  assert (forall g, handled visited upstreams g -> handled ({[id]} ∪ visited) upstreams g) as Hmono.
  { intros g. apply handled_mono; [set_solver|done]. }
  split; [| | | | | |done].
  - intros k id' Hk Hr. apply elem_of_union_r. by eapply Hn.
  - intros id' set' g [->%elem_of_singleton|Hin]%elem_of_union Hs Hg.
    + destruct Hserves as [Hs' _]. rewrite Hs' in Hs. injection Hs as <-. set_solver.
    + destruct (Ha id' set' g Hin Hs Hg) as [[->|?]%elem_of_cons|[?|?]]; [by right; right|by left|right; left; set_solver|right; right; by apply Hmono].
  - intros k id' set' g Hk Hr Hs Hg. destruct (Hc k id' set' g Hk Hr Hs Hg) as [[->|?]%elem_of_cons|?]; [by right|by left|right; by apply Hmono].
  - intros g Hg. apply Hcf. by apply elem_of_cons; right.
  - intros g [Hg|Hg]%elem_of_app; [by apply Hnf|]. exists id, set. destruct (Hcf f ltac:(set_solver)) as (v & vs & Hr & Hs & Hvf).
    split; [|split; [apply Hserves|done]]. by eapply reachMore.
  - intros id' [->%elem_of_singleton|Hin]%elem_of_union Hne; [|by apply Hu]. intros set' Hs. destruct Hserves as [Hs' _].
    rewrite Hs' in Hs. by injection Hs as <-.
Qed.

Lemma inv_done start level visited upstreams :
  oneServer -> inv start level visited [] [] upstreams -> forwardedOk start (Unresolved upstreams).
Proof.
  intros Hone [Hn Ha Hc Hcf Hnf Hu Hup].
  assert (forall k id, reach start k id -> id ∈ visited) as Hall.
  { intros k id Hr. induction Hr as [|k id set f id' set' Hr IH Hs Hf Hserves]; [apply (Hn 0%nat); [lia|constructor]|].
    destruct (Ha id set f IH Hs Hf) as [Hin|[Hin|[(id2 & set2 & H2 & Hin)|[Hno _]]]]; [by apply elem_of_nil in Hin..| |by destruct (Hno id' set')].
    by rewrite (Hone _ _ _ _ _ Hserves H2). }
  split; [intros k id Hr; apply Hu; by eapply Hall|]. intros f. split; [apply Hup|]. intros (Hno & k & id & set & Hr & Hs & Hf).
  destruct (Ha id set f (Hall _ _ Hr) Hs Hf) as [Hin|[Hin|[(id2 & set2 & H2 & Hin)|[_ Hin]]]]; [by apply elem_of_nil in Hin..|by destruct (Hno id2 set2)|done].
Qed.

Lemma forwardLoop_spec range start fuel level visited current next upstreams :
  oneServer -> rangesOver range -> inv start level visited current next upstreams -> start ∈ visited ->
  (length (current ++ next) + unvisited visited <= fuel)%nat ->
  exists result, forwardLoop device fuel h range questions visited (current ++ next) upstreams = Some result /\ forwardedOk start result.
Proof.
  intros Hone Hrange. revert level visited current next upstreams. induction fuel as [|fuel IH]; intros level visited current next upstreams Hinv Hstart Hfuel.
  - assert (current = [] /\ next = []) as [-> ->] by (destruct current, next; simpl in Hfuel; lia || done).
    eexists. split; [done|]. by eapply inv_done.
  - assert (forall level f current next,
      inv start level visited (f :: current) next upstreams -> (length ((f :: current) ++ next) + unvisited visited <= S fuel)%nat ->
      exists result, forwardLoop device (S fuel) h range questions visited ((f :: current) ++ next) upstreams = Some result /\ forwardedOk start result) as Hcons.
    { clear level current next Hinv Hfuel. intros level f current next Hinv Hfuel. cbn [app length Nat.add] in *. cbn [forwardLoop].
      pose proof (resolver_spec range fuel f Hone Hrange) as Hres. destruct (simulatedResolver device h (range fuel) f) as [[id set]|].
      - destruct (bool_decide (id ∈ visited)) eqn:Ein; [apply bool_decide_eq_true in Ein|apply bool_decide_eq_false in Ein].
        + apply (IH level); [|done|lia]. apply (inv_skip _ _ _ f _ _ upstreams); [done|left; by exists id, set|done|by left].
        + destruct (resolveQuestions h questions (Some set)) as [answers rcode] eqn:Er.
          destruct (negb (bool_decide (answers = [])) || negb (rcode =? DNSResponseCodeNXDomain)) eqn:Ea.
          * eexists. split; [done|]. destruct (current_from _ _ _ _ _ _ Hinv f ltac:(set_solver)) as (v & vs & Hr & Hs & Hvf).
            exists (S level), id, set. split_and!; [by eapply reachMore|by intros ->|apply Hres|done| |].
            -- apply orb_true_iff in Ea as [Ea|Ea]; apply negb_true_iff in Ea; [left; by apply bool_decide_eq_false in Ea|right; by apply Z.eqb_neq].
            -- intros k' id' Hk Hr' Hne. eapply visited_unanswered; [exact Hinv| |done]. eapply near_visited; [exact Hinv| |exact Hr']. lia.
          * apply orb_false_iff in Ea as [Ea Ec]. apply negb_false_iff, bool_decide_eq_true in Ea as ->. apply negb_false_iff, Z.eqb_eq in Ec as ->.
            rewrite <- app_assoc. apply (IH level); [by eapply inv_enter|set_solver|]. destruct Hres as [Hs _].
            pose proof (unvisited_insert _ _ _ Hs Ein). rewrite !length_app in *. lia.
      - apply (IH level); [|done|lia]. apply (inv_skip _ _ _ f _ _ upstreams); [done|right; set_solver|set_solver|]. set_solver. }
    destruct current as [|f current]; [|by eapply Hcons]. destruct next as [|f next]; [eexists; split; [done|]; by eapply inv_done|].
    rewrite <- (app_nil_r (f :: next)). apply (Hcons (S level)); [by apply inv_next|]. by rewrite app_nil_r.
Qed.
Lemma inv_start start set :
  dnDeviceRecords h !! start = Some set -> inv start 0 {[start]} (rsForwarders set) [] [].
Proof.
  intros Hs. split.
  - intros k id Hk Hr. inversion Hr; subst; [set_solver|lia].
  - intros id set' f ->%elem_of_singleton Hs' Hf. rewrite Hs in Hs'. injection Hs' as <-. by left.
  - intros k id set' f Hk Hr Hs' Hf. inversion Hr; subst; [|lia]. rewrite Hs in Hs'. injection Hs' as <-. by left.
  - intros f Hf. exists start, set. split; [constructor|done].
  - intros f Hf. by apply elem_of_nil in Hf.
  - intros id ->%elem_of_singleton. done.
  - intros f Hf. by apply elem_of_nil in Hf.
Qed.
End forwarding.


(** ** Faults *)

(** An armed fault makes the server say that no name exists, and ask nobody. *)
Theorem nxdomain_fault device stores h range query server :
  deviceFaultActive stores server FaultDNSNXDomain = true ->
  exists response, answerQuery device stores h range query server = Some (ReplyNow response) /\
    dmAnswers response = [] /\ dmResponseCode response = DNSResponseCodeNXDomain /\ dmID response = dmID query.
Proof.
  intros Hf. unfold answerQuery. destruct (resolveQuestions _ _ _) as [answers rcode]. unfold applyNXDomainFault. rewrite Hf. cbn [negb].
  destruct (dnDeviceRecords h !! server); [rewrite orb_true_r|]; by eexists.
Qed.

(** ** Exchanges *)

(** A server at work: the exchanges under way and the responses given so far.
    A query is identified by the number it came with. *)
Record dnsState := mkDnsState { sHandler : DNSHandler; sUnderWay : list (nat * DNSMessage); sReplies : list (nat * DNSMessage); sQueries : nat }.

Inductive dnsStep : dnsState -> dnsState -> Prop :=
| stepReply h under replies n response :
    dnsStep (mkDnsState h under replies n) (mkDnsState h under (replies ++ [(n, response)]) (S n))
| stepAsk h under replies n response refused h' :
    askUpstream response h = (refused, h') ->
    dnsStep (mkDnsState h under replies n)
      (mkDnsState h' (if refused then under else under ++ [(n, response)]) (replies ++ (match refused with Some r => [(n, r)] | None => [] end)) (S n))
| stepFinish h before k response after replies n encodable answer reply h' :
    finishUpstream encodable answer response h = (reply, h') ->
    dnsStep (mkDnsState h (before ++ (k, response) :: after) replies n) (mkDnsState h' (before ++ after) (replies ++ [(k, reply)]) n).

(** The exchanges with real resolvers hold their slots, of which there are 64,
    and every query has either one reply or an exchange under way. *)
Theorem exchanges_bounded h s :
  dnUpstreamSlots h = 0%nat -> rtc dnsStep (mkDnsState h [] [] 0) s ->
  dnUpstreamSlots (sHandler s) = length (sUnderWay s) /\ (length (sUnderWay s) <= dnsUpstreamMaxInFlight)%nat /\
  (sUnderWay s ++ sReplies s).*1 ≡ₚ seq 0 (sQueries s).
Proof.
  intros H0 Hr. refine (rtc_ind_r (fun s => _) (mkDnsState h [] [] 0) _ _ s Hr).
  - split_and!; [done|simpl; lia|done].
  - intros x y _ Hstep (Hs & Hb & Hp). destruct Hstep as [h0 under replies n response|h0 under replies n response refused h' E
      |h0 before k response after replies n enc answer reply h' E]; cbn [sHandler sUnderWay sReplies sQueries] in *.
    + split_and!; [done|done|]. rewrite app_assoc, fmap_app, Hp, seq_S. done.
    + unfold askUpstream in E. destruct (bool_decide (dnUpstreamSlots h0 < dnsUpstreamMaxInFlight)%nat) eqn:Eb; injection E as <- <-.
      * apply bool_decide_eq_true in Eb. split_and!; [rewrite length_app; simpl; lia|rewrite length_app; simpl; lia|].
        rewrite app_nil_r, seq_S, <- Hp, !fmap_app, <- !app_assoc. apply Permutation_app_head, Permutation_cons_append.
      * split_and!; [done|done|]. rewrite app_assoc, fmap_app, Hp, seq_S. done.
    + unfold finishUpstream in E. injection E as <- <-. cbn [setf dnUpstreamSlots]. rewrite !length_app in *. simpl in *.
      split_and!; [lia|lia|]. rewrite <- Hp, !fmap_app, <- !app_assoc. apply Permutation_app_head. cbn. rewrite app_assoc. symmetry. apply Permutation_cons_append.
Qed.

(** ** Runs *)

Lemma ptr_names_read_witness :
  parsePTRName "4.3.2.10.IN-ADDR.ARPA." = (Some [10; 2; 3; 4], false) /\
  parsePTRName "1.0.0.0.0.0.0.0.0.0.0.0.0.0.0.0.0.0.0.0.0.0.0.0.8.b.d.0.1.0.0.2.ip6.arpa" =
    (Some [0x20; 0x01; 0x0d; 0xb8; 0; 0; 0; 0; 0; 0; 0; 0; 0; 0; 0; 1], true).
Proof.
  split; [apply (ptr_names_read [10; 2; 3; 4])|apply (ptr_names_read [0x20; 0x01; 0x0d; 0xb8; 0; 0; 0; 0; 0; 0; 0; 0; 0; 0; 0; 1])];
    [repeat constructor; unfold isByte; lia|by left|vm_compute; reflexivity|repeat constructor; unfold isByte; lia|by right|vm_compute; reflexivity].
Defined.

(** A site server, the lab edge it forwards to beside a real resolver, and the
    simulated internet behind the edge, which forwards back to the site. *)
Definition chainDevice (id : nat) : dnsDevice := mkDnsDevice "" "" [[10; 0; 0; Z.of_nat id]] [2; 0; 0; 0; 0; 1] None.

Definition chainHandler : DNSHandler :=
  NewDNSHandler <| dnDeviceRecords := list_to_map
    [(1%nat, mkRecordSet ∅ ∅ [[9; 9; 9; 9]; [10; 0; 0; 2]]);
     (2%nat, mkRecordSet ∅ ∅ [[10; 0; 0; 3]; [10; 0; 0; 1]]);
     (3%nat, mkRecordSet {["www.example" := [mkDnsRecord [192; 0; 2; 7] 300 0]]} ∅ [[10; 0; 0; 1]])] |>.

Definition chainQuestion : DNSQuestion := mkQuestion "WWW.example" DNSTypeA DNSClassIN.

Lemma ipEqual4 a x y : ipEqual a x = true -> ipEqual a y = true -> length x = 4%nat -> length y = 4%nat -> x = y.
Proof.
  unfold ipEqual. intros Hx Hy Ex Ey. rewrite Ex in Hx. rewrite Ey in Hy. destruct (bool_decide (length a = 4%nat)) eqn:E4.
  - apply bool_decide_eq_true in Hx, Hy. congruence.
  - simpl in Hx, Hy. destruct (bool_decide (length a = 16%nat)); [|done]. simpl in Hx, Hy.
    apply andb_true_iff in Hx as [_ Hx%bool_decide_eq_true], Hy as [_ Hy%bool_decide_eq_true]. congruence.
Qed.

Lemma chain_oneServer : oneServer chainDevice chainHandler.
Proof.
  intros a id set id' set' [_ H1] [_ H2]. unfold chainDevice in *. cbn [ddIPAddresses existsb] in *. rewrite orb_false_r in H1, H2.
  pose proof (ipEqual4 _ _ _ H1 H2 eq_refl eq_refl) as E. injection E. lia.
Qed.

Lemma chain_answer :
  resolveForwarded chainDevice chainHandler (fun _ => (map_to_list (dnDeviceRecords chainHandler)).*1) [chainQuestion] 1
    (mkRecordSet ∅ ∅ [[9; 9; 9; 9]; [10; 0; 0; 2]]) =
  Some (Answered [addressRecord chainQuestion DNSTypeA (mkDnsRecord [192; 0; 2; 7] 300 0)] 0).
Proof. vm_compute. reflexivity. Qed.


(** A name that has an IPv4 address only is said not to exist when its IPv6
    address is asked for. *)
Example no_data_is_no_name :
  let h := AddRecord "printer.local" [10; 0; 0; 5] NewDNSHandler in
  resolveQuestions h [mkQuestion "printer.local" DNSTypeAAAA DNSClassIN] None = ([], DNSResponseCodeNXDomain).
Proof. vm_compute. reflexivity. Qed.
