(* ===== verification/DeviceTable.v ===== *)
(** * The tables of a segment's devices

    [protocols/device_table.go], [devicesFor] of [stack.go] and the
    registration of [stack_init.go]: devices by hardware address, by address,
    by the TTL they answer for.  A device is a number; [tableDevice] is what is
    read of it.  Go ranges over the maps in any order, which are the arguments
    of [AllDevices].  The lock is held for each operation; selection by
    TTL takes it twice, with nothing between. *)

From S2P Require Import Prelude.
From S2P Require Import Netip.
From S2P Require Import Dhcp.

Record tableDevice := mkTableDevice { tdMACAddress : list Z; tdIPAddresses : list IP; tdTTL : option Z; tdForwards : bool }.

Record DeviceTable := mkDeviceTable {
  dtByMAC : gmap string nat;
  dtByIP : gmap string (list nat);
  dtTTLDevices : gmap Z (list nat);
  dtTTLCounts : gmap nat Z;
  dtForwardingDevices : list nat
}.
#[export] Instance DeviceTable_rebuild : Rebuild DeviceTable := fun t =>
  mkDeviceTable (dtByMAC t) (dtByIP t) (dtTTLDevices t) (dtTTLCounts t) (dtForwardingDevices t).

Definition NewDeviceTable : DeviceTable := mkDeviceTable ∅ ∅ ∅ ∅ [].

Definition resetTable (t : DeviceTable) : DeviceTable := NewDeviceTable.

Definition AddByMAC (mac : list Z) (device : nat) (t : DeviceTable) : DeviceTable :=
  t <| dtByMAC := <[macString mac := device]> (dtByMAC t) |>.

Definition AddByIP (ip : IP) (device : nat) (t : DeviceTable) : DeviceTable :=
  let key := ipString ip in
  t <| dtByIP := <[key := default [] (dtByIP t !! key) ++ [device]]> (dtByIP t) |>.

(** A nil table is empty. *)
Definition GetByMAC (mac : list Z) (t : option DeviceTable) : option nat := t ≫= fun t => dtByMAC t !! macString mac.

Definition GetByIP (ip : IP) (t : option DeviceTable) : list nat := default [] (t ≫= fun t => dtByIP t !! ipString ip).

(** The first occurrence of a device goes, and a list that gets empty with it. *)
Fixpoint removeFirst (device : nat) (l : list nat) : list nat :=
  match l with
  | [] => []
  | d :: l => if bool_decide (d = device) then l else d :: removeFirst device l
  end.

Definition removeAddress (device : nat) (byIP : gmap string (list nat)) (ip : IP) : gmap string (list nat) :=
  let key := ipString ip in
  match removeFirst device (default [] (byIP !! key)) with
  | [] => delete key byIP
  | rest => <[key := rest]> byIP
  end.

Definition Remove (device : nat) (info : tableDevice) (t : DeviceTable) : DeviceTable :=
  t <| dtByMAC := if bool_decide (tdMACAddress info = []) then dtByMAC t else delete (macString (tdMACAddress info)) (dtByMAC t) |>
    <| dtByIP := foldl (removeAddress device) (dtByIP t) (tdIPAddresses info) |>.

Definition Count (t : DeviceTable) : nat := size (dtByMAC t).

Definition AllDevices (rangeMAC rangeIP : list nat) : list nat :=
  foldl (fun devices device => if bool_decide (device ∈ devices) then devices else devices ++ [device]) rangeMAC rangeIP.

(** [rangeMAC] and [rangeIP] are the values of the two maps in the order in
    which Go ranges over them. *)
Definition rangesOf (t : DeviceTable) (rangeMAC rangeIP : list nat) : Prop :=
  rangeMAC ≡ₚ (map_to_list (dtByMAC t)).*2 /\ rangeIP ≡ₚ concat (map_to_list (dtByIP t)).*2.

Definition RegisterTTL (device : nat) (info : tableDevice) (t : DeviceTable) : DeviceTable :=
  match tdTTL info with
  | None => t
  | Some ttl =>
      if (ttl <? 1) || (255 <? ttl) then t
      else t <| dtTTLDevices := <[ttl := default [] (dtTTLDevices t !! ttl) ++ [device]]> (dtTTLDevices t) |>
             <| dtTTLCounts := match dtTTLCounts t !! device with Some _ => dtTTLCounts t | None => <[device := 0]> (dtTTLCounts t) end |>
  end.

Definition ttlCount (t : DeviceTable) (device : nat) : Z := default 0 (dtTTLCounts t !! device).

(** The first of those that have answered least often. *)
Definition leastCount (t : DeviceTable) (selected : option nat) (device : nat) : option nat :=
  match selected with
  | None => Some device
  | Some best => if ttlCount t device <? ttlCount t best then Some device else Some best
  end.

Definition GetDeviceByTTL (ttl : Z) (t : option DeviceTable) : option nat :=
  t ← t; foldl (leastCount t) None (default [] (dtTTLDevices t !! ttl)).

Definition IncrementTTLCount (device : nat) (t : DeviceTable) : DeviceTable :=
  t <| dtTTLCounts := <[device := ttlCount t device + 1]> (dtTTLCounts t) |>.

Definition RegisterForwardingDevice (device : nat) (t : DeviceTable) : DeviceTable :=
  t <| dtForwardingDevices := dtForwardingDevices t ++ [device] |>.

(** ** Registration *)

Definition registerDeviceAddresses (device : nat) (info : tableDevice) (t : DeviceTable) : DeviceTable :=
  let t := if bool_decide (tdMACAddress info = []) then t else AddByMAC (tdMACAddress info) device t in
  foldl (fun t ip => AddByIP ip device t) t (tdIPAddresses info).

Definition registerDeviceFeatures (device : nat) (info : tableDevice) (t : DeviceTable) : DeviceTable :=
  let t := RegisterTTL device info t in
  if tdForwards info then RegisterForwardingDevice device t else t.

(** ** The table of a VLAN *)

Definition UntaggedTag : Z := 0.

(** Without segments there is one table. *)
Definition devicesFor (devices : DeviceTable) (segmentTables : option (gmap Z DeviceTable)) (vlan : Z) : option DeviceTable :=
  match segmentTables with
  | None => Some devices
  | Some tables => tables !! (if vlan <? 0 then UntaggedTag else vlan)
  end.

(** ** Lemmas *)

Lemma removeFirst_elem device x l : x <> device -> x ∈ removeFirst device l <-> x ∈ l.
Proof.
  intros Hne. induction l as [|d l IH]; [done|]. simpl. destruct (bool_decide (d = device)) eqn:E.
  - apply bool_decide_eq_true in E as ->. set_solver.
  - rewrite !elem_of_cons, IH. done.
Qed.

Lemma foldl_AddByIP device ips t : 
  dtByMAC (foldl (fun t ip => AddByIP ip device t) t ips) = dtByMAC t /\
  dtTTLDevices (foldl (fun t ip => AddByIP ip device t) t ips) = dtTTLDevices t /\
  dtTTLCounts (foldl (fun t ip => AddByIP ip device t) t ips) = dtTTLCounts t.
Proof. revert t. induction ips as [|ip ips IH]; intros t; [done|]. cbn [foldl]. by destruct (IH (AddByIP ip device t)) as (-> & -> & ->). Qed.

(** A registered device is found by each of its addresses. *)
Lemma registered_found device info t :
  (tdMACAddress info <> [] -> GetByMAC (tdMACAddress info) (Some (registerDeviceAddresses device info t)) = Some device) /\
  forall ip, ip ∈ tdIPAddresses info -> device ∈ GetByIP ip (Some (registerDeviceAddresses device info t)).
Proof.
  unfold registerDeviceAddresses, GetByMAC, GetByIP. split.
  - intros Hm. cbn [mbind option_bind]. rewrite (proj1 (foldl_AddByIP _ _ _)), bool_decide_eq_false_2 by done. apply lookup_insert_eq.
  - cbn [mbind option_bind]. set (t0 := if bool_decide _ then t else _). clearbody t0.
    assert (forall ips t key, device ∈ default [] (dtByIP t !! key) -> device ∈ default [] (dtByIP (foldl (fun t ip => AddByIP ip device t) t ips) !! key)) as Hkeep.
    { induction ips as [|ip ips IH]; intros t1 key H; [done|]. apply IH. cbn [AddByIP setf dtByIP].
      destruct (decide (key = ipString ip)) as [->|Hne]; [rewrite lookup_insert_eq; simpl; set_solver|by rewrite lookup_insert_ne]. }
    revert t0. induction (tdIPAddresses info) as [|ip0 ips IH]; intros t0 ip Hip; [by apply elem_of_nil in Hip|].
    apply elem_of_cons in Hip as [->|Hip]; [|by apply IH]. cbn [foldl]. apply Hkeep. cbn [AddByIP setf dtByIP]. rewrite lookup_insert_eq. simpl. set_solver.
Qed.

(** ** Devices that answer for a TTL take turns *)

Lemma leastCount_spec t l best :
  let r := foldl (leastCount t) best l in
  match r with
  | None => best = None /\ l = []
  | Some d => (best = Some d \/ d ∈ l) /\ (forall b, best = Some b -> ttlCount t d <= ttlCount t b) /\ forall x, x ∈ l -> ttlCount t d <= ttlCount t x
  end.
Proof.
  revert best. induction l as [|x l IH]; intros best; cbn [foldl].
  - destruct best as [b|]; [|done]. split_and!; [by left|intros ? [= ->]; lia|intros y Hy; by apply elem_of_nil in Hy].
  - specialize (IH (leastCount t best x)). cbv zeta in *. destruct (foldl _ _ l) as [d|].
    + destruct IH as (Hd & Hb & Hl). destruct best as [b|]; cbn [leastCount] in *.
      * destruct (Z.ltb_spec (ttlCount t x) (ttlCount t b)) as [Hlt|Hge].
        -- specialize (Hb x eq_refl). split_and!; [destruct Hd as [[= ->]|Hd]; set_solver|intros ? [= <-]; lia|].
           intros y [->|Hy]%elem_of_cons; [done|by apply Hl].
        -- specialize (Hb b eq_refl). split_and!; [destruct Hd as [[= ->]|Hd]; set_solver|intros ? [= <-]; lia|].
           intros y [->|Hy]%elem_of_cons; [lia|by apply Hl].
      * specialize (Hb x eq_refl). split_and!; [destruct Hd as [[= ->]|Hd]; set_solver|done|].
        intros y [->|Hy]%elem_of_cons; [done|by apply Hl].
    + destruct IH as [IH _]. destruct best as [b|]; cbn [leastCount] in IH; [by destruct (_ <? _)|done].
Qed.

(** [n] expired packets of one TTL, each answered by the device chosen for it. *)
Fixpoint answerTTL (n : nat) (ttl : Z) (t : DeviceTable) : DeviceTable :=
  match n with
  | O => t
  | S n => match GetDeviceByTTL ttl (Some t) with Some device => answerTTL n ttl (IncrementTTLCount device t) | None => t end
  end.

Definition balanced (t : DeviceTable) (ttl : Z) : Prop :=
  forall a b, a ∈ default [] (dtTTLDevices t !! ttl) -> b ∈ default [] (dtTTLDevices t !! ttl) -> ttlCount t a <= ttlCount t b + 1.

(** However many packets expire, the devices of the TTL have answered equally
    often, give or take one. *)
Theorem ttl_turns n ttl t : balanced t ttl -> balanced (answerTTL n ttl t) ttl.
Proof.
  revert t. induction n as [|n IH]; intros t Hb; [done|]. cbn [answerTTL]. unfold GetDeviceByTTL. cbn [mbind option_bind].
  pose proof (leastCount_spec t (default [] (dtTTLDevices t !! ttl)) None) as Hs. cbv zeta in Hs.
  destruct (foldl _ _ _) as [d|]; [|done]. destruct Hs as (Hd & _ & Hmin). apply IH. intros a b Ha Hb'.
  cbn [IncrementTTLCount setf dtTTLDevices] in Ha, Hb'. pose proof (Hb a b Ha Hb') as Hab. unfold IncrementTTLCount, ttlCount in *. cbn [setf dtTTLCounts].
  destruct (decide (a = d)) as [->|Had].
  - rewrite lookup_insert_eq. simpl. destruct (decide (b = d)) as [->|Hbd]; [rewrite lookup_insert_eq; simpl; lia|].
    rewrite lookup_insert_ne by done. specialize (Hmin b Hb'). lia.
  - rewrite lookup_insert_ne by done. destruct (decide (b = d)) as [->|Hbd]; [rewrite lookup_insert_eq; simpl; lia|]. by rewrite lookup_insert_ne by done.
Qed.

(** A device that was taken out of the table is still chosen to answer. *)
Example removed_answers :
  let info := mkTableDevice [2; 0; 0; 0; 0; 1] [[10; 0; 0; 1]] (Some 3) false in
  let t := registerDeviceFeatures 7 info (registerDeviceAddresses 7 info NewDeviceTable) in
  GetByMAC (tdMACAddress info) (Some (Remove 7 info t)) = None /\ GetDeviceByTTL 3 (Some (Remove 7 info t)) = Some 7%nat.
Proof. by vm_compute. Qed.
