(* ===== verification/Clients.v ===== *)
(** * Clients seen on the wire

    [protocols/observed_clients.go] and the stack's side of
    [client_placement.go]: which hardware addresses send into the simulation,
    what address each claims, which pool port each is plugged into and what
    its cable does to the port.  Each operation holds its lock for the whole
    step; the clock's reading is an argument.  What is told to the SNMP bridge
    tables is an effect, in order.

    An entry of the table is the summary of the frames its client sent since it
    was last absent, and shows the last of the best addresses it claimed
    ([client_summary]); a client that is plugged in brings its port up, and
    unplugging the pool gives every port the carrier it was authored with
    ([plugged_port_up], [unplugged_as_authored]). *)

From Stdlib Require Import Ascii.
From S2P Require Import Prelude.
From S2P Require Import Text.
From S2P Require Import Oid.
From S2P Require Import Netip.
From S2P Require Import NetipParse.
From S2P Require Import NetipPrint.
From S2P Require Import DeviceTypes.
From S2P Require Import DeviceStore.
From S2P Require Import DeviceOps.
From S2P Require Import DeviceFacts.
From S2P Require Import Bytes.
From S2P Require Import Packet.
From S2P Require Import Dhcp.
From S2P Require Import FabricTypes.
From S2P Require Import Placement.
From S2P Require Import FabricRuntime.
From S2P Require Import DeviceTable.

(** Nanoseconds. *)
Definition observedClientTTL : Z := 300 * 10 ^ 9.

Definition ARPSenderProtocolAddress : nat := 14.
Definition arpSenderProtocolEnd : nat := ARPSenderProtocolAddress + SizeOfIP.
Definition SizeOfIPv6 : nat := 16.
Definition ipv6SourceOffset : nat := 8.
Definition ipv6SourceEnd : nat := ipv6SourceOffset + SizeOfIPv6.
Definition EtherTypeARP : Z := 0x0806.
Definition EtherTypeIPv6 : Z := 0x86dd.
Definition macAddrLen : nat := 6.

Record ObservedClient := mkObserved {
  ocMAC : string; ocIP : string; ocDevice : string; ocInterface : string; ocVLAN : Z;
  ocFirstSeen : Time; ocLastSeen : Time; ocExpireAt : Time; ocFrames : Z
}.
#[export] Instance ObservedClient_rebuild : Rebuild ObservedClient := fun c =>
  mkObserved (ocMAC c) (ocIP c) (ocDevice c) (ocInterface c) (ocVLAN c) (ocFirstSeen c) (ocLastSeen c) (ocExpireAt c) (ocFrames c).

Abbreviation observedClientTable := (gmap string ObservedClient).

(** ** Ranks *)

Inductive addressRank := rankNone | rankIPv6LinkLocal | rankIPv6Routable | rankIPv4.

Definition rankValue (rank : addressRank) : Z :=
  match rank with rankNone => 0 | rankIPv6LinkLocal => 1 | rankIPv6Routable => 2 | rankIPv4 => 3 end.

Definition rankOf (ip : IP) : addressRank :=
  if bool_decide (ip = []) then rankNone
  else if negb (bool_decide (To4 ip = [])) then rankIPv4
  else if isLinkLocalIP ip then rankIPv6LinkLocal
  else rankIPv6Routable.

(** [net.ParseIP] gives sixteen bytes, or nil. *)
Definition netParseIP (s : string) : IP :=
  match ParseIP s with
  | Some (Addr4 b) => v4InV6Prefix ++ big32 b
  | Some (Addr6 b zone) => AsSlice (Addr6 b zone)
  | _ => []
  end.

(** ** The table *)

Definition observe (mac ip : list Z) (vlan : Z) (now : Time) (t : observedClientTable) : observedClientTable :=
  let key := macString mac in
  let entry := default (mkObserved key "" "" "" 0 now 0 0 0) (t !! key) in
  let entry := entry <| ocLastSeen := now |> <| ocExpireAt := now + observedClientTTL |>
                     <| ocFrames := uint64 (ocFrames entry + 1) |> <| ocVLAN := vlan |> in
  let entry :=
    if negb (bool_decide (ip = [])) && (rankValue (rankOf (netParseIP (ocIP entry))) <=? rankValue (rankOf ip))
    then entry <| ocIP := ipString ip |> else entry in
  <[key := entry]> t.

Definition cleanupExpired (now : Time) (t : observedClientTable) : observedClientTable :=
  filter (fun entry => ~ ocExpireAt entry.2 < now) t.

Definition resetObserved (t : observedClientTable) : observedClientTable := ∅.

(** ** Frames *)

Definition isUnicastMAC (mac : list Z) : bool :=
  if negb (bool_decide (length mac = macAddrLen)) then false
  else if negb (Z.land (byteAt mac 0) 1 =? 0) then false
  else existsb (fun b => negb (b =? 0)) mac.

Definition isLinkControlDestination (dst : list Z) : bool :=
  if negb (bool_decide (length dst = macAddrLen)) then false
  else if bool_decide (take 5 dst = [0x01; 0x80; 0xc2; 0x00; 0x00]) && (byteAt dst 5 <=? 0x0f) then true
  else bool_decide (macString dst ∈ ["01:00:0c:cc:cc:cc"; "01:00:0c:cc:cc:cd"; "00:e0:2b:00:00:00"; "01:e0:52:cc:cc:cc"]).

Definition etherTypeAfterTags (pkt : Packet) : Z :=
  if pkVLANTagged pkt then Get16 vlanEtherTypeOffset pkt else GetEtherType pkt.

(** A packet's length is at most that of its buffer. *)
Definition sourceAddressClaimedBy (pkt : Packet) : IP :=
  let offset := (etherHeaderSize + (if pkVLANTagged pkt then dot1qTagLen else 0))%nat in
  let field from stop := if Z.of_nat (offset + stop) <=? pkLength pkt then take (stop - from) (drop (offset + from) (pkBuffer pkt)) else [] in
  let etherType := etherTypeAfterTags pkt in
  let ip :=
    if etherType =? EtherTypeARP then field ARPSenderProtocolAddress arpSenderProtocolEnd
    else if etherType =? EtherTypeIP then field ipv4SourceOffset ipv4SourceEnd
    else if etherType =? EtherTypeIPv6 then field ipv6SourceOffset ipv6SourceEnd
    else [] in
  if bool_decide (ip = []) || ipUnspecified ip then [] else ip.

(** ** The stack *)

(** What the bridge tables of a device's SNMP agents, if it has any, are told. *)
Inductive bridgeEffect :=
| PlaceLearned (device : nat) (mac : list Z) (interface : string) (vlan : Z)
| ForgetLearned (device : nat) (mac : list Z) (vlan : Z).

(** The stack's device state is the table bound to the fabric. *)
Record clientStack := mkClientStack {
  ckObserved : observedClientTable;
  ckDevices : DeviceTable;
  ckSegmentTables : option (gmap Z DeviceTable);
  ckFabric : option fabricRuntime;
  ckBridge : list bridgeEffect
}.
#[export] Instance clientStack_rebuild : Rebuild clientStack := fun s =>
  mkClientStack (ckObserved s) (ckDevices s) (ckSegmentTables s) (ckFabric s) (ckBridge s).

Definition statusUp (status : string) : bool := negb (bool_decide (ToLower (TrimSpace status) = "down"%string)).

Section stack.
(** The authored operational status of a device's interface, empty without one
    ([findConfigInterface]). *)
Context (authoredStatus : nat -> string -> string).

Definition cableUpdate (carrier : bool) (iface : DeviceTypes.Interface) : DeviceTypes.Interface + Err :=
  inl (iface <| ifCarrierUp := carrier |> <| ifOperUp := ifAdminUp iface && carrier |>).

(** A device without live state, and an error of the store, leave all as it is. *)
Definition setPoolPortCable (device : nat) (name : string) (plugged : bool) (r : fabricRuntime) : fabricRuntime :=
  match frDeviceStates r with
  | None => r
  | Some states =>
      match states !! device with
      | None => r
      | Some store =>
          let carrier := plugged || statusUp (authoredStatus device name) in
          r <| frDeviceStates := Some (<[device := (UpdateInterface name (cableUpdate carrier) store).1]> states) |>
      end
  end.

Definition placeObservedClient (mac : list Z) (s : clientStack) : clientStack :=
  match ckFabric s with
  | None => s
  | Some r =>
      match frPlacement r with
      | None => s
      | Some placement =>
          let '(placement, assigned) := assign (macString mac) (portAdminUp r) placement in
          let r := r <| frPlacement := Some placement |> in
          match assigned with
          | None => s <| ckFabric := Some r |>
          | Some port =>
              match frDevicesByName r !! atDevice port with
              | None => s <| ckFabric := Some r |>
              | Some device =>
                  s <| ckFabric := Some (setPoolPortCable device (atInterface port) true r) |>
                    <| ckBridge := ckBridge s ++ [PlaceLearned device mac (atInterface port) (atVLAN port)] |>
              end
          end
      end
  end.

Definition recordObservedClient (pkt : Packet) (now : Time) (s : clientStack) : clientStack :=
  let src := GetSourceMAC pkt in
  if negb (isUnicastMAC src) || isLinkControlDestination (GetDestMAC pkt) then s
  else if bool_decide (is_Some (GetByMAC src (devicesFor (ckDevices s) (ckSegmentTables s) (pkVLAN pkt)))) then s
  else if match ckFabric s with Some r => bool_decide (src = frHostMAC r) | None => false end then s
  else
    let vlan := if pkVLANTagged pkt then pkVLAN pkt else 0 in
    placeObservedClient src (s <| ckObserved := observe src (sourceAddressClaimedBy pkt) vlan now (ckObserved s) |>).

(** The clients in the order in which Go ranges over the table. *)
Definition GetObservedClients (order : list ObservedClient) (s : clientStack) : list ObservedClient :=
  match ckFabric s ≫= frPlacement with
  | None => order
  | Some placement =>
      (fun client =>
         match lookup (ocMAC client) placement with
         | Some port => client <| ocDevice := atDevice port |> <| ocInterface := atInterface port |>
         | None => client
         end) <$> order
  end.

Inductive repinErr := errAttachmentPoolNotBound | repinRefused (err : placementErr).

(** The attachments are those of the recompiled scenario. *)
Definition RepinAttachedClient (attachments : list CompiledAttachment) (mac : list Z) (s : clientStack) : clientStack * option repinErr :=
  match ckFabric s with
  | None => (s, Some errAttachmentPoolNotBound)
  | Some r =>
      match frPlacement r with
      | None => (s, Some errAttachmentPoolNotBound)
      | Some placement =>
          match List.find (fun attachment => bool_decide (caName attachment = bnAttachment (cbBinding (frBinding r)))) attachments with
          | None => (s, Some errAttachmentPoolNotBound)
          | Some attachment =>
              match repin (caPins attachment) (macString mac) (portAdminUp r) placement with
              | (_, inr err) => (s, Some (repinRefused err))
              | (placement, inl move) =>
                  let r := r <| frPlacement := Some placement |>
                             <| frTopology := frTopology r <| tyAttachments := attachments |> |> in
                  match mvFrom move with
                  | None => (s <| ckFabric := Some r |>, None)
                  | Some from =>
                      if bool_decide (from = mvTo move) then (s <| ckFabric := Some r |>, None)
                      else
                        let old := frDevicesByName r !! atDevice from in
                        let new := frDevicesByName r !! atDevice (mvTo move) in
                        let cable device port plugged r :=
                          match device with Some device => setPoolPortCable device (atInterface port) plugged r | None => r end in
                        (s <| ckFabric := Some (cable new (mvTo move) true (cable old from false r)) |>
                           <| ckBridge := ckBridge s ++
                                (match old with
                                 | Some device => if bool_decide (old = new) then [] else [ForgetLearned device mac (atVLAN from)]
                                 | None => []
                                 end) ++
                                (match new with
                                 | Some device => [PlaceLearned device mac (atInterface (mvTo move)) (atVLAN (mvTo move))]
                                 | None => []
                                 end) |>, None)
                  end
              end
          end
      end
  end.

(** Every client is unplugged. *)
Definition unplugPoolClients (r : fabricRuntime) : fabricRuntime :=
  match frPlacement r with
  | None => r
  | Some placement =>
      let '(placement, ports) := reset placement in
      foldl (fun r port =>
        match frDevicesByName r !! atDevice port with
        | Some device => setPoolPortCable device (atInterface port) false r
        | None => r
        end) (r <| frPlacement := Some placement |>) ports
  end.
End stack.

(** ** Addresses that were printed *)

Definition sliceValue (acc : Z) (b : list Z) : Z := foldl (fun acc x => acc * 2 ^ 8 + x) acc b.

Lemma sliceValue_split acc b :
  Forall isByte b -> sliceValue acc b = acc * 2 ^ (8 * Z.of_nat (length b)) + sliceValue 0 b /\ 0 <= sliceValue 0 b < 2 ^ (8 * Z.of_nat (length b)).
Proof.
  intros H. revert acc. induction H as [|x b Hx Hb IH]; intros acc; [cbn; lia|]. unfold isByte in Hx. cbn [sliceValue foldl length] in *.
  destruct (IH (acc * 2 ^ 8 + x)) as [E1 H1]. destruct (IH (0 * 2 ^ 8 + x)) as [E2 _]. unfold sliceValue in *. rewrite E1, E2.
  replace (8 * Z.of_nat (S (length b))) with (8 + 8 * Z.of_nat (length b)) by lia. rewrite Z.pow_add_r by lia.
  pose proof (Z.pow_pos_nonneg 2 (8 * Z.of_nat (length b))). nia.
Qed.

Lemma sliceValue_byte b i x :
  Forall isByte b -> b !! i = Some x -> Z.shiftr (sliceValue 0 b) (8 * (Z.of_nat (length b) - 1 - Z.of_nat i)) mod 2 ^ 8 = x.
Proof.
  intros Hb Hi. pose proof (lookup_lt_Some _ _ _ Hi) as Hl. rewrite <- (take_drop_middle _ _ _ Hi) in Hb |- *.
  apply Forall_app in Hb as [Hpre [Hx Hpost]%Forall_cons]. unfold isByte in Hx.
  assert (length (take i b) = i) as Ei by (rewrite length_take; lia). revert Hpre Hpost Ei.
  generalize (take i b) as pre, (drop (S i) b) as post. intros pre post Hpre Hpost Ei.
  rewrite length_app. cbn [length]. rewrite Ei. replace (8 * (Z.of_nat (i + S (length post)) - 1 - Z.of_nat i)) with (8 * Z.of_nat (length post)) by lia.
  unfold sliceValue. rewrite foldl_app. cbn [foldl]. fold (sliceValue 0 pre). fold (sliceValue (sliceValue 0 pre * 2 ^ 8 + x) post).
  destruct (sliceValue_split (sliceValue 0 pre * 2 ^ 8 + x) post Hpost) as [-> Hr]. rewrite Z.shiftr_div_pow2 by lia.
  rewrite (Z.div_add_l _ (2 ^ (8 * Z.of_nat (length post)))) by lia. rewrite (Z.div_small (sliceValue 0 post)) by done.
  rewrite Z.add_0_r, Z.add_comm, Z_mod_plus_full. apply Z.mod_small. lia.
Qed.

Lemma AsSlice_value ip : Forall isByte ip -> length ip = 16%nat -> AsSlice (Addr6 (sliceValue 0 ip) "") = ip.
Proof.
  intros Hb Hl. unfold AsSlice. apply list_eq. intros i. rewrite list_lookup_fmap. destruct (decide (i < 16)%nat) as [Hi|Hi].
  - rewrite lookup_seq_lt by done. cbn [fmap option_fmap option_map]. destruct (lookup_lt_is_Some_2 ip i) as [x Hx]; [lia|]. rewrite Hx. f_equal.
    rewrite <- (sliceValue_byte ip i x Hb Hx), Hl. do 2 f_equal; lia.
  - by rewrite !lookup_ge_None_2 by (rewrite ?length_seq; lia).
Qed.

(** An address a frame can claim. *)
Definition isIP (ip : IP) : Prop := Forall isByte ip /\ (length ip = 4 \/ length ip = 16)%nat.

Lemma value_range ip : Forall isByte ip -> length ip = 16%nat -> 0 <= sliceValue 0 ip < 2 ^ 128.
Proof. intros Hb Hl. destruct (sliceValue_split 0 ip Hb) as [_ H]. by rewrite Hl in H. Qed.

Lemma not_mapped ip : Forall isByte ip -> length ip = 16%nat -> To4 ip = [] -> Is4In6 (Addr6 (sliceValue 0 ip) "") = false.
Proof.
  intros Hb Hl H4. unfold Is4In6. apply Z.eqb_neq. intros E. unfold To4 in H4. rewrite Hl in H4. cbn [bool_decide] in H4.
  rewrite (bool_decide_eq_false_2 (16 = 4)%nat), (bool_decide_eq_true_2 (16 = 16)%nat) in H4 by done. cbn [andb] in H4.
  assert (forall i, (i < 12)%nat -> byteAt ip i = Z.shiftr 0xffff (8 * (11 - Z.of_nat i)) mod 2 ^ 8) as Hbyte.
  { intros i Hi. unfold byteAt. destruct (lookup_lt_is_Some_2 ip i) as [x Hx]; [lia|]. rewrite Hx. simpl. rewrite <- (sliceValue_byte ip i x Hb Hx), Hl, <- E.
    rewrite Z.shiftr_shiftr by lia. do 2 f_equal. lia. }
  assert (forallb (Z.eqb 0) (take 10 ip) = true) as H0.
  { apply forallb_forall. intros x Hx%list_elem_of_In. apply list_elem_of_lookup in Hx as (i & Hx). apply lookup_take_Some in Hx as [Hx Hi].
    assert (byteAt ip i = x) as Hbx by (unfold byteAt; by rewrite Hx). rewrite Hbyte in Hbx by lia. subst x.
    do 10 (destruct i as [|i]; [reflexivity|]). lia. }
  rewrite H0, !Hbyte in H4 by lia. assert (drop 12 ip = []) as Hd by exact H4. apply (f_equal length) in Hd. by rewrite length_drop, Hl in Hd.
Qed.

(** Reading back the text of an address keeps its rank. *)
Lemma rank_printed ip : isIP ip -> rankOf (netParseIP (ipString ip)) = rankOf ip.
Proof.
  intros [Hb Hl]. assert (ip <> []) as Hne by (intros ->; simpl in Hl; lia).
  destruct (decide (To4 ip = [])) as [E4|E4].
  - assert (length ip = 16%nat) as H16 by (destruct Hl as [Hl|Hl]; [|done]; unfold To4 in E4; rewrite bool_decide_eq_true_2 in E4 by done; done).
    assert (AddrFromSlice ip = Addr6 (sliceValue 0 ip) "") as Ea by (unfold AddrFromSlice; rewrite H16; done).
    assert (ipString ip = addrString (Addr6 (sliceValue 0 ip) "")) as ->.
    { unfold ipString. destruct ip; [done|]. rewrite E4, (bool_decide_eq_true_2 (length _ = 16%nat)) by done. by rewrite Ea. }
    unfold netParseIP, ParseIP. rewrite groups_read by (by apply value_range || by apply not_mapped). rewrite bool_decide_eq_true_2 by done.
    by rewrite AsSlice_value.
  - assert (length (To4 ip) = 4%nat /\ Forall isByte (To4 ip)) as [H4 Hb4].
    { unfold To4 in *. destruct (bool_decide (length ip = 4%nat)) eqn:E; [by apply bool_decide_eq_true in E|].
      destruct (bool_decide (length ip = 16%nat) && _ && _ && _) eqn:E16; [|done]. rewrite !andb_true_iff in E16.
      destruct E16 as [[[E16 _] _] _]. apply bool_decide_eq_true in E16. split; [rewrite length_drop; lia|by apply Forall_drop]. }
    assert (ipString ip = dotted (bigUint32 (To4 ip))) as ->.
    { unfold ipString. destruct ip; [done|]. by destruct (To4 (z :: ip)). }
    unfold netParseIP, ParseIP. rewrite dotted_reads.
    + unfold rankOf at 2. rewrite (bool_decide_eq_false_2 (ip = [])), (bool_decide_eq_false_2 (To4 ip = [])) by done. reflexivity.
    + unfold bigUint32. pose proof (byteAt_range (To4 ip) 0 Hb4). pose proof (byteAt_range (To4 ip) 1 Hb4).
      pose proof (byteAt_range (To4 ip) 2 Hb4). pose proof (byteAt_range (To4 ip) 3 Hb4). lia.
Qed.

(** ** The table *)

Inductive tableEvent :=
| SeenFrame (mac : list Z) (ip : IP) (vlan : Z) (now : Time)
| CleanedUp (now : Time)
| WasReset.

Definition tableStep (t : observedClientTable) (ev : tableEvent) : observedClientTable :=
  match ev with
  | SeenFrame mac ip vlan now => observe mac ip vlan now t
  | CleanedUp now => cleanupExpired now t
  | WasReset => resetObserved t
  end.

(** The frames of one client since it was last dropped: what each claimed, its
    VLAN and its time. *)
Definition sighting : Type := IP * Z * Time.

Definition historyStep (key : string) (seen : list sighting) (ev : tableEvent) : list sighting :=
  match ev with
  | SeenFrame mac ip vlan now => if bool_decide (macString mac = key) then seen ++ [(ip, vlan, now)] else seen
  | CleanedUp now => match List.last seen ([], 0, now) with (_, _, seenAt) => if seenAt + observedClientTTL <? now then [] else seen end
  | WasReset => []
  end.

Definition history (key : string) (events : list tableEvent) : list sighting := foldl (historyStep key) [] events.

(** The last of the best addresses claimed. *)
Definition bestClaim (claims : list IP) (shown : string) : Prop :=
  (shown = EmptyString /\ Forall (fun ip => ip = []) claims) \/
  exists before ip after, claims = before ++ ip :: after /\ ip <> [] /\ shown = ipString ip /\
    Forall (fun x => rankValue (rankOf x) <= rankValue (rankOf ip)) before /\
    Forall (fun x => x = [] \/ rankValue (rankOf x) < rankValue (rankOf ip)) after.

Record summarizes (key : string) (seen : list sighting) (entry : ObservedClient) : Prop := {
  summary_mac : ocMAC entry = key;
  summary_first : from_option snd 0 (head seen) = ocFirstSeen entry;
  summary_last : exists ip, last seen = Some (ip, ocVLAN entry, ocLastSeen entry);
  summary_expires : ocExpireAt entry = ocLastSeen entry + observedClientTTL;
  summary_frames : ocFrames entry = uint64 (Z.of_nat (length seen));
  summary_address : bestClaim (seen.*1.*1) (ocIP entry);
  summary_claims : Forall (fun ip => ip = [] \/ isIP ip) (seen.*1.*1)
}.

Definition summarized (key : string) (t : observedClientTable) (seen : list sighting) : Prop :=
  match t !! key with Some entry => seen <> [] /\ summarizes key seen entry | None => seen = [] end.

Lemma best_next claims shown ip :
  Forall (fun ip => ip = [] \/ isIP ip) claims -> bestClaim claims shown -> ip = [] \/ isIP ip ->
  bestClaim (claims ++ [ip]) (if negb (bool_decide (ip = [])) && (rankValue (rankOf (netParseIP shown)) <=? rankValue (rankOf ip)) then ipString ip else shown).
Proof.
  intros Hall Hbest Hip. destruct (decide (ip = [])) as [->|Hne].
  - cbn [negb bool_decide]. rewrite (bool_decide_eq_true_2 ([] = [])) by done. cbn [negb andb].
    destruct Hbest as [[-> Hn]|(before & best & after & -> & Hb & -> & H1 & H2)].
    + left. split; [done|]. apply Forall_app. by split; [|apply Forall_singleton].
    + right. exists before, best, (after ++ [[]]). split_and!; [by rewrite <- app_assoc|done..|]. apply Forall_app. split; [done|]. apply Forall_singleton. by left.
  - rewrite bool_decide_eq_false_2 by done. cbn [negb andb]. destruct Hbest as [[-> Hn]|(before & best & after & -> & Hb & -> & H1 & H2)].
    + assert (rankValue (rankOf (netParseIP "")) <=? rankValue (rankOf ip) = true) as -> by (apply Z.leb_le; cbn; destruct (rankOf ip); cbn; lia).
      right. exists claims, ip, []. split_and!; [done|done|done| |constructor]. eapply Forall_impl; [exact Hn|]. intros x ->. cbn. destruct (rankOf ip); cbn; lia.
    + assert (isIP best) as Hbi.
      { apply Forall_app in Hall as [_ [[->|Hbi] _]%Forall_cons]; done. }
      rewrite rank_printed by done. right. destruct (Z.leb_spec (rankValue (rankOf best)) (rankValue (rankOf ip))) as [Hle|Hlt].
      * exists (before ++ best :: after), ip, []. split_and!; [done|done|done| |constructor]. apply Forall_app. split.
        -- eapply Forall_impl; [exact H1|]. cbn. intros x Hx. lia.
        -- apply Forall_cons. split; [done|]. eapply Forall_impl; [exact H2|]. intros x [->|Hx]; [cbn; destruct (rankOf ip); cbn; lia|lia].
      * exists before, best, (after ++ [ip]). split_and!; [by rewrite <- app_assoc|done|done|done|]. apply Forall_app. split; [done|]. apply Forall_singleton. by right.
Qed.

Lemma observe_other mac ip vlan now t key : macString mac <> key -> observe mac ip vlan now t !! key = t !! key.
Proof. intros Hne. unfold observe. cbv zeta. by rewrite lookup_insert_ne. Qed.

Lemma summarized_step key t seen ev :
  (match ev with SeenFrame _ ip _ _ => ip = [] \/ isIP ip | _ => True end) ->
  summarized key t seen -> summarized key (tableStep t ev) (historyStep key seen ev).
Proof.
  intros Hev. unfold summarized. destruct ev as [mac ip vlan now|now|]; cbn [tableStep historyStep]; [| |done].
  - destruct (decide (macString mac = key)) as [Hk|Hk]; [|by rewrite observe_other, bool_decide_eq_false_2].
    rewrite (bool_decide_eq_true_2 (macString mac = key)) by done. unfold observe. rewrite Hk, lookup_insert_eq. intros Ht. split; [by destruct seen|].
    set (base := default _ (t !! key)).
    assert (ocMAC base = key /\ ocFirstSeen base = from_option snd now (head seen) /\ ocFrames base = uint64 (Z.of_nat (length seen)) /\
      bestClaim (seen.*1.*1) (ocIP base) /\ Forall (fun ip => ip = [] \/ isIP ip) (seen.*1.*1)) as (B1 & B2 & B3 & B4 & B5).
    { subst base. destruct (t !! key) as [entry|]; cbn [default from_option id].
      - destruct Ht as [Hne [H1 H2 [x Hx] H4 H5 H6 H7]]. split_and!; [done| |done|done|done]. rewrite <- H2. by destruct seen.
      - subst seen. split_and!; [done|done|done|left; by split|constructor]. }
    pose proof (best_next _ _ ip B5 B4 Hev) as Hbest. cbn [setf ocIP].
    split; try (destruct (negb _ && _); done).
    + assert (from_option snd 0 (head (seen ++ [(ip, vlan, now)])) = ocFirstSeen base) as -> by (rewrite B2; by destruct seen).
      by destruct (negb _ && _).
    + exists ip. rewrite last_snoc. by destruct (negb _ && _).
    + rewrite length_app, Nat2Z.inj_add. change (Z.of_nat (length [(ip, vlan, now)])) with 1.
      assert (uint64 (uint64 (Z.of_nat (length seen)) + 1) = uint64 (Z.of_nat (length seen) + 1)) as <- by (unfold uint64; by rewrite Zplus_mod_idemp_l).
      rewrite <- B3. by destruct (negb _ && _).
    + rewrite !fmap_app. change ([(ip, vlan, now)].*1.*1) with [ip]. by destruct (negb _ && _).
    + rewrite !fmap_app. apply Forall_app. split; [done|]. by apply Forall_singleton.
  - unfold cleanupExpired. rewrite map_lookup_filter. destruct (t !! key) as [entry|]; cbn [mbind option_bind].
    + intros [Hne Hs]. destruct Hs as [H1 H2 [x Hx] H4 H5 H6 H7].
      assert (List.last seen ([], 0, now) = (x, ocVLAN entry, ocLastSeen entry)) as ->.
      { apply last_Some in Hx as [l ->]. by rewrite List.last_last. }
      rewrite <- H4. destruct (Z.ltb_spec (ocExpireAt entry) now) as [Hlt|Hge].
      * rewrite option_guard_False; [done|]. cbn. tauto.
      * rewrite option_guard_True by (cbn; lia). split; [done|]. split; try done. by exists x.
    + intros ->. cbn [List.last]. by destruct (_ <? _).
Qed.

(** C34. Whatever frames come, time out and are reset, the table holds exactly
    the clients with a frame since they were last dropped, and an entry tells
    the first and the last of these frames, how many there were, and the last
    of the best addresses they claimed: IPv4 before routable IPv6 before
    link-local, an address never giving way to a worse one. *)
Theorem client_summary key events :
  Forall (fun ev => match ev with SeenFrame _ ip _ _ => ip = [] \/ isIP ip | _ => True end) events ->
  summarized key (foldl tableStep ∅ events) (history key events).
Proof.
  intros H. unfold history. assert (summarized key ∅ []) as H0 by done. revert H0. generalize (∅ : observedClientTable) as t, (@nil sighting) as seen.
  induction H as [|ev events Hev _ IH]; intros t seen H0; [done|]. cbn [foldl]. apply IH. by apply summarized_step.
Qed.

(** ** Ports and cables *)

(** Administrative state, carrier and operational state of a port, if the
    device has live state and the interface. *)
Definition portLink (device : nat) (name : string) (r : fabricRuntime) : option (bool * bool * bool) :=
  states ← frDeviceStates r;
  store ← states !! device;
  '(_, iface) ← list_find (fun iface : DeviceTypes.Interface => ifName iface = name) (runningInterfaces store);
  Some (ifAdminUp iface, ifCarrierUp iface, ifOperUp iface).

Definition withCable (carrier : bool) (link : bool * bool * bool) : bool * bool * bool :=
  let '(admin, _, _) := link in (admin, carrier, admin && carrier).

Definition plug (carrier : bool) (iface : DeviceTypes.Interface) : DeviceTypes.Interface :=
  iface <| ifCarrierUp := carrier |> <| ifOperUp := ifAdminUp iface && carrier |>.

Lemma cable_running name carrier s :
  runningInterfaces (UpdateInterface name (cableUpdate carrier) s).1 =
  match list_find (fun iface : DeviceTypes.Interface => ifName iface = name) (runningInterfaces s) with
  | Some (i, iface) => <[i := plug carrier iface]> (runningInterfaces s)
  | None => runningInterfaces s
  end.
Proof.
  unfold UpdateInterface, readInterface. destruct (list_find _ _) as [[i iface]|] eqn:E; cbn [fmap option_fmap option_map]; [|done].
  unfold commitInterface, cableUpdate. rewrite cloneInterface_id. rewrite bool_decide_eq_true_2 by done. rewrite Z.eqb_refl. cbn [negb].
  unfold runningInterfaces. cbn [fst]. rewrite (sd_running _ _ (interfaceEvent_same _ _ _ _)). rewrite !cloneInterface_id.
  unfold bumpVersion. cbn [setf running cfNetwork]. by destruct (_ || _ || _).
Qed.

Lemma find_plugged name other i iface carrier l :
  list_find (fun iface : DeviceTypes.Interface => ifName iface = name) l = Some (i, iface) ->
  list_find (fun iface : DeviceTypes.Interface => ifName iface = other) (<[i := plug carrier iface]> l) =
  if bool_decide (other = name) then Some (i, plug carrier iface) else list_find (fun iface : DeviceTypes.Interface => ifName iface = other) l.
Proof.
  revert i. induction l as [|x l IH]; intros i; [done|]. cbn [list_find]. destruct (decide (ifName x = name)) as [Hx|Hx].
  - intros [= <- <-]. cbn [list_find insert list_insert]. change (ifName (plug carrier x)) with (ifName x). rewrite Hx.
    destruct (decide (other = name)) as [->|Hne].
    + rewrite bool_decide_eq_true_2 by done. by rewrite decide_True.
    + rewrite bool_decide_eq_false_2 by done. by rewrite !decide_False by congruence.
  - destruct (list_find _ l) as [[j y]|] eqn:E; [|done]. intros [= <- ->]. specialize (IH j eq_refl).
    change (<[S j := plug carrier iface]> (x :: l)) with (x :: <[j := plug carrier iface]> l). cbn [list_find]. rewrite IH.
    destruct (decide (ifName x = other)) as [Ho|Ho]; [by rewrite bool_decide_eq_false_2 by congruence|]. by case_bool_decide.
Qed.

(** A cable sets the one port it is plugged into, and no other. *)
Lemma portLink_cable authored d name plugged r d' name' :
  portLink d' name' (setPoolPortCable authored d name plugged r) =
  if bool_decide (d' = d /\ name' = name) then withCable (plugged || statusUp (authored d name)) <$> portLink d name r else portLink d' name' r.
Proof.
  unfold portLink, setPoolPortCable. destruct (frDeviceStates r) as [states|] eqn:Hs; cbn [mbind option_bind]; [|rewrite Hs; by case_bool_decide].
  destruct (states !! d) as [store|] eqn:Hd; cbn [mbind option_bind].
  2: { rewrite Hs. cbn [mbind option_bind]. case_bool_decide as E; [|done]. destruct E as [-> ->]. by rewrite Hd. }
  cbn [setf frDeviceStates mbind option_bind]. destruct (decide (d' = d)) as [->|Hne].
  - rewrite lookup_insert_eq. cbn [mbind option_bind]. rewrite cable_running.
    destruct (list_find (fun iface : DeviceTypes.Interface => ifName iface = name) (runningInterfaces store)) as [[i iface]|] eqn:E.
    + rewrite (find_plugged _ name' _ _ _ _ E). destruct (decide (name' = name)) as [->|Hn].
      * by rewrite !bool_decide_eq_true_2.
      * rewrite !bool_decide_eq_false_2 by tauto. by rewrite Hd.
    + case_bool_decide as Hb; [destruct Hb as [_ ->]; by rewrite E|]. by rewrite Hd.
  - rewrite lookup_insert_ne by done. by rewrite bool_decide_eq_false_2 by tauto.
Qed.

(** The port a client is assigned comes up unless it is shut down, and every
    other port stays as it was. *)
Theorem plugged_port_up authored mac s r placement placement' port device :
  ckFabric s = Some r -> frPlacement r = Some placement ->
  assign (macString mac) (portAdminUp r) placement = (placement', Some port) -> frDevicesByName r !! atDevice port = Some device ->
  exists r', ckFabric (placeObservedClient authored mac s) = Some r' /\
    frPlacement r' = Some placement' /\
    (forall d name, portLink d name r' =
      if bool_decide (d = device /\ name = atInterface port) then withCable true <$> portLink device (atInterface port) r else portLink d name r) /\
    ckBridge (placeObservedClient authored mac s) = ckBridge s ++ [PlaceLearned device mac (atInterface port) (atVLAN port)].
Proof.
  intros Hr Hp Ha Hd. unfold placeObservedClient. rewrite Hr, Hp, Ha. cbn [setf frDevicesByName]. rewrite Hd. eexists. split_and!; [done| | |done].
  - unfold setPoolPortCable. cbn [setf frDeviceStates]. destruct (frDeviceStates r) as [states|]; [|done]. by destruct (states !! device).
  - intros d name. rewrite portLink_cable. done.
Qed.

Lemma portLink_unplugged authored d name (devices : gmap string nat) ports r :
  portLink d name (foldl (fun r port => match devices !! atDevice port with
                                        | Some device => setPoolPortCable authored device (atInterface port) false r
                                        | None => r end) r ports) =
  if bool_decide (Exists (fun port => devices !! atDevice port = Some d /\ atInterface port = name) ports)
  then withCable (statusUp (authored d name)) <$> portLink d name r else portLink d name r.
Proof.
  assert (forall c (l : option (bool * bool * bool)), withCable c <$> (withCable c <$> l) = withCable c <$> l) as Hidem.
  { intros c [[[? ?] ?]|]; done. }
  revert r. induction ports as [|port ports IH]; intros r; cbn [foldl].
  - rewrite bool_decide_eq_false_2 by (rewrite Exists_nil; tauto). done.
  - rewrite IH. rewrite (bool_decide_ext (Exists _ (port :: ports)) _ (Exists_cons _ _ _)).
    destruct (devices !! atDevice port) as [device|].
    + rewrite portLink_cable. cbn [orb]. destruct (decide (d = device /\ name = atInterface port)) as [[-> ->]|Hne].
      * rewrite (bool_decide_eq_true_2 (device = device /\ _)) by done. rewrite Hidem.
        rewrite (bool_decide_eq_true_2 (_ \/ _)) by (left; done). by destruct (bool_decide _).
      * rewrite (bool_decide_eq_false_2 (d = device /\ _)) by done.
        erewrite bool_decide_ext; [reflexivity|]. split; [by right|]. intros [[[= ->] <-]|?]; [|done]. by destruct Hne.
    + erewrite bool_decide_ext; [reflexivity|]. split; [by right|]. by intros [[? _]|?].
Qed.

(** Unplugging every client gives the ports they were on the carrier they were
    authored with, and leaves the other ports alone. *)
Theorem unplugged_as_authored authored d name r placement :
  frPlacement r = Some placement ->
  frPlacement (unplugPoolClients authored r) = Some (Placement.reset placement).1 /\
  portLink d name (unplugPoolClients authored r) =
  if bool_decide (Exists (fun port => frDevicesByName r !! atDevice port = Some d /\ atInterface port = name) (Placement.reset placement).2)
  then withCable (statusUp (authored d name)) <$> portLink d name r else portLink d name r.
Proof.
  intros Hp. unfold unplugPoolClients. rewrite Hp. destruct (Placement.reset placement) as [placement' ports]. cbn [fst snd].
  set (r0 := r <| frPlacement := Some placement' |>).
  match goal with |- context [foldl ?f r0 ports] => assert (forall l x, frDevicesByName x = frDevicesByName r0 -> frPlacement (foldl f x l) = frPlacement x /\
    foldl f x l = foldl (fun r port => match frDevicesByName r0 !! atDevice port with
                                       | Some device => setPoolPortCable authored device (atInterface port) false r
                                       | None => r end) x l) as Hfold end.
  { assert (forall device n b x, frDevicesByName (setPoolPortCable authored device n b x) = frDevicesByName x /\
      frPlacement (setPoolPortCable authored device n b x) = frPlacement x) as Hset.
    { intros device n b x. unfold setPoolPortCable. destruct (frDeviceStates x) as [states|]; [|done]. by destruct (states !! device). }
    induction l as [|port l IH]; intros x Hx; [done|]. cbn [foldl]. rewrite Hx. destruct (frDevicesByName r0 !! atDevice port) as [device|]; [|by apply IH].
    destruct (Hset device (atInterface port) false x) as [E1 E2]. destruct (IH (setPoolPortCable authored device (atInterface port) false x)) as [H1 H2]; [congruence|].
    rewrite H2. split; [by rewrite <- H2, H1|done]. }
  destruct (Hfold ports r0 eq_refl) as [H1 H2]. split; [exact H1|]. rewrite H2. apply (portLink_unplugged authored d name (frDevicesByName r0) ports r0).
Qed.

(** A client that is moved takes its cable along: the port it leaves falls back
    to its authored carrier, the port it gets comes up, no other changes. *)
Theorem repin_moves_cable authored attachments mac s s' r placement placement' move from old new attachment :
  ckFabric s = Some r -> frPlacement r = Some placement ->
  List.find (fun attachment => bool_decide (caName attachment = bnAttachment (cbBinding (frBinding r)))) attachments = Some attachment ->
  repin (caPins attachment) (macString mac) (portAdminUp r) placement = (placement', inl move) ->
  mvFrom move = Some from -> from <> mvTo move ->
  frDevicesByName r !! atDevice from = Some old -> frDevicesByName r !! atDevice (mvTo move) = Some new ->
  (old, atInterface from) <> (new, atInterface (mvTo move)) ->
  RepinAttachedClient authored attachments mac s = (s', None) ->
  exists r', ckFabric s' = Some r' /\ forall d name, portLink d name r' =
    if bool_decide ((d, name) = (new, atInterface (mvTo move))) then withCable true <$> portLink d name r
    else if bool_decide ((d, name) = (old, atInterface from)) then withCable (statusUp (authored d name)) <$> portLink d name r
    else portLink d name r.
Proof.
  intros Hr Hp Hf Hrepin Hfrom Hne Hold Hnew Hdiff. unfold RepinAttachedClient. rewrite Hr, Hp, Hf, Hrepin, Hfrom.
  rewrite bool_decide_eq_false_2 by done. cbn [setf frDevicesByName]. rewrite Hold, Hnew. cbv zeta beta.
  intros [= <-]. eexists. split; [done|]. intros d name. rewrite !portLink_cable. cbn [orb].
  assert (forall (a c : nat) (b e : string), (a, b) = (c, e) <-> a = c /\ b = e) as Hpair by (intros; split; [intros [= -> ->]; done|intros [-> ->]; done]).
  rewrite (bool_decide_ext _ _ (Hpair d new name (atInterface (mvTo move)))). rewrite (bool_decide_ext _ _ (Hpair d old name (atInterface from))).
  destruct (decide (d = new /\ name = atInterface (mvTo move))) as [[-> ->]|Hn1].
  - rewrite !(bool_decide_eq_true_2 (new = new /\ _)) by done. rewrite bool_decide_eq_false_2; [done|]. intros [-> E]. apply Hdiff. by rewrite E.
  - rewrite !(bool_decide_eq_false_2 (d = new /\ _)) by done. destruct (decide (d = old /\ name = atInterface from)) as [[-> ->]|Hn2].
    + by rewrite !(bool_decide_eq_true_2 (old = old /\ _)).
    + by rewrite !(bool_decide_eq_false_2 (d = old /\ _)).
Qed.

(** A client with a link-local address, then with an IPv4 address, and silent
    for longer than its entry lives before its last frame. *)
Definition testEvents : list tableEvent :=
  let mac := [2; 0; 0; 0; 0; 7] in
  let linkLocal := [254; 128; 0; 0; 0; 0; 0; 0; 0; 0; 0; 0; 0; 0; 0; 1] in
  [SeenFrame mac linkLocal 10 1; CleanedUp 400000000000; SeenFrame mac [] 10 400000000001; SeenFrame mac [10; 0; 0; 9] 10 400000000002].

Lemma client_summary_witness :
  Forall (fun ev => match ev with SeenFrame _ ip _ _ => ip = [] \/ isIP ip | _ => True end) testEvents /\
  summarized "02:00:00:00:00:07" (foldl tableStep ∅ testEvents) (history "02:00:00:00:00:07" testEvents) /\
  history "02:00:00:00:00:07" testEvents = [([], 10, 400000000001); ([10; 0; 0; 9], 10, 400000000002)].
Proof.
  assert (Forall (fun ev => match ev with SeenFrame _ ip _ _ => ip = [] \/ isIP ip | _ => True end) testEvents) as H.
  { apply Forall_cons; split; [right; split; [repeat constructor; unfold isByte; lia|by right]|].
    apply Forall_cons; split; [done|]. apply Forall_cons; split; [by left|].
    apply Forall_cons; split; [right; split; [repeat constructor; unfold isByte; lia|by left]|constructor]. }
  split_and!; [exact H|exact (client_summary _ _ H)|vm_compute; reflexivity].
Defined.
