(* ===== verification/LiveIndex.v ===== *)
(** * The live state of a device and the index of its addresses

    [protocols/stack_device_state.go] and the address choice of
    [config/interface_address.go]: the network a device starts with, authored
    or compiled, and the index by which a packet finds the devices that hold
    an IPv4 address now.  The index follows the devices' stores: each change
    of a store calls [indexDeviceIPv4] with its network, which holds the lock
    of the index for the whole update.

    A device is its number, a table of devices is [None] in flat mode and the
    tag of its segment otherwise. *)

From S2P Require Import Prelude.
From S2P Require Import Netip.
From S2P Require Import NetipParse.
From S2P Require Import Bytes.
From S2P Require Import Text.
From S2P Require Import Dhcp.
From S2P Require Import FabricTypes.
From S2P Require Import DeviceTypes.
From S2P Require Import DeviceTable.
From S2P Require Import Clients.

(** ** What a device starts with *)

(** What is read of an authored interface, route and device. *)
Record authoredInterface := mkAuthored {
  aiName : string; aiNetwork : string; aiAddress : string; aiDescription : string; aiVLANs : list Z; aiAdminStatus : string; aiOperStatus : string
}.
Record stateDevice := mkStateDevice {
  sdName : string; sdInterfaces : list authoredInterface; sdIPAddresses : list IP; sdRoutes : list config.Route
}.

Definition InterfaceZero : authoredInterface := mkAuthored "" "" "" "" [] "" "".

(** The address is authored on the interface, or by position among those of
    the device. *)
Definition DeviceInterfaceAddress (device : stateDevice) (index : nat) : Prefix :=
  match sdInterfaces device !! index ≫= fun iface => ParsePrefix (TrimSpace (aiAddress iface)) with
  | Some prefix => prefix
  | None =>
      match sdIPAddresses device !! index with
      | None => PrefixZero
      | Some ip =>
          if bool_decide (AddrFromSlice ip = AddrZero) then PrefixZero
          else let address := Unmap (AddrFromSlice ip) in PrefixFrom address (BitLen address)
      end
  end.

Definition flatDeviceInterfaceState (authored : authoredInterface) (address : Prefix) : Interface :=
  let adminUp := statusUp (aiAdminStatus authored) in
  let carrierUp := statusUp (aiOperStatus authored) in
  mkInterface (aiName authored) (aiNetwork authored) address (aiDescription authored) (aiVLANs authored) adminUp (adminUp && carrierUp) carrierUp.

Definition parseFlatPrefix (value : string) : Prefix := default PrefixZero (ParsePrefix (TrimSpace value)).

Definition connectedRoute (address : Prefix) (via : string) : Route := mkRoute (Masked address) via AddrZero true.

(** An interface beyond the authored ones, for an address of the device. *)
Definition extraName (index : nat) : string := if bool_decide (index = 0%nat) then "Management" else "eth" +:+ pretty index.

Definition flatRoute (authored : config.Route) : option Route :=
  let destination := parseFlatPrefix (config.rtDestination authored) in
  if negb (PrefixIsValid destination) then None
  else Some (mkRoute destination (config.rtVia authored) (default AddrZero (ParseAddr (config.rtNextHop authored))) false).

Definition flatDeviceNetworkState (device : stateDevice) : Network :=
  let authored := imap (fun index iface => (iface, DeviceInterfaceAddress device index)) (sdInterfaces device) in
  let extra := omap (fun index =>
      let address := DeviceInterfaceAddress device index in
      if PrefixIsValid address then Some (mkAuthored (extraName index) "" "" "" [] "" "", address) else None)
    (seq (length (sdInterfaces device)) (length (sdIPAddresses device) - length (sdInterfaces device))) in
  let ports := authored ++ extra in
  mkNetwork ((fun '(iface, address) => flatDeviceInterfaceState iface address) <$> ports)
    (omap (fun '(iface, address) => if PrefixIsValid address then Some (connectedRoute address (aiName iface)) else None) ports ++
     omap flatRoute (sdRoutes device)) [] [].

Definition deviceInterfaceState (compiled : FabricTypes.Interface) (authored : authoredInterface) : Interface :=
  let adminUp := statusUp (aiAdminStatus authored) in
  let carrierUp := statusUp (aiOperStatus authored) in
  mkInterface (itName compiled) (itNetwork compiled) (itAddress compiled) (aiDescription authored) (aiVLANs authored) adminUp (adminUp && carrierUp) carrierUp.

Definition findConfigInterface (device : stateDevice) (name : string) : authoredInterface :=
  default InterfaceZero (List.find (fun iface => bool_decide (aiName iface = name)) (sdInterfaces device)).

(** The compiled ports of the device, then the authored ports left over. *)
Definition compiledPorts (compiled : list FabricTypes.Interface) (device : stateDevice) : list FabricTypes.Interface :=
  filter (fun iface => itDevice iface = sdName device) compiled.

Fixpoint leftoverPorts (device : stateDevice) (seen : list string) (authored : list authoredInterface) : list Interface :=
  match authored with
  | [] => []
  | iface :: authored =>
      if bool_decide (aiName iface ∈ seen) then leftoverPorts device seen authored
      else deviceInterfaceState (FabricTypes.mkInterface (sdName device) (aiName iface) "" PrefixZero PrefixZero) iface
           :: leftoverPorts device (aiName iface :: seen) authored
  end.

Definition deviceInterfaceStates (compiled : list FabricTypes.Interface) (device : stateDevice) : list Interface :=
  let ports := compiledPorts compiled device in
  ((fun iface => deviceInterfaceState iface (findConfigInterface device (itName iface))) <$> ports) ++
  leftoverPorts device (itName <$> ports) (sdInterfaces device).

Definition deviceRouteStates (compiled : list FabricTypes.Route) (device : string) : list Route :=
  omap (fun route =>
    if bool_decide (roDevice route = device) && Is4 (pfxAddr (roDestination route))
    then Some (mkRoute (roDestination route) (roVia route) (roNextHop route) (roConnected route)) else None) compiled.

Definition deviceNetworkState (topology : Topology) (device : stateDevice) : Network :=
  mkNetwork (deviceInterfaceStates (tyInterfaces topology) device) (deviceRouteStates (tyRoutes topology) (sdName device)) [] [].

(** ** The index *)

Definition tableID : Type := option Z.

Record deviceIPv4Index := mkIPv4Index { diTable : tableID; diAddresses : list Addr }.

Record stateIndex := mkStateIndex {
  siIPv4 : gmap tableID (gmap Addr (list nat));
  siDevices : gmap nat deviceIPv4Index
}.

Definition emptyIndex : stateIndex := mkStateIndex ∅ ∅.

(** The addresses of the interfaces that are up, each once. *)
Definition liveAddresses (network : Network) : list Addr :=
  foldl (fun addresses iface =>
    if PrefixIsValid (ifAddress iface) && ifAdminUp iface && ifOperUp iface then
      let address := Unmap (pfxAddr (ifAddress iface)) in
      if bool_decide (address ∈ addresses) then addresses else addresses ++ [address]
    else addresses) [] (nwInterfaces network).

(** An address nobody holds any more is dropped. *)
Definition dropHolder (device : nat) (byAddress : gmap Addr (list nat)) (address : Addr) : gmap Addr (list nat) :=
  if negb (Is4 address) then byAddress
  else match filter (fun candidate => candidate <> device) (default [] (byAddress !! address)) with
       | [] => delete address byAddress
       | matches => <[address := matches]> byAddress
       end.

Definition addHolder (device : nat) (byAddress : gmap Addr (list nat)) (address : Addr) : gmap Addr (list nat) :=
  if negb (Is4 address) then byAddress else <[address := default [] (byAddress !! address) ++ [device]]> byAddress.

Definition indexDeviceIPv4 (table : tableID) (device : nat) (network : Network) (s : stateIndex) : stateIndex :=
  let addresses := liveAddresses network in
  let byTable :=
    match siDevices s !! device with
    | None => siIPv4 s
    | Some previous => alter (fun byAddress => foldl (dropHolder device) byAddress (diAddresses previous)) (diTable previous) (siIPv4 s)
    end in
  mkStateIndex (<[table := foldl (addHolder device) (default ∅ (byTable !! table)) addresses]> byTable)
    (<[device := mkIPv4Index table addresses]> (siDevices s)).

(** A table that is indexed answers for itself; before that the authored
    addresses count. *)
Definition devicesForStateIPv4 (table : option tableID) (authored : tableID -> IP -> list nat) (ip : IP) (s : stateIndex) : list nat :=
  let address := AddrFromSlice ip in
  if bool_decide (address = AddrZero) || negb (Is4 (Unmap address)) then []
  else match table with
       | None => []
       | Some table =>
           match siIPv4 s !! table with
           | Some byAddress => default [] (byAddress !! Unmap address)
           | None => authored table ip
           end
       end.

Definition stateDeviceOwnsIPv4 (device : nat) (address : Addr) (s : stateIndex) : bool * bool :=
  match siDevices s !! device with
  | Some indexed => (bool_decide (address ∈ diAddresses indexed), true)
  | None => (false, false)
  end.

Definition firstIPv4Address (addresses : list IP) : IP :=
  from_option To4 [] (List.find (fun ip => negb (bool_decide (To4 ip = []))) addresses).

(** The second argument is what the device was authored with; nil is empty. *)
Definition firstStateIPv4Address (device : nat) (authored : list IP) (s : stateIndex) : IP :=
  match siDevices s !! device with
  | Some indexed => from_option AsSlice [] (List.find Is4 (diAddresses indexed))
  | None => firstIPv4Address authored
  end.

Definition firstStateIPAddress (device : nat) (authored : list IP) (s : stateIndex) : IP :=
  match siDevices s !! device with
  | Some indexed => from_option AsSlice [] (head (diAddresses indexed))
  | None => from_option id [] (head authored)
  end.

(** ** The index mirrors the stores *)

Lemma liveAddresses_spec network a :
  a ∈ liveAddresses network <->
  exists iface, iface ∈ nwInterfaces network /\ PrefixIsValid (ifAddress iface) = true /\ ifAdminUp iface = true /\ ifOperUp iface = true /\
    Unmap (pfxAddr (ifAddress iface)) = a.
Proof.
  unfold liveAddresses. assert (forall l acc, a ∈ foldl (fun addresses iface =>
    if PrefixIsValid (ifAddress iface) && ifAdminUp iface && ifOperUp iface then
      let address := Unmap (pfxAddr (ifAddress iface)) in
      if bool_decide (address ∈ addresses) then addresses else addresses ++ [address]
    else addresses) acc l <-> a ∈ acc \/ exists iface, iface ∈ l /\ PrefixIsValid (ifAddress iface) = true /\ ifAdminUp iface = true /\
      ifOperUp iface = true /\ Unmap (pfxAddr (ifAddress iface)) = a) as H.
  { induction l as [|iface l IH]; intros acc; cbn [foldl].
    - split; [by left|]. intros [?|(x & Hx & _)]; [done|by apply elem_of_nil in Hx].
    - rewrite IH. clear IH. destruct (PrefixIsValid (ifAddress iface) && ifAdminUp iface && ifOperUp iface) eqn:E.
      + rewrite !andb_true_iff in E. destruct E as [[? ?] ?]. cbv zeta. case_bool_decide as Hin.
        * split; [intros [?|(x & ? & ?)]; [by left|right; exists x; set_solver]|].
          intros [?|(x & [->|Hx]%elem_of_cons & ? & ? & ? & <-)]; [by left|by left|right; eauto 7].
        * rewrite elem_of_app, list_elem_of_singleton. split.
          -- intros [[?| ->]|(x & ? & ?)]; [by left|right; exists iface; set_solver|right; exists x; set_solver].
          -- intros [?|(x & [->|Hx]%elem_of_cons & ? & ? & ? & <-)]; [by left; left|by left; right|right; eauto 7].
      + split; [intros [?|(x & ? & ?)]; [by left|right; exists x; set_solver]|].
        intros [?|(x & [->|Hx]%elem_of_cons & H1 & H2 & H3 & H4)]; [by left|by rewrite H1, H2, H3 in E|right; eauto 7]. }
  rewrite H. split; [intros [Ha|?]; [by apply elem_of_nil in Ha|done]|by right].
Qed.

Lemma liveAddresses_nodup network : NoDup (liveAddresses network).
Proof.
  unfold liveAddresses. match goal with |- NoDup (foldl ?f _ _) => assert (forall l acc, NoDup acc -> NoDup (foldl f acc l)) as H end; [|apply H; constructor].
  induction l as [|iface l IH]; intros acc H; [done|]. cbn [foldl]. apply IH. destruct (_ && _ && _); [|done].
  cbv zeta. case_bool_decide as Hin; [done|]. apply NoDup_app. split; [done|]. split; [set_solver|apply NoDup_singleton].
Qed.

Definition holdersIn (byAddress : gmap Addr (list nat)) (a : Addr) : list nat := default [] (byAddress !! a).

Lemma dropHolder_in device a byAddress address :
  holdersIn (dropHolder device byAddress address) a =
  if bool_decide (a = address) && Is4 a then filter (fun candidate => candidate <> device) (holdersIn byAddress a) else holdersIn byAddress a.
Proof.
  unfold dropHolder, holdersIn. destruct (Is4 address) eqn:E4; cbn [negb].
  - destruct (decide (a = address)) as [->|Hne].
    + rewrite bool_decide_eq_true_2, E4 by done. cbn [andb]. destruct (filter _ (default [] (byAddress !! address))) as [|x l] eqn:Ef.
      * by rewrite lookup_delete_eq.
      * by rewrite lookup_insert_eq.
    + rewrite bool_decide_eq_false_2 by done. cbn [andb]. by destruct (filter _ _); rewrite ?lookup_delete_ne, ?lookup_insert_ne.
  - destruct (decide (a = address)) as [->|Hne]; [by rewrite E4, andb_false_r|by rewrite bool_decide_eq_false_2].
Qed.

Lemma drop_holders device a addresses byAddress :
  holdersIn (foldl (dropHolder device) byAddress addresses) a =
  if bool_decide (a ∈ addresses) && Is4 a then filter (fun candidate => candidate <> device) (holdersIn byAddress a) else holdersIn byAddress a.
Proof.
  revert byAddress. induction addresses as [|x l IH]; intros m; cbn [foldl]; [by rewrite bool_decide_eq_false_2 by apply not_elem_of_nil|].
  rewrite IH, dropHolder_in. destruct (Is4 a); [rewrite !andb_true_r|by rewrite !andb_false_r].
  destruct (decide (a = x)) as [->|Hne].
  - rewrite (bool_decide_eq_true_2 (x = x)), (bool_decide_eq_true_2 (x ∈ x :: l)) by set_solver.
    destruct (bool_decide (x ∈ l)); [|done]. by rewrite list_filter_filter_l by done.
  - rewrite (bool_decide_eq_false_2 (a = x)) by done. by rewrite (bool_decide_ext (a ∈ x :: l) (a ∈ l)) by set_solver.
Qed.

Lemma add_holders device a addresses byAddress :
  NoDup addresses ->
  holdersIn (foldl (addHolder device) byAddress addresses) a =
  if bool_decide (a ∈ addresses) && Is4 a then holdersIn byAddress a ++ [device] else holdersIn byAddress a.
Proof.
  intros Hn. revert byAddress. induction Hn as [|x l Hx Hn IH]; intros m; cbn [foldl]; [by rewrite bool_decide_eq_false_2 by apply not_elem_of_nil|].
  rewrite IH. assert (holdersIn (addHolder device m x) a = if bool_decide (a = x) && Is4 a then holdersIn m a ++ [device] else holdersIn m a) as ->.
  { unfold addHolder, holdersIn. destruct (Is4 x) eqn:E4; cbn [negb].
    - destruct (decide (a = x)) as [->|Hne]; [by rewrite lookup_insert_eq, bool_decide_eq_true_2, E4|by rewrite lookup_insert_ne, bool_decide_eq_false_2].
    - destruct (decide (a = x)) as [->|Hne]; [by rewrite E4, andb_false_r|by rewrite bool_decide_eq_false_2]. }
  destruct (Is4 a); [rewrite !andb_true_r|by rewrite !andb_false_r]. destruct (decide (a = x)) as [->|Hne].
  - by rewrite (bool_decide_eq_true_2 (x = x)), (bool_decide_eq_true_2 (x ∈ x :: l)), (bool_decide_eq_false_2 (x ∈ l)) by set_solver.
  - rewrite (bool_decide_eq_false_2 (a = x)) by done. by rewrite (bool_decide_ext (a ∈ x :: l) (a ∈ l)) by set_solver.
Qed.

(** Who holds an address in a table. *)
Definition holders (s : stateIndex) (table : tableID) (a : Addr) : list nat := holdersIn (default ∅ (siIPv4 s !! table)) a.

Record indexed (s : stateIndex) : Prop := {
  ix_holders : forall table a d, Is4 a = true -> d ∈ holders s table a <-> exists addresses, siDevices s !! d = Some (mkIPv4Index table addresses) /\ a ∈ addresses;
  ix_once : forall table a, NoDup (holders s table a);
  ix_table : forall d i, siDevices s !! d = Some i -> is_Some (siIPv4 s !! diTable i)
}.

Lemma indexed_step table device network s :
  indexed s -> indexed (indexDeviceIPv4 table device network s).
Proof.
  intros [H1 H2 H3]. set (byTable := match siDevices s !! device with None => siIPv4 s | Some previous =>
    alter (fun byAddress => foldl (dropHolder device) byAddress (diAddresses previous)) (diTable previous) (siIPv4 s) end).
  assert (forall t a, Is4 a = true -> holdersIn (default ∅ (byTable !! t)) a = filter (fun candidate => candidate <> device) (holders s t a)) as Hdrop.
  { intros t a H4. assert (forall l : list nat, device ∉ l -> filter (fun candidate => candidate <> device) l = l) as Hkeep.
    { intros l Hl. induction l as [|x l IH]; [done|]. rewrite filter_cons_True by set_solver. f_equal. apply IH. set_solver. }
    subst byTable. destruct (siDevices s !! device) as [[t0 addrs]|] eqn:Ed.
    - cbn [diTable diAddresses]. destruct (decide (t = t0)) as [->|Hne].
      + destruct (H3 _ _ Ed) as [m Hm]. cbn [diTable] in Hm. rewrite lookup_alter_eq. unfold holders. rewrite Hm. cbn [fmap option_fmap option_map default from_option id].
        rewrite drop_holders, H4, andb_true_r. case_bool_decide as Hin; [done|]. symmetry. apply Hkeep. intros Hd.
        assert (device ∈ holders s t0 a) as Hd' by (unfold holders; by rewrite Hm). apply H1 in Hd' as (x & Hx & Hax); [|done]. rewrite Ed in Hx. by injection Hx as <-.
      + rewrite lookup_alter_ne by done. symmetry. apply Hkeep. intros Hd. apply H1 in Hd as (x & Hx & _); [|done]. rewrite Ed in Hx. by injection Hx as <-.
    - symmetry. apply Hkeep. intros Hd. apply H1 in Hd as (x & Hx & _); [|done]. by rewrite Ed in Hx. }
  assert (forall t a, NoDup (holdersIn (default ∅ (byTable !! t)) a)) as Honce.
  { intros t a. subst byTable. destruct (siDevices s !! device) as [[t0 addrs]|]; [|apply H2]. cbn [diTable diAddresses].
    destruct (decide (t = t0)) as [->|Hne]; [|rewrite lookup_alter_ne by done; apply H2]. rewrite lookup_alter_eq.
    pose proof (H2 t0 a) as Hn. unfold holders in Hn. destruct (siIPv4 s !! t0) as [m|]; [|done]. cbn [fmap option_fmap option_map default from_option id] in *.
    rewrite drop_holders. destruct (_ && _); [by apply NoDup_filter|done]. }
  assert (forall t a, holders (indexDeviceIPv4 table device network s) t a =
    if bool_decide (t = table /\ a ∈ liveAddresses network) && Is4 a then holdersIn (default ∅ (byTable !! t)) a ++ [device] else holdersIn (default ∅ (byTable !! t)) a) as Hnew.
  { intros t a. unfold holders, indexDeviceIPv4. cbn [siIPv4]. fold byTable. destruct (decide (t = table)) as [->|Hne].
    - rewrite lookup_insert_eq. cbn [default from_option id]. rewrite add_holders by apply liveAddresses_nodup.
      by rewrite (bool_decide_ext (table = table /\ a ∈ liveAddresses network) (a ∈ liveAddresses network)) by tauto.
    - rewrite lookup_insert_ne by done. by rewrite bool_decide_eq_false_2 by tauto. }
  assert (forall t a, Is4 a = true -> device ∉ holdersIn (default ∅ (byTable !! t)) a) as Hgone.
  { intros t a H4. rewrite Hdrop by done. intros [Hx _]%list_elem_of_filter. done. }
  split.
  - intros t a d H4. rewrite Hnew, H4, andb_true_r. unfold indexDeviceIPv4. cbn [siDevices].
    assert (d <> device -> d ∈ holdersIn (default ∅ (byTable !! t)) a <-> d ∈ holders s t a) as Hother.
    { intros Hne. rewrite Hdrop by done. rewrite list_elem_of_filter. tauto. }
    destruct (decide (d = device)) as [->|Hne].
    + rewrite lookup_insert_eq. case_bool_decide as Hb.
      * destruct Hb as [-> Ha]. split; [eauto|set_solver].
      * split; [by intros Hx%Hgone|]. intros (x & [= <- <-] & Hx). tauto.
    + rewrite lookup_insert_ne by done. rewrite <- (H1 t a d H4), <- (Hother Hne). case_bool_decide; [|done]. set_solver.
  - intros t a. rewrite Hnew. destruct (bool_decide _ && Is4 a) eqn:E; [|apply Honce]. apply andb_true_iff in E as [_ H4].
    apply NoDup_app. split; [apply Honce|]. split; [|apply NoDup_singleton]. intros x Hx ->%list_elem_of_singleton. by apply (Hgone t a H4).
  - intros d i. unfold indexDeviceIPv4. cbn [siDevices siIPv4]. fold byTable.
    assert (forall t, is_Some (siIPv4 s !! t) -> is_Some (<[table := foldl (addHolder device) (default ∅ (byTable !! table)) (liveAddresses network)]> byTable !! t)) as Hsome.
    { intros t Ht. destruct (decide (t = table)) as [->|Hne]; [by rewrite lookup_insert_eq|]. rewrite lookup_insert_ne by done.
      subst byTable. destruct (siDevices s !! device) as [[t0 addrs]|]; [|done]. cbn [diTable diAddresses]. destruct (decide (t = t0)) as [->|Hne0];
        [rewrite lookup_alter_eq; by destruct Ht as [m ->]|by rewrite lookup_alter_ne]. }
    destruct (decide (d = device)) as [->|Hne]; [rewrite lookup_insert_eq; intros [= <-]; by rewrite lookup_insert_eq|].
    rewrite lookup_insert_ne by done. intros Hi. by apply Hsome, (H3 d).
Qed.

Lemma indexed_empty : indexed emptyIndex.
Proof.
  split.
  - intros table a d _. unfold holders, holdersIn, emptyIndex. cbn [siIPv4 siDevices]. rewrite !lookup_empty. cbn. split; [by intros Hx%elem_of_nil|by intros (? & ? & _)].
  - intros table a. unfold holders, holdersIn, emptyIndex. cbn [siIPv4]. rewrite lookup_empty. constructor.
  - by intros d i [=].
Qed.

(** One change of a device's store. *)
Definition update : Type := tableID * nat * Network.

Definition applyUpdate (s : stateIndex) (u : update) : stateIndex := let '(table, device, network) := u in indexDeviceIPv4 table device network s.

Definition lastUpdate (d : nat) (updates : list update) : option (tableID * Network) :=
  foldl (fun found '(table, device, network) => if bool_decide (device = d) then Some (table, network) else found) None updates.

Lemma updates_indexed updates :
  let s := foldl applyUpdate emptyIndex updates in
  indexed s /\ (forall d, siDevices s !! d = (fun '(table, network) => mkIPv4Index table (liveAddresses network)) <$> lastUpdate d updates) /\
  forall table, table ∈ updates.*1.*1 -> is_Some (siIPv4 s !! table).
Proof.
  induction updates as [|[[table device] network] updates IH] using rev_ind; cbv zeta.
  - split_and!; [apply indexed_empty|done|intros table H; by apply elem_of_nil in H].
  - cbv zeta in IH. unfold lastUpdate in *. setoid_rewrite foldl_app. cbn [foldl applyUpdate]. destruct IH as (H1 & H2 & H3).
    split_and!; [by apply indexed_step| |].
    + intros d. unfold indexDeviceIPv4. cbn [siDevices]. destruct (decide (device = d)) as [->|Hne].
      * by rewrite lookup_insert_eq, bool_decide_eq_true_2.
      * by rewrite lookup_insert_ne, bool_decide_eq_false_2, H2 by done.
    + intros t. rewrite !fmap_app. cbn. rewrite elem_of_app, list_elem_of_singleton. unfold indexDeviceIPv4. cbn [siIPv4].
      destruct (decide (t = table)) as [->|Hne]; [by rewrite lookup_insert_eq|]. rewrite lookup_insert_ne by done.
      intros [Ht| ->]; [|done]. apply H3 in Ht. destruct (siDevices _ !! device) as [i|]; [|done].
      destruct (decide (t = diTable i)) as [->|Hni]; [rewrite lookup_alter_eq; by destruct Ht as [m ->]|by rewrite lookup_alter_ne].
Qed.

(** C35. However the devices' networks change and move between tables, a table
    that was indexed answers for an IPv4 address with exactly the devices whose
    last network is in it and has the address on an interface that is up, each
    device once. *)
Theorem index_mirrors updates table ip authored :
  Is4 (Unmap (AddrFromSlice ip)) = true -> table ∈ updates.*1.*1 ->
  let found := devicesForStateIPv4 (Some table) authored ip (foldl applyUpdate emptyIndex updates) in
  NoDup found /\
  forall d, d ∈ found <-> exists network iface, lastUpdate d updates = Some (table, network) /\ iface ∈ nwInterfaces network /\
    PrefixIsValid (ifAddress iface) = true /\ ifAdminUp iface = true /\ ifOperUp iface = true /\
    Unmap (pfxAddr (ifAddress iface)) = Unmap (AddrFromSlice ip).
Proof.
  intros H4 Ht. destruct (updates_indexed updates) as (Hi & Hd & Htab). cbv zeta in *.
  set (s := foldl applyUpdate emptyIndex updates) in *.
  assert (devicesForStateIPv4 (Some table) authored ip s = holders s table (Unmap (AddrFromSlice ip))) as ->.
  { unfold devicesForStateIPv4, holders. rewrite H4. rewrite bool_decide_eq_false_2 by (intros E; by rewrite E in H4). cbn [negb orb].
    by destruct (Htab _ Ht) as [m ->]. }
  split; [apply (ix_once s Hi)|]. intros d. rewrite (ix_holders s Hi) by done. rewrite Hd. split.
  - intros (addresses & E & Ha). destruct (lastUpdate d updates) as [[t network]|]; [|done]. cbn in E. injection E as -> <-.
    apply liveAddresses_spec in Ha as (iface & Ha). by exists network, iface.
  - intros (network & iface & -> & Ha). eexists. split; [done|]. apply liveAddresses_spec. by exists iface.
Qed.

(** ** The ports of a compiled device *)

Lemma leftover_names device seen authored :
  NoDup (ifName <$> leftoverPorts device seen authored) /\
  forall name, name ∈ ifName <$> leftoverPorts device seen authored <-> name ∈ aiName <$> authored /\ name ∉ seen.
Proof.
  revert seen. induction authored as [|iface authored IH]; intros seen; cbn [leftoverPorts].
  - split; [constructor|]. cbn. set_solver.
  - case_bool_decide as Hin.
    + destruct (IH seen) as [H1 H2]. split; [done|]. intros name. rewrite H2. rewrite fmap_cons, elem_of_cons. set_solver.
    + destruct (IH (aiName iface :: seen)) as [H1 H2]. split.
      * rewrite fmap_cons. apply NoDup_cons. split; [|done]. cbn [deviceInterfaceState ifName itName]. rewrite H2. set_solver.
      * intros name. rewrite !fmap_cons. cbn [deviceInterfaceState ifName itName]. rewrite elem_of_cons, H2, !elem_of_cons. destruct (decide (name = aiName iface)) as [->|Hne]; set_solver.
Qed.

(** Every port a device authors is in its state, once, when the compiler gave
    it no port twice, and the compiled ports come first. *)
Theorem device_ports topology device :
  let ports := itName <$> filter (fun iface => itDevice iface = sdName device) (tyInterfaces topology) in
  NoDup ports ->
  exists rest, ifName <$> nwInterfaces (deviceNetworkState topology device) = ports ++ rest /\ NoDup (ports ++ rest) /\
    forall name, name ∈ ports ++ rest <-> name ∈ ports \/ name ∈ aiName <$> sdInterfaces device.
Proof.
  cbv zeta. intros Hn. unfold deviceNetworkState, deviceInterfaceStates. cbn [nwInterfaces].
  destruct (leftover_names device (itName <$> compiledPorts (tyInterfaces topology) device) (sdInterfaces device)) as [H1 H2].
  eexists. split; [rewrite fmap_app; f_equal; rewrite <- list_fmap_compose; by apply list_fmap_ext|]. fold (compiledPorts (tyInterfaces topology) device) in *. split.
  - apply NoDup_app. split; [done|]. split; [|done]. intros name Hname Hl. by apply H2 in Hl as [_ Hl].
  - intros name. rewrite elem_of_app, H2. destruct (decide (name ∈ itName <$> compiledPorts (tyInterfaces topology) device)); tauto.
Qed.

(** Two devices of one segment on one address, and one that moves away. *)
Definition testNetwork (address : Z) (up : bool) : Network := mkNetwork [mkInterface "eth0" "lan" (mkPrefix (Addr4 address) 24) "" [] up up up] [] [] [].
Definition testUpdates : list update :=
  [(Some 10, 1%nat, testNetwork 0x0a000001 true); (Some 10, 2%nat, testNetwork 0x0a000001 true); (Some 10, 1%nat, testNetwork 0x0a000002 true)].

Lemma index_mirrors_witness :
  let found := devicesForStateIPv4 (Some (Some 10)) (fun _ _ => []) [10; 0; 0; 1] (foldl applyUpdate emptyIndex testUpdates) in
  found = [2%nat] /\ NoDup found.
Proof.
  assert (Is4 (Unmap (AddrFromSlice [10; 0; 0; 1])) = true) as H1 by reflexivity.
  assert (Some 10 ∈ testUpdates.*1.*1) as H2 by by left.
  split; [vm_compute; reflexivity|]. exact (proj1 (index_mirrors testUpdates (Some 10) [10; 0; 0; 1] (fun _ _ => []) H1 H2)).
Defined.
