(* ===== verification/HostEgress.v ===== *)
(** * Where a device's own datagrams leave

    [protocols/host_egress.go], [state_notifications_host.go], the route and
    receiver selection of [state_notifications.go] and the delivery inside the
    simulation of [received_notifications.go]: which interface, next hop and
    link address a frame of a device gets under the live state of the devices,
    with a host's wrong prefix ([bad_mask]) taken into account.

    The stack is read, never written: [netStack] is what is read of it, at the
    moment of the call.  A link address that was learned from the wire is in
    the neighbor table of NeighborQueue.v, which is asked last
    ([Learned]).

    The source and first hop of a notification are those of the longest prefix
    among the interfaces that are up and the routes ([route_longest_prefix]);
    a datagram that is routed out leaves through a device of the attachment
    and one that stays inside is never sent to the wire. *)

From Stdlib Require Import Ascii.
From S2P Require Import Prelude.
From S2P Require Import Oid.
From S2P Require Import StringOps.
From S2P Require Import Packet.
From S2P Require Import DeviceOps.
From S2P Require Import Dhcp.
From S2P Require Import DeviceTable.
From S2P Require Import LiveIndex.
From S2P Require Import Netip.
From S2P Require Import NetipParse.
From S2P Require Import Bytes.
From S2P Require Import FabricTypes.
From S2P Require Import Fabric.
From S2P Require Import DeviceTypes.
From S2P Require Import DeviceStore.
From S2P Require Import FabricRuntime.

(** ** Receivers *)

(** [net.SplitHostPort] and [net.JoinHostPort] *)
Fixpoint lastColon (s : string) : option (string * string) :=
  match s with
  | EmptyString => None
  | String c s =>
      match lastColon s with
      | Some (before, after) => Some (String c before, after)
      | None => if Ascii.eqb c ":"%char then Some (EmptyString, s) else None
      end
  end.

Fixpoint hasChar (x : ascii) (s : string) : bool :=
  match s with EmptyString => false | String c s => Ascii.eqb c x || hasChar x s end.

Definition SplitHostPort (hostport : string) : option (string * string) :=
  '(host, port) ← lastColon hostport;
  match hostport with
  | String "["%char inner =>
      '(inside, outside) ← CutString inner "]";
      match outside with
      | String ":"%char rest =>
          if bool_decide (rest = port) && negb (hasChar "["%char inner) && negb (hasChar "]"%char outside)
          then Some (inside, port) else None
      | _ => None
      end
  | _ => if hasChar ":"%char host || hasChar "["%char hostport || hasChar "]"%char hostport then None else Some (host, port)
  end.

Definition JoinHostPort (host port : string) : string :=
  if hasChar ":"%char host then "[" +:+ host +:+ "]:" +:+ port else host +:+ ":" +:+ port.

(** [strconv.ParseUint(s, 10, 16)] *)
Definition ParseUint16 (s : string) : option Z := n ← unsigned s; if n <? 2 ^ 16 then Some n else None.

Definition parseNotificationReceiver (address : string) : option (Addr * Z) :=
  '(host, portText) ← SplitHostPort address;
  destination ← ParseAddr host;
  port ← ParseUint16 portText;
  if port =? 0 then None else Some (Unmap destination, port).

Definition normalizeReceiver (receiver : string) (defaultPort : Z) : string :=
  match SplitHostPort receiver with Some _ => receiver | None => JoinHostPort receiver (Itoa defaultPort) end.

(** ** Routes of a snapshot *)

Definition liveOf (iface : Interface) (destination : Addr) : bool :=
  ifAdminUp iface && ifOperUp iface && PrefixIsValid (ifAddress iface) && Bool.eqb (Is4 (pfxAddr (ifAddress iface))) (Is4 destination).

Definition notificationConnectedSource (interfaces : list Interface) (destination : Addr) : Addr * Z :=
  foldl (fun '(source, bestBits) iface =>
    if liveOf iface destination && Contains (ifAddress iface) destination && (bestBits <? pfxBits (ifAddress iface))
    then (pfxAddr (ifAddress iface), pfxBits (ifAddress iface)) else (source, bestBits)) (AddrZero, -1) interfaces.

(** [netip.Addr.IsValid] *)
Definition addrIsValid (a : Addr) : bool := negb (bool_decide (a = AddrZero)).

Definition RouteZero : Route := mkRoute PrefixZero "" AddrZero false.

Definition notificationStaticRoute (routes : list Route) (destination : Addr) (bestBits : Z) : Route :=
  (foldl (fun '(route, bestBits) candidate =>
    if addrIsValid (rtNextHop candidate) && Contains (rtDestination candidate) destination && (bestBits <? pfxBits (rtDestination candidate))
    then (candidate, pfxBits (rtDestination candidate)) else (route, bestBits)) (RouteZero, bestBits) routes).1.

Definition notificationRouteSource (interfaces : list Interface) (route : Route) (destination : Addr) : Addr :=
  from_option (fun iface => pfxAddr (ifAddress iface)) AddrZero
    (List.find (fun iface => bool_decide (ifName iface = rtVia route) && liveOf iface destination) interfaces).

Definition hasNotificationSubnet (interfaces : list Interface) (destination : Addr) : bool :=
  existsb (fun iface => liveOf iface destination && (pfxBits (ifAddress iface) <? BitLen (pfxAddr (ifAddress iface)))) interfaces.

Definition notificationFaultedInterface (snapshot : Snapshot) (name : string) : bool :=
  existsb (fun fault => bool_decide (pfInterface fault = name)) (spPrefixFaults snapshot).

(** The source to send from and the first hop to resolve. *)
Definition notificationSnapshotRoute (snapshot : Snapshot) (destination : Addr) : Addr * Addr :=
  let interfaces := nwInterfaces (spNetwork snapshot) in
  let '(source, bestBits) := notificationConnectedSource interfaces destination in
  let route := notificationStaticRoute (nwRoutes (spNetwork snapshot)) destination bestBits in
  if addrIsValid (rtNextHop route) then
    let routeSource := notificationRouteSource interfaces route destination in
    if addrIsValid routeSource then (routeSource, rtNextHop route) else (AddrZero, AddrZero)
  else if addrIsValid source then (source, destination)
  else if hasNotificationSubnet interfaces destination then (AddrZero, AddrZero)
  else match List.find (fun iface => liveOf iface destination && negb (notificationFaultedInterface snapshot (ifName iface))) interfaces with
       | Some iface => (pfxAddr (ifAddress iface), destination)
       | None => (AddrZero, AddrZero)
       end.

Definition InterfaceZero : Interface := mkInterface "" "" PrefixZero "" [] false false false.

Definition notificationSourceInterface (interfaces : list Interface) (address : Addr) : Interface :=
  default InterfaceZero (List.find (fun iface => bool_decide (pfxAddr (ifAddress iface) = address)) interfaces).

(** ** The stack *)

(** What is read of a device. *)
Record egressDevice := mkEgressDevice {
  egNet : netDevice; egVLAN : Z; egOSFingerprintTTL : option Z; egICMPTTL : option Z
}.

Definition DefaultIPv4TTL : Z := 64.

Definition IPv4TTL (device : egressDevice) : Z :=
  match egOSFingerprintTTL device with
  | Some ttl => if 0 <? ttl then ttl else match egICMPTTL device with Some ttl => if 0 <? ttl then ttl else DefaultIPv4TTL | None => DefaultIPv4TTL end
  | None => match egICMPTTL device with Some ttl => if 0 <? ttl then ttl else DefaultIPv4TTL | None => DefaultIPv4TTL end
  end.

Record netStack := mkNetStack {
  nkDevices : list egressDevice;
  nkSegments : list (Z * list nat);
  nkStates : gmap nat Store;
  nkFabric : option fabricRuntime;
  nkTable : DeviceTable;
  nkSegmentTables : option (gmap Z DeviceTable);
  nkIndex : stateIndex
}.

(** A frame of the stack, and the Ethernet destination and IPv4 addresses
    gopacket decodes from it. *)
Record hostPacket := mkHostPacket { hpPacket : Packet; hpDecoded : option (list Z * list Z * list Z) }.

Record hostEgressRoute := mkHostRoute { hrInterface : Interface; hrTarget : Addr }.

Inductive egressErr := errHostEgressUnavailable | errNoRoute | errReceiverUnreachable.

Inductive notificationProtocolName := notificationProtocolSyslog | notificationProtocolSNMP.
Definition DefaultSNMPTrapPort : Z := 162.
Definition notificationProtocol (sourcePort : Z) : notificationProtocolName :=
  if sourcePort =? DefaultSNMPTrapPort then notificationProtocolSNMP else notificationProtocolSyslog.

Record pendingNotification := mkPending {
  pnOriginDevice : option nat; pnOriginInterface : string; pnOriginNetwork : string; pnEgressDevice : nat; pnTTL : Z; pnVLAN : Z;
  pnSource : Addr; pnDestination : Addr; pnNeighborSource : Addr; pnRouted : bool; pnSourcePort : Z; pnDestinationPort : Z; pnPayload : list Z
}.
#[export] Instance pendingNotification_rebuild : Rebuild pendingNotification := fun n =>
  mkPending (pnOriginDevice n) (pnOriginInterface n) (pnOriginNetwork n) (pnEgressDevice n) (pnTTL n) (pnVLAN n) (pnSource n) (pnDestination n)
    (pnNeighborSource n) (pnRouted n) (pnSourcePort n) (pnDestinationPort n) (pnPayload n).

(** The link address of a first hop: known from a device of the stack (nil is
    empty), or to be looked up among the learned neighbors. *)
Inductive linkAddress := Known (mac : list Z) | Learned (vlan : Z) (target : Addr).

Section stack.
Context (ranged : gmap Addr fabricEndpoint -> list fabricEndpoint) (s : netStack).

Definition hostMaskRole (device : nat) : bool := negb (from_option (fun d => routesIP (ndConfig (egNet d))) false (nkDevices s !! device)).

Definition deviceMAC (device : nat) : list Z := from_option (fun d => ndMAC (egNet d)) [] (nkDevices s !! device).

Definition discoveryVLAN (device : nat) : Z :=
  match List.find (fun '(_, devices) => bool_decide (device ∈ (devices : list nat))) (nkSegments s) with
  | Some (tag, _) => tag
  | None => from_option egVLAN 0 (nkDevices s !! device)
  end.

(** The VLAN of a neighbor's key. *)
Definition keyVLAN (vlan : Z) : Z := if vlan <? UntaggedTag then UntaggedTag else vlan.

Definition hostPacketVLAN (device : nat) (vlan : Z) : bool :=
  let expected :=
    match nkFabric s with
    | Some r => if cbWireTagged (frBinding r) then bnAccessVLAN (cbBinding (frBinding r)) else UntaggedTag
    | None => discoveryVLAN device
    end in
  keyVLAN vlan =? keyVLAN expected.

Definition liveInterfaces (device : nat) : list Interface :=
  from_option (fun store => nwInterfaces (spNetwork (storeSnapshot store))) [] (nkStates s !! device).

(** The interface is on the link of the client. *)
Definition notificationAttachedInterface (device : nat) (name : string) : bool :=
  match nkFabric s with
  | None => true
  | Some r =>
      existsb (fun endpoint => bool_decide (feDevice endpoint = device) && bool_decide (feInterface endpoint = name) &&
                               bool_decide (feNetwork endpoint = frAttachmentNetwork r)) (ranged (frInterfacesByAddr r))
  end.

Definition conflictInterfaceAvailable (device : nat) (name : string) : bool :=
  existsb (fun iface => bool_decide (ifName iface = name) && ifAdminUp iface && ifOperUp iface && notificationAttachedInterface device name)
    (liveInterfaces device).

(** ** Frames of a host *)

Definition hostPacketAddresses (packet : hostPacket) : Addr * Addr :=
  match hpDecoded packet with
  | None => (AddrZero, AddrZero)
  | Some (dst, sourceIP, destinationIP) =>
      if negb (bool_decide (length dst = 6%nat)) || negb (Z.land (byteAt dst 0) 1 =? 0) then (AddrZero, AddrZero)
      else
        let source := AddrFromSlice sourceIP in
        let destination := AddrFromSlice destinationIP in
        if negb (addrIsValid source) || negb (addrIsValid destination) || negb (ValidFaultAddress (Unmap destination)) then (AddrZero, AddrZero)
        else (Unmap source, Unmap destination)
  end.

Definition hostFaultInterface (snapshot : Snapshot) (source : Addr) : option Interface :=
  head (flat_map (fun fault =>
    filter (fun iface => ifName iface = pfInterface fault /\ pfxAddr (ifAddress iface) = source) (nwInterfaces (spNetwork snapshot)))
    (spPrefixFaults snapshot)).

Definition pendingHostSourceValid (snapshot : Snapshot) (packet : Packet) (source : Addr) : bool :=
  match List.find (fun iface => bool_decide (ifName iface = pkHostEgressInterface packet)) (nwInterfaces (spNetwork snapshot)) with
  | Some iface => ifAdminUp iface && ifOperUp iface && bool_decide (pfxAddr (ifAddress iface) = source) &&
                  bool_decide (ifNetwork iface = pkHostEgressNetwork packet)
  | None => false
  end.

Definition hostMaskRoute (snapshot : Snapshot) (original : Interface) (destination : Addr) : option hostEgressRoute + egressErr :=
  let network := EffectiveHostNetwork snapshot in
  match List.find (fun iface => bool_decide (ifName iface = ifName original)) (nwInterfaces network) with
  | None => inr errHostEgressUnavailable
  | Some iface =>
      let start := if Contains (ifAddress iface) destination then (destination, pfxBits (ifAddress iface)) else (AddrZero, -1) in
      let '(target, _) :=
        foldl (fun '(target, bestBits) route =>
          if bool_decide (rtVia route = ifName iface) && Is4 (rtNextHop route) && Contains (rtDestination route) destination &&
             (bestBits <? pfxBits (rtDestination route))
          then (rtNextHop route, pfxBits (rtDestination route)) else (target, bestBits)) start (nwRoutes network) in
      if addrIsValid target then inl (Some (mkHostRoute iface target)) else inr errHostEgressUnavailable
  end.

(** [inl None] is a frame this does not concern; the error comes with
    [handled] set. *)
Definition hostPacketRoute (packet : hostPacket) : option hostEgressRoute + egressErr :=
  let name := pkHostEgressInterface (hpPacket packet) in
  match pkGeneratedHost (hpPacket packet) with
  | None => inl None
  | Some device =>
      if negb (hostMaskRole device) then inl None
      else match nkStates s !! device with
           | None => if bool_decide (name = ""%string) then inl None else inr errHostEgressUnavailable
           | Some store =>
               let snapshot := storeSnapshot store in
               if bool_decide (name = ""%string) && bool_decide (spPrefixFaults snapshot = []) then inl None
               else
                 let '(source, destination) := hostPacketAddresses packet in
                 if negb (addrIsValid source) then inl None
                 else if negb (bool_decide (name = ""%string)) &&
                         (negb (pendingHostSourceValid snapshot (hpPacket packet) (Unmap source)) || negb (conflictInterfaceAvailable device name) ||
                          negb (hostPacketVLAN device (pkVLAN (hpPacket packet)))) then inr errHostEgressUnavailable
                 else match hostFaultInterface snapshot (Unmap source) with
                      | None => inl None
                      | Some iface =>
                          if negb (conflictInterfaceAvailable device (ifName iface)) || negb (hostPacketVLAN device (pkVLAN (hpPacket packet)))
                          then inr errHostEgressUnavailable
                          else hostMaskRoute snapshot iface (Unmap destination)
                      end
           end
  end.

(** ** First hops *)

Definition tableOf (vlan : Z) : option tableID :=
  match nkSegmentTables s with
  | None => Some None
  | Some tables => let key := keyVLAN vlan in if bool_decide (is_Some (tables !! key)) then Some (Some key) else None
  end.

Definition tableNamed (table : tableID) : option DeviceTable :=
  match table with None => Some (nkTable s) | Some tag => nkSegmentTables s ≫= (.!! tag) end.

Definition notificationTargetDevice (vlan : Z) (target : Addr) : option nat :=
  if Is4 target then head (devicesForStateIPv4 (tableOf vlan) (fun table ip => GetByIP ip (tableNamed table)) (AsSlice target) (nkIndex s))
  else head (GetByIP (AsSlice target) (devicesFor (nkTable s) (nkSegmentTables s) vlan)).

Definition notificationWireVLAN (vlan : Z) : Z :=
  match nkFabric s with
  | Some r => if negb (cbWireTagged (frBinding r)) then UntaggedTag else keyVLAN vlan
  | None => keyVLAN vlan
  end.

Definition senderEgress (device : nat) (source destination target : Addr) (vlan : Z) : nat * Addr * Addr * bool :=
  match nkFabric s with
  | None => (device, source, target, false)
  | Some r =>
      match notificationEgress r (notificationTargetDevice vlan target) destination with
      | None => (device, source, target, false)
      | Some egress => (fnDevice egress, fnSource egress, fnTarget egress, true)
      end
  end.

Definition notificationDestinationMAC (vlan : Z) (target : Addr) : linkAddress + egressErr :=
  if negb (addrIsValid target) then inr errNoRoute
  else match notificationTargetDevice vlan target with
       | Some device => if bool_decide (length (deviceMAC device) = 6%nat) then inl (Known (deviceMAC device)) else inl (Learned vlan target)
       | None => inl (Learned vlan target)
       end.

Definition hostNeighborMAC (vlan : Z) (target : Addr) : linkAddress :=
  match notificationTargetDevice vlan target with
  | None => Learned vlan target
  | Some device =>
      match nkFabric s with
      | None => Known (deviceMAC device)
      | Some r =>
          match frInterfacesByAddr r !! target with
          | Some endpoint =>
              if bool_decide (feDevice endpoint = device) && bool_decide (feNetwork endpoint = frAttachmentNetwork r) &&
                 conflictInterfaceAvailable device (feInterface endpoint)
              then Known (feMAC endpoint) else Learned vlan target
          | None => Learned vlan target
          end
      end
  end.

(** ** Notifications *)

Definition notificationLocalInterface (device : nat) (iface : Interface) : bool :=
  if negb (ValidFaultAddress (pfxAddr (ifAddress iface))) || negb (ifAdminUp iface) || negb (ifOperUp iface) then false
  else notificationAttachedInterface device (ifName iface).

Definition localNotificationFaults (device : nat) (snapshot : Snapshot) : list InterfacePrefixFault :=
  filter (fun fault => notificationAttachedInterface device (pfInterface fault) = true) (spPrefixFaults snapshot).

Definition notificationOriginValid (device : nat) (notification : pendingNotification) (snapshot : Snapshot) : bool :=
  match List.find (fun iface => bool_decide (ifName iface = pnOriginInterface notification)) (nwInterfaces (spNetwork snapshot)) with
  | Some iface => bool_decide (ifNetwork iface = pnOriginNetwork notification) && notificationLocalInterface device iface
  | None => false
  end.

Definition withFaults (faults : list InterfacePrefixFault) (snapshot : Snapshot) : Snapshot :=
  mkSnapshot (spIdentity snapshot) (spNetwork snapshot) (spFaults snapshot) (spAddressFaults snapshot) faults (spDeviceFaults snapshot)
    (spStations snapshot) (spVersion snapshot).

Definition withNetwork (network : DeviceTypes.Network) (snapshot : Snapshot) : Snapshot :=
  mkSnapshot (spIdentity snapshot) network (spFaults snapshot) (spAddressFaults snapshot) (spPrefixFaults snapshot) (spDeviceFaults snapshot)
    (spStations snapshot) (spVersion snapshot).

Definition projectNotificationMask (device : nat) (notification : pendingNotification) (snapshot : Snapshot) : Snapshot + egressErr :=
  if negb (Is4 (pnDestination notification)) || negb (hostMaskRole device) then inl (withFaults [] snapshot)
  else
    let snapshot := withFaults (localNotificationFaults device snapshot) snapshot in
    if bool_decide (spPrefixFaults snapshot = []) then inl snapshot
    else if negb (hostPacketVLAN device (pnVLAN notification)) then inr errHostEgressUnavailable
    else inl (withNetwork (EffectiveHostNetwork snapshot) snapshot).

(** The device is the notification's origin. *)
Definition prepareNotificationIntent (device : nat) (notification : pendingNotification) : (pendingNotification * Addr * linkAddress) + egressErr :=
  match nkStates s !! device with
  | None => inr errHostEgressUnavailable
  | Some store =>
      if negb (bool_decide (length (deviceMAC device) = 6%nat)) then inr errHostEgressUnavailable
      else if negb (bool_decide (pnOriginInterface notification = ""%string)) && negb (notificationOriginValid device notification (storeSnapshot store))
      then inr errHostEgressUnavailable
      else match projectNotificationMask device notification (storeSnapshot store) with
           | inr err => inr err
           | inl snapshot =>
               let '(source, target) := notificationSnapshotRoute snapshot (pnDestination notification) in
               if negb (addrIsValid source) then inr errHostEgressUnavailable
               else
                 let iface := notificationSourceInterface (nwInterfaces (spNetwork snapshot)) source in
                 let isLocal := Is4 (pnDestination notification) && hostMaskRole device && notificationLocalInterface device iface &&
                                hostPacketVLAN device (pnVLAN notification) in
                 if negb (bool_decide (pnOriginInterface notification = ""%string)) &&
                    (negb isLocal || negb (bool_decide (ifName iface = pnOriginInterface notification))) then inr errHostEgressUnavailable
                 else
                   let notification :=
                     if isLocal then notification <| pnOriginInterface := ifName iface |> <| pnOriginNetwork := ifNetwork iface |>
                     else notification <| pnOriginDevice := None |> in
                   let notification :=
                     notification <| pnSource := source |> <| pnTTL := from_option IPv4TTL DefaultIPv4TTL (nkDevices s !! device) |>
                       <| pnEgressDevice := device |> <| pnNeighborSource := source |> <| pnRouted := false |> in
                   if isLocal && notificationFaultedInterface snapshot (ifName iface)
                   then inl (notification, target, hostNeighborMAC (pnVLAN notification) target)
                   else
                     let '(egress, neighborSource, target, routed) := senderEgress device source (pnDestination notification) target (pnVLAN notification) in
                     match notificationDestinationMAC (pnVLAN notification) target with
                     | inr err => inr err
                     | inl mac => inl (notification <| pnEgressDevice := egress |> <| pnNeighborSource := neighborSource |> <| pnRouted := routed |>, target, mac)
                     end
           end
  end.

Definition onAttachmentSegment (origin : nat) (source : Addr) : bool :=
  match nkStates s !! origin, nkFabric s with
  | Some _, Some r => bool_decide (ifNetwork (notificationSourceInterface (liveInterfaces origin) source) = frAttachmentNetwork r)
  | _, _ => false
  end.

(** What became of a notification that stays inside: nobody owns its
    destination, the receiver's interface is down, or it was heard. *)
Inductive insideDelivery := Unreachable | ReceiverDown | Heard (receiver : nat).

Definition deliverInsideSimulation (origin : nat) (notification : pendingNotification) : option insideDelivery :=
  match nkFabric s with
  | None => None
  | Some r =>
      if pnRouted notification || onAttachmentSegment origin (pnSource notification) then None
      else match endpointForAddress ranged r (pnDestination notification) with
           | None => Some Unreachable
           | Some receiver =>
               if negb (interfaceAvailable r (feDevice receiver) (feInterface receiver)) then Some ReceiverDown
               else Some (Heard (feDevice receiver))
           end
  end.
End stack.

(** A fold that keeps the first element with the greatest key. *)
Lemma fold_best {A B} (ok : A -> bool) (key : A -> Z) (value : A -> B) (v0 : B) (b0 : Z) (l : list A) :
  let '(v, b) := foldl (fun '(v, b) x => if ok x && (b <? key x) then (value x, key x) else (v, b)) (v0, b0) l in
  b0 <= b /\ (forall x, x ∈ l -> ok x = true -> key x <= b) /\
  ((v, b) = (v0, b0) \/ exists x, x ∈ l /\ ok x = true /\ v = value x /\ b = key x /\ b0 < b).
Proof.
  revert v0 b0. induction l as [|x l IH]; intros v0 b0; cbn [foldl].
  - split_and!; [lia|intros x Hx; by apply elem_of_nil in Hx|by left].
  - destruct (ok x && (b0 <? key x)) eqn:E.
    + apply andb_true_iff in E as [Hok Hlt%Z.ltb_lt]. specialize (IH (value x) (key x)). destruct (foldl _ _ l) as [v b]. destruct IH as (H1 & H2 & H3).
      split_and!; [lia|intros y [->|Hy]%elem_of_cons Hy'; [done|by apply H2]|]. right.
      destruct H3 as [[= -> ->]|(y & Hy & ? & ? & ? & ?)]; [exists x; split_and!; [by left|done..]|exists y; split_and!; [by right|done..|lia]].
    + specialize (IH v0 b0). destruct (foldl _ _ l) as [v b]. destruct IH as (H1 & H2 & H3). split_and!; [done| |].
      * intros y [->|Hy]%elem_of_cons Hy'; [|by apply H2]. rewrite Hy' in E. cbn in E. apply Z.ltb_ge in E. lia.
      * destruct H3 as [?|(y & ? & ?)]; [by left|right; exists y; split; [by right|done]].
Qed.

(** An interface that is up, of the family of the destination, with it on its
    link. *)
Definition onLink (destination : Addr) (iface : Interface) : bool := liveOf iface destination && Contains (ifAddress iface) destination.

(** A route with a next hop that covers the destination. *)
Definition covers (destination : Addr) (route : Route) : bool := addrIsValid (rtNextHop route) && Contains (rtDestination route) destination.

(** No interface and no route reaches further into the destination than [bits]. *)
Definition longest (interfaces : list Interface) (routes : list Route) (destination : Addr) (bits : Z) : Prop :=
  (forall iface, iface ∈ interfaces -> onLink destination iface = true -> pfxBits (ifAddress iface) <= bits) /\
  (forall route, route ∈ routes -> covers destination route = true -> pfxBits (rtDestination route) <= bits).

Lemma liveOf_valid iface destination : liveOf iface destination = true -> pfxAddr (ifAddress iface) = AddrZero -> Is4 destination = false.
Proof. unfold liveOf. intros [_ H]%andb_true_iff E. rewrite E in H. by destruct (Is4 destination). Qed.

(** C36. A notification that has a route leaves by the longest prefix that
    covers its destination: by a route's next hop, from an interface of that
    route that is up, only if the prefix is longer than that of every link; or
    to the destination itself on the link with the longest prefix; or, when
    nothing covers it, from an interface that is up and not faulted, and only if
    no interface that is up has a subnet at all. *)
Theorem route_longest_prefix snapshot destination source target :
  notificationSnapshotRoute snapshot destination = (source, target) -> source <> AddrZero ->
  let interfaces := nwInterfaces (spNetwork snapshot) in
  let routes := nwRoutes (spNetwork snapshot) in
  exists iface, iface ∈ interfaces /\ liveOf iface destination = true /\ source = pfxAddr (ifAddress iface) /\
  ((exists route, route ∈ routes /\ covers destination route = true /\ target = rtNextHop route /\ ifName iface = rtVia route /\
      longest interfaces routes destination (pfxBits (rtDestination route)) /\
      forall other, other ∈ interfaces -> onLink destination other = true -> pfxBits (ifAddress other) < pfxBits (rtDestination route)) \/
   (target = destination /\ onLink destination iface = true /\ longest interfaces routes destination (pfxBits (ifAddress iface))) \/
   (target = destination /\ notificationFaultedInterface snapshot (ifName iface) = false /\ hasNotificationSubnet interfaces destination = false /\
    longest interfaces routes destination (-1))).
Proof.
  unfold notificationSnapshotRoute. intros Heq Hne. cbv zeta. revert Heq.
  set (interfaces := nwInterfaces (spNetwork snapshot)). set (routes := nwRoutes (spNetwork snapshot)).
  pose proof (fold_best (onLink destination) (fun i => pfxBits (ifAddress i)) (fun i => pfxAddr (ifAddress i)) AddrZero (-1) interfaces) as Hc.
  unfold notificationConnectedSource. unfold onLink at 1 in Hc. destruct (foldl _ (AddrZero, -1) interfaces) as [connected bits]. destruct Hc as (_ & Hcmax & Hc).
  unfold notificationStaticRoute. pose proof (fold_best (covers destination) (fun r => pfxBits (rtDestination r)) id RouteZero bits routes) as Hr.
  unfold covers at 1, id at 1 in Hr. destruct (foldl _ (RouteZero, bits) routes) as [route best]. destruct Hr as (_ & Hrmax & Hr). cbn [fst].
  assert (rtNextHop route = AddrZero -> longest interfaces routes destination bits) as Hnone.
  { intros Hz. split; [done|]. intros x Hx Hok. specialize (Hrmax x Hx Hok). destruct Hr as [[= _ ->]|(y & _ & Hy & -> & _)]; [done|].
    unfold covers, addrIsValid, id in *. by rewrite Hz in Hy. }
  unfold addrIsValid at 1. destruct (decide (rtNextHop route = AddrZero)) as [Hz|Hz].
  - rewrite (bool_decide_eq_true_2 (_ = AddrZero)) by done. cbn [negb]. specialize (Hnone Hz). unfold addrIsValid at 1.
    destruct (decide (connected = AddrZero)) as [->|Hcon].
    + rewrite (bool_decide_eq_true_2 (AddrZero = AddrZero)) by done. cbn [negb].
      destruct (hasNotificationSubnet interfaces destination) eqn:Hsub; [by intros [= <- _]|].
      destruct (List.find _ interfaces) as [iface|] eqn:Hf; [|by intros [= <- _]]. intros [= <- <-].
      apply find_some in Hf as [Hin [Hlive Hfault]%andb_true_iff]. apply list_elem_of_In in Hin. exists iface. split_and!; [done..|]. right. right.
      split_and!; [done|by apply negb_true_iff|done|]. destruct Hc as [[= ->]|(x & Hx & Hok & Hv & -> & _)]; [done|].
      (* a link without an address is of no family *)
      exfalso. apply andb_true_iff in Hok as [Hl Hcov]. symmetry in Hv. unfold Contains in Hcov. rewrite Hv in Hcov. by destruct (PrefixIsValid _).
    + rewrite (bool_decide_eq_false_2 (connected = AddrZero)) by done. cbn [negb]. intros [= <- <-].
      destruct Hc as [[= -> _]|(iface & Hin & Hok & -> & -> & _)]; [done|]. exists iface. split_and!; [done|by apply andb_true_iff in Hok as [? _]|done|].
      right. left. done.
  - rewrite (bool_decide_eq_false_2 (_ = AddrZero)) by done. cbn [negb]. unfold notificationRouteSource.
    destruct (List.find _ interfaces) as [iface|] eqn:Hf; cbn [from_option]; [|by intros [= <- _]].
    unfold addrIsValid. case_bool_decide as Hs; cbn [negb]; [by intros [= <- _]|]. intros [= <- <-].
    apply find_some in Hf as [Hin [Hname Hlive]%andb_true_iff]. apply list_elem_of_In in Hin. apply bool_decide_eq_true in Hname.
    exists iface. split_and!; [done..|]. left. destruct Hr as [[= -> _]|(r & Hrin & Hok & -> & -> & Hlt)]; [done|]. unfold id in *.
    exists r. split_and!; [done..| |].
    + split; [|done]. intros x Hx Hx'. specialize (Hcmax x Hx Hx'). lia.
    + intros x Hx Hx'. specialize (Hcmax x Hx Hx'). lia.
Qed.

(** Two links and a route; the route is longer than the link that covers. *)
Definition testSnapshot : Snapshot :=
  mkSnapshot (mkIdentity "r1")
    (mkNetwork [mkInterface "eth0" "lan" (mkPrefix (Addr4 0x0a000001) 8) "" [] true true true;
                mkInterface "eth1" "wan" (mkPrefix (Addr4 0x0b000001) 24) "" [] true true true]
       [mkRoute (mkPrefix (Addr4 0x0a010000) 16) "eth1" (Addr4 0x0b000002) false] [] []) [] [] [] [] [] 0.

Lemma route_longest_prefix_witness :
  notificationSnapshotRoute testSnapshot (Addr4 0x0a010009) = (Addr4 0x0b000001, Addr4 0x0b000002) /\
  exists iface, iface ∈ nwInterfaces (spNetwork testSnapshot) /\ liveOf iface (Addr4 0x0a010009) = true /\ Addr4 0x0b000001 = pfxAddr (ifAddress iface).
Proof.
  assert (notificationSnapshotRoute testSnapshot (Addr4 0x0a010009) = (Addr4 0x0b000001, Addr4 0x0b000002)) as H by (vm_compute; reflexivity).
  split; [exact H|]. destruct (route_longest_prefix testSnapshot _ _ _ H) as (iface & H1 & H2 & H3 & _); [discriminate|]. by exists iface.
Defined.
