(* ===== verification/NeighborQueue.v ===== *)
(** * Waiting for the first hop

    The datagram sender of [protocols/state_notifications.go], its retries
    ([state_notifications_retry.go], [host_neighbor_probe.go]) and the queue of
    host frames ([host_egress_queue.go]): a datagram whose first hop has no
    known link address waits in a resolution of that hop, which is probed until
    the hop answers or the attempts run out.

    Goroutines share the sender under its mutex and let go of it between the
    steps, so the model is a transition system: a thread is the list of the
    sections it still has to run, each [work] is one critical section or one
    reading of the stack, and threads interleave freely.  What a section reads
    of the stack at that moment, the clock and whether a frame could be built
    are arguments of the step.  A resolution is known by its number, as in Go by
    its pointer; it is changed only while it is pending.  [time.AfterFunc]
    arms a timer by its number; [Stop] disarms one that has not fired. *)

From S2P Require Import Prelude.
From S2P Require Import Netip.
From S2P Require Import NetipParse.
From S2P Require Import Bytes.
From S2P Require Import Packet.
From S2P Require Import FabricTypes.
From S2P Require Import Fabric.
From S2P Require Import DeviceTypes.
From S2P Require Import DeviceStore.
From S2P Require Import FabricRuntime.
From S2P Require Import HostEgress.

Definition maxPendingNeighborDatagrams : nat := 64.
Definition maxPendingNeighborTotal : nat := 256.
Definition notificationNeighborRetries : nat := 4.
(** Nanoseconds. *)
Definition notificationNeighborTTL : Z := 300 * 10 ^ 9.

(** ** State *)

Abbreviation notificationNeighborKey := (Z * Addr)%type.
Definition newNotificationNeighborKey (vlan : Z) (address : Addr) : notificationNeighborKey := (keyVLAN vlan, address).

Record notificationNeighbor := mkNeighbor { nbMAC : list Z; nbExpiresAt : Time }.

Record notificationNeighborResolution := mkResolutionOf {
  nrID : nat; nrNotifications : list pendingNotification; nrRefreshVersion : Z; nrHostPackets : list hostPacket; nrAttempts : nat; nrTimer : option nat
}.
#[export] Instance resolution_rebuild : Rebuild notificationNeighborResolution := fun r =>
  mkResolutionOf (nrID r) (nrNotifications r) (nrRefreshVersion r) (nrHostPackets r) (nrAttempts r) (nrTimer r).

(** A refreshed notification, its first hop and that hop's address, nil when it
    is not known. *)
Record refreshedNotification := mkRefreshed { rfNotification : pendingNotification; rfTarget : Addr; rfMAC : list Z }.

(** A refresh under way: the resolution, what it read of it, and what became of
    the copies so far. *)
Record refresh := mkRefresh {
  rhKey : notificationNeighborKey; rhID : nat; rhVersion : Z; rhCount : nat;
  rhTodo : list pendingNotification; rhRetained : list pendingNotification; rhRedirected : list refreshedNotification;
  rhDropped : list pendingNotification
}.
#[export] Instance refresh_rebuild : Rebuild refresh := fun h =>
  mkRefresh (rhKey h) (rhID h) (rhVersion h) (rhCount h) (rhTodo h) (rhRetained h) (rhRedirected h) (rhDropped h).

(** The sections a thread runs. *)
Inductive work :=
| DoIntent (device : nat) (n : pendingNotification)
| DoLearn (device : nat) (n : pendingNotification) (target : Addr) (vlan : Z) (hop : Addr)
| DoDeliver (device : nat) (n : pendingNotification) (target : Addr) (mac : list Z)
| DoDispatch (n : pendingNotification) (target : Addr) (mac : list Z)
| DoHostEgress (packet : hostPacket)
| DoHostLearn (packet : hostPacket) (route : hostEgressRoute) (vlan : Z) (lookup : Z) (hop : Addr)
| DoQueueHost (packet : hostPacket) (route : hostEgressRoute) (vlan : Z)
| DoResend (packet : hostPacket)
| DoStart (key : notificationNeighborKey)
| DoProbe (key : notificationNeighborKey) (id : nat)
| DoCurrent (key : notificationNeighborKey) (id : nat)
| DoRoute (key : notificationNeighborKey) (id : nat) (packet : hostPacket)
| DoSettle (key : notificationNeighborKey) (id : nat) (packet : hostPacket) (route : option hostEgressRoute)
| DoFrame (key : notificationNeighborKey) (id : nat) (egress : nat) (vlan : Z) (source : Addr)
| DoGiveUp (key : notificationNeighborKey) (id : nat)
| DoArm (key : notificationNeighborKey) (id : nat)
| DoRefresh (key : notificationNeighborKey) (id : nat)
| DoRefreshNext (h : refresh)
| DoRefreshLearn (h : refresh) (current : pendingNotification) (target : Addr) (vlan : Z) (hop : Addr).

Inductive refusal := Stopped | QueueFull | NoEgress (err : egressErr).

(** What happened, in order.  [Resent] and [HostSent] are frames handed to the
    stack's send queue, [HostPassed] one that goes its ordinary way. *)
Inductive outcome :=
| Emitted (n : pendingNotification) (mac : list Z)
| Inside (n : pendingNotification) (how : insideDelivery)
| Refused (n : pendingNotification) (why : refusal)
| Obsolete (n : pendingNotification)
| HostSent (packet : hostPacket) (mac : list Z)
| HostPassed (packet : hostPacket)
| HostRefused (packet : hostPacket) (why : refusal)
| Resent (packet : hostPacket)
| Probed (key : notificationNeighborKey) (id egress : nat) (vlan : Z) (source : Addr)
| Unresolved (r : notificationNeighborResolution)
| Cleared (r : notificationNeighborResolution)
| Panicked.

Record stackDatagramSender := mkSender {
  dsNeighbors : gmap notificationNeighborKey notificationNeighbor;
  dsPending : gmap notificationNeighborKey notificationNeighborResolution;
  dsTimers : gmap nat (notificationNeighborKey * nat);
  dsFresh : nat;
  dsStopped : bool;
  dsLog : list outcome
}.
#[export] Instance sender_rebuild : Rebuild stackDatagramSender := fun q =>
  mkSender (dsNeighbors q) (dsPending q) (dsTimers q) (dsFresh q) (dsStopped q) (dsLog q).

Definition newStackDatagramSender : stackDatagramSender := mkSender ∅ ∅ ∅ 0 false [].

Definition logged (o : outcome) (q : stackDatagramSender) : stackDatagramSender := q <| dsLog := dsLog q ++ [o] |>.

(** [s.pending[key]], if it is still the resolution asked about. *)
Definition pendingIs (key : notificationNeighborKey) (id : nat) (q : stackDatagramSender) : option notificationNeighborResolution :=
  r ← dsPending q !! key; if bool_decide (nrID r = id) then Some r else None.

Definition setPending (key : notificationNeighborKey) (r : notificationNeighborResolution) (q : stackDatagramSender) : stackDatagramSender :=
  q <| dsPending := <[key := r]> (dsPending q) |>.

Definition deletePending (key : notificationNeighborKey) (q : stackDatagramSender) : stackDatagramSender :=
  q <| dsPending := delete key (dsPending q) |>.

Definition stopTimer (timer : option nat) (q : stackDatagramSender) : stackDatagramSender :=
  match timer with Some t => q <| dsTimers := delete t (dsTimers q) |> | None => q end.

(** ** The queue *)

Definition resolutionSize (r : notificationNeighborResolution) : nat := length (nrNotifications r) + length (nrHostPackets r).

Definition pendingTotal (f : notificationNeighborResolution -> nat) (pending : gmap notificationNeighborKey notificationNeighborResolution) : nat :=
  sum_list_with f (map_to_list pending).*2.

Definition neighborQueueFull (r : option notificationNeighborResolution) (q : stackDatagramSender) : bool :=
  match r with Some r => bool_decide (maxPendingNeighborDatagrams <= resolutionSize r)%nat | None => false end ||
  bool_decide (maxPendingNeighborTotal <= pendingTotal resolutionSize (dsPending q))%nat.

Definition queueNotificationNeighbor (n : pendingNotification) (target : Addr) (q : stackDatagramSender) : stackDatagramSender * list work :=
  if dsStopped q then (logged (Refused n Stopped) q, [])
  else
    let key := newNotificationNeighborKey (pnVLAN n) target in
    if neighborQueueFull (dsPending q !! key) q then (logged (Refused n QueueFull) q, [])
    else match dsPending q !! key with
         | Some r => (setPending key (r <| nrNotifications := nrNotifications r ++ [n] |>) q, [])
         | None => (setPending key (mkResolutionOf (dsFresh q) [n] 0 [] 0 None) q <| dsFresh := S (dsFresh q) |>, [DoStart key])
         end.

Definition resolveHostNeighbor (packet : hostPacket) (route : hostEgressRoute) (vlan : Z) (q : stackDatagramSender) : stackDatagramSender * list work :=
  if dsStopped q then (logged (HostRefused packet Stopped) q, [])
  else
    let key := newNotificationNeighborKey vlan (hrTarget route) in
    if neighborQueueFull (dsPending q !! key) q then (logged (HostRefused packet QueueFull) q, [])
    else
      let queued := mkHostPacket (hpPacket packet <| pkHostEgressInterface := ifName (hrInterface route) |>
                                                  <| pkHostEgressNetwork := ifNetwork (hrInterface route) |>) (hpDecoded packet) in
      match dsPending q !! key with
      | Some r => (setPending key (r <| nrHostPackets := nrHostPackets r ++ [queued] |>) q, [])
      | None => (setPending key (mkResolutionOf (dsFresh q) [] 0 [queued] 0 None) q <| dsFresh := S (dsFresh q) |>, [DoStart key])
      end.

Definition learnedNeighborMAC (vlan : Z) (target : Addr) (now : Time) (q : stackDatagramSender) : stackDatagramSender * list Z :=
  let key := newNotificationNeighborKey vlan target in
  match dsNeighbors q !! key with
  | None => (q, [])
  | Some neighbor =>
      if negb (now <? nbExpiresAt neighbor) then (q <| dsNeighbors := delete key (dsNeighbors q) |>, [])
      else (q, nbMAC neighbor)
  end.

(** ** The sections *)

Section sections.
Context (ranged : gmap Addr fabricEndpoint -> list fabricEndpoint).

(** What a step reads: the stack, the clock, and whether gopacket could build
    the frame of a probe. *)
Record reading := mkReading { rdStack : netStack; rdNow : Time; rdFrameBuilt : bool }.

(** [sendNeighborProbe] up to its first unlock. *)
Definition sendNeighborProbe (key : notificationNeighborKey) (id : nat) (q : stackDatagramSender) : stackDatagramSender * list work :=
  match pendingIs key id q with
  | None => (q, [])
  | Some r =>
      if bool_decide (notificationNeighborRetries <= nrAttempts r)%nat then (logged (Unresolved r) (deletePending key q), [])
      else (setPending key (r <| nrAttempts := S (nrAttempts r) |>) q, [DoCurrent key id])
  end.

(** The datagram a probe is sent for: the first notification, else the first
    host frame under the route it has now. *)
Definition probeFor (key : notificationNeighborKey) (r : notificationNeighborResolution) : option (list work) :=
  match nrNotifications r with
  | n :: _ => Some [DoFrame key (nrID r) (pnEgressDevice n) (pnVLAN n) (pnNeighborSource n)]
  | [] => None
  end.

Definition currentNeighborProbe (key : notificationNeighborKey) (id : nat) (q : stackDatagramSender) : stackDatagramSender * list work :=
  match pendingIs key id q with
  | None => (q, [])
  | Some r =>
      match probeFor key r, nrHostPackets r with
      | Some frame, _ => (q, frame)
      | None, packet :: _ => (q, [DoRoute key id packet])
      | None, [] => (logged Panicked q, [])
      end
  end.

Definition settleHostProbe (key : notificationNeighborKey) (id : nat) (packet : hostPacket) (route : option hostEgressRoute)
    (q : stackDatagramSender) : stackDatagramSender * list work :=
  match pendingIs key id q with
  | None => (q, [])
  | Some r =>
      match probeFor key r with
      | Some frame => (q, frame)
      | None =>
          match route with
          | Some route =>
              if bool_decide (hrTarget route = key.2)
              then (q, [DoFrame key id (default 0%nat (pkGeneratedHost (hpPacket packet))) key.1 (pfxAddr (ifAddress (hrInterface route)))])
              else (stopTimer (nrTimer r) (deletePending key q), DoResend <$> nrHostPackets r)
          | None => (stopTimer (nrTimer r) (deletePending key q), DoResend <$> nrHostPackets r)
          end
      end
  end.

(** The timer that was armed before, if any, is not stopped. *)
Definition armRetry (key : notificationNeighborKey) (id : nat) (q : stackDatagramSender) : stackDatagramSender :=
  match pendingIs key id q with
  | None => q
  | Some r => setPending key (r <| nrTimer := Some (dsFresh q) |>) q <| dsTimers := <[dsFresh q := (key, id)]> (dsTimers q) |>
                <| dsFresh := S (dsFresh q) |>
  end.

Definition beginRefresh (key : notificationNeighborKey) (id : nat) (q : stackDatagramSender) : list work :=
  match pendingIs key id q with
  | None => []
  | Some r =>
      if bool_decide (nrNotifications r = []) then []
      else [DoRefreshNext (mkRefresh key id (nrRefreshVersion r) (length (nrNotifications r)) (nrNotifications r) [] [] [])]
  end.

(** One notification of the copy is done. *)
Definition refreshed (h : refresh) (current : pendingNotification) (target : Addr) (mac : list Z) : refresh :=
  if bool_decide (target = (rhKey h).2) && bool_decide (mac = []) then h <| rhRetained := rhRetained h ++ [current] |>
  else h <| rhRedirected := rhRedirected h ++ [mkRefreshed current target mac] |>.

Definition commitRefresh (h : refresh) (q : stackDatagramSender) : stackDatagramSender * list work :=
  match pendingIs (rhKey h) (rhID h) q with
  | None => (q, [])
  | Some r =>
      if negb (nrRefreshVersion r =? rhVersion h) then (q, [])
      else if bool_decide (length (nrNotifications r) < rhCount h)%nat then (logged Panicked q, [])
      else
        let r := r <| nrNotifications := rhRetained h ++ drop (rhCount h) (nrNotifications r) |> <| nrRefreshVersion := uint64 (nrRefreshVersion r + 1) |> in
        let q := q <| dsLog := dsLog q ++ (Obsolete <$> rhDropped h) |> in
        (if bool_decide (resolutionSize r = 0%nat) then deletePending (rhKey h) q else setPending (rhKey h) r q,
         (fun f => DoDispatch (rfNotification f) (rfTarget f) (rfMAC f)) <$> rhRedirected h)
  end.

(** [sendNotificationIntent]: the route, then the delivery inside. *)
Definition sendNotificationIntent (rd : reading) (device : nat) (n : pendingNotification) (q : stackDatagramSender) : stackDatagramSender * list work :=
  match prepareNotificationIntent ranged (rdStack rd) device n with
  | inr err => (logged (Refused n (NoEgress err)) q, [])
  | inl (n, target, Known mac) => (q, [DoDeliver device n target mac])
  | inl (n, target, Learned vlan hop) => (q, [DoLearn device n target vlan hop])
  end.

Definition deliverNotification (rd : reading) (device : nat) (n : pendingNotification) (target : Addr) (mac : list Z) (q : stackDatagramSender)
    : stackDatagramSender * list work :=
  match deliverInsideSimulation ranged (rdStack rd) device n with
  | Some how => (logged (Inside n how) q, [])
  | None => (q, [DoDispatch n target mac])
  end.

Definition dispatchNotification (n : pendingNotification) (target : Addr) (mac : list Z) (q : stackDatagramSender) : stackDatagramSender * list work :=
  if bool_decide (mac = []) then queueNotificationNeighbor n target q else (logged (Emitted n mac) q, []).

(** [prepareHostEgress]: the route and the hop's address, then the frame. *)
Definition prepareHostEgress (rd : reading) (packet : hostPacket) (q : stackDatagramSender) : stackDatagramSender * list work :=
  match hostPacketRoute ranged (rdStack rd) packet with
  | inr err => (logged (HostRefused packet (NoEgress err)) q, [])
  | inl None => (logged (HostPassed packet) q, [])
  | inl (Some route) =>
      let vlan := notificationWireVLAN (rdStack rd) (pkVLAN (hpPacket packet)) in
      match hostNeighborMAC ranged (rdStack rd) vlan (hrTarget route) with
      | Known mac => if bool_decide (mac = []) then (q, [DoQueueHost packet route vlan]) else (logged (HostSent packet mac) q, [])
      | Learned lookup hop => (q, [DoHostLearn packet route vlan lookup hop])
      end
  end.

Definition finishHostEgress (packet : hostPacket) (route : hostEgressRoute) (vlan : Z) (mac : list Z) (q : stackDatagramSender) : stackDatagramSender * list work :=
  if bool_decide (mac = []) then (q, [DoQueueHost packet route vlan]) else (logged (HostSent packet mac) q, []).

(** [probeNeighborWithLock] reads the pointer, [sendNeighborProbe] checks it. *)
Definition probeNeighbor (key : notificationNeighborKey) (q : stackDatagramSender) : list work :=
  match dsPending q !! key with Some r => [DoProbe key (nrID r)] | None => [] end.

Definition buildProbe (rd : reading) (key : notificationNeighborKey) (id egress : nat) (vlan : Z) (source : Addr) (q : stackDatagramSender)
    : stackDatagramSender * list work :=
  if rdFrameBuilt rd then (logged (Probed key id egress vlan source) q, [DoArm key id]) else (q, [DoGiveUp key id]).

Definition giveUpProbe (key : notificationNeighborKey) (id : nat) (q : stackDatagramSender) : stackDatagramSender :=
  match pendingIs key id q with Some r => logged (Unresolved r) (deletePending key q) | None => q end.

(** [retryNeighborResolution] *)
Definition retryNeighborResolution (key : notificationNeighborKey) (id : nat) : list work := [DoRefresh key id; DoProbe key id].

(** The next notification of the copy, or the end of the loop. *)
Definition refreshNext (rd : reading) (h : refresh) (q : stackDatagramSender) : stackDatagramSender * list work :=
  match rhTodo h with
  | [] => commitRefresh h q
  | n :: todo =>
      let h := h <| rhTodo := todo |> in
      match pnOriginDevice n with
      | None => (q, [DoRefreshNext (h <| rhRetained := rhRetained h ++ [n] |>)])
      | Some device =>
          match prepareNotificationIntent ranged (rdStack rd) device n with
          | inr _ => (q, [DoRefreshNext (h <| rhDropped := rhDropped h ++ [n] |>)])
          | inl (current, target, Known mac) => (q, [DoRefreshNext (refreshed h current target mac)])
          | inl (current, target, Learned vlan hop) => (q, [DoRefreshLearn h current target vlan hop])
          end
      end
  end.

Definition runWork (rd : reading) (w : work) (q : stackDatagramSender) : stackDatagramSender * list work :=
  match w with
  | DoIntent device n => sendNotificationIntent rd device n q
  | DoLearn device n target vlan hop =>
      let '(q, mac) := learnedNeighborMAC vlan hop (rdNow rd) q in (q, [DoDeliver device n target mac])
  | DoDeliver device n target mac => deliverNotification rd device n target mac q
  | DoDispatch n target mac => dispatchNotification n target mac q
  | DoHostEgress packet => prepareHostEgress rd packet q
  | DoHostLearn packet route vlan lookup hop =>
      let '(q, mac) := learnedNeighborMAC lookup hop (rdNow rd) q in finishHostEgress packet route vlan mac q
  | DoQueueHost packet route vlan => resolveHostNeighbor packet route vlan q
  | DoResend packet => (logged (Resent packet) q, [])
  | DoStart key => (q, probeNeighbor key q)
  | DoProbe key id => sendNeighborProbe key id q
  | DoCurrent key id => currentNeighborProbe key id q
  | DoRoute key id packet =>
      (q, [DoSettle key id packet (match hostPacketRoute ranged (rdStack rd) packet with inl (Some route) => Some route | _ => None end)])
  | DoSettle key id packet route => settleHostProbe key id packet route q
  | DoFrame key id egress vlan source => buildProbe rd key id egress vlan source q
  | DoGiveUp key id => (giveUpProbe key id q, [])
  | DoArm key id => (armRetry key id q, [])
  | DoRefresh key id => (q, beginRefresh key id q)
  | DoRefreshNext h => refreshNext rd h q
  | DoRefreshLearn h current target vlan hop =>
      let '(q, mac) := learnedNeighborMAC vlan hop (rdNow rd) q in (q, [DoRefreshNext (refreshed h current target mac)])
  end.

(** ** What comes from outside *)

(** A first hop was seen on the wire: what waited for it goes out. *)
Definition observeNeighbor (vlan : Z) (address : Addr) (mac : list Z) (now : Time) (q : stackDatagramSender) : stackDatagramSender * list work :=
  if negb (bool_decide (length mac = 6%nat)) then (q, [])
  else
    let key := newNotificationNeighborKey vlan address in
    let r := dsPending q !! key in
    let q := stopTimer (r ≫= nrTimer) q in
    let q := q <| dsNeighbors := <[key := mkNeighbor mac (now + notificationNeighborTTL)]> (dsNeighbors q) |> in
    (deletePending key q,
     match r with
     | None => []
     | Some r =>
         (DoResend <$> nrHostPackets r) ++
         ((fun n => match pnOriginDevice n with Some device => DoIntent device n | None => DoDispatch n address mac end) <$> nrNotifications r)
     end).

Definition resetSender (q : stackDatagramSender) : stackDatagramSender :=
  let rs := (map_to_list (dsPending q)).*2 in
  foldr stopTimer q (nrTimer <$> rs) <| dsNeighbors := ∅ |> <| dsPending := ∅ |> <| dsLog := dsLog q ++ (Cleared <$> rs) |>.

(** [Send] of a device: the receiver was read. *)
Definition newNotification (s : netStack) (device : nat) (vlan : Z) (destination : Addr) (port sourcePort : Z) (payload : list Z) : pendingNotification :=
  mkPending (Some device) "" "" device 0 (notificationWireVLAN s vlan) AddrZero destination AddrZero false sourcePort port payload.

Record system := mkSystem { syQueue : stackDatagramSender; syThreads : list (list work) }.

Inductive label :=
| Submit (device : nat) (n : pendingNotification)
| SubmitHost (packet : hostPacket)
| Fire (timer : nat)
| Observe (vlan : Z) (address : Addr) (mac : list Z)
| Reset_
| Stop_
| Run (thread : nat).

(** A thread that has nothing left to run stays, and does nothing. *)
Definition spawn (works : list work) (y : system) : system := mkSystem (syQueue y) (syThreads y ++ [works]).

Definition systemStep (rd : reading) (l : label) (y : system) : system :=
  match l with
  | Submit device n => spawn [DoIntent device n] y
  | SubmitHost packet => spawn [DoHostEgress packet] y
  | Fire timer =>
      match dsTimers (syQueue y) !! timer with
      | Some (key, id) =>
          spawn (retryNeighborResolution key id) (mkSystem (syQueue y <| dsTimers := delete timer (dsTimers (syQueue y)) |>) (syThreads y))
      | None => y
      end
  | Observe vlan address mac =>
      let '(q, works) := observeNeighbor vlan address mac (rdNow rd) (syQueue y) in spawn works (mkSystem q (syThreads y))
  | Reset_ => mkSystem (resetSender (syQueue y)) (syThreads y)
  | Stop_ => mkSystem (syQueue y <| dsStopped := true |>) (syThreads y)
  | Run thread =>
      match syThreads y !! thread with
      | Some (w :: rest) =>
          let '(q, more) := runWork rd w (syQueue y) in mkSystem q (<[thread := more ++ rest]> (syThreads y))
      | _ => y
      end
  end.

Definition run (steps : list (reading * label)) : system :=
  foldl (fun y '(rd, l) => systemStep rd l y) (mkSystem newStackDatagramSender []) steps.
End sections.
