(* ===== verification/NeighborTheorems.v ===== *)
(** * Waiting for the first hop: what the queue keeps

    The invariants of every reachable state, whatever the threads interleave:
    bounded queues, bounded probes, no resolution that nobody looks after, and
    every datagram accounted for. *)

From S2P Require Import Prelude.
From S2P Require Import Netip.
From S2P Require Import NetipParse.
From S2P Require Import Bytes.
From S2P Require Import Packet.
From S2P Require Import FabricTypes.
From S2P Require Import Fabric.
From S2P Require Import DeviceTypes.
From S2P Require Import DeviceStore.
From S2P Require Import FabricRuntime.
From S2P Require Import HostEgress.
From S2P Require Import NeighborQueue.

Abbreviation pendingMap := (gmap notificationNeighborKey notificationNeighborResolution).

(** ** Sums over what is pending *)

Lemma total_delete (f : notificationNeighborResolution -> nat) (m : pendingMap) (key : notificationNeighborKey) (r : notificationNeighborResolution) : m !! key = Some r -> pendingTotal f m = (f r + pendingTotal f (delete key m))%nat.
Proof. intros H. unfold pendingTotal. by rewrite <- (map_to_list_delete m key r H). Qed.

Lemma total_new (f : notificationNeighborResolution -> nat) (m : pendingMap) (key : notificationNeighborKey) (r : notificationNeighborResolution) : m !! key = None -> pendingTotal f (<[key := r]> m) = (f r + pendingTotal f m)%nat.
Proof. intros H. unfold pendingTotal. by rewrite (map_to_list_insert m key r H). Qed.

Lemma total_set (f : notificationNeighborResolution -> nat) (m : pendingMap) (key : notificationNeighborKey) (r r' : notificationNeighborResolution) :
  m !! key = Some r -> (pendingTotal f (<[key := r']> m) + f r = pendingTotal f m + f r')%nat.
Proof.
  intros H. rewrite <- insert_delete_eq, total_new by apply lookup_delete_eq. rewrite (total_delete f m key r H). lia.
Qed.

Lemma pendingIs_spec key id q r : pendingIs key id q = Some r <-> dsPending q !! key = Some r /\ nrID r = id.
Proof.
  unfold pendingIs. destruct (dsPending q !! key) as [x|]; cbn [mbind option_bind]; [|split; [done|by intros []]].
  case_bool_decide; split; [intros [= ->]; done|intros [[= ->] _]; done|done|by intros [[= ->] ?]].
Qed.

(** ** The queue *)

Record resolutionOk (bound : Z) (fresh : nat) (r : notificationNeighborResolution) : Prop := {
  ro_id : (nrID r < fresh)%nat;
  ro_size : (1 <= resolutionSize r <= maxPendingNeighborDatagrams)%nat;
  ro_attempts : (nrAttempts r <= notificationNeighborRetries)%nat;
  ro_version : 0 <= nrRefreshVersion r <= bound
}.

Record queueOk (bound : Z) (q : stackDatagramSender) : Prop := {
  qo_pending : forall key r, dsPending q !! key = Some r -> resolutionOk bound (dsFresh q) r;
  qo_unique : forall key key' r r', dsPending q !! key = Some r -> dsPending q !! key' = Some r' -> nrID r = nrID r' -> key = key';
  qo_total : (pendingTotal resolutionSize (dsPending q) <= maxPendingNeighborTotal)%nat;
  qo_timers : forall t key id, dsTimers q !! t = Some (key, id) -> (id < dsFresh q /\ t < dsFresh q)%nat;
  qo_calm : Panicked ∉ dsLog q
}.

Lemma resolutionOk_more bound bound' fresh fresh' r : bound <= bound' -> (fresh <= fresh')%nat -> resolutionOk bound fresh r -> resolutionOk bound' fresh' r.
Proof. intros ? ? []. split; lia. Qed.

(** Nothing pending changes. *)
Lemma queueOk_same bound q q' :
  queueOk bound q -> dsPending q' = dsPending q -> (dsFresh q <= dsFresh q')%nat ->
  (forall t key id, dsTimers q' !! t = Some (key, id) -> (id < dsFresh q' /\ t < dsFresh q')%nat) -> Panicked ∉ dsLog q' -> queueOk bound q'.
Proof.
  intros [H1 H2 H3 H4 H5] Ep Ef Ht Hl. split; rewrite ?Ep; try done.
  intros key r H. eapply resolutionOk_more; [reflexivity|exact Ef|by eapply H1].
Qed.

Lemma queueOk_log bound o q : o <> Panicked -> queueOk bound q -> queueOk bound (logged o q).
Proof. intros Ho H. apply (queueOk_same _ q); try done; [apply H|]. unfold logged. cbn. pose proof (qo_calm _ _ H). set_solver. Qed.

Lemma queueOk_set bound key r r' q :
  queueOk bound q -> dsPending q !! key = Some r -> nrID r' = nrID r -> resolutionOk bound (dsFresh q) r' ->
  (resolutionSize r' <= resolutionSize r \/ (resolutionSize r' = S (resolutionSize r) /\ pendingTotal resolutionSize (dsPending q) < maxPendingNeighborTotal))%nat ->
  queueOk bound (setPending key r' q).
Proof.
  intros [H1 H2 H3 H4 H5] Hr Hid Hok Hsz. split; unfold setPending; cbn [setf dsPending dsFresh dsTimers dsLog]; try done.
  - intros k x. destruct (decide (k = key)) as [->|Hne]; [rewrite lookup_insert_eq; intros [= <-]; done|rewrite lookup_insert_ne by done; apply H1].
  - assert (forall k x, <[key := r']> (dsPending q) !! k = Some x -> exists y, dsPending q !! k = Some y /\ nrID y = nrID x) as Hold.
    { intros k x. destruct (decide (k = key)) as [->|Hne]; [rewrite lookup_insert_eq; intros [= <-]; by exists r|rewrite lookup_insert_ne by done; eauto]. }
    intros k k' x x' Hx Hx' E. apply Hold in Hx as (y & Hy & Ey). apply Hold in Hx' as (y' & Hy' & Ey'). apply (H2 k k' y y'); congruence.
  - pose proof (total_set resolutionSize _ _ _ r' Hr). lia.
Qed.

Lemma queueOk_delete bound key q : queueOk bound q -> queueOk bound (deletePending key q).
Proof.
  intros [H1 H2 H3 H4 H5]. split; unfold deletePending; cbn [setf dsPending dsFresh dsTimers dsLog]; try done.
  - intros k r Hk. apply lookup_delete_Some in Hk as [_ Hk]. by apply (H1 k).
  - intros k k' r r' Hk Hk'. apply lookup_delete_Some in Hk as [_ Hk]. apply lookup_delete_Some in Hk' as [_ Hk']. by apply H2.
  - destruct (dsPending q !! key) as [r|] eqn:E; [|by rewrite delete_id]. pose proof (total_delete resolutionSize _ _ _ E). lia.
Qed.

Lemma queueOk_new bound key r q :
  0 <= bound -> queueOk bound q -> dsPending q !! key = None -> nrID r = dsFresh q -> resolutionSize r = 1%nat -> nrAttempts r = 0%nat -> nrRefreshVersion r = 0 ->
  (pendingTotal resolutionSize (dsPending q) < maxPendingNeighborTotal)%nat -> queueOk bound (setPending key r q <| dsFresh := S (dsFresh q) |>).
Proof.
  intros Hb [H1 H2 H3 H4 H5] Hk Hid Hs Ha Hv Ht. split; unfold setPending; cbn [setf dsPending dsFresh dsTimers dsLog]; try done.
  - intros k x. destruct (decide (k = key)) as [->|Hne].
    + rewrite lookup_insert_eq. intros [= <-]. split; try lia. rewrite Hs. unfold maxPendingNeighborDatagrams. lia.
    + rewrite lookup_insert_ne by done. intros Hx. eapply resolutionOk_more; [reflexivity| |by eapply H1]. lia.
  - assert (forall k x, <[key := r]> (dsPending q) !! k = Some x -> (k = key /\ x = r) \/ (k <> key /\ dsPending q !! k = Some x)) as Hc.
    { intros k x. destruct (decide (k = key)) as [->|Hne]; [rewrite lookup_insert_eq; intros [= <-]; by left|rewrite lookup_insert_ne by done; by right]. }
    intros k k' x x' [[-> ->]|[? Hx]]%Hc [[-> ->]|[? Hx']]%Hc E; try done.
    + apply H1 in Hx'. destruct Hx'. lia.
    + apply H1 in Hx. destruct Hx. lia.
    + by apply (H2 _ _ x x').
  - rewrite total_new by done. lia.
  - intros t k id Hid'. apply H4 in Hid'. lia.
Qed.

Lemma not_full r q :
  neighborQueueFull r q = false ->
  (pendingTotal resolutionSize (dsPending q) < maxPendingNeighborTotal)%nat /\
  match r with Some r => (resolutionSize r < maxPendingNeighborDatagrams)%nat | None => True end.
Proof.
  unfold neighborQueueFull. intros [H1 H2]%orb_false_iff. apply bool_decide_eq_false in H2. split; [lia|].
  destruct r; [|done]. apply bool_decide_eq_false in H1. lia.
Qed.

Lemma queueOk_notification bound n target q : 0 <= bound -> queueOk bound q -> queueOk bound (queueNotificationNeighbor n target q).1.
Proof.
  intros Hb Hq. unfold queueNotificationNeighbor. destruct (dsStopped q); [by apply queueOk_log|].
  destruct (neighborQueueFull _ q) eqn:Hf; [by apply queueOk_log|]. apply not_full in Hf as [Ht Hs].
  destruct (dsPending q !! _) as [r|] eqn:Hr; cbn [fst]; [|by apply queueOk_new].
  pose proof (qo_pending _ _ Hq _ _ Hr) as [? ? ? ?]. eapply queueOk_set; try done.
  - split; cbn [nrID nrAttempts nrRefreshVersion]; try done. unfold resolutionSize in *. cbn. rewrite length_app. cbn. lia.
  - right. split; [|done]. unfold resolutionSize. cbn. rewrite length_app. cbn. lia.
Qed.

Lemma queueOk_packet bound packet route vlan q : 0 <= bound -> queueOk bound q -> queueOk bound (resolveHostNeighbor packet route vlan q).1.
Proof.
  intros Hb Hq. unfold resolveHostNeighbor. destruct (dsStopped q); [by apply queueOk_log|].
  destruct (neighborQueueFull _ q) eqn:Hf; [by apply queueOk_log|]. apply not_full in Hf as [Ht Hs]. cbv zeta.
  destruct (dsPending q !! _) as [r|] eqn:Hr; cbn [fst]; [|by apply queueOk_new].
  pose proof (qo_pending _ _ Hq _ _ Hr) as [? ? ? ?]. eapply queueOk_set; try done.
  - split; cbn [nrID nrAttempts nrRefreshVersion]; try done. unfold resolutionSize in *. cbn. rewrite length_app. cbn. lia.
  - right. split; [|done]. unfold resolutionSize. cbn. rewrite length_app. cbn. lia.
Qed.

Lemma queueOk_learned bound vlan target now q : queueOk bound q -> queueOk bound (learnedNeighborMAC vlan target now q).1.
Proof.
  intros Hq. unfold learnedNeighborMAC. destruct (dsNeighbors q !! _) as [x|]; [|done]. destruct (negb _); [|done].
  by apply (queueOk_same _ q); try done; apply Hq.
Qed.

(** ** What the works of the threads refer to *)

Definition workID (w : work) : option nat :=
  match w with
  | DoProbe _ id | DoCurrent _ id | DoRoute _ id _ | DoSettle _ id _ _ | DoFrame _ id _ _ _ | DoGiveUp _ id | DoArm _ id | DoRefresh _ id => Some id
  | DoRefreshNext h | DoRefreshLearn h _ _ _ _ => Some (rhID h)
  | _ => None
  end.

(** A probe of the resolution that was counted and is not sent yet. *)
Definition inFlight (id : nat) (w : work) : nat :=
  match w with
  | DoCurrent _ i | DoRoute _ i _ | DoSettle _ i _ _ | DoFrame _ i _ _ _ => if bool_decide (i = id) then 1 else 0
  | _ => 0
  end%nat.

Definition probeOf (id : nat) (o : outcome) : nat :=
  match o with Probed _ i _ _ _ => if bool_decide (i = id) then 1 else 0 | _ => 0 end%nat.

Definition probes (id : nat) (q : stackDatagramSender) : nat := sum_list_with (probeOf id) (dsLog q).

(** A work that will probe the resolution, or take it out. *)
Definition tends (key : notificationNeighborKey) (id : nat) (w : work) : Prop :=
  match w with
  | DoStart k => k = key
  | DoProbe k i | DoCurrent k i | DoRoute k i _ | DoSettle k i _ _ | DoFrame k i _ _ _ | DoGiveUp k i | DoArm k i => k = key /\ i = id
  | _ => False
  end.

(** The copies a refresh has of the notifications of a resolution. *)
Definition copiesOf (w : work) : option (refresh * list pendingNotification) :=
  match w with
  | DoRefreshNext h => Some (h, [])
  | DoRefreshLearn h current _ _ _ => Some (h, [current])
  | _ => None
  end.

(** ** What a datagram is, whatever route it has *)

Definition item : Type := (Addr * Z * Z * list Z) + (Z * list Z * option (list Z * list Z * list Z)).

Definition noteItem (n : pendingNotification) : item := inl (pnDestination n, pnDestinationPort n, pnSourcePort n, pnPayload n).
Definition packetItem (p : hostPacket) : item := inr (pkSerialNumber (hpPacket p), pkBuffer (hpPacket p), hpDecoded p).

Definition resolutionItems (r : notificationNeighborResolution) : list item :=
  (noteItem <$> nrNotifications r) ++ (packetItem <$> nrHostPackets r).

(** A weight of the items of a list, for any weight of an item. *)
Definition weigh (f : item -> nat) (l : list item) : nat := sum_list_with f l.
Arguments weigh : simpl never.

Definition copyItems (h : refresh) (extra : list pendingNotification) : list item :=
  noteItem <$> (rhTodo h ++ rhRetained h ++ (rfNotification <$> rhRedirected h) ++ rhDropped h ++ extra).

Definition copyOk (q : stackDatagramSender) (w : work) : Prop :=
  match copiesOf w with
  | None => True
  | Some (h, extra) =>
      forall r, pendingIs (rhKey h) (rhID h) q = Some r ->
        rhVersion h <= nrRefreshVersion r /\
        (nrRefreshVersion r = rhVersion h ->
          (rhCount h <= length (nrNotifications r))%nat /\ length (copyItems h extra) = rhCount h /\
          forall f, weigh f (copyItems h extra) = weigh f (noteItem <$> take (rhCount h) (nrNotifications r)))
  end.

Record stateOk (bound : Z) (q : stackDatagramSender) (ws : list work) : Prop := {
  st_queue : queueOk bound q;
  st_ids : forall w id, w ∈ ws -> workID w = Some id -> (id < dsFresh q)%nat;
  st_log : forall id, (dsFresh q <= id)%nat -> probes id q = 0%nat;
  st_copies : forall w, w ∈ ws -> copyOk q w;
  st_owner : forall key r t k i, dsPending q !! key = Some r -> nrTimer r = Some t -> (t < dsFresh q)%nat /\ (dsTimers q !! t = Some (k, i) -> i = nrID r);
  st_alive : forall key r, dsPending q !! key = Some r ->
    (exists w, w ∈ ws /\ tends key (nrID r) w) \/ exists t, dsTimers q !! t = Some (key, nrID r);
  st_probes : forall id, (probes id q + sum_list_with (inFlight id) ws <= notificationNeighborRetries)%nat;
  st_attempts : forall key r, dsPending q !! key = Some r -> (probes (nrID r) q + sum_list_with (inFlight (nrID r)) ws <= nrAttempts r)%nat
}.

#[export] Instance stateOk_proper bound q : Proper ((≡ₚ) ==> impl) (stateOk bound q).
Proof.
  intros ws ws' Hp [H1 H2 H3 H4 H5 H6 H7 H8]. split; try done.
  - intros w id. rewrite <- Hp. apply H2.
  - intros w. rewrite <- Hp. apply H4.
  - intros key r Hr. destruct (H6 key r Hr) as [(w & Hw & Ht)|Ht]; [left; exists w; by rewrite <- Hp|by right].
  - intros id. rewrite <- Hp. apply H7.
  - intros key r Hr. rewrite <- Hp. by apply (H8 key).
Qed.

(** ** How a step changes what is pending *)

(** Every resolution of [q'] was in [q], under the same number, at the same
    key, and only grew: notifications are appended unless a refresh replaced
    them, which its version tells; or it is new, and [more] starts its probes. *)
Record stepTo (q q' : stackDatagramSender) (more : list work) : Prop := {
  to_fresh : (dsFresh q <= dsFresh q')%nat;
  to_from : forall key r', dsPending q' !! key = Some r' ->
    (exists r, dsPending q !! key = Some r /\ nrID r = nrID r' /\ (nrAttempts r <= nrAttempts r')%nat /\
      (nrRefreshVersion r < nrRefreshVersion r' \/ (nrRefreshVersion r = nrRefreshVersion r' /\ nrNotifications r `prefix_of` nrNotifications r'))) \/
    (nrID r' = dsFresh q /\ nrTimer r' = None /\ DoStart key ∈ more)
}.

Lemma stepTo_refl q q' more : dsPending q' = dsPending q -> (dsFresh q <= dsFresh q')%nat -> stepTo q q' more.
Proof. intros E Hf. split; [done|]. intros key r' H. left. exists r'. rewrite E in H. split_and!; [done..|]. by right. Qed.

Lemma stepTo_set q key r r' more :
  dsPending q !! key = Some r -> nrID r' = nrID r -> (nrAttempts r <= nrAttempts r')%nat ->
  (nrRefreshVersion r < nrRefreshVersion r' \/ (nrRefreshVersion r = nrRefreshVersion r' /\ nrNotifications r `prefix_of` nrNotifications r')) ->
  stepTo q (setPending key r' q) more.
Proof.
  intros Hr Hid Ha Hv. split; [done|]. unfold setPending. cbn [setf dsPending]. intros k x. left.
  destruct (decide (k = key)) as [->|Hne]; [rewrite lookup_insert_eq in H; injection H as <-; by exists r|].
  rewrite lookup_insert_ne in H by done. exists x. split_and!; [done..|]. by right.
Qed.

Lemma stepTo_delete q key more : stepTo q (deletePending key q) more.
Proof.
  split; [done|]. unfold deletePending. cbn [setf dsPending]. intros k x [_ Hx]%lookup_delete_Some. left. exists x. split_and!; [done..|]. by right.
Qed.

Lemma stepTo_new q key r : nrID r = dsFresh q -> nrTimer r = None -> stepTo q (setPending key r q <| dsFresh := S (dsFresh q) |>) [DoStart key].
Proof.
  intros Hid Ht. split; unfold setPending; cbn [setf dsPending dsFresh]; [lia|]. intros k x.
  destruct (decide (k = key)) as [->|Hne]; [rewrite lookup_insert_eq; intros [= <-]; right; split_and!; [done..|by left]|].
  rewrite lookup_insert_ne by done. intros Hx. left. exists x. split_and!; [done..|]. by right.
Qed.

(** Only the pending resolutions and the next number count. *)
Lemma stepTo_ext q q1 q2 more : stepTo q q1 more -> dsPending q2 = dsPending q1 -> dsFresh q2 = dsFresh q1 -> stepTo q q2 more.
Proof. intros [H1 H2] E1 E2. split; [by rewrite E2|]. intros key r. rewrite E1. apply H2. Qed.

Lemma stepTo_notification n target q : let '(q', more) := queueNotificationNeighbor n target q in stepTo q q' more.
Proof.
  unfold queueNotificationNeighbor. destruct (dsStopped q); [by apply stepTo_refl|]. destruct (neighborQueueFull _ q); [by apply stepTo_refl|].
  destruct (dsPending q !! _) as [r|] eqn:Hr; [|by apply stepTo_new]. apply (stepTo_set _ _ r); try done. right. split; [done|]. cbn. by apply prefix_app_r.
Qed.

Lemma stepTo_packet packet route vlan q : let '(q', more) := resolveHostNeighbor packet route vlan q in stepTo q q' more.
Proof.
  unfold resolveHostNeighbor. destruct (dsStopped q); [by apply stepTo_refl|]. destruct (neighborQueueFull _ q); [by apply stepTo_refl|]. cbv zeta.
  destruct (dsPending q !! _) as [r|] eqn:Hr; [|by apply stepTo_new]. apply (stepTo_set _ _ r); try done. by right.
Qed.

Lemma learned_same vlan target now q :
  let q' := (learnedNeighborMAC vlan target now q).1 in
  dsPending q' = dsPending q /\ dsFresh q' = dsFresh q /\ dsTimers q' = dsTimers q /\ dsLog q' = dsLog q /\ dsStopped q' = dsStopped q.
Proof. unfold learnedNeighborMAC. destruct (dsNeighbors q !! _); [|done]. by destruct (negb _). Qed.

Lemma copyOk_step q q' more w :
  stepTo q q' more -> (forall id, workID w = Some id -> (id < dsFresh q)%nat) -> copyOk q w -> copyOk q' w.
Proof.
  intros [_ Hto] Hid. unfold copyOk. destruct (copiesOf w) as [[h extra]|] eqn:Ec; [|done]. intros Hc r' [Hr' Er]%pendingIs_spec.
  assert (rhID h < dsFresh q)%nat as Hlt by (apply Hid; by destruct w; simplify_eq/=).
  destruct (Hto _ _ Hr') as [(r & Hr & Ei & _ & Hv)|(Ei & _)]; [|lia].
  destruct (Hc r) as [Hle Heq]; [by apply pendingIs_spec; split; [|congruence]|]. split; [destruct Hv as [?|[? _]]; lia|]. intros Ev.
  destruct Hv as [Hv|[Hv Hp]]; [lia|]. destruct Heq as (Hcnt & Hl & Hw); [lia|]. pose proof (prefix_length _ _ Hp). split_and!; [lia|done|].
  intros f. rewrite Hw. do 2 f_equal. destruct Hp as [tail ->]. by rewrite take_app_le.
Qed.

(** The section a work runs. *)
Ltac open_work :=
  cbn [runWork]; unfold sendNotificationIntent, deliverNotification, dispatchNotification, prepareHostEgress, finishHostEgress, probeNeighbor, buildProbe,
    giveUpProbe, refreshNext.

Section runs.
Context (ranged : gmap Addr fabricEndpoint -> list fabricEndpoint).

Lemma commit_to bound h q :
  queueOk bound q -> bound + 1 < 2 ^ 64 -> stepTo q (commitRefresh h q).1 (commitRefresh h q).2.
Proof.
  intros Hq Hb. unfold commitRefresh. destruct (pendingIs _ _ q) as [r|] eqn:Hr; [|by apply stepTo_refl]. apply pendingIs_spec in Hr as [Hr _].
  destruct (negb _); [by apply stepTo_refl|]. case_bool_decide; [by apply stepTo_refl|]. cbv zeta. cbn [fst snd].
  pose proof (ro_version _ _ _ (qo_pending _ _ Hq _ _ Hr)) as Hv. set (q1 := q <| dsLog := _ |>).
  case_bool_decide as Hz.
  - eapply stepTo_ext; [apply (stepTo_delete q)| |]; done.
  - match goal with |- stepTo _ (setPending _ ?x _) _ => apply (stepTo_ext q (setPending (rhKey h) x q)); [apply (stepTo_set q _ r); [exact Hr|done|done|]|done|done] end.
    left. cbn [nrRefreshVersion setf]. unfold uint64. rewrite Z.mod_small by lia. lia.
Qed.

Lemma runWork_to bound rd w q : queueOk bound q -> bound + 1 < 2 ^ 64 -> stepTo q (runWork ranged rd w q).1 (runWork ranged rd w q).2.
Proof.
  intros Hq Hb. destruct w as [device n|device n target vlan hop|device n target mac|n target mac|packet|packet route vlan lookup hop|packet route vlan|packet|key|key id|
    key id|key id packet|key id packet route|key id egress vlan source|key id|key id|key id|h|h current target vlan hop]; open_work.
  - destruct (prepareNotificationIntent _ _ _ _) as [[[n' target] []]|]; by apply stepTo_refl.
  - pose proof (learned_same vlan hop (rdNow rd) q) as (E1 & E2 & _). destruct (learnedNeighborMAC vlan hop (rdNow rd) q). apply stepTo_refl; cbn in *; [done|lia].
  - destruct (deliverInsideSimulation _ _ _ _); by apply stepTo_refl.
  - case_bool_decide; [|by apply stepTo_refl]. pose proof (stepTo_notification n target q). by destruct (queueNotificationNeighbor _ _ q).
  - destruct (hostPacketRoute _ _ _) as [[route|]|]; [|by apply stepTo_refl..]. cbv zeta. destruct (hostNeighborMAC _ _ _ _); [case_bool_decide|]; by apply stepTo_refl.
  - pose proof (learned_same lookup hop (rdNow rd) q) as (E1 & E2 & _). destruct (learnedNeighborMAC lookup hop (rdNow rd) q) as [q1 mac]. cbn [fst] in *.
    case_bool_decide; apply stepTo_refl; cbn; rewrite ?E1; (done || lia).
  - pose proof (stepTo_packet packet route vlan q). by destruct (resolveHostNeighbor _ _ _ q).
  - by apply stepTo_refl.
  - by apply stepTo_refl.
  - unfold sendNeighborProbe. destruct (pendingIs _ _ q) as [r|] eqn:Hr; [|by apply stepTo_refl]. apply pendingIs_spec in Hr as [Hr _]. case_bool_decide.
    + eapply stepTo_ext; [apply (stepTo_delete q)| |]; done.
    + apply (stepTo_set _ _ r); try done; cbn; [lia|by right].
  - unfold currentNeighborProbe. destruct (pendingIs _ _ q) as [r|]; [|by apply stepTo_refl].
    destruct (probeFor key r), (nrHostPackets r); by apply stepTo_refl.
  - by apply stepTo_refl.
  - unfold settleHostProbe. destruct (pendingIs _ _ q) as [r|]; [|by apply stepTo_refl]. destruct (probeFor key r); [by apply stepTo_refl|].
    assert (forall more, stepTo q (stopTimer (nrTimer r) (deletePending key q)) more) as Hdel.
    { intros more. eapply stepTo_ext; [apply (stepTo_delete q key)| |]; by destruct (nrTimer r). }
    destruct route as [route|]; [|apply Hdel]. case_bool_decide; [by apply stepTo_refl|apply Hdel].
  - destruct (rdFrameBuilt rd); by apply stepTo_refl.
  - destruct (pendingIs _ _ q); [|by apply stepTo_refl]. eapply stepTo_ext; [apply (stepTo_delete q)| |]; done.
  - unfold armRetry. destruct (pendingIs _ _ q) as [r|] eqn:Hr; [|by apply stepTo_refl]. apply pendingIs_spec in Hr as [Hr _]. cbn [fst snd].
    assert (stepTo q (setPending key (r <| nrTimer := Some (dsFresh q) |>) q) []) as [_ Hto] by (apply (stepTo_set q key r); [done..|by right]).
    split; [cbn; lia|]. intros k x Hx. apply (Hto k x). exact Hx.
  - by apply stepTo_refl.
  - destruct (rhTodo h) as [|n todo]; [by eapply commit_to|]. cbv zeta. destruct (pnOriginDevice n); [|by apply stepTo_refl].
    destruct (prepareNotificationIntent _ _ _ _) as [[[n' target] []]|]; by apply stepTo_refl.
  - pose proof (learned_same vlan hop (rdNow rd) q) as (E1 & E2 & _). destruct (learnedNeighborMAC vlan hop (rdNow rd) q). apply stepTo_refl; cbn in *; [done|lia].
Qed.

Lemma commit_queue bound h q :
  queueOk bound q -> 0 <= bound -> bound + 1 < 2 ^ 64 -> copyOk q (DoRefreshNext h) -> rhTodo h = [] -> queueOk (bound + 1) (commitRefresh h q).1.
Proof.
  intros Hq Hb0 Hb Hc Htodo. unfold commitRefresh.
  assert (queueOk (bound + 1) q) as Hq1.
  { destruct Hq as [H1 H2 H3 H4 H5]. split; try done. intros key r Hr. eapply resolutionOk_more; [|reflexivity|by eapply H1]. lia. }
  destruct (pendingIs _ _ q) as [r|] eqn:Hr; [|done]. specialize (Hc r Hr) as [_ Hc]. apply pendingIs_spec in Hr as [Hr Hid].
  destruct (Z.eqb_spec (nrRefreshVersion r) (rhVersion h)) as [Ev|]; cbn [negb]; [|done]. destruct (Hc Ev) as (Hcnt & Hlen & _).
  rewrite (bool_decide_eq_false_2 (length _ < rhCount h)%nat) by lia. cbv zeta.
  pose proof (qo_pending _ _ Hq _ _ Hr) as [Hi Hs Ha Hv].
  assert (queueOk (bound + 1) (q <| dsLog := dsLog q ++ (Obsolete <$> rhDropped h) |>)) as Hq2.
  { apply (queueOk_same _ q); try done; [apply Hq|]. cbn. rewrite elem_of_app. intros [Hx|Hx]; [by apply (qo_calm _ _ Hq)|]. apply list_elem_of_fmap in Hx as (? & ? & _). done. }
  set (r' := r <| nrNotifications := _ |> <| nrRefreshVersion := _ |>).
  assert (resolutionSize r' <= resolutionSize r)%nat as Hsz.
  { subst r'. unfold resolutionSize. cbn. rewrite length_app, length_drop. unfold copyItems in Hlen. rewrite length_fmap, Htodo, !length_app in Hlen. cbn in Hlen. lia. }
  cbn [fst]. case_bool_decide as Hz; [by apply queueOk_delete|]. apply (queueOk_set _ _ r); try done; [|by left].
  split; [done|lia|done|]. subst r'. cbn [nrRefreshVersion setf]. unfold uint64. rewrite Z.mod_small by lia. lia.
Qed.

Lemma queueOk_later bound q : queueOk bound q -> queueOk (bound + 1) q.
Proof. intros [H1 H2 H3 H4 H5]. split; try done. intros key r Hr. eapply resolutionOk_more; [|reflexivity|by eapply H1]. lia. Qed.

Lemma queueOk_stop bound timer q : queueOk bound q -> queueOk bound (stopTimer timer q).
Proof.
  intros H. destruct timer as [t|]; [|done]. apply (queueOk_same _ q); try done; [|apply H]. cbn. intros t' key id Ht. apply lookup_delete_Some in Ht as [_ Ht].
  by apply (qo_timers _ _ H t' key id).
Qed.

Lemma runWork_queue bound rd w q :
  queueOk bound q -> 0 <= bound -> bound + 1 < 2 ^ 64 -> (forall id, workID w = Some id -> (id < dsFresh q)%nat) -> copyOk q w ->
  queueOk (bound + 1) (runWork ranged rd w q).1.
Proof.
  intros Hq0 Hb0 Hb Hid Hc. pose proof (queueOk_later _ _ Hq0) as Hq. assert (0 <= bound + 1) as Hb1 by lia.
  destruct w as [device n|device n target vlan hop|device n target mac|n target mac|packet|packet route vlan lookup hop|packet route vlan|packet|key|key id|
    key id|key id packet|key id packet route|key id egress vlan source|key id|key id|key id|h|h current target vlan hop]; open_work; try done.
  - destruct (prepareNotificationIntent _ _ _ _) as [[[n' target] []]|]; (done || by apply queueOk_log).
  - pose proof (queueOk_learned _ vlan hop (rdNow rd) q Hq). by destruct (learnedNeighborMAC vlan hop (rdNow rd) q).
  - destruct (deliverInsideSimulation _ _ _ _); (done || by apply queueOk_log).
  - case_bool_decide; [by apply queueOk_notification|by apply queueOk_log].
  - destruct (hostPacketRoute _ _ _) as [[route|]|]; [|by apply queueOk_log..]. cbv zeta. destruct (hostNeighborMAC _ _ _ _); [case_bool_decide|]; (done || by apply queueOk_log).
  - pose proof (queueOk_learned _ lookup hop (rdNow rd) q Hq). destruct (learnedNeighborMAC lookup hop (rdNow rd) q). case_bool_decide; (done || by apply queueOk_log).
  - by apply queueOk_packet.
  - by apply queueOk_log.
  - unfold sendNeighborProbe. destruct (pendingIs _ _ q) as [r|] eqn:Hr; [|done]. apply pendingIs_spec in Hr as [Hr _].
    case_bool_decide as Ha; cbn [fst]; [apply queueOk_log; [done|by apply queueOk_delete]|].
    pose proof (qo_pending _ _ Hq _ _ Hr) as [H1 H2 H3 H4]. apply (queueOk_set _ _ r); try done; [|by left]. split; try done. cbn. lia.
  - unfold currentNeighborProbe. destruct (pendingIs _ _ q) as [r|] eqn:Hr; [|done]. apply pendingIs_spec in Hr as [Hr _].
    pose proof (qo_pending _ _ Hq _ _ Hr) as [_ H2 _ _]. unfold probeFor, resolutionSize in *. destruct (nrNotifications r); [|done]. destruct (nrHostPackets r); [|done]. cbn in H2. lia.
  - unfold settleHostProbe. destruct (pendingIs _ _ q) as [r|]; [|done]. destruct (probeFor key r); [done|].
    assert (queueOk (bound + 1) (stopTimer (nrTimer r) (deletePending key q))) as Hd by by apply queueOk_stop, queueOk_delete.
    destruct route as [route|]; [|done]. by case_bool_decide.
  - destruct (rdFrameBuilt rd); (done || by apply queueOk_log).
  - destruct (pendingIs _ _ q); [|done]. apply queueOk_log; [done|by apply queueOk_delete].
  - unfold armRetry. destruct (pendingIs _ _ q) as [r|] eqn:Hr; [|done]. apply pendingIs_spec in Hr as [Hr _]. cbn [fst].
    pose proof (qo_pending _ _ Hq _ _ Hr) as Hok. specialize (Hid id eq_refl).
    assert (queueOk (bound + 1) (setPending key (r <| nrTimer := Some (dsFresh q) |>) q)) as Hset.
    { apply (queueOk_set _ _ r); try done; [by destruct Hok|by left]. }
    apply (queueOk_same _ _ _ Hset); [done|cbn; lia| |apply Hset]. cbn. intros t k i Ht.
    destruct (decide (t = dsFresh q)) as [->|Hne]; [rewrite lookup_insert_eq in Ht; injection Ht as _ <-; lia|].
    rewrite lookup_insert_ne in Ht by done. apply (qo_timers _ _ Hq) in Ht. lia.
  - destruct (rhTodo h) as [|n todo] eqn:Ht; [by apply commit_queue|]. cbv zeta. destruct (pnOriginDevice n); [|done].
    by destruct (prepareNotificationIntent _ _ _ _) as [[[n' target] []]|].
  - pose proof (queueOk_learned _ vlan hop (rdNow rd) q Hq). by destruct (learnedNeighborMAC vlan hop (rdNow rd) q).
Qed.

(** ** Threads, probes and timers *)

Record restOk (q : stackDatagramSender) (w : work) (q' : stackDatagramSender) (more : list work) : Prop := {
  rs_ids : forall w' id, w' ∈ more -> workID w' = Some id -> (id < dsFresh q')%nat;
  rs_probes : forall id,
    (probes id q' + sum_list_with (inFlight id) more <= probes id q + inFlight id w)%nat \/
    (exists key r, dsPending q !! key = Some r /\ nrID r = id /\ (nrAttempts r < notificationNeighborRetries)%nat /\
      (forall r', dsPending q' !! key = Some r' -> nrAttempts r' = S (nrAttempts r)) /\
      (probes id q' + sum_list_with (inFlight id) more <= S (probes id q + inFlight id w))%nat);
  rs_timers : forall t, dsTimers q' !! t = dsTimers q !! t \/
    (dsTimers q' !! t = None /\ exists key r, dsPending q !! key = Some r /\ nrTimer r = Some t /\ dsPending q' !! key = None) \/
    (t = dsFresh q /\ (dsFresh q < dsFresh q')%nat);
  rs_owner : forall key r', dsPending q' !! key = Some r' -> nrTimer r' = None \/
    (exists r, dsPending q !! key = Some r /\ nrID r = nrID r' /\ nrTimer r = nrTimer r') \/
    (nrTimer r' = Some (dsFresh q) /\ (dsFresh q < dsFresh q')%nat /\ dsTimers q' !! dsFresh q = Some (key, nrID r'));
  rs_alive : forall key r', dsPending q' !! key = Some r' -> tends key (nrID r') w ->
    (exists w', w' ∈ more /\ tends key (nrID r') w') \/ exists t, dsTimers q' !! t = Some (key, nrID r')
}.

Lemma probes_logged id o q : probes id (logged o q) = (probes id q + probeOf id o)%nat.
Proof. unfold probes, logged. cbn. rewrite sum_list_with_app. cbn. lia. Qed.

Lemma sum_none {A} (f : A -> nat) l : (forall x, x ∈ l -> f x = 0%nat) -> sum_list_with f l = 0%nat.
Proof.
  intros H. induction l as [|x l IH]; [done|]. cbn. rewrite H by by left. apply IH. intros y Hy. apply H. by right.
Qed.

(** A step that leaves the resolutions and timers alone, or takes one out. *)
Lemma restOk_quiet q w q' more :
  (dsPending q' = dsPending q \/ exists key, dsPending q' = delete key (dsPending q)) -> dsTimers q' = dsTimers q -> dsFresh q' = dsFresh q ->
  (forall id, probes id q' + sum_list_with (inFlight id) more <= probes id q + inFlight id w)%nat ->
  (forall w' id, w' ∈ more -> workID w' = Some id -> id < dsFresh q)%nat ->
  (forall key r, dsPending q' !! key = Some r -> tends key (nrID r) w -> exists w', w' ∈ more /\ tends key (nrID r) w') ->
  restOk q w q' more.
Proof.
  intros Hp Ht Hf Hpr Hi Ha. split.
  - by rewrite Hf.
  - intros id. by left.
  - intros t. left. by rewrite Ht.
  - intros key r' Hr'. right. left. exists r'. split; [|done]. destruct Hp as [<-|(k & E)]; [done|]. rewrite E in Hr'. by apply lookup_delete_Some in Hr' as [_ ?].
  - intros key r' Hr' Htd. left. by apply Ha.
Qed.

(** One that nobody relies on to go on, and that starts no probe. *)
Lemma restOk_idle q w q' more :
  dsPending q' = dsPending q -> dsTimers q' = dsTimers q -> dsFresh q' = dsFresh q ->
  (forall key id, ~ tends key id w) -> (forall id, probes id q' = probes id q) ->
  (forall w', w' ∈ more -> (forall id, inFlight id w' = 0%nat) /\ forall id, workID w' = Some id -> id < dsFresh q)%nat ->
  restOk q w q' more.
Proof.
  intros Hp Ht Hf Hw Hpr Hm. apply restOk_quiet; try done; [by left| | |].
  - intros id. rewrite Hpr. assert (sum_list_with (inFlight id) more = 0%nat) as ->; [|lia].
    apply sum_none. intros x Hx. by apply (Hm x Hx).
  - intros w' id Hw' E. by apply (Hm w' Hw').
  - intros key r _ Htd. by apply Hw in Htd.
Qed.

Lemma restOk_append q w key r r' :
  dsPending q !! key = Some r -> nrID r' = nrID r -> nrTimer r' = nrTimer r -> (forall key id, ~ tends key id w) -> restOk q w (setPending key r' q) [].
Proof.
  intros Hr Hid Ht Hw. split; unfold setPending; cbn [setf dsPending dsTimers dsFresh dsLog].
  - intros w' id Hw'. by apply elem_of_nil in Hw'.
  - intros id. left. cbn. unfold probes. cbn. lia.
  - intros t. by left.
  - intros k x Hx. right. left. destruct (decide (k = key)) as [->|Hne].
    + rewrite lookup_insert_eq in Hx. injection Hx as <-. by exists r.
    + rewrite lookup_insert_ne in Hx by done. by exists x.
  - intros k x _ Htd. by apply Hw in Htd.
Qed.

Lemma restOk_new q w key r :
  nrTimer r = None -> (forall key id, ~ tends key id w) -> restOk q w (setPending key r q <| dsFresh := S (dsFresh q) |>) [DoStart key].
Proof.
  intros Ht Hw. split; unfold setPending; cbn [setf dsPending dsTimers dsFresh dsLog].
  - intros w' id ->%list_elem_of_singleton. done.
  - intros id. left. cbn. unfold probes. cbn. lia.
  - intros t. by left.
  - intros k x. destruct (decide (k = key)) as [->|Hne].
    + rewrite lookup_insert_eq. intros [= <-]. by left.
    + rewrite lookup_insert_ne by done. intros Hx. right. left. by exists x.
  - intros k x _ Htd. by apply Hw in Htd.
Qed.

(** An outcome that is no probe, and nothing else. *)
Lemma restOk_logged q w o : (forall id, probeOf id o = 0%nat) -> (forall key id, ~ tends key id w) -> restOk q w (logged o q) [].
Proof.
  intros Ho Hw. apply restOk_idle; try done; [|intros w' Hw'; by apply elem_of_nil in Hw']. intros id. rewrite probes_logged, Ho. lia.
Qed.

Lemma restOk_notification n target mac q : let '(q', more) := queueNotificationNeighbor n target q in restOk q (DoDispatch n target mac) q' more.
Proof.
  unfold queueNotificationNeighbor. destruct (dsStopped q); [by apply restOk_logged; [|tauto]|]. destruct (neighborQueueFull _ q); [by apply restOk_logged; [|tauto]|].
  destruct (dsPending q !! _) as [r|] eqn:Hr; [by apply (restOk_append _ _ _ r); [..|tauto]|by apply restOk_new; [|tauto]].
Qed.

Lemma restOk_packet packet route vlan q : let '(q', more) := resolveHostNeighbor packet route vlan q in restOk q (DoQueueHost packet route vlan) q' more.
Proof.
  unfold resolveHostNeighbor. destruct (dsStopped q); [by apply restOk_logged; [|tauto]|]. destruct (neighborQueueFull _ q); [by apply restOk_logged; [|tauto]|].
  cbv zeta. destruct (dsPending q !! _) as [r|] eqn:Hr; [by apply (restOk_append _ _ _ r); [..|tauto]|by apply restOk_new; [|tauto]].
Qed.

(** A work that goes on with other works of the resolution, sends nothing. *)
Lemma restOk_next q w w' :
  (forall id, inFlight id w' <= inFlight id w)%nat -> (forall id, workID w' = Some id -> id < dsFresh q)%nat ->
  (forall key r, dsPending q !! key = Some r -> tends key (nrID r) w -> tends key (nrID r) w') -> restOk q w q [w'].
Proof.
  intros Hf Hi Ht. apply restOk_quiet; try done; [by left|..].
  - intros id. cbn. specialize (Hf id). lia.
  - intros x id ->%list_elem_of_singleton. apply Hi.
  - intros key r Hr Htd. exists w'. split; [by left|by apply Ht].
Qed.

(** The resolution is gone, or was never the one asked about. *)
Lemma restOk_gone q w key id :
  pendingIs key id q = None -> (forall k i, tends k i w -> k = key /\ i = id) -> restOk q w q [].
Proof.
  intros Hn Ht. apply restOk_quiet; try done; [by left|cbn; lia|intros w' i Hw'; by apply elem_of_nil in Hw'|].
  intros k r Hr [-> <-]%Ht. assert (pendingIs key (nrID r) q = Some r) by by apply pendingIs_spec. congruence.
Qed.

Lemma restOk_drop q w q' key r more :
  dsPending q !! key = Some r -> dsPending q' = delete key (dsPending q) -> dsTimers q' = dsTimers q \/ (exists t, nrTimer r = Some t /\ dsTimers q' = delete t (dsTimers q)) ->
  dsFresh q' = dsFresh q -> (forall id, probes id q' = probes id q) -> (forall k i, tends k i w -> k = key) ->
  (forall x, x ∈ more -> (forall id, inFlight id x = 0%nat) /\ workID x = None) -> restOk q w q' more.
Proof.
  intros Hr Hp Ht Hf Hpr Hw Hm. split.
  - intros x id Hx. rewrite (proj2 (Hm x Hx)). done.
  - intros id. left. rewrite Hpr. assert (sum_list_with (inFlight id) more = 0%nat) as ->; [|lia].
    apply sum_none. intros x Hx. by apply (Hm x Hx).
  - intros t. destruct Ht as [->|(t' & Et & ->)]; [by left|]. destruct (decide (t = t')) as [->|Hne]; [|left; by rewrite lookup_delete_ne].
    right. left. rewrite lookup_delete_eq. split; [done|]. exists key, r. by rewrite Hp, lookup_delete_eq.
  - intros k x Hx. right. left. exists x. split; [|done]. rewrite Hp in Hx. by apply lookup_delete_Some in Hx as [_ ?].
  - intros k x Hx ->%Hw. by rewrite Hp, lookup_delete_eq in Hx.
Qed.

Lemma commit_rest h q : restOk q (DoRefreshNext h) (commitRefresh h q).1 (commitRefresh h q).2.
Proof.
  unfold commitRefresh. assert (forall q', dsPending q' = dsPending q -> dsTimers q' = dsTimers q -> dsFresh q' = dsFresh q -> (forall id, probes id q' = probes id q) ->
    restOk q (DoRefreshNext h) q' []) as Hidle by (intros; apply restOk_idle; try done; [tauto|intros w' Hw'; by apply elem_of_nil in Hw']).
  destruct (pendingIs _ _ q) as [r|] eqn:Hr; [|by apply Hidle]. apply pendingIs_spec in Hr as [Hr _]. destruct (negb _); [by apply Hidle|].
  case_bool_decide; cbn [fst snd]; [by apply restOk_logged; [|tauto]|]. cbv zeta. cbn [fst snd].
  set (q1 := q <| dsLog := _ |>). assert (forall id, probes id q1 = probes id q) as Hpr.
  { intros id. unfold probes. subst q1. cbn. rewrite sum_list_with_app. assert (sum_list_with (probeOf id) (Obsolete <$> rhDropped h) = 0%nat) as ->; [|lia].
    apply sum_none. by intros x (? & -> & _)%list_elem_of_fmap. }
  assert (forall x, x ∈ ((fun f => DoDispatch (rfNotification f) (rfTarget f) (rfMAC f)) <$> rhRedirected h) -> (forall id, inFlight id x = 0%nat) /\ workID x = None) as Hmore.
  { intros x Hx. by apply list_elem_of_fmap in Hx as (f & -> & _). }
  case_bool_decide.
  - apply (restOk_drop q _ _ (rhKey h) r); try done; by left.
  - assert (forall id, sum_list_with (inFlight id) ((fun f => DoDispatch (rfNotification f) (rfTarget f) (rfMAC f)) <$> rhRedirected h) = 0%nat) as Hz by (intros id; apply sum_none; intros x Hx; by apply (Hmore x Hx)).
    split.
    + intros x id Hx. by rewrite (proj2 (Hmore x Hx)).
    + intros id. left. rewrite Hz. specialize (Hpr id). unfold probes, setPending in *. cbn in *. lia.
    + intros t. by left.
    + intros k x. unfold setPending. cbn [setf dsPending]. intros Hx. right. left. destruct (decide (k = rhKey h)) as [->|Hne].
      * rewrite lookup_insert_eq in Hx. injection Hx as <-. by exists r.
      * rewrite lookup_insert_ne in Hx by done. by exists x.
    + done.
Qed.

Lemma probe_rest bound key id q : queueOk bound q -> restOk q (DoProbe key id) (sendNeighborProbe key id q).1 (sendNeighborProbe key id q).2.
Proof.
  intros Hq. unfold sendNeighborProbe. destruct (pendingIs _ _ q) as [r|] eqn:Hr; [|by apply (restOk_gone _ _ key id); [|intros k i [<- <-]]]. apply pendingIs_spec in Hr as [Hr Hid].
  case_bool_decide as Ha; cbn [fst snd].
  - apply (restOk_drop q _ _ key r); try done; [by left|intros i; rewrite probes_logged; cbn; unfold probes, deletePending; cbn; lia|by intros k i [<- _]|].
    intros x Hx. by apply elem_of_nil in Hx.
  - split; unfold setPending; cbn [setf dsPending dsTimers dsFresh dsLog].
    + intros w' i ->%list_elem_of_singleton [= <-]. rewrite <- Hid. apply (qo_pending _ _ Hq _ _ Hr).
    + intros i. unfold probes. cbn. destruct (decide (id = i)) as [->|Hne].
      * right. exists key, r. rewrite (bool_decide_eq_true_2 (i = i)) by done. split_and!; [done|done|lia| |lia].
        rewrite lookup_insert_eq. by intros r' [= <-].
      * left. rewrite (bool_decide_eq_false_2 (id = i)) by done. lia.
    + intros t. by left.
    + intros k x Hx. right. left. destruct (decide (k = key)) as [->|Hne].
      * rewrite lookup_insert_eq in Hx. injection Hx as <-. by exists r.
      * rewrite lookup_insert_ne in Hx by done. by exists x.
    + intros k x Hx [<- <-]. left. exists (DoCurrent key id). split; [by left|done].
Qed.

Lemma arm_rest bound key id q : queueOk bound q -> restOk q (DoArm key id) (armRetry key id q) [].
Proof.
  intros Hq. unfold armRetry. destruct (pendingIs _ _ q) as [r|] eqn:Hr; [|by apply (restOk_gone _ _ key id); [|intros k i [<- <-]]]. apply pendingIs_spec in Hr as [Hr Hid].
  assert (forall k x, <[key := r <| nrTimer := Some (dsFresh q) |>]> (dsPending q) !! k = Some x ->
    (k = key /\ nrID x = id /\ nrTimer x = Some (dsFresh q)) \/ dsPending q !! k = Some x) as Hc.
  { intros k x. destruct (decide (k = key)) as [->|Hne]; [rewrite lookup_insert_eq; intros [= <-]; by left|rewrite lookup_insert_ne by done; by right]. }
  split; unfold setPending; cbn [setf dsPending dsTimers dsFresh dsLog].
  - intros w' i Hw'. by apply elem_of_nil in Hw'.
  - intros i. left. cbn. unfold probes. cbn. lia.
  - intros t. destruct (decide (t = dsFresh q)) as [->|Hne]; [right; right; split; [done|lia]|left; by rewrite lookup_insert_ne].
  - intros k x [(-> & Ei & Et)|Hx]%Hc; [|right; left; by exists x]. right. right. rewrite lookup_insert_eq, Ei. split_and!; [done|lia|done].
  - intros k x Hx [<- <-]. right. exists (dsFresh q). by rewrite lookup_insert_eq.
Qed.

(** A section that found its resolution and leaves it, going on with [more]. *)
Lemma restOk_on q w key id more :
  (forall k i, tends k i w -> k = key /\ i = id) -> (forall i, sum_list_with (inFlight i) more <= inFlight i w)%nat ->
  (forall x i, x ∈ more -> workID x = Some i -> i < dsFresh q)%nat -> (exists x, x ∈ more /\ tends key id x) -> restOk q w q more.
Proof.
  intros Ht Hf Hi (x & Hx & Hxt). apply restOk_quiet; try done; [by left|intros i; specialize (Hf i); lia|].
  intros k r Hr [-> <-]%Ht. by exists x.
Qed.

Lemma settle_rest bound key id packet route q :
  queueOk bound q -> restOk q (DoSettle key id packet route) (settleHostProbe key id packet route q).1 (settleHostProbe key id packet route q).2.
Proof.
  intros Hq. unfold settleHostProbe. destruct (pendingIs _ _ q) as [r|] eqn:Hr; [|by apply (restOk_gone _ _ key id); [|intros k i [<- <-]]].
  apply pendingIs_spec in Hr as [Hr Hid].
  assert (forall egress vlan source, restOk q (DoSettle key id packet route) q [DoFrame key id egress vlan source]) as Hframe.
  { intros egress vlan source. apply (restOk_on _ _ key id); [by intros k i [<- <-]|intros i; cbn; lia| |eexists; split; [by left|done]].
    intros x i ->%list_elem_of_singleton [= <-]. rewrite <- Hid. apply (qo_pending _ _ Hq _ _ Hr). }
  unfold probeFor. rewrite Hid. destruct (nrNotifications r); [|apply Hframe].
  assert (restOk q (DoSettle key id packet route) (stopTimer (nrTimer r) (deletePending key q)) (DoResend <$> nrHostPackets r)) as Hdrop.
  { apply (restOk_drop q _ _ key r); try done.
    - by destruct (nrTimer r).
    - destruct (nrTimer r) as [t|]; [right; by exists t|by left].
    - by destruct (nrTimer r).
    - intros i. by destruct (nrTimer r).
    - by intros k i [<- _].
    - by intros x (y & -> & _)%list_elem_of_fmap. }
  destruct route as [route|]; [|done]. case_bool_decide; [apply Hframe|done].
Qed.

Lemma runWork_rest bound rd w q :
  queueOk bound q -> (forall id, workID w = Some id -> (id < dsFresh q)%nat) ->
  restOk q w (runWork ranged rd w q).1 (runWork ranged rd w q).2.
Proof.
  intros Hq Hid.
  assert (forall q' more, dsPending q' = dsPending q -> dsTimers q' = dsTimers q -> dsFresh q' = dsFresh q -> dsLog q' = dsLog q ->
    (forall key id, ~ tends key id w) -> (forall x, x ∈ more -> (forall id, inFlight id x = 0) /\ forall id, workID x = Some id -> id < dsFresh q)%nat -> restOk q w q' more) as Hidle.
  { intros q' more H1 H2 H3 H4 H5 H6. apply restOk_idle; try done. intros id. unfold probes. by rewrite H4. }
  assert (forall q', dsPending q' = dsPending q -> dsTimers q' = dsTimers q -> dsFresh q' = dsFresh q -> dsLog q' = dsLog q -> (forall key id, ~ tends key id w) ->
    forall x, (forall id, inFlight id x = 0%nat) -> (forall id, workID x = Some id -> id < dsFresh q)%nat -> restOk q w q' [x]) as Hone.
  { intros q' H1 H2 H3 H4 H5 x H6 H7. apply Hidle; try done. by intros y ->%list_elem_of_singleton. }
  destruct w as [device n|device n target vlan hop|device n target mac|n target mac|packet|packet route vlan lookup hop|packet route vlan|packet|key|key id|
    key id|key id packet|key id packet route|key id egress vlan source|key id|key id|key id|h|h current target vlan hop]; open_work.
  - destruct (prepareNotificationIntent _ _ _ _) as [[[n' target] []]|]; [by apply Hone; [..|tauto| |]..|by apply restOk_logged; [|tauto]].
  - pose proof (learned_same vlan hop (rdNow rd) q) as (E1 & E2 & E3 & E4 & _). destruct (learnedNeighborMAC vlan hop (rdNow rd) q). by apply Hone; [..|tauto| |].
  - destruct (deliverInsideSimulation _ _ _ _); [by apply restOk_logged; [|tauto]|by apply Hone; [..|tauto| |]].
  - case_bool_decide; [|by apply restOk_logged; [|tauto]]. pose proof (restOk_notification n target mac q). by destruct (queueNotificationNeighbor _ _ q).
  - destruct (hostPacketRoute _ _ _) as [[route|]|]; [|by apply restOk_logged; [|tauto]..]. cbv zeta.
    destruct (hostNeighborMAC _ _ _ _); [case_bool_decide|]; [by apply Hone; [..|tauto| |]|by apply restOk_logged; [|tauto]|by apply Hone; [..|tauto| |]].
  - pose proof (learned_same lookup hop (rdNow rd) q) as (E1 & E2 & E3 & E4 & _). destruct (learnedNeighborMAC lookup hop (rdNow rd) q) as [q1 mac]. cbn [fst] in *.
    case_bool_decide; cbn [fst snd]; [by apply Hone; [..|tauto| |]|]. apply restOk_idle; try done; [tauto| |intros w' Hw'; by apply elem_of_nil in Hw'].
    intros id. rewrite probes_logged. unfold probes. rewrite E4. cbn. lia.
  - pose proof (restOk_packet packet route vlan q). by destruct (resolveHostNeighbor _ _ _ q).
  - by apply restOk_logged; [|tauto].
  - destruct (dsPending q !! key) as [r|] eqn:Hr; cbn [fst snd].
    + apply restOk_quiet; try done; [by left| |].
      * intros x id ->%list_elem_of_singleton [= <-]. apply (qo_pending _ _ Hq _ _ Hr).
      * intros k x Hx <-. rewrite Hr in Hx. injection Hx as ->. eexists. split; [by left|done].
    + apply restOk_quiet; try done; [by left|intros x id Hx; by apply elem_of_nil in Hx|]. intros k x Hx <-. congruence.
  - by eapply probe_rest.
  - unfold currentNeighborProbe. destruct (pendingIs _ _ q) as [r|] eqn:Hr; [|by apply (restOk_gone _ _ key id); [|intros k i [<- <-]]].
    apply pendingIs_spec in Hr as [Hr Hi]. pose proof (qo_pending _ _ Hq _ _ Hr) as [Hfr Hsz _ _]. unfold probeFor, resolutionSize in *. rewrite Hi in *.
    destruct (nrNotifications r) as [|n ns]; [destruct (nrHostPackets r) as [|p ps]; [cbn in Hsz; lia|]|]; cbn [fst snd];
      (apply (restOk_on _ _ key id); [by intros k i [<- <-]|intros i; cbn; lia|intros x i ->%list_elem_of_singleton [= <-]; lia|eexists; split; [by left|done]]).
  - cbn [fst snd]. by apply restOk_next.
  - by eapply settle_rest.
  - destruct (rdFrameBuilt rd); cbn [fst snd].
    + apply restOk_quiet; try done; [by left| | |].
      * intros i. rewrite probes_logged. cbn. lia.
      * intros x i ->%list_elem_of_singleton. apply Hid.
      * intros k r Hr [<- <-]. eexists. split; [by left|done].
    + apply restOk_next; try done. intros i. cbn. lia.
  - destruct (pendingIs _ _ q) as [r|] eqn:Hr; [|by apply (restOk_gone _ _ key id); [|intros k i [<- <-]]]. apply pendingIs_spec in Hr as [Hr Hi].
    cbn [fst snd]. apply (restOk_drop q _ _ key r); try done; [by left|intros i; rewrite probes_logged; cbn; unfold probes, deletePending; cbn; lia|by intros k i [<- _]|].
    intros x Hx. by apply elem_of_nil in Hx.
  - by eapply arm_rest.
  - apply Hidle; try done; [tauto|]. unfold beginRefresh. destruct (pendingIs _ _ q) as [r|] eqn:Hr; [|intros x Hx; by apply elem_of_nil in Hx].
    case_bool_decide; [intros x Hx; by apply elem_of_nil in Hx|]. intros x ->%list_elem_of_singleton. split; [done|]. intros i [= <-]. by apply Hid.
  - destruct (rhTodo h) as [|n todo]; [apply commit_rest|]. cbv zeta.
    destruct (pnOriginDevice n); [|by apply Hone; [..|tauto| |]]. unfold refreshed.
    destruct (prepareNotificationIntent _ _ _ _) as [[[n' target] []]|]; [|by apply Hone; [..|tauto| |]..]. apply Hone; try done; [tauto|]. intros i. destruct (_ && _); apply Hid.
  - pose proof (learned_same vlan hop (rdNow rd) q) as (E1 & E2 & E3 & E4 & _). destruct (learnedNeighborMAC vlan hop (rdNow rd) q) as [q1 mac]. cbn [fst snd] in *.
    apply Hone; try done; [tauto|]. intros i. unfold refreshed. destruct (_ && _); apply Hid.
Qed.

(** ** Copies *)

Lemma prepare_item s device n n' target mac : prepareNotificationIntent ranged s device n = inl (n', target, mac) -> noteItem n' = noteItem n.
Proof.
  unfold prepareNotificationIntent. destruct (nkStates s !! device); [|done]. destruct (negb (bool_decide (length _ = _))); [done|].
  destruct (negb _ && negb _); [done|]. destruct (projectNotificationMask _ _ _ _ _) as [snapshot|]; [|done].
  destruct (notificationSnapshotRoute _ _) as [source tgt]. destruct (negb (addrIsValid source)); [done|]. cbv zeta.
  match goal with |- context [negb (bool_decide (pnOriginInterface n = _)) && (negb ?b || _)] => destruct b end; destruct (negb _ && (_ || _)); try done.
  - destruct (true && notificationFaultedInterface _ _); [by intros [= <- _ _]|]. destruct (senderEgress _ _ _ _ _ _) as [[[e ns] t] rt].
    destruct (notificationDestinationMAC _ _ _); [|done]. by intros [= <- _ _].
  - cbn [andb]. destruct (senderEgress _ _ _ _ _ _) as [[[e ns] t] rt]. destruct (notificationDestinationMAC _ _ _); [|done]. by intros [= <- _ _].
Qed.

Lemma weigh_app f l k : weigh f (l ++ k) = (weigh f l + weigh f k)%nat.
Proof. apply sum_list_with_app. Qed.

Lemma weigh_cons f x l : weigh f (x :: l) = (f x + weigh f l)%nat.
Proof. done. Qed.

Lemma weigh_nil f : weigh f [] = 0%nat.
Proof. done. Qed.

Ltac weights := cbn; rewrite ?fmap_app, ?weigh_app, ?length_app; cbn; rewrite ?weigh_cons, ?weigh_nil; try lia.

(** The copies of a refresh, added up. *)
Lemma copyItems_weigh f h extra :
  weigh f (copyItems h extra) = (weigh f (noteItem <$> rhTodo h) + weigh f (noteItem <$> rhRetained h) + weigh f (noteItem ∘ rfNotification <$> rhRedirected h) +
    weigh f (noteItem <$> rhDropped h) + weigh f (noteItem <$> extra))%nat.
Proof. unfold copyItems. rewrite !fmap_app, !weigh_app, <- list_fmap_compose. lia. Qed.

Lemma copyItems_length h extra :
  length (copyItems h extra) = (length (rhTodo h) + length (rhRetained h) + length (rhRedirected h) + length (rhDropped h) + length extra)%nat.
Proof. unfold copyItems. rewrite length_fmap, !length_app, length_fmap. lia. Qed.

(** A refresh that goes on has the same items. *)
Lemma copyOk_next q w w' h extra h' extra' :
  copiesOf w = Some (h, extra) -> copiesOf w' = Some (h', extra') -> rhKey h' = rhKey h -> rhID h' = rhID h -> rhVersion h' = rhVersion h ->
  rhCount h' = rhCount h -> length (copyItems h' extra') = length (copyItems h extra) ->
  (forall f, weigh f (copyItems h' extra') = weigh f (copyItems h extra)) -> copyOk q w -> copyOk q w'.
Proof.
  intros E E' E1 E2 E3 E4 El Ew. unfold copyOk. rewrite E, E', E1, E2, E3, E4, El. intros H r Hr. destruct (H r Hr) as [H1 H2]. split; [done|].
  intros Hv. destruct (H2 Hv) as (H3 & H4 & H5). split_and!; [done..|]. intros f. by rewrite Ew.
Qed.

Lemma refreshed_copy h current target mac :
  let h' := refreshed h current target mac in
  rhKey h' = rhKey h /\ rhID h' = rhID h /\ rhVersion h' = rhVersion h /\ rhCount h' = rhCount h /\
  length (copyItems h' []) = length (copyItems h [current]) /\ forall f, weigh f (copyItems h' []) = weigh f (copyItems h [current]).
Proof.
  unfold refreshed. destruct (_ && _); (split_and!; [done..| |]); try intros f; rewrite ?copyItems_weigh, ?copyItems_length; weights.
Qed.

Lemma copyOk_pending q q' w : dsPending q' = dsPending q -> copyOk q w -> copyOk q' w.
Proof.
  intros E. unfold copyOk. destruct (copiesOf w) as [[h extra]|]; [|done]. intros H r Hr. apply H. unfold pendingIs in *. by rewrite <- E.
Qed.

Lemma begin_copies key id q w : w ∈ beginRefresh key id q -> copyOk q w.
Proof.
  unfold beginRefresh. destruct (pendingIs key id q) as [r|] eqn:Hr; [|by intros Hw%elem_of_nil]. case_bool_decide; [by intros Hw%elem_of_nil|].
  intros ->%list_elem_of_singleton. unfold copyOk. cbn [copiesOf rhKey rhID rhVersion rhCount]. intros x Hx. rewrite Hr in Hx. injection Hx as <-.
  split; [done|]. intros _. rewrite firstn_all. split_and!; [done| |].
  - rewrite copyItems_length. cbn. lia.
  - intros f. rewrite copyItems_weigh. weights.
Qed.

Lemma runWork_copies rd w q : copyOk q w -> forall w', w' ∈ (runWork ranged rd w q).2 -> copyOk (runWork ranged rd w q).1 w'.
Proof.
  intros Hc. assert (forall q' (more : list work), (forall w', w' ∈ more -> copiesOf w' = None) -> forall w', w' ∈ more -> copyOk q' w') as Hnone.
  { intros q' more H w' Hw'. unfold copyOk. by rewrite (H w' Hw'). }
  assert (forall q' x, copiesOf x = None -> forall w', w' ∈ [x] -> copyOk q' w') as Hone.
  { intros q' x H w' ->%list_elem_of_singleton. unfold copyOk. by rewrite H. }
  assert (forall (q' : stackDatagramSender) w', w' ∈ [] -> copyOk q' w') as Hnil by (intros q' w' H; by apply elem_of_nil in H).
  destruct w as [device n|device n target vlan hop|device n target mac|n target mac|packet|packet route vlan lookup hop|packet route vlan|packet|key|key id|
    key id|key id packet|key id packet route|key id egress vlan source|key id|key id|key id|h|h current target vlan hop]; open_work.
  - destruct (prepareNotificationIntent _ _ _ _) as [[[n' target] []]|]; [by apply Hone..|apply Hnil].
  - destruct (learnedNeighborMAC vlan hop (rdNow rd) q). by apply Hone.
  - destruct (deliverInsideSimulation _ _ _ _); [apply Hnil|by apply Hone].
  - case_bool_decide; [|apply Hnil]. unfold queueNotificationNeighbor. destruct (dsStopped q); [apply Hnil|]. destruct (neighborQueueFull _ q); [apply Hnil|].
    destruct (dsPending q !! _); [apply Hnil|by apply Hone].
  - destruct (hostPacketRoute _ _ _) as [[route|]|]; [|apply Hnil..]. cbv zeta. destruct (hostNeighborMAC _ _ _ _); [case_bool_decide|]; (apply Hnil || by apply Hone).
  - destruct (learnedNeighborMAC lookup hop (rdNow rd) q). case_bool_decide; (apply Hnil || by apply Hone).
  - unfold resolveHostNeighbor. destruct (dsStopped q); [apply Hnil|]. destruct (neighborQueueFull _ q); [apply Hnil|]. cbv zeta.
    destruct (dsPending q !! _); [apply Hnil|by apply Hone].
  - apply Hnil.
  - destruct (dsPending q !! key); [by apply Hone|apply Hnil].
  - unfold sendNeighborProbe. destruct (pendingIs _ _ q); [|apply Hnil]. case_bool_decide; [apply Hnil|by apply Hone].
  - unfold currentNeighborProbe, probeFor. destruct (pendingIs _ _ q) as [r|]; [|apply Hnil]. destruct (nrNotifications r), (nrHostPackets r); (apply Hnil || by apply Hone).
  - by apply Hone.
  - unfold settleHostProbe, probeFor. destruct (pendingIs _ _ q) as [r|]; [|apply Hnil]. destruct (nrNotifications r); [|by apply Hone].
    assert (forall w', w' ∈ DoResend <$> nrHostPackets r -> copiesOf w' = None) as Hr by (intros w' Hw'; by apply list_elem_of_fmap in Hw' as (y & -> & _)).
    destruct route; [case_bool_decide; [by apply Hone|]|]; by apply Hnone.
  - destruct (rdFrameBuilt rd); by apply Hone.
  - apply Hnil.
  - apply Hnil.
  - apply begin_copies.
  - destruct (rhTodo h) as [|n todo] eqn:Ht.
    + unfold commitRefresh. destruct (pendingIs _ _ q); [|apply Hnil]. destruct (negb _); [apply Hnil|]. case_bool_decide; [apply Hnil|]. cbv zeta. apply Hnone.
      intros w' Hw'. by apply list_elem_of_fmap in Hw' as (y & -> & _).
    + cbv zeta. set (h0 := h <| rhTodo := todo |>).
      assert (forall h' extra x, copiesOf x = Some (h', extra) -> rhKey h' = rhKey h -> rhID h' = rhID h -> rhVersion h' = rhVersion h -> rhCount h' = rhCount h ->
        length (copyItems h' extra) = length (copyItems h0 [n]) -> (forall f, weigh f (copyItems h' extra) = weigh f (copyItems h0 [n])) ->
        forall w', w' ∈ [x] -> copyOk q w') as Hgo.
      { intros h' extra x Ex E1 E2 E3 E4 El Ew w' ->%list_elem_of_singleton. apply (copyOk_next q (DoRefreshNext h) x h [] h' extra); try done.
        - rewrite El, !copyItems_length. subst h0. cbn. rewrite Ht. weights.
        - intros f. rewrite Ew, !copyItems_weigh. subst h0. cbn. rewrite Ht. weights. }
      destruct (pnOriginDevice n) as [device|].
      * destruct (prepareNotificationIntent _ _ _ _) as [[[n' target] [mac|vlan hop]]|] eqn:Hp.
        -- apply prepare_item in Hp. destruct (refreshed_copy h0 n' target mac) as (E1 & E2 & E3 & E4 & El & Ew). eapply Hgo; try done; [by rewrite El, !copyItems_length|].
           intros f. rewrite Ew, !copyItems_weigh. cbn. by rewrite !weigh_cons, Hp.
        -- apply prepare_item in Hp. eapply Hgo; try done; [by rewrite !copyItems_length|]. intros f. rewrite !copyItems_weigh. cbn. by rewrite !weigh_cons, Hp.
        -- eapply Hgo; try done; [rewrite !copyItems_length|intros f; rewrite !copyItems_weigh]; subst h0; weights.
      * eapply Hgo; try done; [rewrite !copyItems_length|intros f; rewrite !copyItems_weigh]; subst h0; weights.
  - pose proof (learned_same vlan hop (rdNow rd) q) as (E1 & _). destruct (learnedNeighborMAC vlan hop (rdNow rd) q) as [q1 mac]. cbn [fst snd] in *.
    intros w' ->%list_elem_of_singleton. destruct (refreshed_copy h current target mac) as (F1 & F2 & F3 & F4 & El & Ew).
    apply (copyOk_pending q); [done|]. by apply (copyOk_next q (DoRefreshLearn h current target vlan hop) _ h [current] (refreshed h current target mac) []).
Qed.

(** ** One step of the system *)

(** What a step that adds the works [more] keeps, whether a thread or something
    outside took it; [w] is the work that was run, if one was. *)
Lemma stateOk_step bound q w ws q' more :
  stateOk bound q (w ++ ws) -> stepTo q q' more -> queueOk (bound + 1) q' -> (forall x, x ∈ more -> copyOk q' x) ->
  (forall x id, x ∈ more -> workID x = Some id -> (id < dsFresh q')%nat) ->
  (forall id, (probes id q' + sum_list_with (inFlight id) more <= probes id q + sum_list_with (inFlight id) w)%nat \/
    (exists key r, dsPending q !! key = Some r /\ nrID r = id /\ (nrAttempts r < notificationNeighborRetries)%nat /\
      (forall r', dsPending q' !! key = Some r' -> nrAttempts r' = S (nrAttempts r)) /\
      (probes id q' + sum_list_with (inFlight id) more <= S (probes id q + sum_list_with (inFlight id) w))%nat)) ->
  (forall key r' t k i, dsPending q' !! key = Some r' -> nrTimer r' = Some t -> (t < dsFresh q')%nat /\ (dsTimers q' !! t = Some (k, i) -> i = nrID r')) ->
  (forall key r', dsPending q' !! key = Some r' -> (exists r, dsPending q !! key = Some r /\ nrID r = nrID r') ->
    ((exists x, x ∈ w /\ tends key (nrID r') x) \/ exists t, dsTimers q !! t = Some (key, nrID r')) ->
    (exists x, x ∈ more /\ tends key (nrID r') x) \/ exists t, dsTimers q' !! t = Some (key, nrID r')) ->
  stateOk (bound + 1) q' (more ++ ws).
Proof.
  intros [H1 H2 H3 H4 H5 H6 H7 H8] Hto Hq' Hcp Hids Hpr Hown Hal.
  assert (forall id, sum_list_with (inFlight id) (more ++ ws) = sum_list_with (inFlight id) more + sum_list_with (inFlight id) ws)%nat as Ef by (intros; apply sum_list_with_app).
  assert (forall id, sum_list_with (inFlight id) (w ++ ws) = sum_list_with (inFlight id) w + sum_list_with (inFlight id) ws)%nat as Ew by (intros; apply sum_list_with_app).
  pose proof (to_fresh _ _ _ Hto) as Hf.
  assert (forall id, (dsFresh q <= id)%nat -> probes id q = 0%nat /\ sum_list_with (inFlight id) (w ++ ws) = 0%nat) as Hzero.
  { intros id Hle. split; [by apply H3|]. apply sum_none. intros x Hx. assert (workID x = Some id -> False) as Hn by (intros E; specialize (H2 x id Hx E); lia).
    destruct x; try done; cbn in *; rewrite bool_decide_eq_false_2; congruence. }
  split; [done|..].
  - intros x id [Hx|Hx]%elem_of_app E; [by eapply Hids|]. specialize (H2 x id ltac:(set_solver) E). lia.
  - intros id Hle. destruct (Hpr id) as [Hp|(key & r & Hr & Hid & _)].
    + destruct (Hzero id) as [Hz1 Hz2]; [lia|]. rewrite Ew in Hz2. lia.
    + pose proof (qo_pending _ _ H1 _ _ Hr) as [? _ _ _]. lia.
  - intros x [Hx|Hx]%elem_of_app; [by apply Hcp|]. apply (copyOk_step q q' more); [done| |by apply H4; set_solver].
    intros id. apply (H2 x). set_solver.
  - done.
  - intros key r' Hr'. destruct (to_from _ _ _ Hto key r' Hr') as [(r & Hr & Ei & _)|(_ & _ & Hs)]; [|left; exists (DoStart key); split; [set_solver|done]].
    destruct (H6 key r Hr) as [(x & [Hx|Hx]%elem_of_app & Hxt)|(t & Ht)].
    + destruct (Hal key r' Hr') as [(y & Hy & Hyt)|Ht]; [by exists r|left; exists x; by rewrite <- Ei|left; exists y; split; [set_solver|done]|by right].
    + left. exists x. rewrite <- Ei. split; [set_solver|done].
    + destruct (Hal key r' Hr') as [(y & Hy & Hyt)|Ht']; [by exists r|right; exists t; by rewrite <- Ei|left; exists y; split; [set_solver|done]|by right].
  - intros id. specialize (H7 id). rewrite Ef. rewrite Ew in H7. destruct (Hpr id) as [Hp|(key & r & Hr & Hid & Ha & _ & Hp)]; [lia|].
    specialize (H8 key r Hr). rewrite Hid, Ew in H8. lia.
  - intros key r' Hr'. rewrite Ef. destruct (to_from _ _ _ Hto key r' Hr') as [(r & Hr & Ei & Ea & _)|(Ei & _)].
    + specialize (H8 key r Hr). rewrite Ei, Ew in H8. destruct (Hpr (nrID r')) as [Hp|(k & x & Hx & Hid & Ha & Hs & Hp)]; [lia|].
      assert (key = k) as <- by (apply (qo_unique _ _ H1 _ _ _ _ Hr Hx); congruence). rewrite (Hs r' Hr'). rewrite Hr in Hx. injection Hx as <-. lia.
    + destruct (Hzero (nrID r')) as [Hz1 Hz2]; [lia|]. rewrite Ew in Hz2. destruct (Hpr (nrID r')) as [Hp|(k & x & Hx & Hid & _)]; [lia|].
      pose proof (qo_pending _ _ H1 _ _ Hx) as [? _ _ _]. lia.
Qed.

Lemma stateOk_run bound rd w q ws :
  0 <= bound -> bound + 1 < 2 ^ 64 -> stateOk bound q (w :: ws) ->
  stateOk (bound + 1) (runWork ranged rd w q).1 ((runWork ranged rd w q).2 ++ ws).
Proof.
  intros Hb0 Hb Hst. pose proof Hst as [H1 H2 H3 H4 H5 H6 H7 H8].
  assert (forall id, workID w = Some id -> (id < dsFresh q)%nat) as Hid by (intros id; apply (H2 w); by left).
  assert (copyOk q w) as Hc by (apply H4; by left).
  pose proof (runWork_to _ rd w q H1 Hb) as Hto. pose proof (runWork_rest _ rd w q H1 Hid) as [R1 R2 R3 R4 R5].
  apply (stateOk_step bound q [w] ws); try done.
  - by apply runWork_queue.
  - by apply runWork_copies.
  - intros id. cbn. destruct (R2 id) as [?|(key & r & ? & ? & ? & ? & ?)]; [left; lia|right; exists key, r; split_and!; try done; lia].
  - intros key r' t k i Hr' Ht. pose proof (to_fresh _ _ _ Hto) as Hf. destruct (R4 key r' Hr') as [E|[(r & Hr & Ei & Et)|(Et & Hlt & Et')]]; [congruence| |].
    + destruct (H5 key r t k i Hr) as [Hlt Hown]; [congruence|]. split; [lia|]. rewrite <- Ei.
      destruct (R3 t) as [->|[[-> _]|[-> _]]]; [done|done|lia].
    + rewrite Ht in Et. injection Et as ->. split; [done|]. rewrite Et'. by intros [= _ <-].
  - intros key r' Hr' (r & Hr & Ei) [(x & ->%list_elem_of_singleton & Hx)|(t & Ht)]; [by apply R5|]. destruct (R3 t) as [Et|[[Et (k & x & Hx & Hxt & Hgone)]|[-> _]]].
    + right. exists t. by rewrite Et.
    + exfalso. destruct (H5 k x t key (nrID r') Hx Hxt) as [_ Hown]. specialize (Hown Ht). assert (key = k) as <- by (apply (qo_unique _ _ H1 _ _ _ _ Hr Hx); congruence).
      congruence.
    + exfalso. apply (qo_timers _ _ H1) in Ht. lia.
Qed.

Definition systemOk (bound : Z) (y : system) : Prop := stateOk bound (syQueue y) (concat (syThreads y)).

Lemma thread_works (threads : list (list work)) i w rest :
  threads !! i = Some (w :: rest) ->
  exists others, concat threads ≡ₚ w :: others /\ forall more, concat (<[i := more ++ rest]> threads) ≡ₚ more ++ others.
Proof.
  intros Hi. exists (rest ++ concat (take i threads) ++ concat (drop (S i) threads)). pose proof (lookup_lt_Some _ _ _ Hi) as Hl. split.
  - rewrite <- (take_drop_middle threads i _ Hi) at 1. rewrite concat_app. cbn. rewrite app_comm_cons, (Permutation_app_comm (concat (take i threads))).
    rewrite <- !app_assoc, (Permutation_app_comm (concat (drop (S i) threads))). done.
  - intros more. rewrite insert_take_drop by done. rewrite concat_app. cbn. rewrite (Permutation_app_comm (concat (take i threads))).
    rewrite <- !app_assoc. do 2 f_equiv. by rewrite Permutation_app_comm.
Qed.

(** Something from outside that leaves the queue as it is and starts a thread. *)
Lemma stateOk_spawn bound q ws more :
  stateOk bound q ws -> (forall x, x ∈ more -> workID x = None) -> stateOk (bound + 1) q (more ++ ws).
Proof.
  intros Hst Hm. pose proof Hst as [H1 H2 H3 H4 H5 H6 H7 H8]. apply (stateOk_step bound q [] ws); try done.
  - by apply stepTo_refl.
  - by apply queueOk_later.
  - intros x Hx. unfold copyOk. specialize (Hm x Hx). by destruct x.
  - intros x id Hx. by rewrite (Hm x Hx).
  - intros id. left. cbn. rewrite (sum_none (inFlight id) more); [lia|]. intros x Hx. specialize (Hm x Hx). by destruct x.
  - intros key r Hr _ [(x & Hx & _)|Ht]; [by apply elem_of_nil in Hx|by right].
Qed.

Lemma fire_ok bound q ws t key id :
  dsTimers q !! t = Some (key, id) -> stateOk bound q ws ->
  stateOk (bound + 1) (q <| dsTimers := delete t (dsTimers q) |>) ([DoRefresh key id; DoProbe key id] ++ ws).
Proof.
  intros Ht Hst. pose proof Hst as [H1 H2 H3 H4 H5 H6 H7 H8]. pose proof (qo_timers _ _ H1 _ _ _ Ht) as [Hid _]. apply (stateOk_step bound q [] ws); try done.
  - by apply stepTo_refl.
  - apply queueOk_later, (queueOk_same _ q); try done; [|apply H1]. cbn. intros t' k i Hk. apply lookup_delete_Some in Hk as [_ Hk]. by apply (qo_timers _ _ H1 _ _ _ Hk).
  - intros x [->|[->|[]%elem_of_nil]%elem_of_cons]%elem_of_cons; done.
  - intros x i [->|[->|[]%elem_of_nil]%elem_of_cons]%elem_of_cons [= <-]; done.
  - intros i. left. cbn. unfold probes. cbn. lia.
  - intros k r t' k' i Hr Et. destruct (H5 k r t' k' i Hr Et) as [Hlt Hown]. split; [done|]. cbn. intros Hk. apply lookup_delete_Some in Hk as [_ Hk]. by apply Hown.
  - cbn [setf dsPending dsTimers]. intros k r Hr _ [(x & Hx & _)|(t' & Ht')]; [by apply elem_of_nil in Hx|]. destruct (decide (t' = t)) as [->|Hne].
    + rewrite Ht in Ht'. injection Ht' as -> ->. left. exists (DoProbe k (nrID r)). split; [set_solver|done].
    + right. exists t'. by rewrite lookup_delete_ne.
Qed.

Lemma observe_ok bound q ws vlan address mac now :
  stateOk bound q ws ->
  stateOk (bound + 1) (observeNeighbor vlan address mac now q).1 ((observeNeighbor vlan address mac now q).2 ++ ws).
Proof.
  intros Hst. pose proof Hst as [H1 H2 H3 H4 H5 H6 H7 H8]. unfold observeNeighbor. destruct (negb _); [by apply (stateOk_spawn _ _ _ []); [|intros x Hx; apply elem_of_nil in Hx]|].
  cbv zeta. set (key := newNotificationNeighborKey vlan address). cbn [fst snd].
  set (more := match dsPending q !! key with None => [] | Some r => _ end).
  assert (forall x, x ∈ more -> workID x = None /\ copiesOf x = None /\ forall id, inFlight id x = 0%nat) as Hm.
  { subst more. destruct (dsPending q !! key) as [r|]; [|intros x Hx; by apply elem_of_nil in Hx]. intros x [Hx|Hx]%elem_of_app.
    - by apply list_elem_of_fmap in Hx as (p & -> & _).
    - apply list_elem_of_fmap in Hx as (n & -> & _). by destruct (pnOriginDevice n). }
  set (q' := deletePending key _).
  assert (dsPending q' = delete key (dsPending q) /\ dsFresh q' = dsFresh q /\ dsLog q' = dsLog q) as (Ep & Ef & El) by (subst q'; by destruct (_ ≫= nrTimer)).
  assert (dsTimers q' = dsTimers q \/ exists t r, dsPending q !! key = Some r /\ nrTimer r = Some t /\ dsTimers q' = delete t (dsTimers q)) as Et.
  { subst q'. destruct (dsPending q !! key) as [r|]; cbn [mbind option_bind]; [|by left]. destruct (nrTimer r) as [t|] eqn:E; [right; by exists t, r|by left]. }
  apply (stateOk_step bound q [] ws); try done.
  - eapply stepTo_ext; [apply (stepTo_delete q key)|done|done].
  - apply queueOk_later, (queueOk_same _ (deletePending key q)); [by apply queueOk_delete|done|by rewrite Ef| |by rewrite El; apply H1].
    intros t k i. rewrite Ef. destruct Et as [->|(t' & r & _ & _ & ->)]; [apply H1|]. intros [_ Hk]%lookup_delete_Some. by apply (qo_timers _ _ H1 _ _ _ Hk).
  - intros x Hx. unfold copyOk. by rewrite (proj1 (proj2 (Hm x Hx))).
  - intros x id Hx. by rewrite (proj1 (Hm x Hx)).
  - intros id. left. rewrite (sum_none (inFlight id) more) by (intros x Hx; by apply (Hm x Hx)). unfold probes. rewrite El. cbn. lia.
  - intros k r t k' i Hr Ht. rewrite Ep in Hr. apply lookup_delete_Some in Hr as [_ Hr]. destruct (H5 k r t k' i Hr Ht) as [Hlt Hown]. rewrite Ef. split; [done|].
    destruct Et as [->|(t' & r' & _ & _ & ->)]; [done|]. intros [_ Hk]%lookup_delete_Some. by apply Hown.
  - intros k r Hr _ [(x & Hx & _)|(t & Ht)]; [by apply elem_of_nil in Hx|]. right. exists t. rewrite Ep in Hr. apply lookup_delete_Some in Hr as [Hne Hr].
    destruct Et as [->|(t' & r' & Hr' & Et' & ->)]; [done|]. rewrite lookup_delete_ne; [done|]. intros ->. apply Hne.
    destruct (H5 key r' t k (nrID r) Hr' Et') as [_ Hown]. symmetry. apply (qo_unique _ _ H1 _ _ _ _ Hr Hr'). by apply Hown.
Qed.

Lemma reset_ok bound q ws : stateOk bound q ws -> stateOk (bound + 1) (resetSender q) ws.
Proof.
  intros Hst. pose proof Hst as [H1 H2 H3 H4 H5 H6 H7 H8]. unfold resetSender. set (q0 := foldr stopTimer q _).
  assert (dsFresh q0 = dsFresh q /\ forall t x, dsTimers q0 !! t = Some x -> dsTimers q !! t = Some x) as [Ef Et].
  { subst q0. induction (nrTimer <$> (map_to_list (dsPending q)).*2) as [|[t|] l [IH1 IH2]]; [done| |done]. split; [done|]. cbn. intros t' x [_ Hx]%lookup_delete_Some. by apply IH2. }
  set (q' := _ <| dsLog := _ |>).
  assert (dsLog q' = dsLog q ++ (Cleared <$> (map_to_list (dsPending q)).*2)) as El by done.
  assert (forall id, probes id q' = probes id q) as Hpr.
  { intros id. unfold probes. rewrite El, sum_list_with_app, (sum_none (probeOf id) (Cleared <$> _)); [lia|]. by intros x (r & -> & _)%list_elem_of_fmap. }
  apply (stateOk_step bound q [] ws q' []); try done.
  - split; [cbn; by rewrite Ef|done].
  - split; try done.
    + change (dsPending q') with (∅ : pendingMap). unfold pendingTotal. rewrite map_to_list_empty. cbn. lia.
    + cbn. intros t key id Ht. rewrite Ef. apply (qo_timers _ _ H1 t key id). by apply Et.
    + rewrite El, elem_of_app. intros [Hx|Hx]; [by apply H1|]. by apply list_elem_of_fmap in Hx as (r & ? & _).
  - intros x Hx. by apply elem_of_nil in Hx.
  - intros x id Hx. by apply elem_of_nil in Hx.
  - intros id. left. rewrite Hpr. cbn. lia.
Qed.

Lemma systemStep_ok bound rd l y : 0 <= bound -> bound + 1 < 2 ^ 64 -> systemOk bound y -> systemOk (bound + 1) (systemStep ranged rd l y).
Proof.
  intros Hb0 Hb Hst. unfold systemOk in *. assert (stateOk (bound + 1) (syQueue y) (concat (syThreads y))) as Hsame by (by apply (stateOk_spawn _ _ _ []); [|intros x Hx; apply elem_of_nil in Hx]).
  assert (forall q ws threads, stateOk (bound + 1) q (ws ++ concat threads) -> stateOk (bound + 1) q (concat (threads ++ [ws]))) as Hspawn.
  { intros q ws threads. rewrite concat_app. cbn. by rewrite app_nil_r, (Permutation_app_comm (concat threads)). }
  destruct l as [device n|packet|timer|vlan address mac| | |thread]; cbn [systemStep].
  - apply Hspawn. apply stateOk_spawn; [done|]. by intros x ->%list_elem_of_singleton.
  - apply Hspawn. apply stateOk_spawn; [done|]. by intros x ->%list_elem_of_singleton.
  - destruct (dsTimers (syQueue y) !! timer) as [[key id]|] eqn:Ht; [|done]. apply Hspawn. cbn [syQueue syThreads]. by eapply fire_ok.
  - pose proof (observe_ok _ _ _ vlan address mac (rdNow rd) Hst) as Ho. destruct (observeNeighbor vlan address mac (rdNow rd) (syQueue y)) as [q works].
    by apply Hspawn.
  - by apply reset_ok.
  - destruct Hsame as [H1 H2 H3 H4 H5 H6 H7 H8]. split; try done. by apply (queueOk_same _ _ _ H1); [..|apply H1|apply H1].
  - destruct (syThreads y !! thread) as [[|w rest]|] eqn:Hth; [done| |done].
    destruct (thread_works _ _ _ _ Hth) as (others & Hperm & Hmore). rewrite Hperm in Hst.
    pose proof (stateOk_run bound rd w (syQueue y) others Hb0 Hb Hst) as Hrun. destruct (runWork ranged rd w (syQueue y)) as [q more]. cbn [fst snd syQueue syThreads] in *.
    by rewrite Hmore.
Qed.

Lemma initial_ok : systemOk 0 (mkSystem newStackDatagramSender []).
Proof.
  split; try done.
  - split; try done. unfold pendingTotal, maxPendingNeighborTotal. cbn. rewrite map_to_list_empty. cbn. lia.
    cbn. by apply not_elem_of_nil.
  - intros w id Hw. by apply elem_of_nil in Hw.
  - intros w Hw. by apply elem_of_nil in Hw.
  - intros id. unfold notificationNeighborRetries, probes. cbn. lia.
Qed.

Lemma run_snoc steps rd l : run ranged (steps ++ [(rd, l)]) = systemStep ranged rd l (run ranged steps).
Proof. unfold run. by rewrite foldl_app. Qed.

Lemma system_run_ok steps : Z.of_nat (length steps) < 2 ^ 64 -> systemOk (Z.of_nat (length steps)) (run ranged steps).
Proof.
  induction steps as [|[rd l] steps IH] using rev_ind; intros Hb; [apply initial_ok|]. rewrite run_snoc. rewrite length_app in *. cbn [length] in *.
  rewrite Nat2Z.inj_add in *. apply systemStep_ok; [lia|done|]. apply IH. lia.
Qed.

(** ** Every datagram is accounted for *)

Definition workItems (w : work) : list item :=
  match w with
  | DoIntent _ n | DoLearn _ n _ _ _ | DoDeliver _ n _ _ | DoDispatch n _ _ => [noteItem n]
  | DoHostEgress p | DoHostLearn p _ _ _ _ | DoQueueHost p _ _ | DoResend p => [packetItem p]
  | _ => []
  end.

Definition outcomeItems (o : outcome) : list item :=
  match o with
  | Emitted n _ | Inside n _ | Refused n _ | Obsolete n => [noteItem n]
  | HostSent p _ | HostPassed p | HostRefused p _ | Resent p => [packetItem p]
  | Unresolved r | Cleared r => resolutionItems r
  | Probed _ _ _ _ _ | Panicked => []
  end.

Definition submittedItems (l : label) : list item :=
  match l with Submit _ n => [noteItem n] | SubmitHost p => [packetItem p] | _ => [] end.

Definition weighAll {A} (f : item -> nat) (items : A -> list item) (l : list A) : nat := sum_list_with (fun x => weigh f (items x)) l.
Arguments weighAll : simpl never.

Lemma weighAll_app {A} f items (l k : list A) : weighAll f items (l ++ k) = (weighAll f items l + weighAll f items k)%nat.
Proof. apply sum_list_with_app. Qed.

#[local] Instance weighAll_proper {A} f (items : A -> list item) : Proper ((≡ₚ) ==> (=)) (weighAll f items).
Proof. intros l k H. unfold weighAll. by rewrite H. Qed.

Lemma weighAll_map {A B} f items (g : A -> B) (l : list A) : weighAll f items (g <$> l) = weighAll f (items ∘ g) l.
Proof. induction l as [|x l IH]; [done|]. unfold weighAll in *. cbn. by rewrite IH. Qed.

(** A list whose members stand for one item each. *)
Lemma weighAll_each {A} f (g : A -> item) (items : A -> list item) (l : list A) :
  (forall x, items x = [g x]) -> weighAll f items l = weigh f (g <$> l).
Proof.
  intros H. induction l as [|x l IH]; [done|]. unfold weighAll in *. cbn. rewrite H, weigh_cons, IH. unfold weigh. cbn. lia.
Qed.

(** What left the sender, what waits in it, and both. *)
Definition settled f (q : stackDatagramSender) : nat := weighAll f outcomeItems (dsLog q).
Definition waiting f (q : stackDatagramSender) : nat := pendingTotal (fun r => weigh f (resolutionItems r)) (dsPending q).
Definition held f (q : stackDatagramSender) : nat := (settled f q + waiting f q)%nat.

Lemma held_logged f o q : held f (logged o q) = (held f q + weigh f (outcomeItems o))%nat.
Proof. unfold held, settled, waiting, logged. cbn. rewrite weighAll_app. unfold weighAll at 2. cbn. lia. Qed.

Lemma held_set f key r r' q :
  dsPending q !! key = Some r -> (held f (setPending key r' q) + weigh f (resolutionItems r) = held f q + weigh f (resolutionItems r'))%nat.
Proof. intros H. unfold held, settled, waiting, setPending. cbn. pose proof (total_set (fun r => weigh f (resolutionItems r)) _ _ _ r' H). cbn in *. lia. Qed.

Lemma held_delete f key r q : dsPending q !! key = Some r -> (held f (deletePending key q) + weigh f (resolutionItems r) = held f q)%nat.
Proof. intros H. unfold held, settled, waiting, deletePending. cbn. rewrite (total_delete (fun r => weigh f (resolutionItems r)) _ _ _ H). lia. Qed.

Lemma held_same f q q' : dsPending q' = dsPending q -> dsLog q' = dsLog q -> held f q' = held f q.
Proof. intros E1 E2. unfold held, settled, waiting. by rewrite E1, E2. Qed.

Lemma held_new f key r q :
  dsPending q !! key = None -> held f (setPending key r q <| dsFresh := S (dsFresh q) |>) = (held f q + weigh f (resolutionItems r))%nat.
Proof. intros H. unfold held, settled, waiting, setPending. cbn. rewrite total_new by done. lia. Qed.

Lemma items_weigh f r : weigh f (resolutionItems r) = (weigh f (noteItem <$> nrNotifications r) + weigh f (packetItem <$> nrHostPackets r))%nat.
Proof. apply weigh_app. Qed.

Lemma notification_held f n target q :
  let '(q', more) := queueNotificationNeighbor n target q in (held f q' + weighAll f workItems more = held f q + weigh f [noteItem n])%nat.
Proof.
  unfold queueNotificationNeighbor. destruct (dsStopped q); [rewrite held_logged; unfold weighAll; cbn; lia|].
  destruct (neighborQueueFull _ q); [rewrite held_logged; unfold weighAll; cbn; lia|].
  destruct (dsPending q !! _) as [r|] eqn:Hr.
  - match goal with |- context [setPending _ ?x _] => pose proof (held_set f _ _ x _ Hr) as H end. rewrite !items_weigh in H. revert H. weights. unfold weighAll. weights.
  - rewrite held_new by done. rewrite items_weigh. weights. unfold weighAll. weights.
Qed.

Lemma packet_held f packet route vlan q :
  let '(q', more) := resolveHostNeighbor packet route vlan q in (held f q' + weighAll f workItems more = held f q + weigh f [packetItem packet])%nat.
Proof.
  unfold resolveHostNeighbor. destruct (dsStopped q); [rewrite held_logged; unfold weighAll; cbn; lia|].
  destruct (neighborQueueFull _ q); [rewrite held_logged; unfold weighAll; cbn; lia|]. cbv zeta.
  destruct (dsPending q !! _) as [r|] eqn:Hr.
  - match goal with |- context [setPending _ ?x _] => pose proof (held_set f _ _ x _ Hr) as H end. rewrite !items_weigh in H. revert H. weights. unfold weighAll. cbn. rewrite ?weigh_nil.
    change (packetItem (mkHostPacket _ _)) with (packetItem packet). lia.
  - rewrite held_new by done. rewrite items_weigh. weights. unfold weighAll. cbn. rewrite ?weigh_nil. change (packetItem (mkHostPacket _ _)) with (packetItem packet). lia.
Qed.

Lemma commit_held f h q :
  copyOk q (DoRefreshNext h) -> rhTodo h = [] ->
  (held f (commitRefresh h q).1 + weighAll f workItems (commitRefresh h q).2 = held f q)%nat.
Proof.
  intros Hc Ht. unfold commitRefresh. assert (forall q' : stackDatagramSender, held f q' + weighAll f workItems [] = held f q')%nat as Hnil by (intros; unfold weighAll; cbn; lia).
  destruct (pendingIs _ _ q) as [r|] eqn:Hr; [|apply Hnil]. specialize (Hc r Hr) as [_ Hc]. apply pendingIs_spec in Hr as [Hr _].
  destruct (Z.eqb_spec (nrRefreshVersion r) (rhVersion h)) as [Ev|]; cbn [negb]; [|apply Hnil]. destruct (Hc Ev) as (Hcnt & Hlen & Hw).
  rewrite (bool_decide_eq_false_2 (length _ < rhCount h)%nat) by lia. cbv zeta. cbn [fst snd].
  set (r' := r <| nrNotifications := _ |> <| nrRefreshVersion := _ |>). set (q1 := q <| dsLog := _ |>).
  assert (held f q1 = held f q + weigh f (noteItem <$> rhDropped h))%nat as Hq1.
  { subst q1. unfold held, settled, waiting. cbn. rewrite weighAll_app, weighAll_map, (weighAll_each f noteItem) by done. lia. }
  rewrite weighAll_map, (weighAll_each f (noteItem ∘ rfNotification)) by done.
  specialize (Hw f). rewrite copyItems_weigh, Ht in Hw. cbn in Hw. rewrite !weigh_nil in Hw.
  assert (weigh f (resolutionItems r) = weigh f (noteItem <$> take (rhCount h) (nrNotifications r)) + weigh f (noteItem <$> drop (rhCount h) (nrNotifications r)) +
    weigh f (packetItem <$> nrHostPackets r))%nat as Er by (rewrite items_weigh; rewrite <- (take_drop (rhCount h) (nrNotifications r)) at 1; by rewrite fmap_app, weigh_app).
  assert (weigh f (resolutionItems r') = weigh f (noteItem <$> rhRetained h) + weigh f (noteItem <$> drop (rhCount h) (nrNotifications r)) +
    weigh f (packetItem <$> nrHostPackets r))%nat as Er' by (by rewrite items_weigh; subst r'; cbn; rewrite fmap_app, weigh_app).
  case_bool_decide as Hz; cbn [fst snd].
  - pose proof (held_delete f (rhKey h) r q1 Hr) as Hd. assert (resolutionItems r' = []) as E0.
    { unfold resolutionItems, resolutionSize in *. destruct (nrNotifications r'); [|done]. by destruct (nrHostPackets r'). }
    rewrite E0, weigh_nil in Er'. lia.
  - pose proof (held_set f (rhKey h) r r' q1 Hr) as Hd. lia.
Qed.

Lemma learned_held f vlan target now q : held f (learnedNeighborMAC vlan target now q).1 = held f q.
Proof. pose proof (learned_same vlan target now q) as (E1 & _ & _ & E4 & _). by apply held_same. Qed.

Lemma runWork_held f bound rd w q :
  queueOk bound q -> copyOk q w ->
  (held f (runWork ranged rd w q).1 + weighAll f workItems (runWork ranged rd w q).2 = held f q + weigh f (workItems w))%nat.
Proof.
  intros Hq Hc. assert (forall x l, weighAll f workItems (x :: l) = weigh f (workItems x) + weighAll f workItems l)%nat as Hcons by done.
  assert (weighAll f workItems [] = 0)%nat as Hnil by done.
  destruct w as [device n|device n target vlan hop|device n target mac|n target mac|packet|packet route vlan lookup hop|packet route vlan|packet|key|key id|
    key id|key id packet|key id packet route|key id egress vlan source|key id|key id|key id|h|h current target vlan hop]; open_work.
  - destruct (prepareNotificationIntent _ _ _ _) as [[[n' target] []]|] eqn:Hp; cbn [fst snd]; [apply prepare_item in Hp; rewrite Hcons, Hnil; cbn; rewrite Hp; lia..|].
    rewrite held_logged, Hnil. cbn. lia.
  - pose proof (learned_held f vlan hop (rdNow rd) q). destruct (learnedNeighborMAC vlan hop (rdNow rd) q). cbn [fst snd] in *. rewrite Hcons, Hnil. cbn. lia.
  - destruct (deliverInsideSimulation _ _ _ _); cbn [fst snd]; rewrite ?held_logged, ?Hcons, Hnil; cbn; lia.
  - case_bool_decide; cbn [fst snd]; [|rewrite held_logged, Hnil; cbn; lia]. pose proof (notification_held f n target q). by destruct (queueNotificationNeighbor _ _ q).
  - destruct (hostPacketRoute _ _ _) as [[route|]|]; cbn [fst snd]; [|rewrite held_logged, Hnil; cbn; lia..]. cbv zeta.
    destruct (hostNeighborMAC _ _ _ _); [case_bool_decide|]; cbn [fst snd]; rewrite ?held_logged, ?Hcons, Hnil; cbn; lia.
  - pose proof (learned_held f lookup hop (rdNow rd) q). destruct (learnedNeighborMAC lookup hop (rdNow rd) q). cbn [fst snd] in *.
    case_bool_decide; cbn [fst snd]; rewrite ?held_logged, ?Hcons, Hnil; cbn; lia.
  - pose proof (packet_held f packet route vlan q). by destruct (resolveHostNeighbor _ _ _ q).
  - cbn [fst snd]. rewrite held_logged, Hnil. cbn. lia.
  - cbn [fst snd]. destruct (dsPending q !! key); rewrite ?Hcons, Hnil; cbn; rewrite ?weigh_nil; lia.
  - unfold sendNeighborProbe. destruct (pendingIs _ _ q) as [r|] eqn:Hr; cbn [fst snd]; [|rewrite Hnil; cbn; rewrite weigh_nil; lia].
    apply pendingIs_spec in Hr as [Hr _]. case_bool_decide; cbn [fst snd].
    + rewrite held_logged, Hnil. pose proof (held_delete f _ _ _ Hr). cbn. rewrite weigh_nil. lia.
    + match goal with |- context [setPending _ ?x _] =>
        pose proof (held_set f _ _ x _ Hr) as H1; change (resolutionItems x) with (resolutionItems r) in H1 end.
      rewrite Hcons, Hnil. cbn [workItems]. rewrite weigh_nil. lia.
  - unfold currentNeighborProbe. destruct (pendingIs _ _ q) as [r|] eqn:Hr; cbn [fst snd]; [|rewrite Hnil; cbn; rewrite weigh_nil; lia].
    apply pendingIs_spec in Hr as [Hr _]. pose proof (qo_pending _ _ Hq _ _ Hr) as [_ Hsz _ _]. unfold probeFor, resolutionSize in *.
    destruct (nrNotifications r), (nrHostPackets r); cbn [fst snd]; rewrite ?Hcons, ?held_logged, Hnil; cbn; rewrite ?weigh_nil; lia.
  - cbn [fst snd]. rewrite Hcons, Hnil. cbn. rewrite weigh_nil. lia.
  - unfold settleHostProbe. destruct (pendingIs _ _ q) as [r|] eqn:Hr; cbn [fst snd]; [|rewrite Hnil; cbn; rewrite weigh_nil; lia].
    apply pendingIs_spec in Hr as [Hr _]. unfold probeFor. destruct (nrNotifications r) as [|n l] eqn:En; cbn [fst snd]; [|rewrite Hcons, Hnil; cbn; rewrite weigh_nil; lia].
    assert (held f (stopTimer (nrTimer r) (deletePending key q)) + weighAll f workItems (DoResend <$> nrHostPackets r) = held f q)%nat as Hdrop.
    { rewrite weighAll_map, (weighAll_each f packetItem) by done. rewrite (held_same f (deletePending key q)) by (by destruct (nrTimer r)).
      pose proof (held_delete f _ _ _ Hr) as Hd. rewrite items_weigh, En in Hd. cbn in Hd. rewrite weigh_nil in Hd. lia. }
    cbn [workItems]. rewrite weigh_nil. destruct route; [case_bool_decide|]; cbn [fst snd]; [rewrite Hcons, Hnil; cbn; rewrite weigh_nil; lia|lia..].
  - destruct (rdFrameBuilt rd); cbn [fst snd]; rewrite ?held_logged, ?Hcons, Hnil; cbn; rewrite ?weigh_nil; lia.
  - destruct (pendingIs _ _ q) as [r|] eqn:Hr; cbn [fst snd]; [|rewrite Hnil; cbn; rewrite weigh_nil; lia]. apply pendingIs_spec in Hr as [Hr _].
    rewrite held_logged, Hnil. pose proof (held_delete f _ _ _ Hr). cbn. rewrite weigh_nil. lia.
  - cbn [fst snd]. rewrite Hnil. cbn [workItems]. rewrite weigh_nil. unfold armRetry. destruct (pendingIs _ _ q) as [r|] eqn:Hr; [|lia]. apply pendingIs_spec in Hr as [Hr _].
    match goal with |- context [setPending _ ?x _] => pose proof (held_set f _ _ x _ Hr) as H1; change (resolutionItems x) with (resolutionItems r) in H1;
      rewrite (held_same f (setPending key x q)) by done end. lia.
  - cbn [fst snd]. unfold beginRefresh. destruct (pendingIs _ _ q) as [r|]; [case_bool_decide|]; rewrite ?Hcons, Hnil; cbn; rewrite ?weigh_nil; lia.
  - destruct (rhTodo h) as [|n todo] eqn:Ht; [rewrite commit_held by done; cbn; rewrite weigh_nil; lia|]. cbv zeta.
    destruct (pnOriginDevice n); [destruct (prepareNotificationIntent _ _ _ _) as [[[n' target] []]|]|]; cbn [fst snd]; rewrite Hcons, Hnil; cbn; rewrite weigh_nil; lia.
  - pose proof (learned_held f vlan hop (rdNow rd) q). destruct (learnedNeighborMAC vlan hop (rdNow rd) q). cbn [fst snd] in *. rewrite Hcons, Hnil. cbn. rewrite weigh_nil. lia.
Qed.

Definition systemHeld f (y : system) : nat := (held f (syQueue y) + weighAll f workItems (concat (syThreads y)))%nat.

Lemma observe_held f vlan address mac now q :
  (held f (observeNeighbor vlan address mac now q).1 + weighAll f workItems (observeNeighbor vlan address mac now q).2 = held f q)%nat.
Proof.
  unfold observeNeighbor. destruct (negb _); cbv zeta; cbn [fst snd]; [unfold weighAll; cbn; lia|]. set (key := newNotificationNeighborKey vlan address).
  rewrite (held_same f (deletePending key q)) by (by destruct (_ ≫= nrTimer)). destruct (dsPending q !! key) as [r|] eqn:Hr.
  - rewrite weighAll_app, !weighAll_map, (weighAll_each f packetItem) by done. rewrite (weighAll_each f noteItem) by (intros n; cbn; by destruct (pnOriginDevice n)).
    pose proof (held_delete f _ _ _ Hr) as Hd. rewrite items_weigh in Hd. lia.
  - unfold weighAll. cbn. rewrite (held_same f q); [lia| |done]. unfold deletePending. cbn. by apply delete_id.
Qed.

Lemma reset_held f q : held f (resetSender q) = held f q.
Proof.
  unfold resetSender, held, settled, waiting. cbn. rewrite weighAll_app, weighAll_map. unfold pendingTotal at 1. rewrite map_to_list_empty. cbn.
  unfold weighAll at 2. unfold pendingTotal. cbn. lia.
Qed.

Lemma systemStep_held f bound rd l y :
  systemOk bound y -> systemHeld f (systemStep ranged rd l y) = (systemHeld f y + weigh f (submittedItems l))%nat.
Proof.
  intros Hst. unfold systemHeld. assert (forall works (threads : list (list work)), weighAll f workItems (concat (threads ++ [works])) =
    weighAll f workItems (concat threads) + weighAll f workItems works)%nat as Hspawn by (intros; by rewrite concat_app; cbn; rewrite app_nil_r, weighAll_app).
  destruct l as [device n|packet|timer|vlan address mac| | |thread]; cbn [systemStep submittedItems spawn syQueue syThreads]; rewrite ?weigh_nil.
  - rewrite Hspawn. unfold weighAll at 2. cbn. lia.
  - rewrite Hspawn. unfold weighAll at 2. cbn. lia.
  - destruct (dsTimers (syQueue y) !! timer) as [[key id]|]; [|lia]. cbn [spawn syQueue syThreads]. rewrite Hspawn, (held_same f (syQueue y)) by done.
    unfold weighAll at 2. cbn. rewrite weigh_nil. lia.
  - pose proof (observe_held f vlan address mac (rdNow rd) (syQueue y)). destruct (observeNeighbor vlan address mac (rdNow rd) (syQueue y)).
    cbn [fst snd spawn syQueue syThreads] in *. rewrite Hspawn. lia.
  - rewrite reset_held. lia.
  - rewrite (held_same f (syQueue y)) by done. lia.
  - destruct (syThreads y !! thread) as [[|w rest]|] eqn:Hth; [lia| |lia]. destruct (thread_works _ _ _ _ Hth) as (others & Hperm & Hmore).
    unfold systemOk in Hst. rewrite Hperm in Hst |- *. assert (copyOk (syQueue y) w) as Hc by (apply (st_copies _ _ _ Hst); by left).
    pose proof (runWork_held f bound rd w (syQueue y) (st_queue _ _ _ Hst) Hc) as Hrun. destruct (runWork ranged rd w (syQueue y)) as [q more].
    cbn [fst snd syQueue syThreads] in *. rewrite Hmore, weighAll_app. change (weighAll f workItems (w :: others)) with (weigh f (workItems w) + weighAll f workItems others)%nat. lia.
Qed.

Lemma run_held f steps : Z.of_nat (length steps) < 2 ^ 64 -> systemHeld f (run ranged steps) = weighAll f submittedItems steps.*2.
Proof.
  induction steps as [|[rd l] steps IH] using rev_ind; intros Hb.
  - unfold systemHeld, held, settled, waiting, weighAll, pendingTotal. cbn. by rewrite map_to_list_empty.
  - rewrite length_app in Hb. cbn [length] in Hb. rewrite run_snoc. rewrite (systemStep_held f (Z.of_nat (length steps))) by (apply system_run_ok; lia).
    rewrite IH by lia. rewrite fmap_app, weighAll_app. unfold weighAll at 3. cbn. lia.
Qed.

Lemma weigh_perm (l k : list item) : (forall f, weigh f l = weigh f k) -> l ≡ₚ k.
Proof.
  revert k. induction l as [|x l IH]; intros k H.
  - destruct k as [|y k]; [done|]. specialize (H (fun _ => 1%nat)). rewrite weigh_nil, weigh_cons in H. lia.
  - assert (x ∈ k) as Hx.
    { destruct (decide (x ∈ k)) as [|Hn]; [done|]. exfalso. specialize (H (fun y => if bool_decide (y = x) then 1 else 0)%nat). rewrite weigh_cons in H.
      rewrite bool_decide_eq_true_2 in H by done. unfold weigh in H at 2. rewrite sum_none in H; [lia|]. intros y Hy. rewrite bool_decide_eq_false_2; [done|congruence]. }
    apply list_elem_of_split in Hx as (k1 & k2 & ->). rewrite <- Permutation_middle. f_equiv. apply IH. intros f. specialize (H f).
    rewrite weigh_cons, weigh_app, weigh_cons in H. rewrite weigh_app. lia.
Qed.

Lemma weighAll_concat {A} f items (l : list A) : weighAll f items l = weigh f (concat (items <$> l)).
Proof. induction l as [|x l IH]; [done|]. cbn. rewrite weigh_app, <- IH. done. Qed.

(** What waits in the resolutions. *)
Definition waitingItems (q : stackDatagramSender) : list item := concat (resolutionItems <$> (map_to_list (dsPending q)).*2).

(** C37. However the threads interleave, no datagram is lost or doubled: what
    was submitted is what was sent, delivered inside, refused or given up, what
    waits in a resolution and what a thread is carrying, each once; the copies a
    refresh makes while others change the resolution count for nothing. *)
Theorem datagrams_accounted steps :
  Z.of_nat (length steps) < 2 ^ 64 ->
  let y := run ranged steps in
  concat (submittedItems <$> steps.*2) ≡ₚ
    concat (outcomeItems <$> dsLog (syQueue y)) ++ waitingItems (syQueue y) ++ concat (workItems <$> concat (syThreads y)).
Proof.
  intros Hb. cbv zeta. apply weigh_perm. intros f. rewrite <- weighAll_concat, <- (run_held f steps Hb), !weigh_app, <- !weighAll_concat.
  unfold systemHeld, held, waiting, waitingItems. rewrite <- weighAll_concat. unfold settled, pendingTotal, weighAll. lia.
Qed.

(** C38. Whatever is sent, seen and timed out, a resolution that is pending holds
    one to sixty-four datagrams, all together hold at most two hundred and
    fifty-six, none is probed more than four times, and no step indexes past a
    list it read before. *)
Theorem neighbor_bounds steps :
  Z.of_nat (length steps) < 2 ^ 64 ->
  let q := syQueue (run ranged steps) in
  (forall key r, dsPending q !! key = Some r -> (1 <= resolutionSize r <= maxPendingNeighborDatagrams)%nat) /\
  (length (waitingItems q) <= maxPendingNeighborTotal)%nat /\ (forall id, probes id q <= notificationNeighborRetries)%nat /\ Panicked ∉ dsLog q.
Proof.
  intros Hb. cbv zeta. destruct (system_run_ok steps Hb) as [[H1 _ H3 _ H5] _ _ _ _ _ H7 _]. split_and!; [intros key r Hr; by apply (H1 key)| | |done].
  - unfold waitingItems. etrans; [|exact H3]. unfold pendingTotal. induction (map_to_list _).*2 as [|r l IH]; [done|]. cbn. rewrite length_app.
    unfold resolutionItems at 1. rewrite length_app, !length_fmap. unfold resolutionSize at 1. lia.
  - intros id. specialize (H7 id). lia.
Qed.

(** C39. A resolution is never forgotten: while it is pending a thread is about
    to probe it or a timer will, so that once every thread has finished and no
    timer is armed nothing waits any more. *)
Theorem nothing_forgotten steps :
  Z.of_nat (length steps) < 2 ^ 64 ->
  let y := run ranged steps in
  (forall key r, dsPending (syQueue y) !! key = Some r ->
    (exists thread w, thread ∈ syThreads y /\ w ∈ thread /\ tends key (nrID r) w) \/ exists t, dsTimers (syQueue y) !! t = Some (key, nrID r)) /\
  (Forall (fun thread => thread = []) (syThreads y) -> dsTimers (syQueue y) = ∅ -> waitingItems (syQueue y) = []).
Proof.
  intros Hb. cbv zeta. pose proof (st_alive _ _ _ (system_run_ok steps Hb)) as Ha.
  assert (forall key r, dsPending (syQueue (run ranged steps)) !! key = Some r ->
    (exists thread w, thread ∈ syThreads (run ranged steps) /\ w ∈ thread /\ tends key (nrID r) w) \/
    exists t, dsTimers (syQueue (run ranged steps)) !! t = Some (key, nrID r)) as H.
  { intros key r Hr. destruct (Ha key r Hr) as [(w & Hw & Ht)|Ht]; [left|by right]. apply list_elem_of_In, in_concat in Hw as (thread & Hth & Hin).
    exists thread, w. by rewrite !list_elem_of_In. }
  split; [done|]. intros Hnone Htimers. unfold waitingItems. destruct (map_to_list (dsPending _)) as [|[key r] l] eqn:E; [done|]. exfalso.
  assert (dsPending (syQueue (run ranged steps)) !! key = Some r) as Hr by (apply elem_of_map_to_list; rewrite E; by left).
  destruct (H key r Hr) as [(thread & w & Hth & Hw & _)|(t & Ht)]; [|by rewrite Htimers, lookup_empty in Ht].
  rewrite Forall_forall in Hnone. rewrite (Hnone thread Hth) in Hw. by apply elem_of_nil in Hw.
Qed.
End runs.

(** A host on 10.0.0.1/24 that reports to 10.0.0.9, which nobody has seen. *)
Definition testStore : Store :=
  let s := NewStore (mkIdentity "h1") (fun _ => 0) in
  s <| running := running s <| cfNetwork :=
    mkNetwork [mkInterface "eth0" "lan" (mkPrefix (Addr4 0x0a000001) 24) "" [] true true true] [] [] [] |> |>.

Definition testStack : netStack :=
  mkNetStack [mkEgressDevice (mkNetDevice (config.mkDevice "h1" "host" [] [] None [] []) [2; 0; 0; 0; 0; 1] []) 0 None None] []
    {[0%nat := testStore]} None DeviceTable.NewDeviceTable None LiveIndex.emptyIndex.

Definition testReading (now : Time) : reading := mkReading testStack now true.

Definition testNotification : pendingNotification := newNotification testStack 0 0 (Addr4 0x0a000009) 162 162 [1; 2; 3].

(** It is submitted, its hop is probed, the timer fires, the refresh and the
    second probe are under way, and another one is submitted. *)
Definition testSteps : list (reading * label) :=
  (fun l => (testReading 0, l)) <$>
    ([Submit 0 testNotification] ++ replicate 9 (Run 0) ++ [Fire 1] ++ replicate 5 (Run 1) ++ [Submit 0 testNotification] ++ replicate 3 (Run 2)).

Definition noOrder (m : gmap Addr fabricEndpoint) : list fabricEndpoint := [].

Lemma testSteps_few : Z.of_nat (length testSteps) < 2 ^ 64.
Proof. reflexivity. Defined.

Lemma datagrams_accounted_witness :
  let y := run noOrder testSteps in
  concat (submittedItems <$> testSteps.*2) = [noteItem testNotification; noteItem testNotification] /\
  waitingItems (syQueue y) = [noteItem testNotification] /\ concat (workItems <$> concat (syThreads y)) = [noteItem testNotification] /\
  concat (submittedItems <$> testSteps.*2) ≡ₚ
    concat (outcomeItems <$> dsLog (syQueue y)) ++ waitingItems (syQueue y) ++ concat (workItems <$> concat (syThreads y)).
Proof.
  split; [vm_compute; reflexivity|]. split; [vm_compute; reflexivity|]. split; [vm_compute; reflexivity|].
  exact (datagrams_accounted noOrder testSteps testSteps_few).
Defined.

Lemma neighbor_bounds_witness :
  let q := syQueue (run noOrder testSteps) in
  probes 0 q = 1%nat /\ (probes 0 q <= notificationNeighborRetries)%nat.
Proof.
  split; [vm_compute; reflexivity|]. exact (proj1 (proj2 (proj2 (neighbor_bounds noOrder testSteps testSteps_few))) 0%nat).
Defined.

Lemma nothing_forgotten_witness :
  let y := run noOrder testSteps in
  exists r, dsPending (syQueue y) !! (0, Addr4 0x0a000009) = Some r /\
  ((exists thread w, thread ∈ syThreads y /\ w ∈ thread /\ tends (0, Addr4 0x0a000009) (nrID r) w) \/
   exists t, dsTimers (syQueue y) !! t = Some ((0, Addr4 0x0a000009), nrID r)).
Proof.
  cbv zeta. destruct (dsPending (syQueue (run noOrder testSteps)) !! (0, Addr4 0x0a000009)) as [r|] eqn:E; [|exfalso; revert E; vm_compute; discriminate].
  exists r. split; [reflexivity|]. exact (proj1 (nothing_forgotten noOrder testSteps testSteps_few) _ r E).
Defined.
