(* ===== verification/Informs.v ===== *)
(** * Informs: notifications that are acknowledged

    [protocols/snmp_inform.go] and its callers in [state_notifications.go]: the
    informs a stack waits for, the timers that resend them, and the delivery of
    a notification to its receivers.

    Goroutines share the tracker under its own mutex: a thread is the list of
    the critical sections it still has to run, and threads interleave freely
    (more freely than [stateNotificationManager.mu] lets them).  A device is a
    number and its registration the VLAN it sends on; the encoded notification
    is an argument.  A timer of [time.AfterFunc] is a number; its function keeps
    the key and the time-out it was created with.  What is sent and what is
    tracked and resent is logged, in order.

    An inform that is waited for always has an armed timer or a thread about to
    resend it, is resent at most as often as it was tracked for, and, once no
    more are sent, only finitely much can happen before nothing is waited for
    ([informs_settle]). *)

From S2P Require Import Prelude.
From S2P Require Import Netip.
From S2P Require Import NetipParse.
From S2P Require Import Streams.
From S2P Require Import HostEgress.

(** ** Data *)

(** What the delivery reads of a device's trap configuration. *)
Record TrapConfig := mkTrapConfig {
  tcReceivers : list string; tcInform : bool; tcInformRetries : Z; tcInformTimeoutSeconds : Z
}.

Record informKey := mkInformKey { ikRequestID : Z; ikReceiver : AddrPort }.

#[export] Instance informKey_eq_dec : EqDecision informKey.
Proof. solve_decision. Defined.
#[export] Instance informKey_countable : Countable informKey.
Proof. by apply (inj_countable' (fun k => (ikRequestID k, ikReceiver k)) (fun '(i, r) => mkInformKey i r)); intros []. Defined.

Record pendingInform := mkPendingInform {
  piDevice : nat; piReceiver : string; piPayload : list Z; piRemaining : Z; piTimer : nat
}.
#[export] Instance pendingInform_rebuild : Rebuild pendingInform := fun e =>
  mkPendingInform (piDevice e) (piReceiver e) (piPayload e) (piRemaining e) (piTimer e).

(** A [*time.Timer]: what its function was given, and the time it is armed for. *)
Record informTimer := mkInformTimer { imKey : informKey; imTimeout : Z; imArmed : option Z }.
#[export] Instance informTimer_rebuild : Rebuild informTimer := fun t => mkInformTimer (imKey t) (imTimeout t) (imArmed t).

(** A critical section, or a call of [send]. *)
Inductive informWork :=
| WTrack (device : nat) (traps : TrapConfig) (receiver : string) (requestID : Z) (payload : list Z)
| WSend (device : nat) (receiver : string) (payload : list Z)
| WRetry (key : informKey) (timeout : Z)
| WStop.

(** A call of the datagram sender. *)
Record sendCall := mkSendCall { scDevice : nat; scVLAN : Z; scReceiver : string; scSourcePort : Z; scPayload : list Z }.

Record notificationManager := mkManager {
  nmRegistrations : gmap nat Z;
  nmPending : gmap informKey pendingInform;
  nmTimers : list informTimer;
  nmThreads : list (list informWork);
  nmCalls : list sendCall;
  nmTracked : list (informKey * Z);
  nmResent : list informKey
}.
#[export] Instance notificationManager_rebuild : Rebuild notificationManager := fun m =>
  mkManager (nmRegistrations m) (nmPending m) (nmTimers m) (nmThreads m) (nmCalls m) (nmTracked m) (nmResent m).

Definition newManager : notificationManager := mkManager ∅ ∅ [] [] [] [] [].

(** ** The tracker *)

Definition defaultInformRetries : Z := 3.
Definition second : Z := 10 ^ 9.
Definition defaultInformTimeout : Z := 5 * second.
Definition DefaultSNMPTrapPort : Z := 162.

(** [Timer.Reset] and [Timer.Stop] *)
Definition resetTimer (n : nat) (timeout : Z) (m : notificationManager) : notificationManager :=
  m <| nmTimers := alter (fun t => t <| imArmed := Some timeout |>) n (nmTimers m) |>.
Definition stopTimer (n : nat) (m : notificationManager) : notificationManager :=
  m <| nmTimers := alter (fun t => t <| imArmed := None |>) n (nmTimers m) |>.

Definition informRetries (traps : TrapConfig) : Z :=
  if tcInformRetries traps =? 0 then defaultInformRetries else tcInformRetries traps.
Definition informTimeout (traps : TrapConfig) : Z :=
  let timeout := int64 (tcInformTimeoutSeconds traps * second) in
  if timeout <=? 0 then defaultInformTimeout else timeout.

Definition trackInform (device : nat) (traps : TrapConfig) (receiver : string) (requestID : Z) (payload : list Z)
    (m : notificationManager) : notificationManager :=
  match parseNotificationReceiver receiver with
  | None => m
  | Some (address, port) =>
      let retries := informRetries traps in
      let timeout := informTimeout traps in
      let key := mkInformKey requestID (mkAddrPort address port) in
      match nmPending m !! key with
      | Some existing => resetTimer (piTimer existing) timeout m
      | None =>
          m <| nmTimers := nmTimers m ++ [mkInformTimer key timeout (Some timeout)] |>
            <| nmPending := <[key := mkPendingInform device receiver payload retries (length (nmTimers m))]> (nmPending m) |>
            <| nmTracked := nmTracked m ++ [(key, retries)] |>
      end
  end.

(** What a timer's function does with the lock held, and what it sends then. *)
Definition retryInform (key : informKey) (timeout : Z) (m : notificationManager) : notificationManager * list informWork :=
  match nmPending m !! key with
  | None => (m, [])
  | Some entry =>
      if piRemaining entry <=? 0 then (m <| nmPending := delete key (nmPending m) |>, [])
      else
        let m := m <| nmPending := <[key := entry <| piRemaining := piRemaining entry - 1 |>]> (nmPending m) |> in
        (resetTimer (piTimer entry) timeout m <| nmResent := nmResent m ++ [key] |>,
         [WSend (piDevice entry) (piReceiver entry) (piPayload entry)])
  end.

Definition AcknowledgeInform (requestID : Z) (receiver : AddrPort) (m : notificationManager) : notificationManager * bool :=
  let key := mkInformKey requestID receiver in
  match nmPending m !! key with
  | None => (m, false)
  | Some entry => (stopTimer (piTimer entry) m <| nmPending := delete key (nmPending m) |>, true)
  end.

Definition stopInforms (m : notificationManager) : notificationManager :=
  foldr stopTimer m (piTimer <$> (map_to_list (nmPending m)).*2) <| nmPending := ∅ |>.

(** ** The manager *)

Definition send (device : nat) (receiver : string) (sourcePort : Z) (payload : list Z) (m : notificationManager) : notificationManager :=
  match nmRegistrations m !! device with
  | None => m
  | Some vlan => m <| nmCalls := nmCalls m ++ [mkSendCall device vlan receiver sourcePort payload] |>
  end.

(** The loop of [sendTrap] over the receivers. *)
Definition sendTrap (device : nat) (traps : TrapConfig) (requestID : Z) (payload : list Z) : list informWork :=
  receiver ← tcReceivers traps;
  let target := normalizeReceiver receiver DefaultSNMPTrapPort in
  (if tcInform traps then [WTrack device traps target requestID payload] else []) ++ [WSend device target payload].

Definition runInform (w : informWork) (m : notificationManager) : notificationManager * list informWork :=
  match w with
  | WTrack device traps receiver requestID payload => (trackInform device traps receiver requestID payload m, [])
  | WSend device receiver payload => (send device receiver DefaultSNMPTrapPort payload m, [])
  | WRetry key timeout => retryInform key timeout m
  | WStop => (stopInforms m, [])
  end.

Inductive informStep :=
| Register (device : nat) (vlan : Z)
| SendTrap (device : nat) (traps : TrapConfig) (requestID : Z) (payload : list Z)
| Acknowledge (requestID : Z) (receiver : AddrPort)
| ManagerReset
| TimerFires (timer : nat)
| RunThread (thread : nat).

Definition startThread (works : list informWork) (m : notificationManager) : notificationManager :=
  m <| nmThreads := nmThreads m ++ [works] |>.

(** [None] is a step that cannot be taken. *)
Definition managerStep (s : informStep) (m : notificationManager) : option notificationManager :=
  match s with
  | Register device vlan => Some (m <| nmRegistrations := <[device := vlan]> (nmRegistrations m) |>)
  | SendTrap device traps requestID payload => Some (startThread (sendTrap device traps requestID payload) m)
  | Acknowledge requestID receiver => Some (AcknowledgeInform requestID receiver m).1
  | ManagerReset => Some (startThread [WStop] (m <| nmRegistrations := ∅ |>))
  | TimerFires n =>
      t ← nmTimers m !! n;
      _ ← imArmed t;
      Some (startThread [WRetry (imKey t) (imTimeout t)] (stopTimer n m))
  | RunThread i =>
      works ← nmThreads m !! i;
      match works with
      | [] => None
      | w :: rest => let '(m', more) := runInform w m in Some (m' <| nmThreads := <[i := more ++ rest]> (nmThreads m') |>)
      end
  end.

Fixpoint informRun (steps : list informStep) (m : notificationManager) : option notificationManager :=
  match steps with [] => Some m | s :: steps => managerStep s m ≫= informRun steps end.

(** ** Somebody comes for what is waited for *)

(** The timer of an entry is its own, and armed unless a thread of [works] is
    about to look at the entry. *)
Definition watched (m : notificationManager) (works : list informWork) (key : informKey) (e : pendingInform) : Prop :=
  exists t, nmTimers m !! piTimer e = Some t /\ imKey t = key /\ (is_Some (imArmed t) \/ exists d, WRetry key d ∈ works).

Definition Watched (m : notificationManager) (works : list informWork) : Prop :=
  forall key e, nmPending m !! key = Some e -> watched m works key e.

(** Entries and their timers, kept by what only takes timers away from others. *)
Lemma reset_watched n d m works key e :
  watched m works key e -> watched (resetTimer n d m) works key e.
Proof.
  intros (t & Ht & Hk & Ha). destruct (decide (n = piTimer e)) as [->|Hn].
  - exists (t <| imArmed := Some d |>). cbn. rewrite list_lookup_alter_eq, Ht. naive_solver.
  - exists t. cbn. by rewrite list_lookup_alter_ne.
Qed.

Lemma reset_arms n d m works works' key e :
  n = piTimer e -> watched m works key e -> watched (resetTimer n d m) works' key e.
Proof.
  intros -> (t & Ht & Hk & Ha). exists (t <| imArmed := Some d |>). cbn. rewrite list_lookup_alter_eq, Ht. naive_solver.
Qed.

Lemma stop_watched n m works key e t :
  nmTimers m !! n = Some t -> imKey t <> key -> watched m works key e -> watched (stopTimer n m) works key e.
Proof.
  intros Hn Hne (t' & Ht & Hk & Ha). exists t'. cbn. rewrite list_lookup_alter_ne; [done|]. intros ->. congruence.
Qed.

Lemma watched_more m works works' key e :
  (forall d, WRetry key d ∈ works -> WRetry key d ∈ works') -> watched m works key e -> watched m works' key e.
Proof. intros Hw (t & ? & ? & [?|[d ?]]); exists t; naive_solver. Qed.

Lemma stops_pending l m : nmPending (foldr stopTimer m l) = nmPending m.
Proof. induction l; [done|]. cbn. done. Qed.

Lemma track_watched device traps receiver requestID payload m works :
  Watched m works -> Watched (trackInform device traps receiver requestID payload m) works.
Proof.
  intros H. unfold trackInform. destruct (parseNotificationReceiver receiver) as [[address port]|]; [|done].
  destruct (nmPending m !! _) as [existing|] eqn:He.
  - intros key e Hp. apply reset_watched. by apply H.
  - intros key e Hp. cbn in Hp. apply lookup_insert_Some in Hp as [[<- <-]|[Hne Hp]].
    + eexists. cbn. split; [by apply list_lookup_middle|]. split; [done|]. left. eauto.
    + destruct (H key e Hp) as (t & Ht & Hk). exists t. cbn. split; [by apply lookup_app_l_Some|done].
Qed.

Lemma retry_watched key d m m' more works :
  retryInform key d m = (m', more) -> Watched m (WRetry key d :: works) -> Watched m' (more ++ works).
Proof.
  intros Hr H.
  assert (forall k e, k <> key -> nmPending m !! k = Some e -> watched m (more ++ works) k e) as Ho.
  { intros k e Hk Hp. apply (watched_more _ (WRetry key d :: works)); [|by apply H].
    intros d' Hd. apply elem_of_app. right. apply elem_of_cons in Hd as [?|?]; [congruence|done]. }
  unfold retryInform in Hr. destruct (nmPending m !! key) as [entry|] eqn:He.
  2: { injection Hr as <- <-. intros k e Hp. apply Ho; [congruence|done]. }
  destruct (piRemaining entry <=? 0).
  - injection Hr as <- <-. intros k e Hp. cbn in Hp. apply lookup_delete_Some in Hp as [Hk Hp]. apply Ho; congruence.
  - injection Hr as <- <-. intros k e Hp. cbn in Hp. apply lookup_insert_Some in Hp as [[<- <-]|[Hk Hp]].
    + apply (reset_arms _ _ m (WRetry key d :: works)); [done|]. by destruct (H key entry He) as (t & ?); exists t.
    + apply reset_watched. apply Ho; congruence.
Qed.

Lemma ack_watched requestID receiver m works :
  Watched m works -> Watched (AcknowledgeInform requestID receiver m).1 works.
Proof.
  intros H. unfold AcknowledgeInform. destruct (nmPending m !! _) as [entry|] eqn:He; [|done].
  destruct (H _ _ He) as (t & Ht & Hk & _). intros k e Hp. cbn in Hp. apply lookup_delete_Some in Hp as [Hne Hp].
  apply (stop_watched _ m _ _ _ t); [done|congruence|]. by apply H.
Qed.

Lemma run_watched w m m' more works :
  runInform w m = (m', more) -> Watched m (w :: works) -> Watched m' (more ++ works).
Proof.
  intros Hr H. destruct w as [device traps receiver requestID payload|device receiver payload|key d|]; cbn in Hr.
  3: by eapply retry_watched.
  all: injection Hr as <- <-.
  - apply track_watched. intros k e Hp. apply (watched_more _ (WTrack device traps receiver requestID payload :: works)); [|by apply H].
    intros d Hd. by apply elem_of_cons in Hd as [?|?].
  - intros k e Hp. unfold send in *. destruct (nmRegistrations m !! device); cbn in Hp;
      (apply (watched_more _ (WSend device receiver payload :: works)); [|by apply H]); intros d Hd; by apply elem_of_cons in Hd as [?|?].
  - intros k e Hp. unfold stopInforms in Hp. cbn in Hp. by apply lookup_empty_Some in Hp.
Qed.

(** All sections the threads still have to run. *)
Definition allWorks (m : notificationManager) : list informWork := mjoin (nmThreads m).

Lemma threads_split (threads : list (list informWork)) i w rest :
  threads !! i = Some (w :: rest) ->
  exists others, mjoin threads ≡ₚ w :: others /\ forall more, mjoin (<[i := more ++ rest]> threads) ≡ₚ more ++ others.
Proof.
  intros Hi. apply list_elem_of_split_length in Hi as (l1 & l2 & -> & ->).
  exists (rest ++ mjoin l1 ++ mjoin l2). split.
  - rewrite join_app. cbn. rewrite <- Permutation_middle. f_equiv. by rewrite !(assoc_L (++)), (comm (++) (mjoin l1) rest).
  - intros more. rewrite insert_app_r_alt by lia. rewrite Nat.sub_diag. cbn. rewrite join_app. cbn. rewrite <- !(assoc_L (++)).
    by rewrite !(assoc_L (++)), (comm (++) (mjoin l1) more), <- !(assoc_L (++)), (assoc_L (++) (mjoin l1)), (comm (++) (mjoin l1) rest), <- !(assoc_L (++)).
Qed.

Lemma Watched_more m works works' : (forall w, w ∈ works -> w ∈ works') -> Watched m works -> Watched m works'.
Proof. intros Hw H key e Hp. apply (watched_more _ works); [auto|by apply H]. Qed.

Lemma threads_of_run w m m' more : runInform w m = (m', more) -> nmThreads m' = nmThreads m.
Proof.
  destruct w; cbn; unfold trackInform, send, retryInform, stopInforms; intros H; repeat case_match; injection H as <- <-; try done.
  cbn. generalize (piTimer <$> (map_to_list (nmPending m)).*2). intros l. induction l; [done|]. cbn. done.
Qed.

Lemma step_watched s m m' : managerStep s m = Some m' -> Watched m (allWorks m) -> Watched m' (allWorks m').
Proof.
  intros Hs H. destruct s as [device vlan|device traps requestID payload|requestID receiver| |n|i]; cbn in Hs.
  - by injection Hs as <-.
  - injection Hs as <-. unfold allWorks. cbn. rewrite join_app. apply (Watched_more _ (allWorks m)); [intros w Hw; set_solver|done].
  - injection Hs as <-. apply (Watched_more _ (allWorks m)); [|by apply ack_watched].
    unfold AcknowledgeInform, allWorks. by destruct (nmPending m !! _).
  - injection Hs as <-. unfold allWorks. cbn. rewrite join_app. apply (Watched_more _ (allWorks m)); [intros w Hw; set_solver|done].
  - apply bind_Some in Hs as (t & Ht & Hs). apply bind_Some in Hs as (? & Ha & [= <-]). unfold allWorks. cbn. rewrite join_app.
    intros key e Hp. destruct (H key e Hp) as (t' & Ht' & Hk & Hw). destruct (decide (n = piTimer e)) as [->|Hn].
    + exists (t <| imArmed := None |>). cbn. rewrite list_lookup_alter_eq, Ht. simplify_eq. split; [done|]. split; [done|].
      right. exists (imTimeout t). set_solver.
    + exists t'. cbn. rewrite list_lookup_alter_ne by done. split; [done|]. split; [done|]. destruct Hw as [?|[d ?]]; [by left|].
      right. exists d. apply elem_of_app. by left.
  - apply bind_Some in Hs as (works & Hi & Hs). destruct works as [|w rest]; [done|].
    destruct (runInform w m) as [m1 more] eqn:Hr. injection Hs as <-. unfold allWorks. cbn.
    destruct (threads_split _ _ _ _ Hi) as (others & Ho & Hm). rewrite (threads_of_run _ _ _ _ Hr).
    apply (Watched_more _ (more ++ others)); [intros w'; by rewrite Hm|]. change (Watched m1 (more ++ others)).
    apply (run_watched w m); [done|]. apply (Watched_more _ (allWorks m)); [intros w'; unfold allWorks; by rewrite Ho|done].
Qed.

(** ** How often an inform is resent *)

Definition resendsOf (key : informKey) (m : notificationManager) : nat := length (filter (eq key) (nmResent m)).
Definition allowedOf (key : informKey) (m : notificationManager) : Z :=
  foldr Z.add 0 ((fun t => Z.max 0 t.2) <$> filter (fun t => t.1 = key) (nmTracked m)).
Definition leftOf (key : informKey) (m : notificationManager) : Z :=
  match nmPending m !! key with Some e => Z.max 0 (piRemaining e) | None => 0 end.

Definition Bounded (m : notificationManager) : Prop :=
  forall key, Z.of_nat (resendsOf key m) + leftOf key m <= allowedOf key m.

Lemma allowed_snoc key m key' r :
  allowedOf key (m <| nmTracked := nmTracked m ++ [(key', r)] |>) = allowedOf key m + (if decide (key' = key) then Z.max 0 r else 0).
Proof.
  unfold allowedOf. cbn. rewrite filter_app, fmap_app, foldr_app, filter_cons, filter_nil. cbn.
  assert (forall l z, foldr Z.add z l = foldr Z.add 0 l + z) as Hf by (intros l z; induction l; cbn; lia).
  case_decide; cbn; rewrite Hf; lia.
Qed.

Lemma resends_snoc key m key' :
  resendsOf key (m <| nmResent := nmResent m ++ [key'] |>) = (resendsOf key m + if decide (key = key') then 1 else 0)%nat.
Proof. unfold resendsOf. cbn. rewrite filter_app, length_app, filter_cons, filter_nil. by case_decide. Qed.

Lemma Bounded_same m m' :
  nmTracked m' = nmTracked m -> nmResent m' = nmResent m -> (forall key, leftOf key m' <= leftOf key m) -> Bounded m -> Bounded m'.
Proof.
  intros Ht Hr Hl H key. specialize (H key). specialize (Hl key). unfold resendsOf, allowedOf in *. rewrite Ht, Hr. lia.
Qed.

Lemma leftOf_delete key k m : leftOf k (m <| nmPending := delete key (nmPending m) |>) <= leftOf k m.
Proof.
  unfold leftOf. cbn. destruct (decide (key = k)) as [->|Hk].
  - rewrite lookup_delete_eq. case_match; lia.
  - by rewrite lookup_delete_ne.
Qed.

Lemma track_bounded device traps receiver requestID payload m :
  Bounded m -> Bounded (trackInform device traps receiver requestID payload m).
Proof.
  intros H. unfold trackInform. destruct (parseNotificationReceiver receiver) as [[address port]|]; [|done].
  set (key := mkInformKey requestID (mkAddrPort address port)). destruct (nmPending m !! key) as [existing|] eqn:He; [done|].
  intros k. specialize (H k).
  change (Z.of_nat (resendsOf k m) + leftOf k (m <| nmPending := <[key := mkPendingInform device receiver payload (informRetries traps) (length (nmTimers m))]> (nmPending m) |>)
    <= allowedOf k (m <| nmTracked := nmTracked m ++ [(key, informRetries traps)] |>)).
  rewrite allowed_snoc. unfold leftOf in *. cbn. case_decide as Hk.
  - subst k. rewrite lookup_insert_eq. cbn. rewrite He in H. lia.
  - rewrite lookup_insert_ne by done. lia.
Qed.

Lemma retry_bounded key d m : Bounded m -> Bounded (retryInform key d m).1.
Proof.
  intros H. unfold retryInform. destruct (nmPending m !! key) as [entry|] eqn:He; [|done].
  destruct (Z.leb_spec (piRemaining entry) 0); cbn [fst].
  { apply (Bounded_same m); [done..| |done]. intros k. apply leftOf_delete. }
  intros k. specialize (H k).
  change (Z.of_nat (resendsOf k (m <| nmResent := nmResent m ++ [key] |>))
    + leftOf k (m <| nmPending := <[key := entry <| piRemaining := piRemaining entry - 1 |>]> (nmPending m) |>) <= allowedOf k m).
  rewrite resends_snoc. unfold leftOf in *. cbn. case_decide as Hk.
  - subst k. rewrite lookup_insert_eq. rewrite He in H. cbn. lia.
  - rewrite lookup_insert_ne by done. lia.
Qed.

Lemma ack_bounded requestID receiver m : Bounded m -> Bounded (AcknowledgeInform requestID receiver m).1.
Proof.
  intros H. unfold AcknowledgeInform. destruct (nmPending m !! _) as [entry|] eqn:He; [|done].
  apply (Bounded_same m); [done..| |done]. intros k. apply (leftOf_delete _ _ m).
Qed.

Lemma stop_same m : nmTracked (stopInforms m) = nmTracked m /\ nmResent (stopInforms m) = nmResent m.
Proof.
  unfold stopInforms. cbn. generalize (piTimer <$> (map_to_list (nmPending m)).*2). intros l. by induction l.
Qed.

Lemma run_bounded w m : Bounded m -> Bounded (runInform w m).1.
Proof.
  intros H. destruct w as [device traps receiver requestID payload|device receiver payload|key d|]; cbn.
  - by apply track_bounded.
  - unfold send. by destruct (nmRegistrations m !! device).
  - by apply retry_bounded.
  - destruct (stop_same m). apply (Bounded_same m); [done..| |done]. intros k. unfold leftOf. cbn. rewrite lookup_empty. case_match; lia.
Qed.

Lemma step_bounded s m m' : managerStep s m = Some m' -> Bounded m -> Bounded m'.
Proof.
  intros Hs H. destruct s as [device vlan|device traps requestID payload|requestID receiver| |n|i]; cbn in Hs.
  1, 2, 4: by injection Hs as <-.
  - injection Hs as <-. by apply ack_bounded.
  - apply bind_Some in Hs as (t & Ht & Hs). by apply bind_Some in Hs as (? & Ha & [= <-]).
  - apply bind_Some in Hs as (works & Hi & Hs). destruct works as [|w rest]; [done|].
    pose proof (run_bounded w m H) as Hb. destruct (runInform w m) as [m1 more]. by injection Hs as <-.
Qed.

(** ** How much is left to do *)

Definition workWeight (w : informWork) : nat :=
  match w with WTrack _ traps _ _ _ => 3 + 3 * Z.to_nat (informRetries traps) | _ => 1 end.
Definition timerWeight (t : informTimer) : nat := match imArmed t with Some _ => 2 | None => 0 end.
Definition entryWeight (e : pendingInform) : nat := 3 * Z.to_nat (piRemaining e).

Definition pendingWeight (pending : gmap informKey pendingInform) : nat := sum_list_with entryWeight (map_to_list pending).*2.
Definition stock (m : notificationManager) : nat := (sum_list_with timerWeight (nmTimers m) + pendingWeight (nmPending m))%nat.
Definition measure (m : notificationManager) : nat := (sum_list_with workWeight (allWorks m) + stock m)%nat.

#[export] Instance sum_perm {A} (f : A -> nat) : Proper ((≡ₚ) ==> (=)) (sum_list_with f).
Proof. intros l l' H. induction H; cbn; lia. Qed.

Lemma pendingWeight_fresh key e pending :
  pending !! key = None -> pendingWeight (<[key := e]> pending) = (entryWeight e + pendingWeight pending)%nat.
Proof. intros Hn. unfold pendingWeight. by rewrite (map_to_list_insert _ _ _ Hn). Qed.

Lemma pendingWeight_delete key e pending :
  pending !! key = Some e -> pendingWeight pending = (entryWeight e + pendingWeight (delete key pending))%nat.
Proof. intros He. unfold pendingWeight. by rewrite <- (map_to_list_delete _ _ _ He). Qed.

Lemma pendingWeight_change key e e' pending :
  pending !! key = Some e ->
  (pendingWeight (<[key := e']> pending) + entryWeight e = pendingWeight pending + entryWeight e')%nat.
Proof.
  intros He. rewrite (pendingWeight_delete _ _ _ He), <- insert_delete_eq, pendingWeight_fresh by apply lookup_delete_eq. lia.
Qed.

(** Arming a timer costs two, disarming it gains. *)
Lemma timers_alter (f : informTimer -> informTimer) n l c :
  (forall t, (timerWeight (f t) <= timerWeight t + c)%nat) ->
  (sum_list_with timerWeight (alter f n l) <= sum_list_with timerWeight l + c)%nat.
Proof. intros Hf. revert n. induction l as [|t l IH]; intros [|n]; [cbn; lia..| |].
  - specialize (Hf t). change (alter f 0%nat (t :: l)) with (f t :: l). cbn. lia.
  - specialize (IH n). change (alter f (S n) (t :: l)) with (t :: alter f n l). cbn. lia.
Qed.

Lemma timers_fired n l t :
  l !! n = Some t -> is_Some (imArmed t) ->
  (sum_list_with timerWeight (alter (fun t => t <| imArmed := None |>) n l) + 2 = sum_list_with timerWeight l)%nat.
Proof.
  intros Ht [d Hd]. revert n Ht. induction l as [|t' l IH]; intros [|n] Ht; [done..| |].
  - injection Ht as ->. cbn. unfold timerWeight. rewrite Hd. lia.
  - specialize (IH n Ht). cbn in IH |- *. lia.
Qed.

Lemma foldr_stop_timers l m :
  (sum_list_with timerWeight (nmTimers (foldr stopTimer m l)) <= sum_list_with timerWeight (nmTimers m))%nat.
Proof.
  induction l as [|n l IH]; [done|]. cbn. etrans; [|exact IH].
  rewrite <- (Nat.add_0_r (sum_list_with timerWeight (nmTimers (foldr stopTimer m l)))). apply timers_alter.
  intros t. unfold timerWeight. cbn. lia.
Qed.

Lemma reset_stock n d m : (stock (resetTimer n d m) <= stock m + 2)%nat.
Proof.
  unfold stock. cbn. pose proof (timers_alter (fun t => t <| imArmed := Some d |>) n (nmTimers m) 2) as Ht. cbn in Ht.
  assert (sum_list_with timerWeight (alter (fun t => mkInformTimer (imKey t) (imTimeout t) (Some d)) n (nmTimers m))
    <= sum_list_with timerWeight (nmTimers m) + 2)%nat; [|lia]. apply Ht. intros t. unfold timerWeight. cbn. lia.
Qed.

Lemma stop_stock n m : (stock (stopTimer n m) <= stock m)%nat.
Proof.
  unfold stock. pose proof (foldr_stop_timers [n] m) as Ht. cbn in Ht |- *. lia.
Qed.

Lemma delete_stock key m : (stock (m <| nmPending := delete key (nmPending m) |>) <= stock m)%nat.
Proof.
  unfold stock. cbn. destruct (nmPending m !! key) as [e|] eqn:He.
  - rewrite (pendingWeight_delete _ _ _ He). lia.
  - by rewrite delete_id.
Qed.

(** Whatever a thread runs, less is left. *)
Lemma run_less w m m' more :
  runInform w m = (m', more) -> (stock m' + sum_list_with workWeight more < stock m + workWeight w)%nat.
Proof.
  destruct w as [device traps receiver requestID payload|device receiver payload|key d|]; cbn; intros H.
  - injection H as <- <-. unfold trackInform. destruct (parseNotificationReceiver receiver) as [[address port]|]; [|cbn; lia].
    set (key := mkInformKey requestID (mkAddrPort address port)). destruct (nmPending m !! key) as [existing|] eqn:He.
    + pose proof (reset_stock (piTimer existing) (informTimeout traps) m). cbn [sum_list_with workWeight]. lia.
    + unfold stock. cbn. rewrite sum_list_with_app, pendingWeight_fresh by done. cbn. unfold entryWeight. cbn. lia.
  - injection H as <- <-. unfold send. destruct (nmRegistrations m !! device); cbn; unfold stock; cbn; lia.
  - unfold retryInform in H. destruct (nmPending m !! key) as [entry|] eqn:He; [|injection H as <- <-; cbn; lia].
    destruct (Z.leb_spec (piRemaining entry) 0); injection H as <- <-.
    + pose proof (delete_stock key m). unfold stock in *. cbn in *. lia.
    + pose proof (reset_stock (piTimer entry) d (m <| nmPending := <[key := entry <| piRemaining := piRemaining entry - 1 |>]> (nmPending m) |>)) as Hr.
      pose proof (pendingWeight_change key entry (entry <| piRemaining := piRemaining entry - 1 |>) _ He) as Hc.
      unfold stock in *. unfold entryWeight in Hc. cbn in Hr, Hc |- *. lia.
  - injection H as <- <-. unfold stopInforms. pose proof (foldr_stop_timers (piTimer <$> (map_to_list (nmPending m)).*2) m).
    unfold stock. cbn. unfold pendingWeight at 1. rewrite map_to_list_empty. cbn. lia.
Qed.

(** A step of a timer or a thread; a step that brings no new work. *)
Definition progress (s : informStep) : bool := match s with TimerFires _ | RunThread _ => true | _ => false end.
Definition quiet (s : informStep) : bool :=
  match s with Register _ _ | Acknowledge _ _ | TimerFires _ | RunThread _ => true | _ => false end.

Lemma step_less s m m' :
  managerStep s m = Some m' -> quiet s = true -> (measure m' + (if progress s then 1 else 0) <= measure m)%nat.
Proof.
  intros Hs Hq. destruct s as [device vlan|device traps requestID payload|requestID receiver| |n|i]; try done; cbn in Hs |- *.
  - injection Hs as <-. unfold measure, stock, allWorks. cbn. lia.
  - injection Hs as <-. unfold AcknowledgeInform. destruct (nmPending m !! _) as [entry|]; [|cbn; lia].
    pose proof (delete_stock (mkInformKey requestID receiver) (stopTimer (piTimer entry) m)) as Hd.
    pose proof (stop_stock (piTimer entry) m). unfold measure, allWorks, stock in *. cbn in *. lia.
  - apply bind_Some in Hs as (t & Ht & Hs). apply bind_Some in Hs as (d & Ha & [= <-]).
    pose proof (timers_fired n (nmTimers m) t Ht) as Hf. cbn in Hf. unfold measure, stock, allWorks. cbn.
    rewrite join_app, sum_list_with_app. cbn. specialize (Hf ltac:(by exists d)). lia.
  - apply bind_Some in Hs as (works & Hi & Hs). destruct works as [|w rest]; [done|].
    destruct (runInform w m) as [m1 more] eqn:Hr. injection Hs as <-. pose proof (run_less _ _ _ _ Hr).
    destruct (threads_split _ _ _ _ Hi) as (others & Ho & Hm). unfold measure, allWorks. cbn.
    rewrite (threads_of_run _ _ _ _ Hr), Hm, Ho, sum_list_with_app. cbn. unfold stock in *. cbn. lia.
Qed.

(** ** Runs *)

Lemma run_ind (P : notificationManager -> Prop) :
  (forall s m m', managerStep s m = Some m' -> P m -> P m') ->
  forall steps m m', informRun steps m = Some m' -> P m -> P m'.
Proof.
  intros Hs steps. induction steps as [|s steps IH]; intros m m' H Hm; cbn in H; [by injection H as <-|].
  apply bind_Some in H as (m1 & H1 & H). eauto.
Qed.

Lemma reached_watched steps m : informRun steps newManager = Some m -> Watched m (allWorks m).
Proof. intros H. apply (run_ind (fun m => Watched m (allWorks m)) step_watched _ _ _ H). intros key e Hp. cbn in Hp. by apply lookup_empty_Some in Hp. Qed.

Lemma reached_bounded steps m : informRun steps newManager = Some m -> Bounded m.
Proof. intros H. apply (run_ind Bounded step_bounded _ _ _ H). done. Qed.

Lemma quiet_run_length later m m' :
  informRun later m = Some m' -> Forall (fun s => quiet s = true) later ->
  (measure m' + length (filter progress later) <= measure m)%nat.
Proof.
  revert m. induction later as [|s later IH]; intros m H Hq; cbn in H; [injection H as <-; cbn; lia|].
  apply bind_Some in H as (m1 & H1 & H). apply Forall_cons in Hq as [Hs Hq]. specialize (IH _ H Hq).
  pose proof (step_less _ _ _ H1 Hs). rewrite filter_cons. case_decide as Hp; cbn; [|destruct (progress s); lia].
  destruct (progress s); [lia|done].
Qed.

(** A timer is armed or a thread has something to run, as long as something is waited for. *)
Lemma watched_progress m :
  Watched m (allWorks m) -> nmPending m <> ∅ -> exists s m', progress s = true /\ managerStep s m = Some m'.
Proof.
  intros H Hne. apply map_choose in Hne as (key & e & Hp). destruct (H key e Hp) as (t & Ht & _ & [[d Hd]|[d Hw]]).
  - exists (TimerFires (piTimer e)). eexists. split; [done|]. cbn. by rewrite Ht; cbn; rewrite Hd.
  - apply list_elem_of_join in Hw as (works & Hw & Hin). apply list_elem_of_lookup in Hin as (i & Hi).
    destruct works as [|w rest]; [by apply not_elem_of_nil in Hw|]. exists (RunThread i).
    destruct (runInform w m) as [m1 more] eqn:Hr. eexists. split; [done|]. cbn. rewrite Hi. cbn. by rewrite Hr.
Qed.


(** A tracked inform can always be brought to its end without an answer. *)
Theorem informs_give_up (steps : list informStep) (m : notificationManager) :
  informRun steps newManager = Some m ->
  exists later m', Forall (fun s => progress s = true) later /\ informRun later m = Some m' /\ nmPending m' = ∅.
Proof.
  intros H. apply reached_watched in H. remember (measure m) as n eqn:Hn. revert m Hn H.
  induction (lt_wf n) as [n _ IH]. intros m -> H. destruct (decide (nmPending m = ∅)) as [He|Hne]; [by exists [], m|].
  destruct (watched_progress m H Hne) as (s & m1 & Hs & Hstep).
  pose proof (step_less s m m1 Hstep ltac:(by destruct s)) as Hl. rewrite Hs in Hl.
  destruct (IH (measure m1) ltac:(lia) m1 eq_refl (step_watched _ _ _ Hstep H)) as (later & m' & Hf & Hr & He).
  exists (s :: later), m'. split; [by constructor|]. cbn. by rewrite Hstep.
Qed.

(** ** Two devices, one manager

    The key of an inform is its request ID, the version of the event in the
    device's own store, and the receiver: it does not name the device. *)

(** An inform whose key is waited for is not tracked: it will not be resent, and
    the entry of the other inform is acknowledged by its answer. *)
Theorem untracked_inform (device : nat) (traps : TrapConfig) (receiver : string) (requestID : Z) (payload : list Z)
    (m : notificationManager) (address : Addr) (port : Z) (other : pendingInform) :
  parseNotificationReceiver receiver = Some (address, port) ->
  nmPending m !! mkInformKey requestID (mkAddrPort address port) = Some other ->
  let m' := trackInform device traps receiver requestID payload m in
  nmPending m' = nmPending m /\ nmTracked m' = nmTracked m.
Proof. intros Hp Ho. unfold trackInform. rewrite Hp. cbn. by rewrite Ho. Qed.

Definition testTraps : TrapConfig := mkTrapConfig ["192.0.2.9"%string] true 2 0.
Definition testManager : AddrPort := mkAddrPort (AddrFrom4 192 0 2 9) 162.

(** Two devices start: both send the inform of version 1 to the manager, and the
    second one is lost.  The answer to the first ends the waiting. *)
Definition testStart : list informStep :=
  [Register 0 0; Register 1 0; SendTrap 0 testTraps 1 [10]; SendTrap 1 testTraps 1 [11]; RunThread 0; RunThread 0; RunThread 1; RunThread 1].

Example second_inform_forgotten :
  (fun m => (scPayload <$> nmCalls m, nmPending m, omap imArmed (nmTimers m))) <$>
    informRun (testStart ++ [Acknowledge 1 testManager]) newManager
  = Some ([[10]; [11]], ∅, []).
Proof. vm_compute. reflexivity. Qed.

(** Without an answer the first is sent three times, the second once. *)
Definition testSilence : list informStep :=
  [TimerFires 0; RunThread 2; RunThread 2; TimerFires 0; RunThread 3; RunThread 3; TimerFires 0; RunThread 4].

Example second_inform_once :
  (fun m => (scPayload <$> nmCalls m, nmPending m, omap imArmed (nmTimers m))) <$> informRun (testStart ++ testSilence) newManager
  = Some ([[10]; [11]; [10]; [10]], ∅, []).
Proof. vm_compute. reflexivity. Qed.

Definition testStarted : notificationManager := default newManager (informRun testStart newManager).

